(* ===== verification/_CoqProject ===== *)
-Q . S2P
Prelude.v
JsNumber.v
JsNumberFacts.v
JsText.v
Served.v
ExecTypes.v
ExecOrders.v
ExecPositions.v
ExecIntent.v
ExecState.v
ExecFacts.v
ExecProps.v
AdapterTypes.v
Adapter.v
AdapterFacts.v
AdapterProps.v
JsDecimal.v
JsDecimalFacts.v
Json.v
JsonFacts.v
Effects.v
StageTypes.v
Signals.v
Decision.v
Ranking.v
Planner.v
Intelligence.v
DecisionFacts.v
DecisionProps.v
IntelligenceFacts.v
IntelligenceProps.v
MarketState.v
RiskModel.v
Journal.v
JournalFacts.v
RiskJournal.v
RiskEngine.v
RiskFacts.v
RiskProps.v
Portfolio.v
ExecStage.v
StageFacts.v
Strategies.v
Admission.v
Pipeline.v
PipelineFacts.v
PipelineProps.v
Replay.v
Features.v
FeatureProps.v
Quality.v
QualityProps.v
Ingestion.v
IngestionProps.v
Backfill.v
Live.v
LiveFacts.v
LiveProps.v
Connector.v
Binance.v
Deribit.v
ConnectorFacts.v
ConnectorProps.v
MarketOrder.v
MarketStage.v
MarketJournal.v
MarketFacts.v
StageProps.v
Venue.v
MarketEdge.v
VenueFacts.v
VenueProps.v
Control.v
ControlWorld.v
ControlStore.v
ControlPlane.v
ControlFacts.v
ControlRuns.v
ControlEval.v
ControlProps.v
