(* ===== verification/Prelude.v ===== *)
(** * Nexus Quant: verification library (root file)

    Nexus Quant is a TypeScript monorepo around one trading path: a decision engine and
    a planner produce served records (packages/trading-decision, packages/trading-plan);
    the execution core (packages/execution-core) turns them into an intent, a plan and a
    state machine driven by commands; execution adapters (packages/execution-adapter)
    drive that machine on behalf of a venue; and the workers (services/workers) run the
    pipeline under a control plane (packages/control, services/workers/src/control) that
    decides at every tick whether trading is permitted.  At a tick the workers'
    execution stage (services/workers/src/execution) aggregates decisions into
    proposals, asks the risk engine (services/workers/src/risk) and the exposure limits
    about each, and hands the approved intents to an adapter, which may be the market
    layer (services/workers/src/market): orders, brokers, the live venue's transport,
    positions, account, a durable journal and a portfolio ledger.  The pipeline tick
    (services/workers/src/pipeline) reads persisted feature snapshots and strategy
    versions, generates a signal for each, lets its strategy decide and publishes the
    decision on a bus (services/workers/src/bus).  The portfolio engine
    (packages/portfolio-intelligence) sums served decisions and plans up into the state
    of the book: exposure, heat, warnings and a verdict.  Upstream, the ingestion
    service (services/ingestion) fetches and streams market data from two venues, writes
    it idempotently, certifies every candle window by a quality report and computes the
    feature snapshots from certified windows.  This library models all of these,
    definition by definition, and proves what makes them safe.

    ** Files

    - [Prelude]: notations and libraries, reachability ([run]), tactics, list lemmas,
      and the injectivity of colon-separated ids.
    - [JsNumber], [JsNumberFacts]: the Number type.  A finite Number is a sign, a 53-bit
      mantissa and an exponent; every operation is the exact rational result rounded to
      nearest, ties to even, with NaN, infinities and -0; the facts file has the
      characterisation of rounding to decimals and the order and addition lemmas.
      [JsText]: Number to text, Math.round, join, toISOString.  [JsDecimal],
      [JsDecimalFacts]: toFixed, trim, text to Number, and that quantized amounts read
      back.  [Json], [JsonFacts]: JSON values, JSON.stringify and JSON.parse, with their
      round trip.
    - [Served]: the records the decision engine and the planner serve.
    - [Signals]: services/workers/src/signal (the sealed rule, generation, lineage,
      replay, persistence).  [Decision], [Ranking]: packages/trading-decision/src.
      [Planner]: packages/trading-plan/src.  [DecisionFacts], [DecisionProps]: their
      lemmas and properties.  A [Partial] configuration is a record of optional fields,
      the decimals of a price are a [nat], and the time value of a date text is the
      parameter [timeOf]. [Intelligence]: packages/portfolio-intelligence/src;
      [IntelligenceFacts] (sorting by distinct keys, grouping as filtering, the scales
      of the scores), [IntelligenceProps].
    - Execution core, packages/execution-core/src: [ExecTypes] (types.ts, util.ts),
      [ExecOrders] (orders.ts, fills.ts), [ExecPositions] (positions.ts), [ExecIntent]
      (validation.ts, intent.ts, plan.ts), [ExecState] (events.ts, audit.ts, state.ts,
      execution.ts; one Definition per case of the reducer's switch), [ExecFacts]
      (lemmas: the committed moves, the invariants of reachable states, and [executes],
      what each command asks of the state and does to it), [ExecProps] (with sample runs
      and three counterexamples).
    - Execution adapters, packages/execution-adapter/src: [AdapterTypes] (types.ts,
      commands.ts, runtime.ts, events.ts, validation.ts), [Adapter] (adapter.ts,
      null.ts, paper.ts, factory.ts; the interface is a Record of operations),
      [AdapterFacts] (the class [AdapterLaws] of what every adapter promises, and its
      instances; [mirrors], that a session reports what its core did), [AdapterProps].
    - [Effects]: a monad for code that has state and throws, its weakest preconditions,
      and the class [Respects]; and the verdict of an execution gate.
    - Worker data: [StageTypes] (execution/types.ts), [MarketState] (market/types.ts,
      position.ts, account.ts, state.ts).
    - Worker risk layer, services/workers/src/risk: [RiskModel] (types.ts, capital.ts,
      exposure.ts, sizer.ts, gate.ts, kill-switch.ts), [Journal] (a file with torn
      writes and failing calls; the line store of events.ts), [JournalFacts] (the laws
      of that store over atomic writes, what it reads when lines were glued from several
      writes, and reading any text), [RiskJournal] (state.ts, events.ts,
      recovery.ts; the class [RiskEventStore] and its two instances), [RiskEngine]
      (engine.ts, integration.ts), [RiskFacts] (both stores satisfy the class of laws
      [RiskEventStoreLaws]; an engine over its life: evaluations, halts, resets,
      restarts; the engine over a file that any write may tear), [RiskProps].
    - Worker execution layer, services/workers/src/execution: [Portfolio] (decide.ts,
      portfolio.ts, risk.ts, intent.ts, adapters.ts), [ExecStage] (stage.ts, bus.ts),
      [StageFacts] (what a run of the stage does).
    - Worker market layer, services/workers/src/market: [MarketOrder] (order.ts,
      broker.ts), [MarketStage] (market-data.ts, reconcile.ts, stage.ts),
      [MarketJournal] (event-store.ts, recovery.ts), [MarketFacts] (orders and broker, a
      journal that describes a state, the journal file, and what a sequence of
      executions commits), [StageProps]; [Venue] (deribit-order-transport.ts), [MarketEdge]
      (db-quote-transport.ts, portfolio-ledger.ts), [VenueFacts] (what a call of the
      transport sends, over a world that records requests; the classes [FeedLaws] and
      [LedgerLaws] of the database), [VenueProps].
    - Worker pipeline, services/workers/src: [Strategies] (execution/strategies),
      [Admission] (pipeline/validate.ts, pipeline/errors.ts, bus/admission.ts),
      [Pipeline] (pipeline/orchestrator.ts, the buses, the persistence subscriber),
      [PipelineFacts], [PipelineProps]; [Replay] (replay); [Features] (features; the
      part that persists a snapshot is shared with the ingestion bridge), [FeatureProps]
      (with the lemmas, and the properties of the replay).
    - Ingestion, services/ingestion/src: [Quality] (dq: gaps, checks, score, hash,
      stage-b-client, index), [QualityProps]; [Ingestion] (persistence and the records
      of connectors/types.ts), [IngestionProps] (with upserts as functions on tables);
      [Backfill] (features/bridge.ts, pipeline/backfill.ts), [Live] (pipeline/live.ts:
      the calls of the daemon, and its buffers with their flushes as a step function on
      [LiveState], where a flush suspended at an await is a value), [LiveFacts] (the plan
      of a backfill and how each scope ends; which calls leave feature rows and reports alone; the
      invariant of the tick buffers), [LiveProps]; [Connector] (the plumbing
      connectors/binance.ts and connectors/deribit.ts repeat: decimal strings, requests
      spaced and retried, paged windows, a stream that reconnects), [Binance], [Deribit]
      (the two venues: requests, answers, records, stream messages;
      connectors/index.ts), [ConnectorFacts] (the trace of a retried request, one page
      of candles, the invariant of a stream, reading an instrument name),
      [ConnectorProps].
    - Control plane: [Control] (packages/control/src), [ControlWorld] (the tables of
      packages/db/prisma/schema.prisma, and the classes [World] and [WorldLaws] of the
      Prisma client, the network and the clock), [ControlStore] (store.ts and
      validate.ts of services/workers/src/control), [ControlPlane] (probes.ts,
      inputs.ts, recovery.ts, startup.ts, evaluator.ts, gate.ts; composeGates and the
      control tick of services/workers/src/index.ts), [ControlFacts], [ControlRuns],
      [ControlEval] (what each call does to the tables, the stages of an evaluation, the
      running plane), [ControlProps] (with an in-memory world that satisfies the laws).

    ** How the state corresponds

    Records carry the fields of the TypeScript interfaces with a prefix per record;
    unions of string literals are inductive types with a [show] function for their
    spelling; [T | null] is [option T].  Pure functions are functions; a result object
    with an ok flag is a record with that flag; code that awaits and throws is a
    computation [S -> (Exn + A) * S], which keeps what it changed before it threw.  A
    session or a control plane is the record of its fields, passed explicitly.

    ** What the theorems show

    The properties of the library are in the files named [...Props]; each carries a
    claim id in its comment.

    - [ExecProps]: the reducer implements a specification of every command, the audit
      trail is gap-free and complete, nothing is submitted past a failed gate; position
      accounting, fills bounded by their order, fill ids unique; terminal states are
      final, KILL stops everything, creation on every branch, a legal script opens the
      planned position, and the structure of a plan.
    - [AdapterProps]: adapter sessions keep a gap-free log, which reports exactly what the
      core they manage did; the null adapter is inert; the paper adapter submits once, on the
      branches stated, and its shutdown is final.
    - [DecisionProps]: what a served decision says about its inputs; when an intent
      built from it passes the submit gate, end to end; the order of stop, entry and
      targets; the bounds of the readiness score; the opportunity board; that generated
      signals replay exactly, and that the mirrored rule agrees with the sealed one.
    - [ControlProps]: when trading is allowed, that an allowing snapshot always belongs
      to a healthy started plane, and that protection is left only by a recovery that
      verified every component concerned; the rows an evaluation writes; boot, the execution gate, the kill
      switch, admission and the composition of gates.
    - [RiskProps]: what an approval of the risk engine stands for, and the exact set of
      orders the pre-trade gate approves; over any life of an engine, with journal
      failures and restarts, a halt that was journaled in a whole file persists and a
      recovery keeps the records of the start, also when writes tear; without torn writes
      the live state is the fold of the journal (with them, a record appended to a torn
      line may be lost: [RiskProps.append_after_torn_line_is_lost]); the journal file
      gives back what was appended, also after a crash; its admission is exact; reading
      any file terminates with a stated answer.
    - [PipelineProps]: a tick is its specification in every world, fails fast on unsound
      input, publishes only sound decisions, leaves exactly the generated signals in the
      rows and is idempotent under any tick ids; what reaches a handler of
      the distributed bus, and that every published decision arrives.  [FeatureProps]:
      when a replay matches, and that features are persisted verbatim or not at all.
    - [QualityProps]: the gap scan is exact, and what a PASSED report certifies.
      [IngestionProps]: writes that fail and are repeated converge.  [LiveProps]: a
      backfill runs every scope of its plan and accounts for what each wrote and threw,
      feature rows rest on PASSED reports, ticks are
      handed over once and in order, and a stop drains the buffers.  [ConnectorProps]: a
      request is answered by at most four attempts, an aligned window of candles is
      complete or an error, a stream always has one socket or one pending reconnection,
      decimal strings and the names of options read back (and where a connector loses a
      bar, a digit or a trade).
    - [StageProps]: accepted order streams are legal paths whose fills stay within the
      order; the execution stage hands over only what the risk hook and the limits
      approved; recovery of the market journal rebuilds the live state, over brokers that
      fill an order in its own symbol ([MarketFacts.resolveBroker_own] and
      [VenueFacts.place_own] for those of the repository) and a file no write tears.
      [VenueProps]:
      how often an order can reach the live venue and what a returned stream stands for;
      the stream is a legal path that carries the venue's trades; what a mark of the
      database feed rests on; the snapshots of the ledger, and that its peak survives a
      restart.
    - [IntelligenceProps]: the state of the book does not depend on the order of the
      items; its groups are exact and its scores keep their scale; when the book is
      BLOCKED, at RISK or HEALTHY; an open position stands for actionable inputs.

    ** Bounds and fuel

    Two recursions of the model use fuel.  [JsText.shortest] searches the shortest
    decimal of a Number: 17 digits always read back, so a fuel of 17 suffices.
    [Json.parseValue] calls itself at most twice per character, so [parseFuel], one more
    than twice the length of the text, is always enough ([parseValue_total];
    [journal_read_total] for whole files). Numbers are at full binary64 width; list
    positions and sequence numbers are [nat] where the code counts array elements, and
    dates are integer milliseconds.

    ** What is not modelled

    serialization.ts of both packages (JSON.stringify), runbooks.ts (operator text), the
    socket session of a Redis PING, log calls, timers and process wiring.  The calls of
    a Promise.all run in the order of the array.  String.prototype.localeCompare, the
    SHA-256 prefix of an intent id and the text of a SyntaxError are parameters; a
    string is its UTF-8 bytes, so hash32, which hashes UTF-16 units, is faithful on
    ASCII ids.  What torn writes leave is proved for the risk journal; the market
    journal's recovery is proved over its file with failing, but not torn, writes, and of
    its in-memory store only the definition is given.  Of the
    ingestion daemon, the timers and the closing of the socket are left out, and the
    upsert of a flush and the publication that follows it are one awaited call, whose
    settling is an event. services/ingestion/src/features/client.ts repeats the client
    of the workers, which is the one modelled.  The calls of a venue transport and of
    the database feed run one at a time, without the request timeout; so do those of a
    connector, whose timeout is one way a request fails.  The connectors take Math.log,
    Math.exp and Math.sqrt, which the language leaves to the implementation, as
    parameters; a request to them has valid dates, and the column of bar times in the
    chart data of Deribit is an array, a string or absent.  The web application, the
    start-up of the ingestion process and the Python quant service are outside this
    library. *)

From stdpp Require Export base list strings numbers pretty gmap.
From Stdlib Require Export ZArith NArith Lia Sorting.Sorted.
From Stdlib Require OrdersEx.

#[global] Set Default Proof Using "Type".

Create HintDb jsnum.
Create HintDb adapter.

(** ** Runs of a state machine *)

Section run.
Context {S C : Type} (step : S -> C -> S) (ok : C -> Prop).

(** The states reachable from [s0] by commands that satisfy [ok]. *)
Inductive run (s0 : S) : S -> Prop :=
| run_refl : run s0 s0
| run_step s c : run s0 s -> ok c -> run s0 (step s c).

Lemma run_trans s0 s1 s2 : run s0 s1 -> run s1 s2 -> run s0 s2.
Proof. intros H1 H2. induction H2; [done|by constructor]. Qed.

(** Rule induction for an invariant of the machine. *)
Lemma run_inv (I : S -> Prop) s0 :
  I s0 -> (forall s c, I s -> ok c -> I (step s c)) -> forall s, run s0 s -> I s.
Proof. intros H0 Hs s H. induction H; auto. Qed.

Lemma run_fold cs s0 : Forall ok cs -> run s0 (foldl step s0 cs).
Proof.
  intros H. cut (forall s, run s0 s -> run s0 (foldl step s cs)); [intros K; apply K; constructor|].
  induction H; simpl; [done|]. intros s Hs. apply IHForall. by constructor.
Qed.
End run.

(** ** Booleans *)

(** Split the hypotheses a boolean guard leaves behind. *)
Ltac bool_hyps :=
  repeat match goal with
  | H : _ || _ = false |- _ => apply orb_false_iff in H as [? ?]
  | H : _ && _ = true |- _ => apply andb_true_iff in H as [? ?]
  | H : negb _ = true |- _ => apply negb_true_iff in H
  | H : negb _ = false |- _ => apply negb_false_iff in H
  | H : bool_decide _ = true |- _ => apply bool_decide_eq_true in H
  | H : bool_decide _ = false |- _ => apply bool_decide_eq_false in H
  end.

(** Evaluate a closed equation. *)
Ltac evaluate := vm_compute; reflexivity.

(** ** Lists *)

Lemma Forall2_fmap_r_self {A} (R : A -> A -> Prop) (f : A -> A) l :
  (forall x, x ∈ l -> R x (f x)) -> Forall2 R l (f <$> l).
Proof.
  intros H. apply Forall2_fmap_r, Forall_Forall2_diag, Forall_forall. auto.
Qed.

Lemma Forall2_trans_rel {A} (R : A -> A -> Prop) `{!Transitive R} l1 l2 l3 :
  Forall2 R l1 l2 -> Forall2 R l2 l3 -> Forall2 R l1 l3.
Proof. intros H1 H2. by eapply transitivity. Qed.

Lemma find_Some_elem {A} (f : A -> bool) l x : List.find f l = Some x -> x ∈ l /\ f x = true.
Proof. intros [H ?]%List.find_some. split; [by apply list_elem_of_In|done]. Qed.

(** *** Stable sorting by a comparator *)

(** The next key decides a tie ([c || d] of numeric comparators). *)
Definition orElse (c d : comparison) : comparison := match c with Eq => d | _ => c end.

(** [list.sort(compare)], stable. *)
Fixpoint insertBy {A} (compare : A -> A -> comparison) (a : A) (l : list A) : list A :=
  match l with
  | [] => [a]
  | b :: l' => match compare a b with Gt => b :: insertBy compare a l' | _ => a :: l end
  end.

Definition sortBy {A} (compare : A -> A -> comparison) (l : list A) : list A :=
  foldr (insertBy compare) [] l.

Section sorting.
Context {A : Type} (compare : A -> A -> comparison).

Lemma insertBy_perm a l : insertBy compare a l ≡ₚ a :: l.
Proof.
  induction l as [|b l IH]; simpl; [done|]. destruct (compare a b); [done|done|].
  rewrite IH. by apply Permutation_swap.
Qed.

Lemma sortBy_perm l : sortBy compare l ≡ₚ l.
Proof. induction l as [|a l IH]; simpl; [done|]. unfold sortBy in IH. by rewrite insertBy_perm, IH. Qed.

(** With a comparator whose opposite outcomes agree on the elements, neighbours come out
    in order. *)
Lemma sortBy_sorted (P : A -> Prop) l :
  (forall a b, P a -> P b -> compare a b = Gt -> compare b a <> Gt) -> Forall P l ->
  Sorted (fun a b => compare a b <> Gt) (sortBy compare l).
Proof.
  intros Hc HP. induction l as [|a l IH]; simpl; [constructor|]. apply Forall_cons in HP as [Pa HP].
  specialize (IH HP). rewrite <- (sortBy_perm l) in HP. revert IH HP. unfold sortBy.
  generalize (foldr (insertBy compare) [] l). intros m.
  induction m as [|b m IH]; intros Hm HP; simpl; [by repeat constructor|]. apply Forall_cons in HP as [Pb HP].
  destruct (compare a b) eqn:E; try (constructor; [done|constructor; by rewrite E]).
  inversion Hm as [|? ? Hs Hh]; subst. constructor; [by apply IH|].
  destruct m as [|c m]; simpl; [constructor; by apply Hc|].
  apply HdRel_inv in Hh. destruct (compare a c); constructor; auto.
Qed.
End sorting.

(** ** Colon-separated ids *)

Section ids.
Local Open Scope string_scope.

Definition colon : Ascii.ascii :=
  Ascii.Ascii false true false true true true false false.

(** No colon in a string: the shape of the fields of an id. *)
Fixpoint nocolon (s : string) : bool :=
  match s with
  | EmptyString => true
  | String c s => bool_decide (c <> colon) && nocolon s
  end.

Lemma string_app_assoc (s t u : string) : (s +:+ t) +:+ u = s +:+ (t +:+ u).
Proof.
  induction s as [|c s IH]; [done|].
  change (String c ((s +:+ t) +:+ u) = String c (s +:+ (t +:+ u))). by rewrite IH.
Qed.

Lemma string_app_cancel (s t u : string) : s +:+ t = s +:+ u -> t = u.
Proof. induction s; simpl; [done|]. intros [= ?]. auto. Qed.

(** Two ids with the same text have the same first field and the same rest. *)
Lemma field_inj a b s t :
  nocolon a = true -> nocolon b = true ->
  a +:+ ":" +:+ s = b +:+ ":" +:+ t -> a = b /\ s = t.
Proof.
  revert b. induction a as [|c a IH]; intros [|d b]; simpl; intros Ha Hb E; bool_hyps.
  - by injection E.
  - by injection E as <- _.
  - by injection E as -> _.
  - injection E as -> E. by destruct (IH b) as [-> ->].
Qed.

(** The order of strings is transitive. *)
Lemma stringCompare_lt_trans a b c : String.compare a b = Lt -> String.compare b c = Lt -> String.compare a c = Lt.
Proof. exact (StrictOrder_Transitive (R := OrdersEx.String_as_OT.lt) a b c). Qed.

Lemma stringCompare_trans a b c : String.compare a b <> Gt -> String.compare b c <> Gt -> String.compare a c <> Gt.
Proof.
  destruct (String.compare a b) eqn:E1; [apply String.compare_eq_iff in E1; by subst| |done].
  destruct (String.compare b c) eqn:E2; [apply String.compare_eq_iff in E2; subst; by rewrite E1| |done].
  intros _ _. by rewrite (stringCompare_lt_trans a b c).
Qed.

Lemma pretty_N_char_nocolon n : pretty_N_char n <> colon.
Proof. unfold pretty_N_char, colon. by repeat case_match. Qed.

Lemma pretty_N_go_nocolon n s : nocolon s = true -> nocolon (pretty_N_go n s) = true.
Proof.
  revert s. induction (N.lt_wf_0 n) as [n _ IH]; intros s Hs.
  destruct (N.eq_0_gt_0_cases n) as [->|Hn]; [by rewrite pretty_N_go_0|].
  rewrite pretty_N_go_step by done. apply IH; [apply N.div_lt; lia|].
  simpl. rewrite Hs, bool_decide_true by apply pretty_N_char_nocolon. done.
Qed.

Lemma pretty_nat_nocolon (n : nat) : nocolon (pretty n) = true.
Proof.
  unfold pretty, pretty_nat, pretty, pretty_N. case_decide; [done|].
  by apply pretty_N_go_nocolon.
Qed.
End ids.
