(* ===== verification/JsNumber.v ===== *)
(** * JsNumber: ECMAScript Numbers

    The TypeScript [number] is an IEEE-754 binary64.  This file gives the values,
    the comparisons and the arithmetic the sources use (ECMA-262, "The Number
    Type"): every operation is the exact mathematical result followed by one
    rounding to nearest, ties to even ([rnd]).  All definitions compute.

    A finite Number is kept as an integer multiple of the smallest subnormal
    2^-1074: [Num neg m k] denotes (-1)^neg * m * 2^(k-1074).  The scaled value
    [sv] is therefore an integer, and the theory in JsNumberFacts is integer
    arithmetic. *)

From S2P Require Import Prelude.

Local Open Scope Z_scope.

(** ** Values *)

Inductive number :=
| NaN
| Inf (neg : bool)
| Num (neg : bool) (m k : N).

#[export] Instance number_eq_dec : EqDecision number.
Proof. solve_decision. Defined.

Definition zsign (neg : bool) (z : Z) : Z := if neg then - z else z.

(** Magnitude m * 2^k as an integer. *)
Definition mag (m k : N) : Z := 2 ^ Z.of_N k * Z.of_N m.

(** The value of a finite Number in units of 2^-1074 (0 for NaN and infinities). *)
Definition sv (x : number) : Z :=
  match x with
  | Num s m k => zsign s (mag m k)
  | _ => 0
  end.

(** [Number.isFinite]. *)
Definition isFinite (x : number) : bool :=
  match x with Num _ _ _ => true | _ => false end.

Definition isNaN (x : number) : bool :=
  match x with NaN => true | _ => false end.

(** ** Rounding *)

(** The integer nearest to a/b, ties to even (for b > 0). *)
Definition rne (a b : Z) : Z :=
  let '(q, r) := Z.div_eucl a b in
  match 2 * r ?= b with
  | Lt => q
  | Gt => q + 1
  | Eq => if Z.even q then q else q + 1
  end.

(** Significand and exponent to a Number: renormalise a carry into 2^53, and
    overflow to infinity past the largest exponent (971 + 1074 = 2045). *)
Definition pack (neg : bool) (m g : Z) : number :=
  let '(m', g') := if m =? 2 ^ 53 then (2 ^ 52, g + 1) else (m, g) in
  if m' =? 0 then Num neg 0 0
  else if 2045 <? g' then Inf neg
  else Num neg (Z.to_N m') (Z.to_N g').

(** floor (log2 (num * 2^e / den)), from the operands' own logarithms. *)
Definition lgq (num den e : Z) : Z :=
  let l := Z.log2 num - Z.log2 den in
  if 2 ^ Z.max l 0 * den <=? 2 ^ Z.max (- l) 0 * num then l + e else l - 1 + e.

(** Round the exact value num * 2^e / den (scaled units; num, e >= 0, den > 0). *)
Definition rnd (neg : bool) (num den e : Z) : number :=
  if num =? 0 then Num neg 0 0
  else
    let g := Z.max 0 (lgq num den e - 52) in
    pack neg (rne (2 ^ Z.max (e - g) 0 * num) (2 ^ Z.max (g - e) 0 * den)) g.

(** An integer literal of the source. *)
Definition nint (z : Z) : number := rnd (z <? 0) (Z.abs z) 1 1074.

(** A decimal literal m * 10^-d of the source. *)
Definition ndec (m : Z) (d : Z) : number := rnd (m <? 0) (Z.abs m) (10 ^ d) 1074.

(** ** Comparison *)

Definition ncmp (x y : number) : option comparison :=
  match x, y with
  | NaN, _ | _, NaN => None
  | Inf true, Inf true | Inf false, Inf false => Some Eq
  | Inf true, _ => Some Lt
  | Inf false, _ => Some Gt
  | _, Inf true => Some Gt
  | _, Inf false => Some Lt
  | Num _ _ _, Num _ _ _ => Some (sv x ?= sv y)
  end.

Definition nlt (x y : number) : bool :=
  match ncmp x y with Some Lt => true | _ => false end.
Definition nle (x y : number) : bool :=
  match ncmp x y with Some Lt | Some Eq => true | _ => false end.
Definition ngt (x y : number) : bool := nlt y x.
Definition nge (x y : number) : bool := nle y x.
(** [===] *)
Definition neq (x y : number) : bool :=
  match ncmp x y with Some Eq => true | _ => false end.

(** ** Arithmetic *)

Definition nneg (x : number) : number :=
  match x with
  | NaN => NaN
  | Inf s => Inf (negb s)
  | Num s m k => Num (negb s) m k
  end.

Definition nadd (x y : number) : number :=
  match x, y with
  | NaN, _ | _, NaN => NaN
  | Inf s, Inf t => if Bool.eqb s t then Inf s else NaN
  | Inf s, Num _ _ _ => Inf s
  | Num _ _ _, Inf t => Inf t
  | Num s m k, Num t n j =>
      let c := N.min k j in
      let z := zsign s (mag m (k - c)) + zsign t (mag n (j - c)) in
      if z =? 0 then Num (s && t) 0 0
      else rnd (z <? 0) (Z.abs z) 1 (Z.of_N c)
  end.

Definition nsub (x y : number) : number := nadd x (nneg y).

Definition nmul (x y : number) : number :=
  match x, y with
  | NaN, _ | _, NaN => NaN
  | Inf s, Inf t => Inf (xorb s t)
  | Inf s, Num t n _ => if (n =? 0)%N then NaN else Inf (xorb s t)
  | Num s m _, Inf t => if (m =? 0)%N then NaN else Inf (xorb s t)
  | Num s m k, Num t n j =>
      rnd (xorb s t) (Z.of_N (m * n)) (2 ^ Z.of_N (1074 - (k + j))%N)
        (Z.of_N ((k + j) - 1074)%N)
  end.

Definition ndiv (x y : number) : number :=
  match x, y with
  | NaN, _ | _, NaN => NaN
  | Inf _, Inf _ => NaN
  | Inf s, Num t _ _ => Inf (xorb s t)
  | Num s _ _, Inf t => Num (xorb s t) 0 0
  | Num s m k, Num t n j =>
      if (n =? 0)%N then (if (m =? 0)%N then NaN else Inf (xorb s t))
      else rnd (xorb s t) (Z.of_N m) (2 ^ Z.of_N (j - (k + 1074))%N * Z.of_N n)
             (Z.of_N ((k + 1074) - j)%N)
  end.

(** ** Math *)

Definition nabs (x : number) : number :=
  match x with
  | NaN => NaN
  | Inf _ => Inf false
  | Num _ m k => Num false m k
  end.

Definition isNegZero (x : number) : bool :=
  match x with Num true m _ => (m =? 0)%N | _ => false end.

(** [Math.max] and [Math.min] of two arguments: NaN is contagious, +0 > -0. *)
Definition nmax (x y : number) : number :=
  if isNaN x || isNaN y then NaN
  else if nlt x y then y
  else if nlt y x then x
  else if isNegZero x then y else x.

Definition nmin (x y : number) : number :=
  if isNaN x || isNaN y then NaN
  else if nlt x y then x
  else if nlt y x then y
  else if isNegZero x then x else y.

(** ** Fixed-point conversion *)

(** The integer n with n / 10^dp nearest to the magnitude of [Num _ m k], the
    larger one on a tie ([Number.prototype.toFixed], step "Let n be ..."). *)
Definition fixed_int (m k : N) (dp : Z) : Z :=
  let a := 2 ^ Z.of_N (k - 1074)%N * (10 ^ dp * Z.of_N m) in
  let b := 2 ^ Z.of_N (1074 - k)%N in
  (2 * a + b) / (2 * b).

(** 10^21: from here on [toFixed] prints like [toString]. *)
Definition fixed_limit : Z := 2 ^ 1074 * 10 ^ 21.

(** The Number that [Number(x.toFixed(dp))] yields: toFixed prints the decimal
    n / 10^dp, with a minus sign when x < 0, and Number() rounds it to the nearest
    double.  At 10^21 and above toFixed prints x itself, which reads back as x. *)
Definition toFixedNumber (x : number) (dp : Z) : number :=
  match x with
  | Num s m k =>
      if mag m k <? fixed_limit then rnd (s && negb (m =? 0)%N) (fixed_int m k dp) (10 ^ dp) 1074 else x
  | _ => x
  end.

(** ** Sorting *)

(** The sign of a comparator's numeric result: 0 and NaN fall through. *)
Definition compareNumbers (x y : number) : comparison :=
  let d := nsub x y in
  if nlt d (nint 0) then Lt else if ngt d (nint 0) then Gt else Eq.
