(* ===== verification/JsNumberFacts.v ===== *)
(** * JsNumberFacts: the theory of the Numbers of JsNumber

    Rounding is monotone, fixes representable values and preserves signs; the
    comparisons are a total order on the non-NaN values; [toFixedNumber] is
    monotone and idempotent. *)

From S2P Require Import Prelude JsNumber.

Local Open Scope Z_scope.

(** ** Rounding to an integer *)

Lemma rne_spec a b :
  0 < b ->
  2 * a - b <= 2 * (rne a b * b) <= 2 * a + b /\
  (2 * (rne a b * b) = 2 * a - b \/ 2 * (rne a b * b) = 2 * a + b ->
   Z.even (rne a b) = true).
Proof.
  intros Hb. unfold rne.
  pose proof (Z_div_mod a b ltac:(lia)) as H.
  destruct (Z.div_eucl a b) as [q r]. destruct H as [-> Hr].
  destruct (Z.compare_spec (2 * r) b) as [E|E|E]; [|split; [nia|intros; exfalso; nia]..].
  destruct (Z.even q) eqn:Ev; (split; [nia|intros _]); [done|].
  by rewrite Z.even_add, Ev.
Qed.

Lemma rne_mono a b a' b' :
  0 < b -> 0 < b' -> a * b' <= a' * b -> rne a b <= rne a' b'.
Proof.
  intros Hb Hb' Hle.
  destruct (rne_spec a b Hb) as [[L1 U1] E1], (rne_spec a' b' Hb') as [[L2 U2] E2].
  destruct (Z.le_gt_cases (rne a b) (rne a' b')) as [|Hgt]; [done|exfalso].
  set (n := rne a b) in *. set (n' := rne a' b') in *.
  assert (2 * (n * b) * b' <= (2 * a + b) * b') by nia.
  assert ((2 * a' - b') * b <= 2 * (n' * b') * b) by nia.
  assert (0 < b * b') by nia.
  assert (n = n' + 1) as Hn by nia.
  assert (2 * (n * b) = 2 * a + b) as T1 by nia.
  assert (2 * (n' * b') = 2 * a' - b') as T2 by nia.
  specialize (E1 (or_intror T1)). specialize (E2 (or_introl T2)).
  rewrite Hn, Z.even_add, E2 in E1. done.
Qed.

Lemma rne_eq a b a' b' :
  0 < b -> 0 < b' -> a * b' = a' * b -> rne a b = rne a' b'.
Proof. intros. apply Z.le_antisymm; apply rne_mono; lia. Qed.

Lemma rne_scale c a b : 0 < c -> 0 < b -> rne (c * a) (c * b) = rne a b.
Proof. intros. apply rne_eq; nia. Qed.

Lemma rne_int q b : 0 < b -> rne (q * b) b = q.
Proof. intros Hb. destruct (rne_spec (q * b) b Hb) as [[??] _]. nia. Qed.

Lemma rne_lower q a b : 0 < b -> q * b <= a -> q <= rne a b.
Proof. intros Hb H. rewrite <- (rne_int q b Hb) at 1. apply rne_mono; nia. Qed.

Lemma rne_upper q a b : 0 < b -> a <= q * b -> rne a b <= q.
Proof. intros Hb H. rewrite <- (rne_int q b Hb). apply rne_mono; nia. Qed.

(** ** Rounding to 53 significant bits *)

(** Grid exponent of the value a/b. *)
Definition grid (a b : Z) : Z := Z.max 0 (Z.log2 (a / b) - 52).

(** a/b rounded to the grid of the doubles (in scaled units). *)
Definition RZ (a b : Z) : Z := 2 ^ grid a b * rne a (2 ^ grid a b * b).

Lemma grid_nonneg a b : 0 <= grid a b.
Proof. unfold grid. lia. Qed.

Lemma pow2_pos k : 0 <= k -> 0 < 2 ^ k.
Proof. intros. apply Z.pow_pos_nonneg; lia. Qed.

#[export] Hint Resolve grid_nonneg pow2_pos : jsnum.

(** a/b lies below 2^(53 + grid), and above 2^(52 + grid) when the grid is coarse. *)
Lemma grid_upper a b : 0 <= a -> 0 < b -> a < 2 ^ (53 + grid a b) * b.
Proof.
  intros Ha Hb. pose proof (grid_nonneg a b).
  assert (a / b < 2 ^ (53 + grid a b)) as Hq.
  { destruct (decide (a / b <= 0)) as [Hz|Hz]; [pose proof (pow2_pos (53 + grid a b)); lia|].
    pose proof (Z.log2_spec (a / b)) as [_ HL]; [lia|].
    eapply Z.lt_le_trans; [exact HL|]. apply Z.pow_le_mono_r; [lia|].
    unfold grid. lia. }
  pose proof (Z.div_mod a b). pose proof (Z.mod_pos_bound a b Hb). nia.
Qed.

Lemma grid_lower a b : 0 <= a -> 0 < b -> 0 < grid a b -> 2 ^ (52 + grid a b) * b <= a.
Proof.
  intros Ha Hb Hg.
  assert (52 + grid a b = Z.log2 (a / b)) as -> by (unfold grid in *; lia).
  assert (0 < a / b) as Hq.
  { destruct (decide (0 < a / b)) as [|Hn]; [done|].
    unfold grid in Hg. rewrite (Z.log2_nonpos (a / b)) in Hg; lia. }
  pose proof (Z.log2_spec (a / b) Hq) as [HL _].
  pose proof (Z.div_mod a b). pose proof (Z.mod_pos_bound a b Hb). nia.
Qed.

(** The grid is the only exponent with these bounds. *)
Lemma grid_unique a b g :
  0 <= a -> 0 < b -> 0 <= g ->
  a < 2 ^ (53 + g) * b -> (0 < g -> 2 ^ (52 + g) * b <= a) -> grid a b = g.
Proof.
  intros Ha Hb Hg HU HL.
  pose proof (grid_nonneg a b). pose proof (grid_upper a b Ha Hb) as U.
  pose proof (grid_lower a b Ha Hb) as L.
  destruct (Z.lt_trichotomy (grid a b) g) as [Hlt|[?|Hlt]]; [|done|]; exfalso.
  - assert (2 ^ (53 + grid a b) <= 2 ^ (52 + g)) by (apply Z.pow_le_mono_r; lia).
    specialize (HL ltac:(lia)). nia.
  - assert (2 ^ (53 + g) <= 2 ^ (52 + grid a b)) by (apply Z.pow_le_mono_r; lia).
    specialize (L ltac:(lia)). nia.
Qed.

Lemma grid_mono a b a' b' :
  0 <= a -> 0 <= a' -> 0 < b -> 0 < b' -> a * b' <= a' * b -> grid a b <= grid a' b'.
Proof.
  intros Ha Ha' Hb Hb' Hle.
  pose proof (grid_nonneg a b). pose proof (grid_nonneg a' b').
  destruct (Z.le_gt_cases (grid a b) (grid a' b')) as [|Hgt]; [done|exfalso].
  pose proof (grid_lower a b Ha Hb ltac:(lia)) as L.
  pose proof (grid_upper a' b' Ha' Hb') as U.
  assert (2 ^ (53 + grid a' b') <= 2 ^ (52 + grid a b)) as HP by (apply Z.pow_le_mono_r; lia).
  assert (2 ^ (52 + grid a b) * b * b' <= a * b') by nia.
  assert (a' * b < 2 ^ (53 + grid a' b') * b' * b) by nia.
  assert (2 ^ (53 + grid a' b') * (b' * b) <= 2 ^ (52 + grid a b) * (b' * b)) by nia.
  nia.
Qed.

(** The significand of the rounded value. *)
Definition sig (a b : Z) : Z := rne a (2 ^ grid a b * b).

Lemma RZ_sig a b : RZ a b = 2 ^ grid a b * sig a b.
Proof. done. Qed.

Lemma sig_bounds a b :
  0 <= a -> 0 < b -> 0 <= sig a b <= 2 ^ 53 /\ (0 < grid a b -> 2 ^ 52 <= sig a b).
Proof.
  intros Ha Hb. pose proof (grid_nonneg a b) as Hg. pose proof (pow2_pos _ Hg).
  pose proof (grid_upper a b Ha Hb) as U. rewrite Z.pow_add_r in U by lia.
  repeat split.
  - apply rne_lower; nia.
  - apply rne_upper; nia.
  - intros Hp. pose proof (grid_lower a b Ha Hb Hp) as L. rewrite Z.pow_add_r in L by lia.
    apply rne_lower; nia.
Qed.

Lemma RZ_nonneg a b : 0 <= a -> 0 < b -> 0 <= RZ a b.
Proof.
  intros Ha Hb. rewrite RZ_sig. pose proof (sig_bounds a b Ha Hb).
  pose proof (pow2_pos _ (grid_nonneg a b)). nia.
Qed.

(** Rounding is monotone. *)
Lemma RZ_mono a b a' b' :
  0 <= a -> 0 <= a' -> 0 < b -> 0 < b' -> a * b' <= a' * b -> RZ a b <= RZ a' b'.
Proof.
  intros Ha Ha' Hb Hb' Hle. rewrite !RZ_sig.
  pose proof (grid_mono a b a' b' Ha Ha' Hb Hb' Hle) as Hg.
  pose proof (grid_nonneg a b) as G. pose proof (grid_nonneg a' b') as G'.
  pose proof (pow2_pos _ G). pose proof (pow2_pos _ G').
  destruct (Z.eq_dec (grid a b) (grid a' b')) as [E|E].
  - unfold sig. rewrite E. apply Z.mul_le_mono_nonneg_l; [lia|]. apply rne_mono; nia.
  - pose proof (sig_bounds a b Ha Hb) as [[_ U] _].
    pose proof (sig_bounds a' b' Ha' Hb') as [_ L]. specialize (L ltac:(lia)).
    assert (2 ^ grid a b * 2 ^ 53 <= 2 ^ grid a' b' * 2 ^ 52).
    { rewrite <- !Z.pow_add_r by lia. apply Z.pow_le_mono_r; lia. }
    nia.
Qed.

Lemma RZ_eq a b a' b' :
  0 <= a -> 0 <= a' -> 0 < b -> 0 < b' -> a * b' = a' * b -> RZ a b = RZ a' b'.
Proof. intros. apply Z.le_antisymm; apply RZ_mono; lia. Qed.

(** Representable magnitudes. *)
Definition repr (z : Z) : Prop :=
  exists m k, 0 <= m < 2 ^ 53 /\ 0 <= k /\ z = 2 ^ k * m.

(** Rounding fixes them. *)
Lemma RZ_repr z b : repr z -> 0 < b -> RZ (z * b) b = z.
Proof.
  intros (m & k & Hm & Hk & ->) Hb.
  pose proof (pow2_pos k Hk) as HP.
  destruct (Z.eq_dec m 0) as [->|Hm0].
  { rewrite Z.mul_0_r. unfold RZ. rewrite Z.mul_0_l.
    pose proof (rne_int 0 (2 ^ grid 0 b * b)) as R. rewrite Z.mul_0_l in R.
    rewrite R; [lia|]. pose proof (pow2_pos _ (grid_nonneg 0 b)). nia. }
  assert (grid (2 ^ k * m * b) b <= k) as Hg.
  { unfold grid. rewrite Z.div_mul by lia.
    rewrite (Z.mul_comm (2 ^ k)), Z.log2_mul_pow2 by lia.
    pose proof (Z.log2_lt_pow2 m 53 ltac:(lia)). lia. }
  set (g := grid (2 ^ k * m * b) b) in *.
  assert (0 <= g) by apply grid_nonneg.
  pose proof (pow2_pos g ltac:(done)).
  assert (2 ^ k = 2 ^ g * 2 ^ (k - g)) as Hkg by (rewrite <- Z.pow_add_r by lia; f_equal; lia).
  unfold RZ. fold g.
  replace (2 ^ k * m * b) with (2 ^ (k - g) * m * (2 ^ g * b)) by (rewrite Hkg; ring).
  rewrite rne_int by nia. rewrite Hkg. ring.
Qed.

Lemma repr_nonneg z : repr z -> 0 <= z.
Proof. intros (m & k & ? & ? & ->). pose proof (pow2_pos k). nia. Qed.

(** Lower and upper bounds by representable values survive rounding. *)
Lemma RZ_lower z a b : repr z -> 0 <= a -> 0 < b -> z * b <= a -> z <= RZ a b.
Proof.
  intros Hz Ha Hb H. rewrite <- (RZ_repr z b Hz Hb).
  pose proof (repr_nonneg z Hz). apply RZ_mono; nia.
Qed.

Lemma RZ_upper z a b : repr z -> 0 <= a -> 0 < b -> a <= z * b -> RZ a b <= z.
Proof.
  intros Hz Ha Hb H. rewrite <- (RZ_repr z b Hz Hb).
  pose proof (repr_nonneg z Hz). apply RZ_mono; nia.
Qed.

Lemma RZ_is_repr a b : 0 <= a -> 0 < b -> repr (RZ a b).
Proof.
  intros Ha Hb. rewrite RZ_sig. pose proof (sig_bounds a b Ha Hb) as [[L U] _].
  pose proof (grid_nonneg a b).
  destruct (Z.eq_dec (sig a b) (2 ^ 53)) as [E|E].
  - exists (2 ^ 52), (grid a b + 1). split; [lia|]. split; [lia|].
    rewrite E, Z.pow_add_r by lia. change (2 ^ 1) with 2. lia.
  - exists (sig a b), (grid a b). repeat split; lia.
Qed.

(** ** [rnd] computes [RZ] *)

(** [lgq] is the binary logarithm of num * 2^e / den (u and w clear the
    possibly negative exponent). *)
Lemma lgq_bounds num den e :
  0 < num -> 0 < den ->
  (forall u w, 0 <= u -> 0 <= w -> u - w = lgq num den e - e -> 2 ^ u * den <= 2 ^ w * num) /\
  (forall u w, 0 <= u -> 0 <= w -> u - w = lgq num den e + 1 - e -> 2 ^ w * num < 2 ^ u * den).
Proof.
  intros Hn Hd.
  pose proof (Z.log2_spec num Hn) as [Ln Un]. pose proof (Z.log2_spec den Hd) as [Ld Ud].
  pose proof (Z.log2_nonneg num). pose proof (Z.log2_nonneg den).
  rewrite Z.pow_succ_r in Un, Ud by lia.
  set (ln := Z.log2 num) in *. set (ld := Z.log2 den) in *.
  pose proof (pow2_pos ln ltac:(done)). pose proof (pow2_pos ld ltac:(done)).
  (* num/den is within a factor of two of 2^(ln - ld) on either side *)
  assert (Hup : forall u w, 0 <= u -> 0 <= w -> u - w = ln - ld + 1 -> 2 ^ w * num < 2 ^ u * den).
  { intros u w Hu Hw E. pose proof (pow2_pos w Hw). pose proof (pow2_pos u Hu).
    assert (2 ^ w * (2 * 2 ^ ln) = 2 ^ u * 2 ^ ld) as P.
    { change 2 with (2 ^ 1) at 2. rewrite <- !Z.pow_add_r by lia. f_equal. lia. }
    nia. }
  assert (Hlo : forall u w, 0 <= u -> 0 <= w -> u - w = ln - ld - 1 -> 2 ^ u * den <= 2 ^ w * num).
  { intros u w Hu Hw E. pose proof (pow2_pos w Hw). pose proof (pow2_pos u Hu).
    assert (2 ^ u * (2 * 2 ^ ld) = 2 ^ w * 2 ^ ln) as P.
    { change 2 with (2 ^ 1) at 2. rewrite <- !Z.pow_add_r by lia. f_equal. lia. }
    nia. }
  assert (Hsc : forall u w u' w', 0 <= u -> 0 <= w -> 0 <= u' -> 0 <= w' -> u - w = u' - w' ->
            (2 ^ u * den <= 2 ^ w * num <-> 2 ^ u' * den <= 2 ^ w' * num)).
  { intros u w u' w' Hu Hw Hu' Hw' E.
    pose proof (pow2_pos w Hw). pose proof (pow2_pos w' Hw').
    assert (2 ^ u * 2 ^ w' = 2 ^ u' * 2 ^ w) as P by (rewrite <- !Z.pow_add_r by lia; f_equal; lia).
    split; intros.
    - assert (2 ^ w * (2 ^ u' * den) <= 2 ^ w * (2 ^ w' * num)); nia.
    - assert (2 ^ w' * (2 ^ u * den) <= 2 ^ w' * (2 ^ w * num)); nia. }
  unfold lgq. fold ln ld.
  destruct (Z.leb_spec (2 ^ Z.max (ln - ld) 0 * den) (2 ^ Z.max (- (ln - ld)) 0 * num)) as [T|T].
  - split; intros u w Hu Hw E.
    + apply (Hsc (Z.max (ln - ld) 0) (Z.max (- (ln - ld)) 0)); [lia..|done].
    + apply Hup; lia.
  - split; intros u w Hu Hw E.
    + apply Hlo; lia.
    + apply Z.nle_gt. intros C.
      apply (Hsc u w (Z.max (ln - ld) 0) (Z.max (- (ln - ld)) 0)) in C; lia.
Qed.

Lemma lgq_grid num den e :
  0 < num -> 0 < den -> 0 <= e -> Z.max 0 (lgq num den e - 52) = grid (2 ^ e * num) den.
Proof.
  intros Hn Hd He. destruct (lgq_bounds num den e Hn Hd) as [L U].
  set (p := lgq num den e) in *. pose proof (pow2_pos e He). symmetry.
  apply grid_unique; [nia|done|lia|..].
  - assert (2 ^ (e + Z.max 0 (- (p + 1))) * num < 2 ^ (Z.max 0 (p + 1)) * 2 ^ e * den) as HU.
    { specialize (U (Z.max 0 (p + 1) + e) (e + Z.max 0 (- (p + 1)) + e) ltac:(lia) ltac:(lia) ltac:(lia)).
      rewrite !Z.pow_add_r in U by lia. rewrite Z.pow_add_r by lia. nia. }
    assert (2 ^ e * num < 2 ^ Z.max 0 (p + 1) * den) as HV.
    { specialize (U (Z.max 0 (p + 1)) (Z.max 0 (p + 1) - (p + 1) + e) ltac:(lia) ltac:(lia) ltac:(lia)).
      assert (2 ^ e <= 2 ^ (Z.max 0 (p + 1) - (p + 1) + e)) by (apply Z.pow_le_mono_r; lia). nia. }
    assert (2 ^ Z.max 0 (p + 1) <= 2 ^ (53 + Z.max 0 (p - 52))) by (apply Z.pow_le_mono_r; lia).
    nia.
  - intros Hg.
    specialize (L p e ltac:(lia) He ltac:(lia)).
    replace (52 + Z.max 0 (p - 52)) with p by lia. done.
Qed.

(** The significand computed by [rnd]. *)
Lemma rnd_unfold s num den e :
  0 < num -> 0 < den -> 0 <= e ->
  rnd s num den e = pack s (sig (2 ^ e * num) den) (grid (2 ^ e * num) den).
Proof.
  intros Hn Hd He. unfold rnd. destruct (Z.eqb_spec num 0); [lia|].
  rewrite lgq_grid by done. f_equal. unfold sig.
  set (g := grid (2 ^ e * num) den). pose proof (grid_nonneg (2 ^ e * num) den : 0 <= g).
  pose proof (pow2_pos (Z.max (g - e) 0)). pose proof (pow2_pos g). pose proof (pow2_pos e).
  assert (2 ^ Z.max (e - g) 0 * 2 ^ g = 2 ^ Z.max (g - e) 0 * 2 ^ e) as E.
  { rewrite <- !Z.pow_add_r by lia. f_equal. lia. }
  apply rne_eq; [nia|nia|].
  transitivity (2 ^ Z.max (e - g) 0 * 2 ^ g * (num * den)); [ring|]. rewrite E. ring.
Qed.

(** Largest finite magnitude plus one: 2^1024 in scaled units. *)
Definition overflow : Z := 2 ^ 2098.

(** ** Well-formed Numbers *)

(** Canonical binary64 values: 53-bit significand, normalised unless subnormal. *)
Definition wf_number (x : number) : Prop :=
  match x with
  | Num _ m k => (m < 2 ^ 53 /\ k <= 2045 /\ (0 < k -> 2 ^ 52 <= m))%N
  | _ => True
  end.

#[export] Instance wf_number_dec x : Decision (wf_number x).
Proof. destruct x; simpl; apply _. Defined.

Lemma mag_nonneg m k : 0 <= mag m k.
Proof. unfold mag. pose proof (pow2_pos (Z.of_N k)). nia. Qed.

Lemma wf_repr s m k : wf_number (Num s m k) -> repr (mag m k).
Proof. intros (Hm & _). exists (Z.of_N m), (Z.of_N k). unfold mag. repeat split; lia. Qed.

Lemma pack_sv s m g :
  0 <= m <= 2 ^ 53 -> 0 <= g -> isFinite (pack s m g) = true ->
  sv (pack s m g) = zsign s (2 ^ g * m).
Proof.
  intros Hm Hg. unfold pack.
  destruct (Z.eqb_spec m (2 ^ 53)) as [->|Hne].
  - destruct (Z.ltb_spec 2045 (g + 1)); [done|]. intros _. simpl sv. unfold mag.
    rewrite !Z2N.id, Z.pow_add_r by lia. f_equal. lia.
  - destruct (Z.eqb_spec m 0) as [->|].
    + intros _. simpl. unfold mag. f_equal. lia.
    + destruct (Z.ltb_spec 2045 g); [done|]. intros _. simpl sv. unfold mag.
      by rewrite !Z2N.id by lia.
Qed.

Lemma pack_wf s m g :
  0 <= m <= 2 ^ 53 -> 0 <= g -> (0 < g -> 2 ^ 52 <= m) -> wf_number (pack s m g).
Proof.
  intros Hm Hg Hn. unfold pack.
  destruct (Z.eqb_spec m (2 ^ 53)) as [->|Hne].
  - destruct (Z.ltb_spec 2045 (g + 1)); [done|]. change (2 ^ 52 =? 0) with false.
    unfold wf_number. change (Z.to_N (2 ^ 52)) with (2 ^ 52)%N. lia.
  - destruct (Z.eqb_spec m 0) as [->|]; [simpl; lia|].
    destruct (Z.ltb_spec 2045 g); [done|]. unfold wf_number. lia.
Qed.

Lemma pack_finite s m g :
  0 <= m <= 2 ^ 53 -> 0 <= g -> (0 < g -> 2 ^ 52 <= m) -> 2 ^ g * m < overflow ->
  isFinite (pack s m g) = true.
Proof.
  intros Hm Hg Hn Ho. unfold pack.
  assert (forall g', 2045 < g' -> 2 ^ 52 * 2 ^ 2046 <= 2 ^ 52 * 2 ^ g') as HP.
  { intros g' ?. apply Z.mul_le_mono_nonneg_l; [lia|]. apply Z.pow_le_mono_r; lia. }
  change (2 ^ 52 * 2 ^ 2046) with overflow in HP.
  destruct (Z.eqb_spec m (2 ^ 53)) as [->|Hne].
  - destruct (Z.ltb_spec 2045 (g + 1)) as [Hg'|]; [|done]. exfalso.
    specialize (HP _ Hg'). rewrite Z.pow_add_r in HP by lia.
    change (2 ^ 53) with (2 * 2 ^ 52) in Ho. lia.
  - destruct (Z.eqb_spec m 0) as [->|]; [done|].
    destruct (Z.ltb_spec 2045 g) as [Hg'|]; [|done]. exfalso.
    specialize (HP _ Hg'). specialize (Hn ltac:(lia)). pose proof (pow2_pos g Hg). nia.
Qed.

(** Everything [rnd] returns carries the requested sign. *)
Definition has_sign (s : bool) (x : number) : Prop :=
  match x with NaN => False | Inf t | Num t _ _ => t = s end.

Lemma pack_sign s m g : has_sign s (pack s m g).
Proof. unfold pack. by repeat case_match; simplify_eq. Qed.

Lemma rnd_sign s num den e : has_sign s (rnd s num den e).
Proof. unfold rnd. case_match; [done|apply pack_sign]. Qed.

Lemma rnd_wf s num den e : 0 <= num -> 0 < den -> 0 <= e -> wf_number (rnd s num den e).
Proof.
  intros Hn Hd He. destruct (Z.eq_dec num 0) as [->|].
  { unfold rnd. simpl. lia. }
  rewrite rnd_unfold by lia. pose proof (pow2_pos e He).
  pose proof (sig_bounds (2 ^ e * num) den ltac:(nia) Hd) as [? ?].
  apply pack_wf; auto using grid_nonneg.
Qed.

Lemma RZ_0 b : 0 < b -> RZ 0 b = 0.
Proof. intros Hb. apply (RZ_repr 0 b); [|done]. exists 0, 0. lia. Qed.

Lemma rnd_sv s num den e :
  0 <= num -> 0 < den -> 0 <= e -> isFinite (rnd s num den e) = true ->
  sv (rnd s num den e) = zsign s (RZ (2 ^ e * num) den).
Proof.
  intros Hn Hd He. destruct (Z.eq_dec num 0) as [->|].
  { intros _. unfold rnd. simpl. rewrite Z.mul_0_r, RZ_0 by done. unfold mag. f_equal. }
  rewrite rnd_unfold by lia. pose proof (pow2_pos e He).
  pose proof (sig_bounds (2 ^ e * num) den ltac:(nia) Hd) as [? ?].
  intros Hf. rewrite pack_sv by auto using grid_nonneg. done.
Qed.

Lemma rnd_finite s num den e :
  0 <= num -> 0 < den -> 0 <= e -> RZ (2 ^ e * num) den < overflow ->
  isFinite (rnd s num den e) = true.
Proof.
  intros Hn Hd He Ho. destruct (Z.eq_dec num 0) as [->|]; [done|].
  rewrite rnd_unfold by lia. pose proof (pow2_pos e He).
  pose proof (sig_bounds (2 ^ e * num) den ltac:(nia) Hd) as [? ?].
  apply pack_finite; auto using grid_nonneg.
Qed.

(** ** Comparison *)

Lemma ncmp_finite x y :
  isFinite x = true -> isFinite y = true -> ncmp x y = Some (sv x ?= sv y).
Proof. by destruct x as [|[]|], y as [|[]|]. Qed.

Lemma nle_sv x y : isFinite x = true -> isFinite y = true -> nle x y = (sv x <=? sv y).
Proof. intros. unfold nle. rewrite ncmp_finite by done. unfold Z.leb. by destruct (_ ?= _). Qed.

Lemma nlt_sv x y : isFinite x = true -> isFinite y = true -> nlt x y = (sv x <? sv y).
Proof. intros. unfold nlt. rewrite ncmp_finite by done. unfold Z.ltb. by destruct (_ ?= _). Qed.

Lemma neq_sv x y : isFinite x = true -> isFinite y = true -> neq x y = (sv x =? sv y).
Proof.
  intros. unfold neq. rewrite ncmp_finite by done.
  destruct (Z.compare_spec (sv x) (sv y)); symmetry; [by apply Z.eqb_eq|apply Z.eqb_neq; lia..].
Qed.

(** Comparing two Numbers that are not NaN is total; NaN compares false. *)
Lemma ncmp_antisym x y : ncmp y x = CompOpp <$> ncmp x y.
Proof.
  destruct x as [|[]|], y as [|[]|]; try done. simpl. by rewrite Z.compare_antisym.
Qed.

Lemma ncmp_None x y : ncmp x y = None <-> isNaN x || isNaN y = true.
Proof. destruct x as [|[]|], y as [|[]|]; simpl; split; congruence. Qed.

Lemma nlt_negb_nle x y : isNaN x = false -> isNaN y = false -> nlt x y = negb (nle y x).
Proof.
  intros Hx Hy. unfold nlt, nle. rewrite (ncmp_antisym x y).
  destruct (ncmp x y) as [[]|] eqn:E; try done.
  apply ncmp_None in E. by rewrite Hx, Hy in E.
Qed.

Lemma nle_negb_nlt x y : isNaN x = false -> isNaN y = false -> nle x y = negb (nlt y x).
Proof. intros. rewrite nlt_negb_nle, negb_involutive; done. Qed.

Lemma isFinite_notNaN x : isFinite x = true -> isNaN x = false.
Proof. by destruct x. Qed.

#[export] Hint Resolve isFinite_notNaN : jsnum.

Lemma nlt_nle x y : nlt x y = true -> nle x y = true.
Proof. unfold nlt, nle. by repeat case_match. Qed.

Lemma nle_refl x : isNaN x = false -> nle x x = true.
Proof. destruct x as [|[]|]; try done. intros _. rewrite nle_sv by done. apply Z.leb_refl. Qed.

Lemma nle_trans x y z : nle x y = true -> nle y z = true -> nle x z = true.
Proof.
  unfold nle. destruct x as [|[]|], y as [|[]|], z as [|[]|]; simpl; try done.
  set (a := zsign _ _); set (b := zsign _ _); set (c := zsign _ _).
  destruct (Z.compare_spec a b), (Z.compare_spec b c), (Z.compare_spec a c); done || lia.
Qed.

(** ** Math.min and Math.max *)

Lemma isNegZero_sv x : isNegZero x = true -> sv x = 0.
Proof.
  destruct x as [| |[] m k]; simpl; try done. intros ->%N.eqb_eq. unfold mag. simpl. lia.
Qed.

Lemma nmin_finite x y : isFinite x = true -> isFinite y = true -> isFinite (nmin x y) = true.
Proof. intros. unfold nmin. rewrite !isFinite_notNaN by done. by repeat case_match. Qed.

Lemma nmax_finite x y : isFinite x = true -> isFinite y = true -> isFinite (nmax x y) = true.
Proof. intros. unfold nmax. rewrite !isFinite_notNaN by done. by repeat case_match. Qed.

Lemma nmin_sv x y : isFinite x = true -> isFinite y = true -> sv (nmin x y) = Z.min (sv x) (sv y).
Proof.
  intros Hx Hy. unfold nmin. rewrite !isFinite_notNaN, !nlt_sv by done. simpl.
  destruct (Z.ltb_spec (sv x) (sv y)); [lia|].
  destruct (Z.ltb_spec (sv y) (sv x)); [lia|]. case_match; lia.
Qed.

Lemma nmax_sv x y : isFinite x = true -> isFinite y = true -> sv (nmax x y) = Z.max (sv x) (sv y).
Proof.
  intros Hx Hy. unfold nmax. rewrite !isFinite_notNaN, !nlt_sv by done. simpl.
  destruct (Z.ltb_spec (sv x) (sv y)); [lia|].
  destruct (Z.ltb_spec (sv y) (sv x)); [lia|]. case_match; lia.
Qed.

Lemma nmin_wf x y : wf_number x -> wf_number y -> wf_number (nmin x y).
Proof. intros. unfold nmin. by repeat case_match. Qed.

Lemma nmax_wf x y : wf_number x -> wf_number y -> wf_number (nmax x y).
Proof. intros. unfold nmax. by repeat case_match. Qed.

(** ** Addition and subtraction *)

(** The signed rounding of an exact integer sum. *)
Definition RS (z : Z) : Z := zsign (z <? 0) (RZ (Z.abs z) 1).

Lemma RS_nonneg z : 0 <= z -> RS z = RZ z 1.
Proof. intros. unfold RS. destruct (Z.ltb_spec z 0); [lia|]. simpl. f_equal. lia. Qed.

Lemma mag_shift m k c : (c <= k)%N -> mag m k = 2 ^ Z.of_N c * mag m (k - c).
Proof.
  intros. unfold mag. rewrite Z.mul_assoc, <- Z.pow_add_r by lia. do 2 f_equal. lia.
Qed.

Lemma zsign_mul s c z : zsign s (c * z) = c * zsign s z.
Proof. destruct s; simpl; lia. Qed.

(** The exact sum of two finite Numbers, on the grid [nadd] aligns them to. *)
Lemma sv_align s m k t n j :
  let c := N.min k j in
  sv (Num s m k) + sv (Num t n j) =
  2 ^ Z.of_N c * (zsign s (mag m (k - c)) + zsign t (mag n (j - c))).
Proof.
  intros c. simpl. rewrite (mag_shift m k c), (mag_shift n j c), !zsign_mul by lia. ring.
Qed.

Lemma nadd_sv x y :
  isFinite x = true -> isFinite y = true -> isFinite (nadd x y) = true ->
  sv (nadd x y) = RS (sv x + sv y).
Proof.
  destruct x as [| |s m k], y as [| |t n j]; try done. intros _ _.
  rewrite sv_align. simpl. set (c := N.min k j). set (z := _ + _).
  pose proof (pow2_pos (Z.of_N c)) as HP. destruct (Z.eqb_spec z 0) as [->|Hz].
  - intros _. rewrite Z.mul_0_r. unfold RS, mag. simpl.
    rewrite RZ_0 by done. by destruct (s && t).
  - intros Hf. rewrite rnd_sv by (lia || done). unfold RS.
    rewrite Z.abs_mul, (Z.abs_eq (2 ^ _)) by lia. f_equal.
    destruct (Z.ltb_spec z 0), (Z.ltb_spec (2 ^ Z.of_N c * z) 0); done || nia.
Qed.

Lemma nadd_wf x y : wf_number x -> wf_number y -> wf_number (nadd x y).
Proof.
  destruct x as [| |s m k], y as [| |t n j]; simpl; try done.
  - by case_match.
  - intros _ _. case_match; [simpl; lia|]. apply rnd_wf; lia.
Qed.

Lemma nneg_sv x : sv (nneg x) = - sv x.
Proof. destruct x as [| |[] m k]; simpl; lia. Qed.

Lemma nneg_finite x : isFinite (nneg x) = isFinite x.
Proof. by destruct x. Qed.

Lemma nneg_wf x : wf_number x -> wf_number (nneg x).
Proof. by destruct x. Qed.

Lemma nsub_wf x y : wf_number x -> wf_number y -> wf_number (nsub x y).
Proof. intros. apply nadd_wf; [done|by apply nneg_wf]. Qed.

Lemma wf_overflow x : wf_number x -> Z.abs (sv x) < overflow.
Proof.
  destruct x as [| |s m k]; intros Hw; [done..|]. destruct Hw as (Hm & Hk & _).
  assert (mag m k < overflow); [|pose proof (mag_nonneg m k); destruct s; simpl; lia].
  unfold mag, overflow. replace 2098 with (2045 + 53) by done. rewrite Z.pow_add_r by lia.
  assert (2 ^ Z.of_N k <= 2 ^ 2045) by (apply Z.pow_le_mono_r; lia).
  pose proof (pow2_pos (Z.of_N k)). nia.
Qed.

Lemma wf_abs_repr x : wf_number x -> isFinite x = true -> repr (Z.abs (sv x)).
Proof.
  destruct x as [| |s m k]; intros Hw Hf; [done..|].
  replace (Z.abs (sv (Num s m k))) with (mag m k); [by eapply wf_repr|].
  pose proof (mag_nonneg m k). destruct s; simpl; lia.
Qed.

(** A sum whose magnitude is at most that of a finite Number is finite. *)
Lemma nadd_finite x y w :
  isFinite x = true -> isFinite y = true -> wf_number w -> isFinite w = true ->
  Z.abs (sv x + sv y) <= Z.abs (sv w) -> isFinite (nadd x y) = true.
Proof.
  destruct x as [| |s m k], y as [| |t n j]; try done. intros _ _ Hw Hf.
  rewrite sv_align. simpl. set (c := N.min k j). set (z := _ + _).
  pose proof (pow2_pos (Z.of_N c)) as HP. intros Hle. destruct (Z.eqb_spec z 0) as [|Hz]; [done|].
  apply rnd_finite; [lia..|].
  rewrite Z.abs_mul, (Z.abs_eq (2 ^ _)) in Hle by lia.
  eapply Z.le_lt_trans; [|by apply (wf_overflow w)].
  apply RZ_upper; [by apply wf_abs_repr|nia|lia|lia].
Qed.

Lemma nsub_finite x y :
  isFinite x = true -> isFinite y = true -> wf_number x -> wf_number y ->
  0 <= sv y <= sv x -> isFinite (nsub x y) = true.
Proof.
  intros Hx Hy Wx Wy H. unfold nsub.
  apply (nadd_finite x (nneg y) x); rewrite ?nneg_finite, ?nneg_sv; (done || lia).
Qed.

(** Subtraction never crosses zero: y <= x gives 0 <= x - y <= x. *)
Lemma nsub_bounds x y :
  isFinite x = true -> isFinite y = true -> wf_number x -> wf_number y ->
  0 <= sv y <= sv x -> 0 <= sv (nsub x y) <= sv x.
Proof.
  intros Hx Hy Wx Wy H. pose proof (nsub_finite x y Hx Hy Wx Wy H) as Hf. unfold nsub in *.
  rewrite nadd_sv, nneg_sv, RS_nonneg by (rewrite ?nneg_finite; done || lia).
  split; [apply RZ_nonneg; lia|]. apply RZ_upper; [|lia..].
  replace (sv x) with (Z.abs (sv x)) by lia. by apply wf_abs_repr.
Qed.

(** Adding a non-negative Number never decreases. *)
Lemma nadd_lower x y :
  isFinite x = true -> isFinite y = true -> wf_number x -> 0 <= sv x -> 0 <= sv y ->
  isFinite (nadd x y) = true -> sv x <= sv (nadd x y).
Proof.
  intros Hx Hy Wx Px Py Hf. rewrite nadd_sv, RS_nonneg by (done || lia).
  apply RZ_lower; [|lia..]. replace (sv x) with (Z.abs (sv x)) by lia. by apply wf_abs_repr.
Qed.

(** ** toFixed *)

(** 2^1074 times the value: one unit of the real line. *)
Definition unit1 : Z := 2 ^ 1074.

(** [fixed_int] on the scaled magnitude. *)
Definition fx (z dp : Z) : Z := (2 * (10 ^ dp * z) + unit1) / (2 * unit1).

(** [toFixedNumber] on the scaled magnitude. *)
Definition RF (z dp : Z) : Z :=
  if z <? fixed_limit then RZ (unit1 * fx z dp) (10 ^ dp) else z.

Lemma unit1_pos : 0 < unit1.
Proof. by apply pow2_pos. Qed.

Lemma pow10_pos dp : 0 <= dp -> 0 < 10 ^ dp.
Proof. intros. apply Z.pow_pos_nonneg; lia. Qed.

#[export] Hint Resolve unit1_pos pow10_pos : jsnum.

Lemma fixed_int_fx m k dp : fixed_int m k dp = fx (mag m k) dp.
Proof.
  unfold fixed_int, fx, mag.
  set (u := 2 ^ Z.of_N (k - 1074)). set (w := 2 ^ Z.of_N (1074 - k)).
  assert (0 < w) by (apply pow2_pos; lia).
  pose proof unit1_pos. pose proof (pow2_pos (Z.of_N k) ltac:(lia)).
  assert (u * unit1 = w * 2 ^ Z.of_N k) as E.
  { unfold u, w, unit1. rewrite <- !Z.pow_add_r by lia. f_equal. lia. }
  rewrite <- (Z.div_mul_cancel_l _ (2 * w) unit1) by lia.
  rewrite <- (Z.div_mul_cancel_l _ (2 * unit1) w) by lia.
  f_equal; [|ring].
  transitivity (2 * (10 ^ dp * Z.of_N m * (u * unit1)) + unit1 * w); [ring|]. rewrite E. ring.
Qed.

(** [fx z dp] is an integer nearest to z * 10^dp / unit1. *)
Lemma fx_spec z dp :
  2 * (10 ^ dp * z) - unit1 < 2 * (unit1 * fx z dp) <= 2 * (10 ^ dp * z) + unit1.
Proof.
  pose proof unit1_pos. unfold fx. set (A := 2 * (10 ^ dp * z) + unit1).
  pose proof (Z.div_mod A (2 * unit1) ltac:(lia)).
  pose proof (Z.mod_pos_bound A (2 * unit1) ltac:(lia)). lia.
Qed.

Lemma fx_mono z z' dp : 0 <= dp -> z <= z' -> fx z dp <= fx z' dp.
Proof.
  intros Hd Hz. pose proof unit1_pos. pose proof (pow10_pos dp Hd).
  unfold fx. apply Z.div_le_mono; [lia|]. nia.
Qed.

Lemma fx_nonneg z dp : 0 <= dp -> 0 <= z -> 0 <= fx z dp.
Proof.
  intros Hd Hz. pose proof unit1_pos. pose proof (pow10_pos dp Hd).
  unfold fx. apply Z.div_pos; nia.
Qed.

(** An integral number of units is printed exactly. *)
Lemma fx_int z n dp : 10 ^ dp * z = unit1 * n -> fx z dp = n.
Proof.
  intros E. pose proof (fx_spec z dp) as H. pose proof unit1_pos. rewrite E in H. nia.
Qed.

Lemma fixed_limit_repr : repr fixed_limit.
Proof.
  exists (5 ^ 21), (1074 + 21). split; [done|]. split; [lia|].
  unfold fixed_limit. rewrite Z.pow_add_r by lia. change 10 with (2 * 5) at 1.
  rewrite Z.pow_mul_l. ring.
Qed.

Lemma fx_limit dp : 0 <= dp -> fx fixed_limit dp = 10 ^ dp * 10 ^ 21.
Proof. intros. apply fx_int. unfold fixed_limit, unit1. ring. Qed.

Lemma RF_limit z dp : 0 <= dp -> 0 <= z < fixed_limit -> RF z dp <= fixed_limit.
Proof.
  intros Hd Hz. unfold RF. destruct (Z.ltb_spec z fixed_limit); [|lia].
  pose proof (pow10_pos dp Hd). pose proof unit1_pos.
  pose proof (fx_nonneg z dp Hd ltac:(lia)).
  apply RZ_upper; [apply fixed_limit_repr|nia|done|].
  pose proof (fx_mono z fixed_limit dp Hd ltac:(lia)) as HM. rewrite fx_limit in HM by done.
  unfold fixed_limit. fold unit1. nia.
Qed.

Lemma RF_nonneg z dp : 0 <= dp -> 0 <= z -> 0 <= RF z dp.
Proof.
  intros Hd Hz. unfold RF. case_match; [|done]. pose proof unit1_pos.
  pose proof (fx_nonneg z dp Hd Hz). apply RZ_nonneg; [nia|auto with jsnum].
Qed.

(** Printing is monotone. *)
Lemma RF_mono z z' dp : 0 <= dp -> 0 <= z <= z' -> RF z dp <= RF z' dp.
Proof.
  intros Hd Hz. pose proof unit1_pos. pose proof (pow10_pos dp Hd).
  pose proof (fx_nonneg z dp Hd ltac:(lia)). pose proof (fx_nonneg z' dp Hd ltac:(lia)).
  pose proof (fx_mono z z' dp Hd ltac:(lia)).
  destruct (Z.lt_ge_cases z' fixed_limit) as [Hl|Hl].
  - unfold RF. destruct (Z.ltb_spec z fixed_limit), (Z.ltb_spec z' fixed_limit); try lia.
    apply RZ_mono; [nia|nia|done|done|].
    apply Z.mul_le_mono_nonneg_r; [lia|]. apply Z.mul_le_mono_nonneg_l; lia.
  - destruct (Z.lt_ge_cases z fixed_limit) as [Hl'|Hl'].
    + pose proof (RF_limit z dp Hd ltac:(lia)). unfold RF at 2.
      destruct (Z.ltb_spec z' fixed_limit); lia.
    + unfold RF. destruct (Z.ltb_spec z fixed_limit), (Z.ltb_spec z' fixed_limit); lia.
Qed.

Lemma rne_unique a b n :
  0 < b -> 2 * a - b <= 2 * (n * b) <= 2 * a + b ->
  (2 * (n * b) = 2 * a - b \/ 2 * (n * b) = 2 * a + b -> Z.even n = true) ->
  rne a b = n.
Proof.
  intros Hb Hn Hev. destruct (rne_spec a b Hb) as [Hr Hev'].
  set (r := rne a b) in *.
  assert (r = n \/ r = n + 1 \/ r = n - 1) as [|[E|E]] by nia; [done|exfalso..].
  - assert (Z.even n = true) as E1 by (apply Hev; left; nia).
    assert (Z.even r = true) as E2 by (apply Hev'; right; nia).
    rewrite E, Z.even_add, E1 in E2. done.
  - assert (Z.even n = true) as E1 by (apply Hev; right; nia).
    assert (Z.even r = true) as E2 by (apply Hev'; left; nia).
    rewrite E, Z.even_sub, E1 in E2. done.
Qed.

(** A value that rounds up to X: its reflection above X rounds to X too. *)
Lemma RZ_reflect_up a a' b X :
  0 <= a -> 0 < b -> RZ a b = X -> a < b * X -> b * X <= a' -> a + a' <= 2 * (b * X) ->
  RZ a' b = X.
Proof.
  intros Ha Hb HX Hlt Hle Hsum.
  pose proof (grid_nonneg a b) as Hg. pose proof (pow2_pos _ Hg) as HP.
  pose proof (sig_bounds a b Ha Hb) as [[M0 M1] M2].
  destruct (rne_spec a (2 ^ grid a b * b) ltac:(nia)) as [[S1 S2] S3].
  fold (sig a b) in S1, S2, S3. rewrite RZ_sig in HX.
  set (g := grid a b) in *. set (M := sig a b) in *.
  assert (M * (2 ^ g * b) = b * X) as EM by (rewrite <- HX; ring).
  assert (2 ^ (53 + g) = 2 ^ g * 2 ^ 53) as P53 by (rewrite Z.add_comm, Z.pow_add_r by lia; done).
  assert (2 ^ (52 + g) = 2 ^ g * 2 ^ 52) as P52 by (rewrite Z.add_comm, Z.pow_add_r by lia; done).
  destruct (Z.eq_dec M (2 ^ 53)) as [E|E].
  - assert (grid a' b = g + 1) as G'.
    { apply grid_unique; [nia|done|lia|..].
      - replace (53 + (g + 1)) with (53 + g + 1) by lia. rewrite Z.pow_add_r by lia. nia.
      - intros _. replace (52 + (g + 1)) with (53 + g) by lia. nia. }
    unfold RZ. rewrite G', Z.pow_add_r by lia. change (2 ^ 1) with 2.
    rewrite (rne_unique a' (2 ^ g * 2 * b) (2 ^ 52)); [|nia|nia|done].
    rewrite <- HX, E. change (2 ^ 53) with (2 * 2 ^ 52). ring.
  - assert (grid a' b = g) as G'.
    { apply grid_unique; [nia|done|done|nia|]. intros Hpos. specialize (M2 Hpos). nia. }
    unfold RZ. rewrite G', (rne_unique a' (2 ^ g * b) M); [done|nia|nia|].
    intros Ht. apply S3. nia.
Qed.

(** Dually below X, except where X opens a binade. *)
Lemma RZ_reflect_down a a' b X :
  0 <= a' -> 0 < b -> RZ a b = X -> b * X < a -> a' <= b * X -> 2 * (b * X) <= a + a' ->
  0 <= a -> grid a b = 0 \/ X <> 2 ^ (52 + grid a b) -> RZ a' b = X.
Proof.
  intros Ha' Hb HX Hlt Hle Hsum Ha Hbin.
  pose proof (grid_nonneg a b) as Hg. pose proof (pow2_pos _ Hg) as HP.
  pose proof (sig_bounds a b Ha Hb) as [[M0 M1] M2].
  pose proof (grid_upper a b Ha Hb) as GU.
  destruct (rne_spec a (2 ^ grid a b * b) ltac:(nia)) as [[S1 S2] S3].
  fold (sig a b) in S1, S2, S3. rewrite RZ_sig in HX.
  set (g := grid a b) in *. set (M := sig a b) in *.
  assert (M * (2 ^ g * b) = b * X) as EM by (rewrite <- HX; ring).
  assert (2 ^ (53 + g) = 2 ^ g * 2 ^ 53) as P53 by (rewrite Z.add_comm, Z.pow_add_r by lia; done).
  assert (2 ^ (52 + g) = 2 ^ g * 2 ^ 52) as P52 by (rewrite Z.add_comm, Z.pow_add_r by lia; done).
  assert (grid a' b = g) as G'.
  { apply grid_unique; [done|done|done|nia|]. intros Hpos. specialize (M2 Hpos).
    destruct Hbin as [|Hbin]; [lia|].
    assert (M <> 2 ^ 52) by (intros Eq; apply Hbin; rewrite <- HX, Eq; lia). nia. }
  unfold RZ. rewrite G', (rne_unique a' (2 ^ g * b) M); [done|nia|nia|].
  intros Ht. apply S3. nia.
Qed.

Lemma fixed_limit_grid dp : 0 <= dp -> RF fixed_limit dp = fixed_limit.
Proof. intros. unfold RF. by rewrite Z.ltb_irrefl. Qed.

(** The distance from X to the printed decimal it came from, when reprinting X
    gives a different decimal: both cases put X between the two decimals. *)
Lemma RF_idem_aux n n' P X :
  0 <= n -> 0 <= n' -> 0 < P < 2 ^ 53 -> RZ (unit1 * n) P = X ->
  2 * (P * X) - unit1 < 2 * (unit1 * n') <= 2 * (P * X) + unit1 ->
  (forall q, P * X = unit1 * q -> n' = q) ->
  RZ (unit1 * n') P = X.
Proof.
  intros Hn Hn' HP HX Hsp Hex. pose proof unit1_pos as HU.
  assert (HPX : RZ (P * X) P = X).
  { rewrite Z.mul_comm. apply RZ_repr; [|lia]. rewrite <- HX. apply RZ_is_repr; nia. }
  assert (HX0 : 0 <= X) by (rewrite <- HX; apply RZ_nonneg; nia).
  destruct (Z.lt_trichotomy n n') as [Hlt|[->|Hgt]]; [|done|].
  - destruct (Z.le_gt_cases (unit1 * n') (P * X)) as [Hle|Hgt].
    + apply Z.le_antisymm.
      * rewrite <- HPX. apply RZ_mono; nia.
      * rewrite <- HX. apply RZ_mono; nia.
    + apply (RZ_reflect_up (unit1 * n)); nia.
  - destruct (Z.le_gt_cases (P * X) (unit1 * n')) as [Hle|Hlt].
    + apply Z.le_antisymm.
      * rewrite <- HX. apply RZ_mono; nia.
      * rewrite <- HPX. apply RZ_mono; nia.
    + apply (RZ_reflect_down (unit1 * n)); [nia|lia|done|nia|nia|nia|nia|].
      destruct (Z.eq_dec (grid (unit1 * n) P) 0) as [|Hg]; [by left|right]. intros HE.
      set (g := grid (unit1 * n) P) in *.
      assert (0 <= g) as Hg0 by apply grid_nonneg.
      destruct (Z.le_gt_cases 1022 g) as [Hbig|Hsmall].
      * (* X is an integer: printed exactly *)
        assert (P * X = unit1 * (P * 2 ^ (g - 1022))) as EQ.
        { rewrite HE. unfold unit1. replace (52 + g) with (1074 + (g - 1022)) by lia.
          rewrite Z.pow_add_r by lia. ring. }
        rewrite (Hex _ EQ) in Hlt. lia.
      * (* X below one: the two decimals would be a unit apart *)
        destruct (rne_spec (unit1 * n) (2 ^ g * P)) as [[S1 S2] _]; [pose proof (pow2_pos g); nia|].
        assert (2 * (unit1 * n - P * X) <= 2 ^ g * P) as Hd.
        { rewrite RZ_sig in HX. unfold sig in HX. fold g in HX.
          assert (P * X = rne (unit1 * n) (2 ^ g * P) * (2 ^ g * P)) as -> by (rewrite <- HX; ring).
          pose proof (pow2_pos g Hg0). nia. }
        assert (2 ^ g * P < unit1) as Hc; [|nia].
        assert (2 ^ g <= 2 ^ 1021) by (apply Z.pow_le_mono_r; lia).
        assert (2 ^ 1021 * 2 ^ 53 = unit1) by (rewrite <- Z.pow_add_r by lia; done). nia.
Qed.

(** Printing a printed value again changes nothing. *)
Lemma RF_idem z dp : 0 <= dp <= 15 -> 0 <= z -> RF (RF z dp) dp = RF z dp.
Proof.
  intros Hd Hz. unfold RF at 2 3. destruct (Z.ltb_spec z fixed_limit) as [Hl|Hl].
  2:{ unfold RF. destruct (Z.ltb_spec z fixed_limit); [lia|done]. }
  assert (0 < 10 ^ dp < 2 ^ 53) as HP.
  { split; [auto with jsnum zarith|].
    apply (Z.le_lt_trans _ (10 ^ 15)); [apply Z.pow_le_mono_r; lia|done]. }
  pose proof (fx_nonneg z dp ltac:(lia) Hz) as Hn.
  set (X := RZ (unit1 * fx z dp) (10 ^ dp)) in *.
  assert (0 <= X) as HX0 by (apply RZ_nonneg; pose proof unit1_pos; nia).
  unfold RF. destruct (Z.ltb_spec X fixed_limit); [|done].
  eapply RF_idem_aux; [exact Hn|apply fx_nonneg; lia|done|done|apply fx_spec|].
  intros q E. by apply fx_int.
Qed.

Lemma RF_repr z dp : 0 <= dp -> 0 <= z -> repr z -> repr (RF z dp).
Proof.
  intros Hd Hz Hr. unfold RF. case_match; [|done]. pose proof unit1_pos.
  pose proof (fx_nonneg z dp Hd Hz). apply RZ_is_repr; [nia|auto with jsnum].
Qed.

(** *** Lifted to Numbers *)

Lemma fixed_limit_overflow : fixed_limit < overflow.
Proof. done. Qed.

Lemma toFixedNumber_finite x dp :
  0 <= dp -> isFinite x = true -> isFinite (toFixedNumber x dp) = true.
Proof.
  intros Hd. destruct x as [| |s m k]; try done. intros _. simpl.
  destruct (Z.ltb_spec (mag m k) fixed_limit) as [Hl|]; [|done].
  pose proof (mag_nonneg m k). rewrite fixed_int_fx.
  pose proof (fx_nonneg (mag m k) dp Hd ltac:(done)).
  apply rnd_finite; [done|auto with jsnum|lia|].
  pose proof (RF_limit (mag m k) dp Hd ltac:(lia)) as HR. unfold RF in HR.
  destruct (Z.ltb_spec (mag m k) fixed_limit); [|lia].
  pose proof fixed_limit_overflow. fold unit1. lia.
Qed.

Lemma toFixedNumber_sv s m k dp :
  0 <= dp -> sv (toFixedNumber (Num s m k) dp) = zsign s (RF (mag m k) dp).
Proof.
  intros Hd. pose proof (toFixedNumber_finite (Num s m k) dp Hd eq_refl) as Hf.
  simpl in *. unfold RF. pose proof (mag_nonneg m k).
  destruct (Z.ltb_spec (mag m k) fixed_limit); [|done].
  rewrite fixed_int_fx in *.
  rewrite rnd_sv by (auto using fx_nonneg with jsnum; lia). fold unit1.
  destruct (N.eqb_spec m 0) as [->|]; [|by rewrite andb_true_r].
  replace (mag 0 k) with 0 by (unfold mag; lia).
  replace (unit1 * fx 0 dp) with 0; [by rewrite RZ_0 by auto with jsnum; destruct s|].
  rewrite (fx_int 0 0 dp); lia.
Qed.

Lemma toFixedNumber_wf x dp : 0 <= dp -> wf_number x -> wf_number (toFixedNumber x dp).
Proof.
  intros Hd. destruct x as [| |s m k]; try done. intros Hw.
  unfold toFixedNumber. case_match; [|done].
  rewrite fixed_int_fx. pose proof (fx_nonneg (mag m k) dp Hd (mag_nonneg m k)).
  apply rnd_wf; auto with jsnum. lia.
Qed.

(** *** The sources' [round]: [toFixedNumber] with -0 and non-finite values sent to 0 *)

(** [RF] with a sign. *)
Definition RN (z dp : Z) : Z := zsign (z <? 0) (RF (Z.abs z) dp).

Lemma RF_0 dp : 0 <= dp -> RF 0 dp = 0.
Proof.
  intros Hd. unfold RF. destruct (Z.ltb_spec 0 fixed_limit); [|done].
  rewrite (fx_int 0 0 dp) by lia. rewrite Z.mul_0_r. by apply RZ_0, pow10_pos.
Qed.

Lemma RN_nonneg z dp : 0 <= z -> RN z dp = RF z dp.
Proof. intros. unfold RN. destruct (Z.ltb_spec z 0); [lia|]. by rewrite Z.abs_eq. Qed.

Lemma RN_opp z dp : 0 <= dp -> RN (- z) dp = - RN z dp.
Proof.
  intros Hd. unfold RN. rewrite Z.abs_opp.
  destruct (Z.ltb_spec (- z) 0), (Z.ltb_spec z 0); simpl; [lia|lia|lia|].
  replace z with 0 by lia. by rewrite RF_0.
Qed.

Lemma RN_mono z z' dp : 0 <= dp -> z <= z' -> RN z dp <= RN z' dp.
Proof.
  intros Hd H. unfold RN.
  pose proof (RF_nonneg (Z.abs z) dp Hd ltac:(lia)).
  pose proof (RF_nonneg (Z.abs z') dp Hd ltac:(lia)).
  destruct (Z.ltb_spec z 0), (Z.ltb_spec z' 0); simpl; try lia.
  - pose proof (RF_mono (Z.abs z') (Z.abs z) dp Hd ltac:(lia)). lia.
  - apply RF_mono; lia.
Qed.

Lemma RN_idem z dp : 0 <= dp <= 15 -> RN (RN z dp) dp = RN z dp.
Proof.
  intros Hd. destruct (Z.le_gt_cases 0 z) as [Hz|Hz].
  - rewrite (RN_nonneg z), RN_nonneg; auto using RF_idem, RF_nonneg; apply RF_nonneg; lia.
  - replace z with (- - z) by lia. rewrite !(RN_opp (- z)), RN_opp by lia. f_equal.
    rewrite (RN_nonneg (- z)), RN_nonneg; try lia.
    + apply RF_idem; lia.
    + apply RF_nonneg; lia.
Qed.

(** ** Multiplication and division *)

(** Rounding of the exact quotient of a signed integer. *)
Definition RQ (z b : Z) : Z := zsign (z <? 0) (RZ (Z.abs z) b).

Lemma RQ_nonneg z b : 0 <= z -> RQ z b = RZ z b.
Proof. intros. unfold RQ. destruct (Z.ltb_spec z 0); [lia|]. by rewrite Z.abs_eq. Qed.

Lemma RQ_zsign s z b : 0 <= z -> 0 < b -> zsign s (RZ z b) = RQ (zsign s z) b.
Proof.
  intros Hz Hb. unfold RQ. destruct s; simpl.
  - rewrite Z.abs_opp, Z.abs_eq by done. destruct (Z.ltb_spec (- z) 0); [done|].
    replace z with 0 by lia. by rewrite RZ_0.
  - rewrite Z.abs_eq by done. destruct (Z.ltb_spec z 0); [lia|done].
Qed.

Lemma zsign_prod s t a b : zsign s a * zsign t b = zsign (xorb s t) (a * b).
Proof. destruct s, t; simpl; lia. Qed.

Lemma nmul_sv x y :
  isFinite x = true -> isFinite y = true -> isFinite (nmul x y) = true ->
  sv (nmul x y) = RQ (sv x * sv y) unit1.
Proof.
  destruct x as [| |s m k], y as [| |t n j]; try done. intros _ _ Hf.
  pose proof (mag_nonneg m k). pose proof (mag_nonneg n j). pose proof unit1_pos.
  cbn [nmul] in *. rewrite rnd_sv by (try done; lia).
  cbn [sv]. rewrite zsign_prod, <- RQ_zsign by nia. f_equal.
  set (d := N.sub 1074 (k + j)). set (e := N.sub (k + j) 1074).
  assert (0 < 2 ^ Z.of_N d) by (apply pow2_pos; lia).
  assert (0 < 2 ^ Z.of_N e) by (apply pow2_pos; lia).
  apply RZ_eq; try nia.
  unfold mag. rewrite N2Z.inj_mul.
  assert (2 ^ Z.of_N e * unit1 = 2 ^ Z.of_N k * 2 ^ Z.of_N j * 2 ^ Z.of_N d) as E.
  { unfold unit1. rewrite <- !Z.pow_add_r by lia. f_equal. lia. }
  transitivity (2 ^ Z.of_N e * unit1 * (Z.of_N m * Z.of_N n)); [ring|]. rewrite E. ring.
Qed.

Lemma nmul_wf x y : wf_number (nmul x y).
Proof.
  destruct x as [| |s m k], y as [| |t n j]; simpl; try done; try (by case_match).
  apply rnd_wf; lia.
Qed.

Lemma ndiv_wf x y : wf_number (ndiv x y).
Proof.
  destruct x as [| |s m k], y as [| |t n j]; simpl; try done.
  destruct (N.eqb_spec n 0); [by case_match|].
  assert (0 < 2 ^ Z.of_N (j - (k + 1074))) by (apply pow2_pos; lia).
  apply rnd_wf; lia.
Qed.

(** Multiplying by 1 or -1 is exact. *)
Lemma RZ_unit z : repr z -> RZ (unit1 * z) unit1 = z.
Proof. intros Hz. rewrite Z.mul_comm. apply RZ_repr; auto with jsnum. Qed.

Lemma nmul_unit_sv s x :
  isFinite x = true -> wf_number x -> isFinite (nmul s x) = true ->
  isFinite s = true -> Z.abs (sv s) = unit1 ->
  sv (nmul s x) = Z.sgn (sv s) * sv x.
Proof.
  intros Hx Wx Hf Hs E. rewrite nmul_sv by done. unfold RQ.
  rewrite Z.abs_mul, E, RZ_unit by (by apply wf_abs_repr).
  pose proof unit1_pos. destruct (Z.ltb_spec (sv s * sv x) 0); simpl; nia.
Qed.

Lemma nmul_unit_finite s x :
  isFinite x = true -> wf_number x -> isFinite s = true -> Z.abs (sv s) = unit1 ->
  isFinite (nmul s x) = true.
Proof.
  destruct s as [| |s m k], x as [| |t n j]; try done. intros _ Wx _ E.
  cbn [nmul]. set (d := N.sub 1074 (k + j)). set (e := N.sub (k + j) 1074).
  assert (0 < 2 ^ Z.of_N d) by (apply pow2_pos; lia).
  assert (0 < 2 ^ Z.of_N e) by (apply pow2_pos; lia).
  pose proof (mag_nonneg m k). pose proof (mag_nonneg n j). pose proof unit1_pos.
  apply rnd_finite; [lia|lia|lia|].
  assert (Z.abs (sv (Num s m k)) = mag m k) as Em by (destruct s; simpl; lia).
  rewrite Em in E.
  rewrite (RZ_eq _ _ (unit1 * mag n j) unit1); try nia.
  - rewrite RZ_unit by (by eapply wf_repr).
    pose proof (wf_overflow _ Wx). destruct t; simpl in *; lia.
  - assert (2 ^ Z.of_N e * unit1 = 2 ^ Z.of_N k * 2 ^ Z.of_N j * 2 ^ Z.of_N d) as E2.
    { unfold unit1. rewrite <- !Z.pow_add_r by lia. f_equal. lia. }
    rewrite <- E at 2. unfold mag. rewrite N2Z.inj_mul.
    transitivity (2 ^ Z.of_N e * unit1 * (Z.of_N m * Z.of_N n)); [ring|]. rewrite E2. ring.
Qed.

Lemma nmul_zero_sv x : isFinite x = true -> sv (nmul (nint 0) x) = 0.
Proof.
  destruct x as [| |s m k]; try done. intros _. change (nint 0) with (Num false 0 0).
  cbn [nmul]. unfold rnd. by destruct s.
Qed.

(** ** Monotone operations *)

Lemma RQ_mono z z' b : 0 < b -> z <= z' -> RQ z b <= RQ z' b.
Proof.
  intros Hb Hz. unfold RQ, zsign.
  pose proof (RZ_nonneg (Z.abs z) b ltac:(lia) Hb). pose proof (RZ_nonneg (Z.abs z') b ltac:(lia) Hb).
  destruct (Z.ltb_spec z 0), (Z.ltb_spec z' 0); try lia.
  - assert (RZ (Z.abs z') b <= RZ (Z.abs z) b); [apply RZ_mono; nia|lia].
  - apply RZ_mono; nia.
Qed.

Lemma RS_mono z z' : z <= z' -> RS z <= RS z'.
Proof. intros H. exact (RQ_mono z z' 1 ltac:(lia) H). Qed.

Lemma nadd_finite_inv x y : isFinite (nadd x y) = true -> isFinite x = true /\ isFinite y = true.
Proof. by destruct x as [| |? ? ?], y as [| |? ? ?]; simpl; repeat case_match. Qed.

Lemma nsub_finite_inv x y : isFinite (nsub x y) = true -> isFinite x = true /\ isFinite y = true.
Proof. intros [? ?]%nadd_finite_inv. by rewrite nneg_finite in *. Qed.

Lemma nmul_finite_inv x y : isFinite (nmul x y) = true -> isFinite x = true /\ isFinite y = true.
Proof. by destruct x as [| |? ? ?], y as [| |? ? ?]; simpl; repeat case_match. Qed.

Lemma nmul_mono a m m' :
  isFinite (nmul m a) = true -> isFinite (nmul m' a) = true ->
  0 <= sv a -> sv m <= sv m' -> sv (nmul m a) <= sv (nmul m' a).
Proof.
  intros F F' Ha Hm. destruct (nmul_finite_inv _ _ F), (nmul_finite_inv _ _ F').
  rewrite !nmul_sv by done. apply RQ_mono; [apply unit1_pos|nia].
Qed.

Lemma nadd_mono x y y' :
  isFinite (nadd x y) = true -> isFinite (nadd x y') = true -> sv y <= sv y' -> sv (nadd x y) <= sv (nadd x y').
Proof.
  intros F F' H. destruct (nadd_finite_inv _ _ F), (nadd_finite_inv _ _ F').
  rewrite !nadd_sv by done. apply RS_mono. lia.
Qed.

(** A product whose magnitude is at most that of a finite Number is finite. *)
Lemma nmul_finite x y w :
  isFinite x = true -> isFinite y = true -> wf_number w -> isFinite w = true ->
  Z.abs (sv x * sv y) <= unit1 * Z.abs (sv w) -> isFinite (nmul x y) = true.
Proof.
  destruct x as [| |s m k], y as [| |t n j]; try done. intros _ _ Ww Fw H. cbn [nmul sv] in *.
  pose proof (mag_nonneg m k). pose proof (mag_nonneg n j). pose proof unit1_pos.
  rewrite zsign_prod in H.
  assert (mag m k * mag n j <= unit1 * Z.abs (sv w)) as H' by (destruct (xorb s t); simpl in H; nia). clear H.
  set (d := N.sub 1074 (k + j)). set (e := N.sub (k + j) 1074).
  assert (0 < 2 ^ Z.of_N d) by (apply pow2_pos; lia).
  assert (0 < 2 ^ Z.of_N e) by (apply pow2_pos; lia).
  apply rnd_finite; [lia..|]. eapply Z.le_lt_trans; [|by apply (wf_overflow w)].
  apply RZ_upper; [by apply wf_abs_repr|nia|done|].
  assert (2 ^ Z.of_N e * unit1 = 2 ^ Z.of_N k * 2 ^ Z.of_N j * 2 ^ Z.of_N d) as E.
  { unfold unit1. rewrite <- !Z.pow_add_r by lia. f_equal. lia. }
  unfold mag in H'. rewrite N2Z.inj_mul. apply (Z.mul_le_mono_pos_r _ _ unit1); [done|].
  replace (2 ^ Z.of_N e * (Z.of_N m * Z.of_N n) * unit1)
    with (2 ^ Z.of_N d * (2 ^ Z.of_N k * Z.of_N m * (2 ^ Z.of_N j * Z.of_N n)))
    by (transitivity (2 ^ Z.of_N e * unit1 * (Z.of_N m * Z.of_N n)); [rewrite E; ring|ring]).
  nia.
Qed.

(** A share between 0 and 1 of a non-negative weight is between 0 and the weight. *)
Lemma nmul_share w t :
  isFinite w = true -> wf_number w -> 0 <= sv w -> isFinite t = true -> 0 <= sv t <= unit1 ->
  isFinite (nmul w t) = true /\ 0 <= sv (nmul w t) <= sv w.
Proof.
  intros Fw Ww Hw Ft Ht. pose proof unit1_pos.
  assert (isFinite (nmul w t) = true) as F by (apply (nmul_finite w t w); auto; nia).
  split; [done|]. rewrite nmul_sv by done. rewrite RQ_nonneg by nia. split.
  - apply RZ_nonneg; [nia|lia].
  - apply RZ_upper; [|nia|lia|nia]. replace (sv w) with (Z.abs (sv w)) by lia. by apply wf_abs_repr.
Qed.

(** Rounding keeps a value that is representable. *)
Lemma RS_repr z : repr (Z.abs z) -> RS z = z.
Proof.
  intros H. unfold RS. rewrite <- (Z.mul_1_r (Z.abs z)), RZ_repr by (done || lia).
  unfold zsign. destruct (Z.ltb_spec z 0); lia.
Qed.

(** Adding a non-negative value does not go below, a non-positive one not above. *)
Lemma nadd_above x y :
  wf_number x -> isFinite (nadd x y) = true -> 0 <= sv y -> sv x <= sv (nadd x y).
Proof.
  intros W F H. destruct (nadd_finite_inv _ _ F) as [Fx Fy]. rewrite nadd_sv by done.
  rewrite <- (RS_repr (sv x)) at 1 by (by apply wf_abs_repr). apply RS_mono. lia.
Qed.

Lemma nadd_below x y :
  wf_number x -> isFinite (nadd x y) = true -> sv y <= 0 -> sv (nadd x y) <= sv x.
Proof.
  intros W F H. destruct (nadd_finite_inv _ _ F) as [Fx Fy]. rewrite nadd_sv by done.
  rewrite <- (RS_repr (sv x)) at 2 by (by apply wf_abs_repr). apply RS_mono. lia.
Qed.

(** A Number with a plus sign is at least 0. *)
Lemma has_sign_nonneg x : has_sign false x -> nle (nint 0) x = true.
Proof.
  destruct x as [|t|t m k]; simpl; [done|by intros ->|intros ->].
  rewrite nle_sv by done. apply Z.leb_le. simpl. apply mag_nonneg.
Qed.

(** Adding a finite non-negative Number to a non-negative one: the sum is at least both. *)
Lemma nadd_nonneg x y :
  wf_number x -> wf_number y -> isNaN x = false -> isFinite y = true -> nle (nint 0) x = true -> nle (nint 0) y = true ->
  isNaN (nadd x y) = false /\ nle x (nadd x y) = true /\ nle y (nadd x y) = true.
Proof.
  intros Wx Wy Nx Fy Hx Hy. destruct x as [|[]|s m k]; [done|done| |].
  { destruct y as [| |t n j]; [done|done|]. split; [done|]. by split. }
  destruct (isFinite (nadd (Num s m k) y)) eqn:F.
  - rewrite nle_sv in Hx, Hy by done. apply Z.leb_le in Hx, Hy. change (sv (nint 0)) with 0 in *.
    rewrite !nle_sv, !Z.leb_le by done. split; [by apply isFinite_notNaN|]. split; [by apply nadd_above|].
    rewrite nadd_sv, Z.add_comm by done.
    rewrite <- (RS_repr (sv y)) at 1 by (by apply wf_abs_repr). apply RS_mono. lia.
  - assert (nadd (Num s m k) y = Inf false) as ->; [|by destruct y as [| |t n j]].
    destruct y as [| |t n j]; try done. rewrite !nle_sv in Hx, Hy by done. apply Z.leb_le in Hx, Hy.
    change (sv (nint 0)) with 0 in *. pose proof (sv_align s m k t n j) as E. simpl in E. simpl nadd in *.
    set (c := N.min k j) in *. set (z := _ + _) in *. pose proof (pow2_pos (Z.of_N c) ltac:(lia)).
    destruct (Z.eqb_spec z 0) as [|Hz]; [done|]. destruct (Z.ltb_spec z 0) as [Hn|_]; [simpl in Hx, Hy; nia|].
    pose proof (rnd_sign false (Z.abs z) 1 (Z.of_N c)) as HS.
    destruct (rnd false (Z.abs z) 1 (Z.of_N c)) as [|t'|]; try done. simpl in HS. by subst.
Qed.

Lemma RQ_sign z b : 0 < b -> (0 <= z -> 0 <= RQ z b) /\ (z <= 0 -> RQ z b <= 0).
Proof.
  intros Hb. unfold RQ, zsign. pose proof (RZ_nonneg (Z.abs z) b ltac:(lia) Hb).
  destruct (Z.ltb_spec z 0); split; intros; try lia. replace z with 0 by lia. by rewrite RZ_0.
Qed.

(** ** Numeric comparators *)

(** A non-zero exact value rounds to the same side of zero, or to the infinity there. *)
Lemma rnd_side s a e :
  0 < a -> 0 <= e -> nlt (rnd s a 1 e) (nint 0) = s /\ ngt (rnd s a 1 e) (nint 0) = negb s.
Proof.
  intros Ha He. pose proof (rnd_sign s a 1 e) as HS. pose proof (pow2_pos e He).
  destruct (isFinite (rnd s a 1 e)) eqn:F.
  - unfold ngt. rewrite !nlt_sv by done. rewrite rnd_sv by (done || lia). change (sv (nint 0)) with 0.
    assert (1 <= RZ (2 ^ e * a) 1) by (apply RZ_lower; [exists 1, 0; lia|nia..]).
    destruct s; simpl; split; (apply Z.ltb_lt || apply Z.ltb_ge); lia.
  - by destruct (rnd s a 1 e) as [|[]|], s.
Qed.

(** [a - b] as a comparator of finite Numbers is the order of their values. *)
Lemma compareNumbers_sv x y :
  isFinite x = true -> isFinite y = true -> compareNumbers x y = (sv x ?= sv y).
Proof.
  destruct x as [| |s m k], y as [| |t n j]; try done. intros _ _.
  unfold compareNumbers, nsub. cbn [nneg nadd]. set (c := N.min k j). set (z := _ + _).
  assert (sv (Num s m k) - sv (Num t n j) = 2 ^ Z.of_N c * z) as E.
  { rewrite <- Z.add_opp_r, <- nneg_sv. cbn [nneg]. apply sv_align. }
  pose proof (pow2_pos (Z.of_N c) ltac:(lia)).
  destruct (Z.eqb_spec z 0) as [Hz|Hz].
  - rewrite Hz, Z.mul_0_r in E. assert (sv (Num s m k) = sv (Num t n j)) as -> by lia.
    rewrite Z.compare_refl. by destruct s, t.
  - destruct (rnd_side (z <? 0) (Z.abs z) (Z.of_N c)) as [-> ->]; [lia..|].
    destruct (Z.ltb_spec z 0); simpl in *; symmetry; [apply Z.compare_lt_iff|apply Z.compare_gt_iff].
    + assert (2 ^ Z.of_N c * z < 0) by nia. lia.
    + assert (0 < 2 ^ Z.of_N c * z) by nia. lia.
Qed.

(** ** Results that are Numbers *)

Lemma rnd_notNaN s num den e : isNaN (rnd s num den e) = false.
Proof. pose proof (rnd_sign s num den e). by destruct (rnd s num den e). Qed.

Lemma nadd_notNaN x y : isFinite x = true -> isFinite y = true -> isNaN (nadd x y) = false.
Proof. destruct x, y; try done. intros _ _. simpl. case_match; [done|apply rnd_notNaN]. Qed.

Lemma nabs_facts x : isNaN (nabs x) = isNaN x /\ isFinite (nabs x) = isFinite x /\ (sv (nabs x) = 0 <-> sv x = 0)%Z.
Proof. destruct x as [| |[] m k]; simpl; split_and!; try done; lia. Qed.

Lemma sv_zero s m k : (sv (Num s m k) = 0)%Z <-> m = 0%N.
Proof.
  unfold sv, mag. pose proof (pow2_pos (Z.of_N k) ltac:(lia)).
  destruct s; simpl; split; try (intros ->; lia); nia.
Qed.

(** A quotient is NaN only for 0/0 and for infinities. *)
Lemma ndiv_notNaN x y :
  isNaN x = false -> isFinite y = true -> (isFinite x = true -> sv x = 0 -> sv y <> 0)%Z -> isNaN (ndiv x y) = false.
Proof.
  destruct x as [|s|s m k], y as [|t|t n j]; try done. intros _ _ H. simpl.
  destruct (N.eqb_spec n 0) as [->|]; [|apply rnd_notNaN].
  destruct (N.eqb_spec m 0) as [->|]; [|done]. exfalso. apply H; [done| |]; by apply sv_zero.
Qed.
