(* ===== verification/JsText.v ===== *)
(** * JsText: text forms of Numbers and Dates

    [Number::toString] (the shortest decimal that reads back as the Number),
    [Math.round], [Array.prototype.join] and [Date.prototype.toISOString], as the
    sources' template strings and timestamps use them.  A Date is its time value in
    epoch milliseconds. *)

From S2P Require Import Prelude JsNumber.

Local Open Scope string_scope.
Local Open Scope Z_scope.

(** ** Math.round *)

(** The integer nearest to x, ties towards +infinity; -0 for (-0.5, 0). *)
Definition nround (x : number) : number :=
  match x with
  | Num s m k =>
      let z := (2 * sv x + 2 ^ 1074) / (2 * 2 ^ 1074) in
      if z =? 0 then Num s 0 0 else rnd (z <? 0) (Z.abs z) 1 1074
  | _ => x
  end.

(** [Math.floor] *)
Definition nfloor (x : number) : number :=
  if negb (isFinite x) || isNegZero x then x else nint (sv x / 2 ^ 1074).

(** ** Decimal digits *)

Definition digit (d : Z) : Ascii.ascii := Ascii.ascii_of_N (Z.to_N (48 + d)).

(** The last n decimal digits of z, most significant first. *)
Fixpoint digits (n : nat) (z : Z) (acc : string) : string :=
  match n with
  | O => acc
  | S n => digits n (z / 10) (String (digit (z mod 10)) acc)
  end.

Definition showZ (z : Z) : string := pretty z.

(** [padStart(n, "0")] of a non-negative integer below 10^n. *)
Definition pad (n : nat) (z : Z) : string := digits n z "".

Fixpoint zeros (n : nat) : string :=
  match n with O => "" | S n => String (digit 0) (zeros n) end.

(** ** Number::toString *)

(** The magnitude m * 2^(k-1074) as a fraction. *)
Definition fnum (m k : N) : Z := 2 ^ Z.of_N (k - 1074) * Z.of_N m.
Definition fden (k : N) : Z := 2 ^ Z.of_N (1074 - k).

(** The n with 10^(n-1) <= m * 2^(k-1074) < 10^n, from an estimate by the binary
    logarithm corrected by at most one step each way. *)
Definition dec_exp (m k : N) : Z :=
  let e := Z.log2 (Z.of_N m) + Z.of_N k - 1074 in
  let g := e * 30103 / 100000 + 1 in
  let below n := fnum m k * 10 ^ Z.max 0 (- n) <? 10 ^ Z.max 0 n * fden k in
  if below (g - 1) then g - 1 else if below g then g else g + 1.

(** Whether the decimal s * 10^(n-p) reads back as the magnitude [Num _ m k]. *)
Definition reads_back (s n p : Z) (m k : N) : bool :=
  bool_decide (rnd false (s * 10 ^ Z.max 0 (n - p)) (10 ^ Z.max 0 (p - n)) 1074 = Num false m k).

(** The p-digit decimals around the value: the nearer one first. *)
Definition candidates (n p : Z) (m k : N) : Z * Z :=
  let a := fnum m k * 10 ^ Z.max 0 (p - n) in
  let b := 10 ^ Z.max 0 (n - p) * fden k in
  let lo := a / b in
  if 2 * (a mod b) <? b then (lo, lo + 1) else (lo + 1, lo).

(** The shortest digits that read back, searching p = 17 - fuel + 1 upwards; 17
    digits always suffice for binary64. *)
Fixpoint shortest (fuel : nat) (p n : Z) (m k : N) : Z * Z :=
  let '(c1, c2) := candidates n p m k in
  match fuel with
  | O => (c1, p)
  | S fuel =>
      if reads_back c1 n p m k then (c1, p)
      else if reads_back c2 n p m k then (c2, p)
      else shortest fuel (p + 1) n m k
  end.

(** Digits s (p of them) and decimal exponent n, laid out as the specification does. *)
Definition layout (s p n : Z) : string :=
  let ds := pad (Z.to_nat p) s in
  if (p <=? n) && (n <=? 21) then ds +:+ zeros (Z.to_nat (n - p))
  else if (0 <? n) && (n <=? 21) then
    String.substring 0 (Z.to_nat n) ds +:+ "." +:+ String.substring (Z.to_nat n) (Z.to_nat (p - n)) ds
  else if (-6 <? n) && (n <=? 0) then "0." +:+ zeros (Z.to_nat (- n)) +:+ ds
  else
    let e := n - 1 in
    let exp := (if e <? 0 then "-" else "+") +:+ showZ (Z.abs e) in
    if p =? 1 then ds +:+ "e" +:+ exp
    else String.substring 0 1 ds +:+ "." +:+ String.substring 1 (Z.to_nat (p - 1)) ds +:+ "e" +:+ exp.

Definition numToString (x : number) : string :=
  match x with
  | NaN => "NaN"
  | Inf false => "Infinity"
  | Inf true => "-Infinity"
  | Num s m k =>
      if (m =? 0)%N then "0"
      else
        let n0 := dec_exp m k in
        let '(ds, p) := shortest 17 1 n0 m k in
        (* a candidate that rounds up to 10^p has one digit more *)
        let '(ds, p, n) := if ds =? 10 ^ p then (1, 1, n0 + 1) else (ds, p, n0) in
        (if s then "-" else "") +:+ layout ds p n
  end.

(** ** Array.prototype.join *)

Fixpoint join (sep : string) (xs : list string) : string :=
  match xs with
  | [] => ""
  | [x] => x
  | x :: xs => x +:+ sep +:+ join sep xs
  end.

(** ** Date.prototype.toISOString *)

(** Year, month and day of a day count from 1970-01-01 (proleptic Gregorian). *)
Definition civil (days : Z) : Z * Z * Z :=
  let z := days + 719468 in
  let era := z / 146097 in
  let doe := z - era * 146097 in
  let yoe := (doe - doe / 1460 + doe / 36524 - doe / 146096) / 365 in
  let doy := doe - (365 * yoe + yoe / 4 - yoe / 100) in
  let mp := (5 * doy + 2) / 153 in
  let d := doy - (153 * mp + 2) / 5 + 1 in
  let m := if mp <? 10 then mp + 3 else mp - 9 in
  (yoe + era * 400 + (if m <=? 2 then 1 else 0), m, d).

(** The text of a time value that is an integer within the range of Dates. *)
Definition toISOString (ms : Z) : string :=
  let day := ms / 86400000 in
  let t := ms mod 86400000 in
  let '(y, m, d) := civil day in
  (if (0 <=? y) && (y <=? 9999) then pad 4 y
   else (if y <? 0 then "-" else "+") +:+ pad 6 (Z.abs y)) +:+ "-" +:+ pad 2 m +:+ "-" +:+ pad 2 d
  +:+ "T" +:+ pad 2 (t / 3600000) +:+ ":" +:+ pad 2 (t / 60000 mod 60) +:+ ":"
  +:+ pad 2 (t / 1000 mod 60) +:+ "." +:+ pad 3 (t mod 1000) +:+ "Z".

(** ** Case *)

(** [String.prototype.toLowerCase] and [toUpperCase] on ASCII letters, the only ones their
    arguments have where the result is used. *)
Definition lower_ascii (c : Ascii.ascii) : Ascii.ascii :=
  let n := Ascii.N_of_ascii c in
  if (65 <=? n)%N && (n <=? 90)%N then Ascii.ascii_of_N (n + 32) else c.

Definition upper_ascii (c : Ascii.ascii) : Ascii.ascii :=
  let n := Ascii.N_of_ascii c in
  if (97 <=? n)%N && (n <=? 122)%N then Ascii.ascii_of_N (n - 32) else c.

Fixpoint toLowerCase (s : string) : string :=
  match s with
  | EmptyString => EmptyString
  | String c s => String (lower_ascii c) (toLowerCase s)
  end.

Fixpoint toUpperCase (s : string) : string :=
  match s with
  | EmptyString => EmptyString
  | String c s => String (upper_ascii c) (toUpperCase s)
  end.
