(* ===== verification/Served.v ===== *)
(** * Served: the contracts of the decision engine and the planner

    The value unions of packages/core/src/types.ts that more than one part uses, the
    decision record of packages/trading-decision/src/types.ts and the plan record of
    packages/trading-plan/src/types.ts, which the execution core consumes. *)

From S2P Require Import Prelude JsNumber.

Local Open Scope string_scope.

(** ** packages/core/src/types.ts *)

Inductive Timeframe := M1 | M5 | M15 | H1 | H4 | D1.

Inductive SignalDecision := LONG | SHORT | FLAT.

Inductive RiskMode := NORMAL | ELEVATED | RISK_OFF | FROZEN.

Inductive MarketRegime :=
| TRENDING_BULL | TRENDING_BEAR | RANGE_BOUND | HIGH_VOL | LOW_VOL | PANIC | EUPHORIA.

#[export] Instance Timeframe_eq_dec : EqDecision Timeframe.
Proof. solve_decision. Defined.
#[export] Instance SignalDecision_eq_dec : EqDecision SignalDecision.
Proof. solve_decision. Defined.
#[export] Instance RiskMode_eq_dec : EqDecision RiskMode.
Proof. solve_decision. Defined.
#[export] Instance MarketRegime_eq_dec : EqDecision MarketRegime.
Proof. solve_decision. Defined.

Definition showTimeframe (t : Timeframe) : string :=
  match t with M1 => "M1" | M5 => "M5" | M15 => "M15" | H1 => "H1" | H4 => "H4" | D1 => "D1" end.

Definition showDirection (d : SignalDecision) : string :=
  match d with LONG => "LONG" | SHORT => "SHORT" | FLAT => "FLAT" end.

Definition showMode (m : RiskMode) : string :=
  match m with NORMAL => "NORMAL" | ELEVATED => "ELEVATED" | RISK_OFF => "RISK_OFF" | FROZEN => "FROZEN" end.

(** ** packages/trading-decision/src/types.ts *)

Inductive Provenance :=
| Pv_verbatim | Pv_real | Pv_derived | Pv_estimated | Pv_unavailable.

#[export] Instance Provenance_eq_dec : EqDecision Provenance.
Proof. solve_decision. Defined.

Record Measure := {
  me_value : option number;
  me_provenance : Provenance;
  me_basis : string
}.

(** [ExecutionStatus], [RiskStatus], [ControlStatus] and [OverallStatus] of a decision. *)
Inductive DecisionReadiness := XS_READY | XS_WAITING | XS_BLOCKED | XS_UNKNOWN.
Inductive RiskStatus := RK_APPROVED | RK_BLOCKED | RK_NOT_APPLICABLE | RK_UNKNOWN.
Inductive ControlStatus := CT_ALLOWED | CT_BLOCKED | CT_UNKNOWN.
Inductive OverallStatus := OV_ACTIONABLE | OV_WAITING | OV_BLOCKED | OV_NO_TRADE | OV_INCOMPLETE.

#[export] Instance DecisionReadiness_eq_dec : EqDecision DecisionReadiness.
Proof. solve_decision. Defined.
#[export] Instance RiskStatus_eq_dec : EqDecision RiskStatus.
Proof. solve_decision. Defined.
#[export] Instance ControlStatus_eq_dec : EqDecision ControlStatus.
Proof. solve_decision. Defined.
#[export] Instance OverallStatus_eq_dec : EqDecision OverallStatus.
Proof. solve_decision. Defined.

Definition showReadiness (s : DecisionReadiness) : string :=
  match s with XS_READY => "READY" | XS_WAITING => "WAITING" | XS_BLOCKED => "BLOCKED" | XS_UNKNOWN => "UNKNOWN" end.
Definition showRiskStatus (s : RiskStatus) : string :=
  match s with
  | RK_APPROVED => "APPROVED" | RK_BLOCKED => "BLOCKED"
  | RK_NOT_APPLICABLE => "NOT_APPLICABLE" | RK_UNKNOWN => "UNKNOWN"
  end.
Definition showControlStatus (s : ControlStatus) : string :=
  match s with CT_ALLOWED => "ALLOWED" | CT_BLOCKED => "BLOCKED" | CT_UNKNOWN => "UNKNOWN" end.
Definition showOverallStatus (s : OverallStatus) : string :=
  match s with
  | OV_ACTIONABLE => "ACTIONABLE" | OV_WAITING => "WAITING" | OV_BLOCKED => "BLOCKED"
  | OV_NO_TRADE => "NO_TRADE" | OV_INCOMPLETE => "INCOMPLETE"
  end.

Record RiskStatusView := {
  rv_status : RiskStatus;
  rv_reason : string;
  rv_staticOnly : bool
}.

Record Factor := { fa_label : string; fa_detail : string }.

Record Contributions := {
  cn_trend : Measure;
  cn_momentum : Measure;
  cn_volatility : Measure;
  cn_liquidity : Measure
}.

Record ConfidenceBreakdown := {
  cb_trendComponent : option number;
  cb_momentumComponent : option number;
  cb_total : number;
  cb_basis : string
}.

Record Explainability := {
  xp_bullish : list Factor;
  xp_bearish : list Factor;
  xp_neutral : list Factor;
  xp_risk : list Factor;
  xp_contributions : Contributions;
  xp_confidenceBreakdown : ConfidenceBreakdown;
  xp_executionReadiness : string;
  xp_riskApproval : string;
  xp_controlApproval : string
}.

Record RegimeView := {
  rg_regime : option MarketRegime;
  rg_provenance : Provenance;
  rg_basis : string
}.

Record HoldingTimeView := {
  ht_seconds : option number;
  ht_bars : option number;
  ht_provenance : Provenance;
  ht_basis : string
}.

Record TradingDecision := {
  td_signalId : string;
  td_symbol : string;
  td_timeframe : Timeframe;
  td_direction : SignalDecision;
  td_bias : SignalDecision;
  td_confidence : number;
  td_createdAt : string;
  td_signalAgeSeconds : number;
  td_featureAgeSeconds : option number;
  td_currentPrice : Measure;
  td_entryPrice : Measure;
  td_stopLoss : Measure;
  td_takeProfit1 : Measure;
  td_takeProfit2 : Measure;
  td_takeProfit3 : Measure;
  td_riskRewardRatio : Measure;
  td_stopDistancePct : Measure;
  td_positionSize : Measure;
  td_positionNotional : Measure;
  td_capitalRiskPercent : Measure;
  td_assumedEquity : number;
  td_expectedHoldingTime : HoldingTimeView;
  td_trendStrength : Measure;
  td_momentumScore : Measure;
  td_volatilityScore : Measure;
  td_liquidityScore : Measure;
  td_marketRegime : RegimeView;
  td_executionStatus : DecisionReadiness;
  td_riskStatus : RiskStatusView;
  td_controlStatus : ControlStatus;
  td_overallStatus : OverallStatus;
  td_explain : Explainability;
  td_featureHash : string;
  td_datasetHash : string;
  td_strategyVersionId : string;
  td_provenanceNotes : list string
}.

(** ** packages/trading-plan/src/types.ts *)

Inductive Action :=
| STRONG_BUY | BUY_ACTION | WATCH | WAIT | NO_TRADE | SELL_ACTION | STRONG_SELL.

#[export] Instance Action_eq_dec : EqDecision Action.
Proof. solve_decision. Defined.

Record DecisionSummary := {
  ds_action : Action;
  ds_headline : string;
  ds_canTrade : bool;
  ds_shouldTrade : bool;
  ds_why : list string;
  ds_direction : SignalDecision;
  ds_confidence : number;
  ds_basis : string
}.

Inductive CheckStatus := CK_PASS | CK_FAIL | CK_UNKNOWN.

#[export] Instance CheckStatus_eq_dec : EqDecision CheckStatus.
Proof. solve_decision. Defined.

Record ChecklistItem := {
  ci_id : string;
  ci_label : string;
  ci_status : CheckStatus;
  ci_provenance : Provenance;
  ci_detail : string
}.

Record ExecutionChecklist := {
  ec_items : list ChecklistItem;
  ec_passed : nat;
  ec_failed : nat;
  ec_unknown : nat;
  ec_allPass : bool;
  ec_note : string
}.

Inductive RiskTag := TAG_REAL | TAG_DERIVED | TAG_ESTIMATED | TAG_UNAVAILABLE.

Record RiskField := {
  rf_key : string;
  rf_label : string;
  rf_value : option number;
  rf_unit : string;
  rf_tag : RiskTag;
  rf_basis : string
}.

Record RiskCategory := { rc_label : string; rc_tag : RiskTag; rc_basis : string }.

Record RiskChecklist := {
  rl_maximumLoss : RiskField;
  rl_capitalAtRisk : RiskField;
  rl_rMultiple : RiskField;
  rl_distancePct : RiskField;
  rl_atrPct : RiskField;
  rl_rewardPct : RiskField;
  rl_expectedHoldSeconds : RiskField;
  rl_category : RiskCategory;
  rl_assumedEquity : number;
  rl_note : string
}.

Inductive TriggerState := ARMED | TRIGGERED | NOT_APPLICABLE.

#[export] Instance TriggerState_eq_dec : EqDecision TriggerState.
Proof. solve_decision. Defined.

Record InvalidationTrigger := {
  it_id : string;
  it_label : string;
  it_description : string;
  it_state : TriggerState;
  it_provenance : Provenance;
  it_basis : string
}.

Record Invalidation := {
  iv_triggers : list InvalidationTrigger;
  iv_armed : nat;
  iv_triggered : nat;
  iv_summary : string
}.

Inductive ReadinessBand := RB_READY | RB_NEAR | RB_FORMING | RB_NOT_READY.

#[export] Instance ReadinessBand_eq_dec : EqDecision ReadinessBand.
Proof. solve_decision. Defined.

Record ReadinessComponent := {
  rp_key : string;
  rp_label : string;
  rp_weight : number;
  rp_earned : number;
  rp_basis : string
}.

Record TradeReadiness := {
  tr_score : number;
  tr_band : ReadinessBand;
  tr_components : list ReadinessComponent;
  tr_basis : string
}.

Record TradePlan := {
  tp_signalId : string;
  tp_symbol : string;
  tp_timeframe : Timeframe;
  tp_direction : SignalDecision;
  tp_confidence : number;
  tp_summary : DecisionSummary;
  tp_execution : ExecutionChecklist;
  tp_risk : RiskChecklist;
  tp_invalidation : Invalidation;
  tp_readiness : TradeReadiness;
  tp_generatedNote : string
}.
