(* ===== verification/ExecTypes.v ===== *)
(** * ExecTypes: contracts and helpers of the execution core

    packages/execution-core/src/types.ts (value unions, records, commands,
    results) and util.ts (fail-closed numbers, deterministic rounding,
    deterministic ids).  [number | null] is [option number]; sequence numbers and
    list positions are [nat] and print in decimal; the injected clock is a Number
    that is only copied. *)

From S2P Require Import Prelude JsNumber JsNumberFacts JsText Served.

Local Open Scope string_scope.

(** ** Value unions *)

Inductive ExecutionProvenance := VERBATIM | DERIVED | ESTIMATED | UNAVAILABLE.

Inductive ExecutionMode := SIMULATION | PAPER | LIVE | BACKTEST.

Inductive ExecutionVenue := UNSET | SIMULATED | DERIBIT | BINANCE | BYBIT.

Inductive ExecutionSource :=
| DECISION_ENGINE | TRADE_PLAN | EXECUTION_CORE | REDUCER
| SRC_KILL_SWITCH | RUNTIME | SYSTEM.

Inductive ExecutionStatus :=
| ES_NOT_CREATED | ES_PLANNED | ES_READY | ES_SUBMITTED | ES_ACKNOWLEDGED
| ES_PARTIALLY_FILLED | ES_FILLED | ES_OPEN | ES_REDUCING | ES_CLOSED
| ES_REJECTED | ES_EXPIRED | ES_CANCELLED | ES_FAILED.

Inductive OrderStatus :=
| OS_NOT_CREATED | OS_PLANNED | OS_READY | OS_SUBMITTED | OS_ACKNOWLEDGED
| OS_PARTIALLY_FILLED | OS_FILLED | OS_CANCELLED | OS_REJECTED | OS_EXPIRED
| OS_FAILED.

Inductive PositionStatus := PS_NONE | PS_OPENING | PS_OPEN | PS_REDUCING | PS_CLOSED.

Inductive FillStatus := FS_PARTIAL | FS_FULL | FS_VOID.

Inductive ExecutionFailureReason :=
| NO_DECISION | NO_PLAN | BLOCKED | MISSING_ENTRY | MISSING_STOP | MISSING_TARGET
| MISSING_READINESS | NOT_READY | KILL_SWITCH | RUNTIME_UNHEALTHY
| ILLEGAL_TRANSITION | VALIDATION_FAILED | FR_EXPIRED | FR_CANCELLED
| FR_REJECTED | FR_FAILED | BROKER_UNAVAILABLE | UNKNOWN.

Inductive OrderSide := BUY | SELL.

Inductive OrderRole := ENTRY | STOP | TARGET.

Inductive OrderType := OT_MARKET | OT_LIMIT | OT_STOP.

Inductive ExecutionEntity :=
| EN_EXECUTION | EN_INTENT | EN_PLAN | EN_ORDER | EN_FILL | EN_POSITION.

Inductive ExecutionEventType :=
| EV_PLANNED | EV_ARMED | EV_SUBMITTED | EV_ACKNOWLEDGED | EV_PARTIALLY_FILLED
| EV_FILLED | EV_OPENED | EV_REDUCED | EV_CLOSED | EV_CANCELLED | EV_REJECTED
| EV_EXPIRED | EV_FAILED | EV_KILLED | EV_REJECTED_TRANSITION.

#[export] Instance ExecutionProvenance_eq_dec : EqDecision ExecutionProvenance.
Proof. solve_decision. Defined.
#[export] Instance ExecutionMode_eq_dec : EqDecision ExecutionMode.
Proof. solve_decision. Defined.
#[export] Instance ExecutionVenue_eq_dec : EqDecision ExecutionVenue.
Proof. solve_decision. Defined.
#[export] Instance ExecutionSource_eq_dec : EqDecision ExecutionSource.
Proof. solve_decision. Defined.
#[export] Instance ExecutionStatus_eq_dec : EqDecision ExecutionStatus.
Proof. solve_decision. Defined.
#[export] Instance OrderStatus_eq_dec : EqDecision OrderStatus.
Proof. solve_decision. Defined.
#[export] Instance PositionStatus_eq_dec : EqDecision PositionStatus.
Proof. solve_decision. Defined.
#[export] Instance FillStatus_eq_dec : EqDecision FillStatus.
Proof. solve_decision. Defined.
#[export] Instance ExecutionFailureReason_eq_dec : EqDecision ExecutionFailureReason.
Proof. solve_decision. Defined.
#[export] Instance OrderSide_eq_dec : EqDecision OrderSide.
Proof. solve_decision. Defined.
#[export] Instance OrderRole_eq_dec : EqDecision OrderRole.
Proof. solve_decision. Defined.
#[export] Instance OrderType_eq_dec : EqDecision OrderType.
Proof. solve_decision. Defined.
#[export] Instance ExecutionEntity_eq_dec : EqDecision ExecutionEntity.
Proof. solve_decision. Defined.
#[export] Instance ExecutionEventType_eq_dec : EqDecision ExecutionEventType.
Proof. solve_decision. Defined.

(** The strings the unions are at run time, where the source interpolates them. *)

Definition showStatus (s : ExecutionStatus) : string :=
  match s with
  | ES_NOT_CREATED => "NOT_CREATED" | ES_PLANNED => "PLANNED" | ES_READY => "READY"
  | ES_SUBMITTED => "SUBMITTED" | ES_ACKNOWLEDGED => "ACKNOWLEDGED"
  | ES_PARTIALLY_FILLED => "PARTIALLY_FILLED" | ES_FILLED => "FILLED"
  | ES_OPEN => "OPEN" | ES_REDUCING => "REDUCING" | ES_CLOSED => "CLOSED"
  | ES_REJECTED => "REJECTED" | ES_EXPIRED => "EXPIRED"
  | ES_CANCELLED => "CANCELLED" | ES_FAILED => "FAILED"
  end.

Definition showOrderStatus (s : OrderStatus) : string :=
  match s with
  | OS_NOT_CREATED => "NOT_CREATED" | OS_PLANNED => "PLANNED" | OS_READY => "READY"
  | OS_SUBMITTED => "SUBMITTED" | OS_ACKNOWLEDGED => "ACKNOWLEDGED"
  | OS_PARTIALLY_FILLED => "PARTIALLY_FILLED" | OS_FILLED => "FILLED"
  | OS_CANCELLED => "CANCELLED" | OS_REJECTED => "REJECTED"
  | OS_EXPIRED => "EXPIRED" | OS_FAILED => "FAILED"
  end.

Definition showRole (r : OrderRole) : string :=
  match r with ENTRY => "ENTRY" | STOP => "STOP" | TARGET => "TARGET" end.

Definition showReason (r : ExecutionFailureReason) : string :=
  match r with
  | NO_DECISION => "NO_DECISION" | NO_PLAN => "NO_PLAN" | BLOCKED => "BLOCKED"
  | MISSING_ENTRY => "MISSING_ENTRY" | MISSING_STOP => "MISSING_STOP"
  | MISSING_TARGET => "MISSING_TARGET" | MISSING_READINESS => "MISSING_READINESS"
  | NOT_READY => "NOT_READY" | KILL_SWITCH => "KILL_SWITCH"
  | RUNTIME_UNHEALTHY => "RUNTIME_UNHEALTHY"
  | ILLEGAL_TRANSITION => "ILLEGAL_TRANSITION"
  | VALIDATION_FAILED => "VALIDATION_FAILED" | FR_EXPIRED => "EXPIRED"
  | FR_CANCELLED => "CANCELLED" | FR_REJECTED => "REJECTED" | FR_FAILED => "FAILED"
  | BROKER_UNAVAILABLE => "BROKER_UNAVAILABLE" | UNKNOWN => "UNKNOWN"
  end.

(** ** Records *)

Record ExecutionIntent := {
  in_intentId : string;
  in_signalId : string;
  in_symbol : string;
  in_timeframe : Timeframe;
  in_direction : SignalDecision;
  in_confidence : number;
  in_entry : option number;
  in_stop : option number;
  in_targets : list number;
  in_riskReward : option number;
  in_stopDistancePct : option number;
  in_positionSize : option number;
  in_positionNotional : option number;
  in_capitalRiskPercent : option number;
  in_assumedEquity : number;
  in_action : Action;
  in_canTrade : bool;
  in_shouldTrade : bool;
  in_readinessScore : option number;
  in_readinessBand : option ReadinessBand;
  in_featureHash : string;
  in_datasetHash : string;
  in_strategyVersionId : string;
  in_mode : ExecutionMode;
  in_venue : ExecutionVenue;
  in_provenance : gmap string ExecutionProvenance;
  in_notes : list string;
  in_createdAt : number
}.

Record ExecutionOrder := {
  o_orderId : string;
  o_planId : string;
  o_intentId : string;
  o_symbol : string;
  o_side : OrderSide;
  o_role : OrderRole;
  o_type : OrderType;
  o_price : option number;
  o_quantity : option number;
  o_status : OrderStatus;
  o_filledQuantity : number;
  o_avgFillPrice : option number;
  o_provenance : ExecutionProvenance;
  o_reason : string;
  o_createdAt : number;
  o_updatedAt : number
}.

Record ExecutionFill := {
  f_fillId : string;
  f_orderId : string;
  f_intentId : string;
  f_symbol : string;
  f_side : OrderSide;
  f_price : number;
  f_quantity : number;
  f_status : FillStatus;
  f_cumulativeQuantity : number;
  f_provenance : ExecutionProvenance;
  f_ts : number
}.

Record ExecutionPlan := {
  pl_planId : string;
  pl_intentId : string;
  pl_signalId : string;
  pl_symbol : string;
  pl_direction : SignalDecision;
  pl_mode : ExecutionMode;
  pl_venue : ExecutionVenue;
  pl_orders : list ExecutionOrder;
  pl_totalQuantity : option number;
  pl_submittable : bool;
  pl_blockedReason : option ExecutionFailureReason;
  pl_provenance : ExecutionProvenance;
  pl_notes : list string;
  pl_createdAt : number
}.

Record ExecutionPosition := {
  po_positionId : string;
  po_intentId : string;
  po_symbol : string;
  po_direction : SignalDecision;
  po_status : PositionStatus;
  po_quantity : number;
  po_entryQuantity : number;
  po_closedQuantity : number;
  po_avgEntryPrice : option number;
  po_stop : option number;
  po_targets : list number;
  po_openedAt : option number;
  po_closedAt : option number;
  po_provenance : ExecutionProvenance
}.

Record ExecutionEvent := {
  ev_eventId : string;
  ev_seq : nat;
  ev_intentId : string;
  ev_entity : ExecutionEntity;
  ev_entityId : string;
  ev_type : ExecutionEventType;
  ev_previousStatus : option string;
  ev_newStatus : option string;
  ev_source : ExecutionSource;
  ev_provenance : ExecutionProvenance;
  ev_reason : string;
  ev_ts : number
}.

Record ExecutionAudit := {
  au_intentId : string;
  au_events : list ExecutionEvent;
  au_count : nat
}.

Record ExecutionLifecycle := {
  lc_current : ExecutionStatus;
  lc_history : list ExecutionStatus;
  lc_terminal : bool
}.

Record ExecutionFailure := {
  fl_reason : ExecutionFailureReason;
  fl_message : string;
  fl_at : number;
  fl_fatal : bool
}.

Record ExecutionState := {
  st_intentId : string;
  st_signalId : string;
  st_symbol : string;
  st_status : ExecutionStatus;
  st_mode : ExecutionMode;
  st_venue : ExecutionVenue;
  st_intent : ExecutionIntent;
  st_plan : option ExecutionPlan;
  st_orders : list ExecutionOrder;
  st_fills : list ExecutionFill;
  st_position : option ExecutionPosition;
  st_lifecycle : ExecutionLifecycle;
  st_audit : ExecutionAudit;
  st_failure : option ExecutionFailure;
  st_seq : nat;
  st_clock : number;
  st_createdAt : number;
  st_updatedAt : number
}.

(** ** Commands and results *)

Inductive ExecutionCommand :=
| PLAN (at_ : number)
| ARM (at_ : number)
| SUBMIT (at_ : number)
| ACKNOWLEDGE (at_ : number)
| FILL (at_ : number) (orderId : string) (price quantity : number)
| OPEN (at_ : number)
| REDUCE (at_ : number) (quantity price : number)
| CLOSE (at_ : number) (price : option number)
| CANCEL (at_ : number) (reason : option string)
| REJECT (at_ : number) (reason : option string)
| EXPIRE (at_ : number)
| FAIL (at_ : number) (reason : option string)
| KILL (at_ : number)
| CMD_RUNTIME_UNHEALTHY (at_ : number).

(** [command.at] *)
Definition cmd_at (c : ExecutionCommand) : number :=
  match c with
  | PLAN a | ARM a | SUBMIT a | ACKNOWLEDGE a | FILL a _ _ _ | OPEN a
  | REDUCE a _ _ | CLOSE a _ | CANCEL a _ | REJECT a _ | EXPIRE a | FAIL a _
  | KILL a | CMD_RUNTIME_UNHEALTHY a => a
  end.

(** [command.type === "KILL"] *)
Definition isKill (c : ExecutionCommand) : bool :=
  match c with KILL _ => true | _ => false end.

Record ExecutionInput := {
  ei_now : number;
  ei_decision : option TradingDecision;
  ei_plan : option TradePlan;
  ei_killEngaged : bool;
  ei_runtimeHealthy : bool;
  ei_mode : option ExecutionMode;
  ei_venue : option ExecutionVenue
}.

Record ExecutionResult := {
  er_ok : bool;
  er_state : ExecutionState;
  er_event : option ExecutionEvent;
  er_failure : option ExecutionFailure
}.

(** ** util.ts: fail-closed numbers *)

Definition num (x : option number) : option number :=
  match x with
  | Some v => if isFinite v then Some v else None
  | None => None
  end.

Definition mv (m : option Measure) : option number :=
  match m with
  | None => None
  | Some m => num (me_value m)
  end.

Definition clamp (x lo hi : number) : number :=
  if negb (isFinite x) then lo
  else if nlt x lo then lo else if ngt x hi then hi else x.

Definition clamp01 (x : number) : number := clamp x (nint 0) (nint 1).

(** [r === 0 ? 0 : r] after [Number(x.toFixed(dp))]; non-finite input gives 0. *)
Definition round (x : number) (dp : Z) : number :=
  if negb (isFinite x) then nint 0
  else
    let r := toFixedNumber x dp in
    if neq r (nint 0) then nint 0 else r.

Definition sumFinite (xs : list (option number)) : number :=
  foldl (fun s x =>
    match x with
    | Some v => if isFinite v then nadd s v else s
    | None => s
    end) (nint 0) xs.

Definition toExecProvenance (p : option Provenance) : ExecutionProvenance :=
  match p with
  | Some Pv_verbatim | Some Pv_real => VERBATIM
  | Some Pv_derived => DERIVED
  | Some Pv_estimated => ESTIMATED
  | Some Pv_unavailable | None => UNAVAILABLE
  end.

Definition levelProvenance (m : option Measure) : ExecutionProvenance :=
  match mv m with None => UNAVAILABLE | Some _ => VERBATIM end.

(** ** util.ts: deterministic ids *)

Definition intentId (signalId : string) : string := "exec:" +:+ signalId.

Definition planId (intentId : string) : string := intentId +:+ ":plan".

Definition orderId (planId role : string) (index : nat) : string :=
  planId +:+ ":ord:" +:+ toLowerCase role +:+ ":" +:+ pretty index.

Definition fillId (orderId : string) (fillSeq : nat) : string :=
  orderId +:+ ":fill:" +:+ pretty fillSeq.

Definition positionId (intentId : string) : string := intentId +:+ ":pos".

Definition eventId (intentId : string) (seq : nat) : string :=
  intentId +:+ ":evt:" +:+ pretty seq.

(** ** Lemmas *)

Lemma showStatus_inj s t : showStatus s = showStatus t -> s = t.
Proof. by destruct s, t. Qed.

(** *** Rounding *)

Section round.
Local Open Scope Z_scope.

Lemma sv_nint0 : sv (nint 0) = 0.
Proof. done. Qed.

Lemma round_finite x dp : 0 <= dp -> isFinite (round x dp) = true.
Proof.
  intros Hd. unfold round. destruct (isFinite x) eqn:Hx; [|done]. simpl.
  case_match; [done|]. by apply toFixedNumber_finite.
Qed.

Lemma round_wf x dp : 0 <= dp -> wf_number x -> wf_number (round x dp).
Proof.
  intros Hd Hw. unfold round. destruct (isFinite x); [|done]. simpl.
  case_match; [done|]. by apply toFixedNumber_wf.
Qed.

Lemma round_sv x dp : 0 <= dp -> isFinite x = true -> sv (round x dp) = RN (sv x) dp.
Proof.
  intros Hd Hx. unfold round. rewrite Hx. simpl.
  pose proof (toFixedNumber_finite x dp Hd Hx) as Hf.
  assert (sv (toFixedNumber x dp) = RN (sv x) dp) as E.
  { destruct x as [| |s m k]; try done. rewrite toFixedNumber_sv by done.
    pose proof (mag_nonneg m k). destruct s; simpl; [|by rewrite RN_nonneg].
    by rewrite RN_opp, RN_nonneg. }
  rewrite neq_sv by done. rewrite sv_nint0.
  destruct (Z.eqb_spec (sv (toFixedNumber x dp)) 0); [|done].
  rewrite sv_nint0. congruence.
Qed.

Lemma round_nonfinite x dp : isFinite x = false -> round x dp = nint 0.
Proof. intros H. unfold round. by rewrite H. Qed.

Lemma round_nonneg x dp : 0 <= dp -> 0 <= sv x -> 0 <= sv (round x dp).
Proof.
  intros Hd Hp. destruct (isFinite x) eqn:Hx.
  - rewrite round_sv, RN_nonneg by done. by apply RF_nonneg.
  - by rewrite round_nonfinite.
Qed.

(** Never a negative zero: a rounded Number is its value. *)
Lemma round_sv_0 x dp : 0 <= dp -> sv (round x dp) = 0 -> round x dp = nint 0.
Proof.
  intros Hd. unfold round. destruct (isFinite x) eqn:Hx; [|done]. simpl.
  destruct (neq _ _) eqn:E; [done|].
  rewrite neq_sv in E by (by try apply toFixedNumber_finite).
  intros H. rewrite H in E. done.
Qed.

Lemma round_idem x dp : 0 <= dp <= 15 -> sv (round (round x dp) dp) = sv (round x dp).
Proof.
  intros Hd. rewrite round_sv by (lia || apply round_finite; lia).
  destruct (isFinite x) eqn:Hx.
  - rewrite round_sv by (lia || done). by apply RN_idem.
  - rewrite round_nonfinite by done. rewrite sv_nint0, RN_nonneg, RF_0; lia.
Qed.

(** A value the rounding keeps. *)
Definition on_grid (x : number) (dp : Z) : Prop := sv (round x dp) = sv x.

Lemma round_on_grid x dp : 0 <= dp <= 15 -> on_grid (round x dp) dp.
Proof. apply round_idem. Qed.

Lemma round_le_grid x y dp :
  0 <= dp -> isFinite x = true -> isFinite y = true -> on_grid y dp ->
  sv x <= sv y -> sv (round x dp) <= sv y.
Proof.
  intros Hd Hx Hy G H. rewrite <- G, !round_sv by done. by apply RN_mono.
Qed.

Lemma round_ge_grid x y dp :
  0 <= dp -> isFinite x = true -> isFinite y = true -> on_grid y dp ->
  sv y <= sv x -> sv y <= sv (round x dp).
Proof.
  intros Hd Hx Hy G H. rewrite <- G, !round_sv by done. by apply RN_mono.
Qed.
End round.

#[export] Hint Resolve round_finite round_wf round_nonneg : jsnum.

Lemma num_finite x v : num x = Some v -> isFinite v = true.
Proof. unfold num. destruct x; [|done]. case_match; [|done]. by intros [= <-]. Qed.

Lemma mv_finite m v : mv m = Some v -> isFinite v = true.
Proof. unfold mv. destruct m; [apply num_finite|done]. Qed.

(** *** Ids *)

Lemma toLowerCase_length s : String.length (toLowerCase s) = String.length s.
Proof. induction s; simpl; congruence. Qed.

Lemma eventId_inj i n m : eventId i n = eventId i m -> n = m.
Proof.
  unfold eventId. intros H%string_app_cancel%string_app_cancel. by apply (inj pretty).
Qed.

Lemma fillId_seq_inj o n m : fillId o n = fillId o m -> n = m.
Proof.
  unfold fillId. intros H%string_app_cancel%string_app_cancel. by apply (inj pretty).
Qed.

Lemma orderId_index_inj p r n m : orderId p r n = orderId p r m -> n = m.
Proof.
  unfold orderId.
  intros H%string_app_cancel%string_app_cancel%string_app_cancel%string_app_cancel.
  by apply (inj pretty).
Qed.

(** Fill ids of two orders of one plan are equal only for the same order and
    the same fill number. *)
Lemma fillId_orderId_inj p r r' i i' n n' :
  nocolon (toLowerCase r) = true -> nocolon (toLowerCase r') = true ->
  fillId (orderId p r i) n = fillId (orderId p r' i') n' ->
  orderId p r i = orderId p r' i' /\ n = n'.
Proof.
  intros Hr Hr'. unfold fillId, orderId. rewrite !string_app_assoc.
  intros H%string_app_cancel%string_app_cancel.
  apply field_inj in H as [E H]; [|done..].
  change (":fill:" +:+ pretty n) with (":" +:+ ("fill:" +:+ pretty n)) in H.
  change (":fill:" +:+ pretty n') with (":" +:+ ("fill:" +:+ pretty n')) in H.
  apply field_inj in H as [E2 H]; [|apply pretty_nat_nocolon..].
  apply string_app_cancel in H. rewrite E, E2. split; [done|]. by apply (inj pretty).
Qed.
