(* ===== verification/ExecOrders.v ===== *)
(** * ExecOrders: order and fill lifecycle of the execution core

    packages/execution-core/src/orders.ts and fills.ts: the per-order transition
    table, order construction, the fill arithmetic and the fill records, with the
    invariant [order_ok] that every operation keeps. *)

From S2P Require Import Prelude JsNumber JsNumberFacts Served ExecTypes.

Local Open Scope string_scope.

(** ** orders.ts *)

Definition ORDER_TRANSITIONS (from : OrderStatus) : list OrderStatus :=
  match from with
  | OS_NOT_CREATED => [OS_PLANNED; OS_REJECTED; OS_FAILED]
  | OS_PLANNED => [OS_READY; OS_CANCELLED; OS_REJECTED; OS_EXPIRED; OS_FAILED]
  | OS_READY => [OS_SUBMITTED; OS_CANCELLED; OS_REJECTED; OS_EXPIRED; OS_FAILED]
  | OS_SUBMITTED => [OS_ACKNOWLEDGED; OS_REJECTED; OS_CANCELLED; OS_EXPIRED; OS_FAILED]
  | OS_ACKNOWLEDGED =>
      [OS_PARTIALLY_FILLED; OS_FILLED; OS_CANCELLED; OS_REJECTED; OS_EXPIRED; OS_FAILED]
  | OS_PARTIALLY_FILLED => [OS_PARTIALLY_FILLED; OS_FILLED; OS_CANCELLED; OS_FAILED]
  | OS_FILLED => []
  | OS_CANCELLED => []
  | OS_REJECTED => []
  | OS_EXPIRED => []
  | OS_FAILED => []
  end.

Definition canTransitionOrder (from to : OrderStatus) : bool :=
  bool_decide (to ∈ ORDER_TRANSITIONS from).

Definition sideForRole (direction : SignalDecision) (role : OrderRole) : OrderSide :=
  let long := bool_decide (direction = LONG) in
  if bool_decide (role = ENTRY) then (if long then BUY else SELL)
  else (if long then SELL else BUY).

Definition makeOrder (orderId planId intentId symbol : string)
    (direction : SignalDecision) (role : OrderRole) (type : OrderType)
    (price quantity : option number) (now : number) : ExecutionOrder :=
  {| o_orderId := orderId;
     o_planId := planId;
     o_intentId := intentId;
     o_symbol := symbol;
     o_side := sideForRole direction role;
     o_role := role;
     o_type := type;
     o_price := price;
     o_quantity := quantity;
     o_status := OS_PLANNED;
     o_filledQuantity := nint 0;
     o_avgFillPrice := None;
     o_provenance := match price with None => UNAVAILABLE | Some _ => VERBATIM end;
     o_reason := showRole role +:+ " order planned";
     o_createdAt := now;
     o_updatedAt := now |}.

(** [{ ...order, status, filledQuantity, avgFillPrice, updatedAt, reason }] *)
Definition order_update (o : ExecutionOrder) (status : OrderStatus) (filled : number)
    (avg : option number) (at_ : number) (reason : string) : ExecutionOrder :=
  {| o_orderId := o_orderId o;
     o_planId := o_planId o;
     o_intentId := o_intentId o;
     o_symbol := o_symbol o;
     o_side := o_side o;
     o_role := o_role o;
     o_type := o_type o;
     o_price := o_price o;
     o_quantity := o_quantity o;
     o_status := status;
     o_filledQuantity := filled;
     o_avgFillPrice := avg;
     o_provenance := o_provenance o;
     o_reason := reason;
     o_createdAt := o_createdAt o;
     o_updatedAt := at_ |}.

Definition transitionOrder (order : ExecutionOrder) (to : OrderStatus) (at_ : number)
    (reason : option string) : ExecutionOrder :=
  if negb (canTransitionOrder (o_status order) to) then order
  else order_update order to (o_filledQuantity order) (o_avgFillPrice order) at_
         (default ("→ " +:+ showOrderStatus to) reason).

Definition applyFillToOrder (order : ExecutionOrder) (price quantity at_ : number) :
    ExecutionOrder :=
  let target := o_quantity order in
  let priorQty := o_filledQuantity order in
  let addQty := nmax (nint 0) quantity in
  let newFilled :=
    match target with
    | None => nadd priorQty addQty
    | Some t => nmin t (nadd priorQty addQty)
    end in
  let actuallyAdded := nsub newFilled priorQty in
  let priorNotional := nmul (default (nint 0) (o_avgFillPrice order)) priorQty in
  let avg :=
    if ngt newFilled (nint 0)
    then Some (round (ndiv (nadd priorNotional (nmul price actuallyAdded)) newFilled) 8)
    else None in
  let complete := match target with None => false | Some t => nge newFilled t end in
  let nextStatus := if complete then OS_FILLED else OS_PARTIALLY_FILLED in
  order_update order
    (if canTransitionOrder (o_status order) nextStatus then nextStatus else o_status order)
    (round newFilled 8) avg at_
    (if complete then "order filled" else "order partially filled").

(** ** fills.ts *)

Definition makeFill (order : ExecutionOrder) (fillSeq : nat)
    (price quantity cumulativeQuantity at_ : number) : ExecutionFill :=
  let qty := nmax (nint 0) quantity in
  let status :=
    if nle qty (nint 0) then FS_VOID
    else match o_quantity order with
         | Some target => if nge cumulativeQuantity target then FS_FULL else FS_PARTIAL
         | None => FS_PARTIAL
         end in
  {| f_fillId := fillId (o_orderId order) fillSeq;
     f_orderId := o_orderId order;
     f_intentId := o_intentId order;
     f_symbol := o_symbol order;
     f_side := o_side order;
     f_price := round price 8;
     f_quantity := round qty 8;
     f_status := status;
     f_cumulativeQuantity := round cumulativeQuantity 8;
     f_provenance := DERIVED;
     f_ts := at_ |}.

Definition nextFillSeq (fills : list ExecutionFill) (orderId : string) : nat :=
  foldl (fun n f => if bool_decide (f_orderId f = orderId) then S n else n) 0 fills.

(** ** The order invariants *)

Section order_ok.
Local Open Scope Z_scope.

(** What holds of every order: canonical finite numbers, filled on the grid. *)
Record order_ok (o : ExecutionOrder) : Prop := {
  ok_filled_wf : wf_number (o_filledQuantity o);
  ok_filled_finite : isFinite (o_filledQuantity o) = true;
  ok_filled_grid : on_grid (o_filledQuantity o) 8;
  ok_quantity : forall q, o_quantity o = Some q -> wf_number q /\ isFinite q = true;
  ok_avg : forall a, o_avgFillPrice o = Some a -> isFinite a = true
}.

(** An order of non-negative size is filled between 0 and its (rounded) quantity,
    and exactly to it when FILLED. *)
Record order_bounded (o : ExecutionOrder) (q : number) : Prop := {
  ob_quantity : o_quantity o = Some q;
  ob_nonneg : 0 <= sv q;
  ob_filled : 0 <= sv (o_filledQuantity o) <= sv (round q 8);
  ob_full : o_status o = OS_FILLED -> sv (o_filledQuantity o) = sv (round q 8)
}.
End order_ok.

(** ** Lemmas *)

(** Everything but the progress of an order. *)
Definition same_order (o o' : ExecutionOrder) : Prop :=
  o_orderId o' = o_orderId o /\ o_role o' = o_role o /\ o_side o' = o_side o /\
  o_type o' = o_type o /\ o_price o' = o_price o /\ o_quantity o' = o_quantity o /\
  o_intentId o' = o_intentId o /\ o_symbol o' = o_symbol o /\ o_planId o' = o_planId o.

#[export] Instance same_order_preorder : PreOrder same_order.
Proof. split; [done|]. intros o1 o2 o3. unfold same_order. intros; destruct_and!; split_and!; congruence. Qed.

Lemma order_update_same o s f a t r : same_order o (order_update o s f a t r).
Proof. done. Qed.

Lemma transitionOrder_same o to at_ r : same_order o (transitionOrder o to at_ r).
Proof. unfold transitionOrder. by case_match. Qed.

Lemma applyFillToOrder_same o p q at_ : same_order o (applyFillToOrder o p q at_).
Proof. done. Qed.

Lemma transitionOrder_illegal o to at_ r :
  canTransitionOrder (o_status o) to = false -> transitionOrder o to at_ r = o.
Proof. intros H. unfold transitionOrder. by rewrite H. Qed.

Lemma transitionOrder_status o to at_ r :
  o_status (transitionOrder o to at_ r)
  = if canTransitionOrder (o_status o) to then to else o_status o.
Proof. unfold transitionOrder. by destruct (canTransitionOrder _ _). Qed.

(** Only a fill can make an order FILLED. *)
Lemma transitionOrder_filled o to at_ r :
  to <> OS_FILLED ->
  o_status (transitionOrder o to at_ r) = OS_FILLED -> o_status o = OS_FILLED.
Proof. rewrite transitionOrder_status. by case_match. Qed.

Lemma transitionOrder_progress o to at_ r :
  o_filledQuantity (transitionOrder o to at_ r) = o_filledQuantity o /\
  o_avgFillPrice (transitionOrder o to at_ r) = o_avgFillPrice o.
Proof. unfold transitionOrder. by case_match. Qed.

Lemma transitionOrder_ok o to at_ r : order_ok o -> order_ok (transitionOrder o to at_ r).
Proof. intros []. unfold transitionOrder. by case_match. Qed.

Lemma transitionOrder_bounded o q to at_ r :
  to <> OS_FILLED -> order_bounded o q -> order_bounded (transitionOrder o to at_ r) q.
Proof.
  intros Hto [? ? ? Hf].
  destruct (transitionOrder_same o to at_ r) as (_ & _ & _ & _ & _ & Eq & _).
  destruct (transitionOrder_progress o to at_ r) as [Ef _].
  split; rewrite ?Eq, ?Ef; [done..|].
  intros H. apply Hf. by eapply transitionOrder_filled.
Qed.

Lemma makeOrder_ok oid pid iid sym d r t p q now :
  (forall v, q = Some v -> wf_number v /\ isFinite v = true) ->
  order_ok (makeOrder oid pid iid sym d r t p q now).
Proof. by split. Qed.

Lemma makeOrder_bounded oid pid iid sym d r t p q now :
  (0 <= sv q)%Z -> order_bounded (makeOrder oid pid iid sym d r t p (Some q) now) q.
Proof. intros Hq. split; try done. split; [done|]. by apply round_nonneg. Qed.

(** *** The fill arithmetic *)

Section fill.
Local Open Scope Z_scope.

Lemma nadd_zero x : isFinite x = true -> wf_number x -> isFinite (nadd x (nint 0)) = true.
Proof.
  intros Hf Hw. apply (nadd_finite x (nint 0) x); try done.
  by rewrite sv_nint0, Z.add_0_r.
Qed.

(** The increment a fill asks for: never below zero unless it is not a number. *)
Lemma addQty_nonneg q : isNaN q = false -> 0 <= sv (nmax (nint 0) q).
Proof.
  intros H. destruct q as [|[]|s m k]; [done..|].
  rewrite nmax_sv by done. rewrite sv_nint0. lia.
Qed.

(** The new cumulative quantity before rounding, for a sized order. *)
Definition newFilled (t prior q : number) : number :=
  nmin t (nadd prior (nmax (nint 0) q)).

Lemma nmin_Inf t x : isFinite t = true -> isFinite x = false -> isNaN x = false ->
  0 <= sv x -> x <> Inf true -> nmin t x = t.
Proof. destruct t, x as [|[]|]; done. Qed.

(** The sum of two non-negative Numbers is finite and at least the first, or +Infinity. *)
Lemma nadd_progress x q :
  isFinite x = true -> wf_number x -> 0 <= sv x -> isNaN q = false ->
  let y := nadd x (nmax (nint 0) q) in
  (isFinite y = true /\ sv x <= sv y) \/ y = Inf false.
Proof.
  intros Hx Hw Px Hq y.
  assert (nmax (nint 0) q = Inf false \/ isFinite (nmax (nint 0) q) = true) as [E|Hfin].
  { destruct q as [|[]|s m k]; [done|by right|by left|]. right. by apply nmax_finite. }
  - right. unfold y. rewrite E. by destruct x.
  - destruct (isFinite y) eqn:Hy.
    + left. split; [done|]. apply nadd_lower; try done. by apply addQty_nonneg.
    + right. unfold y in *. set (a := nmax (nint 0) q) in *.
      pose proof (addQty_nonneg q Hq) as Pa. fold a in Pa.
      destruct x as [| |s m k], a as [| |t n j]; try done. simpl in *.
      revert Hy. case_match; [done|].
      set (c := N.min k j) in *.
      match goal with |- context [rnd ?s ?n ?d ?e] => pose proof (rnd_sign s n d e) as Hs;
        destruct (rnd s n d e) as [|u|u] eqn:E; try done end.
      simpl in Hs. intros _. f_equal. subst u. apply Z.ltb_ge.
      pose proof (sv_align s m k t n j) as A. simpl in A. fold c in A.
      assert (0 < 2 ^ Z.of_N c) by (apply pow2_pos; lia). nia.
Qed.

(** Capped at t, the new quantity is finite, at most t, and at least the smaller
    of t and the prior quantity. *)
Lemma newFilled_spec t prior q :
  isFinite t = true -> isFinite prior = true -> wf_number prior -> 0 <= sv prior ->
  isNaN q = false ->
  isFinite (newFilled t prior q) = true /\
  Z.min (sv t) (sv prior) <= sv (newFilled t prior q) <= sv t.
Proof.
  intros Ht Hp Hw Pp Hq. unfold newFilled.
  destruct (nadd_progress prior q Hp Hw Pp Hq) as [[Hf Hle]| ->].
  - split; [by apply nmin_finite|]. rewrite nmin_sv by done. lia.
  - rewrite nmin_Inf by done. split; [done|lia].
Qed.

Lemma applyFillToOrder_filled o p q at_ t :
  o_quantity o = Some t ->
  o_filledQuantity (applyFillToOrder o p q at_) = round (newFilled t (o_filledQuantity o) q) 8.
Proof. intros E. unfold applyFillToOrder. by rewrite E. Qed.

(** The fill completes the order exactly when the capped quantity reaches its size. *)
Lemma applyFillToOrder_status o p q at_ t :
  o_quantity o = Some t ->
  let next := if nge (newFilled t (o_filledQuantity o) q) t
              then OS_FILLED else OS_PARTIALLY_FILLED in
  o_status (applyFillToOrder o p q at_)
  = if canTransitionOrder (o_status o) next then next else o_status o.
Proof. intros E. unfold applyFillToOrder. by rewrite E. Qed.

Lemma newFilled_wf t prior q :
  wf_number t -> wf_number prior -> wf_number q -> wf_number (newFilled t prior q).
Proof. intros. by apply nmin_wf, nadd_wf, nmax_wf. Qed.

Lemma applyFillToOrder_ok o p q at_ :
  wf_number q -> order_ok o -> order_ok (applyFillToOrder o p q at_).
Proof.
  intros Wq [Wf Ff Gf Hq Ha].
  assert (wf_number (o_filledQuantity (applyFillToOrder o p q at_))).
  { simpl. apply round_wf; [done|]. destruct (o_quantity o) as [t|] eqn:E.
    - apply newFilled_wf; try done. by apply Hq.
    - by apply nadd_wf, nmax_wf. }
  split; [done|by apply round_finite|by apply round_on_grid|by apply Hq|].
  simpl. intros a. case_match; [|done]. intros [= <-]. by apply round_finite.
Qed.

(** Cumulative quantity: never below what was already filled, never above the order. *)
Lemma applyFillToOrder_range o p q at_ t :
  order_ok o -> order_bounded o t -> isNaN q = false ->
  sv (o_filledQuantity o) <= sv (o_filledQuantity (applyFillToOrder o p q at_))
    <= sv (round t 8).
Proof.
  intros [Wf Ff Gf Hq _] [Et Pt [L U] _] Nq.
  destruct (Hq _ Et) as [Wt Ft]. rewrite (applyFillToOrder_filled _ _ _ _ t) by done.
  destruct (newFilled_spec t (o_filledQuantity o) q) as [Fn [Ln Un]]; try done.
  rewrite !round_sv in * by done. split; [|by apply RN_mono].
  rewrite <- Gf, round_sv by done. destruct (Z.le_gt_cases (sv t) (sv (o_filledQuantity o))).
  - rewrite Z.min_l in Ln by lia.
    assert (RN (sv t) 8 <= RN (sv (newFilled t (o_filledQuantity o) q)) 8) by (by apply RN_mono).
    assert (RN (sv (o_filledQuantity o)) 8 <= RN (RN (sv t) 8) 8) as HR by (by apply RN_mono).
    rewrite RN_idem in HR by lia. lia.
  - rewrite Z.min_r in Ln by lia. by apply RN_mono.
Qed.

Lemma applyFillToOrder_bounded o p q at_ t :
  order_ok o -> order_bounded o t -> isNaN q = false ->
  order_bounded (applyFillToOrder o p q at_) t.
Proof.
  intros Hok Hb Nq. pose proof (applyFillToOrder_range o p q at_ t Hok Hb Nq) as HR.
  destruct Hb as [Et Pt [L U] Hfull]. split; [done|done|lia|].
  rewrite (applyFillToOrder_status _ _ _ _ t) by done.
  destruct (ok_quantity o Hok t Et) as [_ Ft].
  destruct (newFilled_spec t (o_filledQuantity o) q) as [Fn [Ln Un]];
    try done; [apply Hok..|].
  destruct (nge _ t) eqn:Hc.
  - intros _. rewrite (applyFillToOrder_filled _ _ _ _ t), !round_sv by done.
    unfold nge in Hc. rewrite nle_sv in Hc by done. f_equal. lia.
  - case_match; [done|]. intros HF. specialize (Hfull HF). lia.
Qed.
End fill.

(** *** Fill records *)

Lemma nextFillSeq_snoc fills f oid :
  nextFillSeq (fills ++ [f]) oid
  = if bool_decide (f_orderId f = oid) then S (nextFillSeq fills oid) else nextFillSeq fills oid.
Proof. unfold nextFillSeq. by rewrite foldl_app. Qed.

(** Fill records are numbered per order, in the order they were made. *)
Definition fills_numbered (fills : list ExecutionFill) : Prop :=
  forall i f, fills !! i = Some f ->
    f_fillId f = fillId (f_orderId f) (nextFillSeq (take i fills) (f_orderId f)).

Lemma fills_numbered_snoc fills o p q c at_ :
  fills_numbered fills ->
  fills_numbered (fills ++ [makeFill o (nextFillSeq fills (o_orderId o)) p q c at_]).
Proof.
  intros H i f [Hi|[Hi Hf]]%lookup_app_Some.
  - rewrite take_app_le by (apply lookup_lt_Some in Hi; lia). by apply H.
  - apply list_lookup_singleton_Some in Hf as [Hz <-].
    replace i with (length fills) by lia. by rewrite take_app_length.
Qed.

Lemma nextFillSeq_lt fills i j f oid :
  fills !! i = Some f -> f_orderId f = oid -> i < j ->
  nextFillSeq (take i fills) oid < nextFillSeq (take j fills) oid.
Proof.
  intros Hi Ho Hj. induction Hj as [|j Hj IH].
  - rewrite (take_S_r _ _ f) by done. rewrite nextFillSeq_snoc.
    rewrite bool_decide_true by done. lia.
  - destruct (fills !! j) as [g|] eqn:E.
    + rewrite (take_S_r _ _ g) by done. rewrite nextFillSeq_snoc. case_bool_decide; lia.
    + apply lookup_ge_None in E. rewrite (take_ge _ j) in IH by lia.
      by rewrite (take_ge _ (S j)) by lia.
Qed.

(** Two fills of one order never share an id. *)
Lemma fills_numbered_inj fills i j f g :
  fills_numbered fills -> fills !! i = Some f -> fills !! j = Some g ->
  f_orderId f = f_orderId g -> f_fillId f = f_fillId g -> i = j.
Proof.
  intros H Hi Hj Ho. rewrite (H _ _ Hi), (H _ _ Hj), Ho. intros E%fillId_seq_inj.
  destruct (Nat.lt_trichotomy i j) as [L|[->|L]]; [|done|].
  - pose proof (nextFillSeq_lt fills i j f _ Hi Ho L). lia.
  - pose proof (nextFillSeq_lt fills j i g _ Hj eq_refl L). lia.
Qed.

(** With ids that separate orders, no two fills share an id at all. *)
Lemma fills_numbered_NoDup fills (oids : list string) :
  fills_numbered fills -> Forall (fun f => f_orderId f ∈ oids) fills ->
  (forall o o' n n', o ∈ oids -> o' ∈ oids -> fillId o n = fillId o' n' -> o = o') ->
  NoDup (f_fillId <$> fills).
Proof.
  intros Hn Hin Hsep. apply NoDup_alt. intros i j x. rewrite !list_lookup_fmap.
  destruct (fills !! i) as [f|] eqn:Hi; [|done]. destruct (fills !! j) as [g|] eqn:Hj; [|done].
  simpl. intros [= Ef] [= Eg]. assert (f_fillId f = f_fillId g) as E by congruence.
  apply (fills_numbered_inj fills i j f g); try done.
  rewrite Forall_lookup in Hin. rewrite (Hn _ _ Hi), (Hn _ _ Hj) in E.
  eapply Hsep; [by eapply Hin|by eapply Hin|exact E].
Qed.
