(* ===== verification/ExecPositions.v ===== *)
(** * ExecPositions: position lifecycle of the execution core

    packages/execution-core/src/positions.ts: a position opens from the filled
    entry quantity, reduces as protective orders fill and closes when nothing
    remains.  [position_ok] is the accounting invariant of all of it. *)

From S2P Require Import Prelude JsNumber JsNumberFacts Served ExecTypes.

Local Open Scope string_scope.

(** ** positions.ts *)

Definition sign (direction : SignalDecision) : number :=
  match direction with LONG => nint 1 | SHORT => nint (-1) | FLAT => nint 0 end.

Definition emptyPosition (intent : ExecutionIntent) : ExecutionPosition :=
  {| po_positionId := positionId (in_intentId intent);
     po_intentId := in_intentId intent;
     po_symbol := in_symbol intent;
     po_direction := in_direction intent;
     po_status := PS_NONE;
     po_quantity := nint 0;
     po_entryQuantity := nint 0;
     po_closedQuantity := nint 0;
     po_avgEntryPrice := None;
     po_stop := in_stop intent;
     po_targets := in_targets intent;
     po_openedAt := None;
     po_closedAt := None;
     po_provenance := match in_stop intent with None => UNAVAILABLE | Some _ => VERBATIM end |}.

Definition openPosition (intent : ExecutionIntent) (filledQuantity : number)
    (avgEntryPrice : option number) (at_ : number) : ExecutionPosition :=
  let qty := nmax (nint 0) (round filledQuantity 8) in
  let s := sign (in_direction intent) in
  {| po_positionId := positionId (in_intentId intent);
     po_intentId := in_intentId intent;
     po_symbol := in_symbol intent;
     po_direction := in_direction intent;
     po_status := if ngt qty (nint 0) then PS_OPEN else PS_OPENING;
     po_quantity := round (nmul s qty) 8;
     po_entryQuantity := qty;
     po_closedQuantity := nint 0;
     po_avgEntryPrice := (fun p => round p 8) <$> avgEntryPrice;
     po_stop := in_stop intent;
     po_targets := in_targets intent;
     po_openedAt := Some at_;
     po_closedAt := None;
     po_provenance := match in_stop intent with None => UNAVAILABLE | Some _ => VERBATIM end |}.

(** [{ ...position, status, quantity, closedQuantity, closedAt }] *)
Definition position_update (p : ExecutionPosition) (status : PositionStatus)
    (quantity closed : number) (closedAt : option number) : ExecutionPosition :=
  {| po_positionId := po_positionId p;
     po_intentId := po_intentId p;
     po_symbol := po_symbol p;
     po_direction := po_direction p;
     po_status := status;
     po_quantity := quantity;
     po_entryQuantity := po_entryQuantity p;
     po_closedQuantity := closed;
     po_avgEntryPrice := po_avgEntryPrice p;
     po_stop := po_stop p;
     po_targets := po_targets p;
     po_openedAt := po_openedAt p;
     po_closedAt := closedAt;
     po_provenance := po_provenance p |}.

Definition reducePosition (position : ExecutionPosition) (reduceQuantity at_ : number) :
    ExecutionPosition :=
  let s := sign (po_direction position) in
  let add := nmax (nint 0) (round reduceQuantity 8) in
  let closed :=
    nmin (po_entryQuantity position) (round (nadd (po_closedQuantity position) add) 8) in
  let remaining := round (nsub (po_entryQuantity position) closed) 8 in
  position_update position
    (if nle remaining (nint 0) then PS_CLOSED else PS_REDUCING)
    (round (nmul s remaining) 8) closed
    (if nle remaining (nint 0) then Some at_ else po_closedAt position).

Definition closePosition (position : ExecutionPosition) (at_ : number) : ExecutionPosition :=
  position_update position PS_CLOSED (nint 0) (po_entryQuantity position) (Some at_).

(** [position && (position.status === "OPEN" || position.status === "REDUCING")] *)
Definition isOpenPosition (p : ExecutionPosition) : bool :=
  bool_decide (po_status p = PS_OPEN) || bool_decide (po_status p = PS_REDUCING).

(** ** The accounting invariant *)

Section position_ok.
Local Open Scope Z_scope.

Definition dsign (d : SignalDecision) : Z :=
  match d with LONG => 1 | SHORT => -1 | FLAT => 0 end.

(** What is left of a position. *)
Definition remaining (p : ExecutionPosition) : number :=
  round (nsub (po_entryQuantity p) (po_closedQuantity p)) 8.

(** A canonical, finite, non-negative quantity on the 8-decimal grid. *)
Record quantity8 (x : number) : Prop := {
  q8_wf : wf_number x;
  q8_finite : isFinite x = true;
  q8_nonneg : 0 <= sv x;
  q8_grid : on_grid x 8
}.

(** Closed never exceeds entered; net exposure is the remainder with the sign of
    the direction; the status says whether anything remains. *)
Record position_ok (p : ExecutionPosition) : Prop := {
  pk_entry : quantity8 (po_entryQuantity p);
  pk_closed : quantity8 (po_closedQuantity p);
  pk_le : sv (po_closedQuantity p) <= sv (po_entryQuantity p);
  pk_quantity : sv (po_quantity p) = dsign (po_direction p) * sv (remaining p);
  pk_status :
    match po_status p with
    | PS_NONE | PS_OPENING => sv (po_entryQuantity p) = 0
    | PS_OPEN | PS_REDUCING => 0 < sv (remaining p)
    | PS_CLOSED => sv (remaining p) = 0
    end
}.
End position_ok.

(** ** Lemmas *)

Section facts.
Local Open Scope Z_scope.

Lemma on_grid_RN x : isFinite x = true -> on_grid x 8 <-> RN (sv x) 8 = sv x.
Proof. intros H. unfold on_grid. by rewrite round_sv. Qed.

Lemma quantity8_0 : quantity8 (nint 0).
Proof. by split. Qed.

Lemma quantity8_round x : wf_number x -> 0 <= sv x -> quantity8 (round x 8).
Proof.
  intros. split; [by apply round_wf|by apply round_finite|by apply round_nonneg|].
  by apply round_on_grid.
Qed.

Lemma quantity8_nmin x y : quantity8 x -> quantity8 y -> quantity8 (nmin x y).
Proof.
  intros [Wx Fx Px Gx] [Wy Fy Py Gy].
  split; [by apply nmin_wf|by apply nmin_finite|rewrite nmin_sv by done; lia|].
  rewrite on_grid_RN in * by (try done; by apply nmin_finite).
  rewrite nmin_sv by done. by destruct (Z.min_spec (sv x) (sv y)) as [[_ ->]|[_ ->]].
Qed.

(** [Math.max(0, round(x, 8))] *)
Lemma quantity8_nmax0 x : wf_number x -> quantity8 (nmax (nint 0) (round x 8)).
Proof.
  intros Wx. assert (isFinite (round x 8) = true) as Fx by (by apply round_finite).
  assert (isFinite (nmax (nint 0) (round x 8)) = true) as Fm by (by apply nmax_finite).
  assert (sv (nmax (nint 0) (round x 8)) = Z.max 0 (sv (round x 8))) as E
    by (by apply nmax_sv).
  split; [by apply nmax_wf, round_wf|done|lia|].
  rewrite on_grid_RN, E by done. pose proof (round_on_grid x 8 ltac:(lia)) as G.
  rewrite on_grid_RN in G by done.
  destruct (Z.max_spec 0 (sv (round x 8))) as [[_ ->]|[_ ->]]; [done|].
  rewrite RN_nonneg by lia. by apply RF_0.
Qed.

Lemma sign_cases d :
  (sign d = nint 0 /\ dsign d = 0) \/
  (isFinite (sign d) = true /\ Z.abs (sv (sign d)) = unit1 /\ Z.sgn (sv (sign d)) = dsign d).
Proof. destruct d; [right|right|left]; done. Qed.

(** [round(s * remaining, 8)] is the remainder with the direction's sign. *)
Lemma signed_quantity d x :
  quantity8 x -> sv (round (nmul (sign d) x) 8) = dsign d * sv x.
Proof.
  intros [Wx Fx Px Gx]. rewrite on_grid_RN in Gx by done.
  destruct (sign_cases d) as [[-> ->]|(Fs & As & Ss)].
  - pose proof (nmul_zero_sv x Fx) as E.
    assert (isFinite (nmul (nint 0) x) = true) as Ff by (by destruct x).
    rewrite round_sv, E by done. rewrite RN_nonneg by lia. by rewrite RF_0.
  - assert (isFinite (nmul (sign d) x) = true) as Ff by (by apply nmul_unit_finite).
    rewrite round_sv, nmul_unit_sv, Ss by done.
    destruct d; cbn [dsign].
    + by rewrite !Z.mul_1_l.
    + replace (-1 * sv x) with (- sv x) by lia. rewrite RN_opp by lia. by rewrite Gx.
    + rewrite Z.mul_0_l, RN_nonneg by lia. by rewrite RF_0.
Qed.

Lemma remaining_quantity8 p :
  quantity8 (po_entryQuantity p) -> quantity8 (po_closedQuantity p) ->
  sv (po_closedQuantity p) <= sv (po_entryQuantity p) -> quantity8 (remaining p).
Proof.
  intros [We Fe Pe Ge] [Wc Fc Pc Gc] H.
  apply quantity8_round; [by apply nsub_wf|].
  by apply nsub_bounds.
Qed.

Lemma remaining_le p : position_ok p -> sv (remaining p) <= sv (po_entryQuantity p).
Proof.
  intros [[We Fe Pe Ge] [Wc Fc Pc Gc] Hle _ _].
  apply round_le_grid; try done; [by apply nsub_finite|by apply nsub_bounds].
Qed.

(** Nothing closed: everything remains. *)
Lemma nsub_0 x : isFinite x = true -> wf_number x -> 0 <= sv x -> sv (nsub x (nint 0)) = sv x.
Proof.
  intros Fx Wx Px. unfold nsub.
  assert (isFinite (nadd x (nneg (nint 0))) = true) as Ff.
  { apply (nadd_finite _ _ x); try done. rewrite nneg_sv, sv_nint0. lia. }
  rewrite nadd_sv by done. rewrite nneg_sv, sv_nint0, Z.opp_0, Z.add_0_r, RS_nonneg by done.
  pose proof (wf_abs_repr x Wx Fx) as Hr. rewrite Z.abs_eq in Hr by done.
  pose proof (RZ_repr (sv x) 1 Hr). rewrite Z.mul_1_r in *. auto with lia.
Qed.

Lemma nsub_self x : isFinite x = true -> sv (nsub x x) = 0.
Proof.
  destruct x as [| |s m k]; try done. intros _. unfold nsub. cbn [nadd nneg].
  rewrite N.min_id, N.sub_diag. destruct s; cbn [zsign negb];
    rewrite ?Z.add_opp_diag_l, ?Z.add_opp_diag_r; done.
Qed.

(** *** The four operations keep the invariant *)

Lemma emptyPosition_ok intent : position_ok (emptyPosition intent).
Proof. split; try done; try apply quantity8_0. by rewrite Z.mul_comm. Qed.

Lemma openPosition_ok intent filled avg at_ :
  wf_number filled -> position_ok (openPosition intent filled avg at_).
Proof.
  intros Wf. pose proof (quantity8_nmax0 filled Wf) as Hq.
  assert (sv (remaining (openPosition intent filled avg at_))
          = sv (nmax (nint 0) (round filled 8))) as Er.
  { destruct Hq as [W F P G]. unfold remaining. simpl.
    rewrite on_grid_RN in G by done. rewrite round_sv, nsub_0; try done.
    apply nsub_finite; done || lia. }
  split; [done|apply quantity8_0|apply Hq| |].
  - rewrite Er. simpl. by apply signed_quantity.
  - rewrite Er. destruct Hq as [W F P G]. simpl. unfold ngt.
    rewrite nlt_sv, sv_nint0 by done. destruct (Z.ltb_spec 0 (sv (nmax (nint 0) (round filled 8)))); [done|].
    simpl. lia.
Qed.

Lemma reducePosition_closed p q at_ :
  wf_number q -> position_ok p ->
  quantity8 (po_closedQuantity (reducePosition p q at_)) /\
  sv (po_closedQuantity (reducePosition p q at_)) <= sv (po_entryQuantity p).
Proof.
  intros Wq [He Hc _ _ _].
  assert (quantity8 (round (nadd (po_closedQuantity p) (nmax (nint 0) (round q 8))) 8)) as Hn.
  { destruct (quantity8_nmax0 q Wq) as [Wa Fa Pa _], Hc as [Wc Fc Pc _].
    apply quantity8_round; [by apply nadd_wf|].
    destruct (isFinite (nadd (po_closedQuantity p) (nmax (nint 0) (round q 8)))) eqn:F.
    - etrans; [exact Pc|]. by apply nadd_lower.
    - by destruct (nadd _ _). }
  split; [by apply quantity8_nmin|]. simpl.
  rewrite nmin_sv by (apply He || apply Hn). lia.
Qed.

Lemma reducePosition_ok p q at_ :
  wf_number q -> position_ok p -> position_ok (reducePosition p q at_).
Proof.
  intros Wq Hp. pose proof (reducePosition_closed p q at_ Wq Hp) as [Hc Hle].
  destruct Hp as [He _ _ _ _].
  assert (quantity8 (remaining (reducePosition p q at_))) as Hr
    by (by apply remaining_quantity8).
  split; [done|done|done|by apply (signed_quantity (po_direction p))|].
  change (po_status (reducePosition p q at_))
    with (if nle (remaining (reducePosition p q at_)) (nint 0) then PS_CLOSED else PS_REDUCING).
  destruct Hr as [Wr Fr Pr _]. rewrite nle_sv, sv_nint0 by done.
  destruct (Z.leb_spec (sv (remaining (reducePosition p q at_))) 0); lia.
Qed.

Lemma closePosition_ok p at_ : position_ok p -> position_ok (closePosition p at_).
Proof.
  intros [He _ _ _ _].
  assert (sv (remaining (closePosition p at_)) = 0) as Er.
  { unfold remaining. simpl. destruct He as [W F P _].
    rewrite round_sv, nsub_self, RN_nonneg, RF_0; try done. apply nsub_finite; done || lia. }
  split; [done|done|simpl; lia|by rewrite Er, Z.mul_0_r|done].
Qed.

(** *** Exposure only shrinks *)

Lemma remaining_mono p p' :
  quantity8 (po_entryQuantity p) -> po_entryQuantity p' = po_entryQuantity p ->
  quantity8 (po_closedQuantity p) -> quantity8 (po_closedQuantity p') ->
  sv (po_closedQuantity p) <= sv (po_closedQuantity p') <= sv (po_entryQuantity p) ->
  sv (remaining p') <= sv (remaining p).
Proof.
  intros [We Fe Pe _] E [Wc Fc Pc _] [Wd Fd Pd _] H. unfold remaining. rewrite E.
  assert (isFinite (nsub (po_entryQuantity p) (po_closedQuantity p')) = true) as F1
    by (apply nsub_finite; try done; lia).
  assert (isFinite (nsub (po_entryQuantity p) (po_closedQuantity p)) = true) as F2
    by (apply nsub_finite; try done; lia).
  rewrite !round_sv by done. apply RN_mono; [done|]. unfold nsub in *.
  rewrite !nadd_sv by (done || by rewrite nneg_finite). rewrite !nneg_sv, !RS_nonneg by lia.
  apply RZ_mono; lia.
Qed.

(** Reducing never lowers the closed quantity nor raises the remainder, as long
    as the addition of the quantities does not overflow to infinity. *)
Lemma reducePosition_monotone p q at_ :
  wf_number q -> position_ok p ->
  isFinite (nadd (po_closedQuantity p) (nmax (nint 0) (round q 8))) = true ->
  sv (po_closedQuantity p) <= sv (po_closedQuantity (reducePosition p q at_)) /\
  sv (remaining (reducePosition p q at_)) <= sv (remaining p).
Proof.
  intros Wq Hp F. pose proof (reducePosition_closed p q at_ Wq Hp) as [Hc Hle].
  pose proof Hp as [He Hc0 Hle0 _ _].
  assert (sv (po_closedQuantity p) <= sv (po_closedQuantity (reducePosition p q at_))) as Hm.
  { simpl. destruct (quantity8_nmax0 q Wq) as [Wa Fa Pa _], Hc0 as [Wc Fc Pc Gc].
    rewrite nmin_sv by (apply He || by apply round_finite).
    apply Z.min_glb; [done|]. apply round_ge_grid; try done. by apply nadd_lower. }
  split; [done|]. by apply remaining_mono.
Qed.
End facts.
