(* ===== verification/ExecIntent.v ===== *)
(** * ExecIntent: from the served decision to an executable plan

    packages/execution-core/src/validation.ts, intent.ts and plan.ts: the
    fail-closed submit gate, the verbatim projection of decision and plan into an
    intent, and the order set of an execution plan. *)

From S2P Require Import Prelude JsNumber JsNumberFacts Served ExecTypes ExecOrders.

Local Open Scope string_scope.
Local Open Scope list_scope.

(** ** validation.ts *)

Definition validateInput (input : ExecutionInput) : option ExecutionFailureReason :=
  match ei_decision input, ei_plan input with
  | None, _ => Some NO_DECISION
  | Some _, None => Some NO_PLAN
  | Some _, Some _ => None
  end.

Definition checkSubmittable (intent : ExecutionIntent) : option ExecutionFailureReason :=
  if bool_decide (in_action intent = NO_TRADE) || negb (in_canTrade intent)
     || negb (in_shouldTrade intent) then Some BLOCKED
  else match in_readinessScore intent, in_readinessBand intent with
  | None, _ | _, None => Some MISSING_READINESS
  | Some _, Some _ =>
    match in_entry intent with
    | None => Some MISSING_ENTRY
    | Some _ =>
      match in_stop intent with
      | None => Some MISSING_STOP
      | Some _ => if bool_decide (length (in_targets intent) = 0) then Some MISSING_TARGET
                  else None
      end
    end
  end.

Definition isSubmittable (intent : ExecutionIntent) : bool :=
  bool_decide (checkSubmittable intent = None).

(** ** intent.ts *)

Definition collectTargets (d : TradingDecision) : list number :=
  omap id [mv (Some (td_takeProfit1 d)); mv (Some (td_takeProfit2 d)); mv (Some (td_takeProfit3 d))].

(** [opts.now], [opts.mode], [opts.venue] are the last three arguments. *)
Definition buildExecutionIntent (decision : TradingDecision) (plan : TradePlan)
    (now : number) (mode : option ExecutionMode) (venue : option ExecutionVenue) :
    ExecutionIntent :=
  let targets := collectTargets decision in
  let readinessScore :=
    if isFinite (tr_score (tp_readiness plan)) then Some (tr_score (tp_readiness plan)) else None in
  let provenance : gmap string ExecutionProvenance := list_to_map
    [("direction", VERBATIM);
     ("confidence", VERBATIM);
     ("entry", levelProvenance (Some (td_entryPrice decision)));
     ("stop", levelProvenance (Some (td_stopLoss decision)));
     ("targets", if bool_decide (0 < length targets) then VERBATIM else UNAVAILABLE);
     ("riskReward", levelProvenance (Some (td_riskRewardRatio decision)));
     ("sizing", levelProvenance (Some (td_positionSize decision)));
     ("action", VERBATIM);
     ("readiness", match readinessScore with None => UNAVAILABLE | Some _ => VERBATIM end);
     ("lineage", VERBATIM)] in
  let notes :=
    (if bool_decide (tp_signalId plan <> td_signalId decision)
     then ["plan/decision signal mismatch (plan=" +:+ tp_signalId plan +:+ ", decision="
           +:+ td_signalId decision +:+ ")"]
     else []) ++ td_provenanceNotes decision in
  {| in_intentId := intentId (td_signalId decision);
     in_signalId := td_signalId decision;
     in_symbol := td_symbol decision;
     in_timeframe := td_timeframe decision;
     in_direction := td_direction decision;
     in_confidence := if isFinite (td_confidence decision) then td_confidence decision else nint 0;
     in_entry := mv (Some (td_entryPrice decision));
     in_stop := mv (Some (td_stopLoss decision));
     in_targets := targets;
     in_riskReward := mv (Some (td_riskRewardRatio decision));
     in_stopDistancePct := mv (Some (td_stopDistancePct decision));
     in_positionSize := mv (Some (td_positionSize decision));
     in_positionNotional := mv (Some (td_positionNotional decision));
     in_capitalRiskPercent := mv (Some (td_capitalRiskPercent decision));
     in_assumedEquity := td_assumedEquity decision;
     in_action := ds_action (tp_summary plan);
     in_canTrade := ds_canTrade (tp_summary plan);
     in_shouldTrade := ds_shouldTrade (tp_summary plan);
     in_readinessScore := readinessScore;
     in_readinessBand :=
       match readinessScore with None => None | Some _ => Some (tr_band (tp_readiness plan)) end;
     in_featureHash := td_featureHash decision;
     in_datasetHash := td_datasetHash decision;
     in_strategyVersionId := td_strategyVersionId decision;
     in_mode := default SIMULATION mode;
     in_venue := default UNSET venue;
     in_provenance := provenance;
     in_notes := notes;
     in_createdAt := now |}.

(** ** plan.ts *)

Definition splitQuantity (total : option number) (n : nat) : list (option number) :=
  match n, total with
  | O, _ => []
  | _, None => replicate n None
  | S k, Some total =>
      let per := round (ndiv total (nint (Z.of_nat n))) 8 in
      replicate k (Some per)
      ++ [Some (round (nsub total (nmul per (nint (Z.of_nat k)))) 8)]
  end.

Definition buildExecutionPlan (intent : ExecutionIntent) : ExecutionPlan :=
  let planId := planId (in_intentId intent) in
  let totalQuantity := num (in_positionSize intent) in
  let make idx name role type price quantity :=
    makeOrder (orderId planId name idx) planId (in_intentId intent) (in_symbol intent)
      (in_direction intent) role type price quantity (in_createdAt intent) in
  let parts := splitQuantity totalQuantity (length (in_targets intent)) in
  let orders :=
    make 0 "entry" ENTRY OT_LIMIT (in_entry intent) totalQuantity ::
    make 1 "stop" STOP OT_STOP (in_stop intent) totalQuantity ::
    imap (fun i target =>
      make (2 + i) "target" TARGET OT_LIMIT (Some target) (mjoin (parts !! i)))
      (in_targets intent) in
  let blockedReason := checkSubmittable intent in
  {| pl_planId := planId;
     pl_intentId := in_intentId intent;
     pl_signalId := in_signalId intent;
     pl_symbol := in_symbol intent;
     pl_direction := in_direction intent;
     pl_mode := in_mode intent;
     pl_venue := in_venue intent;
     pl_orders := orders;
     pl_totalQuantity := totalQuantity;
     pl_submittable := bool_decide (blockedReason = None);
     pl_blockedReason := blockedReason;
     pl_provenance := DERIVED;
     pl_notes := in_notes intent ++
       match blockedReason with Some r => ["not submittable: " +:+ showReason r] | None => [] end;
     pl_createdAt := in_createdAt intent |}.

(** ** Lemmas *)

(** *** The submit gate *)

Record submit_ready (i : ExecutionIntent) : Prop := {
  sr_action : in_action i <> NO_TRADE;
  sr_canTrade : in_canTrade i = true;
  sr_shouldTrade : in_shouldTrade i = true;
  sr_score : is_Some (in_readinessScore i);
  sr_band : is_Some (in_readinessBand i);
  sr_entry : is_Some (in_entry i);
  sr_stop : is_Some (in_stop i);
  sr_targets : in_targets i <> []
}.

Lemma checkSubmittable_None i : checkSubmittable i = None <-> submit_ready i.
Proof.
  unfold checkSubmittable. split.
  - repeat case_match; try done; intros _.
    bool_hyps.
    split; try done; try by eexists. by destruct (in_targets i).
  - intros [Ha -> -> [? ->] [? ->] [? ->] [? ->] Ht].
    rewrite bool_decide_false by done. simpl. destruct (in_targets i); [done|].
    by rewrite bool_decide_false.
Qed.

(** *** Plan structure *)

Lemma planOrders_roles i :
  o_role <$> pl_orders (buildExecutionPlan i)
  = ENTRY :: STOP :: replicate (length (in_targets i)) TARGET.
Proof.
  simpl. do 2 f_equal. rewrite fmap_imap. apply list_eq. intros j.
  rewrite list_lookup_imap. destruct (in_targets i !! j) eqn:E; simpl.
  - symmetry. apply lookup_replicate. split; [done|by eapply lookup_lt_Some].
  - symmetry. apply lookup_replicate_None. by apply lookup_ge_None.
Qed.

Lemma planOrders_prices i :
  o_price <$> pl_orders (buildExecutionPlan i)
  = in_entry i :: in_stop i :: (Some <$> in_targets i).
Proof.
  simpl. do 2 f_equal. rewrite fmap_imap. apply list_eq. intros j.
  rewrite list_lookup_imap, list_lookup_fmap. by destruct (in_targets i !! j).
Qed.

Lemma splitQuantity_length total n : length (splitQuantity total n) = n.
Proof.
  destruct n as [|k], total; simpl; try done.
  - rewrite length_app, length_replicate. simpl. lia.
  - by rewrite length_replicate.
Qed.

Lemma planOrders_quantities i :
  o_quantity <$> pl_orders (buildExecutionPlan i)
  = num (in_positionSize i) :: num (in_positionSize i)
    :: splitQuantity (num (in_positionSize i)) (length (in_targets i)).
Proof.
  simpl. do 2 f_equal. rewrite fmap_imap. apply list_eq. intros j.
  rewrite list_lookup_imap. destruct (in_targets i !! j) eqn:E; simpl.
  - apply lookup_lt_Some in E.
    destruct (lookup_lt_is_Some_2 (splitQuantity (num (in_positionSize i)) (length (in_targets i))) j)
      as [q Hq]; [by rewrite splitQuantity_length|]. by rewrite Hq.
  - symmetry. apply lookup_ge_None in E. apply lookup_ge_None. by rewrite splitQuantity_length.
Qed.

Lemma planOrders_ids i :
  o_orderId <$> pl_orders (buildExecutionPlan i)
  = orderId (planId (in_intentId i)) "entry" 0 :: orderId (planId (in_intentId i)) "stop" 1
    :: imap (fun j _ => orderId (planId (in_intentId i)) "target" (2 + j)) (in_targets i).
Proof. simpl. do 2 f_equal. by rewrite fmap_imap. Qed.

Lemma planOrders_ids_NoDup i : NoDup (o_orderId <$> pl_orders (buildExecutionPlan i)).
Proof.
  rewrite planOrders_ids. apply NoDup_cons. split.
  { rewrite elem_of_cons. intros [H|(j & t & H & _)%elem_of_lookup_imap];
      apply string_app_cancel in H; discriminate H. }
  apply NoDup_cons. split.
  { intros (j & t & H & _)%elem_of_lookup_imap. apply string_app_cancel in H. discriminate H. }
  apply NoDup_alt. intros j k x. rewrite !list_lookup_imap.
  destruct (in_targets i !! j), (in_targets i !! k); try done. simpl.
  intros [= <-] [= E%orderId_index_inj]. lia.
Qed.

(** Every order of a plan is PLANNED, unfilled and belongs to the intent. *)
Lemma planOrders_fresh i o :
  o ∈ pl_orders (buildExecutionPlan i) ->
  o_status o = OS_PLANNED /\ o_filledQuantity o = nint 0 /\ o_avgFillPrice o = None /\
  o_intentId o = in_intentId i /\ o_side o = sideForRole (in_direction i) (o_role o).
Proof.
  simpl. rewrite !elem_of_cons.
  intros [-> |[-> |(j & t & -> & _)%elem_of_lookup_imap]]; done.
Qed.

Lemma splitQuantity_finite total n q :
  (forall t, total = Some t -> wf_number t) ->
  Some q ∈ splitQuantity total n -> wf_number q /\ isFinite q = true.
Proof.
  intros Hw. destruct n as [|k], total as [t|]; simpl.
  - by intros ?%elem_of_nil.
  - by intros ?%elem_of_nil.
  - intros [H|H]%elem_of_app.
    + apply elem_of_replicate in H as [[= ->] _].
      split; [apply round_wf; [done|apply ndiv_wf]|by apply round_finite].
    + apply list_elem_of_singleton in H as [= ->].
      split; [apply round_wf; [done|]|by apply round_finite].
      apply nsub_wf; [by apply Hw|apply nmul_wf].
  - intros H. by apply (elem_of_replicate (S k) None) in H as [? _].
Qed.

Lemma planOrders_ok i :
  (forall v, in_positionSize i = Some v -> wf_number v) ->
  Forall order_ok (pl_orders (buildExecutionPlan i)).
Proof.
  intros Hw.
  assert (forall v, num (in_positionSize i) = Some v -> wf_number v) as Hw'.
  { unfold num. intros v. destruct (in_positionSize i); [|done]. case_match; [|done].
    intros [= <-]. auto. }
  apply Forall_forall. intros o Ho.
  pose proof (planOrders_fresh i o Ho) as (_ & Ef & Ea & _ & _).
  split; rewrite ?Ef, ?Ea; try done.
  intros q Eq. assert (Some q ∈ o_quantity <$> pl_orders (buildExecutionPlan i)) as Hq
    by (rewrite <- Eq; by apply list_elem_of_fmap_2).
  rewrite planOrders_quantities, !elem_of_cons in Hq.
  destruct Hq as [E|[E|E]].
  - split; [by apply Hw'|by eapply num_finite].
  - split; [by apply Hw'|by eapply num_finite].
  - by eapply splitQuantity_finite.
Qed.

(** Fill ids separate the orders of a plan. *)
Lemma planOrders_fillIds i o o' n n' :
  o ∈ o_orderId <$> pl_orders (buildExecutionPlan i) ->
  o' ∈ o_orderId <$> pl_orders (buildExecutionPlan i) ->
  fillId o n = fillId o' n' -> o = o'.
Proof.
  rewrite planOrders_ids, !elem_of_cons.
  intros [-> |[-> |(j & t & -> & _)%elem_of_lookup_imap]]
    [-> |[-> |(k & u & -> & _)%elem_of_lookup_imap]] H;
    by apply fillId_orderId_inj in H as [? _].
Qed.
