(* ===== verification/ExecState.v ===== *)
(** * ExecState: the deterministic execution state machine

    packages/execution-core/src/events.ts, audit.ts, state.ts and execution.ts:
    the audit trail, the transition table, the reducer over the command set and
    the entry point that builds an execution from the served decision and plan. *)

From S2P Require Import Prelude JsNumber Served ExecTypes ExecOrders ExecPositions ExecIntent.

Local Open Scope string_scope.
Local Open Scope list_scope.

(** ** events.ts and audit.ts *)

Definition makeEvent (intentId : string) (seq : nat) (entity : ExecutionEntity)
    (entityId : string) (type : ExecutionEventType) (previousStatus newStatus : option string)
    (source : ExecutionSource) (provenance : ExecutionProvenance) (reason : string)
    (ts : number) : ExecutionEvent :=
  {| ev_eventId := eventId intentId seq;
     ev_seq := seq;
     ev_intentId := intentId;
     ev_entity := entity;
     ev_entityId := entityId;
     ev_type := type;
     ev_previousStatus := previousStatus;
     ev_newStatus := newStatus;
     ev_source := source;
     ev_provenance := provenance;
     ev_reason := reason;
     ev_ts := ts |}.

Definition emptyAudit (intentId : string) : ExecutionAudit :=
  {| au_intentId := intentId; au_events := []; au_count := 0 |}.

Definition appendEvent (audit : ExecutionAudit) (event : ExecutionEvent) : ExecutionAudit :=
  let events := au_events audit ++ [event] in
  {| au_intentId := au_intentId audit; au_events := events; au_count := length events |}.

Definition lastEvent (audit : ExecutionAudit) : option ExecutionEvent :=
  if bool_decide (au_count audit = 0) then None else au_events audit !! (au_count audit - 1).

(** ** state.ts: the state machine *)

Definition TERMINAL_STATUSES : list ExecutionStatus :=
  [ES_CLOSED; ES_REJECTED; ES_EXPIRED; ES_CANCELLED; ES_FAILED].

Definition EXEC_TRANSITIONS (from : ExecutionStatus) : list ExecutionStatus :=
  match from with
  | ES_NOT_CREATED => [ES_PLANNED; ES_REJECTED; ES_CANCELLED; ES_FAILED]
  | ES_PLANNED => [ES_READY; ES_REJECTED; ES_EXPIRED; ES_CANCELLED; ES_FAILED]
  | ES_READY => [ES_SUBMITTED; ES_REJECTED; ES_EXPIRED; ES_CANCELLED; ES_FAILED]
  | ES_SUBMITTED => [ES_ACKNOWLEDGED; ES_REJECTED; ES_EXPIRED; ES_CANCELLED; ES_FAILED]
  | ES_ACKNOWLEDGED =>
      [ES_PARTIALLY_FILLED; ES_FILLED; ES_REJECTED; ES_EXPIRED; ES_CANCELLED; ES_FAILED]
  | ES_PARTIALLY_FILLED => [ES_PARTIALLY_FILLED; ES_FILLED; ES_CANCELLED; ES_FAILED]
  | ES_FILLED => [ES_OPEN; ES_CANCELLED; ES_FAILED]
  | ES_OPEN => [ES_REDUCING; ES_CLOSED; ES_CANCELLED; ES_FAILED]
  | ES_REDUCING => [ES_REDUCING; ES_OPEN; ES_CLOSED; ES_CANCELLED; ES_FAILED]
  | ES_CLOSED => []
  | ES_REJECTED => []
  | ES_EXPIRED => []
  | ES_CANCELLED => []
  | ES_FAILED => []
  end.

Definition isTerminal (status : ExecutionStatus) : bool :=
  bool_decide (status ∈ TERMINAL_STATUSES).

Definition canTransition (from to : ExecutionStatus) : bool :=
  bool_decide (to ∈ EXEC_TRANSITIONS from).

(** ** state.ts: construction *)

Definition initExecutionState (intent : ExecutionIntent) (plan : option ExecutionPlan) :
    ExecutionState :=
  {| st_intentId := in_intentId intent;
     st_signalId := in_signalId intent;
     st_symbol := in_symbol intent;
     st_status := ES_NOT_CREATED;
     st_mode := in_mode intent;
     st_venue := in_venue intent;
     st_intent := intent;
     st_plan := plan;
     st_orders := match plan with Some p => pl_orders p | None => [] end;
     st_fills := [];
     st_position := Some (emptyPosition intent);
     st_lifecycle := {| lc_current := ES_NOT_CREATED;
                        lc_history := [ES_NOT_CREATED];
                        lc_terminal := false |};
     st_audit := emptyAudit (in_intentId intent);
     st_failure := None;
     st_seq := 0;
     st_clock := in_createdAt intent;
     st_createdAt := in_createdAt intent;
     st_updatedAt := in_createdAt intent |}.

(** ** state.ts: commit and reject *)

(** The optional patches are [None] where the source leaves the key out. *)
Record Commit := {
  c_status : ExecutionStatus;
  c_type : ExecutionEventType;
  c_entity : ExecutionEntity;
  c_entityId : string;
  c_source : ExecutionSource;
  c_provenance : ExecutionProvenance;
  c_reason : string;
  c_at : number;
  c_orders : option (list ExecutionOrder);
  c_fills : option (list ExecutionFill);
  c_position : option (option ExecutionPosition);
  c_failure : option (option ExecutionFailure)
}.

Definition commit_event (state : ExecutionState) (c : Commit) : ExecutionEvent :=
  makeEvent (st_intentId state) (S (st_seq state)) (c_entity c) (c_entityId c) (c_type c)
    (Some (showStatus (st_status state))) (Some (showStatus (c_status c)))
    (c_source c) (c_provenance c) (c_reason c) (c_at c).

Definition commit (state : ExecutionState) (c : Commit) : ExecutionResult :=
  let seq := S (st_seq state) in
  let event := commit_event state c in
  let next :=
    {| st_intentId := st_intentId state;
       st_signalId := st_signalId state;
       st_symbol := st_symbol state;
       st_status := c_status c;
       st_mode := st_mode state;
       st_venue := st_venue state;
       st_intent := st_intent state;
       st_plan := st_plan state;
       st_orders := default (st_orders state) (c_orders c);
       st_fills := default (st_fills state) (c_fills c);
       st_position := default (st_position state) (c_position c);
       st_lifecycle := {| lc_current := c_status c;
                          lc_history := lc_history (st_lifecycle state) ++ [c_status c];
                          lc_terminal := isTerminal (c_status c) |};
       st_audit := appendEvent (st_audit state) event;
       st_failure := default (st_failure state) (c_failure c);
       st_seq := seq;
       st_clock := c_at c;
       st_createdAt := st_createdAt state;
       st_updatedAt := c_at c |} in
  {| er_ok := true; er_state := next; er_event := Some event; er_failure := st_failure next |}.

Definition reject (state : ExecutionState) (reason : ExecutionFailureReason)
    (message : string) (at_ : number) : ExecutionResult :=
  {| er_ok := false;
     er_state := state;
     er_event := None;
     er_failure := Some {| fl_reason := reason; fl_message := message; fl_at := at_;
                           fl_fatal := false |} |}.

Definition illegal (state : ExecutionState) (message : string) (at_ : number) : ExecutionResult :=
  reject state ILLEGAL_TRANSITION message at_.

(** [orders.map((o) => transitionOrder(o, to, at))], also written out by ARM, SUBMIT
    and ACKNOWLEDGE. *)
Definition terminateOrders (orders : list ExecutionOrder) (to : OrderStatus) (at_ : number) :
    list ExecutionOrder :=
  (fun o => transitionOrder o to at_ None) <$> orders.

(** A commit of the EXECUTION entity with source EXECUTION_CORE. *)
Definition execution_commit (state : ExecutionState) (status : ExecutionStatus)
    (type : ExecutionEventType) (source : ExecutionSource) (reason : string) (at_ : number)
    (orders : option (list ExecutionOrder)) (position : option (option ExecutionPosition))
    (failure : option (option ExecutionFailure)) : Commit :=
  {| c_status := status; c_type := type; c_entity := EN_EXECUTION;
     c_entityId := st_intentId state; c_source := source; c_provenance := DERIVED;
     c_reason := reason; c_at := at_; c_orders := orders; c_fills := None;
     c_position := position; c_failure := failure |}.

(** A commit of the POSITION entity with source EXECUTION_CORE. *)
Definition position_commit (status : ExecutionStatus) (type : ExecutionEventType)
    (entityId reason : string) (at_ : number) (orders : option (list ExecutionOrder))
    (fills : option (list ExecutionFill)) (position : option ExecutionPosition) : Commit :=
  {| c_status := status; c_type := type; c_entity := EN_POSITION; c_entityId := entityId;
     c_source := EXECUTION_CORE; c_provenance := DERIVED; c_reason := reason; c_at := at_;
     c_orders := orders; c_fills := fills; c_position := Some position; c_failure := None |}.

Definition failure_of (reason : ExecutionFailureReason) (message : string) (at_ : number)
    (fatal : bool) : option (option ExecutionFailure) :=
  Some (Some {| fl_reason := reason; fl_message := message; fl_at := at_; fl_fatal := fatal |}).

(** The open position of a state, closed; anything else as it is (KILL and CANCEL). *)
Definition close_if_open (position : option ExecutionPosition) (at_ : number) :
    option ExecutionPosition :=
  match position with
  | Some p => if isOpenPosition p then Some (closePosition p at_) else Some p
  | None => None
  end.

Definition find_order (oid : string) (orders : list ExecutionOrder) : option ExecutionOrder :=
  List.find (fun o => bool_decide (o_orderId o = oid)) orders.

Definition find_entry (orders : list ExecutionOrder) : option ExecutionOrder :=
  List.find (fun o => bool_decide (o_role o = ENTRY)) orders.

(** ** state.ts: FILL *)

Definition reduceFill (state : ExecutionState) (oid : string) (price quantity at_ : number) :
    ExecutionResult :=
  match find_order oid (st_orders state) with
  | None => reject state VALIDATION_FAILED ("no order " +:+ oid) at_
  | Some order =>
    if nle quantity (nint 0) || negb (isFinite price) then
      reject state VALIDATION_FAILED "fill needs a positive quantity and finite price" at_
    else
      let filled := applyFillToOrder order price quantity at_ in
      let fillSeq := nextFillSeq (st_fills state) (o_orderId order) in
      let fill := makeFill order fillSeq price quantity (o_filledQuantity filled) at_ in
      let orders :=
        (fun o => if bool_decide (o_orderId o = o_orderId order) then filled else o)
          <$> st_orders state in
      let fills := st_fills state ++ [fill] in
      if bool_decide (o_role order = ENTRY) then
        let full := bool_decide (o_status filled = OS_FILLED) in
        let target := if full then ES_FILLED else ES_PARTIALLY_FILLED in
        if negb (canTransition (st_status state) target) then
          illegal state ("cannot " +:+ showStatus target +:+ " from "
                         +:+ showStatus (st_status state)) at_
        else commit state
          {| c_status := target;
             c_type := if full then EV_FILLED else EV_PARTIALLY_FILLED;
             c_entity := EN_ORDER; c_entityId := o_orderId order;
             c_source := EXECUTION_CORE; c_provenance := DERIVED;
             c_reason := if full then "entry fully filled" else "entry partially filled";
             c_at := at_; c_orders := Some orders; c_fills := Some fills;
             c_position := None; c_failure := None |}
      else
        match st_position state with
        | None => illegal state "protective fill with no open position" at_
        | Some p =>
          if negb (isOpenPosition p) then
            illegal state "protective fill with no open position" at_
          else
            let position := reducePosition p quantity at_ in
            let closed := bool_decide (po_status position = PS_CLOSED) in
            let status := if closed then ES_CLOSED else ES_REDUCING in
            if negb (canTransition (st_status state) status) then
              illegal state ("cannot " +:+ showStatus status +:+ " from "
                             +:+ showStatus (st_status state)) at_
            else commit state
              (position_commit status (if closed then EV_CLOSED else EV_REDUCED)
                 (po_positionId position)
                 (showRole (o_role order) +:+
                  (if closed then " fill closed position" else " fill reduced position"))
                 at_ (Some orders) (Some fills) (Some position))
        end
  end.

(** ** state.ts: the reducer *)

Definition terminal_message (state : ExecutionState) : string :=
  showStatus (st_status state) +:+ " is terminal".

Definition cannot (what : string) (state : ExecutionState) : string :=
  "cannot " +:+ what +:+ " from " +:+ showStatus (st_status state).

(** The plan's own reason for not being submittable, or NO_PLAN. *)
Definition not_submittable_reason (plan : option ExecutionPlan) : ExecutionFailureReason :=
  default NO_PLAN (plan ≫= pl_blockedReason).

Definition plan_submittable (plan : option ExecutionPlan) : bool :=
  match plan with Some p => pl_submittable p | None => false end.

(** The guard most cases open with: an illegal move is rejected. *)
Definition move (state : ExecutionState) (what : string) (to : ExecutionStatus) (at_ : number)
    (k : ExecutionResult) : ExecutionResult :=
  if negb (canTransition (st_status state) to) then illegal state (cannot what state) at_ else k.

Definition move_orders (state : ExecutionState) (to : OrderStatus) (at_ : number) :
    option (list ExecutionOrder) :=
  Some (terminateOrders (st_orders state) to at_).

(** case "KILL" *)
Definition reduceKill (state : ExecutionState) (at_ : number) : ExecutionResult :=
  if isTerminal (st_status state) then illegal state (terminal_message state) at_
  else commit state (execution_commit state ES_CANCELLED EV_KILLED SRC_KILL_SWITCH
         "kill switch engaged → immediate CANCELLED" at_
         (move_orders state OS_CANCELLED at_) (Some (close_if_open (st_position state) at_))
         (failure_of KILL_SWITCH "kill switch engaged" at_ false)).

(** case "RUNTIME_UNHEALTHY" *)
Definition reduceUnhealthy (state : ExecutionState) (at_ : number) : ExecutionResult :=
  commit state (execution_commit state ES_FAILED EV_FAILED RUNTIME
    "runtime unhealthy → FAILED" at_ (move_orders state OS_FAILED at_) None
    (failure_of RUNTIME_UNHEALTHY "runtime unhealthy" at_ true)).

(** case "PLAN" *)
Definition reducePlan (state : ExecutionState) (at_ : number) : ExecutionResult :=
  move state "PLAN" ES_PLANNED at_
    match st_plan state with
    | None => reject state NO_PLAN "no ExecutionPlan attached" at_
    | Some p =>
        commit state
          {| c_status := ES_PLANNED; c_type := EV_PLANNED; c_entity := EN_PLAN;
             c_entityId := pl_planId p; c_source := EXECUTION_CORE; c_provenance := DERIVED;
             c_reason := "execution planned from decision + trade plan"; c_at := at_;
             c_orders := None; c_fills := None; c_position := None; c_failure := None |}
    end.

(** case "ARM" *)
Definition reduceArm (state : ExecutionState) (at_ : number) : ExecutionResult :=
  move state "ARM" ES_READY at_
    (if negb (plan_submittable (st_plan state)) then
       let reason := not_submittable_reason (st_plan state) in
       reject state reason ("plan not submittable: " +:+ showReason reason) at_
     else commit state (execution_commit state ES_READY EV_ARMED EXECUTION_CORE
            "all fail-closed gates pass → READY" at_ (move_orders state OS_READY at_) None None)).

(** case "SUBMIT" *)
Definition reduceSubmit (state : ExecutionState) (at_ : number) : ExecutionResult :=
  move state "SUBMIT" ES_SUBMITTED at_
    (if negb (plan_submittable (st_plan state)) then
       let reason := not_submittable_reason (st_plan state) in
       reject state reason ("plan not submittable: " +:+ showReason reason) at_
     else commit state (execution_commit state ES_SUBMITTED EV_SUBMITTED EXECUTION_CORE
            "orders submitted" at_ (move_orders state OS_SUBMITTED at_) None None)).

(** case "ACKNOWLEDGE" *)
Definition reduceAcknowledge (state : ExecutionState) (at_ : number) : ExecutionResult :=
  move state "ACKNOWLEDGE" ES_ACKNOWLEDGED at_
    (commit state (execution_commit state ES_ACKNOWLEDGED EV_ACKNOWLEDGED EXECUTION_CORE
       "venue acknowledged orders" at_ (move_orders state OS_ACKNOWLEDGED at_) None None)).

(** case "OPEN" *)
Definition reduceOpen (state : ExecutionState) (at_ : number) : ExecutionResult :=
  move state "OPEN" ES_OPEN at_
    match find_entry (st_orders state) with
    | Some entry =>
        if nle (o_filledQuantity entry) (nint 0)
        then reject state MISSING_ENTRY "no filled entry to open a position" at_
        else
          let position := openPosition (st_intent state) (o_filledQuantity entry)
                            (o_avgFillPrice entry) at_ in
          commit state (position_commit ES_OPEN EV_OPENED (po_positionId position)
            "position opened from filled entry" at_ None None (Some position))
    | None => reject state MISSING_ENTRY "no filled entry to open a position" at_
    end.

(** case "REDUCE" *)
Definition reduceReduce (state : ExecutionState) (quantity at_ : number) : ExecutionResult :=
  move state "REDUCE" ES_REDUCING at_
    match st_position state with
    | None => illegal state "no open position to reduce" at_
    | Some p =>
        if negb (isOpenPosition p) then illegal state "no open position to reduce" at_
        else
          let position := reducePosition p quantity at_ in
          let closed := bool_decide (po_status position = PS_CLOSED) in
          commit state
            (position_commit (if closed then ES_CLOSED else ES_REDUCING)
               (if closed then EV_CLOSED else EV_REDUCED) (po_positionId position)
               (if closed then "position fully reduced → CLOSED" else "position reduced")
               at_ None None (Some position))
    end.

(** case "CLOSE" *)
Definition reduceClose (state : ExecutionState) (at_ : number) : ExecutionResult :=
  move state "CLOSE" ES_CLOSED at_
    (let position := (fun p => closePosition p at_) <$> st_position state in
     commit state (position_commit ES_CLOSED EV_CLOSED
       (default (st_intentId state) (po_positionId <$> position)) "position closed" at_
       (move_orders state OS_CANCELLED at_) None position)).

(** case "CANCEL" *)
Definition reduceCancel (state : ExecutionState) (reason : option string) (at_ : number) :
    ExecutionResult :=
  move state "CANCEL" ES_CANCELLED at_
    (commit state (execution_commit state ES_CANCELLED EV_CANCELLED EXECUTION_CORE
       (default "execution cancelled" reason) at_
       (move_orders state OS_CANCELLED at_) (Some (close_if_open (st_position state) at_))
       (failure_of FR_CANCELLED (default "cancelled" reason) at_ false))).

(** case "REJECT" *)
Definition reduceReject (state : ExecutionState) (reason : option string) (at_ : number) :
    ExecutionResult :=
  move state "REJECT" ES_REJECTED at_
    (commit state (execution_commit state ES_REJECTED EV_REJECTED EXECUTION_CORE
       (default "execution rejected" reason) at_ (move_orders state OS_REJECTED at_) None
       (failure_of FR_REJECTED (default "rejected" reason) at_ true))).

(** case "EXPIRE" *)
Definition reduceExpire (state : ExecutionState) (at_ : number) : ExecutionResult :=
  move state "EXPIRE" ES_EXPIRED at_
    (commit state (execution_commit state ES_EXPIRED EV_EXPIRED EXECUTION_CORE
       "execution expired" at_ (move_orders state OS_EXPIRED at_) None
       (failure_of FR_EXPIRED "expired" at_ false))).

(** case "FAIL" *)
Definition reduceFail (state : ExecutionState) (reason : option string) (at_ : number) :
    ExecutionResult :=
  move state "FAIL" ES_FAILED at_
    (commit state (execution_commit state ES_FAILED EV_FAILED EXECUTION_CORE
       (default "execution failed" reason) at_ (move_orders state OS_FAILED at_) None
       (failure_of FR_FAILED (default "failed" reason) at_ true))).

Definition reduceExecution (state : ExecutionState) (command : ExecutionCommand) :
    ExecutionResult :=
  let at_ := cmd_at command in
  if isTerminal (st_status state) && negb (isKill command) then
    illegal state (terminal_message state) at_
  else
  match command with
  | KILL _ => reduceKill state at_
  | CMD_RUNTIME_UNHEALTHY _ => reduceUnhealthy state at_
  | PLAN _ => reducePlan state at_
  | ARM _ => reduceArm state at_
  | SUBMIT _ => reduceSubmit state at_
  | ACKNOWLEDGE _ => reduceAcknowledge state at_
  | FILL _ oid price quantity => reduceFill state oid price quantity at_
  | OPEN _ => reduceOpen state at_
  | REDUCE _ quantity _ => reduceReduce state quantity at_
  | CLOSE _ _ => reduceClose state at_
  | CANCEL _ reason => reduceCancel state reason at_
  | REJECT _ reason => reduceReject state reason at_
  | EXPIRE _ => reduceExpire state at_
  | FAIL _ reason => reduceFail state reason at_
  end.

(** [reduceSequence]: fold the commands, stop at the first rejection. *)
Fixpoint reduce_from (cur : ExecutionResult) (commands : list ExecutionCommand) :
    ExecutionResult :=
  match commands with
  | [] => cur
  | command :: rest =>
      let cur := reduceExecution (er_state cur) command in
      if negb (er_ok cur) then cur else reduce_from cur rest
  end.

Definition reduceSequence (state : ExecutionState) (commands : list ExecutionCommand) :
    ExecutionResult :=
  reduce_from {| er_ok := true; er_state := state; er_event := None;
                 er_failure := st_failure state |} commands.

(** ** execution.ts *)

Record CreateExecutionResult := {
  ce_ok : bool;
  ce_state : option ExecutionState;
  ce_failure : option ExecutionFailure
}.

Definition createExecution (input : ExecutionInput) : CreateExecutionResult :=
  let failed reason :=
    {| ce_ok := false; ce_state := None;
       ce_failure := Some {| fl_reason := reason;
         fl_message := "cannot create execution: " +:+ showReason reason;
         fl_at := ei_now input; fl_fatal := true |} |} in
  match validateInput input, ei_decision input, ei_plan input with
  | Some reason, _, _ => failed reason
  | None, Some decision, Some plan =>
      let intent := buildExecutionIntent decision plan (ei_now input)
        (Some (default SIMULATION (ei_mode input))) (Some (default UNSET (ei_venue input))) in
      let planned := reduceExecution
        (initExecutionState intent (Some (buildExecutionPlan intent))) (PLAN (ei_now input)) in
      let result :=
        if ei_killEngaged input then reduceExecution (er_state planned) (KILL (ei_now input))
        else if negb (ei_runtimeHealthy input)
        then reduceExecution (er_state planned) (CMD_RUNTIME_UNHEALTHY (ei_now input))
        else planned in
      {| ce_ok := er_ok result; ce_state := Some (er_state result);
         ce_failure := st_failure (er_state result) |}
  | None, _, _ => failed VALIDATION_FAILED
  end.

Definition advanceExecution (state : ExecutionState) (command : ExecutionCommand) :
    ExecutionResult :=
  reduceExecution state command.
