(* ===== verification/ExecFacts.v ===== *)
(** * ExecFacts: theory of the execution reducer

    [committed] collects the ways a step can change the state, and the invariants
    of every reachable execution are proved over it; [executes] is the
    specification of a step, one rule per command with the statuses it is served
    in and its whole outcome, written without the transition table, and the
    reducer accepts exactly the commands it has a rule for. *)

From S2P Require Import Prelude JsNumber JsNumberFacts Served.
From S2P Require Import ExecTypes ExecOrders ExecPositions ExecIntent ExecState.

Local Open Scope string_scope.
Local Open Scope list_scope.

(** ** Specification of a step *)

(** Statuses a command can put an execution in by moving its orders alone. *)
Definition order_move (to : ExecutionStatus) : option OrderStatus :=
  match to with
  | ES_READY => Some OS_READY
  | ES_SUBMITTED => Some OS_SUBMITTED
  | ES_ACKNOWLEDGED => Some OS_ACKNOWLEDGED
  | ES_REJECTED => Some OS_REJECTED
  | ES_EXPIRED => Some OS_EXPIRED
  | ES_FAILED => Some OS_FAILED
  | ES_CANCELLED => Some OS_CANCELLED
  | _ => None
  end.

Definition replace_order (o filled : ExecutionOrder) (os : list ExecutionOrder) :=
  (fun x => if bool_decide (o_orderId x = o_orderId o) then filled else x) <$> os.

Definition the_fill (st : ExecutionState) (o : ExecutionOrder) (p q at_ : number) :=
  makeFill o (nextFillSeq (st_fills st) (o_orderId o)) p q
    (o_filledQuantity (applyFillToOrder o p q at_)) at_.

(** The effect of an accepted command: which parts of the state it replaces. *)
Inductive committed (st : ExecutionState) : ExecutionCommand -> Commit -> Prop :=
| cm_plan cmd c :
    c_status c = ES_PLANNED ->
    c_orders c = None -> c_fills c = None -> c_position c = None ->
    committed st cmd c
| cm_orders cmd c to :
    order_move (c_status c) = Some to -> c_status c <> ES_CANCELLED ->
    (c_status c = ES_READY \/ c_status c = ES_SUBMITTED -> plan_submittable (st_plan st) = true) ->
    c_orders c = Some (terminateOrders (st_orders st) to (cmd_at cmd)) ->
    c_fills c = None -> c_position c = None ->
    committed st cmd c
| cm_cancel cmd c :
    c_status c = ES_CANCELLED ->
    c_orders c = Some (terminateOrders (st_orders st) OS_CANCELLED (cmd_at cmd)) ->
    c_fills c = None ->
    c_position c = Some (close_if_open (st_position st) (cmd_at cmd)) ->
    committed st cmd c
| cm_entry_fill at_ oid p q o c :
    find_order oid (st_orders st) = Some o -> o_role o = ENTRY ->
    nle q (nint 0) = false -> isFinite p = true ->
    c_status c = (if bool_decide (o_status (applyFillToOrder o p q at_) = OS_FILLED)
                  then ES_FILLED else ES_PARTIALLY_FILLED) ->
    c_orders c = Some (replace_order o (applyFillToOrder o p q at_) (st_orders st)) ->
    c_fills c = Some (st_fills st ++ [the_fill st o p q at_]) ->
    c_position c = None ->
    committed st (FILL at_ oid p q) c
| cm_protective_fill at_ oid p q o pos c :
    find_order oid (st_orders st) = Some o -> o_role o <> ENTRY ->
    nle q (nint 0) = false -> isFinite p = true ->
    st_position st = Some pos -> isOpenPosition pos = true ->
    c_status c = (if bool_decide (po_status (reducePosition pos q at_) = PS_CLOSED)
                  then ES_CLOSED else ES_REDUCING) ->
    c_orders c = Some (replace_order o (applyFillToOrder o p q at_) (st_orders st)) ->
    c_fills c = Some (st_fills st ++ [the_fill st o p q at_]) ->
    c_position c = Some (Some (reducePosition pos q at_)) ->
    committed st (FILL at_ oid p q) c
| cm_open at_ o c :
    find_entry (st_orders st) = Some o -> nle (o_filledQuantity o) (nint 0) = false ->
    c_status c = ES_OPEN -> c_orders c = None -> c_fills c = None ->
    c_position c = Some (Some (openPosition (st_intent st) (o_filledQuantity o)
                                 (o_avgFillPrice o) at_)) ->
    committed st (OPEN at_) c
| cm_reduce at_ q price pos c :
    st_position st = Some pos -> isOpenPosition pos = true ->
    c_status c = (if bool_decide (po_status (reducePosition pos q at_) = PS_CLOSED)
                  then ES_CLOSED else ES_REDUCING) ->
    c_orders c = None -> c_fills c = None ->
    c_position c = Some (Some (reducePosition pos q at_)) ->
    committed st (REDUCE at_ q price) c
| cm_close at_ price c :
    c_status c = ES_CLOSED ->
    c_orders c = Some (terminateOrders (st_orders st) OS_CANCELLED at_) ->
    c_fills c = None ->
    c_position c = Some ((fun p => closePosition p at_) <$> st_position st) ->
    committed st (CLOSE at_ price) c.

(** A rejected command leaves the state as it is and appends nothing. *)
Definition rejected (st : ExecutionState) (r : ExecutionResult) : Prop :=
  er_ok r = false /\ er_state r = st /\ er_event r = None /\ is_Some (er_failure r).

Definition accepted (st : ExecutionState) (cmd : ExecutionCommand) (r : ExecutionResult) : Prop :=
  exists c, r = commit st c /\ canTransition (st_status st) (c_status c) = true /\
    c_at c = cmd_at cmd /\ committed st cmd c.

Lemma nonterminal_exits s :
  isTerminal s = false -> canTransition s ES_CANCELLED = true /\ canTransition s ES_FAILED = true.
Proof. by destruct s. Qed.

Lemma reject_rejected st r m a : rejected st (reject st r m a).
Proof. repeat split. by eexists. Qed.

#[local] Hint Resolve reject_rejected : core.

Ltac accept :=
  match goal with |- context [commit ?s ?c] => exists c end;
  split; [reflexivity|]; split; [|split; [reflexivity|]]; [done|].

Lemma reduceFill_cases st at_ oid p q :
  rejected st (reduceFill st oid p q at_) \/
  accepted st (FILL at_ oid p q) (reduceFill st oid p q at_).
Proof.
  unfold reduceFill, illegal.
  destruct (find_order oid (st_orders st)) as [o|] eqn:Ho; [|by left].
  destruct (nle q (nint 0) || negb (isFinite p)) eqn:Hg; [by left|].
  bool_hyps. destruct (bool_decide (o_role o = ENTRY)) eqn:Hr; bool_hyps.
  - set (t := if bool_decide _ then ES_FILLED else ES_PARTIALLY_FILLED).
    destruct (canTransition (st_status st) t) eqn:Ht; simpl; [right|by left].
    accept. by eapply cm_entry_fill.
  - destruct (st_position st) as [pos|] eqn:Hp; [|by left].
    destruct (isOpenPosition pos) eqn:Hop; simpl; [|by left].
    set (t := if bool_decide _ then ES_CLOSED else ES_REDUCING).
    destruct (canTransition (st_status st) t) eqn:Ht; simpl; [right|by left].
    accept. by eapply cm_protective_fill.
Qed.

(** The reducer implements the specification: every command is either rejected
    with the state unchanged or commits one legal transition. *)
Lemma reduceExecution_cases st cmd :
  rejected st (reduceExecution st cmd) \/ accepted st cmd (reduceExecution st cmd).
Proof.
  unfold reduceExecution, illegal.
  destruct (isTerminal (st_status st)) eqn:HT; [destruct (isKill cmd) eqn:HK|];
    simpl; [destruct cmd; try done; left; simpl; unfold reduceKill, illegal; by rewrite HT|by left|].
  destruct (nonterminal_exits _ HT) as [HC HF].
  destruct cmd; simpl;
    unfold reducePlan, reduceArm, reduceSubmit, reduceAcknowledge, reduceOpen, reduceReduce,
      reduceClose, reduceCancel, reduceReject, reduceExpire, reduceFail, reduceKill,
      reduceUnhealthy, move, move_orders, illegal;
    rewrite ?HT, ?HC, ?HF; simpl;
    try match goal with
    | |- context [canTransition ?s ?t] => destruct (canTransition s t) eqn:Ht; simpl; [|by left]
    end.
  - destruct (st_plan st) eqn:Hp; [right|by left]. accept. by eapply cm_plan.
  - destruct (plan_submittable (st_plan st)) eqn:Hp; simpl; [right|by left].
    accept. by eapply cm_orders.
  - destruct (plan_submittable (st_plan st)) eqn:Hp; simpl; [right|by left].
    accept. by eapply cm_orders.
  - right. accept. eapply cm_orders; try done. by intros [?|?].
  - apply reduceFill_cases.
  - destruct (find_entry (st_orders st)) as [o|] eqn:Ho; [|by left].
    destruct (nle _ _) eqn:Hn; [by left|right]. accept. by eapply cm_open.
  - destruct (st_position st) as [pos|] eqn:Hp; [|by left].
    destruct (isOpenPosition pos) eqn:Hop; simpl; [right|by left].
    eexists. split; [reflexivity|]. split; [|split; [reflexivity|by eapply cm_reduce]].
    simpl. case_bool_decide; [|done]. revert Ht. by destruct (st_status st).
  - right. accept. by eapply cm_close.
  - right. accept. by eapply cm_cancel.
  - right. accept. eapply cm_orders; try done. by intros [?|?].
  - right. accept. eapply cm_orders; try done. by intros [?|?].
  - right. accept. eapply cm_orders; try done. by intros [?|?].
  - right. accept. by eapply cm_cancel.
  - right. accept. eapply cm_orders; try done. by intros [?|?].
Qed.

(** ** The audit trail *)

(** Consecutive statuses of a history are legal transitions. *)
Definition legal_path (h : list ExecutionStatus) : Prop :=
  forall k a b, h !! k = Some a -> h !! S k = Some b -> canTransition a b = true.

(** Event k records the k-th transition of the history. *)
Definition records (st : ExecutionState) (k : nat) (e : ExecutionEvent) : Prop :=
  ev_seq e = S k /\ ev_intentId e = st_intentId st /\
  ev_eventId e = eventId (st_intentId st) (S k) /\
  ev_previousStatus e = showStatus <$> lc_history (st_lifecycle st) !! k /\
  ev_newStatus e = showStatus <$> lc_history (st_lifecycle st) !! S k.

Record trail_ok (st : ExecutionState) : Prop := {
  tr_current : lc_current (st_lifecycle st) = st_status st;
  tr_terminal : lc_terminal (st_lifecycle st) = isTerminal (st_status st);
  tr_last : last (lc_history (st_lifecycle st)) = Some (st_status st);
  tr_head : head (lc_history (st_lifecycle st)) = Some ES_NOT_CREATED;
  tr_path : legal_path (lc_history (st_lifecycle st));
  tr_intent : au_intentId (st_audit st) = st_intentId st;
  tr_count : au_count (st_audit st) = length (au_events (st_audit st));
  tr_seq : st_seq st = length (au_events (st_audit st));
  tr_length : length (lc_history (st_lifecycle st)) = S (st_seq st);
  tr_events : forall k e, au_events (st_audit st) !! k = Some e -> records st k e
}.

Lemma init_trail_ok i p : trail_ok (initExecutionState i p).
Proof. by split. Qed.

Lemma legal_path_snoc h a b :
  legal_path h -> last h = Some a -> canTransition a b = true -> legal_path (h ++ [b]).
Proof.
  intros Hp Hl Hc k x y Hx Hy.
  apply lookup_app_Some in Hy as [Hy|[Hy Hz]].
  - apply (Hp k); [|done]. rewrite lookup_app_l in Hx; [done|].
    apply lookup_lt_Some in Hy. lia.
  - apply list_lookup_singleton_Some in Hz as [Hz <-].
    rewrite last_lookup in Hl. rewrite lookup_app_l in Hx.
    + replace k with (Nat.pred (length h)) in Hx by lia. congruence.
    + destruct h; [done|]. simpl in *. lia.
Qed.

Lemma commit_trail_ok st c :
  canTransition (st_status st) (c_status c) = true ->
  trail_ok st -> trail_ok (er_state (commit st c)).
Proof.
  intros Hc [Hcur Hterm Hlast Hhead Hpath Hint Hcount Hseq Hlen Hev].
  assert (lc_history (st_lifecycle st) !! st_seq st = Some (st_status st)) as Hk.
  { rewrite last_lookup in Hlast. by rewrite Hlen in Hlast. }
  assert (0 < length (lc_history (st_lifecycle st))) as Hpos by lia.
  split; simpl; try done.
  - by rewrite last_snoc.
  - destruct (lc_history (st_lifecycle st)); [simpl in *; lia|done].
  - by eapply legal_path_snoc.
  - by rewrite length_app, <- Hseq, Nat.add_comm.
  - by rewrite length_app, Hlen, Nat.add_comm.
  - intros k e [He|[Hl He]]%lookup_app_Some.
    + destruct (Hev k e He) as (E1 & E2 & E3 & E4 & E5).
      apply lookup_lt_Some in He. unfold records. simpl.
      rewrite !lookup_app_l by lia. done.
    + apply list_lookup_singleton_Some in He as [Hz <-].
      replace k with (st_seq st) by lia. unfold records, commit_event. simpl.
      rewrite lookup_app_l, Hk by lia. rewrite lookup_app_r by lia.
      rewrite Hlen, Nat.sub_diag. done.
Qed.

(** Event k records the k-th legal transition of the history. *)
Lemma trail_event st k e :
  trail_ok st -> au_events (st_audit st) !! k = Some e ->
  exists a b, lc_history (st_lifecycle st) !! k = Some a /\
    lc_history (st_lifecycle st) !! S k = Some b /\ canTransition a b = true /\
    ev_previousStatus e = Some (showStatus a) /\ ev_newStatus e = Some (showStatus b).
Proof.
  intros [_ _ _ _ Hp _ _ Hseq Hlen Hev] He.
  destruct (Hev k e He) as (_ & _ & _ & E4 & E5). apply lookup_lt_Some in He.
  destruct (lookup_lt_is_Some_2 (lc_history (st_lifecycle st)) k) as [a Ha]; [lia|].
  destruct (lookup_lt_is_Some_2 (lc_history (st_lifecycle st)) (S k)) as [b Hb]; [lia|].
  rewrite Ha in E4. rewrite Hb in E5. exists a, b. do 2 (split; [done|]).
  split; [by eapply Hp|done].
Qed.

(** ** Orders *)

(** Orders only progress: same identity, same size and price. *)
Lemma terminateOrders_same os to at_ : Forall2 same_order os (terminateOrders os to at_).
Proof. apply Forall2_fmap_r_self. intros. apply transitionOrder_same. Qed.

Lemma find_order_spec oid os o :
  find_order oid os = Some o -> o ∈ os /\ o_orderId o = oid.
Proof. intros [H E]%find_Some_elem. by bool_hyps. Qed.

Lemma find_entry_spec os o : find_entry os = Some o -> o ∈ os /\ o_role o = ENTRY.
Proof. intros [H E]%find_Some_elem. by bool_hyps. Qed.

Lemma NoDup_order_inj os o x :
  NoDup (o_orderId <$> os) -> o ∈ os -> x ∈ os -> o_orderId x = o_orderId o -> x = o.
Proof.
  intros Hn (j & Hj)%list_elem_of_lookup (k & Hk)%list_elem_of_lookup E.
  assert (j = k) as ->; [|congruence].
  eapply (NoDup_lookup _ _ _ (o_orderId o) Hn); rewrite list_lookup_fmap.
  - by rewrite Hj.
  - rewrite Hk. simpl. by rewrite E.
Qed.

Lemma replace_order_same os o p q at_ :
  NoDup (o_orderId <$> os) -> o ∈ os ->
  Forall2 same_order os (replace_order o (applyFillToOrder o p q at_) os).
Proof.
  intros Hn Ho. apply Forall2_fmap_r_self. intros x Hx. case_bool_decide; [|done].
  rewrite (NoDup_order_inj os o x) by done. apply applyFillToOrder_same.
Qed.

Lemma same_orders_ids os os' :
  Forall2 same_order os os' -> o_orderId <$> os' = o_orderId <$> os.
Proof.
  induction 1 as [|? ? ? ? (? & _) ? IH]; [done|]. simpl. by f_equal.
Qed.

(** The commands of a well-formed run carry canonical Numbers. *)
Definition cmd_wf (cmd : ExecutionCommand) : Prop :=
  match cmd with
  | FILL _ _ _ q | REDUCE _ q _ => wf_number q
  | _ => True
  end.

(** ... and, to keep the fill accounting, no fill of quantity NaN. *)
Definition cmd_ok (cmd : ExecutionCommand) : Prop :=
  cmd_wf cmd /\ match cmd with FILL _ _ _ q => isNaN q = false | _ => True end.

(** How a committed step changes one order. *)
Inductive order_step (cmd : ExecutionCommand) : ExecutionOrder -> ExecutionOrder -> Prop :=
| os_same o : order_step cmd o o
| os_move o to at_ : to <> OS_FILLED -> order_step cmd o (transitionOrder o to at_ None)
| os_fill o at_ oid p q :
    cmd = FILL at_ oid p q -> order_step cmd o (applyFillToOrder o p q at_).

Lemma order_step_same cmd o o' : order_step cmd o o' -> same_order o o'.
Proof.
  intros []; [done|apply transitionOrder_same|apply applyFillToOrder_same].
Qed.

Lemma order_move_not_filled s to : order_move s = Some to -> to <> OS_FILLED.
Proof. by destruct s; intros [= <-]. Qed.

Lemma committed_orders st cmd c :
  NoDup (o_orderId <$> st_orders st) -> committed st cmd c ->
  Forall2 (order_step cmd) (st_orders st) (default (st_orders st) (c_orders c)).
Proof.
  intros Hn Hc.
  assert (Forall2 (order_step cmd) (st_orders st) (st_orders st)) as Hrefl.
  { apply Forall_Forall2_diag, Forall_forall. constructor. }
  assert (forall to at_, to <> OS_FILLED ->
    Forall2 (order_step cmd) (st_orders st) (terminateOrders (st_orders st) to at_)) as Hterm.
  { intros to at_ Hto. apply Forall2_fmap_r_self. intros. by constructor. }
  assert (forall oid o p q at_, cmd = FILL at_ oid p q -> find_order oid (st_orders st) = Some o ->
    Forall2 (order_step cmd) (st_orders st)
      (replace_order o (applyFillToOrder o p q at_) (st_orders st))) as Hfill.
  { intros oid o p q at_ -> Ho. apply find_order_spec in Ho as [Ho _].
    apply Forall2_fmap_r_self. intros x Hx. case_bool_decide as E; [|constructor].
    rewrite (NoDup_order_inj (st_orders st) o x) by done. by econstructor. }
  destruct Hc; repeat match goal with H : c_orders _ = _ |- _ => rewrite H end; simpl;
    eauto using order_move_not_filled.
Qed.

Lemma order_step_ok cmd o o' : cmd_wf cmd -> order_step cmd o o' -> order_ok o -> order_ok o'.
Proof.
  intros Hw []; [done|apply transitionOrder_ok|]. subst. by apply applyFillToOrder_ok.
Qed.

Lemma order_step_bounded cmd o o' q :
  cmd_ok cmd -> order_step cmd o o' -> order_ok o -> order_bounded o q -> order_bounded o' q.
Proof.
  intros [_ Hw] []; [done|intros _; by apply transitionOrder_bounded|]. subst.
  intros. by apply applyFillToOrder_bounded.
Qed.

(** ** Positions *)

(** The position status an execution status goes with. *)
Definition position_fits (s : ExecutionStatus) (p : ExecutionPosition) : Prop :=
  match s with
  | ES_OPEN => po_status p = PS_OPEN
  | ES_REDUCING => po_status p = PS_REDUCING
  | ES_CLOSED => po_status p = PS_CLOSED
  | ES_CANCELLED => po_status p = PS_NONE \/ po_status p = PS_CLOSED
  | ES_FAILED => True
  | _ => po_status p = PS_NONE
  end.

(** Identity, direction and protective levels are those of the intent. *)
Definition position_of (i : ExecutionIntent) (p : ExecutionPosition) : Prop :=
  po_positionId p = positionId (in_intentId i) /\ po_intentId p = in_intentId i /\
  po_direction p = in_direction i /\ po_stop p = in_stop i /\ po_targets p = in_targets i.

Record position_inv (i : ExecutionIntent) (s : ExecutionStatus) (p : ExecutionPosition) : Prop := {
  pi_ok : position_ok p;
  pi_of : position_of i p;
  pi_fits : position_fits s p
}.

(** Any position whose status goes with some execution status is not OPENING. *)
Lemma fits_not_opening s p : s <> ES_FAILED -> position_fits s p -> po_status p <> PS_OPENING.
Proof. destruct s; simpl; try congruence; intros _ []; congruence. Qed.

Lemma openPosition_open i o avg at_ :
  order_ok o -> nle (o_filledQuantity o) (nint 0) = false ->
  po_status (openPosition i (o_filledQuantity o) avg at_) = PS_OPEN.
Proof.
  intros [Wf Ff Gf _ _] Hn. rewrite nle_sv, sv_nint0 in Hn by done.
  apply Z.leb_gt in Hn. simpl. unfold ngt.
  assert (isFinite (round (o_filledQuantity o) 8) = true) as Fr by (by apply round_finite).
  rewrite nlt_sv, nmax_sv, Gf, sv_nint0 by (try done; by apply nmax_finite).
  by destruct (Z.ltb_spec 0 (Z.max 0 (sv (o_filledQuantity o)))); [|lia].
Qed.

Lemma reducePosition_status p q at_ :
  po_status (reducePosition p q at_) = PS_CLOSED \/ po_status (reducePosition p q at_) = PS_REDUCING.
Proof. simpl. case_match; auto. Qed.

Lemma reduced_fits p q at_ s :
  s = (if bool_decide (po_status (reducePosition p q at_) = PS_CLOSED) then ES_CLOSED else ES_REDUCING) ->
  position_fits s (reducePosition p q at_).
Proof.
  intros ->. destruct (reducePosition_status p q at_) as [E|E]; rewrite E; done.
Qed.

Lemma close_if_open_inv i s p at_ :
  canTransition s ES_CANCELLED = true -> position_inv i s p ->
  exists p', close_if_open (Some p) at_ = Some p' /\ position_inv i ES_CANCELLED p'.
Proof.
  intros Hc [Hok Hof Hfit]. unfold close_if_open. destruct (isOpenPosition p) eqn:E.
  - eexists. split; [done|]. split; [by apply closePosition_ok|done|by right].
  - eexists. split; [done|]. split; [done|done|].
    unfold isOpenPosition in E. bool_hyps. by destruct s; simpl in *; auto.
Qed.

(** A step that keeps the position keeps it in agreement. *)
Lemma position_fits_keep s s' p :
  canTransition s s' = true -> (exists to, order_move s' = Some to) /\ s' <> ES_CANCELLED \/
    s' = ES_PLANNED \/ s' = ES_PARTIALLY_FILLED \/ s' = ES_FILLED ->
  position_fits s p -> position_fits s' p.
Proof.
  intros Hc Hs Hf. destruct s; destruct s'; try done; simpl in *;
    destruct Hs as [[[? ?] ?]|[?|[?|?]]]; done.
Qed.

Lemma committed_position i st cmd c p :
  cmd_wf cmd -> Forall order_ok (st_orders st) -> st_intent st = i ->
  canTransition (st_status st) (c_status c) = true ->
  committed st cmd c -> st_position st = Some p -> position_inv i (st_status st) p ->
  exists p', default (st_position st) (c_position c) = Some p' /\ position_inv i (c_status c) p'.
Proof.
  intros Hw Ho Hi Ht Hc Hp Hinv.
  destruct Hc as [? ? Hs _ _ Hpos|? ? to Hs Hn _ _ _ Hpos|? ? Hs _ _ Hpos
    |at_ oid pr q o ? Hfo _ Hq _ Hs _ _ Hpos|at_ oid pr q o pos ? Hfo _ Hq _ Hpp Hop Hs _ _ Hpos
    |at_ o ? Hfo Hq Hs _ _ Hpos|at_ q pr pos ? Hpp Hop Hs _ _ Hpos|at_ pr ? Hs _ _ Hpos];
    rewrite Hpos; simpl; rewrite ?Hp.
  - exists p. split; [done|]. destruct Hinv. split; [done..|].
    eapply position_fits_keep; eauto.
  - exists p. split; [done|]. destruct Hinv. split; [done..|].
    eapply position_fits_keep; eauto.
  - rewrite Hs in *. by eapply close_if_open_inv.
  - exists p. split; [done|]. destruct Hinv. split; [done..|].
    eapply position_fits_keep; [done| |done]. rewrite Hs. case_bool_decide; auto.
  - assert (pos = p) as -> by congruence. eexists. split; [done|]. destruct Hinv.
    split; [by apply reducePosition_ok|done|by apply reduced_fits].
  - eexists. split; [done|]. apply find_entry_spec in Hfo as [Hin _].
    rewrite Forall_forall in Ho. pose proof (Ho o Hin) as Hok.
    split; [apply openPosition_ok; apply Hok|by rewrite Hi|].
    rewrite Hs. by apply openPosition_open.
  - assert (pos = p) as -> by congruence. eexists. split; [done|]. destruct Hinv.
    split; [by apply reducePosition_ok|done|by apply reduced_fits].
  - eexists. split; [done|]. destruct Hinv.
    split; [by apply closePosition_ok|done|by rewrite Hs].
Qed.

(** ** The invariant of an execution *)

(** Statuses behind the submit gate. *)
Definition past_gate (s : ExecutionStatus) : bool :=
  bool_decide (s ∈ [ES_READY; ES_SUBMITTED; ES_ACKNOWLEDGED; ES_PARTIALLY_FILLED;
                    ES_FILLED; ES_OPEN; ES_REDUCING; ES_CLOSED]).

Lemma past_gate_step s s' :
  canTransition s s' = true -> past_gate s' = true ->
  past_gate s = true \/ s' = ES_READY.
Proof. by destruct s; destruct s'; try done; auto. Qed.

Record exec_inv (i : ExecutionIntent) (st : ExecutionState) : Prop := {
  xi_intent : st_intent st = i;
  xi_intentId : st_intentId st = in_intentId i;
  xi_plan : st_plan st = Some (buildExecutionPlan i);
  xi_trail : trail_ok st;
  xi_same : Forall2 same_order (pl_orders (buildExecutionPlan i)) (st_orders st);
  xi_orders : Forall order_ok (st_orders st);
  xi_gate : Exists past_gate (lc_history (st_lifecycle st)) -> submit_ready i;
  xi_fills : fills_numbered (st_fills st);
  xi_fill_orders :
    Forall (fun f => f_orderId f ∈ o_orderId <$> pl_orders (buildExecutionPlan i)) (st_fills st);
  xi_position : exists p, st_position st = Some p /\ position_inv i (st_status st) p
}.

Lemma exec_inv_ids i st : exec_inv i st -> NoDup (o_orderId <$> st_orders st).
Proof.
  intros []. rewrite (same_orders_ids (pl_orders (buildExecutionPlan i))) by done.
  apply planOrders_ids_NoDup.
Qed.

Lemma plan_submittable_ready i :
  plan_submittable (Some (buildExecutionPlan i)) = true -> submit_ready i.
Proof. simpl. intros H. bool_hyps. by apply checkSubmittable_None. Qed.

Lemma committed_fills st cmd c :
  committed st cmd c ->
  fills_numbered (st_fills st) -> fills_numbered (default (st_fills st) (c_fills c)).
Proof.
  intros [] Hf; repeat match goal with H : c_fills _ = _ |- _ => rewrite H end; simpl;
    try done; by apply fills_numbered_snoc.
Qed.

Lemma committed_fill_orders st cmd c (oids : list string) :
  committed st cmd c -> o_orderId <$> st_orders st = oids ->
  Forall (fun f => f_orderId f ∈ oids) (st_fills st) ->
  Forall (fun f => f_orderId f ∈ oids) (default (st_fills st) (c_fills c)).
Proof.
  intros [] <- Hf; repeat match goal with H : c_fills _ = _ |- _ => rewrite H end; simpl;
    try done; apply Forall_app; (split; [done|]); apply Forall_singleton;
    match goal with H : find_order _ _ = Some _ |- _ => apply find_order_spec in H as [? _] end;
    by apply (list_elem_of_fmap_2 o_orderId).
Qed.

Lemma committed_gate i st cmd c :
  exec_inv i st -> canTransition (st_status st) (c_status c) = true -> committed st cmd c ->
  past_gate (c_status c) = true -> submit_ready i.
Proof.
  intros Hinv Ht Hc Hg. destruct (past_gate_step _ _ Ht Hg) as [Hs|Hs].
  - apply (xi_gate _ _ Hinv), Exists_exists. exists (st_status st). split; [|by rewrite Hs].
    destruct (xi_trail _ _ Hinv) as [_ _ Hl _ _ _ _ _ _ _].
    by apply last_Some_elem_of.
  - destruct Hc as [|? ? ? ? ? Hsub| | | | | |]; rewrite Hs in *; try done;
      repeat case_bool_decide; try done.
    apply plan_submittable_ready. rewrite <- (xi_plan _ _ Hinv). auto.
Qed.

Lemma commit_inv i st cmd c :
  exec_inv i st -> cmd_wf cmd -> canTransition (st_status st) (c_status c) = true ->
  committed st cmd c -> exec_inv i (er_state (commit st c)).
Proof.
  intros Hinv Hw Ht Hc. pose proof (exec_inv_ids _ _ Hinv) as Hn.
  pose proof (committed_orders st cmd c Hn Hc) as Hstep.
  pose proof Hinv as [Hi Hid Hp Htr Hsame Hok Hg Hf Hfo (p & Hpos & Hpi)].
  split; simpl; try done.
  - by apply commit_trail_ok.
  - eapply Forall2_trans_rel; [apply _|done|]. eapply Forall2_impl; [done|].
    intros; by eapply order_step_same.
  - eapply Forall2_Forall_r; [done|]. eapply Forall_impl; [done|].
    intros o Ho o' Hs. by eapply order_step_ok.
  - rewrite Exists_app. intros [H|H%Exists_cons]; [by apply Hg|].
    destruct H as [H|H%Exists_nil]; [|done]. eapply committed_gate; eauto.
    by apply Is_true_true.
  - by eapply committed_fills.
  - exact (committed_fill_orders st cmd c _ Hc (same_orders_ids _ _ Hsame) Hfo).
  - by eapply committed_position.
Qed.

(** The position size of an intent is a canonical Number. *)
Definition intent_wf (i : ExecutionIntent) : Prop :=
  forall v, in_positionSize i = Some v -> wf_number v.

Lemma init_inv i :
  intent_wf i -> exec_inv i (initExecutionState i (Some (buildExecutionPlan i))).
Proof.
  intros Hw. split; try done.
  - by apply planOrders_ok.
  - simpl. rewrite Exists_cons, Exists_nil. by intros [].
  - eexists. split; [done|]. split; [apply emptyPosition_ok|done|done].
Qed.

Lemma reduceExecution_inv i st cmd :
  exec_inv i st -> cmd_wf cmd -> exec_inv i (er_state (reduceExecution st cmd)).
Proof.
  intros Hinv Hw. destruct (reduceExecution_cases st cmd) as [(_ & -> & _)|(c & -> & Ht & _ & Hc)];
    [done|by eapply commit_inv].
Qed.

(** The machine: states and commands. *)
Definition exec_step (st : ExecutionState) (cmd : ExecutionCommand) : ExecutionState :=
  er_state (reduceExecution st cmd).

Definition exec_init (i : ExecutionIntent) : ExecutionState :=
  initExecutionState i (Some (buildExecutionPlan i)).

Lemma reachable_inv i st :
  intent_wf i -> run exec_step cmd_wf (exec_init i) st -> exec_inv i st.
Proof.
  intros Hw. apply run_inv; [by apply init_inv|]. intros. by apply reduceExecution_inv.
Qed.

Lemma exec_inv_fill_ids i st : exec_inv i st -> NoDup (f_fillId <$> st_fills st).
Proof.
  intros []. eapply fills_numbered_NoDup; [done..|]. apply planOrders_fillIds.
Qed.

(** *** Fill accounting *)

Definition orders_bounded (st : ExecutionState) : Prop :=
  Forall (fun o => forall q, o_quantity o = Some q -> (0 <= sv q)%Z -> order_bounded o q)
    (st_orders st).

Lemma reduceExecution_bounded i st cmd :
  exec_inv i st -> cmd_ok cmd -> orders_bounded st ->
  orders_bounded (er_state (reduceExecution st cmd)).
Proof.
  intros Hinv Hw Hb. destruct (reduceExecution_cases st cmd) as [(_ & -> & _)|(c & -> & Ht & _ & Hc)];
    [done|].
  pose proof (committed_orders st cmd c (exec_inv_ids _ _ Hinv) Hc) as Hstep.
  pose proof (xi_orders _ _ Hinv) as Hok.
  eapply Forall2_Forall_r; [exact Hstep|].
  apply Forall_forall. intros o Ho o' Hs q Hq Pq.
  pose proof (order_step_same _ _ _ Hs) as (_ & _ & _ & _ & _ & Eq & _).
  rewrite Forall_forall in Hok. unfold orders_bounded in Hb. rewrite Forall_forall in Hb.
  eapply order_step_bounded; eauto. apply Hb; [done|congruence|done].
Qed.

Lemma reachable_bounded i st :
  intent_wf i -> run exec_step cmd_ok (exec_init i) st -> exec_inv i st /\ orders_bounded st.
Proof.
  intros Hw. apply (run_inv exec_step cmd_ok (fun st => exec_inv i st /\ orders_bounded st)).
  - split; [by apply init_inv|]. apply Forall_forall. intros o Ho q Hq Pq.
    destruct (planOrders_fresh i o Ho) as (Es & Ef & _).
    split; [done|done| |by rewrite Es]. rewrite Ef, sv_nint0. split; [done|].
    by apply round_nonneg.
  - intros s c [Hi Hb] Hc. split; [apply reduceExecution_inv; [done|apply Hc]|].
    by eapply reduceExecution_bounded.
Qed.

(** *** Terminal statuses and the kill switch *)

Lemma terminal_rejects st cmd :
  isTerminal (st_status st) = true -> rejected st (reduceExecution st cmd).
Proof.
  intros Ht. destruct (reduceExecution_cases st cmd) as [H|(c & _ & H & _)]; [done|].
  revert Ht H. by destruct (st_status st); destruct (c_status c).
Qed.

Definition kill_commit (st : ExecutionState) (at_ : number) : Commit :=
  execution_commit st ES_CANCELLED EV_KILLED SRC_KILL_SWITCH
    "kill switch engaged → immediate CANCELLED" at_
    (Some (terminateOrders (st_orders st) OS_CANCELLED at_))
    (Some (close_if_open (st_position st) at_))
    (failure_of KILL_SWITCH "kill switch engaged" at_ false).

Lemma reduce_kill st at_ :
  isTerminal (st_status st) = false ->
  reduceExecution st (KILL at_) = commit st (kill_commit st at_).
Proof. intros H. unfold reduceExecution, reduceKill. simpl. rewrite H. done. Qed.

(** Orders of an execution have all been created. *)
Definition orders_started (st : ExecutionState) : Prop :=
  Forall (fun o => o_status o <> OS_NOT_CREATED) (st_orders st).

Lemma canTransitionOrder_created s : canTransitionOrder s OS_NOT_CREATED = false.
Proof. by destruct s. Qed.

Lemma order_step_started cmd o o' :
  order_step cmd o o' -> o_status o <> OS_NOT_CREATED -> o_status o' <> OS_NOT_CREATED.
Proof.
  intros [] Hs; [done| |].
  - rewrite transitionOrder_status. destruct (canTransitionOrder _ _) eqn:E; [|done].
    intros ->. by rewrite canTransitionOrder_created in E.
  - simpl. repeat case_match; done.
Qed.

Lemma reachable_started i st :
  intent_wf i -> run exec_step cmd_wf (exec_init i) st -> orders_started st.
Proof.
  intros Hw Hr. cut (exec_inv i st /\ orders_started st); [by intros []|].
  revert st Hr. apply run_inv.
  - split; [by apply init_inv|]. apply Forall_forall. intros o Ho.
    destruct (planOrders_fresh i o Ho) as [-> _]. done.
  - intros st cmd [Hi Hs] Hc. split; [by apply reduceExecution_inv|]. unfold exec_step.
    destruct (reduceExecution_cases st cmd) as [(_ & -> & _)|(c & -> & _ & _ & Hcm)]; [done|].
    eapply Forall2_Forall_r; [by apply (committed_orders st cmd c (exec_inv_ids _ _ Hi))|].
    eapply Forall_impl; [exact Hs|]. intros o Ho o' Hst. by eapply order_step_started.
Qed.

Lemma cancelled_terminal st at_ :
  orders_started st ->
  Forall (fun o => ORDER_TRANSITIONS (o_status o) = [])
    (terminateOrders (st_orders st) OS_CANCELLED at_).
Proof.
  intros H. apply Forall_fmap. eapply Forall_impl; [exact H|].
  simpl. intros o Ho. rewrite transitionOrder_status. by destruct (o_status o).
Qed.

(** A cancelled or unopened execution has no exposure. *)
Lemma position_closed_flat i s p :
  position_inv i s p -> s = ES_CANCELLED -> isOpenPosition p = false /\ sv (po_quantity p) = 0%Z.
Proof.
  intros [Hok _ Hfit] ->. pose proof (remaining_le p Hok).
  destruct Hok as [He Hc Hle Hq Hst]. pose proof (remaining_quantity8 p He Hc Hle) as [_ _ Hr _].
  assert (sv (remaining p) = 0%Z) as Hz
    by (destruct Hfit as [E|E]; rewrite E in Hst; lia).
  split; [|by rewrite Hq, Hz, Z.mul_0_r].
  unfold isOpenPosition. by destruct Hfit as [E|E]; rewrite E.
Qed.

(** ** The road to an open position *)

(** The entry order of a plan in a given order status, not filled yet. *)
Definition fresh_entry (i : ExecutionIntent) (s : OrderStatus) (o : ExecutionOrder) : Prop :=
  o_orderId o = orderId (planId (in_intentId i)) "entry" 0 /\ o_role o = ENTRY /\
  o_status o = s /\ o_filledQuantity o = nint 0 /\ o_quantity o = num (in_positionSize i).

(** An execution before its first fill. *)
Record stage (i : ExecutionIntent) (s : ExecutionStatus) (os : OrderStatus)
    (st : ExecutionState) : Prop := {
  sg_status : st_status st = s;
  sg_plan : st_plan st = Some (buildExecutionPlan i);
  sg_intent : st_intent st = i;
  sg_entry : exists o rest, st_orders st = o :: rest /\ fresh_entry i os o
}.

Lemma stage_init i : stage i ES_NOT_CREATED OS_PLANNED (exec_init i).
Proof. split; try done. do 2 eexists. split; [reflexivity|]. done. Qed.

Lemma fresh_entry_move i s to at_ o :
  canTransitionOrder s to = true -> fresh_entry i s o ->
  fresh_entry i to (transitionOrder o to at_ None).
Proof.
  intros Ht (E1 & E2 & E3 & E4 & E5). unfold transitionOrder. rewrite E3, Ht. done.
Qed.

(** What the next command of the script does to a stage. *)
Definition advances (i : ExecutionIntent) (st : ExecutionState) (cmd : ExecutionCommand)
    (s : ExecutionStatus) (os : OrderStatus) : Prop :=
  er_ok (reduceExecution st cmd) = true /\ stage i s os (er_state (reduceExecution st cmd)).

Lemma stage_plan i st t :
  stage i ES_NOT_CREATED OS_PLANNED st -> advances i st (PLAN t) ES_PLANNED OS_PLANNED.
Proof.
  intros [Hs Hp Hi He]. unfold advances, reduceExecution, reducePlan, move. rewrite Hs, Hp. simpl.
  split; done.
Qed.

Lemma submit_ready_plan i : submit_ready i -> plan_submittable (Some (buildExecutionPlan i)) = true.
Proof. intros H. simpl. by apply bool_decide_true, checkSubmittable_None. Qed.

Lemma stage_orders i st s os st' s' to :
  stage i s os st -> canTransitionOrder os to = true -> st_status st' = s' ->
  (exists at_, st_orders st' = terminateOrders (st_orders st) to at_) ->
  st_plan st' = st_plan st -> st_intent st' = st_intent st -> stage i s' to st'.
Proof.
  intros [_ Hp Hi (o & rest & Ho & He)] Ht Es [at_ E] Ep Ei. split; [done|congruence|congruence|].
  exists (transitionOrder o to at_ None). eexists. split; [by rewrite E, Ho|].
  by eapply fresh_entry_move.
Qed.

Lemma stage_arm i st t :
  submit_ready i -> stage i ES_PLANNED OS_PLANNED st -> advances i st (ARM t) ES_READY OS_READY.
Proof.
  intros Hr Hst. pose proof Hst as [Hs Hp _ _].
  unfold advances, reduceExecution, reduceArm, move.
  rewrite Hs, Hp, (submit_ready_plan i Hr). split; [done|].
  eapply (stage_orders _ st); [done|done|done|by eexists|done|done].
Qed.

Lemma stage_submit i st t :
  submit_ready i -> stage i ES_READY OS_READY st -> advances i st (SUBMIT t) ES_SUBMITTED OS_SUBMITTED.
Proof.
  intros Hr Hst. pose proof Hst as [Hs Hp _ _].
  unfold advances, reduceExecution, reduceSubmit, move.
  rewrite Hs, Hp, (submit_ready_plan i Hr). split; [done|].
  eapply (stage_orders _ st); [done|done|done|by eexists|done|done].
Qed.

Lemma stage_ack i st t :
  stage i ES_SUBMITTED OS_SUBMITTED st ->
  advances i st (ACKNOWLEDGE t) ES_ACKNOWLEDGED OS_ACKNOWLEDGED.
Proof.
  intros Hst. pose proof Hst as [Hs Hp _ _].
  unfold advances, reduceExecution, reduceAcknowledge, move. rewrite Hs. split; [done|].
  eapply (stage_orders _ st); [done|done|done|by eexists|done|done].
Qed.

(** A fill of the whole size of a fresh order completes it. *)
Lemma full_fill q :
  wf_number q -> isFinite q = true -> (0 < sv q)%Z ->
  isFinite (newFilled q (nint 0) q) = true /\ sv (newFilled q (nint 0) q) = sv q.
Proof.
  intros Wq Fq Pq.
  destruct (newFilled_spec q (nint 0) q) as [Fn _]; try done; [by apply isFinite_notNaN|].
  split; [done|]. unfold newFilled.
  assert (sv (nmax (nint 0) q) = sv q) as Em by (rewrite nmax_sv, sv_nint0 by done; lia).
  assert (isFinite (nmax (nint 0) q) = true) as Fm by (by apply nmax_finite).
  assert (isFinite (nadd (nint 0) (nmax (nint 0) q)) = true) as Fa.
  { apply (nadd_finite _ _ q); try done. rewrite sv_nint0, Em. lia. }
  assert (sv (nadd (nint 0) (nmax (nint 0) q)) = sv q) as Ea.
  { rewrite nadd_sv, sv_nint0, Em, RS_nonneg by (done || lia).
    pose proof (wf_abs_repr q Wq Fq) as Hr. rewrite Z.abs_eq in Hr by lia.
    pose proof (RZ_repr (sv q) 1 Hr). rewrite Z.mul_1_r in *. auto with lia. }
  rewrite nmin_sv, Ea by done. lia.
Qed.

(** A filled entry order. *)
Definition filled_entry (q : number) (o : ExecutionOrder) : Prop :=
  o_role o = ENTRY /\ o_status o = OS_FILLED /\ isFinite (o_filledQuantity o) = true /\
  wf_number (o_filledQuantity o) /\ sv (o_filledQuantity o) = sv (round q 8).

Lemma stage_fill i st t p q :
  stage i ES_ACKNOWLEDGED OS_ACKNOWLEDGED st -> num (in_positionSize i) = Some q ->
  wf_number q -> (0 < sv q)%Z -> isFinite p = true ->
  let r := reduceExecution st (FILL t (orderId (planId (in_intentId i)) "entry" 0) p q) in
  er_ok r = true /\ st_status (er_state r) = ES_FILLED /\ st_intent (er_state r) = i /\
  exists o rest, st_orders (er_state r) = o :: rest /\ filled_entry q o.
Proof.
  intros [Hs Hp Hi (o & rest & Ho & E1 & E2 & E3 & E4 & E5)] Hq Wq Pq Fp.
  pose proof (num_finite _ _ Hq) as Fq. destruct (full_fill q Wq Fq Pq) as [Ff Ef].
  assert (o_status (applyFillToOrder o p q t) = OS_FILLED) as Est.
  { rewrite (applyFillToOrder_status o p q t q), E3, E4 by congruence.
    unfold nge. rewrite nle_sv, Ef, Z.leb_refl by done. done. }
  assert (filled_entry q (applyFillToOrder o p q t)) as Hfe.
  { assert (o_filledQuantity (applyFillToOrder o p q t) = round (newFilled q (nint 0) q) 8) as Efq.
    { rewrite (applyFillToOrder_filled o p q t q), E4 by congruence. done. }
    split; [done|split; [done|]]. rewrite Efq.
    split; [by apply round_finite|split; [by apply round_wf, newFilled_wf|]].
    by rewrite !round_sv, Ef by done. }
  intros r. subst r. unfold reduceExecution, reduceFill, find_order. rewrite Hs, Ho.
  cbn [List.find cmd_at]. rewrite bool_decide_true by done.
  remember (applyFillToOrder o p q t) as filled eqn:Hfd. simpl.
  rewrite nle_sv, sv_nint0, (proj2 (Z.leb_gt _ _)) by done. rewrite Fp. simpl.
  rewrite (bool_decide_true (o_role o = ENTRY)), (bool_decide_true (o_status _ = OS_FILLED)) by done.
  simpl. split; [done|split; [done|split; [done|]]]. do 2 eexists. split; [reflexivity|].
  by rewrite bool_decide_true.
Qed.

Lemma stage_open i st t q :
  st_status st = ES_FILLED -> st_intent st = i ->
  (exists o rest, st_orders st = o :: rest /\ filled_entry q o) -> (0 < sv (round q 8))%Z ->
  isFinite q = true ->
  let r := reduceExecution st (OPEN t) in
  er_ok r = true /\ st_status (er_state r) = ES_OPEN /\
  exists pos, st_position (er_state r) = Some pos /\
    sv (po_entryQuantity pos) = sv (round q 8) /\ po_closedQuantity pos = nint 0 /\
    po_stop pos = in_stop i /\ po_targets pos = in_targets i.
Proof.
  intros Hs Hi (o & rest & Ho & Hrole & _ & Ff & Wf & Ef) Pq Fq.
  simpl. unfold reduceExecution, reduceOpen, find_entry, move. rewrite Hs, Ho. simpl.
  rewrite bool_decide_true by done.
  rewrite nle_sv, sv_nint0, (proj2 (Z.leb_gt _ _)) by (done || lia). simpl.
  split; [done|split; [done|]]. eexists. split; [reflexivity|]. simpl. rewrite Hi.
  split; [|done]. rewrite nmax_sv, sv_nint0 by (done || by apply round_finite).
  rewrite (round_sv (o_filledQuantity o)), Ef, round_sv by done.
  rewrite RN_idem by lia. rewrite round_sv in Pq by done. lia.
Qed.

Lemma reduce_from_step cur cmd rest :
  er_ok (reduceExecution (er_state cur) cmd) = true ->
  reduce_from cur (cmd :: rest) = reduce_from (reduceExecution (er_state cur) cmd) rest.
Proof. intros H. simpl. by rewrite H. Qed.

(** *** Creation *)

Lemma reduce_plan_init i t :
  let st := er_state (reduceExecution (exec_init i) (PLAN t)) in
  er_ok (reduceExecution (exec_init i) (PLAN t)) = true /\ st_status st = ES_PLANNED /\
  st_failure st = None /\ st_intent st = i /\ st_plan st = Some (buildExecutionPlan i).
Proof.
  destruct (stage_plan i _ t (stage_init i)) as [Ho [Hs Hp Hi _]]. done.
Qed.

Lemma reduce_unhealthy st at_ :
  isTerminal (st_status st) = false ->
  reduceExecution st (CMD_RUNTIME_UNHEALTHY at_) = reduceUnhealthy st at_.
Proof. intros H. unfold reduceExecution. by rewrite H. Qed.

(** ** The step, command by command

    What each command does, written from the state diagram and not from the
    transition table: the statuses it is served in, what it asks of the state, and
    everything it replaces. *)

(** Where an order goes when the whole execution moves. *)
Definition order_leaves (from to : OrderStatus) : bool :=
  match to with
  | OS_READY => bool_decide (from = OS_PLANNED)
  | OS_SUBMITTED => bool_decide (from = OS_READY)
  | OS_ACKNOWLEDGED => bool_decide (from = OS_SUBMITTED)
  | OS_CANCELLED =>
      bool_decide (from ∈ [OS_PLANNED; OS_READY; OS_SUBMITTED; OS_ACKNOWLEDGED; OS_PARTIALLY_FILLED])
  | OS_REJECTED =>
      bool_decide (from ∈ [OS_NOT_CREATED; OS_PLANNED; OS_READY; OS_SUBMITTED; OS_ACKNOWLEDGED])
  | OS_EXPIRED => bool_decide (from ∈ [OS_PLANNED; OS_READY; OS_SUBMITTED; OS_ACKNOWLEDGED])
  | OS_FAILED =>
      bool_decide (from ∈ [OS_NOT_CREATED; OS_PLANNED; OS_READY; OS_SUBMITTED; OS_ACKNOWLEDGED;
                           OS_PARTIALLY_FILLED])
  | _ => false
  end.

(** All orders of an execution moved to a status, where they can go there. *)
Definition all_moved (to : OrderStatus) (at_ : number) (os : list ExecutionOrder) :
    list ExecutionOrder :=
  (fun o => if order_leaves (o_status o) to
            then order_update o to (o_filledQuantity o) (o_avgFillPrice o) at_
                   ("→ " +:+ showOrderStatus to)
            else o) <$> os.

(** The position once exposure is dropped: closed if it was open or reducing. *)
Definition flattened (position : option ExecutionPosition) (at_ : number) :
    option ExecutionPosition :=
  (fun p => if bool_decide (po_status p ∈ [PS_OPEN; PS_REDUCING])
            then position_update p PS_CLOSED (nint 0) (po_entryQuantity p) (Some at_)
            else p) <$> position.

(** Everything a served command replaces. *)
Record Outcome := {
  oc_status : ExecutionStatus;
  oc_type : ExecutionEventType;
  oc_entity : ExecutionEntity;
  oc_source : ExecutionSource;
  oc_orders : list ExecutionOrder;
  oc_fills : list ExecutionFill;
  oc_position : option ExecutionPosition;
  oc_failure : option ExecutionFailure
}.

Definition live_statuses : list ExecutionStatus :=
  [ES_NOT_CREATED; ES_PLANNED; ES_READY; ES_SUBMITTED; ES_ACKNOWLEDGED; ES_PARTIALLY_FILLED;
   ES_FILLED; ES_OPEN; ES_REDUCING].

Definition failed_with (r : ExecutionFailureReason) (m : string) (t : number) (fatal : bool) :
    option ExecutionFailure :=
  Some {| fl_reason := r; fl_message := m; fl_at := t; fl_fatal := fatal |}.

(** An outcome of the whole execution: its orders moved, fills kept. *)
Definition moved_execution (st : ExecutionState) (s : ExecutionStatus) (ty : ExecutionEventType)
    (src : ExecutionSource) (to : OrderStatus) (t : number) (pos : option ExecutionPosition)
    (f : option ExecutionFailure) : Outcome :=
  {| oc_status := s; oc_type := ty; oc_entity := EN_EXECUTION; oc_source := src;
     oc_orders := all_moved to t (st_orders st); oc_fills := st_fills st;
     oc_position := pos; oc_failure := f |}.

(** An outcome of the position. *)
Definition moved_position (st : ExecutionState) (s : ExecutionStatus) (ty : ExecutionEventType)
    (os : list ExecutionOrder) (fs : list ExecutionFill) (pos : option ExecutionPosition) : Outcome :=
  {| oc_status := s; oc_type := ty; oc_entity := EN_POSITION; oc_source := EXECUTION_CORE;
     oc_orders := os; oc_fills := fs; oc_position := pos; oc_failure := st_failure st |}.

(** A position reduced by [q]: closed when nothing remains, reducing otherwise. *)
Definition reduced_outcome (st : ExecutionState) (pos : ExecutionPosition) (q t : number)
    (os : list ExecutionOrder) (fs : list ExecutionFill) : Outcome :=
  let p' := reducePosition pos q t in
  if bool_decide (po_status p' = PS_CLOSED)
  then moved_position st ES_CLOSED EV_CLOSED os fs (Some p')
  else moved_position st ES_REDUCING EV_REDUCED os fs (Some p').

(** The entry order after a fill: the execution is FILLED with it. *)
Definition entry_outcome (st : ExecutionState) (o : ExecutionOrder) (p q t : number) : Outcome :=
  let o' := applyFillToOrder o p q t in
  let full := bool_decide (o_status o' = OS_FILLED) in
  {| oc_status := if full then ES_FILLED else ES_PARTIALLY_FILLED;
     oc_type := if full then EV_FILLED else EV_PARTIALLY_FILLED;
     oc_entity := EN_ORDER; oc_source := EXECUTION_CORE;
     oc_orders := replace_order o o' (st_orders st);
     oc_fills := st_fills st ++ [the_fill st o p q t];
     oc_position := st_position st; oc_failure := st_failure st |}.

(** The commands the machine serves, and what each does. *)
Inductive executes (st : ExecutionState) : ExecutionCommand -> Outcome -> Prop :=
| ex_plan t p :
    st_status st = ES_NOT_CREATED -> st_plan st = Some p ->
    executes st (PLAN t)
      {| oc_status := ES_PLANNED; oc_type := EV_PLANNED; oc_entity := EN_PLAN;
         oc_source := EXECUTION_CORE; oc_orders := st_orders st; oc_fills := st_fills st;
         oc_position := st_position st; oc_failure := st_failure st |}
| ex_arm t :
    st_status st = ES_PLANNED -> plan_submittable (st_plan st) = true ->
    executes st (ARM t) (moved_execution st ES_READY EV_ARMED EXECUTION_CORE OS_READY t
                           (st_position st) (st_failure st))
| ex_submit t :
    st_status st = ES_READY -> plan_submittable (st_plan st) = true ->
    executes st (SUBMIT t) (moved_execution st ES_SUBMITTED EV_SUBMITTED EXECUTION_CORE
                              OS_SUBMITTED t (st_position st) (st_failure st))
| ex_acknowledge t :
    st_status st = ES_SUBMITTED ->
    executes st (ACKNOWLEDGE t) (moved_execution st ES_ACKNOWLEDGED EV_ACKNOWLEDGED
                                   EXECUTION_CORE OS_ACKNOWLEDGED t (st_position st) (st_failure st))
| ex_entry_fill t oid p q o :
    st_status st ∈ [ES_ACKNOWLEDGED; ES_PARTIALLY_FILLED] ->
    find_order oid (st_orders st) = Some o -> o_role o = ENTRY ->
    nle q (nint 0) = false -> isFinite p = true ->
    executes st (FILL t oid p q) (entry_outcome st o p q t)
| ex_protective_fill t oid p q o pos :
    st_status st ∈ [ES_OPEN; ES_REDUCING] ->
    find_order oid (st_orders st) = Some o -> o_role o <> ENTRY ->
    nle q (nint 0) = false -> isFinite p = true ->
    st_position st = Some pos -> po_status pos ∈ [PS_OPEN; PS_REDUCING] ->
    executes st (FILL t oid p q)
      (reduced_outcome st pos q t (replace_order o (applyFillToOrder o p q t) (st_orders st))
         (st_fills st ++ [the_fill st o p q t]))
| ex_open t o :
    st_status st ∈ [ES_FILLED; ES_REDUCING] ->
    find_entry (st_orders st) = Some o -> nle (o_filledQuantity o) (nint 0) = false ->
    executes st (OPEN t)
      (moved_position st ES_OPEN EV_OPENED (st_orders st) (st_fills st)
         (Some (openPosition (st_intent st) (o_filledQuantity o) (o_avgFillPrice o) t)))
| ex_reduce t q price pos :
    st_status st ∈ [ES_OPEN; ES_REDUCING] ->
    st_position st = Some pos -> po_status pos ∈ [PS_OPEN; PS_REDUCING] ->
    executes st (REDUCE t q price) (reduced_outcome st pos q t (st_orders st) (st_fills st))
| ex_close t price :
    st_status st ∈ [ES_OPEN; ES_REDUCING] ->
    executes st (CLOSE t price)
      (moved_position st ES_CLOSED EV_CLOSED (all_moved OS_CANCELLED t (st_orders st)) (st_fills st)
         ((fun p => closePosition p t) <$> st_position st))
| ex_cancel t why :
    st_status st ∈ live_statuses ->
    executes st (CANCEL t why)
      (moved_execution st ES_CANCELLED EV_CANCELLED EXECUTION_CORE OS_CANCELLED t
         (flattened (st_position st) t) (failed_with FR_CANCELLED (default "cancelled" why) t false))
| ex_reject t why :
    st_status st ∈ [ES_NOT_CREATED; ES_PLANNED; ES_READY; ES_SUBMITTED; ES_ACKNOWLEDGED] ->
    executes st (REJECT t why)
      (moved_execution st ES_REJECTED EV_REJECTED EXECUTION_CORE OS_REJECTED t
         (st_position st) (failed_with FR_REJECTED (default "rejected" why) t true))
| ex_expire t :
    st_status st ∈ [ES_PLANNED; ES_READY; ES_SUBMITTED; ES_ACKNOWLEDGED] ->
    executes st (EXPIRE t)
      (moved_execution st ES_EXPIRED EV_EXPIRED EXECUTION_CORE OS_EXPIRED t
         (st_position st) (failed_with FR_EXPIRED "expired" t false))
| ex_fail t why :
    st_status st ∈ live_statuses ->
    executes st (FAIL t why)
      (moved_execution st ES_FAILED EV_FAILED EXECUTION_CORE OS_FAILED t
         (st_position st) (failed_with FR_FAILED (default "failed" why) t true))
| ex_kill t :
    st_status st ∈ live_statuses ->
    executes st (KILL t)
      (moved_execution st ES_CANCELLED EV_KILLED SRC_KILL_SWITCH OS_CANCELLED t
         (flattened (st_position st) t) (failed_with KILL_SWITCH "kill switch engaged" t false))
| ex_unhealthy t :
    st_status st ∈ live_statuses ->
    executes st (CMD_RUNTIME_UNHEALTHY t)
      (moved_execution st ES_FAILED EV_FAILED RUNTIME OS_FAILED t
         (st_position st) (failed_with RUNTIME_UNHEALTHY "runtime unhealthy" t true)).

(** The state after an outcome: the outcome's fields, one more entry in the
    lifecycle and in the audit, the command's clock, and nothing else. *)
Record reaches (st : ExecutionState) (t : number) (oc : Outcome) (r : ExecutionResult) : Prop := {
  rc_status : st_status (er_state r) = oc_status oc;
  rc_orders : st_orders (er_state r) = oc_orders oc;
  rc_fills : st_fills (er_state r) = oc_fills oc;
  rc_position : st_position (er_state r) = oc_position oc;
  rc_failure : st_failure (er_state r) = oc_failure oc;
  rc_history : lc_history (st_lifecycle (er_state r)) =
    lc_history (st_lifecycle st) ++ [oc_status oc];
  rc_seq : st_seq (er_state r) = S (st_seq st);
  rc_clock : st_clock (er_state r) = t /\ st_updatedAt (er_state r) = t;
  rc_event : exists e, er_event r = Some e /\
    au_events (st_audit (er_state r)) = au_events (st_audit st) ++ [e] /\
    ev_type e = oc_type oc /\ ev_entity e = oc_entity oc /\ ev_source e = oc_source oc /\
    ev_seq e = S (st_seq st) /\ ev_ts e = t /\
    ev_previousStatus e = Some (showStatus (st_status st)) /\
    ev_newStatus e = Some (showStatus (oc_status oc));
  rc_same : st_intent (er_state r) = st_intent st /\ st_plan (er_state r) = st_plan st /\
    st_intentId (er_state r) = st_intentId st /\ st_signalId (er_state r) = st_signalId st /\
    st_symbol (er_state r) = st_symbol st /\ st_mode (er_state r) = st_mode st /\
    st_venue (er_state r) = st_venue st /\ st_createdAt (er_state r) = st_createdAt st
}.

Lemma terminateOrders_moved os to t :
  to ∈ [OS_READY; OS_SUBMITTED; OS_ACKNOWLEDGED; OS_CANCELLED; OS_REJECTED; OS_EXPIRED; OS_FAILED] ->
  terminateOrders os to t = all_moved to t os.
Proof.
  intros Hto. apply list_fmap_ext. intros _ o _. unfold transitionOrder.
  assert (canTransitionOrder (o_status o) to = order_leaves (o_status o) to) as ->; [|by destruct order_leaves].
  repeat (apply elem_of_cons in Hto as [->|Hto]; [by destruct (o_status o)|]).
  by apply not_elem_of_nil in Hto.
Qed.

Lemma isOpenPosition_iff p : isOpenPosition p = true <-> po_status p ∈ [PS_OPEN; PS_REDUCING].
Proof.
  unfold isOpenPosition.
  rewrite Bool.orb_true_iff, !bool_decide_eq_true, !elem_of_cons, elem_of_nil. tauto.
Qed.

Lemma close_if_open_flattened pos t : close_if_open pos t = flattened pos t.
Proof.
  destruct pos as [p|]; [|done]. simpl. unfold isOpenPosition.
  by destruct (po_status p).
Qed.

Ltac in_cases H :=
  repeat (apply elem_of_cons in H as [H|H]); [..|by apply not_elem_of_nil in H].

(** Orders moved and positions dropped the way the code writes them. *)
Ltac as_moved :=
  unfold move_orders; rewrite ?close_if_open_flattened;
  repeat match goal with
  | |- context [terminateOrders ?os ?to ?t] =>
      rewrite (terminateOrders_moved os to t) by (apply (bool_decide_unpack _); exact I)
  end.

Lemma commit_reaches st c oc :
  oc = {| oc_status := c_status c; oc_type := c_type c; oc_entity := c_entity c;
          oc_source := c_source c; oc_orders := default (st_orders st) (c_orders c);
          oc_fills := default (st_fills st) (c_fills c);
          oc_position := default (st_position st) (c_position c);
          oc_failure := default (st_failure st) (c_failure c) |} ->
  er_ok (commit st c) = true /\ reaches st (c_at c) oc (commit st c).
Proof. intros ->. split; [done|]. by split; try done; eexists. Qed.

Lemma fill_executes st t oid p q oc :
  executes st (FILL t oid p q) oc ->
  er_ok (reduceFill st oid p q t) = true /\ reaches st t oc (reduceFill st oid p q t).
Proof.
  unfold reduceFill. inversion 1 as [| | | |? ? ? ? o Hs Ho Hr Hq Hp|? ? ? ? o pos Hs Ho Hr Hq Hp Hpos Hop| | | | | | | | |];
    subst; rewrite Ho, Hq, Hp; cbn [orb negb]; cbv zeta.
  - rewrite (bool_decide_true (o_role o = ENTRY)) by done. unfold entry_outcome.
    set (full := bool_decide (o_status _ = OS_FILLED)).
    assert (canTransition (st_status st) (if full then ES_FILLED else ES_PARTIALLY_FILLED) = true) as ->
      by (in_cases Hs; rewrite Hs; by destruct full).
    cbn [negb]. by apply (commit_reaches st {| c_at := t |}).
  - rewrite (bool_decide_false (o_role o = ENTRY)), Hpos by done.
    rewrite (proj2 (isOpenPosition_iff pos) Hop). cbn [negb]. unfold reduced_outcome.
    set (closed := bool_decide (po_status _ = PS_CLOSED)).
    assert (canTransition (st_status st) (if closed then ES_CLOSED else ES_REDUCING) = true) as ->
      by (in_cases Hs; rewrite Hs; by destruct closed).
    cbn [negb]. apply (commit_reaches st (position_commit _ _ _ _ _ _ _ _)). by destruct closed.
Qed.

(** The transition of a served command is in the table. *)
Ltac legal_move :=
  match goal with
  | |- context [canTransition (st_status ?st) ?to] =>
      replace (canTransition (st_status st) to) with true;
      [|match goal with
        | H : st_status st = _ |- _ => by rewrite H
        | H : st_status st ∈ _ |- _ => in_cases H; by rewrite H
        end]
  end.

Ltac outcome_computed :=
  apply commit_reaches; unfold moved_execution, moved_position; simpl; as_moved; done.

Ltac served :=
  legal_move; cbn [negb];
  repeat match goal with H : plan_submittable _ = true |- _ => rewrite H; cbn [negb] end;
  outcome_computed.

(** A command the machine serves is accepted, with its outcome. *)
Lemma executes_reaches st cmd oc :
  executes st cmd oc ->
  er_ok (reduceExecution st cmd) = true /\
  reaches st (cmd_at cmd) oc (reduceExecution st cmd).
Proof.
  intros He. assert (isTerminal (st_status st) = false) as HT.
  { destruct He; first [by rewrite H|in_cases H; by rewrite H]. }
  unfold reduceExecution. rewrite HT. simpl.
  destruct cmd; try (by apply fill_executes); inversion He; subst;
    unfold reducePlan, reduceArm, reduceSubmit, reduceAcknowledge, reduceOpen, reduceReduce,
      reduceClose, reduceCancel, reduceReject, reduceExpire, reduceFail, reduceKill,
      reduceUnhealthy, move; rewrite ?HT; try first [served|outcome_computed].
  - legal_move. simplify_option_eq. by apply (commit_reaches st {| c_at := at_ |}).
  - legal_move. simplify_option_eq.
    match goal with H : nle _ _ = false |- _ => rewrite H end. by apply commit_reaches.
  - legal_move. match goal with H : st_position st = _ |- _ => rewrite H end.
    rewrite (proj2 (isOpenPosition_iff pos)) by done. cbn [negb]. unfold reduced_outcome.
    set (closed := bool_decide (po_status _ = PS_CLOSED)).
    apply (commit_reaches st (position_commit _ _ _ _ _ _ _ _)). by destruct closed.
Qed.

Ltac from_table :=
  match goal with
  | H : canTransition (st_status ?st) _ = true |- st_status ?st ∈ _ =>
      revert H; destruct (st_status st); try done; intros _;
      apply (bool_decide_unpack _); exact I
  | H : canTransition (st_status ?st) _ = true |- st_status ?st = _ =>
      revert H; by destruct (st_status st)
  end.

Lemma accepted_fill_executes st t oid p q :
  er_ok (reduceFill st oid p q t) = true -> exists oc, executes st (FILL t oid p q) oc.
Proof.
  unfold reduceFill, illegal. destruct (find_order oid _) as [o|] eqn:Ho; [|done].
  destruct (nle q _ || negb (isFinite p)) eqn:Hg; [done|]. bool_hyps.
  case_bool_decide as Hr.
  - set (full := bool_decide (o_status _ = OS_FILLED)).
    destruct (canTransition (st_status st) _) eqn:Ht; [|done]. intros _.
    eexists. eapply ex_entry_fill; try done. destruct full; from_table.
  - destruct (st_position st) as [pos|] eqn:Hp; [|done].
    destruct (isOpenPosition pos) eqn:Hop; [|done]. cbn [negb].
    set (closed := bool_decide (po_status _ = PS_CLOSED)).
    destruct (canTransition (st_status st) _) eqn:Ht; [|done]. intros _.
    eexists. eapply ex_protective_fill; try done; [|by apply isOpenPosition_iff].
    destruct closed; from_table.
Qed.

(** An accepted command is one the machine serves. *)
Lemma accepted_executes st cmd :
  er_ok (reduceExecution st cmd) = true -> exists oc, executes st cmd oc.
Proof.
  unfold reduceExecution, illegal.
  destruct (isTerminal (st_status st)) eqn:HT.
  { destruct cmd; simpl; try done. unfold reduceKill. by rewrite HT. }
  assert (st_status st ∈ live_statuses) as Hlive.
  { revert HT. destruct (st_status st); try done; intros _; apply (bool_decide_unpack _); exact I. }
  simpl. destruct cmd;
    unfold reducePlan, reduceArm, reduceSubmit, reduceAcknowledge, reduceOpen, reduceReduce,
      reduceClose, reduceReject, reduceExpire, move, illegal;
    try (by apply accepted_fill_executes); try (by eexists; constructor);
    destruct (canTransition (st_status st) _) eqn:Ht; try done; cbn [negb].
  - destruct (st_plan st) eqn:Hp; [|done]. intros _. eexists. eapply ex_plan; [from_table|done].
  - destruct (plan_submittable _) eqn:Hp; [|done]. intros _. eexists. apply ex_arm; [from_table|done].
  - destruct (plan_submittable _) eqn:Hp; [|done]. intros _. eexists. apply ex_submit; [from_table|done].
  - intros _. eexists. apply ex_acknowledge. from_table.
  - destruct (find_entry _) as [o|] eqn:Ho; [|done]. destruct (nle _ _) eqn:Hq; [done|]. intros _.
    eexists. eapply ex_open; [from_table|done..].
  - destruct (st_position st) as [pos|] eqn:Hp; [|done].
    destruct (isOpenPosition pos) eqn:Hop; [|done]. intros _.
    eexists. eapply ex_reduce; [from_table|done|by apply isOpenPosition_iff].
  - intros _. eexists. apply ex_close. from_table.
  - intros _. eexists. apply ex_reject. from_table.
  - intros _. eexists. apply ex_expire. from_table.
Qed.
