(* ===== verification/ExecProps.v ===== *)
(** * ExecProps: the properties of the execution core

    Theorems about every execution the reducer can reach, each with a concrete
    instance on one long BTC-PERP signal. *)

From S2P Require Import Prelude JsNumber JsNumberFacts Served.
From S2P Require Import ExecTypes ExecOrders ExecPositions ExecIntent ExecState ExecFacts.

Local Open Scope string_scope.
Local Open Scope list_scope.

(** ** A concrete signal *)

Definition real_measure (x : number) : Measure :=
  {| me_value := Some x; me_provenance := Pv_real; me_basis := "served" |}.

Definition no_measure : Measure := {| me_value := None; me_provenance := Pv_unavailable; me_basis := "" |}.

Definition sample_explain : Explainability :=
  {| xp_bullish := []; xp_bearish := []; xp_neutral := []; xp_risk := [];
     xp_contributions := {| cn_trend := no_measure; cn_momentum := no_measure;
                            cn_volatility := no_measure; cn_liquidity := no_measure |};
     xp_confidenceBreakdown := {| cb_trendComponent := None; cb_momentumComponent := None;
                                  cb_total := ndec 9 1; cb_basis := "" |};
     xp_executionReadiness := "READY"; xp_riskApproval := "APPROVED"; xp_controlApproval := "ALLOWED" |}.

Definition sample_decision : TradingDecision :=
  {| td_signalId := "sig-1"; td_symbol := "BTC-PERP"; td_timeframe := M15;
     td_direction := LONG; td_bias := LONG; td_confidence := ndec 9 1;
     td_createdAt := "2023-11-14T22:13:20.000Z"; td_signalAgeSeconds := nint 0; td_featureAgeSeconds := None;
     td_currentPrice := real_measure (nint 100);
     td_entryPrice := real_measure (nint 100); td_stopLoss := real_measure (nint 97);
     td_takeProfit1 := real_measure (nint 103); td_takeProfit2 := real_measure (nint 106);
     td_takeProfit3 := real_measure (nint 109); td_riskRewardRatio := real_measure (nint 3);
     td_stopDistancePct := real_measure (nint 3); td_positionSize := real_measure (ndec 6 1);
     td_positionNotional := real_measure (nint 60000);
     td_capitalRiskPercent := real_measure (nint 1); td_assumedEquity := nint 100000;
     td_expectedHoldingTime := {| ht_seconds := None; ht_bars := None; ht_provenance := Pv_estimated; ht_basis := "" |};
     td_trendStrength := no_measure; td_momentumScore := no_measure;
     td_volatilityScore := no_measure; td_liquidityScore := no_measure;
     td_marketRegime := {| rg_regime := None; rg_provenance := Pv_unavailable; rg_basis := "" |};
     td_executionStatus := XS_READY;
     td_riskStatus := {| rv_status := RK_APPROVED; rv_reason := ""; rv_staticOnly := true |};
     td_controlStatus := CT_ALLOWED; td_overallStatus := OV_ACTIONABLE;
     td_explain := sample_explain;
     td_featureHash := "fh"; td_datasetHash := "dh"; td_strategyVersionId := "sv";
     td_provenanceNotes := [] |}.

Definition no_field : RiskField :=
  {| rf_key := ""; rf_label := ""; rf_value := None; rf_unit := ""; rf_tag := TAG_UNAVAILABLE; rf_basis := "" |}.

Definition sample_plan : TradePlan :=
  {| tp_signalId := "sig-1"; tp_symbol := "BTC-PERP"; tp_timeframe := M15; tp_direction := LONG;
     tp_confidence := ndec 9 1;
     tp_summary := {| ds_action := STRONG_BUY; ds_headline := ""; ds_canTrade := true; ds_shouldTrade := true;
                      ds_why := []; ds_direction := LONG; ds_confidence := ndec 9 1; ds_basis := "" |};
     tp_execution := {| ec_items := []; ec_passed := 0; ec_failed := 0; ec_unknown := 0;
                        ec_allPass := true; ec_note := "" |};
     tp_risk := {| rl_maximumLoss := no_field; rl_capitalAtRisk := no_field; rl_rMultiple := no_field;
                   rl_distancePct := no_field; rl_atrPct := no_field; rl_rewardPct := no_field;
                   rl_expectedHoldSeconds := no_field;
                   rl_category := {| rc_label := ""; rc_tag := TAG_UNAVAILABLE; rc_basis := "" |};
                   rl_assumedEquity := nint 100000; rl_note := "" |};
     tp_invalidation := {| iv_triggers := []; iv_armed := 0; iv_triggered := 0; iv_summary := "" |};
     tp_readiness := {| tr_score := nint 90; tr_band := RB_READY; tr_components := []; tr_basis := "" |};
     tp_generatedNote := "" |}.

Definition sample_now : number := nint 1700000000000.

Definition sample_intent : ExecutionIntent :=
  buildExecutionIntent sample_decision sample_plan sample_now None None.

Definition sample_input (kill healthy : bool) : ExecutionInput :=
  {| ei_now := sample_now; ei_decision := Some sample_decision; ei_plan := Some sample_plan;
     ei_killEngaged := kill; ei_runtimeHealthy := healthy; ei_mode := None; ei_venue := None |}.

Definition entry_id (i : ExecutionIntent) : string := orderId (planId (in_intentId i)) "entry" 0.

(** Plan, arm, submit, acknowledge, fill the entry by [q] at [p], open. *)
Definition open_script (i : ExecutionIntent) (t p q : number) : list ExecutionCommand :=
  [PLAN t; ARM t; SUBMIT t; ACKNOWLEDGE t; FILL t (entry_id i) p q; OPEN t].

Definition sample_commands : list ExecutionCommand :=
  open_script sample_intent sample_now (nint 100) (ndec 6 1).

Definition sample_open : ExecutionState := foldl exec_step (exec_init sample_intent) sample_commands.

Lemma sample_intent_wf : intent_wf sample_intent.
Proof. intros v Hv. vm_compute in Hv. injection Hv as <-. by vm_compute. Qed.

Lemma sample_open_run : run exec_step cmd_ok (exec_init sample_intent) sample_open.
Proof. apply run_fold. repeat constructor; by vm_compute. Qed.

Lemma sample_open_run_wf : run exec_step cmd_wf (exec_init sample_intent) sample_open.
Proof. apply run_fold. repeat constructor; by vm_compute. Qed.

Lemma sample_ready : submit_ready sample_intent.
Proof. apply checkSubmittable_None. by vm_compute. Qed.

(** ** Properties *)

(** C1. The reducer implements the step specification [executes], which lists, per
    command and without the transition table, the statuses it is served in, what it
    asks of the state (a plan to PLAN, a submittable plan to ARM and SUBMIT, a known
    order, a positive quantity and a finite price to FILL, a filled entry to OPEN,
    an open position to REDUCE) and its whole outcome: status, event, orders, fills,
    position and failure. Whatever the state and the command: an accepted command is
    one the specification serves, and the state has that outcome, one more history
    entry and one more audit event, and is otherwise the same; a rejected command is
    one the specification does not serve, whose state comes back as it was, with no
    event and with a failure naming why. *)
Theorem reduceExecution_refines st cmd :
  let r := reduceExecution st cmd in
  if er_ok r
  then exists oc, executes st cmd oc /\ reaches st (cmd_at cmd) oc r
  else (forall oc, ~ executes st cmd oc) /\
    er_state r = st /\ er_event r = None /\ is_Some (er_failure r).
Proof.
  intros r. destruct (er_ok r) eqn:Hok.
  - destruct (accepted_executes st cmd Hok) as [oc Hoc]. exists oc.
    split; [done|]. by apply executes_reaches.
  - split.
    + intros oc [Ht _]%executes_reaches. unfold r in Hok. congruence.
    + destruct (reduceExecution_cases st cmd) as [(_ & H)|(c & E & _)]; [done|].
      unfold r in Hok. by rewrite E in Hok.
Qed.

(** A KILL in an open position and an early CLOSE, by the specification. *)
Example kill_outcome :
  let r := reduceExecution sample_open (KILL sample_now) in
  er_ok r = true /\ st_status (er_state r) = ES_CANCELLED /\
  (po_status <$> st_position (er_state r)) = Some PS_CLOSED /\
  (fl_reason <$> st_failure (er_state r)) = Some KILL_SWITCH /\
  er_ok (reduceExecution (exec_init sample_intent) (CLOSE sample_now None)) = false.
Proof. by vm_compute. Qed.

(** C2. The audit trail of every reachable execution is complete and gap-free: the
    events are numbered 1..n with the count and the sequence equal to n, the
    lifecycle history starts at NOT_CREATED and ends at the current status, every
    consecutive pair in it is a legal transition and event k records exactly that
    pair; the lifecycle mirrors the status. *)
Theorem audit_trail_complete i st :
  intent_wf i -> run exec_step cmd_wf (exec_init i) st ->
  st_seq st = length (au_events (st_audit st)) /\
  au_count (st_audit st) = length (au_events (st_audit st)) /\
  length (lc_history (st_lifecycle st)) = S (st_seq st) /\
  head (lc_history (st_lifecycle st)) = Some ES_NOT_CREATED /\
  last (lc_history (st_lifecycle st)) = Some (st_status st) /\
  lc_current (st_lifecycle st) = st_status st /\
  lc_terminal (st_lifecycle st) = isTerminal (st_status st) /\
  forall k e, au_events (st_audit st) !! k = Some e ->
    ev_seq e = S k /\ ev_eventId e = eventId (in_intentId i) (S k) /\
    exists a b, lc_history (st_lifecycle st) !! k = Some a /\
      lc_history (st_lifecycle st) !! S k = Some b /\ canTransition a b = true /\
      ev_previousStatus e = Some (showStatus a) /\ ev_newStatus e = Some (showStatus b).
Proof.
  intros Hw Hr. pose proof (reachable_inv i st Hw Hr) as Hinv.
  pose proof (xi_trail _ _ Hinv) as [? ? ? ? ? ? ? ? ? Hev].
  do 7 (split; [done|]). intros k e He. destruct (Hev k e He) as (E1 & _ & E3 & _ & _).
  split; [done|]. split; [by rewrite <- (xi_intentId _ _ Hinv)|].
  eapply trail_event; [apply Hinv|done].
Qed.

Lemma audit_trail_complete_witness :
  length (au_events (st_audit sample_open)) = 6 /\
  last (lc_history (st_lifecycle sample_open)) = Some ES_OPEN.
Proof.
  pose proof (audit_trail_complete sample_intent sample_open sample_intent_wf sample_open_run_wf)
    as (E & _ & _ & _ & L & _).
  split; [rewrite <- E; evaluate|rewrite L; evaluate].
Defined.

(** C3. The submit gate: an execution whose history contains any status from READY
    on belongs to an intent that passes every fail-closed check: a tradable action,
    both permissions, a scored readiness, an entry, a stop and at least one target. *)
Theorem submit_gate i st s :
  intent_wf i -> run exec_step cmd_wf (exec_init i) st ->
  s ∈ lc_history (st_lifecycle st) -> past_gate s = true -> submit_ready i.
Proof.
  intros Hw Hr Hs Hg. apply (xi_gate i st (reachable_inv i st Hw Hr)).
  apply Exists_exists. exists s. split; [done|by rewrite Hg].
Qed.

Lemma submit_gate_witness : submit_ready sample_intent.
Proof.
  apply (submit_gate sample_intent sample_open ES_SUBMITTED);
    [apply sample_intent_wf|apply sample_open_run_wf| |done].
  apply (list_elem_of_lookup_2 _ 3). evaluate.
Defined.

(** C4. Position accounting in every reachable execution: the position carries the
    intent's direction, stop and targets verbatim; the closed quantity is between 0
    and the entered quantity; the net quantity is the rounded remainder with the
    sign of the direction, so it never flips and never exceeds the entry; and the
    position status agrees with the execution status and with the remainder. *)
Theorem position_accounting i st :
  intent_wf i -> run exec_step cmd_wf (exec_init i) st ->
  exists p, st_position st = Some p /\
    po_direction p = in_direction i /\ po_stop p = in_stop i /\ po_targets p = in_targets i /\
    (0 <= sv (po_closedQuantity p) <= sv (po_entryQuantity p))%Z /\
    (0 <= sv (remaining p) <= sv (po_entryQuantity p))%Z /\
    sv (po_quantity p) = (dsign (po_direction p) * sv (remaining p))%Z /\
    position_fits (st_status st) p /\
    match po_status p with
    | PS_OPEN | PS_REDUCING => (0 < sv (remaining p))%Z
    | PS_CLOSED => sv (remaining p) = 0%Z
    | PS_NONE | PS_OPENING => sv (po_entryQuantity p) = 0%Z
    end.
Proof.
  intros Hw Hr. destruct (xi_position _ _ (reachable_inv i st Hw Hr)) as (p & Hp & [Hok Hof Hfit]).
  exists p. destruct Hof as (_ & _ & ? & ? & ?). pose proof Hok as [He Hc Hle Hq Hst].
  pose proof (remaining_quantity8 p He Hc Hle) as Hrem. pose proof (remaining_le p Hok).
  repeat split; try done; [apply Hc|apply Hrem].
Qed.

Lemma position_accounting_witness :
  exists p, st_position sample_open = Some p /\ po_status p = PS_OPEN /\ (0 < sv (remaining p))%Z.
Proof.
  destruct (position_accounting sample_intent sample_open sample_intent_wf sample_open_run_wf)
    as (p & Hp & _ & _ & _ & _ & _ & _ & Hfit & Hst).
  assert (st_status sample_open = ES_OPEN) as Hs by evaluate.
  rewrite Hs in Hfit. simpl in Hfit. rewrite Hfit in Hst. eauto.
Defined.

(** C5. Fill accounting: in every execution reached without a NaN fill, the filled
    quantity of an order of non-negative size is between 0 and that size rounded to
    8 decimals, and a FILLED order is filled to exactly that: over-fills are clamped. *)
Theorem fills_never_exceed_order i st o q :
  intent_wf i -> run exec_step cmd_ok (exec_init i) st ->
  o ∈ st_orders st -> o_quantity o = Some q -> (0 <= sv q)%Z ->
  isFinite (o_filledQuantity o) = true /\
  (0 <= sv (o_filledQuantity o) <= sv (round q 8))%Z /\
  (o_status o = OS_FILLED -> sv (o_filledQuantity o) = sv (round q 8)).
Proof.
  intros Hw Hr Ho Hq Pq. destruct (reachable_bounded i st Hw Hr) as [Hinv Hb].
  unfold orders_bounded in Hb. rewrite Forall_forall in Hb.
  pose proof (xi_orders _ _ Hinv) as Hok. rewrite Forall_forall in Hok.
  destruct (Hb o Ho q Hq Pq) as [_ _ Hf Hfull]. split; [by apply Hok|done].
Qed.

Lemma fills_never_exceed_order_witness :
  exists o, o ∈ st_orders sample_open /\ o_status o = OS_FILLED /\
    sv (o_filledQuantity o) = sv (round (ndec 6 1) 8).
Proof.
  destruct (st_orders sample_open !! 0) as [o|] eqn:E; [|vm_compute in E; discriminate E].
  exists o. assert (o ∈ st_orders sample_open) as Ho by (by eapply list_elem_of_lookup_2).
  assert (o_status o = OS_FILLED /\ o_quantity o = Some (ndec 6 1)) as [Hs Hq].
  { vm_compute in E. injection E as <-. split; evaluate. }
  split; [done|split; [done|]].
  destruct (fills_never_exceed_order sample_intent sample_open o (ndec 6 1)
    sample_intent_wf sample_open_run Ho Hq) as (_ & _ & Hfull); [done|exact (Hfull Hs)].
Defined.

(** Fill ids are unique: no two fill records of a reachable execution have the
    same id, and each is filed under an order of the plan. *)
Theorem fill_ids_unique i st :
  intent_wf i -> run exec_step cmd_wf (exec_init i) st ->
  NoDup (f_fillId <$> st_fills st) /\
  Forall (fun f => f_orderId f ∈ o_orderId <$> pl_orders (buildExecutionPlan i)) (st_fills st).
Proof.
  intros Hw Hr. pose proof (reachable_inv i st Hw Hr) as Hinv.
  split; [by eapply exec_inv_fill_ids|apply Hinv].
Qed.

Lemma fill_ids_unique_witness : NoDup (f_fillId <$> st_fills sample_open).
Proof. apply (fill_ids_unique sample_intent sample_open sample_intent_wf sample_open_run_wf). Defined.

(** Terminal executions are immutable: once CLOSED, REJECTED, EXPIRED, CANCELLED
    or FAILED, every command is rejected and no sequence of commands changes the
    state, the audit trail included. *)
Theorem terminal_is_final st st' :
  isTerminal (st_status st) = true -> run exec_step (fun _ => True) st st' ->
  st' = st /\ forall cmd, er_ok (reduceExecution st cmd) = false.
Proof.
  intros Ht Hr. assert (forall cmd, rejected st (reduceExecution st cmd)) as H
    by (intros cmd; by apply terminal_rejects).
  split; [|intros cmd; apply H].
  induction Hr as [|s c _ IH _]; [done|]. rewrite IH. apply (H c).
Qed.

Definition sample_killed : ExecutionState := exec_step sample_open (KILL sample_now).

Lemma terminal_is_final_witness : exec_step sample_killed (OPEN sample_now) = sample_killed.
Proof.
  apply (terminal_is_final sample_killed); [evaluate|]. constructor; [constructor|done].
Defined.

(** C6. The kill switch works from every live status: KILL on a reachable,
    non-terminal execution succeeds, cancels it with reason KILL_SWITCH, leaves
    every order in a terminal status and leaves no open position. *)
Theorem kill_stops_everything i st at_ :
  intent_wf i -> run exec_step cmd_wf (exec_init i) st -> isTerminal (st_status st) = false ->
  let r := reduceExecution st (KILL at_) in
  er_ok r = true /\ st_status (er_state r) = ES_CANCELLED /\
  (exists f, st_failure (er_state r) = Some f /\ fl_reason f = KILL_SWITCH) /\
  Forall (fun o => ORDER_TRANSITIONS (o_status o) = []) (st_orders (er_state r)) /\
  (forall p, st_position (er_state r) = Some p ->
     isOpenPosition p = false /\ sv (po_quantity p) = 0%Z).
Proof.
  intros Hw Hr Ht r. pose proof (reachable_inv i st Hw Hr) as Hinv.
  pose proof (reachable_started i st Hw Hr) as Hstart.
  pose proof (reduceExecution_inv i st (KILL at_) Hinv I) as Hinv'.
  assert (r = commit st (kill_commit st at_)) as E by (by apply reduce_kill).
  fold r in Hinv'. rewrite E in *. do 2 (split; [done|]). split; [by eexists|]. split.
  - by apply cancelled_terminal.
  - intros p Hp. destruct (xi_position _ _ Hinv') as (p' & Hp' & Hpi). simplify_eq.
    destruct (position_closed_flat i _ _ Hpi); [done|auto].
Qed.

Lemma kill_stops_everything_witness :
  st_status (er_state (reduceExecution sample_open (KILL sample_now))) = ES_CANCELLED.
Proof.
  apply (kill_stops_everything sample_intent sample_open sample_now sample_intent_wf
    sample_open_run_wf). evaluate.
Defined.

(** Creating an execution, on every branch: no decision and no plan fail closed
    with no state; otherwise an execution of the projected intent exists and is
    PLANNED, CANCELLED when the kill switch is engaged (which takes precedence), or
    FAILED when the runtime is unhealthy. *)
Theorem createExecution_outcome input :
  let r := createExecution input in
  match ei_decision input, ei_plan input with
  | None, _ => ce_ok r = false /\ ce_state r = None /\
      exists f, ce_failure r = Some f /\ fl_reason f = NO_DECISION /\ fl_fatal f = true
  | Some _, None => ce_ok r = false /\ ce_state r = None /\
      exists f, ce_failure r = Some f /\ fl_reason f = NO_PLAN /\ fl_fatal f = true
  | Some d, Some tp => ce_ok r = true /\ exists st, ce_state r = Some st /\
      st_intent st = buildExecutionIntent d tp (ei_now input)
        (Some (default SIMULATION (ei_mode input))) (Some (default UNSET (ei_venue input))) /\
      st_plan st = Some (buildExecutionPlan (st_intent st)) /\
      if ei_killEngaged input then
        st_status st = ES_CANCELLED /\
        exists f, ce_failure r = Some f /\ fl_reason f = KILL_SWITCH /\ fl_fatal f = false
      else if ei_runtimeHealthy input then st_status st = ES_PLANNED /\ ce_failure r = None
      else st_status st = ES_FAILED /\
        exists f, ce_failure r = Some f /\ fl_reason f = RUNTIME_UNHEALTHY /\ fl_fatal f = true
  end.
Proof.
  intros r. subst r. unfold createExecution, validateInput.
  destruct (ei_decision input) as [d|], (ei_plan input) as [tp|]; cycle 1;
    [by repeat (split || eexists)..|].
  set (i := buildExecutionIntent d tp _ _ _). clearbody i. fold (exec_init i).
  destruct (reduce_plan_init i (ei_now input)) as (Ho & Hs & Hf & Hi & Hp).
  assert (isTerminal (st_status (er_state (reduceExecution (exec_init i) (PLAN (ei_now input))))) = false)
    as Ht by (by rewrite Hs).
  revert Ho Hs Hf Hi Hp Ht. generalize (reduceExecution (exec_init i) (PLAN (ei_now input))).
  intros r Ho Hs Hf Hi Hp Ht. rewrite reduce_kill, reduce_unhealthy by done.
  destruct (ei_killEngaged input); [|destruct (ei_runtimeHealthy input)]; simpl;
    (split; [done|]; eexists; split; [reflexivity|]); simpl; rewrite Hi; eauto 10.
Qed.

(** The road to a position is open: for every intent that passes the submit
    gate with a positive size, planning, arming, submitting, acknowledging, filling
    the entry and opening succeed in sequence and yield an OPEN execution whose
    position has the rounded size, nothing closed, and the intent's levels. *)
Theorem open_script_opens i t p q :
  submit_ready i -> num (in_positionSize i) = Some q -> wf_number q ->
  (0 < sv q)%Z -> (0 < sv (round q 8))%Z -> isFinite p = true ->
  let r := reduceSequence (exec_init i) (open_script i t p q) in
  er_ok r = true /\ st_status (er_state r) = ES_OPEN /\
  exists pos, st_position (er_state r) = Some pos /\
    sv (po_entryQuantity pos) = sv (round q 8) /\ po_closedQuantity pos = nint 0 /\
    po_stop pos = in_stop i /\ po_targets pos = in_targets i.
Proof.
  intros Hr Hq Wq Pq Prq Fp r. subst r. unfold reduceSequence, open_script.
  destruct (stage_plan i _ t (stage_init i)) as [O1 S1]. rewrite reduce_from_step by done.
  destruct (stage_arm i _ t Hr S1) as [O2 S2]. rewrite reduce_from_step by done.
  destruct (stage_submit i _ t Hr S2) as [O3 S3]. rewrite reduce_from_step by done.
  destruct (stage_ack i _ t S3) as [O4 S4]. rewrite reduce_from_step by done.
  destruct (stage_fill i _ t p q S4 Hq Wq Pq Fp) as (O5 & Hs & Hi & Ho).
  rewrite reduce_from_step by done.
  destruct (stage_open i _ t q Hs Hi Ho Prq (num_finite _ _ Hq)) as (O6 & Hs6 & Hpos).
  rewrite reduce_from_step by done. done.
Qed.

Lemma open_script_opens_witness :
  st_status (er_state (reduceSequence (exec_init sample_intent) sample_commands)) = ES_OPEN.
Proof.
  apply (open_script_opens sample_intent sample_now (nint 100) (ndec 6 1));
    [apply sample_ready|evaluate|by vm_compute|evaluate|evaluate|evaluate].
Defined.

(** The order set of a plan: one ENTRY and one STOP of the whole size, one
    TARGET per served take-profit with the split sizes; prices are the intent's
    levels verbatim, ids are pairwise distinct, exits trade the opposite side of the
    entry, and the plan is submittable exactly when the submit gate passes. *)
Theorem plan_structure i :
  let pl := buildExecutionPlan i in
  o_role <$> pl_orders pl = ENTRY :: STOP :: replicate (length (in_targets i)) TARGET /\
  o_price <$> pl_orders pl = in_entry i :: in_stop i :: (Some <$> in_targets i) /\
  o_quantity <$> pl_orders pl
    = num (in_positionSize i) :: num (in_positionSize i)
      :: splitQuantity (num (in_positionSize i)) (length (in_targets i)) /\
  NoDup (o_orderId <$> pl_orders pl) /\
  Forall (fun o => o_status o = OS_PLANNED /\
    o_side o = if bool_decide (o_role o = ENTRY) then sideForRole (in_direction i) ENTRY
               else sideForRole (in_direction i) STOP) (pl_orders pl) /\
  (pl_submittable pl = true <-> submit_ready i) /\
  pl_blockedReason pl = checkSubmittable i.
Proof.
  split; [apply planOrders_roles|]. split; [apply planOrders_prices|].
  split; [apply planOrders_quantities|]. split; [apply planOrders_ids_NoDup|].
  split; [|split; [|done]].
  - apply Forall_forall. intros o (Es & _ & _ & _ & Eo)%planOrders_fresh. split; [done|].
    rewrite Eo. by destruct (o_role o).
  - rewrite <- checkSubmittable_None. simpl. apply bool_decide_eq_true.
Qed.

(** ** Counterexamples *)

(** A fill whose quantity is NaN passes the guard [quantity <= 0] and erases the
    quantity filled so far. *)
Definition nan_fill_run : ExecutionResult :=
  reduceSequence (exec_init sample_intent)
    [PLAN sample_now; ARM sample_now; SUBMIT sample_now; ACKNOWLEDGE sample_now;
     FILL sample_now (entry_id sample_intent) (nint 100) (ndec 3 1);
     FILL sample_now (entry_id sample_intent) (nint 100) NaN].

Example nan_fill_accepted :
  er_ok nan_fill_run = true /\
  (o_filledQuantity <$> find_entry (st_orders (er_state nan_fill_run))) = Some (nint 0).
Proof. split; evaluate. Qed.

(** OPEN is also legal from REDUCING and rebuilds the position from the entry's
    fill, so exposure that was closed comes back. *)
Definition reopened_run : ExecutionResult :=
  reduceSequence sample_open [REDUCE sample_now (ndec 4 1) (nint 103); OPEN sample_now].

Example reopen_restores_exposure :
  er_ok reopened_run = true /\
  (po_closedQuantity <$> st_position (exec_step sample_open (REDUCE sample_now (ndec 4 1) (nint 103))))
    = Some (ndec 4 1) /\
  (po_closedQuantity <$> st_position (er_state reopened_run)) = Some (nint 0) /\
  (po_quantity <$> st_position (er_state reopened_run)) = Some (ndec 6 1).
Proof. repeat split; evaluate. Qed.

(** An over-fill of a protective order is clamped on the order but not on the
    position: a first target of 0.2 filled with 0.6 closes the whole position. *)
Definition overfill_run : ExecutionResult :=
  reduceSequence sample_open
    [FILL sample_now (orderId (planId (in_intentId sample_intent)) "target" 2) (nint 103) (ndec 6 1)].

Example protective_overfill_closes_position :
  st_status (er_state overfill_run) = ES_CLOSED /\
  (o_filledQuantity <$> st_orders (er_state overfill_run) !! 2) = Some (ndec 2 1).
Proof. split; evaluate. Qed.
