(* ===== verification/AdapterTypes.v ===== *)
(** * AdapterTypes: contracts of the execution adapter

    packages/execution-adapter/src/types.ts, commands.ts, runtime.ts, events.ts and
    validation.ts: sessions, commands, the venue-shaped events and the fail-closed
    gates. *)

From S2P Require Import Prelude JsNumber ExecTypes ExecState.

Local Open Scope string_scope.
Local Open Scope list_scope.

(** ** types.ts *)

Inductive AdapterKind := AK_NULL | AK_PAPER | AK_LIVE.

Inductive AdapterHealthStatus := AH_READY | AH_DEGRADED | AH_SHUTDOWN | AH_UNAVAILABLE.

(** The core's reasons, reused verbatim, and the adapter's own. *)
Inductive AdapterFailureReason :=
| AF_core (r : ExecutionFailureReason)
| ADAPTER_SHUTDOWN | ADAPTER_UNAVAILABLE | NOT_BOUND | NOT_SUBMITTED | DUPLICATE_SUBMIT
| MISSING_ORDER_IDS | MISSING_TIMESTAMPS | UNKNOWN_ORDER | TERMINAL | UNSUPPORTED_OPERATION.

Inductive AdapterEventType :=
| AE_SUBMITTED | AE_ACKNOWLEDGED | AE_PARTIAL_FILL | AE_FILLED | AE_CANCELLED | AE_FAILED
| AE_EXPIRED | AE_REJECTED.

#[export] Instance AdapterKind_eq_dec : EqDecision AdapterKind.
Proof. solve_decision. Defined.
#[export] Instance AdapterHealthStatus_eq_dec : EqDecision AdapterHealthStatus.
Proof. solve_decision. Defined.
#[export] Instance AdapterFailureReason_eq_dec : EqDecision AdapterFailureReason.
Proof. solve_decision. Defined.
#[export] Instance AdapterEventType_eq_dec : EqDecision AdapterEventType.
Proof. solve_decision. Defined.

Definition showAdapterReason (r : AdapterFailureReason) : string :=
  match r with
  | AF_core r => showReason r
  | ADAPTER_SHUTDOWN => "ADAPTER_SHUTDOWN" | ADAPTER_UNAVAILABLE => "ADAPTER_UNAVAILABLE"
  | NOT_BOUND => "NOT_BOUND" | NOT_SUBMITTED => "NOT_SUBMITTED"
  | DUPLICATE_SUBMIT => "DUPLICATE_SUBMIT" | MISSING_ORDER_IDS => "MISSING_ORDER_IDS"
  | MISSING_TIMESTAMPS => "MISSING_TIMESTAMPS" | UNKNOWN_ORDER => "UNKNOWN_ORDER"
  | TERMINAL => "TERMINAL" | UNSUPPORTED_OPERATION => "UNSUPPORTED_OPERATION"
  end.

Record AdapterError := {
  ae_reason : AdapterFailureReason;
  ae_message : string;
  ae_at : number;
  ae_fatal : bool
}.

Record AdapterEvent := {
  av_eventId : string;
  av_seq : nat;
  av_adapter : AdapterKind;
  av_intentId : string;
  av_orderId : option string;
  av_type : AdapterEventType;
  av_mode : ExecutionMode;
  av_venue : ExecutionVenue;
  av_reason : string;
  av_provenance : ExecutionProvenance;
  av_ts : number
}.

Record AdapterSession := {
  as_adapter : AdapterKind;
  as_mode : ExecutionMode;
  as_venue : ExecutionVenue;
  as_status : AdapterHealthStatus;
  as_intentId : option string;
  as_core : option ExecutionState;
  as_events : list AdapterEvent;
  as_seq : nat;
  as_submitted : bool;
  as_createdAt : number;
  as_updatedAt : number;
  as_clock : number
}.

Record AdapterResult := {
  ar_ok : bool;
  ar_session : AdapterSession;
  ar_events : list AdapterEvent;
  ar_error : option AdapterError
}.

Record AdapterOrderView := {
  aov_orderId : string;
  aov_role : OrderRole;
  aov_side : OrderSide;
  aov_status : OrderStatus;
  aov_price : option number;
  aov_quantity : option number;
  aov_filledQuantity : number
}.

Record AdapterPositionView := {
  apv_status : PositionStatus;
  apv_quantity : number;
  apv_entryQuantity : number;
  apv_closedQuantity : number;
  apv_avgEntryPrice : option number
}.

(** [executionStatus] is [None] for "UNBOUND". *)
Record AdapterStatusView := {
  asv_bound : bool;
  asv_intentId : option string;
  asv_executionStatus : option ExecutionStatus;
  asv_terminal : bool;
  asv_submitted : bool;
  asv_orders : list AdapterOrderView;
  asv_position : option AdapterPositionView;
  asv_eventCount : nat;
  asv_lastEventSeq : nat
}.

Record AdapterHealth := {
  ah_kind : AdapterKind;
  ah_mode : ExecutionMode;
  ah_venue : ExecutionVenue;
  ah_status : AdapterHealthStatus;
  ah_bound : bool;
  ah_submitted : bool;
  ah_terminal : bool;
  ah_canSubmit : bool;
  ah_reason : string
}.

(** ** runtime.ts *)

Inductive RuntimeState := RS_HEALTHY | RS_DEGRADED | RS_UNHEALTHY | RS_UNKNOWN.

#[export] Instance RuntimeState_eq_dec : EqDecision RuntimeState.
Proof. solve_decision. Defined.

Record RuntimeContext := {
  rc_state : RuntimeState;
  rc_killEngaged : bool;
  rc_clock : number
}.

Definition isRuntimeHealthy (ctx : RuntimeContext) : bool :=
  bool_decide (rc_state ctx = RS_HEALTHY).

Definition runtimeBlockReason (ctx : RuntimeContext) : option ExecutionFailureReason :=
  if rc_killEngaged ctx then Some KILL_SWITCH
  else if bool_decide (rc_state ctx <> RS_HEALTHY) then Some RUNTIME_UNHEALTHY
  else None.

(** ** commands.ts *)

Inductive AdapterCommand :=
| AC_SUBMIT (at_ : number) (runtime : RuntimeContext)
| AC_ACKNOWLEDGE (at_ : number)
| AC_FILL (at_ : number) (orderId : string) (price quantity : number)
| AC_CANCEL (at_ : number) (orderId : string) (reason : option string)
| AC_CANCEL_ALL (at_ : number) (reason : option string)
| AC_REPLACE (at_ : number) (orderId : string) (reason : option string)
| AC_SHUTDOWN (at_ : number) (reason : option string).

(** ** events.ts *)

Definition adapterEventId (intentId : string) (seq : nat) : string :=
  "adapter:" +:+ intentId +:+ ":evt:" +:+ pretty seq.

Definition makeAdapterEvent (intentId : string) (seq : nat) (adapter : AdapterKind)
    (orderId : option string) (type : AdapterEventType) (mode : ExecutionMode)
    (venue : ExecutionVenue) (reason : string) (provenance : ExecutionProvenance)
    (ts : number) : AdapterEvent :=
  {| av_eventId := adapterEventId intentId seq;
     av_seq := seq;
     av_adapter := adapter;
     av_intentId := intentId;
     av_orderId := orderId;
     av_type := type;
     av_mode := mode;
     av_venue := venue;
     av_reason := reason;
     av_provenance := provenance;
     av_ts := ts |}.

Definition mapCoreEventType (coreType : ExecutionEventType) : option AdapterEventType :=
  match coreType with
  | EV_SUBMITTED => Some AE_SUBMITTED
  | EV_ACKNOWLEDGED => Some AE_ACKNOWLEDGED
  | EV_PARTIALLY_FILLED => Some AE_PARTIAL_FILL
  | EV_FILLED => Some AE_FILLED
  | EV_REDUCED => Some AE_PARTIAL_FILL
  | EV_CLOSED => Some AE_FILLED
  | EV_CANCELLED | EV_KILLED => Some AE_CANCELLED
  | EV_REJECTED | EV_REJECTED_TRANSITION => Some AE_REJECTED
  | EV_EXPIRED => Some AE_EXPIRED
  | EV_FAILED => Some AE_FAILED
  | EV_PLANNED | EV_ARMED | EV_OPENED => None
  end.

(** ** validation.ts *)

Definition shutdownReason (session : AdapterSession) : option AdapterFailureReason :=
  if bool_decide (as_status session = AH_SHUTDOWN) then Some ADAPTER_SHUTDOWN else None.

Definition boundState (session : AdapterSession) : option ExecutionState := as_core session.

(** The loop over the plan's orders: the first unsound one decides. *)
Fixpoint orderIntegrityReason (orders : list ExecutionOrder) : option AdapterFailureReason :=
  match orders with
  | [] => None
  | o :: rest =>
      if bool_decide (o_orderId o = "") then Some MISSING_ORDER_IDS
      else if negb (isFinite (o_createdAt o)) || negb (isFinite (o_updatedAt o))
      then Some MISSING_TIMESTAMPS
      else orderIntegrityReason rest
  end.

Definition planIntegrityReason (state : ExecutionState) : option AdapterFailureReason :=
  match st_plan state with
  | None => Some (AF_core NO_PLAN)
  | Some plan =>
      if negb (isFinite (pl_createdAt plan)) then Some MISSING_TIMESTAMPS
      else orderIntegrityReason (pl_orders plan)
  end.

Definition validateSubmit (session : AdapterSession) (runtime : RuntimeContext) :
    option AdapterFailureReason :=
  match shutdownReason session, boundState session with
  | Some sd, _ => Some sd
  | None, None => Some NOT_BOUND
  | None, Some state =>
      if isTerminal (st_status state) then Some TERMINAL
      else if as_submitted session then Some DUPLICATE_SUBMIT
      else match runtimeBlockReason runtime with
      | Some r => Some (AF_core r)
      | None =>
        match st_plan state with
        | None => Some (AF_core NO_PLAN)
        | Some plan =>
            if negb (pl_submittable plan)
            then Some (AF_core (default VALIDATION_FAILED (pl_blockedReason plan)))
            else planIntegrityReason state
        end
      end
  end.

Definition validateAcknowledge (session : AdapterSession) : option AdapterFailureReason :=
  match shutdownReason session, boundState session with
  | Some sd, _ => Some sd
  | None, None => Some NOT_BOUND
  | None, Some state =>
      if isTerminal (st_status state) then Some TERMINAL
      else if negb (as_submitted session) then Some NOT_SUBMITTED
      else None
  end.

(** [!orderId || !state.orders.some((o) => o.orderId === orderId)] *)
Definition unknownOrder (state : ExecutionState) (orderId : string) : bool :=
  bool_decide (orderId = "") ||
  negb (existsb (fun o => bool_decide (o_orderId o = orderId)) (st_orders state)).

Definition validateFill (session : AdapterSession) (orderId : string) (price quantity : number) :
    option AdapterFailureReason :=
  match shutdownReason session, boundState session with
  | Some sd, _ => Some sd
  | None, None => Some NOT_BOUND
  | None, Some state =>
      if isTerminal (st_status state) then Some TERMINAL
      else if negb (as_submitted session) then Some NOT_SUBMITTED
      else if unknownOrder state orderId then Some UNKNOWN_ORDER
      else if negb (isFinite price) || negb (isFinite quantity) || nle quantity (nint 0)
      then Some (AF_core VALIDATION_FAILED)
      else None
  end.

Definition validateCancel (session : AdapterSession) (orderId : string) :
    option AdapterFailureReason :=
  match shutdownReason session, boundState session with
  | Some sd, _ => Some sd
  | None, None => Some NOT_BOUND
  | None, Some state =>
      if isTerminal (st_status state) then Some TERMINAL
      else if unknownOrder state orderId then Some UNKNOWN_ORDER
      else None
  end.

Definition validateCancelAll (session : AdapterSession) : option AdapterFailureReason :=
  match shutdownReason session, boundState session with
  | Some sd, _ => Some sd
  | None, None => Some NOT_BOUND
  | None, Some state => if isTerminal (st_status state) then Some TERMINAL else None
  end.
