(* ===== verification/Adapter.v ===== *)
(** * Adapter: the execution adapter and its two implementations

    packages/execution-adapter/src/adapter.ts (the contract and the helpers that
    drive the core reducer), null.ts, paper.ts and factory.ts.  The TypeScript
    interface [ExecutionAdapter] is a record of functions; [NullExecutionAdapter]
    and [PaperExecutionAdapter] are its two values. *)

From S2P Require Import Prelude JsNumber ExecTypes ExecState AdapterTypes.

Local Open Scope string_scope.
Local Open Scope list_scope.

(** ** adapter.ts: the contract *)

Record ExecutionAdapter := {
  ea_kind : AdapterKind;
  ea_submit : AdapterSession -> number -> RuntimeContext -> AdapterResult;
  ea_acknowledge : AdapterSession -> number -> AdapterResult;
  ea_fill : AdapterSession -> number -> string -> number -> number -> AdapterResult;
  ea_cancel : AdapterSession -> number -> string -> option string -> AdapterResult;
  ea_cancelAll : AdapterSession -> number -> option string -> AdapterResult;
  ea_replace : AdapterSession -> number -> string -> option string -> AdapterResult;
  ea_shutdown : AdapterSession -> number -> option string -> AdapterResult;
  ea_status : AdapterSession -> AdapterStatusView;
  ea_health : AdapterSession -> AdapterHealth
}.

(** The operation a command asks for. *)
Definition perform (A : ExecutionAdapter) (session : AdapterSession) (cmd : AdapterCommand) :
    AdapterResult :=
  match cmd with
  | AC_SUBMIT a runtime => ea_submit A session a runtime
  | AC_ACKNOWLEDGE a => ea_acknowledge A session a
  | AC_FILL a oid price quantity => ea_fill A session a oid price quantity
  | AC_CANCEL a oid reason => ea_cancel A session a oid reason
  | AC_CANCEL_ALL a reason => ea_cancelAll A session a reason
  | AC_REPLACE a oid reason => ea_replace A session a oid reason
  | AC_SHUTDOWN a reason => ea_shutdown A session a reason
  end.

(** ** adapter.ts: results *)

Definition fail (session : AdapterSession) (reason : AdapterFailureReason) (message : string)
    (at_ : number) (fatal : bool) : AdapterResult :=
  {| ar_ok := false; ar_session := session; ar_events := [];
     ar_error := Some {| ae_reason := reason; ae_message := message; ae_at := at_;
                         ae_fatal := fatal |} |}.

Definition succeed (session : AdapterSession) (events : list AdapterEvent) : AdapterResult :=
  {| ar_ok := true; ar_session := session; ar_events := events; ar_error := None |}.

(** [{ ...session, status, core, events, seq, submitted, updatedAt: at, clock: at }] *)
Definition session_update (s : AdapterSession) (status : AdapterHealthStatus)
    (core : option ExecutionState) (events : list AdapterEvent) (seq : nat)
    (submitted : bool) (at_ : number) : AdapterSession :=
  {| as_adapter := as_adapter s;
     as_mode := as_mode s;
     as_venue := as_venue s;
     as_status := status;
     as_intentId := as_intentId s;
     as_core := core;
     as_events := events;
     as_seq := seq;
     as_submitted := submitted;
     as_createdAt := as_createdAt s;
     as_updatedAt := at_;
     as_clock := at_ |}.

(** [{ ...session, core, updatedAt: at, clock: at }] *)
Definition with_core (s : AdapterSession) (core : ExecutionState) (at_ : number) : AdapterSession :=
  session_update s (as_status s) (Some core) (as_events s) (as_seq s) (as_submitted s) at_.

(** [{ ...session, status: "SHUTDOWN", updatedAt: at, clock: at }] *)
Definition with_shutdown (s : AdapterSession) (at_ : number) : AdapterSession :=
  session_update s AH_SHUTDOWN (as_core s) (as_events s) (as_seq s) (as_submitted s) at_.

(** [{ ...session, submitted: true }] *)
Definition with_submitted (s : AdapterSession) : AdapterSession :=
  {| as_adapter := as_adapter s;
     as_mode := as_mode s;
     as_venue := as_venue s;
     as_status := as_status s;
     as_intentId := as_intentId s;
     as_core := as_core s;
     as_events := as_events s;
     as_seq := as_seq s;
     as_submitted := true;
     as_createdAt := as_createdAt s;
     as_updatedAt := as_updatedAt s;
     as_clock := as_clock s |}.

(** ** adapter.ts: emission *)

(** [session.intentId ?? session.core?.intentId ?? "unbound"] *)
Definition session_intent (session : AdapterSession) : string :=
  match as_intentId session, as_core session with
  | Some i, _ => i
  | None, Some core => st_intentId core
  | None, None => "unbound"
  end.

Definition emit (session : AdapterSession) (orderId : option string) (type : AdapterEventType)
    (reason : string) (provenance : ExecutionProvenance) (ts : number) :
    AdapterSession * AdapterEvent :=
  let seq := S (as_seq session) in
  let event := makeAdapterEvent (session_intent session) seq (as_adapter session) orderId type
                 (as_mode session) (as_venue session) reason provenance ts in
  (session_update session (as_status session) (as_core session) (as_events session ++ [event])
     seq (as_submitted session) ts, event).

(** ** adapter.ts: driving the core *)

Definition coreError (result : ExecutionResult) (at_ : number) : AdapterError :=
  match er_failure result with
  | Some f => {| ae_reason := AF_core (fl_reason f); ae_message := fl_message f;
                 ae_at := at_; ae_fatal := fl_fatal f |}
  | None => {| ae_reason := AF_core VALIDATION_FAILED;
               ae_message := "core rejected transition"; ae_at := at_; ae_fatal := false |}
  end.

(** The outcome of driving the core: the fields of the literal the helpers return. *)
Record Driven := {
  dr_ok : bool;
  dr_session : AdapterSession;
  dr_events : list AdapterEvent;
  dr_error : option AdapterError
}.

Definition not_driven (session : AdapterSession) (e : AdapterError) : Driven :=
  {| dr_ok := false; dr_session := session; dr_events := []; dr_error := Some e |}.

Definition not_bound (at_ : number) : AdapterError :=
  {| ae_reason := NOT_BOUND; ae_message := "no core state"; ae_at := at_; ae_fatal := false |}.

Definition driveSilent (session : AdapterSession) (command : ExecutionCommand) : Driven :=
  match as_core session with
  | None => not_driven session (not_bound (cmd_at command))
  | Some core =>
      let result := advanceExecution core command in
      if negb (er_ok result) then not_driven session (coreError result (cmd_at command))
      else {| dr_ok := true; dr_session := with_core session (er_state result) (cmd_at command);
              dr_events := []; dr_error := None |}
  end.

(** [orderIdOverride] is [None] when the argument is left out. *)
Definition driveAndEmit (session : AdapterSession) (command : ExecutionCommand)
    (orderIdOverride : option (option string)) : Driven :=
  match as_core session with
  | None => not_driven session (not_bound (cmd_at command))
  | Some core =>
      let result := advanceExecution core command in
      if negb (er_ok result) then not_driven session (coreError result (cmd_at command))
      else
        let next := with_core session (er_state result) (cmd_at command) in
        match er_event result ≫= (fun ev => (fun t => (ev, t)) <$> mapCoreEventType (ev_type ev)) with
        | None => {| dr_ok := true; dr_session := next; dr_events := []; dr_error := None |}
        | Some (coreEvent, type) =>
            let orderId :=
              match orderIdOverride with
              | Some o => o
              | None => if bool_decide (ev_entity coreEvent = EN_ORDER)
                        then Some (ev_entityId coreEvent) else None
              end in
            let '(next, event) := emit next orderId type (ev_reason coreEvent)
                                    (ev_provenance coreEvent) (cmd_at command) in
            {| dr_ok := true; dr_session := next; dr_events := [event]; dr_error := None |}
        end
  end.

Definition toResult (o : Driven) : AdapterResult :=
  if dr_ok o then succeed (dr_session o) (dr_events o)
  else {| ar_ok := false; ar_session := dr_session o; ar_events := []; ar_error := dr_error o |}.

(** ** adapter.ts: read views *)

Definition orderView (o : ExecutionOrder) : AdapterOrderView :=
  {| aov_orderId := o_orderId o;
     aov_role := o_role o;
     aov_side := o_side o;
     aov_status := o_status o;
     aov_price := o_price o;
     aov_quantity := o_quantity o;
     aov_filledQuantity := o_filledQuantity o |}.

Definition positionView (p : ExecutionPosition) : AdapterPositionView :=
  {| apv_status := po_status p;
     apv_quantity := po_quantity p;
     apv_entryQuantity := po_entryQuantity p;
     apv_closedQuantity := po_closedQuantity p;
     apv_avgEntryPrice := po_avgEntryPrice p |}.

Definition buildStatusView (session : AdapterSession) : AdapterStatusView :=
  match as_core session with
  | None =>
      {| asv_bound := false;
         asv_intentId := as_intentId session;
         asv_executionStatus := None;
         asv_terminal := false;
         asv_submitted := as_submitted session;
         asv_orders := [];
         asv_position := None;
         asv_eventCount := length (as_events session);
         asv_lastEventSeq := as_seq session |}
  | Some state =>
      {| asv_bound := true;
         asv_intentId := Some (st_intentId state);
         asv_executionStatus := Some (st_status state);
         asv_terminal := isTerminal (st_status state);
         asv_submitted := as_submitted session;
         asv_orders := orderView <$> st_orders state;
         asv_position := positionView <$> st_position state;
         asv_eventCount := length (as_events session);
         asv_lastEventSeq := as_seq session |}
  end.

Definition buildHealth (session : AdapterSession) (reason : string) : AdapterHealth :=
  let bound := match as_core session with Some _ => true | None => false end in
  let terminal := match as_core session with
                  | Some state => isTerminal (st_status state)
                  | None => false
                  end in
  {| ah_kind := as_adapter session;
     ah_mode := as_mode session;
     ah_venue := as_venue session;
     ah_status := as_status session;
     ah_bound := bound;
     ah_submitted := as_submitted session;
     ah_terminal := terminal;
     ah_canSubmit := bool_decide (as_status session = AH_READY) && bound
                     && negb (as_submitted session) && negb terminal;
     ah_reason := reason |}.

(** ** null.ts *)

Definition UNAVAILABLE_TEXT : string := "no execution venue is bound (null adapter)".

Definition null_refuse (what : string) (session : AdapterSession) (at_ : number) : AdapterResult :=
  fail session ADAPTER_UNAVAILABLE (what +:+ " refused — " +:+ UNAVAILABLE_TEXT) at_ false.

Definition null_shutdown (session : AdapterSession) (at_ : number) (reason : option string) :
    AdapterResult :=
  {| ar_ok := true; ar_session := with_shutdown session at_; ar_events := []; ar_error := None |}.

Definition NullExecutionAdapter : ExecutionAdapter :=
  {| ea_kind := AK_NULL;
     ea_submit s a _ := null_refuse "submit" s a;
     ea_acknowledge s a := null_refuse "acknowledge" s a;
     ea_fill s a _ _ _ := null_refuse "fill" s a;
     ea_cancel s a _ _ := null_refuse "cancel" s a;
     ea_cancelAll s a _ := null_refuse "cancelAll" s a;
     ea_replace s a _ _ := null_refuse "replace" s a;
     ea_shutdown := null_shutdown;
     ea_status := buildStatusView;
     ea_health s := buildHealth s UNAVAILABLE_TEXT |}.

(** ** paper.ts *)

Definition rejected_because (session : AdapterSession) (what : string)
    (reason : AdapterFailureReason) (at_ : number) (fatal : bool) : AdapterResult :=
  fail session reason (what +:+ " rejected: " +:+ showAdapterReason reason) at_ fatal.

Definition is_terminal_reason (r : AdapterFailureReason) : bool := bool_decide (r = TERMINAL).

Definition paper_submit (session : AdapterSession) (at_ : number) (runtime : RuntimeContext) :
    AdapterResult :=
  match validateSubmit session runtime with
  | Some (AF_core KILL_SWITCH) =>
      let driven := driveAndEmit session (KILL at_) None in
      {| ar_ok := false; ar_session := dr_session driven; ar_events := dr_events driven;
         ar_error := Some {| ae_reason := AF_core KILL_SWITCH;
           ae_message := "kill switch engaged → execution cancelled"; ae_at := at_;
           ae_fatal := false |} |}
  | Some (AF_core RUNTIME_UNHEALTHY) =>
      let driven := driveAndEmit session (CMD_RUNTIME_UNHEALTHY at_) None in
      {| ar_ok := false; ar_session := dr_session driven; ar_events := dr_events driven;
         ar_error := Some {| ae_reason := AF_core RUNTIME_UNHEALTHY;
           ae_message := "runtime unhealthy → execution failed"; ae_at := at_;
           ae_fatal := true |} |}
  | Some reason => rejected_because session "submit" reason at_ (is_terminal_reason reason)
  | None =>
      let armed := driveSilent session (ARM at_) in
      if negb (dr_ok armed) then
        {| ar_ok := false; ar_session := session; ar_events := []; ar_error := dr_error armed |}
      else
        let submitted := driveAndEmit (dr_session armed) (SUBMIT at_) None in
        if negb (dr_ok submitted) then
          {| ar_ok := false; ar_session := session; ar_events := []; ar_error := dr_error submitted |}
        else succeed (with_submitted (dr_session submitted)) (dr_events submitted)
  end.

Definition paper_acknowledge (session : AdapterSession) (at_ : number) : AdapterResult :=
  match validateAcknowledge session with
  | Some reason => rejected_because session "acknowledge" reason at_ (is_terminal_reason reason)
  | None => toResult (driveAndEmit session (ACKNOWLEDGE at_) None)
  end.

Definition paper_fill (session : AdapterSession) (at_ : number) (orderId : string)
    (price quantity : number) : AdapterResult :=
  match validateFill session orderId price quantity with
  | Some reason => rejected_because session "fill" reason at_ false
  | None =>
      let filled := driveAndEmit session (FILL at_ orderId price quantity) (Some (Some orderId)) in
      if negb (dr_ok filled) then
        {| ar_ok := false; ar_session := session; ar_events := []; ar_error := dr_error filled |}
      else
        let next := dr_session filled in
        let next :=
          match as_core next with
          | Some core =>
              if bool_decide (st_status core = ES_FILLED) then
                let opened := driveSilent next (OPEN at_) in
                if dr_ok opened then dr_session opened else next
              else next
          | None => next
          end in
        succeed next (dr_events filled)
  end.

Definition paper_cancel (session : AdapterSession) (at_ : number) (orderId : string)
    (reason : option string) : AdapterResult :=
  match validateCancel session orderId with
  | Some r => rejected_because session "cancel" r at_ (is_terminal_reason r)
  | None =>
      let text := default ("cancel requested for " +:+ orderId +:+ " → execution-scoped cancel") reason in
      toResult (driveAndEmit session (CANCEL at_ (Some text)) (Some None))
  end.

Definition paper_cancelAll (session : AdapterSession) (at_ : number) (reason : option string) :
    AdapterResult :=
  match validateCancelAll session with
  | Some r => rejected_because session "cancelAll" r at_ (is_terminal_reason r)
  | None =>
      toResult (driveAndEmit session (CANCEL at_ (Some (default "all orders cancelled" reason)))
                  (Some None))
  end.

Definition paper_replace (session : AdapterSession) (at_ : number) (orderId : string)
    (reason : option string) : AdapterResult :=
  fail session UNSUPPORTED_OPERATION
    "replace requires a live broker adapter — unavailable in the paper foundation" at_ false.

Definition paper_shutdown (session : AdapterSession) (at_ : number) (reason : option string) :
    AdapterResult :=
  if bool_decide (as_status session = AH_SHUTDOWN) then succeed session []
  else
    let live := match as_core session with
                | Some core => negb (lc_terminal (st_lifecycle core))
                | None => false
                end in
    let cancelled :=
      driveAndEmit session (CANCEL at_ (Some (default "adapter shutdown" reason))) (Some None) in
    let '(next, events) :=
      if live && dr_ok cancelled then (dr_session cancelled, dr_events cancelled)
      else (session, []) in
    succeed (with_shutdown next at_) events.

Definition paper_health (session : AdapterSession) : AdapterHealth :=
  buildHealth session
    (if bool_decide (as_status session = AH_SHUTDOWN) then "adapter shut down"
     else if as_submitted session then "execution already submitted"
     else match as_core session with
          | Some _ => "ready to submit"
          | None => "no execution bound"
          end).

Definition PaperExecutionAdapter : ExecutionAdapter :=
  {| ea_kind := AK_PAPER;
     ea_submit := paper_submit;
     ea_acknowledge := paper_acknowledge;
     ea_fill := paper_fill;
     ea_cancel := paper_cancel;
     ea_cancelAll := paper_cancelAll;
     ea_replace := paper_replace;
     ea_shutdown := paper_shutdown;
     ea_status := buildStatusView;
     ea_health := paper_health |}.

(** ** factory.ts *)

Record AdapterConfig := {
  cf_kind : option AdapterKind;
  cf_enabled : option bool
}.

Definition createAdapter (config : AdapterConfig) : ExecutionAdapter :=
  if bool_decide (cf_kind config = Some AK_PAPER) && bool_decide (cf_enabled config = Some true)
  then PaperExecutionAdapter else NullExecutionAdapter.

Definition HEALTH_FOR_KIND (k : AdapterKind) : AdapterHealthStatus :=
  match k with AK_PAPER => AH_READY | AK_NULL | AK_LIVE => AH_UNAVAILABLE end.

(** [opts.now], [opts.mode] and [opts.venue] are the last three arguments. *)
Definition createSession (adapter : ExecutionAdapter) (core : ExecutionState)
    (now : option number) (mode : option ExecutionMode) (venue : option ExecutionVenue) :
    AdapterSession :=
  let now := default (st_createdAt core) now in
  {| as_adapter := ea_kind adapter;
     as_mode := default (st_mode core) mode;
     as_venue := default (st_venue core) venue;
     as_status := HEALTH_FOR_KIND (ea_kind adapter);
     as_intentId := Some (st_intentId core);
     as_core := Some core;
     as_events := [];
     as_seq := 0;
     as_submitted := false;
     as_createdAt := now;
     as_updatedAt := now;
     as_clock := now |}.

Definition createEmptySession (adapter : ExecutionAdapter) (now : number)
    (mode : option ExecutionMode) (venue : option ExecutionVenue) : AdapterSession :=
  {| as_adapter := ea_kind adapter;
     as_mode := default SIMULATION mode;
     as_venue := default UNSET venue;
     as_status := HEALTH_FOR_KIND (ea_kind adapter);
     as_intentId := None;
     as_core := None;
     as_events := [];
     as_seq := 0;
     as_submitted := false;
     as_createdAt := now;
     as_updatedAt := now;
     as_clock := now |}.
