(* ===== verification/AdapterFacts.v ===== *)
(** * AdapterFacts: theory of the execution adapter

    [AdapterLaws] states what a session may rely on whatever adapter drives it: the
    event log only grows, gap-free, and the core moves by reducer commands only.
    Both adapters satisfy it; the invariants of sessions are proved from it. *)

From S2P Require Import Prelude JsNumber JsNumberFacts.
From S2P Require Import ExecTypes ExecOrders ExecPositions ExecIntent ExecState ExecFacts.
From S2P Require Import AdapterTypes Adapter.

Local Open Scope string_scope.
Local Open Scope list_scope.

(** ** The laws *)

(** [s'] is [s] after emitting [evs]. *)
Record extends (s s' : AdapterSession) (evs : list AdapterEvent) : Prop := {
  ex_adapter : as_adapter s' = as_adapter s;
  ex_mode : as_mode s' = as_mode s;
  ex_venue : as_venue s' = as_venue s;
  ex_intent : session_intent s' = session_intent s;
  ex_created : as_createdAt s' = as_createdAt s;
  ex_log : as_events s' = as_events s ++ evs;
  ex_seq : as_seq s' = as_seq s + length evs;
  ex_numbered : forall k e, evs !! k = Some e ->
    av_seq e = S (as_seq s + k) /\
    av_eventId e = adapterEventId (session_intent s) (S (as_seq s + k)) /\
    av_intentId e = session_intent s
}.

(** The managed execution moved by reducer commands, or there is none. *)
Definition core_reach (s s' : AdapterSession) : Prop :=
  match as_core s, as_core s' with
  | Some c, Some c' => run exec_step cmd_ok c c'
  | None, None => True
  | _, _ => False
  end.

(** Commands with canonical Numbers. *)
Definition ac_wf (cmd : AdapterCommand) : Prop :=
  match cmd with AC_FILL _ _ _ q => wf_number q | _ => True end.

Class AdapterLaws (A : ExecutionAdapter) := {
  law_extends s cmd :
    extends s (ar_session (perform A s cmd)) (ar_events (perform A s cmd));
  law_core s cmd : ac_wf cmd -> core_reach s (ar_session (perform A s cmd));
  law_submitted s cmd :
    as_submitted s = true -> as_submitted (ar_session (perform A s cmd)) = true;
  law_error s cmd :
    ar_ok (perform A s cmd) = bool_decide (ar_error (perform A s cmd) = None)
}.

(** ** Extension and core reachability compose *)

Lemma extends_refl s : extends s s [].
Proof. split; try done; by rewrite ?app_nil_r, ?Nat.add_0_r. Qed.

Lemma extends_trans s1 s2 s3 e1 e2 :
  extends s1 s2 e1 -> extends s2 s3 e2 -> extends s1 s3 (e1 ++ e2).
Proof.
  intros [A1 M1 V1 I1 C1 L1 S1 N1] [A2 M2 V2 I2 C2 L2 S2 N2].
  split; try congruence.
  - by rewrite L2, L1, app_assoc.
  - rewrite S2, S1, length_app. lia.
  - intros k e [He|[Hk He]]%lookup_app_Some; [by apply N1|].
    destruct (N2 _ _ He) as (E1 & E2 & E3). rewrite S1, I1 in *.
    replace (as_seq s1 + length e1 + (k - length e1)) with (as_seq s1 + k) in * by lia. done.
Qed.

Lemma core_reach_refl s : core_reach s s.
Proof. unfold core_reach. case_match; [constructor|done]. Qed.

Lemma core_reach_trans s1 s2 s3 : core_reach s1 s2 -> core_reach s2 s3 -> core_reach s1 s3.
Proof.
  unfold core_reach. destruct (as_core s1), (as_core s2), (as_core s3); try done.
  apply run_trans.
Qed.

#[export] Hint Resolve extends_refl core_reach_refl : adapter.

(** ** What the helpers do *)

(** One reducer command on the bound core. *)
Definition core_stepped (s : AdapterSession) (cmd : ExecutionCommand) (s' : AdapterSession) : Prop :=
  exists c, as_core s = Some c /\ er_ok (reduceExecution c cmd) = true /\
    as_core s' = Some (exec_step c cmd).

Record driven_ok (s : AdapterSession) (cmd : ExecutionCommand) (d : Driven) : Prop := {
  dv_extends : extends s (dr_session d) (dr_events d);
  dv_status : as_status (dr_session d) = as_status s;
  dv_submitted : as_submitted (dr_session d) = as_submitted s;
  dv_core : if dr_ok d then core_stepped s cmd (dr_session d) else dr_session d = s;
  dv_error : dr_ok d = bool_decide (dr_error d = None)
}.

Lemma reduce_intentId st cmd : st_intentId (er_state (reduceExecution st cmd)) = st_intentId st.
Proof. by destruct (reduceExecution_cases st cmd) as [(_ & -> & _)|(c & -> & _)]. Qed.

Lemma with_core_extends s c c' a :
  as_core s = Some c -> st_intentId c' = st_intentId c -> extends s (with_core s c' a) [].
Proof.
  intros Hc Hi. split; try done; simpl; rewrite ?app_nil_r, ?Nat.add_0_r; try done.
  unfold session_intent. simpl. rewrite Hc. case_match; congruence.
Qed.

Lemma emit_extends s oid t r pv ts :
  extends s (fst (emit s oid t r pv ts)) [snd (emit s oid t r pv ts)].
Proof.
  split; try done; simpl; try (by rewrite Nat.add_1_r).
  intros k e [-> <-]%list_lookup_singleton_Some. simpl. by rewrite Nat.add_0_r.
Qed.

Lemma not_driven_ok s cmd e : driven_ok s cmd (not_driven s e).
Proof. split; simpl; auto with adapter. Qed.

Lemma driveSilent_ok s cmd : driven_ok s cmd (driveSilent s cmd).
Proof.
  unfold driveSilent, advanceExecution. destruct (as_core s) as [c|] eqn:Hc; [|apply not_driven_ok].
  destruct (er_ok (reduceExecution c cmd)) eqn:Ho; simpl; [|apply not_driven_ok].
  split; simpl; [|done|done|by exists c|done].
  by eapply with_core_extends; [|apply reduce_intentId].
Qed.

Lemma driveAndEmit_ok s cmd o : driven_ok s cmd (driveAndEmit s cmd o).
Proof.
  unfold driveAndEmit, advanceExecution. destruct (as_core s) as [c|] eqn:Hc; [|apply not_driven_ok].
  destruct (er_ok (reduceExecution c cmd)) eqn:Ho; simpl; [|apply not_driven_ok].
  pose proof (with_core_extends s c (er_state (reduceExecution c cmd)) (cmd_at cmd) Hc
    (reduce_intentId c cmd)) as Hx.
  destruct (er_event _ ≫= _) as [[ev t]|]; simpl.
  - split; simpl; [|done|done|by exists c|done].
    eapply (extends_trans _ _ _ [] [_] Hx).
    apply (emit_extends (with_core s (er_state (reduceExecution c cmd)) (cmd_at cmd))).
  - split; simpl; [exact Hx|done|done|by exists c|done].
Qed.

Lemma core_stepped_reach s cmd s' : cmd_ok cmd -> core_stepped s cmd s' -> core_reach s s'.
Proof.
  intros Hw (c & Hc & _ & Hc'). unfold core_reach. rewrite Hc, Hc'.
  apply run_step; [constructor|done].
Qed.

Lemma driven_reach s cmd d : cmd_ok cmd -> driven_ok s cmd d -> core_reach s (dr_session d).
Proof.
  intros Hw [_ _ _ Hc _]. destruct (dr_ok d); [by eapply core_stepped_reach|].
  rewrite Hc. apply core_reach_refl.
Qed.

(** ** Both adapters obey the laws *)

(** The laws for one result. *)
Record result_ok (s : AdapterSession) (wf : Prop) (r : AdapterResult) : Prop := {
  rs_extends : extends s (ar_session r) (ar_events r);
  rs_core : wf -> core_reach s (ar_session r);
  rs_submitted : as_submitted s = true -> as_submitted (ar_session r) = true;
  rs_error : ar_ok r = bool_decide (ar_error r = None)
}.

Lemma fail_ok s wf reason m a f : result_ok s wf (fail s reason m a f).
Proof. split; simpl; auto with adapter. Qed.

Lemma toResult_ok s wf cmd d :
  (wf -> cmd_ok cmd) -> driven_ok s cmd d -> result_ok s wf (toResult d).
Proof.
  intros Hw Hd. assert (wf -> core_reach s (dr_session d)) as Hr
    by (intros; eapply driven_reach; eauto).
  destruct Hd as [Hx Hst Hsub Hc He]. unfold toResult.
  destruct (dr_ok d) eqn:Ho.
  - by split; simpl; [| |congruence|].
  - split; simpl; [by rewrite Hc; apply extends_refl|by rewrite Hc; intros; apply core_reach_refl
      |by rewrite Hc|done].
Qed.

(** A driven step whose session and events are both kept, success or not. *)
Lemma kept_ok s wf cmd d e :
  (wf -> cmd_ok cmd) -> driven_ok s cmd d ->
  result_ok s wf {| ar_ok := false; ar_session := dr_session d; ar_events := dr_events d;
                    ar_error := Some e |}.
Proof.
  intros Hw Hd. split; simpl; [apply Hd| |by rewrite (dv_submitted _ _ _ Hd)|done].
  intros H. eapply driven_reach; [by apply Hw|done].
Qed.

Lemma shutdown_extends s s' evs a : extends s s' evs -> extends s (with_shutdown s' a) evs.
Proof. intros []. by split. Qed.

Lemma shutdown_reach s s' a : core_reach s s' -> core_reach s (with_shutdown s' a).
Proof. done. Qed.

Lemma null_perform_ok s cmd : result_ok s (ac_wf cmd) (perform NullExecutionAdapter s cmd).
Proof.
  destruct cmd; try apply fail_ok.
  split; simpl; [by apply shutdown_extends, extends_refl
    |intros _; apply shutdown_reach, core_reach_refl|done|done].
Qed.

#[export] Instance null_laws : AdapterLaws NullExecutionAdapter.
Proof. split; intros s cmd; apply (null_perform_ok s cmd). Qed.

Lemma unchanged_failure_ok s wf e :
  result_ok s wf {| ar_ok := false; ar_session := s; ar_events := []; ar_error := Some e |}.
Proof. split; simpl; auto with adapter. Qed.

Lemma driven_failed_error s cmd d :
  driven_ok s cmd d -> dr_ok d = false -> exists e, dr_error d = Some e.
Proof.
  intros [_ _ _ _ He] Ho. rewrite Ho in He. symmetry in He. bool_hyps.
  destruct (dr_error d); [by eexists|done].
Qed.

Lemma paper_submit_ok s a rt wf : result_ok s wf (paper_submit s a rt).
Proof.
  assert (forall r, result_ok s wf (rejected_because s "submit" r a (is_terminal_reason r))) as Hrej
    by (intros; apply fail_ok).
  unfold paper_submit. destruct (validateSubmit s rt) as [[[]| | | | | | | | | |]|]; try apply Hrej.
  - eapply (kept_ok s wf (KILL a)); [done|apply driveAndEmit_ok].
  - eapply (kept_ok s wf (CMD_RUNTIME_UNHEALTHY a)); [done|apply driveAndEmit_ok].
  - set (armed := driveSilent s (ARM a)).
    pose proof (driveSilent_ok s (ARM a)) as H1. fold armed in H1.
    destruct (dr_ok armed) eqn:Ho1; simpl.
    2:{ destruct (driven_failed_error _ _ _ H1 Ho1) as [e ->]. apply unchanged_failure_ok. }
    set (sub := driveAndEmit (dr_session armed) (SUBMIT a) None).
    pose proof (driveAndEmit_ok (dr_session armed) (SUBMIT a) None) as H2. fold sub in H2.
    destruct (dr_ok sub) eqn:Ho2; simpl.
    2:{ destruct (driven_failed_error _ _ _ H2 Ho2) as [e ->]. apply unchanged_failure_ok. }
    assert (dr_events armed = []) as Ev.
    { unfold armed, driveSilent. by repeat case_match. }
    split; simpl; [| |done|done].
    + destruct (extends_trans _ _ _ _ _ (dv_extends _ _ _ H1) (dv_extends _ _ _ H2)) as [].
      rewrite Ev in *. by split.
    + intros _. apply (core_reach_trans _ (dr_session armed)); [by apply (driven_reach s (ARM a))|].
      change (core_reach (dr_session armed) (dr_session sub)).
      by apply (driven_reach _ (SUBMIT a)).
Qed.

Lemma paper_fill_ok s a oid p q : result_ok s (wf_number q) (paper_fill s a oid p q).
Proof.
  unfold paper_fill. destruct (validateFill s oid p q) as [r|] eqn:Hv; [apply fail_ok|].
  assert (isFinite q = true) as Fq.
  { revert Hv. unfold validateFill. repeat case_match; try done. intros _. by bool_hyps. }
  assert (wf_number q -> cmd_ok (FILL a oid p q)) as Hw
    by (intros; split; [done|by apply isFinite_notNaN]).
  set (f := driveAndEmit s _ _).
  pose proof (driveAndEmit_ok s (FILL a oid p q) (Some (Some oid))) as H1. fold f in H1.
  destruct (dr_ok f) eqn:Ho; simpl.
  2:{ destruct (driven_failed_error _ _ _ H1 Ho) as [e ->]. apply unchanged_failure_ok. }
  assert (result_ok s (wf_number q) (succeed (dr_session f) (dr_events f))) as Hf.
  { split; simpl; [apply H1|intros; by eapply driven_reach; [apply Hw|]
      |by rewrite (dv_submitted _ _ _ H1)|done]. }
  destruct (as_core (dr_session f)) as [core|]; [|done].
  case_bool_decide; [|done].
  pose proof (driveSilent_ok (dr_session f) (OPEN a)) as H2.
  destruct (dr_ok (driveSilent (dr_session f) (OPEN a))) eqn:Ho2; [|done].
  assert (dr_events (driveSilent (dr_session f) (OPEN a)) = []) as Ev.
  { unfold driveSilent. by repeat case_match. }
  split; simpl; [| | |done].
  - rewrite <- (app_nil_r (dr_events f)), <- Ev. eapply extends_trans; [apply H1|apply H2].
  - intros Hq. apply (core_reach_trans _ (dr_session f)).
    + by apply (driven_reach s (FILL a oid p q)); [apply Hw|].
    + by apply (driven_reach _ (OPEN a)).
  - by rewrite (dv_submitted _ _ _ H2), (dv_submitted _ _ _ H1).
Qed.

Lemma paper_shutdown_ok s a reason wf : result_ok s wf (paper_shutdown s a reason).
Proof.
  unfold paper_shutdown. case_bool_decide; [split; simpl; auto with adapter|].
  set (live := match as_core s with Some _ => _ | None => _ end).
  set (d := driveAndEmit s _ _). pose proof (driveAndEmit_ok s
    (CANCEL a (Some (default "adapter shutdown" reason))) (Some None)) as H1. fold d in H1.
  destruct (live && dr_ok d).
  - split; simpl; [by apply shutdown_extends, H1|intros _; apply shutdown_reach; by refine (driven_reach s _ d _ H1)
      |by rewrite (dv_submitted _ _ _ H1)|done].
  - split; simpl; [by apply shutdown_extends, extends_refl
    |intros _; apply shutdown_reach, core_reach_refl|done|done].
Qed.

Lemma paper_perform_ok s cmd : result_ok s (ac_wf cmd) (perform PaperExecutionAdapter s cmd).
Proof.
  destruct cmd; simpl.
  - apply paper_submit_ok.
  - unfold paper_acknowledge. case_match; [apply fail_ok|].
    eapply toResult_ok; [|apply driveAndEmit_ok]. done.
  - apply paper_fill_ok.
  - unfold paper_cancel. case_match; [apply fail_ok|].
    eapply toResult_ok; [|apply driveAndEmit_ok]. done.
  - unfold paper_cancelAll. case_match; [apply fail_ok|].
    eapply toResult_ok; [|apply driveAndEmit_ok]. done.
  - apply fail_ok.
  - apply paper_shutdown_ok.
Qed.

#[export] Instance paper_laws : AdapterLaws PaperExecutionAdapter.
Proof. split; intros s cmd; apply (paper_perform_ok s cmd). Qed.

#[export] Instance createAdapter_laws cfg : AdapterLaws (createAdapter cfg).
Proof. unfold createAdapter. case_match; apply _. Qed.

(** ** Submission through the paper adapter *)

Lemma orderIntegrity_sound os :
  Forall (fun o => o_orderId o <> "" /\ isFinite (o_createdAt o) = true /\
    isFinite (o_updatedAt o) = true) os -> orderIntegrityReason os = None.
Proof.
  induction 1 as [|o os (Hid & Hc & Hu) _ IH]; [done|]. simpl.
  by rewrite bool_decide_false, Hc, Hu.
Qed.

Lemma orderId_nonempty p r n : orderId p r n <> "".
Proof. by destruct p. Qed.

Lemma planOrders_stamps i o :
  o ∈ pl_orders (buildExecutionPlan i) ->
  o_orderId o <> "" /\ o_createdAt o = in_createdAt i /\ o_updatedAt o = in_createdAt i.
Proof.
  simpl. rewrite !elem_of_cons.
  intros [-> |[-> |(j & t & -> & _)%elem_of_lookup_imap]]; (split; [apply orderId_nonempty|done]).
Qed.

Lemma planIntegrity_sound i st :
  st_plan st = Some (buildExecutionPlan i) -> isFinite (in_createdAt i) = true ->
  planIntegrityReason st = None.
Proof.
  intros Hp Hf. unfold planIntegrityReason. rewrite Hp.
  change (pl_createdAt (buildExecutionPlan i)) with (in_createdAt i). rewrite Hf. simpl negb. cbv iota.
  apply orderIntegrity_sound, Forall_forall. intros o Ho.
  destruct (planOrders_stamps i o Ho) as (? & -> & ->). done.
Qed.

(** What the submit gate answers for a planned execution of an intent. *)
Lemma validateSubmit_planned i s core rt :
  as_status s <> AH_SHUTDOWN -> as_submitted s = false -> as_core s = Some core ->
  st_status core = ES_PLANNED -> st_plan core = Some (buildExecutionPlan i) ->
  isFinite (in_createdAt i) = true ->
  validateSubmit s rt =
    match runtimeBlockReason rt with
    | Some r => Some (AF_core r)
    | None => AF_core <$> checkSubmittable i
    end.
Proof.
  intros Hs Hsub Hc Hst Hp Hf. unfold validateSubmit, shutdownReason, boundState.
  rewrite bool_decide_false, Hc, Hst, Hsub, Hp by done. simpl.
  case_match; [done|]. change (pl_submittable (buildExecutionPlan i))
    with (bool_decide (checkSubmittable i = None)).
  change (pl_blockedReason (buildExecutionPlan i)) with (checkSubmittable i).
  case_bool_decide as E.
  - rewrite E. simpl. by eapply planIntegrity_sound.
  - simpl. by destruct (checkSubmittable i).
Qed.

Lemma checkSubmittable_reasons i r :
  checkSubmittable i = Some r -> r <> KILL_SWITCH /\ r <> RUNTIME_UNHEALTHY.
Proof. unfold checkSubmittable. repeat case_match; intros [= <-]; done. Qed.

Lemma drive_kill s core a o :
  as_core s = Some core -> isTerminal (st_status core) = false ->
  let d := driveAndEmit s (KILL a) o in
  dr_ok d = true /\ as_core (dr_session d) = Some (exec_step core (KILL a)) /\
  av_type <$> dr_events d = [AE_CANCELLED].
Proof.
  intros Hc Ht. unfold driveAndEmit, advanceExecution, exec_step.
  rewrite Hc, reduce_kill by done. done.
Qed.

Lemma drive_unhealthy s core a o :
  as_core s = Some core -> isTerminal (st_status core) = false ->
  let d := driveAndEmit s (CMD_RUNTIME_UNHEALTHY a) o in
  dr_ok d = true /\ as_core (dr_session d) = Some (exec_step core (CMD_RUNTIME_UNHEALTHY a)) /\
  av_type <$> dr_events d = [AE_FAILED].
Proof.
  intros Hc Ht. unfold driveAndEmit, advanceExecution, exec_step.
  rewrite Hc, reduce_unhealthy by done. done.
Qed.

(** ARM and SUBMIT of a submittable plan. *)
Lemma reduce_arm i st a :
  st_status st = ES_PLANNED -> st_plan st = Some (buildExecutionPlan i) -> submit_ready i ->
  let r := reduceExecution st (ARM a) in
  er_ok r = true /\ st_status (er_state r) = ES_READY /\
  st_plan (er_state r) = Some (buildExecutionPlan i).
Proof.
  intros Hs Hp Hr. unfold reduceExecution, reduceArm, move.
  by rewrite Hs, Hp, (submit_ready_plan i Hr).
Qed.

Lemma reduce_submit i st a :
  st_status st = ES_READY -> st_plan st = Some (buildExecutionPlan i) -> submit_ready i ->
  let r := reduceExecution st (SUBMIT a) in
  er_ok r = true /\ st_status (er_state r) = ES_SUBMITTED /\
  exists e, er_event r = Some e /\ ev_type e = EV_SUBMITTED.
Proof.
  intros Hs Hp Hr. unfold reduceExecution, reduceSubmit, move.
  rewrite Hs, Hp, (submit_ready_plan i Hr). simpl. split; [done|split; [done|]]. by eexists.
Qed.

Lemma paper_submit_ready i s core a rt :
  validateSubmit s rt = None -> as_core s = Some core ->
  st_status core = ES_PLANNED -> st_plan core = Some (buildExecutionPlan i) -> submit_ready i ->
  let r := paper_submit s a rt in
  ar_ok r = true /\ (st_status <$> as_core (ar_session r)) = Some ES_SUBMITTED /\
  av_type <$> ar_events r = [AE_SUBMITTED] /\ as_submitted (ar_session r) = true.
Proof.
  intros Hv Hc Hst Hp Hr. unfold paper_submit. rewrite Hv.
  destruct (reduce_arm i core a Hst Hp Hr) as (O1 & S1 & P1).
  destruct (reduce_submit i _ a S1 P1 Hr) as (O2 & S2 & e & E2 & T2).
  unfold driveSilent, advanceExecution. rewrite Hc. revert O1 O2 S2 E2.
  generalize (reduceExecution core (ARM a)). intros r1 O1. rewrite O1. simpl.
  unfold driveAndEmit, advanceExecution. cbn [as_core with_core session_update].
  generalize (reduceExecution (er_state r1) (SUBMIT a)). intros r2 O2 S2 E2.
  rewrite O2, E2. simpl. rewrite T2. simpl. by rewrite S2.
Qed.

(** ** Shutdown *)

(** After shutdown nothing runs: the session keeps its core and its log. *)
Lemma paper_shut_inert s cmd :
  as_status s = AH_SHUTDOWN ->
  let r := perform PaperExecutionAdapter s cmd in
  ar_session r = s /\ ar_events r = [] /\
  match cmd with AC_SHUTDOWN _ _ => ar_ok r = true | _ => ar_ok r = false end.
Proof.
  intros Hs. assert (shutdownReason s = Some ADAPTER_SHUTDOWN) as E
    by (unfold shutdownReason; by rewrite bool_decide_true).
  destruct cmd; simpl; try done.
  - unfold paper_submit, validateSubmit. by rewrite E.
  - unfold paper_acknowledge, validateAcknowledge. by rewrite E.
  - unfold paper_fill, validateFill. by rewrite E.
  - unfold paper_cancel, validateCancel. by rewrite E.
  - unfold paper_cancelAll, validateCancelAll. by rewrite E.
  - unfold paper_shutdown. by rewrite bool_decide_true.
Qed.

Lemma reduce_cancel st a reason :
  isTerminal (st_status st) = false ->
  reduceExecution st (CANCEL a reason) = reduceCancel st reason a /\
  er_ok (reduceExecution st (CANCEL a reason)) = true /\
  st_status (exec_step st (CANCEL a reason)) = ES_CANCELLED.
Proof.
  intros Ht. destruct (nonterminal_exits _ Ht) as [Hc _].
  unfold exec_step, reduceExecution. rewrite Ht. simpl. unfold reduceCancel, move. by rewrite Hc.
Qed.

(** Shutting down a live execution cancels it. *)
Lemma paper_shutdown_cancels s core a reason :
  as_status s <> AH_SHUTDOWN -> as_core s = Some core -> trail_ok core ->
  let s' := ar_session (paper_shutdown s a reason) in
  as_status s' = AH_SHUTDOWN /\
  exists core', as_core s' = Some core' /\ isTerminal (st_status core') = true /\
    (isTerminal (st_status core) = true -> core' = core).
Proof.
  intros Hs Hc Htr. unfold paper_shutdown. rewrite bool_decide_false, Hc by done.
  rewrite (tr_terminal _ Htr). destruct (isTerminal (st_status core)) eqn:Ht; simpl.
  - split; [done|]. exists core. done.
  - pose proof (driveAndEmit_ok s (CANCEL a (Some (default "adapter shutdown" reason))) (Some None))
      as Hd.
    destruct (reduce_cancel core a (Some (default "adapter shutdown" reason)) Ht) as (_ & Ho & Hst).
    assert (dr_ok (driveAndEmit s (CANCEL a (Some (default "adapter shutdown" reason))) (Some None))
      = true) as Hok.
    { unfold driveAndEmit, advanceExecution. rewrite Hc, Ho. simpl. by repeat case_match. }
    rewrite Hok. simpl. split; [done|].
    destruct Hd as [_ _ _ Hcore _]. rewrite Hok in Hcore. destruct Hcore as (c & Hc2 & _ & Hc').
    assert (c = core) as -> by congruence. eexists. split; [exact Hc'|]. by rewrite Hst.
Qed.

(** ** Duplicate submits *)

Lemma paper_submit_sets s a rt :
  ar_ok (paper_submit s a rt) = true -> as_submitted (ar_session (paper_submit s a rt)) = true.
Proof. unfold paper_submit. repeat (case_match; simpl; try done). Qed.

Lemma paper_submit_duplicate s a rt :
  as_submitted s = true ->
  ar_ok (paper_submit s a rt) = false /\ ar_session (paper_submit s a rt) = s /\
  ar_events (paper_submit s a rt) = [].
Proof.
  intros Hs. assert (exists r, validateSubmit s rt = Some r /\
    (r = ADAPTER_SHUTDOWN \/ r = NOT_BOUND \/ r = TERMINAL \/ r = DUPLICATE_SUBMIT)) as (r & E & Hr).
  { unfold validateSubmit, shutdownReason. rewrite Hs. repeat case_match; simplify_eq; eauto 10. }
  unfold paper_submit. rewrite E. by destruct Hr as [-> |[-> |[-> | ->]]].
Qed.

(** ** The session mirrors the core *)

(** What a venue hears of a core transition: planning, arming and opening are
    internal, a reduction is a partial fill and a closing a fill. *)
Definition announced (t : ExecutionEventType) : option AdapterEventType :=
  match t with
  | EV_PLANNED | EV_ARMED | EV_OPENED => None
  | EV_SUBMITTED => Some AE_SUBMITTED
  | EV_ACKNOWLEDGED => Some AE_ACKNOWLEDGED
  | EV_PARTIALLY_FILLED | EV_REDUCED => Some AE_PARTIAL_FILL
  | EV_FILLED | EV_CLOSED => Some AE_FILLED
  | EV_CANCELLED | EV_KILLED => Some AE_CANCELLED
  | EV_REJECTED | EV_REJECTED_TRANSITION => Some AE_REJECTED
  | EV_EXPIRED => Some AE_EXPIRED
  | EV_FAILED => Some AE_FAILED
  end.

(** The report of an adapter event, and the report a core event calls for. *)
Definition report (e : AdapterEvent) : AdapterEventType * string * ExecutionProvenance * number :=
  (av_type e, av_reason e, av_provenance e, av_ts e).

Definition relayed (e : ExecutionEvent) :
    option (AdapterEventType * string * ExecutionProvenance * number) :=
  (fun t => (t, ev_reason e, ev_provenance e, ev_ts e)) <$> announced (ev_type e).

(** From [s] to [s'] the core moved by reducer commands only, and the events the
    session gained report exactly the audit events the core gained. *)
Definition mirrors (s s' : AdapterSession) : Prop :=
  match as_core s, as_core s' with
  | Some c, Some c' =>
      run exec_step cmd_ok c c' /\
      exists news evs,
        au_events (st_audit c') = au_events (st_audit c) ++ news /\
        as_events s' = as_events s ++ evs /\ report <$> evs = omap relayed news
  | None, None => as_events s' = as_events s
  | _, _ => False
  end.

Lemma mirrors_refl s : mirrors s s.
Proof.
  unfold mirrors. case_match; [|done]. split; [constructor|].
  exists [], []. by rewrite !app_nil_r.
Qed.

Lemma mirrors_trans s1 s2 s3 : mirrors s1 s2 -> mirrors s2 s3 -> mirrors s1 s3.
Proof.
  unfold mirrors. destruct (as_core s1), (as_core s2), (as_core s3); try done; [|congruence].
  intros (R1 & n1 & l1 & A1 & E1 & P1) (R2 & n2 & l2 & A2 & E2 & P2).
  split; [by eapply run_trans|]. exists (n1 ++ n2), (l1 ++ l2).
  by rewrite A2, A1, E2, E1, !app_assoc, fmap_app, omap_app, P1, P2.
Qed.

#[export] Hint Resolve mirrors_refl : adapter.

(** An accepted command appends its event, stamped with its own time. *)
Lemma accepted_event c cmd :
  er_ok (reduceExecution c cmd) = true ->
  exists e, er_event (reduceExecution c cmd) = Some e /\ ev_ts e = cmd_at cmd /\
    au_events (st_audit (exec_step c cmd)) = au_events (st_audit c) ++ [e].
Proof.
  intros Ho. destruct (reduceExecution_cases c cmd) as [(H & _)|(k & E & _ & Ha & _)]; [congruence|].
  unfold exec_step. rewrite E. by eexists.
Qed.

Lemma driveAndEmit_mirrors s cmd o : cmd_ok cmd -> mirrors s (dr_session (driveAndEmit s cmd o)).
Proof.
  intros Hw. unfold driveAndEmit, advanceExecution.
  destruct (as_core s) as [c|] eqn:Hc; [|apply mirrors_refl].
  destruct (er_ok (reduceExecution c cmd)) eqn:Ho; [|apply mirrors_refl].
  destruct (accepted_event c cmd Ho) as (e & He & Ht & Ha).
  assert (run exec_step cmd_ok c (exec_step c cmd)) as Hr by (apply run_step; [constructor|done]).
  rewrite He. cbn [negb mbind option_bind].
  assert (mapCoreEventType (ev_type e) = announced (ev_type e)) as -> by (by destruct (ev_type e)).
  destruct (announced (ev_type e)) as [t|] eqn:Et; unfold mirrors; simpl; rewrite Hc;
    (split; [done|]); exists [e].
  - eexists. split; [done|]. split; [reflexivity|]. simpl. unfold relayed. by rewrite Et, Ht.
  - exists []. rewrite app_nil_r. split; [done|]. split; [done|]. simpl. unfold relayed. by rewrite Et.
Qed.

(** ARM and OPEN have nothing to report. *)
Lemma silent_event c cmd :
  (exists t, cmd = ARM t \/ cmd = OPEN t) -> er_ok (reduceExecution c cmd) = true ->
  forall e, er_event (reduceExecution c cmd) = Some e -> relayed e = None.
Proof.
  intros [t Hcmd] Ho e He. destruct (accepted_executes c cmd Ho) as [oc Hoc].
  destruct (executes_reaches c cmd oc Hoc) as [_ [_ _ _ _ _ _ _ _ (e' & He' & _ & Ht & _) _]].
  assert (e' = e) as -> by congruence. unfold relayed. rewrite Ht.
  by destruct Hcmd as [-> | ->]; inversion Hoc.
Qed.

Lemma driveSilent_mirrors s cmd :
  (exists t, cmd = ARM t \/ cmd = OPEN t) -> mirrors s (dr_session (driveSilent s cmd)).
Proof.
  intros Hcmd. unfold driveSilent, advanceExecution.
  destruct (as_core s) as [c|] eqn:Hc; [|apply mirrors_refl].
  destruct (er_ok (reduceExecution c cmd)) eqn:Ho; [|apply mirrors_refl].
  destruct (accepted_event c cmd Ho) as (e & He & _ & Ha).
  unfold mirrors. simpl. rewrite Hc. split.
  - apply (run_step exec_step); [constructor|]. by destruct Hcmd as [t [-> | ->]].
  - exists [e], []. rewrite app_nil_r. split; [done|]. split; [done|].
    simpl. by rewrite (silent_event c cmd Hcmd Ho e He).
Qed.

(** A session that differs in status, flags and times only. *)
Lemma mirrors_same s s' s'' :
  mirrors s s' -> as_core s'' = as_core s' -> as_events s'' = as_events s' -> mirrors s s''.
Proof. unfold mirrors. by intros H -> ->. Qed.

Lemma toResult_mirrors s d : mirrors s (dr_session d) -> mirrors s (ar_session (toResult d)).
Proof. unfold toResult. by case_match. Qed.

Lemma validFill_ok s a oid p q :
  validateFill s oid p q = None -> wf_number q -> cmd_ok (FILL a oid p q).
Proof.
  intros Hv Hq. split; [done|]. apply isFinite_notNaN.
  revert Hv. unfold validateFill. repeat case_match; try done. intros _. by bool_hyps.
Qed.

Lemma paper_submit_mirrors s a rt : mirrors s (ar_session (paper_submit s a rt)).
Proof.
  unfold paper_submit. destruct (validateSubmit s rt) as [[[]| | | | | | | | | |]|];
    simpl; auto with adapter; try (by apply driveAndEmit_mirrors).
  destruct (dr_ok (driveSilent s (ARM a))) eqn:Ho1; simpl; [|apply mirrors_refl].
  case_match; simpl; [apply mirrors_refl|].
  eapply mirrors_trans; [apply (driveSilent_mirrors s (ARM a)); by eauto|].
  eapply mirrors_same; [by apply (driveAndEmit_mirrors _ (SUBMIT a) None)|done..].
Qed.

Lemma paper_fill_mirrors s a oid p q :
  wf_number q -> mirrors s (ar_session (paper_fill s a oid p q)).
Proof.
  intros Hq. unfold paper_fill. destruct (validateFill s oid p q) eqn:Hv; [apply mirrors_refl|].
  pose proof (driveAndEmit_mirrors s (FILL a oid p q) (Some (Some oid)) (validFill_ok s a oid p q Hv Hq))
    as Hf.
  case_match; simpl; [apply mirrors_refl|].
  case_match; [|done]. case_bool_decide; [|done]. case_match; [|done].
  eapply mirrors_trans; [exact Hf|]. apply driveSilent_mirrors. eauto.
Qed.

Lemma paper_shutdown_mirrors s a reason : mirrors s (ar_session (paper_shutdown s a reason)).
Proof.
  unfold paper_shutdown. case_bool_decide; [apply mirrors_refl|].
  set (live := match as_core s with Some _ => _ | None => _ end).
  pose proof (driveAndEmit_mirrors s (CANCEL a (Some (default "adapter shutdown" reason))) (Some None))
    as Hd.
  destruct (live && _); simpl.
  - eapply mirrors_same; [by apply Hd|done..].
  - eapply mirrors_same; [apply mirrors_refl|done..].
Qed.

Lemma null_mirrors s cmd : mirrors s (ar_session (perform NullExecutionAdapter s cmd)).
Proof.
  destruct cmd; try apply mirrors_refl. eapply mirrors_same; [apply mirrors_refl|done..].
Qed.

Lemma paper_mirrors s cmd :
  ac_wf cmd -> mirrors s (ar_session (perform PaperExecutionAdapter s cmd)).
Proof.
  intros Hw. destruct cmd; simpl.
  - apply paper_submit_mirrors.
  - unfold paper_acknowledge. case_match; [apply mirrors_refl|].
    by apply toResult_mirrors, driveAndEmit_mirrors.
  - by apply paper_fill_mirrors.
  - unfold paper_cancel. case_match; [apply mirrors_refl|].
    by apply toResult_mirrors, driveAndEmit_mirrors.
  - unfold paper_cancelAll. case_match; [apply mirrors_refl|].
    by apply toResult_mirrors, driveAndEmit_mirrors.
  - apply mirrors_refl.
  - apply paper_shutdown_mirrors.
Qed.

(** Every operation of either adapter. *)
Lemma perform_mirrors cfg s cmd :
  ac_wf cmd -> mirrors s (ar_session (perform (createAdapter cfg) s cmd)).
Proof.
  intros Hw. unfold createAdapter. case_match; [by apply paper_mirrors|apply null_mirrors].
Qed.
