(* ===== verification/AdapterProps.v ===== *)
(** * AdapterProps: the properties of the execution adapter

    The log theorem holds of every adapter that obeys [AdapterLaws]; the others are
    about the adapters the factory returns, the null and the paper one. *)

From S2P Require Import Prelude JsNumber JsNumberFacts.
From S2P Require Import ExecTypes ExecOrders ExecPositions ExecIntent ExecState ExecFacts ExecProps.
From S2P Require Import AdapterTypes Adapter AdapterFacts.

Local Open Scope string_scope.
Local Open Scope list_scope.

Definition adapter_step (A : ExecutionAdapter) (s : AdapterSession) (cmd : AdapterCommand) :
    AdapterSession := ar_session (perform A s cmd).

(** ** Sessions of any lawful adapter *)

Section client.

Context (A : ExecutionAdapter) `{!AdapterLaws A}.

(** The log of a session: gap-free from 1, one id per event, all of one intent. *)
Record session_ok (s : AdapterSession) : Prop := {
  so_seq : as_seq s = length (as_events s);
  so_numbered : forall k e, as_events s !! k = Some e ->
    av_seq e = S k /\ av_eventId e = adapterEventId (session_intent s) (S k) /\
    av_intentId e = session_intent s
}.

Lemma extends_session_ok s s' evs : session_ok s -> extends s s' evs -> session_ok s'.
Proof using.
  intros [Hs Hn] [_ _ _ Hi _ Hl Hq He]. split.
  - by rewrite Hq, Hl, length_app, Hs.
  - intros k e. rewrite Hl, Hi. intros [H|[Hk H]]%lookup_app_Some; [by apply Hn|].
    destruct (He _ _ H) as (E1 & E2 & E3). rewrite Hs in *.
    replace (length (as_events s) + (k - length (as_events s))) with k in * by lia. done.
Qed.

Lemma adapter_run_log s0 s :
  session_ok s0 -> run (adapter_step A) (fun _ => True) s0 s ->
  session_ok s /\ session_intent s = session_intent s0 /\ as_adapter s = as_adapter s0 /\
  as_mode s = as_mode s0 /\ as_venue s = as_venue s0 /\ as_events s0 `prefix_of` as_events s.
Proof using All.
  intros H0 Hr. revert s Hr. apply run_inv; [done|].
  intros s cmd (Hok & Hi & Ha & Hm & Hv & Hp) _. unfold adapter_step.
  pose proof (law_extends s cmd) as Hx. split; [by eapply extends_session_ok|].
  destruct Hx as [? ? ? ? ? Hl _ _].
  do 4 (split; [congruence|]). rewrite Hl. by apply prefix_app_r.
Qed.

End client.

(** A session of an unsubmitted execution. *)
Definition session_of (A : ExecutionAdapter) (core : ExecutionState) : AdapterSession :=
  createSession A core None None None.

Lemma session_of_ok A core : session_ok (session_of A core).
Proof. by split. Qed.

(** ** Concrete sessions *)

Definition sample_planned : ExecutionState := exec_step (exec_init sample_intent) (PLAN sample_now).

Definition healthy : RuntimeContext :=
  {| rc_state := RS_HEALTHY; rc_killEngaged := false; rc_clock := sample_now |}.

Definition paper_commands : list AdapterCommand :=
  [AC_SUBMIT sample_now healthy; AC_ACKNOWLEDGE sample_now;
   AC_FILL sample_now (entry_id sample_intent) (nint 100) (ndec 6 1)].

Definition paper_session : AdapterSession :=
  foldl (adapter_step PaperExecutionAdapter) (session_of PaperExecutionAdapter sample_planned)
    paper_commands.

Lemma sample_planned_run : run exec_step cmd_ok (exec_init sample_intent) sample_planned.
Proof. apply run_step; [constructor|done]. Qed.

Lemma paper_session_run :
  run (adapter_step PaperExecutionAdapter) ac_wf
    (session_of PaperExecutionAdapter sample_planned) paper_session.
Proof. apply run_fold. repeat constructor; by vm_compute. Qed.

Lemma paper_session_run_any :
  run (adapter_step PaperExecutionAdapter) (fun _ => True)
    (session_of PaperExecutionAdapter sample_planned) paper_session.
Proof. apply run_fold. by repeat constructor. Qed.

(** ** Properties of every adapter *)

(** Whatever lawful adapter drives a session and whatever commands it is given,
    the adapter event log stays gap-free: the sequence equals the number of events,
    event k carries number k+1, the id derived from it and the session's intent; the
    log only grows, and kind, mode and venue of the session never change. *)
Theorem session_log_gap_free A `{!AdapterLaws A} core s :
  run (adapter_step A) (fun _ => True) (session_of A core) s ->
  as_seq s = length (as_events s) /\
  (forall k e, as_events s !! k = Some e ->
     av_seq e = S k /\ av_eventId e = adapterEventId (st_intentId core) (S k) /\
     av_intentId e = st_intentId core) /\
  as_adapter s = ea_kind A /\ as_mode s = st_mode core /\ as_venue s = st_venue core /\
  forall cmd, as_events s `prefix_of` as_events (adapter_step A s cmd).
Proof.
  intros Hr. destruct (adapter_run_log A _ s (session_of_ok A core) Hr)
    as ([Hs Hn] & Hi & Ha & Hm & Hv & _). rewrite Hi in Hn.
  do 5 (split; [done|]). intros cmd. unfold adapter_step.
  rewrite (ex_log _ _ _ (law_extends s cmd)). by apply prefix_app_r.
Qed.

Lemma session_log_gap_free_witness : as_seq paper_session = length (as_events paper_session).
Proof.
  exact (proj1 (session_log_gap_free PaperExecutionAdapter sample_planned _ paper_session_run_any)).
Defined.

(** C7. A session of the adapter the factory returns is a faithful mirror of the
    execution it manages.  Bound to a reachable execution and given any commands
    with canonical Numbers, its execution is one the core reducer reaches from there
    by commands that keep the fill accounting, so every invariant of the core holds
    of it; and its event log is exactly the report of the audit events the core
    gained since the bind, in order, each with the type the venue vocabulary has for
    it and the core's own reason, provenance and time: nothing is announced that the
    core did not do, and nothing the core did is left out but planning, arming and
    opening, which no venue hears of.  The status view reads the same execution. *)
Theorem adapter_refines_core cfg i core s :
  let A := createAdapter cfg in
  run exec_step cmd_ok (exec_init i) core ->
  run (adapter_step A) ac_wf (session_of A core) s ->
  exists core', as_core s = Some core' /\
    run exec_step cmd_ok (exec_init i) core' /\
    (exists news, au_events (st_audit core') = au_events (st_audit core) ++ news /\
       report <$> as_events s = omap relayed news) /\
    asv_executionStatus (buildStatusView s) = Some (st_status core') /\
    asv_eventCount (buildStatusView s) = length (as_events s).
Proof.
  intros A Hc Hr. assert (mirrors (session_of A core) s) as H.
  { revert s Hr. apply run_inv; [apply mirrors_refl|].
    intros s cmd Hs Hw. eapply mirrors_trans; [exact Hs|by apply perform_mirrors]. }
  unfold mirrors in H. simpl in H. unfold buildStatusView.
  destruct (as_core s) as [core'|] eqn:E; [|done]. destruct H as (Hcr & news & evs & Ha & He & Hp).
  exists core'. split; [done|]. split; [by eapply run_trans|]. split; [|done].
  exists news. by rewrite He.
Qed.

Definition paper_config : AdapterConfig := {| cf_kind := Some AK_PAPER; cf_enabled := Some true |}.

Lemma adapter_refines_core_witness :
  (exists core', as_core paper_session = Some core' /\
     run exec_step cmd_ok (exec_init sample_intent) core') /\
  av_type <$> as_events paper_session = [AE_SUBMITTED; AE_ACKNOWLEDGED; AE_FILLED].
Proof.
  destruct (adapter_refines_core paper_config sample_intent sample_planned _
    sample_planned_run paper_session_run) as (c & Hc & Hr & _).
  split; [exact (ex_intro _ c (conj Hc Hr))|]. by vm_compute.
Defined.

(** ** The null adapter *)

(** The null adapter is inert: every operation but shutdown is refused with
    ADAPTER_UNAVAILABLE and the session returned as it was; no sequence of commands
    touches the managed execution or emits an event; and it is what the factory
    returns unless PAPER is selected and enabled. *)
Theorem null_adapter_inert s s' :
  run (adapter_step NullExecutionAdapter) (fun _ => True) s s' ->
  as_core s' = as_core s /\ as_events s' = as_events s /\ as_submitted s' = as_submitted s /\
  (forall cmd, let r := perform NullExecutionAdapter s' cmd in
     ar_events r = [] /\
     match cmd with
     | AC_SHUTDOWN _ _ => ar_ok r = true /\ as_status (ar_session r) = AH_SHUTDOWN
     | _ => ar_ok r = false /\ ar_session r = s' /\
            (ae_reason <$> ar_error r) = Some ADAPTER_UNAVAILABLE
     end) /\
  (forall cfg, cf_kind cfg <> Some AK_PAPER \/ cf_enabled cfg <> Some true ->
     createAdapter cfg = NullExecutionAdapter).
Proof.
  intros Hr. assert (as_core s' = as_core s /\ as_events s' = as_events s /\
    as_submitted s' = as_submitted s) as (? & ? & ?).
  { revert s' Hr. apply run_inv; [done|]. intros t cmd H _. by destruct cmd. }
  do 3 (split; [done|]). split; [by intros []|].
  intros cfg Hc. unfold createAdapter. case_bool_decide; [|done]. case_bool_decide; [|done].
  by destruct Hc.
Qed.

Definition null_session : AdapterSession :=
  foldl (adapter_step NullExecutionAdapter) (session_of NullExecutionAdapter sample_planned)
    paper_commands.

Lemma null_adapter_inert_witness : as_core null_session = Some sample_planned.
Proof.
  assert (run (adapter_step NullExecutionAdapter) (fun _ => True)
    (session_of NullExecutionAdapter sample_planned) null_session) as Hr
    by (apply run_fold; by repeat constructor).
  exact (proj1 (null_adapter_inert _ _ Hr)).
Defined.

(** ** The paper adapter *)

(** The outcome of a submit that passed the session gates. *)
Definition submit_outcome (i : ExecutionIntent) (s : AdapterSession) (rt : RuntimeContext)
    (r : AdapterResult) : Prop :=
  match runtimeBlockReason rt, checkSubmittable i with
  | Some KILL_SWITCH, _ =>
      ar_ok r = false /\ (st_status <$> as_core (ar_session r)) = Some ES_CANCELLED /\
      av_type <$> ar_events r = [AE_CANCELLED] /\ as_submitted (ar_session r) = false
  | Some _, _ =>
      ar_ok r = false /\ (st_status <$> as_core (ar_session r)) = Some ES_FAILED /\
      av_type <$> ar_events r = [AE_FAILED] /\ as_submitted (ar_session r) = false
  | None, Some reason =>
      ar_ok r = false /\ ar_session r = s /\ ar_events r = [] /\
      (ae_reason <$> ar_error r) = Some (AF_core reason)
  | None, None =>
      ar_ok r = true /\ (st_status <$> as_core (ar_session r)) = Some ES_SUBMITTED /\
      av_type <$> ar_events r = [AE_SUBMITTED] /\ as_submitted (ar_session r) = true
  end.

(** Submitting a planned execution through the paper adapter, in the order the
    boundary checks run: an engaged kill switch cancels it, an unhealthy runtime
    fails it, a plan that is not submittable is refused with its own reason and the
    session unchanged, and otherwise it is armed and submitted with exactly one
    SUBMITTED event. *)
Theorem paper_submit_outcome i s core a rt :
  intent_wf i -> isFinite (in_createdAt i) = true ->
  run exec_step cmd_wf (exec_init i) core -> st_status core = ES_PLANNED ->
  as_core s = Some core -> as_status s <> AH_SHUTDOWN -> as_submitted s = false ->
  submit_outcome i s rt (perform PaperExecutionAdapter s (AC_SUBMIT a rt)).
Proof.
  intros Hw Hf Hrun Hst Hc Hs Hsub. pose proof (reachable_inv i core Hw Hrun) as Hinv.
  pose proof (xi_plan _ _ Hinv) as Hp.
  pose proof (validateSubmit_planned i s core rt Hs Hsub Hc Hst Hp Hf) as Hv.
  assert (isTerminal (st_status core) = false) as Ht by (by rewrite Hst).
  unfold submit_outcome, runtimeBlockReason in *. simpl.
  destruct (rc_killEngaged rt); [|case_bool_decide].
  - unfold paper_submit. rewrite Hv.
    destruct (drive_kill s core a None Hc Ht) as (_ & E & T). simpl. rewrite E, T.
    pose proof (dv_submitted _ _ _ (driveAndEmit_ok s (KILL a) None)) as ->.
    unfold exec_step. by rewrite reduce_kill.
  - unfold paper_submit. rewrite Hv.
    destruct (drive_unhealthy s core a None Hc Ht) as (_ & E & T). simpl. rewrite E, T.
    pose proof (dv_submitted _ _ _ (driveAndEmit_ok s (CMD_RUNTIME_UNHEALTHY a) None)) as ->.
    unfold exec_step. by rewrite reduce_unhealthy.
  - destruct (checkSubmittable i) as [reason|] eqn:Eq.
    + destruct (checkSubmittable_reasons i reason Eq). unfold paper_submit. rewrite Hv. simpl.
      by destruct reason.
    + by apply (paper_submit_ready i s core a rt Hv), checkSubmittable_None.
Qed.

Lemma paper_submit_outcome_witness :
  ar_ok (perform PaperExecutionAdapter (session_of PaperExecutionAdapter sample_planned)
    (AC_SUBMIT sample_now healthy)) = true.
Proof.
  assert (run exec_step cmd_wf (exec_init sample_intent) sample_planned) as Hr
    by (apply run_step; [constructor|exact I]).
  assert (isFinite (in_createdAt sample_intent) = true) as Hf by evaluate.
  assert (st_status sample_planned = ES_PLANNED) as Hs by evaluate.
  assert (checkSubmittable sample_intent = None) as Hc by evaluate.
  pose proof (paper_submit_outcome sample_intent (session_of PaperExecutionAdapter sample_planned)
    sample_planned sample_now healthy sample_intent_wf Hf Hr Hs eq_refl ltac:(discriminate) eq_refl)
    as H.
  unfold submit_outcome in H. rewrite Hc in H. exact (proj1 H).
Defined.

(** At most one submit: once a submit has succeeded, every later submit of the
    session is refused with the session unchanged and no event, whatever happened
    in between. *)
Theorem paper_submits_once s a rt s' b rt' :
  let r := perform PaperExecutionAdapter s (AC_SUBMIT a rt) in
  ar_ok r = true ->
  run (adapter_step PaperExecutionAdapter) (fun _ => True) (ar_session r) s' ->
  as_submitted s' = true /\
  let r' := perform PaperExecutionAdapter s' (AC_SUBMIT b rt') in
  ar_ok r' = false /\ ar_session r' = s' /\ ar_events r' = [].
Proof.
  intros r Ho Hr. assert (as_submitted s' = true) as Hsub.
  { revert s' Hr. apply run_inv; [by apply paper_submit_sets|].
    intros t cmd Ht _. by apply law_submitted. }
  split; [done|]. by apply paper_submit_duplicate.
Qed.

Definition paper_submitted : AdapterResult :=
  perform PaperExecutionAdapter (session_of PaperExecutionAdapter sample_planned)
    (AC_SUBMIT sample_now healthy).

Lemma paper_submits_once_witness :
  ar_ok (perform PaperExecutionAdapter
    (adapter_step PaperExecutionAdapter (ar_session paper_submitted) (AC_ACKNOWLEDGE sample_now))
    (AC_SUBMIT sample_now healthy)) = false.
Proof.
  assert (ar_ok paper_submitted = true) as Ho by evaluate.
  assert (run (adapter_step PaperExecutionAdapter) (fun _ => True) (ar_session paper_submitted)
    (adapter_step PaperExecutionAdapter (ar_session paper_submitted) (AC_ACKNOWLEDGE sample_now)))
    as Hr by (apply run_step; [constructor|exact I]).
  exact (proj1 (proj2 (paper_submits_once (session_of PaperExecutionAdapter sample_planned)
    sample_now healthy _ sample_now healthy Ho Hr))).
Defined.

(** Shutdown is safe and final: shutting down a session bound to a reachable
    execution leaves the execution terminal (cancelled if it was live), and no later
    command changes the session or emits an event; only shutdown itself still
    answers ok. *)
Theorem paper_shutdown_final i s core a reason s' :
  intent_wf i -> run exec_step cmd_wf (exec_init i) core ->
  as_core s = Some core -> as_status s <> AH_SHUTDOWN ->
  let s1 := ar_session (perform PaperExecutionAdapter s (AC_SHUTDOWN a reason)) in
  run (adapter_step PaperExecutionAdapter) (fun _ => True) s1 s' ->
  s' = s1 /\ as_status s1 = AH_SHUTDOWN /\
  (exists core', as_core s1 = Some core' /\ isTerminal (st_status core') = true) /\
  forall cmd, let r := perform PaperExecutionAdapter s1 cmd in
    ar_events r = [] /\
    match cmd with AC_SHUTDOWN _ _ => ar_ok r = true | _ => ar_ok r = false end.
Proof.
  intros Hw Hrun Hc Hs s1 Hr.
  pose proof (xi_trail _ _ (reachable_inv i core Hw Hrun)) as Htr.
  destruct (paper_shutdown_cancels s core a reason Hs Hc Htr) as (Hst & core' & Hc' & Ht & _).
  change (ar_session (paper_shutdown s a reason)) with s1 in Hst, Hc'.
  split; [|split; [done|split; [by exists core'|]]].
  - induction Hr as [|t cmd _ IH _]; [done|]. rewrite IH.
    by destruct (paper_shut_inert s1 cmd Hst).
  - intros cmd. by destruct (paper_shut_inert s1 cmd Hst) as (_ & ? & ?).
Qed.

Lemma paper_shutdown_final_witness :
  as_status (adapter_step PaperExecutionAdapter (session_of PaperExecutionAdapter sample_planned)
    (AC_SHUTDOWN sample_now None)) = AH_SHUTDOWN.
Proof.
  assert (run exec_step cmd_wf (exec_init sample_intent) sample_planned) as Hr
    by (apply run_step; [constructor|exact I]).
  exact (proj1 (proj2 (paper_shutdown_final sample_intent
    (session_of PaperExecutionAdapter sample_planned) sample_planned sample_now None _
    sample_intent_wf Hr eq_refl ltac:(discriminate) (run_refl _ _ _)))).
Defined.
