(* ===== verification/JsDecimal.v ===== *)
(** * JsDecimal: decimal text of Numbers

    [Number.prototype.toFixed], the conversion of a string to a Number (ECMA-262,
    "StringToNumber"), and on them the decimal-string helpers of the workers:
    services/workers/src/execution/money.ts, market/money.ts and risk/money.ts.

    A string is the sequence of bytes of its UTF-8 encoding, the form in which the
    journals hold it; every character the conversions treat specially is listed by its
    bytes. *)

From S2P Require Import Prelude JsNumber JsText.

Local Open Scope string_scope.
Local Open Scope Z_scope.

(** ** Characters *)

Definition code (c : Ascii.ascii) : Z := Z.of_N (Ascii.N_of_ascii c).

Definition isDigit (c : Ascii.ascii) : bool := (48 <=? code c) && (code c <=? 57).

Definition digitValue (c : Ascii.ascii) : Z := code c - 48.

(** White space and line terminators of one, two and three bytes (WhiteSpace and
    LineTerminator of ECMA-262: tab, LF, VT, FF, CR, space; U+00A0; U+1680, U+2000 to
    U+200A, U+2028, U+2029, U+202F, U+205F, U+3000, U+FEFF). *)
Definition ws1 (a : Ascii.ascii) : bool := ((9 <=? code a) && (code a <=? 13)) || (code a =? 32).
Definition ws2 (a b : Ascii.ascii) : bool := (code a =? 194) && (code b =? 160).
Definition ws3 (a b c : Ascii.ascii) : bool :=
  let u := (code a * 256 + code b) * 256 + code c in
  (u =? 14785152) || ((14844032 <=? u) && (u <=? 14844042)) || (u =? 14844072) || (u =? 14844073)
  || (u =? 14844079) || (u =? 14844319) || (u =? 14909568) || (u =? 15711167).

Fixpoint trimStart (s : string) : string :=
  match s with
  | String a s1 =>
      if ws1 a then trimStart s1
      else match s1 with
           | String b s2 =>
               if ws2 a b then trimStart s2
               else match s2 with
                    | String c s3 => if ws3 a b c then trimStart s3 else s
                    | _ => s
                    end
           | _ => s
           end
  | _ => s
  end.

(** The string is white space only. *)
Definition blank (s : string) : bool := bool_decide (trimStart s = "").

Fixpoint trimEnd (s : string) : string :=
  if blank s then "" else match s with String a s' => String a (trimEnd s') | _ => "" end.

(** [String.prototype.trim] *)
Definition trim (s : string) : string := trimEnd (trimStart s).

(** ** toFixed *)

(** [x.toFixed(dp)]: at 10^21 and above, and for non-finite x, the text of x itself. *)
Definition toFixed (x : number) (dp : nat) : string :=
  match x with
  | Num s m k =>
      if mag m k <? fixed_limit then
        let n := fixed_int m k (Z.of_nat dp) in
        (if s && negb (m =? 0)%N then "-" else "") +:+ showZ (n / 10 ^ Z.of_nat dp)
        +:+ (if (dp =? 0)%nat then "" else "." +:+ pad dp n)
      else numToString x
  | _ => numToString x
  end.

(** ** StringToNumber *)

(** The leading decimal digits of s, folded into a value and a count. *)
Fixpoint takeDigits (acc : Z) (cnt : nat) (s : string) : Z * nat * string :=
  match s with
  | String c s' =>
      if isDigit c then takeDigits (10 * acc + digitValue c) (S cnt) s' else (acc, cnt, s)
  | _ => (acc, cnt, s)
  end.

(** The double nearest to m * 10^e. *)
Definition decimal (neg : bool) (m e : Z) : number :=
  rnd neg (m * 10 ^ Z.max 0 e) (10 ^ Z.max 0 (- e)) 1074.

(** [(e|E)[+-]?digits], or nothing. *)
Definition takeExponent (s : string) : option (Z * string) :=
  match s with
  | String c s1 =>
      if (code c =? 101) || (code c =? 69) then
        let '(neg, s2) := match s1 with
          | String d s2 => if code d =? 45 then (true, s2) else if code d =? 43 then (false, s2) else (false, s1)
          | _ => (false, s1)
          end in
        let '(v, n, s3) := takeDigits 0 0 s2 in
        if (n =? 0)%nat then None else Some ((if neg then - v else v), s3)
      else Some (0, s)
  | _ => Some (0, s)
  end.

(** Digits, an optional fraction and an optional exponent, to the end of the string. *)
Definition unsignedDecimal (neg : bool) (s : string) : number :=
  let '(v, n, s1) := takeDigits 0 0 s in
  let '(w, k, s2) := match s1 with
    | String c s2 => if code c =? 46 then takeDigits v 0 s2 else (v, 0%nat, s1)
    | _ => (v, 0%nat, s1)
    end in
  if (n + k =? 0)%nat then NaN
  else match takeExponent s2 with
       | Some (e, "") => decimal neg w (e - Z.of_nat k)
       | _ => NaN
       end.

(** The digits of a 0x, 0o or 0b literal, to the end of the string. *)
Fixpoint radixDigits (base acc : Z) (s : string) : option Z :=
  match s with
  | String c s' =>
      let d := if isDigit c then digitValue c
               else if (97 <=? code c) && (code c <=? 122) then code c - 87
               else if (65 <=? code c) && (code c <=? 90) then code c - 55 else 99 in
      if d <? base then radixDigits base (base * acc + d) s' else None
  | _ => Some acc
  end.

Definition radixLiteral (base : Z) (s : string) : number :=
  match s with
  | "" => NaN
  | _ => match radixDigits base 0 s with Some z => nint z | None => NaN end
  end.

(** [Number(s)] *)
Definition stringToNumber (s : string) : number :=
  let signed neg t := if bool_decide (t = "Infinity") then Inf neg else unsignedDecimal neg t in
  match trim s with
  | "" => nint 0
  | String c t as u =>
      if code c =? 45 then signed true t
      else if code c =? 43 then signed false t
      else match t with
           | String d v =>
               if (code c =? 48) && ((code d =? 120) || (code d =? 88)) then radixLiteral 16 v
               else if (code c =? 48) && ((code d =? 111) || (code d =? 79)) then radixLiteral 8 v
               else if (code c =? 48) && ((code d =? 98) || (code d =? 66)) then radixLiteral 2 v
               else signed false u
           | _ => signed false u
           end
  end.

(** ** The workers' decimal strings *)

(** money.ts: NOTIONAL_DP, PRICE_DP, QTY_DP, RATIO_DP *)
Definition NOTIONAL_DP : nat := 2.
Definition PRICE_DP : nat := 8.
Definition QTY_DP : nat := 8.
Definition RATIO_DP : nat := 6.

(** market/money.ts quantize: -0 normalised, non-finite values collapse to 0. *)
Definition quantize (n : number) (dp : nat) : string :=
  let v := if isFinite n then n else nint 0 in
  let s := toFixed v dp in
  if bool_decide (s = "-" +:+ toFixed (nint 0) dp) then toFixed (nint 0) dp else s.

Definition quantizeNotional (n : number) : string := quantize n NOTIONAL_DP.
Definition quantizePnl (n : number) : string := quantizeNotional n.
Definition quantizePrice (n : number) : string := quantize n PRICE_DP.
Definition quantizeQty (n : number) : string := quantize n QTY_DP.
Definition quantizeRatio (n : number) : string := quantize n RATIO_DP.

Definition parseDecimal (s : string) : number :=
  let n := stringToNumber s in if isFinite n then n else nint 0.

(** Only digits. *)
Fixpoint allDigits (s : string) : bool :=
  match s with String c s => isDigit c && allDigits s | _ => true end.

(** The regular expression ^-?\d+\.\d{dp}$ *)
Definition isCanonicalDecimalString (v : string) (dp : nat) : bool :=
  let body := match v with String c t => if code c =? 45 then t else v | _ => v end in
  let '(_, n, s1) := takeDigits 0 0 body in
  match s1 with
  | String c s2 =>
      let '(_, k, s3) := takeDigits 0 0 s2 in
      negb (n =? 0)%nat && (code c =? 46) && (k =? dp)%nat && bool_decide (s3 = "")
  | _ => false
  end.
