(* ===== verification/JsDecimalFacts.v ===== *)
(** * JsDecimalFacts: reading back the decimals that were written

    Runs of decimal digits ([digits_of]), what [showZ] and [pad] print, and the bridge
    from the text of [quantize] to the rounding [toFixedNumber] that JsNumberFacts
    characterises: parsing a quantised Number yields the rounded Number.  The last part is
    that integers print as their digits. *)

From S2P Require Import Prelude JsNumber JsNumberFacts JsText JsDecimal.

Local Open Scope string_scope.
Local Open Scope Z_scope.

(** ** Runs of digits *)

(** d is a run of n digits of value z. *)
Inductive digits_of : Z -> nat -> string -> Prop :=
| digits_nil : digits_of 0 0 ""
| digits_snoc z n d c :
    digits_of z n d -> isDigit c = true -> digits_of (10 * z + digitValue c) (S n) (d +:+ String c "").

Definition startsWithDigit (s : string) : bool :=
  match s with String c _ => isDigit c | _ => false end.

Lemma isDigit_digitValue c : isDigit c = true -> 0 <= digitValue c <= 9.
Proof. unfold isDigit, digitValue. intros. bool_hyps. lia. Qed.

Lemma string_app_nil_r (s : string) : s +:+ "" = s.
Proof. induction s as [|c s IH]; [done|]. change (String c (s +:+ "") = String c s). by rewrite IH. Qed.

Lemma takeDigits_run z n d acc cnt t :
  digits_of z n d ->
  takeDigits acc cnt (d +:+ t) = takeDigits (acc * 10 ^ Z.of_nat n + z) (cnt + n) t.
Proof.
  intros H. revert acc cnt t. induction H as [|z n d c H IH Hc]; intros acc cnt t.
  - simpl. f_equal; lia.
  - rewrite string_app_assoc, IH. simpl. rewrite Hc. rewrite Nat2Z.inj_succ, Z.pow_succ_r by lia.
    f_equal; lia.
Qed.

Lemma takeDigits_stop acc cnt t : startsWithDigit t = false -> takeDigits acc cnt t = (acc, cnt, t).
Proof. destruct t as [|c t]; simpl; [done|]. by intros ->. Qed.

Lemma takeDigits_exact z n d acc cnt t :
  digits_of z n d -> startsWithDigit t = false ->
  takeDigits acc cnt (d +:+ t) = (acc * 10 ^ Z.of_nat n + z, (cnt + n)%nat, t).
Proof. intros. erewrite takeDigits_run by done. by apply takeDigits_stop. Qed.

Lemma digits_of_bounds z n d : digits_of z n d -> 0 <= z < 10 ^ Z.of_nat n.
Proof.
  induction 1 as [|z n d c H IH Hc]; [done|]. apply isDigit_digitValue in Hc.
  rewrite Nat2Z.inj_succ, Z.pow_succ_r by lia. lia.
Qed.

Lemma digits_of_app z n d w m e :
  digits_of z n d -> digits_of w m e -> digits_of (z * 10 ^ Z.of_nat m + w) (n + m) (d +:+ e).
Proof.
  intros H1 H2. induction H2 as [|w m e c H2 IH Hc].
  - rewrite string_app_nil_r. replace (z * 10 ^ Z.of_nat 0 + 0) with z by lia.
    by rewrite Nat.add_0_r.
  - rewrite <- string_app_assoc, Nat.add_succ_r.
    replace (z * 10 ^ Z.of_nat (S m) + (10 * w + digitValue c))
      with (10 * (z * 10 ^ Z.of_nat m + w) + digitValue c).
    { by constructor. }
    rewrite Nat2Z.inj_succ, Z.pow_succ_r by lia. lia.
Qed.

Lemma digits_of_cons z n d c :
  digits_of z n d -> isDigit c = true ->
  digits_of (digitValue c * 10 ^ Z.of_nat n + z) (S n) (String c d).
Proof.
  intros H Hc. assert (digits_of (digitValue c) 1 (String c "")) as H1.
  { rewrite <- (Z.add_0_l (digitValue c)). apply (digits_snoc 0 0 ""); [constructor|done]. }
  exact (digits_of_app _ _ _ _ _ _ H1 H).
Qed.

Lemma digits_of_starts z n d t : digits_of z (S n) d -> startsWithDigit (d +:+ t) = true.
Proof.
  remember (S n) as m eqn:E. intros H. revert n E t.
  induction H as [|z m d c H IH Hc]; intros n E t; [done|].
  rewrite string_app_assoc. destruct m as [|m]; [inversion H; subst; done|].
  by apply (IH m).
Qed.

(** ** What the printers print *)

Lemma pretty_N_char_digit x :
  (x < 10)%N -> isDigit (pretty_N_char x) = true /\ digitValue (pretty_N_char x) = Z.of_N x.
Proof.
  intros Hx. assert (x = 0 \/ x = 1 \/ x = 2 \/ x = 3 \/ x = 4 \/ x = 5 \/ x = 6 \/ x = 7 \/ x = 8 \/ x = 9)%N
    as [->|[->|[->|[->|[->|[->|[->|[->|[->| ->]]]]]]]]] by lia; done.
Qed.

Lemma pretty_N_go_digits x w m s :
  digits_of w m s -> exists n, digits_of (Z.of_N x * 10 ^ Z.of_nat m + w) (n + m) (pretty_N_go x s)
    /\ (x <> 0%N -> n <> O).
Proof.
  revert w m s. induction (N.lt_wf_0 x) as [x _ IH]; intros w m s Hs.
  destruct (N.eq_0_gt_0_cases x) as [->|Hx].
  { exists O. split; [|done]. rewrite pretty_N_go_0. exact Hs. }
  rewrite pretty_N_go_step by done.
  destruct (pretty_N_char_digit (x mod 10)) as [Hc Hv]; [by apply N.mod_lt|].
  destruct (IH (x / 10)%N) with (1 := N.div_lt x 10 Hx eq_refl) (2 := digits_of_cons _ _ _ _ Hs Hc) as [n [Hn _]].
  exists (S n). split; [|done]. rewrite Hv in Hn. replace (S n + m)%nat with (n + S m)%nat by lia.
  replace (Z.of_N x * 10 ^ Z.of_nat m + w) with
    (Z.of_N (x / 10) * 10 ^ Z.of_nat (S m) + (Z.of_N (x mod 10) * 10 ^ Z.of_nat m + w)); [done|].
  rewrite Nat2Z.inj_succ, Z.pow_succ_r by lia.
  rewrite (N.div_mod x 10) at 3 by done. lia.
Qed.

Lemma showZ_digits z : 0 <= z -> exists n, digits_of z (S n) (showZ z).
Proof.
  intros Hz. destruct z as [|p|p]; [|..|lia].
  { exists O. exact (digits_snoc 0 0 "" (digit 0) digits_nil eq_refl). }
  destruct (pretty_N_go_digits (Npos p) 0 0 "" digits_nil) as [[|n] [Hn H0]]; [by destruct H0|].
  exists n. rewrite Nat.add_0_r in Hn.
  replace (Z.of_N (N.pos p) * 10 ^ Z.of_nat 0 + 0) with (Z.pos p) in Hn by lia. exact Hn.
Qed.

Lemma digit_isDigit d : 0 <= d <= 9 -> isDigit (digit d) = true /\ digitValue (digit d) = d.
Proof.
  intros Hd. unfold isDigit, digitValue, digit, code.
  rewrite Ascii.N_ascii_embedding by lia. rewrite Z2N.id by lia.
  split; [|lia]. apply andb_true_iff. split; apply Z.leb_le; lia.
Qed.

Lemma digits_digits_of n z w m s :
  digits_of w m s ->
  digits_of ((z mod 10 ^ Z.of_nat n) * 10 ^ Z.of_nat m + w) (n + m) (digits n z s).
Proof.
  revert z w m s. induction n as [|n IH]; intros z w m s Hs; simpl digits.
  - rewrite Z.mod_1_r. exact Hs.
  - destruct (digit_isDigit (z mod 10)) as [Hc Hv]; [pose proof (Z.mod_pos_bound z 10); lia|].
    pose proof (IH (z / 10) _ _ _ (digits_of_cons _ _ _ _ Hs Hc)) as H. rewrite Hv in H.
    replace (S n + m)%nat with (n + S m)%nat by lia.
    replace (z mod 10 ^ Z.of_nat (S n) * 10 ^ Z.of_nat m + w) with
      ((z / 10) mod 10 ^ Z.of_nat n * 10 ^ Z.of_nat (S m) + (z mod 10 * 10 ^ Z.of_nat m + w)); [done|].
    rewrite !Nat2Z.inj_succ, !Z.pow_succ_r by lia.
    rewrite (Z.mul_comm 10 (10 ^ Z.of_nat n)), (Z.mul_comm (10 ^ Z.of_nat n) 10).
    rewrite (Z.rem_mul_r z 10) by (try apply Z.pow_pos_nonneg; lia). lia.
Qed.

Lemma pad_digits n z : digits_of (z mod 10 ^ Z.of_nat n) n (pad n z).
Proof.
  pose proof (digits_digits_of n z 0 0 "" digits_nil) as H.
  rewrite Nat.add_0_r in H. replace (z mod 10 ^ Z.of_nat n * 10 ^ Z.of_nat 0 + 0)
    with (z mod 10 ^ Z.of_nat n) in H by lia. exact H.
Qed.

(** ** Trimming text that starts and ends with a visible ASCII character *)

Definition solid (c : Ascii.ascii) : bool := (33 <=? code c) && (code c <=? 126).

Lemma solid_ws1 c : solid c = true -> ws1 c = false.
Proof. unfold solid, ws1. intros. bool_hyps. apply orb_false_iff. split; [apply andb_false_iff; right|]; lia. Qed.

Lemma code_bounds c : 0 <= code c < 256.
Proof. unfold code. pose proof (Ascii.N_ascii_bounded c). lia. Qed.

Lemma solid_ws2 c d : solid c = true -> ws2 c d = false /\ ws2 d c = false.
Proof. unfold solid, ws2. intros. bool_hyps. split; apply andb_false_iff; [left|right]; lia. Qed.

Lemma solid_ws3 c a b :
  solid c = true -> ws3 c a b = false /\ ws3 a c b = false /\ ws3 a b c = false.
Proof.
  unfold solid, ws3. intros. bool_hyps. pose proof (code_bounds a). pose proof (code_bounds b).
  split_and!; repeat (apply orb_false_iff; split); try (apply andb_false_iff);
    try (apply Z.eqb_neq; lia); destruct (Z.le_gt_cases 14844032 ((code a * 256 + code b) * 256 + code c));
    rewrite ?Z.leb_gt; lia.
Qed.

Lemma trimStart_solid c s : solid c = true -> trimStart (String c s) = String c s.
Proof.
  intros Hc. simpl. rewrite solid_ws1 by done. destruct s as [|b [|d s]]; [done|..].
  - by rewrite (proj1 (solid_ws2 c b Hc)).
  - by rewrite (proj1 (solid_ws2 c b Hc)), (proj1 (solid_ws3 c b d Hc)).
Qed.

Lemma trimStart_snoc_solid s c : solid c = true -> trimStart (s +:+ String c "") <> "".
Proof.
  intros Hc. remember (String.length s) as n eqn:En. revert s En.
  induction (lt_wf n) as [n _ IH]. intros [|a s] ->.
  { change ("" +:+ String c "") with (String c ""). by rewrite trimStart_solid. }
  simpl. destruct (ws1 a) eqn:E1; [apply (IH (String.length s)); [simpl; lia|done]|].
  destruct s as [|b s]; simpl.
  { by rewrite (proj2 (solid_ws2 c a Hc)). }
  destruct (ws2 a b) eqn:E2; [apply (IH (String.length s)); [simpl; lia|done]|].
  destruct s as [|d s]; simpl.
  { by rewrite (proj2 (proj2 (solid_ws3 c a b Hc))). }
  destruct (ws3 a b d) eqn:E3; [apply (IH (String.length s)); [simpl; lia|done]|done].
Qed.

Lemma trimEnd_snoc_solid s c : solid c = true -> trimEnd (s +:+ String c "") = s +:+ String c "".
Proof.
  intros Hc. induction s as [|a s IH]; simpl; unfold blank.
  - rewrite bool_decide_false; [done|apply (trimStart_snoc_solid "" c Hc)].
  - rewrite bool_decide_false; [by rewrite IH|apply (trimStart_snoc_solid (String a s) c Hc)].
Qed.

Lemma trim_solid c s d :
  solid c = true -> solid d = true -> trim (String c (s +:+ String d "")) = String c (s +:+ String d "").
Proof.
  intros Hc Hd. unfold trim. rewrite trimStart_solid by done. apply (trimEnd_snoc_solid (String c s) d Hd).
Qed.

Lemma isDigit_solid c : isDigit c = true -> solid c = true.
Proof. unfold isDigit, solid. intros. bool_hyps. apply andb_true_iff. lia. Qed.

(** Text that starts with a visible character and ends with digits is not trimmed. *)
Lemma trim_digits c s z n d :
  solid c = true -> digits_of z (S n) d -> trim (String c (s +:+ d)) = String c (s +:+ d).
Proof.
  intros Hc H. remember (S n) as m eqn:E. destruct H as [|z k d e H He]; [done|].
  rewrite <- string_app_assoc. apply trim_solid; [done|by apply isDigit_solid].
Qed.

Lemma trim_digits_only z n d t w m e :
  digits_of z (S n) d -> digits_of w (S m) e -> trim (d +:+ t +:+ e) = d +:+ t +:+ e.
Proof.
  intros Hd He. pose proof (digits_of_starts _ _ _ "" Hd) as Hs. rewrite string_app_nil_r in Hs.
  destruct d as [|c d]; [done|]. change (String c d +:+ t +:+ e) with (String c (d +:+ (t +:+ e))).
  rewrite <- string_app_assoc. eapply trim_digits; [by apply isDigit_solid|done].
Qed.

(** ** Parsing what toFixed printed *)

Lemma unsignedDecimal_fixed neg z n d w k e :
  digits_of z (S n) d -> digits_of w k e ->
  unsignedDecimal neg (d +:+ "." +:+ e) = decimal neg (z * 10 ^ Z.of_nat k + w) (- Z.of_nat k).
Proof.
  intros Hd He. unfold unsignedDecimal.
  rewrite (takeDigits_exact _ _ _ 0 0 ("." +:+ e) Hd eq_refl), Z.mul_0_l, Z.add_0_l. simpl.
  pose proof (takeDigits_exact _ _ _ z 0 "" He eq_refl) as H. rewrite string_app_nil_r in H.
  change ("" +:+ e) with e. rewrite H. simpl. f_equal; lia.
Qed.

Lemma digit_not_sign c : isDigit c = true ->
  (code c =? 45) = false /\ (code c =? 43) = false /\ (code c =? 46) = false /\ (code c =? 101) = false
  /\ (code c =? 69) = false /\ (code c =? 120) = false /\ (code c =? 88) = false /\ (code c =? 111) = false
  /\ (code c =? 79) = false /\ (code c =? 98) = false /\ (code c =? 66) = false /\ (code c =? 73) = false.
Proof. unfold isDigit. intros. bool_hyps. split_and!; lia. Qed.

Lemma digits_not_Infinity z n d t : digits_of z (S n) d -> bool_decide (d +:+ t = "Infinity") = false.
Proof.
  intros Hd. apply bool_decide_eq_false. intros E.
  pose proof (digits_of_starts _ _ _ t Hd) as Hs. by rewrite E in Hs.
Qed.

Lemma allDigits_app s t : allDigits (s +:+ t) = allDigits s && allDigits t.
Proof. induction s as [|c s IH]; simpl; [done|]. by rewrite IH, andb_assoc. Qed.

Lemma digits_of_length z n d : digits_of z n d -> String.length d = n.
Proof.
  induction 1 as [|z n d c H IH Hc]; [done|]. rewrite <- IH. clear. induction d as [|e d IH]; [done|]. simpl. by rewrite IH.
Qed.

Lemma digits_of_all z n d : digits_of z n d -> allDigits d = true.
Proof. induction 1 as [|z n d c H IH Hc]; [done|]. rewrite allDigits_app, IH. simpl. by rewrite Hc. Qed.

(** Reading a decimal that starts with a digit and has digits and a point only. *)
Lemma stringToNumber_digits z n d t :
  digits_of z (S n) d -> (forall c u, t = String c u -> code c = 46) ->
  trim (d +:+ t) = d +:+ t -> stringToNumber (d +:+ t) = unsignedDecimal false (d +:+ t).
Proof.
  intros Hd Ht Htrim. unfold stringToNumber. rewrite Htrim.
  pose proof (digits_not_Infinity _ _ _ t Hd) as HI. apply digits_of_all in Hd as Ha.
  destruct d as [|c d]; [inversion Hd; by destruct d|]. simpl in Ha. bool_hyps.
  destruct (digit_not_sign c) as (H1 & H2 & _); [done|].
  change (String c d +:+ t) with (String c (d +:+ t)) in *. cbv beta iota. rewrite H1, H2, (bool_decide_false _ HI).
  destruct (d +:+ t) as [|b v] eqn:E; [done|].
  assert (isDigit b = true \/ code b = 46) as Hb.
  { destruct d as [|b' d]; [right; by apply (Ht b v)|left].
    simpl in *. bool_hyps. by injection E as <- _. }
  assert ((code b =? 120) = false /\ (code b =? 88) = false /\ (code b =? 111) = false
    /\ (code b =? 79) = false /\ (code b =? 98) = false /\ (code b =? 66) = false) as (-> & -> & -> & -> & -> & ->).
  { destruct Hb as [Hb|Hb]; [by destruct (digit_not_sign b Hb) as (? & ? & ? & ? & ? & ? & ? & ? & ? & ? & ? & ?)|rewrite Hb; done]. }
  by rewrite !andb_false_r.
Qed.

Lemma stringToNumber_negative z n d t :
  digits_of z (S n) d -> trim ("-" +:+ d +:+ t) = "-" +:+ d +:+ t ->
  stringToNumber ("-" +:+ d +:+ t) = unsignedDecimal true (d +:+ t).
Proof.
  intros Hd Htrim. unfold stringToNumber. rewrite Htrim. simpl.
  change ("" +:+ d +:+ t) with (d +:+ t). by rewrite (digits_not_Infinity _ _ _ t Hd).
Qed.

(** *** Reading back a fixed-point text *)

(** The text of [toFixed] below 10^21, and where it is read. *)
Lemma toFixed_text s m k dp :
  mag m k < fixed_limit -> exists d n e,
    digits_of (fixed_int m k (Z.of_nat (S dp)) / 10 ^ Z.of_nat (S dp)) (S n) d
    /\ digits_of (fixed_int m k (Z.of_nat (S dp)) mod 10 ^ Z.of_nat (S dp)) (S dp) e
    /\ toFixed (Num s m k) (S dp) = (if s && negb (m =? 0)%N then "-" else "") +:+ d +:+ "." +:+ e.
Proof.
  intros Hl. set (f := fixed_int m k (Z.of_nat (S dp))).
  assert (0 <= f) as Hf by (unfold f; rewrite fixed_int_fx; apply fx_nonneg; [lia|apply mag_nonneg]).
  destruct (showZ_digits (f / 10 ^ Z.of_nat (S dp))) as [n Hd].
  { apply Z.div_pos; [done|apply Z.pow_pos_nonneg; lia]. }
  exists (showZ (f / 10 ^ Z.of_nat (S dp))), n, (pad (S dp) f).
  split_and!; [done|apply pad_digits|]. unfold toFixed. fold f.
  by rewrite (proj2 (Z.ltb_lt _ _) Hl).
Qed.

Lemma decimal_fixed neg f dp :
  decimal neg (f / 10 ^ Z.of_nat (S dp) * 10 ^ Z.of_nat (S dp) + f mod 10 ^ Z.of_nat (S dp)) (- Z.of_nat (S dp))
  = rnd neg f (10 ^ Z.of_nat (S dp)) 1074.
Proof.
  unfold decimal. rewrite Z.max_l, Z.max_r, Z.opp_involutive by lia.
  f_equal. rewrite (Z.div_mod f (10 ^ Z.of_nat (S dp))) at 3; [lia|].
  apply Z.pow_nonzero; lia.
Qed.

(** Number(x.toFixed(dp)) is the rounding of x, dp > 0. *)
Lemma stringToNumber_toFixed s m k dp :
  mag m k < fixed_limit ->
  stringToNumber (toFixed (Num s m k) (S dp)) = toFixedNumber (Num s m k) (Z.of_nat (S dp)).
Proof.
  intros Hl. destruct (toFixed_text s m k dp Hl) as (d & n & e & Hd & He & ->).
  unfold toFixedNumber. rewrite (proj2 (Z.ltb_lt _ _) Hl), <- decimal_fixed,
    <- (unsignedDecimal_fixed _ _ n d _ _ e Hd He).
  destruct (s && negb (m =? 0)%N).
  - eapply stringToNumber_negative; [exact Hd|]. rewrite <- (string_app_assoc d).
    by refine (trim_digits _ (d +:+ ".") _ _ e _ He).
  - change ("" +:+ d +:+ "." +:+ e) with (d +:+ "." +:+ e).
    eapply stringToNumber_digits; [exact Hd| |by eapply trim_digits_only].
    by intros c u [= <- _].
Qed.

Lemma toFixedNumber_0 dp : toFixedNumber (nint 0) dp = nint 0.
Proof.
  change (nint 0) with (Num false 0 0). unfold toFixedNumber. rewrite fixed_int_fx.
  change (mag 0 0) with 0. change (0 <? fixed_limit) with true. by rewrite (fx_int 0 0) by lia.
Qed.

(** *** quantize and parseDecimal *)

(** Below 10^21 in magnitude, or not finite: what [quantize] prints as a fixed-point decimal. *)
Definition fixedRange (x : number) : bool :=
  match x with Num _ m k => mag m k <? fixed_limit | _ => true end.

(** What [quantize] prints: 0 for a non-finite Number and for every -0.00. *)
Definition rounded (x : number) (dp : nat) : number :=
  let y := if isFinite x then toFixedNumber x (Z.of_nat dp) else nint 0 in
  if isNegZero y then nint 0 else y.

Lemma parseDecimal_finite t : isFinite (parseDecimal t) = true.
Proof. unfold parseDecimal. cbv zeta. by destruct (isFinite (stringToNumber t)) eqn:E. Qed.

Lemma toFixed_0 dp : stringToNumber (toFixed (nint 0) (S dp)) = nint 0.
Proof. change (nint 0) with (Num false 0 0). rewrite stringToNumber_toFixed by done. apply toFixedNumber_0. Qed.

Lemma toFixed_sign s m k dp :
  mag m k < fixed_limit ->
  has_sign (s && negb (m =? 0)%N) (toFixedNumber (Num s m k) (Z.of_nat dp)).
Proof. intros Hl. unfold toFixedNumber. rewrite (proj2 (Z.ltb_lt _ _) Hl). apply rnd_sign. Qed.

(** A nonzero printed decimal is a nonzero Number. *)
Lemma toFixed_nonzero s m k dp :
  (dp <= 15)%nat -> mag m k < fixed_limit -> fixed_int m k (Z.of_nat dp) <> 0 ->
  sv (toFixedNumber (Num s m k) (Z.of_nat dp)) <> 0.
Proof.
  intros Hdp Hl Hf. rewrite toFixedNumber_sv by lia. unfold RF.
  rewrite (proj2 (Z.ltb_lt _ _) Hl), <- fixed_int_fx.
  assert (0 <= fixed_int m k (Z.of_nat dp)) by (rewrite fixed_int_fx; apply fx_nonneg; [lia|apply mag_nonneg]).
  assert (0 < 10 ^ Z.of_nat dp <= unit1).
  { split; [apply Z.pow_pos_nonneg; lia|]. transitivity (10 ^ 15); [apply Z.pow_le_mono_r; lia|]. apply Z.leb_le. evaluate. }
  assert (1 <= RZ (unit1 * fixed_int m k (Z.of_nat dp)) (10 ^ Z.of_nat dp)).
  { apply RZ_lower; [by exists 1, 0|nia|lia|nia]. }
  destruct s; simpl; lia.
Qed.

(** The printed text of x is that of -0 exactly when its rounding is -0. *)
Lemma toFixed_negzero s m k dp :
  (S dp <= 15)%nat -> mag m k < fixed_limit ->
  bool_decide (toFixed (Num s m k) (S dp) = "-" +:+ toFixed (nint 0) (S dp))
  = isNegZero (toFixedNumber (Num s m k) (Z.of_nat (S dp))).
Proof.
  intros Hdp Hl. apply eq_true_iff_eq. rewrite bool_decide_eq_true. split.
  - intros E. rewrite <- stringToNumber_toFixed, E by done.
    destruct (toFixed_text false 0 0 dp eq_refl) as (d & n & e & Hd & He & ET).
    change (toFixed (nint 0) (S dp) = d +:+ "." +:+ e) in ET. rewrite ET.
    erewrite stringToNumber_negative; [|exact Hd|].
    + rewrite (unsignedDecimal_fixed _ _ n d _ _ e Hd He), decimal_fixed, fixed_int_fx.
      change (mag 0 0) with 0. by rewrite (fx_int 0 0) by lia.
    + change ("" +:+ d +:+ "." +:+ e) with (d +:+ "." +:+ e). rewrite <- (string_app_assoc d).
      by refine (trim_digits _ (d +:+ ".") _ _ e _ He).
  - intros E. pose proof (toFixed_sign s m k (S dp) Hl) as Hs.
    pose proof (isNegZero_sv _ E) as Hz.
    destruct (Z.eq_dec (fixed_int m k (Z.of_nat (S dp))) 0) as [H0|H0].
    2:{ by destruct (toFixed_nonzero s m k (S dp) Hdp Hl H0). }
    destruct (toFixedNumber (Num s m k) (Z.of_nat (S dp))) as [| |t n j]; try done.
    simpl in E, Hs. destruct t; [|done]. unfold toFixed.
    change (nint 0) with (Num false 0 0). change (mag 0 0 <? fixed_limit) with true.
    rewrite (proj2 (Z.ltb_lt _ _) Hl), <- Hs, H0, (fixed_int_fx 0 0).
    change (mag 0 0) with 0. by rewrite (fx_int 0 0) by lia.
Qed.

(** Parsing what was printed: the rounding. *)
Theorem parse_quantize x dp :
  (S dp <= 15)%nat -> fixedRange x = true -> parseDecimal (quantize x (S dp)) = rounded x (S dp).
Proof.
  intros Hdp Hr. unfold quantize, rounded, parseDecimal.
  assert (exists s m k, (if isFinite x then x else nint 0) = Num s m k /\ mag m k < fixed_limit
    /\ (if isFinite x then toFixedNumber x (Z.of_nat (S dp)) else nint 0)
       = toFixedNumber (Num s m k) (Z.of_nat (S dp))) as (s & m & k & -> & Hl & ->).
  { destruct x as [| |s m k]; simpl in *.
    - exists false, 0%N, 0%N. split; [done|]. split; [done|]. symmetry. apply (toFixedNumber_0 (Z.of_nat (S dp))).
    - exists false, 0%N, 0%N. split; [done|]. split; [done|]. symmetry. apply (toFixedNumber_0 (Z.of_nat (S dp))).
    - exists s, m, k. split; [done|]. by apply Z.ltb_lt in Hr. }
  rewrite toFixed_negzero by done. destruct (isNegZero (toFixedNumber _ _)) eqn:E.
  - by rewrite toFixed_0.
  - rewrite stringToNumber_toFixed by done. by rewrite toFixedNumber_finite by (done || lia).
Qed.

(** The printed text is in the canonical form of the journals. *)
Theorem quantize_canonical x dp :
  fixedRange x = true -> isCanonicalDecimalString (quantize x (S dp)) (S dp) = true.
Proof.
  intros Hr.
  assert (forall s m k, mag m k < fixed_limit ->
    isCanonicalDecimalString (toFixed (Num s m k) (S dp)) (S dp) = true) as K.
  { intros s m k Hl. destruct (toFixed_text s m k dp Hl) as (d & n & e & Hd & He & ->).
    assert (forall sg, sg = "-" \/ sg = "" -> isCanonicalDecimalString (sg +:+ d +:+ "." +:+ e) (S dp) = true) as K.
    { intros sg Hsg. unfold isCanonicalDecimalString.
      replace (match sg +:+ d +:+ "." +:+ e with String c t => if code c =? 45 then t else sg +:+ d +:+ "." +:+ e
               | _ => sg +:+ d +:+ "." +:+ e end) with (d +:+ "." +:+ e).
      2:{ destruct Hsg as [->| ->]; [done|]. pose proof (digits_of_starts _ _ _ "" Hd) as Hs.
          destruct d as [|c d]; [done|]. simpl in Hs. destruct (digit_not_sign c Hs) as (H & _).
          change ("" +:+ String c d +:+ "." +:+ e) with (String c (d +:+ "." +:+ e)). cbv iota. by rewrite H. }
      rewrite (takeDigits_exact _ _ _ 0 0 ("." +:+ e) Hd eq_refl). simpl.
      pose proof (takeDigits_exact _ _ _ 0 0 "" He eq_refl) as H. rewrite string_app_nil_r in H.
      change ("" +:+ e) with e. rewrite H. simpl. by rewrite Nat.eqb_refl. }
    apply K. destruct (s && negb (m =? 0)%N); auto. }
  unfold quantize. case_match; [by apply (K false 0%N 0%N)|].
  destruct x as [| |s m k]; [by apply (K false 0%N 0%N)..|]. apply K. by apply Z.ltb_lt.
Qed.

(** * Integers print as their digits

    [numToString] searches the shortest decimal that reads back.  For a Number that is a
    natural number below 2^53 the search finds the digits of that number without trailing
    zeros, and [layout] puts the zeros back. *)

(** ** Natural numbers as Numbers *)

Lemma repr_small z : 0 <= z < 2 ^ 53 -> repr (2 ^ 1074 * z).
Proof. intros. exists z, 1074. split; [lia|]. split; [lia|]. lia. Qed.

Lemma nint_sv z : 0 <= z < 2 ^ 53 -> isFinite (nint z) = true /\ sv (nint z) = 2 ^ 1074 * z.
Proof.
  intros Hz. unfold nint. rewrite (proj2 (Z.ltb_ge z 0)), Z.abs_eq by lia.
  assert (RZ (2 ^ 1074 * z) 1 = 2 ^ 1074 * z) as E.
  { rewrite <- (Z.mul_1_r (2 ^ 1074 * z)) at 1. apply RZ_repr; [by apply repr_small|lia]. }
  assert (isFinite (rnd false z 1 1074) = true) as Hf.
  { apply rnd_finite; [lia..|]. rewrite E. unfold overflow.
    apply Z.lt_le_trans with (2 ^ 1074 * 2 ^ 53); [apply Z.mul_lt_mono_pos_l; [done|lia]|].
    rewrite <- Z.pow_add_r by lia. apply Z.pow_le_mono_r; lia. }
  split; [done|]. by rewrite rnd_sv, E by (done || lia).
Qed.

Lemma nint_shape z : 0 <= z < 2 ^ 53 -> exists m k, nint z = Num false m k /\ mag m k = 2 ^ 1074 * z.
Proof.
  intros Hz. destruct (nint_sv z Hz) as [Hf Hs].
  assert (has_sign false (nint z)) as Hsg.
  { unfold nint. rewrite (proj2 (Z.ltb_ge z 0)) by lia. apply rnd_sign. }
  destruct (nint z) as [| |s m k]; try done. simpl in Hsg. subst s. by exists m, k.
Qed.

Lemma fnum_integer z m k : mag m k = 2 ^ 1074 * z -> fnum m k = fden k * z.
Proof.
  unfold mag, fnum, fden. intros E. destruct (N.le_gt_cases 1074 k) as [Hk|Hk].
  - replace (1074 - k)%N with 0%N by lia. change (2 ^ Z.of_N 0) with 1.
    apply (Z.mul_reg_l _ _ (2 ^ 1074)); [done|]. rewrite Z.mul_1_l, <- E, Z.mul_assoc, <- Z.pow_add_r by lia.
    do 2 f_equal. lia.
  - replace (k - 1074)%N with 0%N by lia. change (2 ^ Z.of_N 0) with 1. rewrite Z.mul_1_l.
    apply (Z.mul_reg_l _ _ (2 ^ Z.of_N k)); [pose proof (pow2_pos (Z.of_N k)); lia|].
    rewrite E, Z.mul_assoc, <- Z.pow_add_r by lia. do 2 f_equal. lia.
Qed.

Lemma fden_pos k : 0 < fden k.
Proof. apply pow2_pos. lia. Qed.

(** ** The decimal exponent *)

(** The estimate of [dec_exp] is within one of the truth for every binary exponent. *)
Definition estimate_ok (e : Z) : bool :=
  let g := e * 30103 / 100000 + 1 in
  (1 <=? g) && (if g <=? 1 then true else 10 ^ (g - 2) <=? 2 ^ e) && (2 ^ (e + 1) <=? 10 ^ (g + 1)).

Lemma estimates_ok e : 0 <= e <= 52 -> estimate_ok e = true.
Proof.
  intros He. assert (List.forallb (fun n => estimate_ok (Z.of_nat n)) (List.seq 0 53) = true) as H by evaluate.
  rewrite <- (Z2Nat.id e) by lia.
  apply (proj1 (List.forallb_forall _ _) H). apply List.in_seq. lia.
Qed.

Lemma below_integer z m k n :
  0 <= z -> 0 <= n -> mag m k = 2 ^ 1074 * z ->
  (fnum m k * 10 ^ Z.max 0 (- n) <? 10 ^ Z.max 0 n * fden k) = (z <? 10 ^ n).
Proof.
  intros Hz Hn E. rewrite (fnum_integer z m k E), Z.max_l, Z.max_r by lia.
  pose proof (fden_pos k). apply eq_true_iff_eq. rewrite !Z.ltb_lt. nia.
Qed.

Lemma dec_exp_integer z m k :
  0 < z < 2 ^ 53 -> mag m k = 2 ^ 1074 * z ->
  1 <= dec_exp m k <= 18 /\ 10 ^ (dec_exp m k - 1) <= z < 10 ^ dec_exp m k.
Proof.
  intros Hz E.
  assert (Z.log2 (Z.of_N m) + Z.of_N k - 1074 = Z.log2 z) as Hl.
  { assert (0 < Z.of_N m) by (unfold mag in E; destruct m; [lia|done]).
    assert (Z.log2 (Z.of_N m * 2 ^ Z.of_N k) = Z.log2 (z * 2 ^ 1074)) as HL by (f_equal; unfold mag in E; lia).
    rewrite !Z.log2_mul_pow2 in HL by lia. lia. }
  pose proof (Z.log2_nonneg z). pose proof (Z.log2_spec z ltac:(lia)) as [L1 L2].
  assert (Z.log2 z <= 52) as L52.
  { apply Z.lt_succ_r. apply Z.log2_lt_pow2; [lia|]. exact (proj2 Hz). }
  pose proof (estimates_ok (Z.log2 z) ltac:(lia)) as Ho. unfold estimate_ok in Ho.
  unfold dec_exp. rewrite Hl. set (g := Z.log2 z * 30103 / 100000 + 1) in *.
  assert (g <= 17) by (unfold g; assert (Z.log2 z * 30103 / 100000 <= 52 * 30103 / 100000) by
    (apply Z.div_le_mono; lia); change (52 * 30103 / 100000) with 15 in *; lia).
  bool_hyps. rewrite Z.leb_le in *.
  rewrite <- Z.add_1_r in L2.
  rewrite (below_integer z m k (g - 1)), (below_integer z m k g) by (done || lia).
  destruct (Z.ltb_spec z (10 ^ (g - 1))); [|destruct (Z.ltb_spec z (10 ^ g))].
  - destruct (Z.leb_spec g 1) as [|Hg].
    + assert (g = 1) as Eg by lia. rewrite Eg in *. simpl in *. lia.
    + apply Z.leb_le in H3. split; [lia|]. split; [|lia]. replace (g - 1 - 1) with (g - 2) by lia. lia.
  - split; lia.
  - split; [lia|]. split; [replace (g + 1 - 1) with g by lia; lia|]. lia.
Qed.

(** ** The search *)

Lemma reads_back_integer z m k c n p :
  0 <= z < 2 ^ 53 -> nint z = Num false m k -> 0 <= c -> p <= n ->
  reads_back c n p m k = true <-> c * 10 ^ (n - p) = z.
Proof.
  intros Hz En Hc Hp. unfold reads_back. rewrite bool_decide_eq_true, <- En.
  rewrite Z.max_r, Z.max_l by lia. change (10 ^ 0) with 1.
  assert (0 < 10 ^ (n - p)) by (apply Z.pow_pos_nonneg; lia).
  split.
  - intros E. destruct (nint_sv z Hz) as [Hf Hs]. rewrite <- E in Hf, Hs.
    rewrite rnd_sv in Hs by (done || lia || nia). simpl zsign in Hs.
    destruct (Z.lt_ge_cases (c * 10 ^ (n - p)) (2 ^ 53)) as [Hl|Hl].
    + rewrite <- (Z.mul_1_r (2 ^ 1074 * (c * 10 ^ (n - p)))), RZ_repr in Hs; [nia| |lia].
      apply repr_small. split; [nia|done].
    + exfalso. assert (2 ^ 1074 * 2 ^ 53 <= RZ (2 ^ 1074 * (c * 10 ^ (n - p))) 1) as K; [|nia].
      apply RZ_lower; [|nia|lia|nia]. exists 1, (1074 + 53). split; [done|]. split; [lia|].
      rewrite Z.pow_add_r by lia. lia.
  - intros ->. unfold nint. by rewrite (proj2 (Z.ltb_ge z 0)), Z.abs_eq by lia.
Qed.

Lemma candidates_integer z m k n p :
  0 <= z -> mag m k = 2 ^ 1074 * z -> p <= n ->
  exists c1 c2, candidates n p m k = (c1, c2) /\ 0 <= c1 /\ 0 <= c2
    /\ (z mod 10 ^ (n - p) = 0 -> c1 * 10 ^ (n - p) = z).
Proof.
  intros Hz E Hp. unfold candidates. rewrite (fnum_integer z m k E), Z.max_l, Z.max_r by lia.
  change (10 ^ 0) with 1. rewrite Z.mul_1_r. pose proof (fden_pos k) as Hk.
  assert (0 < 10 ^ (n - p)) as HP by (apply Z.pow_pos_nonneg; lia).
  rewrite (Z.mul_comm (10 ^ (n - p)) (fden k)), Z.div_mul_cancel_l by lia.
  rewrite Z.mul_mod_distr_l by lia.
  assert (0 <= z / 10 ^ (n - p)) by (apply Z.div_pos; lia).
  assert (z mod 10 ^ (n - p) = 0 -> z / 10 ^ (n - p) * 10 ^ (n - p) = z) as K.
  { intros H0. rewrite (Z.div_mod z (10 ^ (n - p))) at 2 by lia. lia. }
  destruct (Z.ltb_spec (2 * (fden k * (z mod 10 ^ (n - p)))) (fden k * 10 ^ (n - p))).
  - eexists _, _. split; [done|]. split_and!; [lia|lia|done].
  - eexists _, _. split; [done|]. split_and!; [lia|lia|]. intros Hd. rewrite Hd in *. nia.
Qed.

Lemma shortest_integer z m k n fuel p :
  0 <= z < 2 ^ 53 -> nint z = Num false m k -> mag m k = 2 ^ 1074 * z ->
  p <= n -> n - p < Z.of_nat fuel ->
  exists c q, shortest fuel p n m k = (c, q) /\ 0 <= c /\ p <= q <= n /\ c * 10 ^ (n - q) = z.
Proof.
  intros Hz En E. revert p. induction fuel as [|fuel IH]; intros p Hp Hf; [lia|].
  destruct (candidates_integer z m k n p) as (c1 & c2 & EC & H1 & H2 & H0); [lia..|]. simpl. rewrite EC.
  destruct (reads_back c1 n p m k) eqn:E1.
  { apply (reads_back_integer z m k c1 n p) in E1; [|done..]. exists c1, p. split_and!; done || lia. }
  destruct (reads_back c2 n p m k) eqn:E2.
  { apply (reads_back_integer z m k c2 n p) in E2; [|done..]. exists c2, p. split_and!; done || lia. }
  assert (p <> n).
  { intros ->. rewrite Z.sub_diag in H0. rewrite Z.mod_1_r in H0.
    assert (reads_back c1 n n m k = true) as K; [|congruence].
    apply (reads_back_integer z m k c1 n n); [done..|lia|]. rewrite Z.sub_diag. auto. }
  destruct (IH (p + 1)) as (c & q & -> & Hc & Hq & HE); [lia..|].
  exists c, q. split_and!; done || lia.
Qed.

Lemma zeros_digits n : digits_of 0 n (zeros n).
Proof.
  induction n as [|n IH]; [constructor|].
  exact (digits_of_cons 0 n (zeros n) (digit 0) IH eq_refl).
Qed.

(** A natural number below 2^53 prints as its decimal digits. *)
Lemma numToString_nint z :
  0 < z < 2 ^ 53 -> exists n, digits_of z (S n) (numToString (nint z)) /\ 10 ^ Z.of_nat n <= z.
Proof.
  intros Hz. destruct (nint_shape z ltac:(lia)) as (m & k & En & E). rewrite En. unfold numToString.
  destruct (dec_exp_integer z m k Hz E) as [Hn Hb]. set (n := dec_exp m k) in *.
  assert ((m =? 0)%N = false) as ->.
  { apply N.eqb_neq. intros ->. unfold mag in E. lia. }
  assert (n <= 16) as Hn16.
  { destruct (Z.le_gt_cases n 16); [done|]. assert (10 ^ 16 <= 10 ^ (n - 1)) by (apply Z.pow_le_mono_r; lia). lia. }
  destruct (shortest_integer z m k n 17 1) as (c & q & -> & Hc & Hq & HE); [lia|done|done|lia|lia|].
  assert (0 < 10 ^ (n - q)) by (apply Z.pow_pos_nonneg; lia).
  assert (10 ^ n = 10 ^ q * 10 ^ (n - q)) as Epow by (rewrite <- Z.pow_add_r by lia; f_equal; lia).
  assert (c < 10 ^ q) by nia.
  rewrite (proj2 (Z.eqb_neq c (10 ^ q))) by lia. unfold layout.
  rewrite (proj2 (Z.leb_le q n)), (proj2 (Z.leb_le n 21)) by lia. simpl andb. cbv iota.
  change ("" +:+ ?t) with t.
  exists (Z.to_nat n - 1)%nat.
  replace (Z.of_nat (Z.to_nat n - 1)) with (n - 1) by lia. split; [|lia].
  pose proof (digits_of_app _ _ _ _ _ _ (pad_digits (Z.to_nat q) c) (zeros_digits (Z.to_nat (n - q)))) as H1.
  replace (S (Z.to_nat n - 1)) with (Z.to_nat q + Z.to_nat (n - q))%nat by lia.
  rewrite !Z2Nat.id, Z.mod_small, Z.add_0_r, HE in H1 by lia. exact H1.
Qed.
