(* ===== verification/Json.v ===== *)
(** * Json: the values of JSON, their text and its parser

    [Json] is the type of the values JSON carries (and of the rows' Json columns): an
    object is the list of its own properties in order.  [stringify] is [JSON.stringify]
    of such a value and [JSON_parse] is [JSON.parse] (ECMA-262, "The JSON Object"), a
    recursive-descent parser whose recursion carries fuel; JsonFacts shows that the fuel
    [JSON_parse] passes is always enough.  A string is the bytes of its UTF-8 encoding
    (see JsDecimal), and so is the text. *)

From S2P Require Import Prelude JsNumber JsText JsDecimal.

#[local] Set Warnings "-register-all".

Local Open Scope string_scope.
Local Open Scope list_scope.

(** ** Values *)

Inductive Json :=
| J_undefined
| J_null
| J_boolean (b : bool)
| J_number (n : number)
| J_string (s : string)
| J_array (l : list Json)
| J_object (fields : list (string * Json)).

(** [String(v)]; an array joins its elements, leaving null and undefined empty. *)
Fixpoint jsString (v : Json) : string :=
  match v with
  | J_undefined => "undefined"
  | J_null => "null"
  | J_boolean b => if b then "true" else "false"
  | J_number n => numToString n
  | J_string s => s
  | J_array l =>
      join "," (List.map (fun e => match e with J_undefined | J_null => "" | _ => jsString e end) l)
  | J_object _ => "[object Object]"
  end.

(** [typeof v] *)
Definition typeof (v : Json) : string :=
  match v with
  | J_undefined => "undefined"
  | J_boolean _ => "boolean"
  | J_number _ => "number"
  | J_string _ => "string"
  | J_null | J_array _ | J_object _ => "object"
  end.

(** A property of an object, [undefined] when it has none of that name. *)
Fixpoint field (k : string) (fs : list (string * Json)) : Json :=
  match fs with
  | [] => J_undefined
  | (k', v) :: fs => if bool_decide (k = k') then v else field k fs
  end.

(** [v\[k\]] of a plain object. *)
Definition prop (k : string) (v : Json) : Json :=
  match v with J_object fs => field k fs | _ => J_undefined end.

(** [o\[k\] = v] on the property list: an existing property keeps its position. *)
Fixpoint setField (k : string) (v : Json) (fs : list (string * Json)) : list (string * Json) :=
  match fs with
  | [] => [(k, v)]
  | (k', w) :: fs => if bool_decide (k = k') then (k, v) :: fs else (k', w) :: setField k v fs
  end.

(** ** JSON.stringify *)

Definition char (n : N) : Ascii.ascii := Ascii.ascii_of_N n.

Definition quotation : Ascii.ascii := char 34.
Definition backslash : Ascii.ascii := char 92.

Definition hexDigit (d : Z) : Ascii.ascii :=
  if (d <? 10)%Z then digit d else char (Z.to_N (87 + d)).

(** QuoteJSONString, one character. *)
Definition escape (c : Ascii.ascii) : string :=
  let n := code c in
  if (n =? 34)%Z then String backslash (String quotation "")
  else if (n =? 92)%Z then String backslash (String backslash "")
  else if (n =? 8)%Z then String backslash "b"
  else if (n =? 12)%Z then String backslash "f"
  else if (n =? 10)%Z then String backslash "n"
  else if (n =? 13)%Z then String backslash "r"
  else if (n =? 9)%Z then String backslash "t"
  else if (n <? 32)%Z then
    String backslash ("u00" +:+ String (hexDigit (n / 16)) (String (hexDigit (n mod 16)) ""))
  else String c "".

Fixpoint escapeAll (s : string) : string :=
  match s with "" => "" | String c s => escape c +:+ escapeAll s end.

Definition quoteJSON (s : string) : string := String quotation (escapeAll s +:+ String quotation "").

(** The text of a value.  Properties that are undefined are left out; an undefined
    element is printed as null (no caller stringifies undefined itself). *)
Fixpoint stringify (v : Json) : string :=
  match v with
  | J_undefined | J_null => "null"
  | J_boolean b => if b then "true" else "false"
  | J_number n => if isFinite n then numToString n else "null"
  | J_string s => quoteJSON s
  | J_array l => "[" +:+ join "," (List.map stringify l) +:+ "]"
  | J_object fs =>
      "{" +:+ join "," (List.flat_map (fun kv =>
        let '(k, v) := kv in
        match v with
        | J_undefined => []
        | _ => [quoteJSON k +:+ ":" +:+ stringify v]
        end) fs) +:+ "}"
  end.

(** ** Tests on values of unknown shape *)

Definition isPlainObject (v : Json) : bool := match v with J_object _ => true | _ => false end.

(** [Number.isInteger] *)
Definition isInteger (n : number) : bool :=
  isFinite n && (sv n mod 2 ^ 1074 =? 0)%Z.

Definition isOneOf (set : list string) (v : Json) : bool :=
  match v with J_string s => bool_decide (s ∈ set) | _ => false end.

(** Double quotes around a value in a message. *)
Definition quoted (s : string) : string := String quotation (s +:+ String quotation "").

(** The first test that rejects gives the detail. *)
Fixpoint firstRejection (tests : list (bool * string)) : option string :=
  match tests with
  | [] => None
  | (rejects, detail) :: tests => if rejects then Some detail else firstRejection tests
  end.

Definition stringOf (v : Json) : string := match v with J_string s => s | _ => "" end.

(** ** JSON.parse *)

(** JSON white space: space, tab, line feed, carriage return. *)
Definition jsonWs (c : Ascii.ascii) : bool :=
  let n := code c in ((n =? 32) || (n =? 9) || (n =? 10) || (n =? 13))%Z.

Fixpoint skipWs (s : string) : string :=
  match s with String c t => if jsonWs c then skipWs t else s | _ => s end.

Definition hexValue (c : Ascii.ascii) : option Z :=
  let n := code c in
  if isDigit c then Some (n - 48)%Z
  else if ((97 <=? n) && (n <=? 102))%Z then Some (n - 87)%Z
  else if ((65 <=? n) && (n <=? 70))%Z then Some (n - 55)%Z else None.

(** The UTF-8 encoding of a code point (a lone surrogate is encoded like the others). *)
Definition utf8 (cp : Z) (rest : string) : string :=
  let b n := char (Z.to_N n) in
  (if cp <? 128 then String (b cp) rest
   else if cp <? 2048 then String (b (192 + cp / 64)) (String (b (128 + cp mod 64)) rest)
   else if cp <? 65536 then
     String (b (224 + cp / 4096)) (String (b (128 + cp / 64 mod 64)) (String (b (128 + cp mod 64)) rest))
   else String (b (240 + cp / 262144)) (String (b (128 + cp / 4096 mod 64))
          (String (b (128 + cp / 64 mod 64)) (String (b (128 + cp mod 64)) rest))))%Z.

(** What one character or escape of a string literal denotes: a byte of the text, or the
    code unit of a \u escape. *)
Inductive StringUnit :=
| Byte (c : Ascii.ascii)
| CodeUnit (u : Z).

(** Two surrogate escapes in a row denote one code point. *)
Fixpoint encodeUnits (l : list StringUnit) : string :=
  match l with
  | [] => ""
  | Byte c :: l => String c (encodeUnits l)
  | CodeUnit u :: l =>
      match l with
      | CodeUnit w :: l' =>
          if ((55296 <=? u) && (u <=? 56319) && (56320 <=? w) && (w <=? 57343))%Z
          then utf8 (65536 + (u - 55296) * 1024 + (w - 56320)) (encodeUnits l')
          else utf8 u (encodeUnits l)
      | _ => utf8 u (encodeUnits l)
      end
  end.

Definition simpleEscape (c : Ascii.ascii) : option Ascii.ascii :=
  let n := code c in
  if ((n =? 34) || (n =? 92) || (n =? 47))%Z then Some c
  else if (n =? 98)%Z then Some (char 8)
  else if (n =? 102)%Z then Some (char 12)
  else if (n =? 110)%Z then Some (char 10)
  else if (n =? 114)%Z then Some (char 13)
  else if (n =? 116)%Z then Some (char 9)
  else None.

(** The characters of a string literal up to its closing quotation mark. *)
Fixpoint parseChars (s : string) : option (list StringUnit * string) :=
  match s with
  | "" => None
  | String c t =>
      if (code c =? 34)%Z then Some ([], t)
      else if (code c =? 92)%Z then
        match t with
        | "" => None
        | String e r =>
            match simpleEscape e with
            | Some b => match parseChars r with Some (l, r') => Some (Byte b :: l, r') | None => None end
            | None =>
                if (code e =? 117)%Z then
                  match r with
                  | String h1 (String h2 (String h3 (String h4 r4))) =>
                      match hexValue h1, hexValue h2, hexValue h3, hexValue h4 with
                      | Some a, Some b, Some c, Some d =>
                          match parseChars r4 with
                          | Some (l, r') => Some (CodeUnit (((a * 16 + b) * 16 + c) * 16 + d)%Z :: l, r')
                          | None => None
                          end
                      | _, _, _, _ => None
                      end
                  | _ => None
                  end
                else None
            end
        end
      else if (code c <? 32)%Z then None
      else match parseChars t with Some (l, r) => Some (Byte c :: l, r) | None => None end
  end.

(** An optional point and the digits it must be followed by. *)
Definition takeFraction (v : Z) (s : string) : option (Z * nat * string) :=
  match s with
  | String c t =>
      if (code c =? 46)%Z then
        let '(w, k, r) := takeDigits v 0 t in
        if (k =? 0)%nat then None else Some (w, k, r)
      else Some (v, 0%nat, s)
  | _ => Some (v, 0%nat, s)
  end.

(** An unsigned number literal, without leading zeros. *)
Definition parseUnsigned (neg : bool) (s : string) : option (number * string) :=
  let '(v, n, s1) := takeDigits 0 0 s in
  let leadingZero := match s with String c _ => (code c =? 48)%Z | _ => false end in
  if (n =? 0)%nat || leadingZero && negb (n =? 1)%nat then None
  else
    match takeFraction v s1 with
    | Some (w, k, s3) =>
        match takeExponent s3 with
        | Some (e, s4) => Some (decimal neg w (e - Z.of_nat k), s4)
        | None => None
        end
    | None => None
    end.

Definition parseNumber (s : string) : option (number * string) :=
  match s with
  | String c t => if (code c =? 45)%Z then parseUnsigned true t else parseUnsigned false s
  | _ => None
  end.

(** What a parser returns: a value and the text that follows it. *)
Inductive Parsed (A : Type) :=
| Ok (a : A) (rest : string)
| SyntaxError
| OutOfFuel.
Arguments Ok {A} a rest.
Arguments SyntaxError {A}.
Arguments OutOfFuel {A}.

(** The text after a leading word. *)
Fixpoint strip (word s : string) : option string :=
  match word, s with
  | "", _ => Some s
  | String c word, String d s => if bool_decide (c = d) then strip word s else None
  | _, _ => None
  end.

Definition parseLiteral (word : string) (v : Json) (s : string) : Parsed Json :=
  match strip word s with Some r => Ok v r | None => SyntaxError end.

(** An object literal's properties are set in order. *)
Definition collapse (fs : list (string * Json)) : list (string * Json) :=
  foldl (fun acc kv => setField (fst kv) (snd kv) acc) [] fs.

(** One level of the three mutually recursive parsers, given the level below. *)
Section level.
Context (value : string -> Parsed Json).
Context (members : string -> Parsed (list (string * Json))).
Context (elements : string -> Parsed (list Json)).

Definition valueBody (s : string) : Parsed Json :=
  match skipWs s with
  | "" => SyntaxError
  | String c t as u =>
      if (code c =? 123)%Z then
        match skipWs t with
        | String d r as m =>
            if (code d =? 125)%Z then Ok (J_object []) r
            else match members m with
                 | Ok fs r => Ok (J_object (collapse fs)) r
                 | SyntaxError => SyntaxError
                 | OutOfFuel => OutOfFuel
                 end
        | _ => SyntaxError
        end
      else if (code c =? 91)%Z then
        match skipWs t with
        | String d r as m =>
            if (code d =? 93)%Z then Ok (J_array []) r
            else match elements m with
                 | Ok l r => Ok (J_array l) r
                 | SyntaxError => SyntaxError
                 | OutOfFuel => OutOfFuel
                 end
        | _ => SyntaxError
        end
      else if (code c =? 34)%Z then
        match parseChars t with
        | Some (l, r) => Ok (J_string (encodeUnits l)) r
        | None => SyntaxError
        end
      else if (code c =? 116)%Z then parseLiteral "true" (J_boolean true) u
      else if (code c =? 102)%Z then parseLiteral "false" (J_boolean false) u
      else if (code c =? 110)%Z then parseLiteral "null" J_null u
      else match parseNumber u with
           | Some (n, r) => Ok (J_number n) r
           | None => SyntaxError
           end
  end.

(** After a member's key: a colon, its value, then a comma or the closing brace. *)
Definition memberTail (k : string) (r : string) : Parsed (list (string * Json)) :=
  match skipWs r with
  | String d r1 =>
      if (code d =? 58)%Z then
        match value r1 with
        | Ok v r2 =>
            match skipWs r2 with
            | String e r3 =>
                if (code e =? 125)%Z then Ok [(k, v)] r3
                else if (code e =? 44)%Z then
                  match members r3 with
                  | Ok fs r4 => Ok ((k, v) :: fs) r4
                  | SyntaxError => SyntaxError
                  | OutOfFuel => OutOfFuel
                  end
                else SyntaxError
            | _ => SyntaxError
            end
        | SyntaxError => SyntaxError
        | OutOfFuel => OutOfFuel
        end
      else SyntaxError
  | _ => SyntaxError
  end.

Definition membersBody (s : string) : Parsed (list (string * Json)) :=
  match skipWs s with
  | String c t =>
      if (code c =? 34)%Z then
        match parseChars t with
        | Some (l, r) => memberTail (encodeUnits l) r
        | None => SyntaxError
        end
      else SyntaxError
  | _ => SyntaxError
  end.

Definition elementsBody (s : string) : Parsed (list Json) :=
  match value s with
  | Ok v r =>
      match skipWs r with
      | String e r1 =>
          if (code e =? 93)%Z then Ok [v] r1
          else if (code e =? 44)%Z then
            match elements r1 with
            | Ok l r2 => Ok (v :: l) r2
            | SyntaxError => SyntaxError
            | OutOfFuel => OutOfFuel
            end
          else SyntaxError
      | _ => SyntaxError
      end
  | SyntaxError => SyntaxError
  | OutOfFuel => OutOfFuel
  end.
End level.

Fixpoint parseValue (fuel : nat) (s : string) : Parsed Json :=
  match fuel with
  | O => OutOfFuel
  | S fuel => valueBody (parseMembers fuel) (parseElements fuel) s
  end
with parseMembers (fuel : nat) (s : string) : Parsed (list (string * Json)) :=
  match fuel with
  | O => OutOfFuel
  | S fuel => membersBody (parseValue fuel) (parseMembers fuel) s
  end
with parseElements (fuel : nat) (s : string) : Parsed (list Json) :=
  match fuel with
  | O => OutOfFuel
  | S fuel => elementsBody (parseValue fuel) (parseElements fuel) s
  end.

(** Enough fuel for every text of that length. *)
Definition parseFuel (s : string) : nat := S (2 * String.length s).

(** [JSON.parse(s)]; [None] is a SyntaxError. *)
Definition JSON_parse (s : string) : option Json :=
  match parseValue (parseFuel s) s with
  | Ok v r => if bool_decide (skipWs r = "") then Some v else None
  | _ => None
  end.
