(* ===== verification/JsonFacts.v ===== *)
(** * JsonFacts: the parser of JSON always answers, and reads back what was printed

    Termination: the fuel of [JSON_parse] is enough for every text.  Stability: more fuel
    and, for a closed value, more text do not change the answer.  Round trip: a value
    without undefined parts whose Numbers read back is what its text parses to; a proper
    prefix of an object's text is not JSON. *)

From S2P Require Import Prelude JsNumber JsNumberFacts JsText JsDecimal JsDecimalFacts Json.

Local Open Scope string_scope.
Local Open Scope list_scope.

Abbreviation len := String.length.

(** ** Consuming text *)

Lemma len_app (s t : string) : len (s +:+ t) = (len s + len t)%nat.
Proof. induction s as [|c s IH]; [done|]. simpl. by rewrite <- IH. Qed.

Lemma skipWs_len s : (len (skipWs s) <= len s)%nat.
Proof. induction s as [|c s IH]; simpl; [lia|]. case_match; simpl; lia. Qed.

Lemma takeDigits_len acc cnt s v k r : takeDigits acc cnt s = (v, k, r) -> (len r + k = len s + cnt)%nat.
Proof.
  revert acc cnt. induction s as [|c s IH]; intros acc cnt; simpl.
  - intros [= <- <- <-]. simpl. lia.
  - case_match; [intros H1; apply IH in H1; lia|intros [= <- <- <-]; simpl; lia].
Qed.

Lemma takeExponent_len s e r : takeExponent s = Some (e, r) -> (len r <= len s)%nat.
Proof.
  unfold takeExponent. destruct s as [|c s]; [by intros [= <- <-]|].
  case_match; [|intros [= <- <-]; lia].
  destruct (match s with String d s2 => _ | _ => _ end) as [neg s2] eqn:E.
  assert (len s2 <= len s)%nat by (repeat case_match; simplify_eq/=; lia).
  destruct (takeDigits 0 0 s2) as [[v n] s3] eqn:ET. apply takeDigits_len in ET.
  destruct (n =? 0)%nat; [done|]. intros [= <- <-]. simpl. lia.
Qed.

Lemma takeFraction_len v s w k r : takeFraction v s = Some (w, k, r) -> (len r <= len s)%nat.
Proof.
  unfold takeFraction. destruct s as [|c s]; [by intros [= <- <- <-]|].
  case_match; [|by intros [= <- <- <-]].
  destruct (takeDigits v 0 s) as [[w' k'] r'] eqn:E. apply takeDigits_len in E.
  destruct (k' =? 0)%nat; [done|]. intros [= <- <- <-]. simpl. lia.
Qed.

Lemma parseUnsigned_len neg s n r : parseUnsigned neg s = Some (n, r) -> (len r < len s)%nat.
Proof.
  unfold parseUnsigned. destruct (takeDigits 0 0 s) as [[v k] s1] eqn:E1. apply takeDigits_len in E1.
  destruct (Nat.eqb_spec k 0); [done|]. simpl. destruct (_ && _); [done|].
  destruct (takeFraction v s1) as [[[w j] s3]|] eqn:E2; [|done]. apply takeFraction_len in E2.
  destruct (takeExponent s3) as [[e s4]|] eqn:E3; [|done].
  apply takeExponent_len in E3. intros [= <- <-]. lia.
Qed.

Lemma parseNumber_len s n r : parseNumber s = Some (n, r) -> (len r < len s)%nat.
Proof.
  destruct s as [|c s]; [done|]. unfold parseNumber. case_match; intros H1%parseUnsigned_len; simpl in *; lia.
Qed.

Lemma parseChars_len s l r : parseChars s = Some (l, r) -> (len r < len s)%nat.
Proof.
  remember (len s) as n eqn:En. revert s En l r.
  induction (lt_wf n) as [n _ IH]. intros s -> l r. destruct s as [|c t]; [done|]. simpl.
  case_match; [intros [= <- <-]; lia|].
  assert (forall u l r, (len u < S (len t))%nat -> parseChars u = Some (l, r) -> (len r < len u)%nat) as K
    by (intros u l' r' Hu; exact (IH _ Hu u eq_refl l' r')).
  repeat case_match; intros; simplify_eq; simpl in *;
    match goal with H : parseChars ?u = Some _ |- _ => apply K in H; simpl in *; lia end.
Qed.

Lemma strip_len w s r : strip w s = Some r -> (len r + len w = len s)%nat.
Proof.
  revert s. induction w as [|c w IH]; intros s; simpl; [intros [= ->]; lia|].
  destruct s as [|d s]; [done|]. case_bool_decide; [|done]. intros H1%IH. simpl. lia.
Qed.

Lemma parseLiteral_len w v s x r : w <> "" -> parseLiteral w v s = Ok x r -> (len r < len s)%nat.
Proof.
  unfold parseLiteral. intros Hw. destruct (strip w s) eqn:E; [|done]. apply strip_len in E.
  intros [= <- <-]. destruct w; [done|]. simpl in E. lia.
Qed.

(** Rewrite the tests of the parser from hypotheses on a result. *)
Ltac parse_cases :=
  repeat match goal with
  | H : Ok _ _ = Ok _ _ |- _ => injection H as ? ?; subst
  | H : Some _ = Some _ |- _ => injection H as ?; subst
  | H : _ :: _ = _ :: _ |- _ => injection H as ? ?; subst
  | H : SyntaxError = _ |- _ => discriminate H
  | H : OutOfFuel = _ |- _ => discriminate H
  | H : Ok _ _ = _ |- _ => discriminate H
  | H : None = Some _ |- _ => discriminate H
  | H : match ?x with _ => _ end = _ |- _ => destruct x eqn:?
  | H : (if ?b then _ else _) = _ |- _ => destruct b eqn:?
  end.

Ltac lens :=
  repeat match goal with
  | H : skipWs ?s = ?u |- _ =>
      let K := fresh in pose proof (skipWs_len s) as K; rewrite H in K; clear H
  | H : parseChars _ = Some (_, _) |- _ => apply parseChars_len in H
  | H : parseNumber _ = Some (_, _) |- _ => apply parseNumber_len in H
  | H : parseLiteral _ _ _ = Ok _ _ |- _ => apply parseLiteral_len in H; [|done]
  end; simpl len in *.

Lemma parseValue_S f s : parseValue (S f) s = valueBody (parseMembers f) (parseElements f) s.
Proof. done. Qed.
Lemma parseMembers_S f s : parseMembers (S f) s = membersBody (parseValue f) (parseMembers f) s.
Proof. done. Qed.
Lemma parseElements_S f s : parseElements (S f) s = elementsBody (parseValue f) (parseElements f) s.
Proof. done. Qed.

Lemma parse_len f :
  (forall s v r, parseValue f s = Ok v r -> (len r < len s)%nat)
  /\ (forall s fs r, parseMembers f s = Ok fs r -> (len r < len s)%nat)
  /\ (forall s l r, parseElements f s = Ok l r -> (len r < len s)%nat).
Proof.
  induction f as [|f (IHv & IHm & IHe)]; [done|].
  split_and!; intros s v r H; rewrite ?parseValue_S, ?parseMembers_S, ?parseElements_S in H;
    unfold valueBody, membersBody, memberTail, elementsBody in H; parse_cases;
    repeat match goal with
    | H : parseValue _ _ = Ok _ _ |- _ => apply IHv in H
    | H : parseMembers _ _ = Ok _ _ |- _ => apply IHm in H
    | H : parseElements _ _ = Ok _ _ |- _ => apply IHe in H
    end; lens; lia.
Qed.

(** ** Termination *)

Lemma parse_fuel f :
  (forall s, parseValue f s = OutOfFuel -> (f <= 2 * len s)%nat)
  /\ (forall s, parseMembers f s = OutOfFuel -> (f <= 2 * len s)%nat)
  /\ (forall s, parseElements f s = OutOfFuel -> (f <= 2 * len s + 1)%nat).
Proof.
  induction f as [|f (IHv & IHm & IHe)]; [split_and!; intros; lia|].
  destruct (parse_len f) as (Lv & Lm & Le).
  split_and!; intros s H; rewrite ?parseValue_S, ?parseMembers_S, ?parseElements_S in H;
    unfold valueBody, membersBody, memberTail, elementsBody in H; parse_cases;
    repeat match goal with
    | H : parseValue _ _ = OutOfFuel |- _ => apply IHv in H
    | H : parseMembers _ _ = OutOfFuel |- _ => apply IHm in H
    | H : parseElements _ _ = OutOfFuel |- _ => apply IHe in H
    | H : parseValue _ _ = Ok _ _ |- _ => apply Lv in H
    | H : parseLiteral _ _ _ = OutOfFuel |- _ => unfold parseLiteral in H; parse_cases
    end; lens; lia.
Qed.

(** Every text is a value and its rest, or a SyntaxError: the recursion never exhausts the
    fuel that [JSON_parse] passes. *)
Lemma parseValue_total s g : (parseFuel s <= g)%nat -> parseValue g s <> OutOfFuel.
Proof. intros Hg H. apply (proj1 (parse_fuel g)) in H. unfold parseFuel in Hg. lia. Qed.

(** ** More fuel *)

Ltac case_scrutinee :=
  match goal with
  | |- context [match ?x with _ => _ end] =>
      lazymatch x with
      | context [match _ with _ => _ end] => fail
      | context [parseValue] => fail
      | context [parseMembers] => fail
      | context [parseElements] => fail
      | _ => destruct x eqn:?
      end
  end.

Lemma parse_step f :
  (forall s, parseValue f s <> OutOfFuel -> parseValue (S f) s = parseValue f s)
  /\ (forall s, parseMembers f s <> OutOfFuel -> parseMembers (S f) s = parseMembers f s)
  /\ (forall s, parseElements f s <> OutOfFuel -> parseElements (S f) s = parseElements f s).
Proof.
  induction f as [|f (IHv & IHm & IHe)]; [by split_and!|].
  split_and!; intros s.
  - rewrite (parseValue_S f), (parseValue_S (S f)). unfold valueBody. repeat case_scrutinee; try done.
    + destruct (parseMembers f _) eqn:E; [| |done]; intros _; by rewrite IHm, E by congruence.
    + destruct (parseElements f _) eqn:E; [| |done]; intros _; by rewrite IHe, E by congruence.
  - rewrite (parseMembers_S f), (parseMembers_S (S f)). unfold membersBody, memberTail.
    repeat case_scrutinee; try done.
    destruct (parseValue f _) eqn:E; [| |done]; intros H; rewrite IHv, E by congruence; [|done].
    revert H. repeat case_scrutinee; try done.
    destruct (parseMembers f _) eqn:E'; [| |done]; by rewrite IHm, E' by congruence.
  - rewrite (parseElements_S f), (parseElements_S (S f)). unfold elementsBody.
    destruct (parseValue f _) eqn:E; [| |done]; intros H; rewrite IHv, E by congruence; [|done].
    revert H. repeat case_scrutinee; try done.
    destruct (parseElements f _) eqn:E'; [| |done]; by rewrite IHe, E' by congruence.
Qed.

Lemma parseValue_more f g s r : (f <= g)%nat -> parseValue f s = r -> r <> OutOfFuel -> parseValue g s = r.
Proof.
  intros Hle <- Hr. induction Hle as [|g Hle IH]; [done|].
  rewrite (proj1 (parse_step g)); [done|by rewrite IH].
Qed.

(** Any fuel that yields a value yields the value [JSON_parse] finds. *)
Lemma JSON_parse_Ok f s v r :
  parseValue f s = Ok v r -> JSON_parse s = if bool_decide (skipWs r = "") then Some v else None.
Proof.
  intros H. unfold JSON_parse. destruct (parseValue (parseFuel s) s) as [w q| |] eqn:E.
  - assert (Ok v r = Ok w q) as [= <- <-]; [|done].
    rewrite <- (parseValue_more f (Nat.max f (parseFuel s)) s _ ltac:(lia) H) by done.
    by rewrite <- (parseValue_more (parseFuel s) (Nat.max f (parseFuel s)) s _ ltac:(lia) E).
  - pose proof (parseValue_more f (Nat.max f (parseFuel s)) s _ ltac:(lia) H ltac:(done)) as E1.
    by rewrite (parseValue_more (parseFuel s) (Nat.max f (parseFuel s)) s _ ltac:(lia) E) in E1.
  - by apply parseValue_total in E.
Qed.

(** ** More text *)

Lemma skipWs_app s t c u : skipWs s = String c u -> skipWs (s +:+ t) = String c (u +:+ t).
Proof. induction s as [|d s IH]; simpl; [done|]. case_match; [done|]. by intros [= <- <-]. Qed.

Lemma takeDigits_app acc cnt s t v k r :
  takeDigits acc cnt s = (v, k, r) -> r <> "" \/ startsWithDigit t = false ->
  takeDigits acc cnt (s +:+ t) = (v, k, r +:+ t).
Proof.
  revert acc cnt. induction s as [|c s IH]; intros acc cnt; simpl.
  - intros [= <- <- <-] [|Ht]; [done|]. by apply takeDigits_stop.
  - case_match; [by intros H' Hr; apply IH|by intros [= <- <- <-] _].
Qed.

(** What may follow a number literal without continuing it. *)
Definition numberEnds (t : string) : bool :=
  match t with
  | String c _ => negb (isDigit c) && negb (code c =? 46)%Z && negb (code c =? 101)%Z && negb (code c =? 69)%Z
  | "" => true
  end.

Lemma numberEnds_digit t : numberEnds t = true -> startsWithDigit t = false.
Proof. destruct t; simpl; [done|]. intros. by bool_hyps. Qed.

Lemma takeExponent_app s t e r :
  takeExponent s = Some (e, r) -> r <> "" \/ numberEnds t = true ->
  takeExponent (s +:+ t) = Some (e, r +:+ t).
Proof.
  intros H Ht. assert (r <> "" \/ startsWithDigit t = false) as Ht'
    by (destruct Ht; [by left|right; by apply numberEnds_digit]).
  destruct s as [|c s]; simpl in *.
  - injection H as <- <-. destruct Ht as [|Ht]; [done|]. destruct t as [|d t]; [done|].
    simpl in *. bool_hyps. by repeat match goal with H : (_ =? _)%Z = false |- _ => rewrite H; clear H end.
  - destruct ((code c =? 101)%Z || (code c =? 69)%Z) eqn:Ec; [|by injection H as <- <-].
    assert (s <> "") by (by intros ->).
    destruct s as [|d s2]; [done|]. simpl in *.
    destruct (code d =? 45)%Z eqn:Ed; [|destruct (code d =? 43)%Z eqn:Ed'];
      (destruct (takeDigits 0 0 _) as [[v n] s3] eqn:ET in H;
       destruct (n =? 0)%nat eqn:En in H; [done|]; injection H as <- <-).
    + by rewrite (takeDigits_app _ _ _ _ _ _ _ ET Ht'), En.
    + by rewrite (takeDigits_app _ _ _ _ _ _ _ ET Ht'), En.
    + change (String d (s2 +:+ t)) with (String d s2 +:+ t).
      by rewrite (takeDigits_app _ _ _ _ _ _ _ ET Ht'), En.
Qed.

Lemma takeFraction_app v s t w k r :
  takeFraction v s = Some (w, k, r) -> r <> "" \/ numberEnds t = true ->
  takeFraction v (s +:+ t) = Some (w, k, r +:+ t).
Proof.
  intros H Ht. assert (r <> "" \/ startsWithDigit t = false) as Ht'
    by (destruct Ht; [by left|right; by apply numberEnds_digit]).
  destruct s as [|c s]; simpl in *.
  - injection H as <- <- <-. destruct Ht as [|Ht]; [done|]. destruct t as [|d t]; [done|].
    simpl in *. bool_hyps. by repeat match goal with H : (_ =? _)%Z = false |- _ => rewrite H; clear H end.
  - destruct (code c =? 46)%Z; [|by injection H as <- <- <-].
    destruct (takeDigits v 0 s) as [[w' k'] r'] eqn:ET.
    destruct (k' =? 0)%nat eqn:Ek; [done|]. injection H as <- <- <-.
    by rewrite (takeDigits_app _ _ _ _ _ _ _ ET Ht'), Ek.
Qed.

Lemma parseUnsigned_app neg s t n r :
  parseUnsigned neg s = Some (n, r) -> r <> "" \/ numberEnds t = true ->
  parseUnsigned neg (s +:+ t) = Some (n, r +:+ t).
Proof.
  intros H Ht. unfold parseUnsigned in *. destruct (takeDigits 0 0 s) as [[v k] s1] eqn:E1.
  destruct (k =? 0)%nat eqn:Ek; [done|]. simpl in H.
  destruct s as [|c s]; [by injection E1 as _ <- _|].
  destruct ((code c =? 48)%Z && negb (k =? 1)%nat) eqn:Ez; [done|].
  destruct (takeFraction v s1) as [[[w j] s3]|] eqn:E2; [|done].
  destruct (takeExponent s3) as [[e s4]|] eqn:E3; [|done]. injection H as <- <-.
  assert (s3 <> "" \/ numberEnds t = true) as Ht3.
  { destruct Ht as [Ht|]; [left|by right]. intros ->. by injection E3 as <- <-. }
  assert (s1 <> "" \/ startsWithDigit t = false) as Ht1.
  { destruct Ht3 as [Ht3|]; [left|right; by apply numberEnds_digit]. intros ->. by injection E2 as <- <- <-. }
  rewrite (takeDigits_app _ _ _ _ _ _ _ E1 Ht1). simpl. rewrite Ek, Ez. simpl.
  by rewrite (takeFraction_app _ _ _ _ _ _ E2 Ht3), (takeExponent_app _ _ _ _ E3 Ht).
Qed.

Lemma parseNumber_app s t n r :
  parseNumber s = Some (n, r) -> r <> "" \/ numberEnds t = true ->
  parseNumber (s +:+ t) = Some (n, r +:+ t).
Proof.
  intros H Ht. destruct s as [|c s]; [done|]. simpl in *.
  destruct (code c =? 45)%Z; [by apply parseUnsigned_app|].
  change (String c (s +:+ t)) with (String c s +:+ t). by apply parseUnsigned_app.
Qed.

Lemma parseChars_app s t l r : parseChars s = Some (l, r) -> parseChars (s +:+ t) = Some (l, r +:+ t).
Proof.
  remember (len s) as n eqn:En. revert s En l r.
  induction (lt_wf n) as [n _ IH]. intros s -> l r. destruct s as [|c u]; [done|]. simpl.
  assert (forall v l r, (len v < S (len u))%nat -> parseChars v = Some (l, r) ->
    parseChars (v +:+ t) = Some (l, r +:+ t)) as K
    by (intros v l' r' Hv; exact (IH _ Hv v eq_refl l' r')).
  case_match; [by intros [= <- <-]|]. case_match.
  - destruct u as [|e u]; [done|]. simpl. case_match.
    + destruct (parseChars u) as [[l' r']|] eqn:E; [|done]. intros [= <- <-].
      rewrite (K u _ _ ltac:(simpl; lia) E). done.
    + case_match; [|done]. destruct u as [|h1 [|h2 [|h3 [|h4 u]]]]; try done. simpl.
      destruct (hexValue h1), (hexValue h2), (hexValue h3), (hexValue h4); try done.
      destruct (parseChars u) as [[l' r']|] eqn:E; [|done]. intros [= <- <-].
      rewrite (K u _ _ ltac:(simpl; lia) E). done.
  - case_match; [done|]. destruct (parseChars u) as [[l' r']|] eqn:E; [|done]. intros [= <- <-].
    rewrite (K u _ _ ltac:(simpl; lia) E). done.
Qed.

Lemma strip_app w s t r : strip w s = Some r -> strip w (s +:+ t) = Some (r +:+ t).
Proof.
  revert s. induction w as [|c w IH]; intros s; simpl; [by intros [= ->]|].
  destruct s as [|d s]; [done|]. simpl. case_bool_decide; [auto|done].
Qed.

Lemma parseLiteral_app w v s t x r :
  parseLiteral w v s = Ok x r -> parseLiteral w v (s +:+ t) = Ok x (r +:+ t).
Proof.
  unfold parseLiteral. destruct (strip w s) eqn:E; [|done]. intros [= <- <-]. by rewrite (strip_app _ _ _ _ E).
Qed.

Definition isNumber (v : Json) : bool := match v with J_number _ => true | _ => false end.

(** The answer does not depend on what follows, unless a number literal ended the text. *)
Lemma parse_app f t :
  (forall s v r, parseValue f s = Ok v r -> r <> "" \/ isNumber v = false -> parseValue f (s +:+ t) = Ok v (r +:+ t))
  /\ (forall s fs r, parseMembers f s = Ok fs r -> parseMembers f (s +:+ t) = Ok fs (r +:+ t))
  /\ (forall s l r, parseElements f s = Ok l r -> parseElements f (s +:+ t) = Ok l (r +:+ t)).
Proof.
  induction f as [|f (IHv & IHm & IHe)]; [done|].
  split_and!; intros s v r.
  - rewrite (parseValue_S f), (parseValue_S f). unfold valueBody.
    destruct (skipWs s) as [|c u] eqn:Es; [done|]. rewrite (skipWs_app _ t _ _ Es).
    destruct (code c =? 123)%Z; [|destruct (code c =? 91)%Z; [|destruct (code c =? 34)%Z]].
    + destruct (skipWs u) as [|d m] eqn:Eu; [done|]. rewrite (skipWs_app _ t _ _ Eu).
      destruct (code d =? 125)%Z; [by intros [= <- <-]|].
      destruct (parseMembers f (String d m)) eqn:E; try done. intros [= <- <-] _.
      change (String d (m +:+ t)) with (String d m +:+ t). by rewrite (IHm _ _ _ E).
    + destruct (skipWs u) as [|d m] eqn:Eu; [done|]. rewrite (skipWs_app _ t _ _ Eu).
      destruct (code d =? 93)%Z; [by intros [= <- <-]|].
      destruct (parseElements f (String d m)) eqn:E; try done. intros [= <- <-] _.
      change (String d (m +:+ t)) with (String d m +:+ t). by rewrite (IHe _ _ _ E).
    + destruct (parseChars u) as [[l q]|] eqn:E; [|done]. intros [= <- <-] _.
      by rewrite (parseChars_app _ _ _ _ E).
    + change (String c (u +:+ t)) with (String c u +:+ t).
      destruct (code c =? 116)%Z; [by intros; apply parseLiteral_app|].
      destruct (code c =? 102)%Z; [by intros; apply parseLiteral_app|].
      destruct (code c =? 110)%Z; [by intros; apply parseLiteral_app|].
      destruct (parseNumber (String c u)) as [[n q]|] eqn:E; [|done]. intros [= <- <-] [Hr|Hr]; [|done].
      by rewrite (parseNumber_app _ _ _ _ E (or_introl Hr)).
  - rewrite (parseMembers_S f), (parseMembers_S f). unfold membersBody, memberTail.
    destruct (skipWs s) as [|c u] eqn:Es; [done|]. rewrite (skipWs_app _ t _ _ Es).
    destruct (code c =? 34)%Z; [|done].
    destruct (parseChars u) as [[l q]|] eqn:E; [|done]. rewrite (parseChars_app _ _ _ _ E).
    destruct (skipWs q) as [|d r1] eqn:Eq; [done|]. rewrite (skipWs_app _ t _ _ Eq).
    destruct (code d =? 58)%Z; [|done].
    destruct (parseValue f r1) as [w r2| |] eqn:Ev; try done.
    destruct (skipWs r2) as [|e r3] eqn:Er; [done|].
    rewrite (IHv _ _ _ Ev) by (left; intros ->; done). rewrite (skipWs_app _ t _ _ Er).
    destruct (code e =? 125)%Z; [by intros [= <- <-]|]. destruct (code e =? 44)%Z; [|done].
    destruct (parseMembers f r3) eqn:E3; try done. intros [= <- <-]. by rewrite (IHm _ _ _ E3).
  - rewrite (parseElements_S f), (parseElements_S f). unfold elementsBody.
    destruct (parseValue f s) as [w r2| |] eqn:Ev; try done.
    destruct (skipWs r2) as [|e r3] eqn:Er; [done|].
    rewrite (IHv _ _ _ Ev) by (left; intros ->; done). rewrite (skipWs_app _ t _ _ Er).
    destruct (code e =? 93)%Z; [by intros [= <- <-]|]. destruct (code e =? 44)%Z; [|done].
    destruct (parseElements f r3) eqn:E3; try done. intros [= <- <-]. by rewrite (IHe _ _ _ E3).
Qed.

(** ** What was printed is read back *)

(** Structural induction with the hypothesis for every element and property. *)
Section Json_induction.
Context (P : Json -> Prop).
Context (Hu : P J_undefined) (Hn : P J_null) (Hb : forall b, P (J_boolean b)).
Context (Hk : forall n, P (J_number n)) (Hs : forall s, P (J_string s)).
Context (Ha : forall l, Forall P l -> P (J_array l)).
Context (Ho : forall fs, Forall (fun kv => P (snd kv)) fs -> P (J_object fs)).

Fixpoint Json_nested_ind (v : Json) : P v :=
  match v with
  | J_undefined => Hu
  | J_null => Hn
  | J_boolean b => Hb b
  | J_number n => Hk n
  | J_string s => Hs s
  | J_array l => Ha l ((fix go l : Forall P l :=
      match l with [] => Forall_nil_2 _ | x :: l => Forall_cons_2 _ _ _ (Json_nested_ind x) (go l) end) l)
  | J_object fs => Ho fs ((fix go fs : Forall (fun kv => P (snd kv)) fs :=
      match fs with [] => Forall_nil_2 _ | (k, x) :: fs => Forall_cons_2 _ (k, x) _ (Json_nested_ind x) (go fs) end) fs)
  end.
End Json_induction.

(** The text of a Number is a literal that denotes it. *)
Definition readsBack (n : number) : bool :=
  isFinite n && bool_decide (parseNumber (numToString n) = Some (n, "")).

(** No undefined part, no repeated property, and every Number reads back. *)
Fixpoint printable (v : Json) : bool :=
  match v with
  | J_undefined => false
  | J_number n => readsBack n
  | J_array l => List.forallb printable l
  | J_object fs =>
      bool_decide (NoDup (List.map fst fs)) && List.forallb (fun kv => let '(_, v) := kv in printable v) fs
  | _ => true
  end.

(** *** Strings *)

Definition unitOf (c : Ascii.ascii) : StringUnit :=
  if (code c <? 32)%Z && negb (bool_decide (c ∈ [char 8; char 9; char 10; char 12; char 13]))
  then CodeUnit (code c) else Byte c.

Definition units (s : string) : list StringUnit := List.map unitOf (String.list_ascii_of_string s).

Ltac all_characters c := destruct c as [[] [] [] [] [] [] [] []].

Lemma parseChars_escape c r :
  parseChars (escape c +:+ r) =
  match parseChars r with Some (l, r') => Some (unitOf c :: l, r') | None => None end.
Proof. all_characters c; reflexivity. Qed.

Lemma encodeUnits_unitOf c l : encodeUnits (unitOf c :: l) = String c (encodeUnits l).
Proof. all_characters c; try reflexivity; destruct l as [|[|] l]; reflexivity. Qed.

Lemma encodeUnits_units s : encodeUnits (units s) = s.
Proof.
  induction s as [|c s IH]; [done|]. unfold units in *. simpl List.map.
  by rewrite encodeUnits_unitOf, IH.
Qed.

Lemma parseChars_quoted s t : parseChars (escapeAll s +:+ String quotation t) = Some (units s, t).
Proof.
  induction s as [|c s IH]; [done|]. simpl escapeAll. rewrite string_app_assoc, parseChars_escape, IH. done.
Qed.

Lemma quoteJSON_app s t : quoteJSON s +:+ t = String quotation (escapeAll s +:+ String quotation t).
Proof.
  change (quoteJSON s +:+ t) with (String quotation ((escapeAll s +:+ String quotation "") +:+ t)).
  by rewrite string_app_assoc.
Qed.

(** *** Objects *)

Lemma setField_fresh k v fs : k ∉ List.map fst fs -> setField k v fs = fs ++ [(k, v)].
Proof.
  induction fs as [|[k' w] fs IH]; simpl; [done|]. intros H. rewrite elem_of_cons in H.
  rewrite bool_decide_false by naive_solver. rewrite IH by naive_solver. done.
Qed.

Lemma collapse_nodup fs : NoDup (List.map fst fs) -> collapse fs = fs.
Proof.
  intros H. unfold collapse.
  cut (forall acc, NoDup (List.map fst (acc ++ fs)) ->
    foldl (fun acc kv => setField kv.1 kv.2 acc) acc fs = acc ++ fs); [intros K; by apply (K [])|].
  clear H. induction fs as [|[k v] fs IH]; intros acc H; simpl; [by rewrite app_nil_r|].
  rewrite List.map_app in H. simpl in H. rewrite setField_fresh.
  - rewrite IH; [by rewrite <- app_assoc|]. rewrite <- app_assoc, List.map_app. done.
  - intros Hin. apply NoDup_app in H as (_ & H & _). apply (H _ Hin). apply list_elem_of_here.
Qed.

(** *** The round trip *)

Lemma parseElements_more f g s l r : (f <= g)%nat -> parseElements f s = Ok l r -> parseElements g s = Ok l r.
Proof.
  intros Hle H. induction Hle as [|g Hle IH]; [done|].
  rewrite (proj2 (proj2 (parse_step g))); [done|by rewrite IH].
Qed.

Lemma parseMembers_more f g s l r : (f <= g)%nat -> parseMembers f s = Ok l r -> parseMembers g s = Ok l r.
Proof.
  intros Hle H. induction Hle as [|g Hle IH]; [done|].
  rewrite (proj1 (proj2 (parse_step g))); [done|by rewrite IH].
Qed.

(** The text of v, followed by t, parses to v and leaves t. *)
Definition roundTrips (v : Json) : Prop :=
  forall t, numberEnds t = true -> exists f, parseValue f (stringify v +:+ t) = Ok v t.

(** A literal that starts a number is none of the other literals. *)
Lemma number_start n s : parseNumber s = Some n ->
  exists c u, s = String c u /\ jsonWs c = false /\ (code c =? 123)%Z = false /\ (code c =? 91)%Z = false
    /\ (code c =? 34)%Z = false /\ (code c =? 116)%Z = false /\ (code c =? 102)%Z = false /\ (code c =? 110)%Z = false.
Proof.
  destruct s as [|c u]; [done|]. intros H. exists c, u. split; [done|].
  assert (isDigit c = true \/ code c = 45%Z) as Hc.
  { simpl in H. destruct (Z.eqb_spec (code c) 45); [by right|left].
    unfold parseUnsigned in H. simpl in H. destruct (isDigit c); [done|]. done. }
  unfold jsonWs, isDigit in *. destruct Hc as [Hc|Hc]; bool_hyps; [|rewrite Hc; done].
  repeat split; repeat (apply orb_false_iff; split); lia.
Qed.

Lemma roundTrips_number n : readsBack n = true -> roundTrips (J_number n).
Proof.
  unfold readsBack. intros Hn t Ht. bool_hyps. exists 1%nat. rewrite parseValue_S. unfold valueBody.
  simpl stringify. rewrite H.
  destruct (number_start _ _ H0) as (c & u & E & Hw & H1 & H2 & H3 & H4 & H5 & H6).
  rewrite E in *. change (String c u +:+ t) with (String c (u +:+ t)). simpl skipWs.
  rewrite Hw, H1, H2, H3, H4, H5, H6. change (String c (u +:+ t)) with (String c u +:+ t).
  by rewrite (parseNumber_app _ t _ _ H0 (or_intror Ht)).
Qed.

Lemma roundTrips_string s : roundTrips (J_string s).
Proof.
  intros t _. exists 1%nat. simpl stringify. rewrite quoteJSON_app, parseValue_S. unfold valueBody.
  change (skipWs (String quotation ?u)) with (String quotation u). cbv beta iota.
  change (code quotation =? 123)%Z with false. change (code quotation =? 91)%Z with false.
  change (code quotation =? 34)%Z with true. cbv iota.
  by rewrite parseChars_quoted, encodeUnits_units.
Qed.

Lemma join_cons sep x y l : join sep (x :: y :: l) = x +:+ sep +:+ join sep (y :: l).
Proof. done. Qed.

Lemma roundTrips_elements l t :
  l <> [] -> Forall roundTrips l ->
  exists f, parseElements f (join "," (List.map stringify l) +:+ "]" +:+ t) = Ok l t.
Proof.
  intros Hl H. induction H as [|v l Hv H IH]; [done|]. destruct l as [|w l].
  - destruct (Hv ("]" +:+ t) eq_refl) as [f Hf]. exists (S f). rewrite parseElements_S. unfold elementsBody.
    simpl List.map. simpl join. by rewrite Hf.
  - destruct IH as [g Hg]; [done|].
    simpl List.map in *. rewrite join_cons. rewrite !string_app_assoc.
    destruct (Hv ("," +:+ join "," (stringify w :: List.map stringify l) +:+ "]" +:+ t) eq_refl) as [f Hf].
    exists (S (Nat.max f g)). rewrite parseElements_S. unfold elementsBody.
    rewrite (parseValue_more f (Nat.max f g) _ _ ltac:(lia) Hf ltac:(done)).
    cbv beta iota. change (skipWs ("," +:+ ?u)) with (String (char 44) u). cbv beta iota.
    change (code (char 44) =? 93)%Z with false. change (code (char 44) =? 44)%Z with true. cbv iota.
    by rewrite (parseElements_more g (Nat.max f g) _ _ _ ltac:(lia) Hg).
Qed.

(** What an object prints for one property. *)
Definition memberText (kv : string * Json) : string := quoteJSON (fst kv) +:+ ":" +:+ stringify (snd kv).

Lemma roundTrips_members fs t :
  fs <> [] -> Forall (fun kv => roundTrips (snd kv)) fs ->
  exists f, parseMembers f (join "," (List.map memberText fs) +:+ "}" +:+ t) = Ok fs t.
Proof.
  intros Hl H. induction H as [|[k v] fs Hv H IH]; [done|].
  assert (forall f s, parseMembers (S f) (quoteJSON k +:+ ":" +:+ s)
    = memberTail (parseValue f) (parseMembers f) k (":" +:+ s)) as K.
  { intros f s. rewrite parseMembers_S, quoteJSON_app. unfold membersBody.
    change (skipWs (String quotation ?u)) with (String quotation u). cbv beta iota.
    change (code quotation =? 34)%Z with true. cbv iota. by rewrite parseChars_quoted, encodeUnits_units. }
  destruct fs as [|w fs].
  - destruct (Hv ("}" +:+ t) eq_refl) as [f Hf]. exists (S f).
    simpl List.map. simpl join. unfold memberText. simpl fst. simpl snd in *. rewrite !string_app_assoc, K.
    unfold memberTail. change (skipWs (":" +:+ ?u)) with (String (char 58) u). cbv beta iota.
    change (code (char 58) =? 58)%Z with true. cbv iota. by rewrite Hf.
  - destruct IH as [g Hg]; [done|].
    simpl List.map in *. rewrite join_cons. unfold memberText at 1. simpl fst. simpl snd in *. rewrite !string_app_assoc.
    destruct (Hv ("," +:+ join "," (memberText w :: List.map memberText fs) +:+ "}" +:+ t) eq_refl) as [f Hf].
    exists (S (Nat.max f g)). rewrite K. unfold memberTail.
    change (skipWs (":" +:+ ?u)) with (String (char 58) u). cbv beta iota.
    change (code (char 58) =? 58)%Z with true. cbv iota.
    rewrite (parseValue_more f (Nat.max f g) _ _ ltac:(lia) Hf ltac:(done)).
    cbv beta iota. change (skipWs ("," +:+ ?u)) with (String (char 44) u). cbv beta iota.
    change (code (char 44) =? 125)%Z with false. change (code (char 44) =? 44)%Z with true. cbv iota.
    by rewrite (parseMembers_more g (Nat.max f g) _ _ _ ltac:(lia) Hg).
Qed.

Lemma stringify_object fs :
  List.forallb (fun kv => let '(_, v) := kv in printable v) fs = true ->
  stringify (J_object fs) = "{" +:+ join "," (List.map memberText fs) +:+ "}".
Proof.
  intros H. simpl stringify. do 2 f_equal. f_equal.
  induction fs as [|[k v] fs IH]; [done|]. simpl in H. bool_hyps. simpl. rewrite IH by done.
  by destruct v.
Qed.

Lemma stringify_array l : stringify (J_array l) = "[" +:+ join "," (List.map stringify l) +:+ "]".
Proof. done. Qed.

Lemma skipWs_solid c s : solid c = true -> skipWs (String c s) = String c s.
Proof.
  unfold solid. intros. bool_hyps. simpl. assert (jsonWs c = false) as ->; [|done].
  unfold jsonWs. repeat (apply orb_false_iff; split); lia.
Qed.

(** The text of a value starts with a visible character. *)
Lemma stringify_start v : printable v = true -> exists c s, stringify v = String c s /\ solid c = true
  /\ (code c =? 93)%Z = false /\ (code c =? 125)%Z = false.
Proof.
  destruct v as [| |b|n|s|l|fs]; try done; simpl; intros H.
  - by exists (char 110), "ull".
  - destruct b; [by exists (char 116), "rue"|by exists (char 102), "alse"].
  - unfold readsBack in H. bool_hyps. rewrite H.
    destruct (numToString n) as [|c s] eqn:E; [done|]. exists c, s. split; [done|].
    simpl in H0. destruct (Z.eqb_spec (code c) 45) as [Hc|_].
    + unfold solid. rewrite Hc. done.
    + unfold parseUnsigned in H0. simpl in H0. destruct (isDigit c) eqn:Ed; [|done].
      split; [by apply isDigit_solid|]. unfold isDigit in Ed. bool_hyps. lia.
  - by eexists quotation, _.
  - by eexists (char 91), _.
  - by eexists (char 123), _.
Qed.

Lemma printable_roundTrips v : printable v = true -> roundTrips v.
Proof.
  induction v as [| |b|n|s|l IH|fs IH] using Json_nested_ind; intros Hp.
  - done.
  - intros t _. by exists 1%nat.
  - intros t _. exists 1%nat. by destruct b.
  - by apply roundTrips_number.
  - apply roundTrips_string.
  - intros t _. rewrite stringify_array.
    destruct l as [|v l]; [by exists 1%nat|].
    assert (Forall roundTrips (v :: l)) as HF.
    { simpl in Hp. rewrite Forall_forall in *. intros x Hx. apply IH; [done|].
      apply (proj1 (List.forallb_forall printable (v :: l)) Hp). by apply list_elem_of_In. }
    destruct (roundTrips_elements (v :: l) t ltac:(done) HF) as [f Hf].
    exists (S f). rewrite parseValue_S. unfold valueBody. rewrite !string_app_assoc.
    change (skipWs ("[" +:+ ?u)) with (String (char 91) u). cbv beta iota.
    change (code (char 91) =? 123)%Z with false. change (code (char 91) =? 91)%Z with true. cbv iota.
    simpl in Hp. bool_hyps. destruct (stringify_start v) as (c & s & E & Hc & H93 & _); [done|].
    assert (exists s', join "," (List.map stringify (v :: l)) +:+ "]" +:+ t = String c s') as [s' E'].
    { simpl List.map. rewrite E. destruct l; [by eexists|]. simpl List.map. rewrite join_cons. by eexists. }
    rewrite E' in *. rewrite skipWs_solid by done. by rewrite H93, Hf.
  - intros t _. simpl in Hp. bool_hyps. rewrite stringify_object by done.
    destruct fs as [|kv fs]; [by exists 1%nat|].
    assert (Forall (fun kv => roundTrips (snd kv)) (kv :: fs)) as HF.
    { rewrite Forall_forall in *. intros [k x] Hx. apply (IH (k, x) Hx).
      apply (proj1 (List.forallb_forall _ (kv :: fs)) H0 (k, x)). by apply list_elem_of_In. }
    destruct (roundTrips_members (kv :: fs) t ltac:(done) HF) as [f Hf].
    exists (S f). rewrite parseValue_S. unfold valueBody. rewrite !string_app_assoc.
    change (skipWs ("{" +:+ ?u)) with (String (char 123) u). cbv beta iota.
    change (code (char 123) =? 123)%Z with true. cbv iota.
    assert (exists s', join "," (List.map memberText (kv :: fs)) +:+ "}" +:+ t = String quotation s') as [s' E'].
    { simpl List.map. destruct fs; [by eexists|]. simpl List.map. rewrite join_cons. by eexists. }
    rewrite E' in *. rewrite skipWs_solid by done.
    change (code quotation =? 125)%Z with false. cbv iota. rewrite Hf. by rewrite collapse_nodup.
Qed.

(** [JSON.parse] after [JSON.stringify] is the identity on printable values. *)
Theorem JSON_round_trip v : printable v = true -> JSON_parse (stringify v) = Some v.
Proof.
  intros Hp. destruct (printable_roundTrips v Hp "" eq_refl) as [f Hf].
  rewrite string_app_nil_r in Hf. by rewrite (JSON_parse_Ok _ _ _ _ Hf).
Qed.

(** *** A torn text *)

Lemma app_eq_nil_r (s t : string) : s +:+ t = "" -> t = "".
Proof. by destruct s. Qed.

(** A proper prefix of an object's text does not parse. *)
Theorem torn_object_not_JSON fs p u :
  printable (J_object fs) = true -> stringify (J_object fs) = p +:+ u -> u <> "" -> JSON_parse p = None.
Proof.
  intros Hp E Hu. destruct (JSON_parse p) as [v|] eqn:EP; [|done]. exfalso.
  unfold JSON_parse in EP. destruct (parseValue (parseFuel p) p) as [w r| |] eqn:EV; [|done..].
  case_bool_decide as Hr; [|done]. injection EP as ->.
  assert (isNumber v = false) as Hv.
  { destruct p as [|c p]; [done|]. pose proof E as E'. simpl in E'. injection E' as <- _.
    unfold parseFuel in EV. rewrite parseValue_S in EV. unfold valueBody in EV. simpl skipWs in EV.
    cbv beta iota in EV. change (code (char 123) =? 123)%Z with true in EV. parse_cases; done. }
  pose proof (proj1 (parse_app (parseFuel p) u) p v r EV (or_intror Hv)) as H1.
  destruct (printable_roundTrips _ Hp "" eq_refl) as [g Hg].
  rewrite string_app_nil_r, E in Hg.
  pose proof (parseValue_more g (Nat.max g (parseFuel p)) _ _ ltac:(lia) Hg ltac:(done)) as G1.
  rewrite (parseValue_more (parseFuel p) (Nat.max g (parseFuel p)) _ _ ltac:(lia) H1 ltac:(done)) in G1.
  injection G1 as _ G1. by apply app_eq_nil_r in G1.
Qed.

(** ** Tests *)

Lemma firstRejection_none tests :
  firstRejection tests = None <-> Forall (fun t => fst t = false) tests.
Proof.
  induction tests as [|[b d] tests IH]; simpl; [by split|]. rewrite Forall_cons. destruct b.
  - split; [done|]. by intros [? _].
  - rewrite IH. tauto.
Qed.

Lemma isOneOf_show {A} (show : A -> string) (l : list A) v :
  (forall a, a ∈ l) -> isOneOf (List.map show l) v = true <-> exists a, v = J_string (show a).
Proof.
  intros Hl. destruct v; simpl; try (split; [done|by intros [? ?]]). rewrite bool_decide_eq_true. split.
  - intros (a & -> & _)%list_elem_of_fmap. by eexists.
  - intros [a [= ->]]. apply list_elem_of_fmap. by eexists.
Qed.

(** ** Natural numbers read back *)

Lemma digits_of_head z j c d :
  digits_of z (S j) (String c d) -> exists w, digits_of w j d /\ (z = digitValue c * 10 ^ Z.of_nat j + w)%Z.
Proof.
  remember (S j) as n eqn:En. remember (String c d) as s eqn:Es. intros H. revert j c d En Es.
  induction H as [|z n s e H IH He]; [done|]. intros j c d [= ->] Es.
  destruct s as [|c' s]; injection Es as -> <-.
  - assert (j = 0%nat) as -> by (inversion H as [|? ? t ? Ht Hc' Et]; [done|]; subst; by destruct t).
    inversion H as [|? ? t ? Ht Hc' Et]; subst. exists 0%Z. split; [constructor|lia].
  - destruct j as [|j]; [inversion H|]. destruct (IH j c s eq_refl eq_refl) as (w & Hw & ->).
    exists (10 * w + digitValue e)%Z. split; [by constructor|].
    rewrite !Nat2Z.inj_succ, !Z.pow_succ_r by lia. lia.
Qed.

Lemma parseUnsigned_digits z n d :
  digits_of z (S n) d -> (10 ^ Z.of_nat n <= z \/ n = 0%nat)%Z ->
  parseUnsigned false d = Some (decimal false z 0, "").
Proof.
  intros Hd Hz. unfold parseUnsigned.
  pose proof (takeDigits_exact _ _ _ 0 0 "" Hd eq_refl) as E. rewrite string_app_nil_r in E. rewrite E.
  simpl Nat.eqb. simpl orb. destruct d as [|c d]; [by apply digits_of_all in Hd as ?; inversion Hd; destruct d|].
  assert ((code c =? 48)%Z && negb (n =? 0)%nat = false) as ->.
  { destruct Hz as [Hz| ->]; [|by rewrite andb_false_r].
    apply andb_false_iff. left. apply Z.eqb_neq. intros Hc.
    destruct (digits_of_head _ _ _ _ Hd) as (w & Hw & ->). apply digits_of_bounds in Hw.
    unfold digitValue in Hz. rewrite Hc in Hz. lia. }
  simpl. by rewrite Z.mul_0_l, Z.add_0_l.
Qed.

Lemma readsBack_nint z : (0 <= z < 2 ^ 53)%Z -> readsBack (nint z) = true.
Proof.
  intros Hz. unfold readsBack. rewrite (proj1 (nint_sv z Hz)). apply bool_decide_eq_true.
  assert (forall z n d, digits_of z (S n) d -> parseUnsigned false d = Some (decimal false z 0, "") ->
    parseNumber d = Some (decimal false z 0, "")) as K.
  { intros z' n d Hd Hp. pose proof (digits_of_starts _ _ _ "" Hd) as Hs. rewrite string_app_nil_r in Hs.
    destruct d as [|c d]; [done|]. unfold parseNumber. by rewrite (proj1 (digit_not_sign c Hs)). }
  destruct (Z.eq_dec z 0) as [->|Hz0]; [done|].
  destruct (numToString_nint z ltac:(lia)) as (n & Hd & Hn).
  rewrite (K z n _ Hd (parseUnsigned_digits z n _ Hd (or_introl Hn))).
  unfold decimal, nint. rewrite (proj2 (Z.ltb_ge z 0)), Z.abs_eq by lia.
  change (10 ^ Z.max 0 0)%Z with 1%Z. change (10 ^ Z.max 0 (- 0))%Z with 1%Z. by rewrite Z.mul_1_r.
Qed.

(** ** One line *)

Definition newline : Ascii.ascii := char 10.

(** No line feed in a text. *)
Fixpoint oneLine (s : string) : bool :=
  match s with "" => true | String c s => negb (bool_decide (c = newline)) && oneLine s end.

Lemma oneLine_app s t : oneLine (s +:+ t) = oneLine s && oneLine t.
Proof. induction s as [|c s IH]; [done|]. simpl. by rewrite IH, andb_assoc. Qed.

Lemma oneLine_join l : Forall (fun s => oneLine s = true) l -> oneLine (join "," l) = true.
Proof.
  induction 1 as [|s l Hs H IH]; [done|]. destruct l; [done|]. rewrite join_cons, !oneLine_app.
  by rewrite Hs, IH.
Qed.

Lemma oneLine_escape s : oneLine (escapeAll s) = true.
Proof.
  induction s as [|c s IH]; [done|]. simpl. rewrite oneLine_app, IH, andb_true_r.
  all_characters c; reflexivity.
Qed.

Lemma oneLine_quote s : oneLine (quoteJSON s) = true.
Proof. unfold quoteJSON. simpl. by rewrite oneLine_app, oneLine_escape. Qed.

Lemma isDigit_not_newline c : isDigit c = true -> bool_decide (c = newline) = false.
Proof. intros H. apply bool_decide_eq_false. by intros ->. Qed.

Lemma takeDigits_oneLine acc cnt s v k r : takeDigits acc cnt s = (v, k, r) -> oneLine r = true -> oneLine s = true.
Proof.
  revert acc cnt. induction s as [|c s IH]; intros acc cnt; simpl; [done|].
  destruct (isDigit c) eqn:Ec; [|by intros [= _ _ <-]].
  intros H Hr. rewrite (isDigit_not_newline c Ec). simpl. by eapply IH.
Qed.

Lemma code_not_newline c n : (code c =? n)%Z = true -> n <> 10%Z -> bool_decide (c = newline) = false.
Proof. intros H Hn. apply bool_decide_eq_false. intros ->. apply Z.eqb_eq in H. by apply Hn. Qed.

Lemma takeExponent_oneLine s e r : takeExponent s = Some (e, r) -> oneLine r = true -> oneLine s = true.
Proof.
  unfold takeExponent. destruct s as [|c s]; [done|].
  destruct ((code c =? 101)%Z || (code c =? 69)%Z) eqn:Ec; [|by intros [= _ <-]].
  assert (bool_decide (c = newline) = false) as Hc.
  { apply orb_true_iff in Ec as [Ec|Ec]; by eapply code_not_newline. }
  intros H Hr. simpl. rewrite Hc. simpl.
  destruct s as [|d s2]; [done|].
  destruct (code d =? 45)%Z eqn:Ed; [|destruct (code d =? 43)%Z eqn:Ed'];
    (destruct (takeDigits 0 0 _) as [[v n] s3] eqn:ET in H; destruct (n =? 0)%nat; [done|];
     injection H as _ ->; apply takeDigits_oneLine in ET; [|done]).
  - simpl. by rewrite ET, (code_not_newline _ _ Ed).
  - simpl. by rewrite ET, (code_not_newline _ _ Ed').
  - exact ET.
Qed.

Lemma takeFraction_oneLine v s w k r : takeFraction v s = Some (w, k, r) -> oneLine r = true -> oneLine s = true.
Proof.
  unfold takeFraction. destruct s as [|c s]; [by intros [= _ _ <-]|].
  destruct (code c =? 46)%Z eqn:Ec; [|by intros [= _ _ <-]].
  destruct (takeDigits v 0 s) as [[w' k'] r'] eqn:ET. destruct (k' =? 0)%nat; [done|].
  intros [= _ _ ->] Hr. simpl. rewrite (code_not_newline _ _ Ec) by done. simpl. by eapply takeDigits_oneLine.
Qed.

Lemma parseUnsigned_oneLine neg s n r : parseUnsigned neg s = Some (n, r) -> oneLine r = true -> oneLine s = true.
Proof.
  unfold parseUnsigned. destruct (takeDigits 0 0 s) as [[v k] s1] eqn:E1. destruct (_ || _); [done|].
  destruct (takeFraction v s1) as [[[w j] s3]|] eqn:E2; [|done].
  destruct (takeExponent s3) as [[e s4]|] eqn:E3; [|done]. intros [= _ ->] Hr.
  eapply takeDigits_oneLine; [done|]. eapply takeFraction_oneLine; [done|]. by eapply takeExponent_oneLine.
Qed.

Lemma readsBack_oneLine n : readsBack n = true -> oneLine (numToString n) = true.
Proof.
  unfold readsBack. intros H. bool_hyps. destruct (numToString n) as [|c s]; [done|]. unfold parseNumber in *.
  destruct (code c =? 45)%Z eqn:Ec; [|by eapply parseUnsigned_oneLine].
  simpl. rewrite (code_not_newline _ _ Ec) by done. simpl. by eapply parseUnsigned_oneLine.
Qed.

(** The text of a printable value is one line. *)
Lemma oneLine_stringify v : printable v = true -> oneLine (stringify v) = true.
Proof.
  induction v as [| |b|n|s|l IH|fs IH] using Json_nested_ind; intros Hp; try done.
  - by destruct b.
  - simpl in *. destruct (isFinite n); [by apply readsBack_oneLine|done].
  - apply oneLine_quote.
  - rewrite stringify_array, !oneLine_app, oneLine_join; [done|]. apply Forall_fmap. simpl in Hp.
    rewrite Forall_forall in *. intros x Hx. apply IH; [done|].
    apply (proj1 (List.forallb_forall _ _) Hp). by apply list_elem_of_In.
  - simpl in Hp. bool_hyps. rewrite stringify_object, !oneLine_app by done.
    rewrite oneLine_join; [done|].
    apply Forall_fmap. rewrite Forall_forall in *. intros [k x] Hx.
    change (oneLine (quoteJSON k +:+ ":" +:+ stringify x) = true).
    rewrite !oneLine_app, oneLine_quote. change (oneLine (stringify x) = true). apply (IH (k, x) Hx).
    apply (proj1 (List.forallb_forall _ _) H0 (k, x)). by apply list_elem_of_In.
Qed.
