(* ===== verification/Effects.v ===== *)
(** * Effects: stateful code that can throw

    The async functions of the workers read and write an outside world and may throw.
    [M X S A] is a computation on a state S that returns an A or throws an X; what it
    changed before it threw stays changed.  [wp] is its weakest precondition, and
    [Respects R m] says that m only moves the state along the relation R, whether it
    returns or throws: the class is solved from the structure of the code.  The last part is
    the verdict of an execution gate, which the risk layer, the stage and the control plane
    share. *)

From S2P Require Import Prelude.

Declare Scope eff_scope.
Delimit Scope eff_scope with eff.

Definition M (X S A : Type) : Type := S -> (X + A) * S.

Section monad.
Context {X S : Type}.

Definition ret {A} (a : A) : M X S A := fun s => (inr a, s).

Definition throw {A} (x : X) : M X S A := fun s => (inl x, s).

Definition bind {A B} (m : M X S A) (k : A -> M X S B) : M X S B :=
  fun s => match m s with
           | (inr a, s') => k a s'
           | (inl x, s') => (inl x, s')
           end.

(** [try { m } catch (x) { h(x) }] *)
Definition catch {A} (m : M X S A) (h : X -> M X S A) : M X S A :=
  fun s => match m s with
           | (inr a, s') => (inr a, s')
           | (inl x, s') => h x s'
           end.

Definition gets {A} (f : S -> A) : M X S A := fun s => (inr (f s), s).

Definition modify (f : S -> S) : M X S unit := fun s => (inr tt, f s).

(** [if (b) { m }] *)
Definition when (b : bool) (m : M X S unit) : M X S unit := if b then m else ret tt.

(** [for (const a of l) { f(a) }] *)
Fixpoint forEach {A} (f : A -> M X S unit) (l : list A) : M X S unit :=
  match l with
  | [] => ret tt
  | a :: l => bind (f a) (fun _ => forEach f l)
  end.

(** [Promise.all(l.map(f))], the calls in the order of the list. *)
Fixpoint mapAll {A B} (f : A -> M X S B) (l : list A) : M X S (list B) :=
  match l with
  | [] => ret []
  | a :: l => bind (f a) (fun b => bind (mapAll f l) (fun bs => ret (b :: bs)))
  end.

(** A call that cannot throw. *)
Definition total {A} (f : S -> A * S) : M X S A := fun s => (inr (fst (f s)), snd (f s)).
End monad.

(** A computation on the second component of the state. *)
Definition onWorld {X P W A} (m : M X W A) : M X (P * W) A :=
  fun s => let '(r, w) := m (snd s) in (r, (fst s, w)).

Notation "'let!' x := m 'in' k" := (bind m (fun x => k))
  (at level 10, x pattern, m at level 100, k at level 200) : eff_scope.
Notation "'do!' m 'in' k" := (bind m (fun _ => k))
  (at level 10, m at level 100, k at level 200) : eff_scope.

(** ** Weakest preconditions *)

Section wp.
Context {X S : Type}.

Definition wp {A} (m : M X S A) (Q : X + A -> S -> Prop) (s : S) : Prop :=
  Q (fst (m s)) (snd (m s)).

Lemma wp_ret {A} (a : A) Q s : Q (inr a) s -> wp (ret a) Q s.
Proof. exact id. Qed.

Lemma wp_throw {A} x (Q : X + A -> S -> Prop) s : Q (inl x) s -> wp (throw x) Q s.
Proof. exact id. Qed.

Lemma wp_bind {A B} (m : M X S A) (k : A -> M X S B) Q s :
  wp m (fun r s' => match r with inr a => wp (k a) Q s' | inl x => Q (inl x) s' end) s ->
  wp (bind m k) Q s.
Proof. unfold wp, bind. destruct (m s) as [[x|a] s1]; exact id. Qed.

Lemma wp_catch {A} (m : M X S A) h Q s :
  wp m (fun r s' => match r with inr a => Q (inr a) s' | inl x => wp (h x) Q s' end) s ->
  wp (catch m h) Q s.
Proof. unfold wp, catch. destruct (m s) as [[x|a] s1]; exact id. Qed.

Lemma wp_gets {A} (f : S -> A) Q s : Q (inr (f s)) s -> wp (gets f) Q s.
Proof. exact id. Qed.

Lemma wp_modify f Q s : Q (inr tt) (f s) -> wp (modify f) Q s.
Proof. exact id. Qed.

Lemma wp_total {A} (f : S -> A * S) Q s :
  (forall a s', f s = (a, s') -> Q (inr a) s') -> wp (total f) Q s.
Proof. intros H. exact (H _ _ (surjective_pairing _)). Qed.

Lemma wp_mono {A} (m : M X S A) (Q Q' : X + A -> S -> Prop) s :
  wp m Q s -> (forall r s', Q r s' -> Q' r s') -> wp m Q' s.
Proof. unfold wp. auto. Qed.

Lemma wp_and {A} (m : M X S A) (Q Q' : X + A -> S -> Prop) s :
  wp m Q s -> wp m Q' s -> wp m (fun r s' => Q r s' /\ Q' r s') s.
Proof. by split. Qed.

(** A loop with an invariant on the processed prefix. *)
Lemma wp_forEach {A} (f : A -> M X S unit) (I : list A -> S -> Prop) (E : X -> S -> Prop) l s :
  I [] s ->
  (forall done x rest s, l = done ++ x :: rest -> I done s ->
     wp (f x) (fun r s' => match r with inr _ => I (done ++ [x]) s' | inl e => E e s' end) s) ->
  wp (forEach f l) (fun r s' => match r with inr _ => I l s' | inl e => E e s' end) s.
Proof.
  intros H0 Hs.
  cut (forall rest done s, l = done ++ rest -> I done s ->
    wp (forEach f rest) (fun r s' => match r with inr _ => I l s' | inl e => E e s' end) s).
  { intros K. exact (K l [] s eq_refl H0). }
  clear H0 s. induction rest as [|x rest IH]; intros dn s -> HI; simpl.
  - apply wp_ret. rewrite app_nil_r. exact HI.
  - apply wp_bind. eapply wp_mono; [exact (Hs dn x rest s eq_refl HI)|]. intros [e|[]] s1; [exact id|].
    intros HI1. apply (IH (dn ++ [x])); [by rewrite <- app_assoc|exact HI1].
Qed.

Lemma wp_mapAll {A B} (f : A -> M X S B) (J : S -> Prop) (R : A -> B -> Prop) (E : X -> S -> Prop)
    l s :
  J s ->
  (forall x s, x ∈ l -> J s ->
     wp (f x) (fun r s' => match r with inr b => J s' /\ R x b | inl e => E e s' end) s) ->
  wp (mapAll f l) (fun r s' => match r with inr bs => J s' /\ Forall2 R l bs | inl e => E e s' end) s.
Proof.
  intros HJ. revert s HJ. induction l as [|x l IH]; intros s HJ Hs; simpl.
  - apply wp_ret. by split.
  - apply wp_bind. eapply wp_mono; [apply Hs; [apply list_elem_of_here|done]|].
    intros [e|b] s'; [done|]. intros [HJ' Hb]. apply wp_bind. eapply wp_mono.
    { apply IH; [done|]. intros y s1 Hy. apply Hs. by apply list_elem_of_further. }
    intros [e|bs] s1; [done|]. intros [HJ1 Hbs]. apply wp_ret. by split; [|constructor].
Qed.
End wp.

Lemma wp_onWorld {X P W A} (m : M X W A) Q (s : P * W) :
  wp m (fun r w => Q r (fst s, w)) (snd s) -> wp (onWorld m) Q s.
Proof. unfold wp, onWorld. destruct (m (snd s)); exact id. Qed.

(** ** Respecting a relation *)

Class Respects {X S A} (R : S -> S -> Prop) (m : M X S A) : Prop :=
  respects : forall s, R s (snd (m s)).

Section respects.
Set Default Proof Using "Type*".
Context {X S : Type} (R : S -> S -> Prop) `{!Reflexive R} `{!Transitive R}.

#[export] Instance respects_ret {A} (a : A) : Respects (X := X) R (ret a).
Proof. by intros s. Qed.

#[export] Instance respects_throw {A} (x : X) : Respects (A := A) R (throw x).
Proof. by intros s. Qed.

#[export] Instance respects_gets {A} (f : S -> A) : Respects (X := X) R (gets f).
Proof. by intros s. Qed.

#[export] Instance respects_bind {A B} (m : M X S A) (k : A -> M X S B) :
  Respects R m -> (forall a, Respects R (k a)) -> Respects R (bind m k).
Proof.
  intros Hm Hk s. unfold bind. pose proof (Hm s) as H. destruct (m s) as [[x|a] s']; [done|].
  simpl in *. etransitivity; [done|apply Hk].
Qed.

#[export] Instance respects_catch {A} (m : M X S A) h :
  Respects R m -> (forall x, Respects R (h x)) -> Respects R (catch m h).
Proof.
  intros Hm Hk s. unfold catch. pose proof (Hm s) as H. destruct (m s) as [[x|a] s']; [|done].
  simpl in *. etransitivity; [done|apply Hk].
Qed.

#[export] Instance respects_when b m : Respects (X := X) R m -> Respects R (when b m).
Proof. destruct b; [done|]. intros _ s. simpl. done. Qed.

#[export] Instance respects_forEach {A} (f : A -> M X S unit) l :
  (forall a, Respects R (f a)) -> Respects R (forEach f l).
Proof. intros H. induction l; simpl; apply _. Qed.

#[export] Instance respects_mapAll {A B} (f : A -> M X S B) l :
  (forall a, Respects R (f a)) -> Respects R (mapAll f l).
Proof. intros H. induction l; simpl; apply _. Qed.

#[export] Instance respects_if {A} (b : bool) (m1 m2 : M X S A) :
  Respects R m1 -> Respects R m2 -> Respects R (if b then m1 else m2).
Proof. by destruct b. Qed.

#[export] Instance respects_option {A B} (o : option B) (f : B -> M X S A) (m : M X S A) :
  (forall b, Respects R (f b)) -> Respects R m ->
  Respects R (match o with Some b => f b | None => m end).
Proof. by destruct o. Qed.

#[export] Instance respects_sum {A B C} (o : B + C) (f : B -> M X S A) (g : C -> M X S A) :
  (forall b, Respects R (f b)) -> (forall c, Respects R (g c)) ->
  Respects R (match o with inl b => f b | inr c => g c end).
Proof. by destruct o. Qed.
End respects.

#[export] Instance respects_onWorld {X P W A} (R : W -> W -> Prop) (m : M X W A) :
  Respects R m -> Respects (fun s s' : P * W => R (snd s) (snd s')) (onWorld m).
Proof. intros H s. unfold onWorld. pose proof (H (snd s)). by destruct (m (snd s)). Qed.

(** ** Returning *)

(** A computation that never throws. *)
Class Returning {X S A} (m : M X S A) : Prop := returning : forall s, exists a s', m s = (inr a, s').

Section returning.
Context {X S : Type}.

#[export] Instance returning_ret {A} (a : A) : Returning (ret a : M X S A).
Proof. intros s. by exists a, s. Qed.

#[export] Instance returning_modify f : Returning (modify f : M X S unit).
Proof. intros s. by eexists tt, _. Qed.

#[export] Instance returning_bind {A B} (m : M X S A) (k : A -> M X S B) :
  Returning m -> (forall a, Returning (k a)) -> Returning (bind m k).
Proof. intros Hm Hk s. unfold bind. destruct (Hm s) as (a & s' & ->). apply Hk. Qed.

#[export] Instance returning_catch {A} (m : M X S A) h : (forall x, Returning (h x)) -> Returning (catch m h).
Proof. intros Hh s. unfold catch. destruct (m s) as [[x|a] s']; [apply Hh|by exists a, s']. Qed.

#[export] Instance returning_when b m : Returning (m : M X S unit) -> Returning (when b m).
Proof. destruct b; [done|]. intros _. apply _. Qed.

#[export] Instance returning_forEach {A} (f : A -> M X S unit) l : (forall a, Returning (f a)) -> Returning (forEach f l).
Proof. intros H. induction l; simpl; apply _. Qed.

#[export] Instance returning_option {A B} (o : option B) (f : B -> M X S A) (m : M X S A) :
  (forall b, Returning (f b)) -> Returning m -> Returning (match o with Some b => f b | None => m end).
Proof. by destruct o. Qed.

#[export] Instance returning_onWorld {P A} (m : M X S A) : Returning m -> Returning (onWorld m : M X (P * S) A).
Proof. intros H s. unfold onWorld. destruct (H (snd s)) as (a & s' & ->). by eexists a, _. Qed.
End returning.

(** * What a pre-trade gate answers

    RiskGateDecision of services/workers/src/execution/stage.ts: the answer of the risk
    engine's gate, of the control plane's gate and of their composition. *)

Inductive RiskGateDecision :=
| Approved
| Denied (reason detail : string).
