(* ===== verification/StageTypes.v ===== *)
(** * StageTypes: the contracts of the worker's execution layer

    services/workers/src/execution/types.ts: decisions, the allocations the portfolio
    layer proposes, intents, results and their lineage, with the JSON form a lineage has
    in the journals.  Notionals and confidences are decimal strings. *)

From S2P Require Import Prelude JsNumber Served Json.

Local Open Scope string_scope.
Local Open Scope list_scope.

(** ** Decisions *)

Inductive DecisionAction := DA_ENTER | DA_HOLD | DA_STAND_ASIDE.

#[export] Instance DecisionAction_eq_dec : EqDecision DecisionAction.
Proof. solve_decision. Defined.

Definition showAction (a : DecisionAction) : string :=
  match a with DA_ENTER => "ENTER" | DA_HOLD => "HOLD" | DA_STAND_ASIDE => "STAND_ASIDE" end.

Inductive ExecutionSide := LONG | SHORT.

#[export] Instance ExecutionSide_eq_dec : EqDecision ExecutionSide.
Proof. solve_decision. Defined.

Definition showSide (s : ExecutionSide) : string :=
  match s with LONG => "LONG" | SHORT => "SHORT" end.

(** GeneratedSignal (signal/types.ts), the observation a decision is about. *)
Record GeneratedSignal := {
  gs_symbol : string;
  gs_side : SignalDecision;
  gs_decision : SignalDecision;
  gs_confidence : string;
  gs_strategyVersionId : string;
  gs_strategyParams : Json;
  gs_featureSnapshotId : string;
  gs_dqReportId : string;
  gs_datasetHash : string;
  gs_featureHash : string
}.

Record DecisionIntent := {
  di_action : DecisionAction;
  di_side : SignalDecision;
  di_confidence : string;
  di_rationale : string
}.

Inductive PlanStatus := PENDING | SKIPPED.

Record ExecutionPlan := { xp_status : PlanStatus; xp_detail : string }.

Record DecisionLineage := {
  dl_tickId : option string;
  dl_strategyVersionId : string;
  dl_featureSnapshotId : string;
  dl_dqReportId : string;
  dl_datasetHash : string;
  dl_featureHash : string;
  dl_executionStrategyId : string;
  dl_executionStrategyVersion : number
}.

Record DecisionEvent := {
  de_signal : GeneratedSignal;
  de_decision : DecisionIntent;
  de_execution : option ExecutionPlan;
  de_lineage : DecisionLineage
}.

(** ** Allocations *)

Record DecisionContribution := {
  dc_strategyVersionId : string;
  dc_executionStrategyId : string;
  dc_executionStrategyVersion : number;
  dc_featureSnapshotId : string;
  dc_dqReportId : string;
  dc_datasetHash : string;
  dc_featureHash : string;
  dc_side : ExecutionSide;
  dc_confidence : string;
  dc_weightedNotional : string
}.

#[export] Instance DecisionContribution_eq_dec : EqDecision DecisionContribution.
Proof. solve_decision. Defined.

Record ProposedAllocation := {
  pa_symbol : string;
  pa_side : ExecutionSide;
  pa_targetNotional : string;
  pa_netScore : string;
  pa_strategyId : string;
  pa_strategyVersion : number;
  pa_primary : DecisionContribution;
  pa_contributions : list DecisionContribution
}.

(** ** Intents and results *)

(** ExecutionLineage: the decision lineage of the primary contributor and the ids of the
    execution. *)
Record ExecutionLineage := {
  xl_tickId : option string;
  xl_strategyVersionId : string;
  xl_featureSnapshotId : string;
  xl_dqReportId : string;
  xl_datasetHash : string;
  xl_featureHash : string;
  xl_executionStrategyId : string;
  xl_executionStrategyVersion : number;
  xl_intentId : string;
  xl_netScore : string;
  xl_contributions : list DecisionContribution
}.

#[export] Instance ExecutionLineage_eq_dec : EqDecision ExecutionLineage.
Proof. solve_decision. Defined.

(** The action of an intent is always ENTER. *)
Record ExecutionIntent := {
  xi_intentId : string;
  xi_symbol : string;
  xi_side : ExecutionSide;
  xi_targetNotional : string;
  xi_adapterId : string;
  xi_lineage : ExecutionLineage;
  xi_rationale : string
}.

Inductive ResultStatus := FILLED | REJECTED.

#[export] Instance ResultStatus_eq_dec : EqDecision ResultStatus.
Proof. solve_decision. Defined.

Definition showStatus (s : ResultStatus) : string :=
  match s with FILLED => "FILLED" | REJECTED => "REJECTED" end.

Record ExecutionResult := {
  xr_intentId : string;
  xr_symbol : string;
  xr_side : ExecutionSide;
  xr_status : ResultStatus;
  xr_adapterId : string;
  xr_filledNotional : string;
  xr_detail : string;
  xr_lineage : ExecutionLineage
}.

Inductive ExecutionStageEvent :=
| INTENT_EMITTED (intent : ExecutionIntent)
| BLOCKED (proposal : ProposedAllocation) (reason detail : string)
| RESULT_RECORDED (result : ExecutionResult).

(** ** The JSON of a lineage and of a result, as the journals hold it *)

Definition contributionJson (c : DecisionContribution) : Json :=
  J_object [
    ("strategyVersionId", J_string (dc_strategyVersionId c));
    ("executionStrategyId", J_string (dc_executionStrategyId c));
    ("executionStrategyVersion", J_number (dc_executionStrategyVersion c));
    ("featureSnapshotId", J_string (dc_featureSnapshotId c));
    ("dqReportId", J_string (dc_dqReportId c));
    ("datasetHash", J_string (dc_datasetHash c));
    ("featureHash", J_string (dc_featureHash c));
    ("side", J_string (showSide (dc_side c)));
    ("confidence", J_string (dc_confidence c));
    ("weightedNotional", J_string (dc_weightedNotional c))
  ].

Definition lineageJson (l : ExecutionLineage) : Json :=
  J_object (
    (match xl_tickId l with Some t => [("tickId", J_string t)] | None => [] end) ++ [
    ("strategyVersionId", J_string (xl_strategyVersionId l));
    ("featureSnapshotId", J_string (xl_featureSnapshotId l));
    ("dqReportId", J_string (xl_dqReportId l));
    ("datasetHash", J_string (xl_datasetHash l));
    ("featureHash", J_string (xl_featureHash l));
    ("executionStrategyId", J_string (xl_executionStrategyId l));
    ("executionStrategyVersion", J_number (xl_executionStrategyVersion l));
    ("intentId", J_string (xl_intentId l));
    ("netScore", J_string (xl_netScore l));
    ("contributions", J_array (List.map contributionJson (xl_contributions l)))
  ]).

Definition resultJson (r : ExecutionResult) : Json :=
  J_object [
    ("intentId", J_string (xr_intentId r));
    ("symbol", J_string (xr_symbol r));
    ("side", J_string (showSide (xr_side r)));
    ("status", J_string (showStatus (xr_status r)));
    ("adapterId", J_string (xr_adapterId r));
    ("filledNotional", J_string (xr_filledNotional r));
    ("detail", J_string (xr_detail r));
    ("lineage", lineageJson (xr_lineage r))
  ].
