(* ===== verification/Signals.v ===== *)
(** * Signals: the signal engine of the workers

    services/workers/src/signal: decision.ts (the sealed decision rule), engine.ts
    (generation), lineage.ts (the lineage contract), replay.ts (reconstruction) and
    persistence.ts (persist and publish).  Features and parameters are JSON objects as they
    are read from the database. *)

From S2P Require Import Prelude JsNumber JsText JsDecimal Json Effects StageTypes Served.

Local Open Scope string_scope.
Local Open Scope list_scope.
Local Open Scope eff_scope.

(** ** decision.ts *)

Record SignalParams := {
  sp_rsiLongMin : number;
  sp_rsiShortMax : number;
  sp_maxRealizedVol : number
}.

Definition DEFAULT_SIGNAL_PARAMS : SignalParams :=
  {| sp_rsiLongMin := nint 55; sp_rsiShortMax := nint 45; sp_maxRealizedVol := ndec 2 2 |}.

Record SignalDecisionResult := {
  sd_side : SignalDecision;
  sd_decision : SignalDecision;
  sd_confidence : number
}.

(** [typeof raw === "number" && Number.isFinite(raw) ? raw : fallback] *)
Definition finiteOr (raw : Json) (fallback : number) : number :=
  match raw with J_number n => if isFinite n then n else fallback | _ => fallback end.

Definition resolveSignalParams (parameters : Json) : SignalParams := {|
  sp_rsiLongMin := finiteOr (prop "rsiLongMin" parameters) (sp_rsiLongMin DEFAULT_SIGNAL_PARAMS);
  sp_rsiShortMax := finiteOr (prop "rsiShortMax" parameters) (sp_rsiShortMax DEFAULT_SIGNAL_PARAMS);
  sp_maxRealizedVol := finiteOr (prop "maxRealizedVol" parameters) (sp_maxRealizedVol DEFAULT_SIGNAL_PARAMS)
|}.

(** The clamp of the sealed rule lets NaN through. *)
Definition clampUnit (x : number) : number :=
  if nlt x (nint 0) then nint 0 else if ngt x (nint 1) then nint 1 else x.

(** [feature]: the message of the SignalInputError, or the value. *)
Definition feature (features : Json) (key : string) : string + number :=
  let refuse := inl ("feature " +:+ key +:+ " missing or non-finite (fail-closed)") in
  match prop key features with J_number n => if isFinite n then inr n else refuse | _ => refuse end.

Definition quantizeConfidence (x : number) : string :=
  let c := clampUnit x in
  toFixed (if neq c (nint 0) then nint 0 else c) 4.

Definition isBull (ema20 ema50 ema200 : number) : bool := ngt ema20 ema50 && ngt ema50 ema200.
Definition isBear (ema20 ema50 ema200 : number) : bool := nlt ema20 ema50 && nlt ema50 ema200.

Definition trendBias (bull bear : bool) : SignalDecision :=
  if bull then LONG else if bear then SHORT else FLAT.

(** The trend bias where the RSI confirms it. *)
Definition confirmedBias (params : SignalParams) (bull bear : bool) (rsi : number) : SignalDecision :=
  if bull && nge rsi (sp_rsiLongMin params) then LONG
  else if bear && nle rsi (sp_rsiShortMax params) then SHORT else FLAT.

(** The rule over the five features. *)
Definition ruleOf (params : SignalParams) (ema20 ema50 ema200 rsi realizedVol : number) : SignalDecisionResult :=
  let bull := isBull ema20 ema50 ema200 in
  let bear := isBear ema20 ema50 ema200 in
  let directional := confirmedBias params bull bear rsi in
  let volFiltered := ngt realizedVol (sp_maxRealizedVol params) in
  let decision := if volFiltered then FLAT else directional in
  let trendStrength := clampUnit (ndiv (nabs (nsub ema20 ema200)) (nabs ema200)) in
  let rsiConviction := clampUnit (ndiv (nabs (nsub rsi (nint 50))) (nint 50)) in
  {|
    sd_side := trendBias bull bear;
    sd_decision := decision;
    sd_confidence :=
      match decision with
      | LONG | SHORT => clampUnit (nadd (nmul (ndec 5 1) trendStrength) (nmul (ndec 5 1) rsiConviction))
      | FLAT =>
          if volFiltered
          then clampUnit (ndiv (nsub realizedVol (sp_maxRealizedVol params)) (sp_maxRealizedVol params))
          else nint 0
      end
  |}.

(** The five features in the order the rule reads them. *)
Definition decideSignal (features : Json) (params : SignalParams) : string + SignalDecisionResult :=
  match feature features "ema_20" with
  | inl e => inl e
  | inr ema20 =>
    match feature features "ema_50" with
    | inl e => inl e
    | inr ema50 =>
      match feature features "ema_200" with
      | inl e => inl e
      | inr ema200 =>
        match feature features "rsi_14" with
        | inl e => inl e
        | inr rsi =>
          match feature features "realized_vol_30" with
          | inl e => inl e
          | inr realizedVol => inr (ruleOf params ema20 ema50 ema200 rsi realizedVol)
          end
        end
      end
    end
  end.

(** ** types.ts *)

Record SignalFeatureSnapshot := {
  fs_id : string;
  fs_symbol : string;
  fs_featureHash : string;
  fs_features : Json
}.

Inductive DqStatus := DQ_PASSED | DQ_FAILED.

#[export] Instance DqStatus_eq_dec : EqDecision DqStatus.
Proof. solve_decision. Defined.

Definition showDqStatus (s : DqStatus) : string := match s with DQ_PASSED => "PASSED" | DQ_FAILED => "FAILED" end.

Record SignalDataQualityReport := {
  dq_id : string;
  dq_score : number;
  dq_status : DqStatus;
  dq_datasetHash : string
}.

Record SignalStrategyVersion := { sv_id : string; sv_parameters : Json }.

Record SignalEngineInput := {
  se_featureSnapshot : SignalFeatureSnapshot;
  se_dqReport : SignalDataQualityReport;
  se_strategyVersion : SignalStrategyVersion
}.

Inductive SignalGenerationResult :=
| Generated (signal : GeneratedSignal)
| Refused (reason : string).

(** PersistedSignal: the recorded signal under its row id. *)
Record PersistedSignal := { pg_id : string; pg_signal : GeneratedSignal }.

Record LineageVerification := {
  lv_lineageValid : bool;
  lv_datasetHashMatch : bool;
  lv_featureHashMatch : bool;
  lv_strategyVersionMatch : bool;
  lv_detail : string
}.

Inductive ReplayOutcome := MATCH | DECISION_MISMATCH | REFUSED_DQ | ABORTED_LINEAGE | ABORTED_FEATURE_VECTOR.

#[export] Instance ReplayOutcome_eq_dec : EqDecision ReplayOutcome.
Proof. solve_decision. Defined.

(** [SignalDecision | "REFUSED" | null] *)
Inductive Recomputed := NotRecomputed | RecomputedRefused | RecomputedDecision (d : SignalDecision).

Record SignalReplayResult := {
  rr_replayResult : ReplayOutcome;
  rr_decisionMatch : bool;
  rr_confidenceMatch : bool;
  rr_sideMatch : bool;
  rr_lineage : LineageVerification;
  rr_recomputedDecision : Recomputed;
  rr_recordedDecision : SignalDecision;
  rr_replayDetail : string
}.

(** ** engine.ts *)

(** packages/core/src/constants.ts *)
Definition MIN_DATA_QUALITY_SCORE : number := nint 90.

Definition belowFloor (report : SignalDataQualityReport) : bool :=
  bool_decide (dq_status report <> DQ_PASSED) || nlt (dq_score report) MIN_DATA_QUALITY_SCORE.

Definition floorText (report : SignalDataQualityReport) : string :=
  "DQ score " +:+ numToString (dq_score report) +:+ " (" +:+ showDqStatus (dq_status report) +:+ ") < "
  +:+ numToString MIN_DATA_QUALITY_SCORE.

(** The params object that is stored with the signal. *)
Definition paramsJson (p : SignalParams) : Json :=
  J_object [("rsiLongMin", J_number (sp_rsiLongMin p)); ("rsiShortMax", J_number (sp_rsiShortMax p));
            ("maxRealizedVol", J_number (sp_maxRealizedVol p))].

Definition generateSignal (input : SignalEngineInput) : SignalGenerationResult :=
  let featureSnapshot := se_featureSnapshot input in
  let dqReport := se_dqReport input in
  let strategyVersion := se_strategyVersion input in
  if belowFloor dqReport then Refused (floorText dqReport +:+ " — signal refused")
  else
    let params := resolveSignalParams (sv_parameters strategyVersion) in
    match decideSignal (fs_features featureSnapshot) params with
    | inl message => Refused message
    | inr result => Generated {|
        gs_symbol := fs_symbol featureSnapshot;
        gs_side := sd_side result;
        gs_decision := sd_decision result;
        gs_confidence := quantizeConfidence (sd_confidence result);
        gs_strategyVersionId := sv_id strategyVersion;
        gs_strategyParams := paramsJson params;
        gs_featureSnapshotId := fs_id featureSnapshot;
        gs_dqReportId := dq_id dqReport;
        gs_datasetHash := dq_datasetHash dqReport;
        gs_featureHash := fs_featureHash featureSnapshot |}
    end.

(** ** lineage.ts *)

(** [live === snap.key] for a Number and a value of the stored object. *)
Definition sameNumber (live : number) (snap : Json) : bool :=
  match snap with J_number n => neq live n | _ => false end.

Definition paramsMatch (live : SignalParams) (snap : Json) : bool :=
  sameNumber (sp_rsiLongMin live) (prop "rsiLongMin" snap)
  && sameNumber (sp_rsiShortMax live) (prop "rsiShortMax" snap)
  && sameNumber (sp_maxRealizedVol live) (prop "maxRealizedVol" snap).

Definition verifySignalLineage (signal : GeneratedSignal) (input : SignalEngineInput) : LineageVerification :=
  let featureSnapshot := se_featureSnapshot input in
  let dqReport := se_dqReport input in
  let strategyVersion := se_strategyVersion input in
  let featureSnapshotLink := bool_decide (gs_featureSnapshotId signal = fs_id featureSnapshot) in
  let dqReportLink := bool_decide (gs_dqReportId signal = dq_id dqReport) in
  let featureHashMatch :=
    featureSnapshotLink && bool_decide (gs_featureHash signal = fs_featureHash featureSnapshot) in
  let datasetHashMatch := dqReportLink && bool_decide (gs_datasetHash signal = dq_datasetHash dqReport) in
  let symbolMatch := featureSnapshotLink && bool_decide (gs_symbol signal = fs_symbol featureSnapshot) in
  let idMatch := bool_decide (gs_strategyVersionId signal = sv_id strategyVersion) in
  let live := resolveSignalParams (sv_parameters strategyVersion) in
  let paramsMatch := paramsMatch live (gs_strategyParams signal) in
  let strategyVersionMatch := idMatch && paramsMatch in
  let lineageValid :=
    featureSnapshotLink && dqReportLink && featureHashMatch && datasetHashMatch && symbolMatch
    && strategyVersionMatch in
  let problems :=
    (if featureSnapshotLink then [] else ["featureSnapshotId does not reference the snapshot"])
    ++ (if dqReportLink then [] else ["dqReportId does not reference the DQ report"])
    ++ (if featureHashMatch then [] else ["featureHash mismatch vs snapshot"])
    ++ (if datasetHashMatch then [] else ["datasetHash mismatch vs DQ report"])
    ++ (if symbolMatch then [] else ["symbol mismatch vs snapshot"])
    ++ (if negb idMatch then ["strategyVersionId mismatch"]
        else if negb paramsMatch then ["strategy parameter drift vs persisted snapshot"] else []) in
  {|
    lv_lineageValid := lineageValid;
    lv_datasetHashMatch := datasetHashMatch;
    lv_featureHashMatch := featureHashMatch;
    lv_strategyVersionMatch := strategyVersionMatch;
    lv_detail := if lineageValid then "lineage intact" else join "; " problems
  |}.

(** ** replay.ts *)

Definition replayEngineSignal (signal : PersistedSignal) (input : SignalEngineInput) : SignalReplayResult :=
  let recorded := pg_signal signal in
  let lineage := verifySignalLineage recorded input in
  let result outcome decisionMatch confidenceMatch sideMatch recomputed detail := {|
    rr_replayResult := outcome;
    rr_decisionMatch := decisionMatch;
    rr_confidenceMatch := confidenceMatch;
    rr_sideMatch := sideMatch;
    rr_lineage := lineage;
    rr_recomputedDecision := recomputed;
    rr_recordedDecision := gs_decision recorded;
    rr_replayDetail := detail |} in
  if negb (lv_lineageValid lineage) then result ABORTED_LINEAGE false false false NotRecomputed (lv_detail lineage)
  else if belowFloor (se_dqReport input) then
    result REFUSED_DQ false false false RecomputedRefused (floorText (se_dqReport input) +:+ " — refused")
  else
    match decideSignal (fs_features (se_featureSnapshot input)) (resolveSignalParams (gs_strategyParams recorded)) with
    | inl message => result ABORTED_FEATURE_VECTOR false false false NotRecomputed message
    | inr recomputed =>
        let confidence := quantizeConfidence (sd_confidence recomputed) in
        let decisionMatch := bool_decide (sd_decision recomputed = gs_decision recorded) in
        let confidenceMatch := bool_decide (confidence = gs_confidence recorded) in
        let sideMatch := bool_decide (sd_side recomputed = gs_side recorded) in
        let fullMatch := decisionMatch && confidenceMatch && sideMatch in
        result (if fullMatch then MATCH else DECISION_MISMATCH) decisionMatch confidenceMatch sideMatch
          (RecomputedDecision (sd_decision recomputed))
          (if fullMatch then "decision + side + confidence reproduced from persisted artifacts"
           else "recomputed " +:+ showDirection (sd_side recomputed) +:+ "/" +:+ showDirection (sd_decision recomputed)
                +:+ "/" +:+ confidence +:+ " != recorded " +:+ showDirection (gs_side recorded) +:+ "/"
                +:+ showDirection (gs_decision recorded) +:+ "/" +:+ gs_confidence recorded)
    end.

(** ** persistence.ts *)

Record PersistedEngineSignal := {
  pe_id : string;
  pe_symbol : string;
  pe_decision : SignalDecision;
  pe_confidence : string
}.

(** The fields an upsert overwrites in an existing row. *)
Record EngineSignalUpdate := {
  eu_side : SignalDecision;
  eu_decision : SignalDecision;
  eu_confidence : string;
  eu_strategyParams : Json;
  eu_dqReportId : string;
  eu_datasetHash : string;
  eu_featureHash : string
}.

(** The client and the bus; [so_isUniqueViolation] recognises the P2002 error code. *)
Record SignalOps (X W : Type) := {
  so_upsert : string * string -> GeneratedSignal -> EngineSignalUpdate -> M X W PersistedEngineSignal;
  so_findUnique : string * string -> M X W (option PersistedEngineSignal);
  so_isUniqueViolation : X -> bool;
  so_publishSignal : option (PersistedEngineSignal -> string -> M X W unit)
}.
Arguments so_upsert {X W}.
Arguments so_findUnique {X W}.
Arguments so_isUniqueViolation {X W}.
Arguments so_publishSignal {X W}.

Section persistence.
Context {X W : Type} (ops : SignalOps X W).

Definition signalKey (signal : GeneratedSignal) : string * string :=
  (gs_featureSnapshotId signal, gs_strategyVersionId signal).

Definition signalUpdate (signal : GeneratedSignal) : EngineSignalUpdate := {|
  eu_side := gs_side signal;
  eu_decision := gs_decision signal;
  eu_confidence := gs_confidence signal;
  eu_strategyParams := gs_strategyParams signal;
  eu_dqReportId := gs_dqReportId signal;
  eu_datasetHash := gs_datasetHash signal;
  eu_featureHash := gs_featureHash signal |}.

(** A lost race on the unique index resolves to the row of the winner. *)
Definition persistEngineSignal (signal : GeneratedSignal) : M X W PersistedEngineSignal :=
  catch (so_upsert ops (signalKey signal) signal (signalUpdate signal))
    (fun err =>
       if so_isUniqueViolation ops err then
         let! existing := so_findUnique ops (signalKey signal) in
         match existing with Some row => ret row | None => throw err end
       else throw err).

Definition runSignalEngine (input : SignalEngineInput) : M X W (string + PersistedEngineSignal) :=
  match generateSignal input with
  | Refused reason => ret (inl reason)
  | Generated signal =>
      let! persisted := persistEngineSignal signal in
      do! match so_publishSignal ops with
          | Some publish => publish persisted (gs_featureHash signal)
          | None => ret tt
          end in
      ret (inr persisted)
  end.
End persistence.
