(* ===== verification/Decision.v ===== *)
(** * Decision: the trading decision engine

    packages/trading-decision/src: util.ts, signal-rule.ts, scores.ts, regime.ts,
    holding-time.ts, entry-stop-target.ts, sizing.ts, status.ts, explainability.ts and
    decision.ts.  Features are a JSON object; [Partial<DecisionConfig>] is a record of
    optional fields; the time value of a date text is a parameter of the decision. *)

From S2P Require Import Prelude JsNumber JsText JsDecimal Json Signals Served.

Local Open Scope string_scope.
Local Open Scope list_scope.

(** ** util.ts *)

Definition clamp01 (x : number) : number :=
  if negb (isFinite x) then nint 0
  else if nlt x (nint 0) then nint 0
  else if ngt x (nint 1) then nint 1 else x.

Definition clampScore (x : number) : number :=
  if negb (isFinite x) then nint 0
  else if nlt x (nint 0) then nint 0
  else if ngt x (nint 100) then nint 100 else x.

(** [r === 0 ? 0 : r] after [Number(x.toFixed(dp))]; non-finite input gives 0. *)
Definition round (x : number) (dp : nat) : number :=
  if negb (isFinite x) then nint 0
  else
    let r := toFixedNumber x (Z.of_nat dp) in
    if neq r (nint 0) then nint 0 else r.

Definition showRound (x : number) (dp : nat) : string := numToString (round x dp).

Definition readFeature (features : Json) (key : string) : option number :=
  match prop key features with J_number n => if isFinite n then Some n else None | _ => None end.

Definition measure (value : number) (provenance : Provenance) (basis : string) : Measure :=
  {| me_value := Some value; me_provenance := provenance; me_basis := basis |}.

Definition unavailable (basis : string) : Measure :=
  {| me_value := None; me_provenance := Pv_unavailable; me_basis := basis |}.

(** resolveSignalParams; an absent object has no properties. *)
Definition resolveSignalParams (raw : option Json) : SignalParams :=
  let p := default (J_object []) raw in {|
  sp_rsiLongMin := finiteOr (prop "rsiLongMin" p) (nint 55);
  sp_rsiShortMax := finiteOr (prop "rsiShortMax" p) (nint 45);
  sp_maxRealizedVol := finiteOr (prop "maxRealizedVol" p) (ndec 2 2) |}.

(** ** types.ts: the inputs *)

Record SignalProjection := {
  sj_id : string;
  sj_symbol : string;
  sj_side : SignalDecision;
  sj_decision : SignalDecision;
  sj_confidence : number;
  sj_featureHash : string;
  sj_datasetHash : string;
  sj_strategyVersionId : string;
  sj_strategyParams : SignalParams;
  sj_createdAt : string
}.

Record PriceObservation := { pc_price : number; pc_ts : string; pc_source : string }.

Record LiquidityObservation := {
  lq_spreadBps : option number;
  lq_depthUsd : option number;
  lq_ts : string
}.

Record RiskContext := {
  rk_assumedEquity : number;
  rk_riskFraction : number;
  rk_leverage : number;
  rk_maxNotional : number;
  rk_systemRiskMode : option RiskMode
}.

Inductive Permission := PM_ALLOWED | PM_BLOCKED.

#[export] Instance Permission_eq_dec : EqDecision Permission.
Proof. solve_decision. Defined.

Record ControlContext := {
  cx_permission : option Permission;
  cx_runtimeState : option string;
  cx_killEngaged : bool;
  cx_blockedReasons : list string
}.

Record DecisionConfig := {
  dg_atrStopMult : number;
  dg_atrTp1Mult : number;
  dg_atrTp2Mult : number;
  dg_atrTp3Mult : number;
  dg_holdingHorizonBars : number;
  dg_refSpreadBps : number;
  dg_refDepthUsd : number;
  dg_priceDecimals : nat
}.

Definition DEFAULT_DECISION_CONFIG : DecisionConfig := {|
  dg_atrStopMult := ndec 15 1;
  dg_atrTp1Mult := ndec 15 1;
  dg_atrTp2Mult := nint 3;
  dg_atrTp3Mult := ndec 45 1;
  dg_holdingHorizonBars := nint 20;
  dg_refSpreadBps := nint 10;
  dg_refDepthUsd := nint 1000000;
  dg_priceDecimals := 2
|}.

(** [Partial<DecisionConfig>] *)
Record DecisionOverrides := {
  do_atrStopMult : option number;
  do_atrTp1Mult : option number;
  do_atrTp2Mult : option number;
  do_atrTp3Mult : option number;
  do_holdingHorizonBars : option number;
  do_refSpreadBps : option number;
  do_refDepthUsd : option number;
  do_priceDecimals : option nat
}.

(** [{ ...DEFAULT_DECISION_CONFIG, ...(config ?? {}) }] *)
Definition decisionConfig (config : option DecisionOverrides) : DecisionConfig :=
  match config with
  | None => DEFAULT_DECISION_CONFIG
  | Some c => {|
      dg_atrStopMult := default (dg_atrStopMult DEFAULT_DECISION_CONFIG) (do_atrStopMult c);
      dg_atrTp1Mult := default (dg_atrTp1Mult DEFAULT_DECISION_CONFIG) (do_atrTp1Mult c);
      dg_atrTp2Mult := default (dg_atrTp2Mult DEFAULT_DECISION_CONFIG) (do_atrTp2Mult c);
      dg_atrTp3Mult := default (dg_atrTp3Mult DEFAULT_DECISION_CONFIG) (do_atrTp3Mult c);
      dg_holdingHorizonBars := default (dg_holdingHorizonBars DEFAULT_DECISION_CONFIG) (do_holdingHorizonBars c);
      dg_refSpreadBps := default (dg_refSpreadBps DEFAULT_DECISION_CONFIG) (do_refSpreadBps c);
      dg_refDepthUsd := default (dg_refDepthUsd DEFAULT_DECISION_CONFIG) (do_refDepthUsd c);
      dg_priceDecimals := default (dg_priceDecimals DEFAULT_DECISION_CONFIG) (do_priceDecimals c) |}
  end.

Record DecisionInputs := {
  dn_now : number;
  dn_signal : SignalProjection;
  dn_features : Json;
  dn_featureTs : option string;
  dn_timeframe : Timeframe;
  dn_dqScore : number;
  dn_price : option PriceObservation;
  dn_liquidity : option LiquidityObservation;
  dn_risk : RiskContext;
  dn_control : ControlContext;
  dn_config : option DecisionOverrides
}.

(** ** signal-rule.ts *)

Record RuleResult := {
  ru_side : SignalDecision;
  ru_decision : SignalDecision;
  ru_confidence : number;
  ru_volFiltered : bool;
  ru_trendStrength : number;
  ru_rsiConviction : number
}.

Definition applyRule (features : Json) (params : SignalParams) : option RuleResult :=
  match readFeature features "ema_20", readFeature features "ema_50", readFeature features "ema_200",
        readFeature features "rsi_14", readFeature features "realized_vol_30" with
  | Some ema20, Some ema50, Some ema200, Some rsi, Some realizedVol =>
      let bull := ngt ema20 ema50 && ngt ema50 ema200 in
      let bear := nlt ema20 ema50 && nlt ema50 ema200 in
      let side := if bull then LONG else if bear then SHORT else FLAT in
      let directional :=
        if bull && nge rsi (sp_rsiLongMin params) then LONG
        else if bear && nle rsi (sp_rsiShortMax params) then SHORT else FLAT in
      let volFiltered := ngt realizedVol (sp_maxRealizedVol params) in
      let decision := if volFiltered then FLAT else directional in
      let trendStrength := clamp01 (ndiv (nabs (nsub ema20 ema200)) (nabs ema200)) in
      let rsiConviction := clamp01 (ndiv (nabs (nsub rsi (nint 50))) (nint 50)) in
      let confidence :=
        match decision with
        | LONG | SHORT => clamp01 (nadd (nmul (ndec 5 1) trendStrength) (nmul (ndec 5 1) rsiConviction))
        | FLAT =>
            if volFiltered
            then clamp01 (ndiv (nsub realizedVol (sp_maxRealizedVol params)) (sp_maxRealizedVol params))
            else nint 0
        end in
      Some {|
        ru_side := side;
        ru_decision := decision;
        ru_confidence := confidence;
        ru_volFiltered := volFiltered;
        ru_trendStrength := trendStrength;
        ru_rsiConviction := rsiConviction |}
  | _, _, _, _, _ => None
  end.

(** ** scores.ts *)

Definition trendScore (features : Json) : Measure :=
  match readFeature features "ema_20", readFeature features "ema_200" with
  | Some ema20, Some ema200 =>
      if neq ema200 (nint 0) then unavailable "ema_20/ema_200 unavailable — trend strength not computable"
      else
        let s := nmul (clamp01 (ndiv (nabs (nsub ema20 ema200)) (nabs ema200))) (nint 100) in
        measure (round s 1) Pv_derived "clamp01(|ema_20−ema_200|/|ema_200|) × 100 (sealed-rule trendStrength)"
  | _, _ => unavailable "ema_20/ema_200 unavailable — trend strength not computable"
  end.

Definition momentumScore (features : Json) : Measure :=
  match readFeature features "rsi_14" with
  | None => unavailable "rsi_14 unavailable — momentum not computable"
  | Some rsi =>
      let s := nmul (clamp01 (ndiv (nabs (nsub rsi (nint 50))) (nint 50))) (nint 100) in
      measure (round s 1) Pv_derived "clamp01(|rsi_14−50|/50) × 100 — RSI-only (no MACD/ROC feature)"
  end.

Definition volatilityScore (features : Json) (params : SignalParams) : Measure :=
  match readFeature features "realized_vol_30" with
  | None => unavailable "realized_vol_30 unavailable — volatility not computable"
  | Some rv =>
      let ceiling :=
        if ngt (sp_maxRealizedVol params) (nint 0) then nmul (nint 2) (sp_maxRealizedVol params) else ndec 4 2 in
      let s := nmul (clamp01 (ndiv rv ceiling)) (nint 100) in
      measure (round s 1) Pv_derived
        ("clamp01(realized_vol_30/" +:+ showRound ceiling 6 +:+ ") × 100 (normalized vs 2× strategy maxRealizedVol)")
  end.

(** The scores of the known sides of the observation, with their texts. *)
Definition liquidityParts (liq : LiquidityObservation) (cfg : DecisionConfig) : list (number * string) :=
  match lq_spreadBps liq with
  | Some spread => [(clamp01 (nsub (nint 1) (ndiv spread (dg_refSpreadBps cfg))),
                     "spread " +:+ showRound spread 2 +:+ "bps")]
  | None => []
  end
  ++ match lq_depthUsd liq with
     | Some depth => [(clamp01 (ndiv depth (dg_refDepthUsd cfg)), "depth $" +:+ showRound depth 0)]
     | None => []
     end.

Definition liquidityScore (liq : option LiquidityObservation) (cfg : DecisionConfig) : Measure :=
  let none := unavailable "no order-book/liquidity snapshot — liquidity not computable" in
  match liq with
  | None => none
  | Some liq =>
      match liquidityParts liq cfg with
      | [] => none
      | parts =>
          let avg := ndiv (foldl nadd (nint 0) (List.map fst parts)) (nint (Z.of_nat (length parts))) in
          measure (round (clampScore (nmul avg (nint 100))) 1) Pv_derived
            ("from " +:+ join " + " (List.map snd parts) +:+ " (refSpread " +:+ numToString (dg_refSpreadBps cfg)
             +:+ "bps, refDepth $" +:+ numToString (dg_refDepthUsd cfg) +:+ ")")
      end
  end.

(** ** regime.ts *)

Definition NO_M8 : string :=
  "derived from EMA stack + realized_vol_30 (no M8 classifier; PANIC/EUPHORIA need unavailable drawdown/euphoria signals)".

Definition deriveRegime (features : Json) (params : SignalParams) : RegimeView :=
  match readFeature features "ema_20", readFeature features "ema_50", readFeature features "ema_200",
        readFeature features "realized_vol_30" with
  | Some ema20, Some ema50, Some ema200, Some rv =>
      let maxVol := if ngt (sp_maxRealizedVol params) (nint 0) then sp_maxRealizedVol params else ndec 2 2 in
      let bull := ngt ema20 ema50 && ngt ema50 ema200 in
      let bear := nlt ema20 ema50 && nlt ema50 ema200 in
      let regime :=
        if ngt rv (nmul (nint 2) maxVol) then HIGH_VOL
        else if bull then TRENDING_BULL
        else if bear then TRENDING_BEAR
        else if nlt rv (nmul (ndec 25 2) maxVol) then LOW_VOL
        else RANGE_BOUND in
      {| rg_regime := Some regime; rg_provenance := Pv_derived; rg_basis := NO_M8 |}
  | _, _, _, _ =>
      {| rg_regime := None; rg_provenance := Pv_unavailable;
         rg_basis := "required features missing — regime not derivable" |}
  end.

(** ** holding-time.ts *)

Definition BAR_SECONDS (t : Timeframe) : number :=
  nint match t with M1 => 60 | M5 => 300 | M15 => 900 | H1 => 3600 | H4 => 14400 | D1 => 86400 end.

Definition estimateHoldingTime (timeframe : Timeframe) (cfg : DecisionConfig) : HoldingTimeView :=
  let bars := dg_holdingHorizonBars cfg in {|
  ht_seconds := Some (nmul (BAR_SECONDS timeframe) bars);
  ht_bars := Some bars;
  ht_provenance := Pv_estimated;
  ht_basis := showTimeframe timeframe +:+ " bar × " +:+ numToString bars
    +:+ "-bar horizon (no runtime holding-time source — deterministic estimate)" |}.

(** ** entry-stop-target.ts *)

Record Levels := {
  lv_entryPrice : Measure;
  lv_stopLoss : Measure;
  lv_takeProfit1 : Measure;
  lv_takeProfit2 : Measure;
  lv_takeProfit3 : Measure;
  lv_riskRewardRatio : Measure;
  lv_stopDistancePct : Measure
}.

(** Levels with this entry and nothing else. *)
Definition entryOnly (entry : Measure) (reason : string) : Levels := {|
  lv_entryPrice := entry;
  lv_stopLoss := unavailable reason;
  lv_takeProfit1 := unavailable reason;
  lv_takeProfit2 := unavailable reason;
  lv_takeProfit3 := unavailable reason;
  lv_riskRewardRatio := unavailable reason;
  lv_stopDistancePct := unavailable reason |}.

Definition allUnavailable (reason : string) : Levels := entryOnly (unavailable reason) reason.

(** [entry + s * mult * atr] for the sign s of a direction. *)
Definition levelAt (entry s mult atr : number) : number := nadd entry (nmul (nmul s mult) atr).
Definition stopAt (entry s mult atr : number) : number := nsub entry (nmul (nmul s mult) atr).

Definition computeLevels (direction : SignalDecision) (price : option PriceObservation) (atr : option number)
    (cfg : DecisionConfig) : Levels :=
  if bool_decide (direction = FLAT) then allUnavailable "FLAT signal — no directional entry/stop/target"
  else
    match price with
    | None => allUnavailable "no fresh mark — entry/stop/target not computable"
    | Some price =>
        let dp := dg_priceDecimals cfg in
        let entry := pc_price price in
        let entryMeasure :=
          measure (round entry dp) Pv_real ("current mark " +:+ pc_source price +:+ " @ " +:+ pc_ts price) in
        let noAtr := entryOnly entryMeasure
          "atr_14 unavailable or non-positive — ATR-based stop/targets not computable" in
        match atr with
        | None => noAtr
        | Some atr =>
            if nle atr (nint 0) then noAtr
            else
              let long := bool_decide (direction = LONG) in
              let sign := if long then nint 1 else nint (-1) in
              let stop := stopAt entry sign (dg_atrStopMult cfg) atr in
              let tp1 := levelAt entry sign (dg_atrTp1Mult cfg) atr in
              let tp2 := levelAt entry sign (dg_atrTp2Mult cfg) atr in
              let tp3 := levelAt entry sign (dg_atrTp3Mult cfg) atr in
              let risk := nabs (nsub entry stop) in
              let reward1 := nabs (nsub tp1 entry) in
              let rr := if ngt risk (nint 0) then ndiv reward1 risk else nint 0 in
              let stopPct := if ngt entry (nint 0) then nmul (ndiv risk entry) (nint 100) else nint 0 in
              let basis := "entry " +:+ (if long then "−/+" else "+/−") +:+ " ATR(atr_14=" +:+ showRound atr dp
                +:+ ")×{" +:+ numToString (dg_atrStopMult cfg) +:+ "," +:+ numToString (dg_atrTp1Mult cfg) +:+ ","
                +:+ numToString (dg_atrTp2Mult cfg) +:+ "," +:+ numToString (dg_atrTp3Mult cfg) +:+ "}" in
              {|
                lv_entryPrice := entryMeasure;
                lv_stopLoss := measure (round stop dp) Pv_derived basis;
                lv_takeProfit1 := measure (round tp1 dp) Pv_derived basis;
                lv_takeProfit2 := measure (round tp2 dp) Pv_derived basis;
                lv_takeProfit3 := measure (round tp3 dp) Pv_derived basis;
                lv_riskRewardRatio := measure (round rr 2) Pv_derived
                  ("reward1/risk = " +:+ showRound reward1 dp +:+ "/" +:+ showRound risk dp);
                lv_stopDistancePct := measure (round stopPct 2) Pv_derived "|entry−stop|/entry × 100" |}
        end
    end.

(** ** sizing.ts *)

Record Sizing := {
  sz_positionSize : Measure;
  sz_positionNotional : Measure;
  sz_capitalRiskPercent : Measure
}.

Definition noSizing (reason : string) : Sizing := {|
  sz_positionSize := unavailable reason;
  sz_positionNotional := unavailable reason;
  sz_capitalRiskPercent := unavailable reason |}.

Definition computeSizing (direction : SignalDecision) (entry stopLoss : option number) (risk : RiskContext) : Sizing :=
  if bool_decide (direction = FLAT) then noSizing "FLAT signal — no position to size"
  else
    match entry, stopLoss with
    | Some entry, Some stopLoss =>
        let stopDistance := nabs (nsub entry stopLoss) in
        let equity := rk_assumedEquity risk in
        let frac := rk_riskFraction risk in
        if negb (ngt stopDistance (nint 0)) || negb (ngt equity (nint 0)) || negb (ngt frac (nint 0)) then
          noSizing "non-positive stop distance / equity / risk fraction — size not computable"
        else
          let riskAmount := nmul equity frac in
          let qty := ndiv riskAmount stopDistance in
          let notional := nmul qty entry in
          let assumed := "RISK_PER_TRADE @ assumed equity $" +:+ showRound equity 2 +:+ " · risk "
            +:+ showRound (nmul frac (nint 100)) 2 +:+ "%" in
          {|
            sz_positionSize := measure (round qty 8) Pv_derived (assumed +:+ " · qty = equity·risk / stopDistance");
            sz_positionNotional := measure (round notional 2) Pv_derived (assumed +:+ " · notional = qty × entry");
            sz_capitalRiskPercent := measure (round (nmul frac (nint 100)) 2) Pv_derived
              "configured risk fraction (RiskLimit MAX_RISK_PER_TRADE or default)" |}
    | _, _ => noSizing "entry/stop unavailable — size not computable"
    end.

(** ** status.ts *)

Definition deriveControlStatus (control : ControlContext) : ControlStatus :=
  if cx_killEngaged control then CT_BLOCKED
  else match cx_permission control with
       | None => CT_UNKNOWN
       | Some PM_ALLOWED => CT_ALLOWED
       | Some PM_BLOCKED => CT_BLOCKED
       end.

Definition WAITING_STATES : list string := ["BOOTING"; "STARTING"; "RECOVERING"; "DEGRADED"].
Definition BLOCKED_STATES : list string := ["STOPPED"; "FAILED"; "PROTECTED"].

Definition deriveExecutionStatus (control : ControlContext) (controlStatus : ControlStatus) : DecisionReadiness :=
  match controlStatus with
  | CT_UNKNOWN => XS_UNKNOWN
  | CT_BLOCKED => XS_BLOCKED
  | CT_ALLOWED =>
      match cx_runtimeState control with
      | None => XS_WAITING
      | Some state =>
          if bool_decide (state = "HEALTHY") then XS_READY
          else if bool_decide (state ∈ BLOCKED_STATES) then XS_BLOCKED
          else if bool_decide (state ∈ WAITING_STATES) then XS_WAITING
          else XS_WAITING
      end
  end.

Definition evaluateStaticRisk (direction : SignalDecision) (notional : option number) (risk : RiskContext) :
    RiskStatusView :=
  let view status reason := {| rv_status := status; rv_reason := reason; rv_staticOnly := true |} in
  match rk_systemRiskMode risk with
  | Some ((RISK_OFF | FROZEN) as mode) => view RK_BLOCKED ("system risk mode " +:+ showMode mode)
  | _ =>
      if bool_decide (direction = FLAT) then view RK_NOT_APPLICABLE "FLAT signal — no order to risk-check"
      else
        match notional with
        | None => view RK_UNKNOWN "position notional unavailable — cannot evaluate caps"
        | Some notional =>
            if ngt notional (rk_maxNotional risk) then
              view RK_BLOCKED ("notional $" +:+ showRound notional 2 +:+ " exceeds max $" +:+ showRound (rk_maxNotional risk) 2)
            else view RK_APPROVED "static pre-trade checks pass (daily-loss/drawdown require a live account)"
        end
  end.

Definition deriveOverallStatus (direction : SignalDecision) (controlStatus : ControlStatus) (riskStatus : RiskStatus)
    (executionStatus : DecisionReadiness) (entryAvailable : bool) : OverallStatus :=
  if bool_decide (direction = FLAT) then OV_NO_TRADE
  else if bool_decide (controlStatus = CT_BLOCKED) || bool_decide (riskStatus = RK_BLOCKED) then OV_BLOCKED
  else if bool_decide (executionStatus = XS_WAITING) || bool_decide (executionStatus = XS_UNKNOWN) then OV_WAITING
  else if negb entryAvailable then OV_INCOMPLETE
  else OV_ACTIONABLE.

(** ** explainability.ts *)

Inductive FactorKind := FK_bullish | FK_bearish | FK_neutral | FK_risk.

#[export] Instance FactorKind_eq_dec : EqDecision FactorKind.
Proof. solve_decision. Defined.

(** A push of a factor onto one of the four lists. *)
Definition push (kind : FactorKind) (label detail : string) : list (FactorKind * Factor) :=
  [(kind, {| fa_label := label; fa_detail := detail |})].

Definition emaFactor (features : Json) : list (FactorKind * Factor) :=
  match readFeature features "ema_20", readFeature features "ema_50", readFeature features "ema_200" with
  | Some ema20, Some ema50, Some ema200 =>
      if ngt ema20 ema50 && ngt ema50 ema200 then
        push FK_bullish "Uptrend structure" ("EMA20 > EMA50 > EMA200 (" +:+ showRound ema20 2 +:+ " > "
          +:+ showRound ema50 2 +:+ " > " +:+ showRound ema200 2 +:+ ")")
      else if nlt ema20 ema50 && nlt ema50 ema200 then
        push FK_bearish "Downtrend structure" ("EMA20 < EMA50 < EMA200 (" +:+ showRound ema20 2 +:+ " < "
          +:+ showRound ema50 2 +:+ " < " +:+ showRound ema200 2 +:+ ")")
      else
        push FK_neutral "No EMA alignment" ("EMAs not stacked (20=" +:+ showRound ema20 2 +:+ ", 50="
          +:+ showRound ema50 2 +:+ ", 200=" +:+ showRound ema200 2 +:+ ")")
  | _, _, _ => push FK_neutral "Trend structure unavailable" "EMA features missing"
  end.

Definition rsiFactor (features : Json) (params : SignalParams) : list (FactorKind * Factor) :=
  match readFeature features "rsi_14" with
  | None => []
  | Some rsi =>
      if nge rsi (sp_rsiLongMin params) then
        push FK_bullish "Momentum confirms long" ("RSI " +:+ showRound rsi 1 +:+ " ≥ " +:+ numToString (sp_rsiLongMin params))
      else if nle rsi (sp_rsiShortMax params) then
        push FK_bearish "Momentum confirms short" ("RSI " +:+ showRound rsi 1 +:+ " ≤ " +:+ numToString (sp_rsiShortMax params))
      else
        push FK_neutral "Momentum neutral" ("RSI " +:+ showRound rsi 1 +:+ " between " +:+ numToString (sp_rsiShortMax params)
          +:+ "–" +:+ numToString (sp_rsiLongMin params))
  end.

Definition volatilityFactor (features : Json) (params : SignalParams) : list (FactorKind * Factor) :=
  match readFeature features "realized_vol_30" with
  | None => []
  | Some rv =>
      if ngt rv (sp_maxRealizedVol params) then
        push FK_risk "Volatility filter active" ("realized_vol_30 " +:+ showRound rv 6 +:+ " > max "
          +:+ numToString (sp_maxRealizedVol params) +:+ " — rule stands aside (decision FLAT)")
      else
        push FK_neutral "Volatility within bounds" ("realized_vol_30 " +:+ showRound rv 6 +:+ " ≤ max "
          +:+ numToString (sp_maxRealizedVol params))
  end.

Definition donchianFactor (features : Json) (price : option PriceObservation) : list (FactorKind * Factor) :=
  match price, readFeature features "donchian_upper_20", readFeature features "donchian_lower_20" with
  | Some price, Some du, Some dl =>
      if ngt du dl then
        let pos := ndiv (nsub (pc_price price) dl) (nsub du dl) in
        let percent := showRound (nmul pos (nint 100)) 0 in
        if nge pos (ndec 8 1) then
          push FK_bullish "Near range high" ("price at " +:+ percent +:+ "% of the 20-bar Donchian channel (breakout zone)")
        else if nle pos (ndec 2 1) then
          push FK_bearish "Near range low" ("price at " +:+ percent +:+ "% of the 20-bar Donchian channel")
        else push FK_neutral "Mid-range" ("price at " +:+ percent +:+ "% of the 20-bar Donchian channel")
      else []
  | _, _, _ => []
  end.

Definition dqFactor (dqScore : number) : list (FactorKind * Factor) :=
  if nlt dqScore (nint 100) then
    push (if nlt dqScore (nint 95) then FK_risk else FK_neutral) "Data quality"
      ("DQ score " +:+ numToString dqScore +:+ "/100 on the admitting report")
  else [].

Definition confidenceBreakdown (rule : option RuleResult) (signal : SignalProjection) : ConfidenceBreakdown :=
  let total := sj_confidence signal in
  let flat basis := {| cb_trendComponent := None; cb_momentumComponent := None; cb_total := total; cb_basis := basis |} in
  match rule with
  | Some rule =>
      if bool_decide (sj_decision signal <> FLAT) then {|
        cb_trendComponent := Some (round (nmul (ndec 5 1) (ru_trendStrength rule)) 4);
        cb_momentumComponent := Some (round (nmul (ndec 5 1) (ru_rsiConviction rule)) 4);
        cb_total := total;
        cb_basis := "directional confidence = 0.5·trendStrength + 0.5·rsiConviction (sealed rule)" |}
      else if ru_volFiltered rule then flat "FLAT-by-volatility: confidence = excess-vol ratio (sealed rule)"
      else flat "no directional edge — confidence 0 (sealed rule)"
  | None => flat "no directional edge — confidence 0 (sealed rule)"
  end.

Definition buildExplainability (features : Json) (params : SignalParams) (signal : SignalProjection)
    (rule : option RuleResult) (contributions : Contributions) (price : option PriceObservation) (dqScore : number)
    (executionReadiness riskApproval controlApproval : string) : Explainability :=
  let factors := emaFactor features ++ rsiFactor features params ++ volatilityFactor features params
    ++ donchianFactor features price ++ dqFactor dqScore in
  let ofKind kind := List.map snd (List.filter (fun f => bool_decide (fst f = kind)) factors) in
  {|
    xp_bullish := ofKind FK_bullish;
    xp_bearish := ofKind FK_bearish;
    xp_neutral := ofKind FK_neutral;
    xp_risk := ofKind FK_risk;
    xp_contributions := contributions;
    xp_confidenceBreakdown := confidenceBreakdown rule signal;
    xp_executionReadiness := executionReadiness;
    xp_riskApproval := riskApproval;
    xp_controlApproval := controlApproval |}.

(** ** decision.ts *)

Section decision.
(** [new Date(text).getTime()] *)
Context (timeOf : string -> number).

Definition ageSeconds (nowMs : number) (then_ : option string) : option number :=
  match then_ with
  | None => None
  | Some then_ =>
      let t := timeOf then_ in
      if isFinite t then Some (nmax (nint 0) (nround (ndiv (nsub nowMs t) (nint 1000)))) else None
  end.

Definition controlApprovalText (control : ControlContext) (controlStatus : ControlStatus) : string :=
  match controlStatus with
  | CT_ALLOWED => "control ALLOWED"
  | CT_UNKNOWN => "control state unknown (control plane off or no data)"
  | CT_BLOCKED => "control BLOCKED" +:+
      match cx_blockedReasons control with [] => "" | reasons => ": " +:+ join "; " reasons end
  end.

(** The gap notes, in the order they are pushed. *)
Definition provenanceNotesOf (inputs : DecisionInputs) (liquidity : Measure) (regime : RegimeView) (sizing : Sizing)
    (riskStatus : RiskStatusView) : list string :=
  let note (b : bool) (text : string) := if b then [text] else [] in
  note (bool_decide (sj_decision (dn_signal inputs) = FLAT)) "FLAT signal — no directional entry/stop/targets/size"
  ++ match dn_price inputs with None => ["current mark unavailable — price-dependent fields not computed"] | Some _ => [] end
  ++ match me_value liquidity with None => ["liquidity unavailable — no order-book/liquidity snapshot"] | Some _ => [] end
  ++ note (bool_decide (rg_provenance regime = Pv_derived)) "market regime is DERIVED (no M8 classifier)"
  ++ ["momentum is RSI-only (no MACD/ROC feature exists)"]
  ++ match me_value (sz_positionSize sizing) with
     | Some _ => ["position size assumes equity $" +:+ showRound (rk_assumedEquity (dn_risk inputs)) 2 +:+ " (no live account)"]
     | None => []
     end
  ++ ["expected holding time is a timeframe-based estimate"]
  ++ note (rv_staticOnly riskStatus) "risk status is STATIC (daily-loss/drawdown need a live account)"
  ++ ["execution status is the global control verdict (not per-order)"].

Definition buildTradingDecision (inputs : DecisionInputs) : TradingDecision :=
  let cfg := decisionConfig (dn_config inputs) in
  let signal := dn_signal inputs in
  let features := dn_features inputs in
  let params := sj_strategyParams signal in
  let atr := readFeature features "atr_14" in
  let levels := computeLevels (sj_decision signal) (dn_price inputs) atr cfg in
  let currentPrice :=
    match dn_price inputs with
    | None => unavailable "no fresh mark (stale >freshness bound or absent)"
    | Some price => measure (round (pc_price price) (dg_priceDecimals cfg)) Pv_real
                      ("mark " +:+ pc_source price +:+ " @ " +:+ pc_ts price)
    end in
  let trend := trendScore features in
  let momentum := momentumScore features in
  let volatility := volatilityScore features params in
  let liquidity := liquidityScore (dn_liquidity inputs) cfg in
  let contributions := {| cn_trend := trend; cn_momentum := momentum;
                          cn_volatility := volatility; cn_liquidity := liquidity |} in
  let marketRegime := deriveRegime features params in
  let sizing := computeSizing (sj_decision signal) (me_value (lv_entryPrice levels)) (me_value (lv_stopLoss levels))
                  (dn_risk inputs) in
  let controlStatus := deriveControlStatus (dn_control inputs) in
  let executionStatus := deriveExecutionStatus (dn_control inputs) controlStatus in
  let riskStatus := evaluateStaticRisk (sj_decision signal) (me_value (sz_positionNotional sizing)) (dn_risk inputs) in
  let levelsComplete := match me_value (lv_stopLoss levels) with Some _ => true | None => false end in
  let overallStatus := deriveOverallStatus (sj_decision signal) controlStatus (rv_status riskStatus) executionStatus
                         levelsComplete in
  let rule := applyRule features params in
  {|
    td_signalId := sj_id signal;
    td_symbol := sj_symbol signal;
    td_timeframe := dn_timeframe inputs;
    td_direction := sj_decision signal;
    td_bias := sj_side signal;
    td_confidence := sj_confidence signal;
    td_createdAt := sj_createdAt signal;
    td_signalAgeSeconds := default (nint 0) (ageSeconds (dn_now inputs) (Some (sj_createdAt signal)));
    td_featureAgeSeconds := ageSeconds (dn_now inputs) (dn_featureTs inputs);
    td_currentPrice := currentPrice;
    td_entryPrice := lv_entryPrice levels;
    td_stopLoss := lv_stopLoss levels;
    td_takeProfit1 := lv_takeProfit1 levels;
    td_takeProfit2 := lv_takeProfit2 levels;
    td_takeProfit3 := lv_takeProfit3 levels;
    td_riskRewardRatio := lv_riskRewardRatio levels;
    td_stopDistancePct := lv_stopDistancePct levels;
    td_positionSize := sz_positionSize sizing;
    td_positionNotional := sz_positionNotional sizing;
    td_capitalRiskPercent := sz_capitalRiskPercent sizing;
    td_assumedEquity := round (rk_assumedEquity (dn_risk inputs)) 2;
    td_expectedHoldingTime := estimateHoldingTime (dn_timeframe inputs) cfg;
    td_trendStrength := trend;
    td_momentumScore := momentum;
    td_volatilityScore := volatility;
    td_liquidityScore := liquidity;
    td_marketRegime := marketRegime;
    td_executionStatus := executionStatus;
    td_riskStatus := riskStatus;
    td_controlStatus := controlStatus;
    td_overallStatus := overallStatus;
    td_explain := buildExplainability features params signal rule contributions (dn_price inputs) (dn_dqScore inputs)
      (showReadiness executionStatus) (showRiskStatus (rv_status riskStatus) +:+ ": " +:+ rv_reason riskStatus)
      (controlApprovalText (dn_control inputs) controlStatus);
    td_featureHash := sj_featureHash signal;
    td_datasetHash := sj_datasetHash signal;
    td_strategyVersionId := sj_strategyVersionId signal;
    td_provenanceNotes := provenanceNotesOf inputs liquidity marketRegime sizing riskStatus |}.
End decision.
