(* ===== verification/Ranking.v ===== *)
(** * Ranking: opportunity ranking and multi-timeframe consensus

    packages/trading-decision/src: ranking.ts and consensus.ts. *)

From S2P Require Import Prelude JsNumber JsText Json Signals Served Decision.

Local Open Scope string_scope.
Local Open Scope list_scope.

(** ** ranking.ts *)

Record RankComponents := {
  kc_confidence : number;
  kc_riskReward : number;
  kc_liquidity : number;
  kc_featureQuality : number;
  kc_executionReady : number;
  kc_riskApproved : number;
  kc_controlApproved : number
}.

Record RankedDecision := {
  rd_symbol : string;
  rd_timeframe : Timeframe;
  rd_direction : SignalDecision;
  rd_rankScore : number;
  rd_confidence : number;
  rd_riskReward : option number;
  rd_liquidityScore : option number;
  rd_executionStatus : DecisionReadiness;
  rd_riskStatus : RiskStatus;
  rd_controlStatus : ControlStatus;
  rd_overallStatus : OverallStatus;
  rd_components : RankComponents
}.

Record OpportunityBoard := {
  ob_topLong : list RankedDecision;
  ob_topShort : list RankedDecision;
  ob_watchlist : list RankedDecision;
  ob_blocked : list RankedDecision;
  ob_waiting : list RankedDecision;
  ob_total : nat;
  ob_note : string
}.

Definition RANK_WEIGHTS : RankComponents := {|
  kc_confidence := ndec 3 1;
  kc_riskReward := ndec 2 1;
  kc_liquidity := ndec 15 2;
  kc_featureQuality := ndec 1 1;
  kc_executionReady := ndec 1 1;
  kc_riskApproved := ndec 75 3;
  kc_controlApproved := ndec 75 3
|}.

Definition oneIf (b : bool) : number := if b then nint 1 else nint 0.

(** components, with the feature quality toRanked supplies. *)
Definition components (d : TradingDecision) (featureQuality : number) : RankComponents := {|
  kc_confidence := clamp01 (td_confidence d);
  kc_riskReward := match me_value (td_riskRewardRatio d) with
                   | None => nint 0 | Some rr => clamp01 (ndiv rr (nint 3)) end;
  kc_liquidity := match me_value (td_liquidityScore d) with
                  | None => nint 0 | Some l => clamp01 (ndiv l (nint 100)) end;
  kc_featureQuality := clamp01 featureQuality;
  kc_executionReady := oneIf (bool_decide (td_executionStatus d = XS_READY));
  kc_riskApproved := oneIf (bool_decide (rv_status (td_riskStatus d) = RK_APPROVED));
  kc_controlApproved := oneIf (bool_decide (td_controlStatus d = CT_ALLOWED))
|}.

Definition rankScore (c : RankComponents) : number :=
  let term part := nmul (part RANK_WEIGHTS) (part c) in
  round (nadd (nadd (nadd (nadd (nadd (nadd (term kc_confidence) (term kc_riskReward)) (term kc_liquidity))
          (term kc_featureQuality)) (term kc_executionReady)) (term kc_riskApproved)) (term kc_controlApproved)) 4.

Definition toRanked (item : TradingDecision * number) : RankedDecision :=
  let '(d, featureQuality) := item in
  let c := components d featureQuality in {|
  rd_symbol := td_symbol d;
  rd_timeframe := td_timeframe d;
  rd_direction := td_direction d;
  rd_rankScore := rankScore c;
  rd_confidence := td_confidence d;
  rd_riskReward := me_value (td_riskRewardRatio d);
  rd_liquidityScore := me_value (td_liquidityScore d);
  rd_executionStatus := td_executionStatus d;
  rd_riskStatus := rv_status (td_riskStatus d);
  rd_controlStatus := td_controlStatus d;
  rd_overallStatus := td_overallStatus d;
  rd_components := c |}.

Definition byScore (a b : RankedDecision) : comparison :=
  orElse (compareNumbers (rd_rankScore b) (rd_rankScore a))
 (orElse (String.compare (rd_symbol a) (rd_symbol b))
         (String.compare (showTimeframe (rd_timeframe a)) (showTimeframe (rd_timeframe b)))).

Definition isTop (r : RankedDecision) : bool :=
  bool_decide (rd_overallStatus r = OV_ACTIONABLE)
  && (bool_decide (rd_direction r = LONG) || bool_decide (rd_direction r = SHORT)).

Definition isBlocked (r : RankedDecision) : bool := bool_decide (rd_overallStatus r = OV_BLOCKED).
Definition isWaiting (r : RankedDecision) : bool := bool_decide (rd_overallStatus r = OV_WAITING).

(** [ranked.filter(keep).sort(byScore)] *)
Definition bucket (keep : RankedDecision -> bool) (ranked : list RankedDecision) : list RankedDecision :=
  sortBy byScore (List.filter keep ranked).

Definition rankOpportunities (items : list (TradingDecision * number)) : OpportunityBoard :=
  let ranked := List.map toRanked items in
  let blocked := bucket isBlocked ranked in
  let waiting := bucket isWaiting ranked in
  let topLong := bucket (fun r => isTop r && bool_decide (rd_direction r = LONG)) ranked in
  let topShort := bucket (fun r => isTop r && bool_decide (rd_direction r = SHORT)) ranked in
  let watchlist := bucket (fun r => negb (isBlocked r) && negb (isWaiting r) && negb (isTop r)) ranked in
  let count {A} (l : list A) := showZ (Z.of_nat (length l)) in
  {|
    ob_topLong := topLong;
    ob_topShort := topShort;
    ob_watchlist := watchlist;
    ob_blocked := blocked;
    ob_waiting := waiting;
    ob_total := length ranked;
    ob_note := count ranked +:+ " decisions ranked — " +:+ count topLong +:+ " long / " +:+ count topShort
      +:+ " short / " +:+ count watchlist +:+ " watch / " +:+ count blocked +:+ " blocked / " +:+ count waiting +:+ " waiting" |}.

(** ** consensus.ts *)

Record ConsensusTimeframeInput := {
  cf_timeframe : Timeframe;
  cf_features : option Json;
  cf_ts : option string;
  cf_params : SignalParams
}.

Record ConsensusTimeframe := {
  ct_timeframe : Timeframe;
  ct_available : bool;
  ct_direction : option SignalDecision;
  ct_trend : Measure;
  ct_momentum : Measure;
  ct_volatility : Measure;
  ct_strength : Measure;
  ct_ageSeconds : option number;
  ct_note : string
}.

Record Consensus := {
  co_symbol : string;
  co_timeframes : list ConsensusTimeframe;
  co_overall : option SignalDecision;
  co_bias : string;
  co_alignmentScore : Measure;
  co_agreement : list Timeframe;
  co_conflict : list Timeframe;
  co_availableCount : nat;
  co_requestedCount : nat;
  co_note : string
}.

Section consensus.
(** [new Date(text).getTime()] *)
Context (timeOf : string -> number).

(** A timeframe that does not vote. *)
Definition notAvailable (input : ConsensusTimeframeInput) (na : Measure) (age : option number) (note : string) :
    ConsensusTimeframe := {|
  ct_timeframe := cf_timeframe input;
  ct_available := false;
  ct_direction := None;
  ct_trend := na;
  ct_momentum := na;
  ct_volatility := na;
  ct_strength := na;
  ct_ageSeconds := age;
  ct_note := note |}.

Definition tfMetrics (nowMs : number) (input : ConsensusTimeframeInput) : ConsensusTimeframe :=
  match cf_features input with
  | None => notAvailable input (unavailable "no FeatureSnapshot for this timeframe") None "no data"
  | Some features =>
      let age := ageSeconds timeOf nowMs (cf_ts input) in
      match applyRule features (cf_params input) with
      | None => notAvailable input (unavailable "required features missing") age "incomplete features"
      | Some rule =>
          let trend := round (nmul (ru_trendStrength rule) (nint 100)) 1 in
          let momentum := round (nmul (ru_rsiConviction rule) (nint 100)) 1 in
          let strength :=
            match ru_decision rule with
            | FLAT => nint 0
            | _ => round (nmul (clamp01 (nadd (nmul (ndec 5 1) (ru_trendStrength rule))
                                              (nmul (ndec 5 1) (ru_rsiConviction rule)))) (nint 100)) 1
            end in
          {|
            ct_timeframe := cf_timeframe input;
            ct_available := true;
            ct_direction := Some (ru_decision rule);
            ct_trend := measure trend Pv_derived "sealed-rule trendStrength × 100";
            ct_momentum := measure momentum Pv_derived "sealed-rule rsiConviction × 100";
            ct_volatility := measure (round (nmul (oneIf (ru_volFiltered rule)) (nint 100)) 1) Pv_derived
              "vol-filter engaged (100) / clear (0)";
            ct_strength := measure strength Pv_derived "directional 0.5·trend + 0.5·momentum, ×100 (FLAT → 0)";
            ct_ageSeconds := age;
            ct_note := if ru_volFiltered rule then "volatility filter engaged" else "ok" |}
      end
  end.

Definition votes (available : list ConsensusTimeframe) (d : SignalDecision) : list ConsensusTimeframe :=
  List.filter (fun t => bool_decide (ct_direction t = Some d)) available.

Definition countOf (available : list ConsensusTimeframe) (d : SignalDecision) : nat := length (votes available d).

(** The tie-break order LONG > SHORT > FLAT. *)
Definition majority (available : list ConsensusTimeframe) : SignalDecision :=
  foldl (fun best d => if bool_decide (countOf available best < countOf available d) then d else best) LONG
    [LONG; SHORT; FLAT].

Definition computeConsensus (symbol : string) (inputs : list ConsensusTimeframeInput) (nowMs : number) : Consensus :=
  let timeframes := List.map (tfMetrics nowMs) inputs in
  let available := List.filter (fun t => ct_available t && bool_decide (ct_direction t <> None)) timeframes in
  let overall := match available with [] => None | _ => Some (majority available) end in
  let agreeing := match overall with
                  | Some d => List.filter (fun t => bool_decide (ct_direction t = Some d)) available | None => [] end in
  let conflicting := match overall with
                     | Some d => List.filter (fun t => bool_decide (ct_direction t <> Some d)) available | None => [] end in
  let number_of n := nint (Z.of_nat n) in
  let text n := showZ (Z.of_nat n) in
  let ofAvailable d := text (countOf available d) +:+ "/" +:+ text (length available) in
  let missing := List.map ct_timeframe (List.filter (fun t => negb (ct_available t)) timeframes) in
  {|
    co_symbol := symbol;
    co_timeframes := timeframes;
    co_overall := overall;
    co_bias :=
      match overall with
      | None => "no data"
      | Some FLAT => "neutral " +:+ ofAvailable FLAT
      | Some LONG => "bullish " +:+ ofAvailable LONG
      | Some SHORT => "bearish " +:+ ofAvailable SHORT
      end;
    co_alignmentScore :=
      match available with
      | [] => unavailable "no timeframe has data — alignment not computable"
      | _ => measure (round (nmul (ndiv (number_of (length agreeing)) (number_of (length available))) (nint 100)) 1)
               Pv_derived (text (length agreeing) +:+ "/" +:+ text (length available) +:+ " available timeframes agree")
      end;
    co_agreement := List.map ct_timeframe agreeing;
    co_conflict := List.map ct_timeframe conflicting;
    co_availableCount := length available;
    co_requestedCount := length inputs;
    co_note :=
      match available, missing with
      | [], _ => "no persisted FeatureSnapshot for any requested timeframe"
      | _, [] => "consensus over all " +:+ text (length available) +:+ " timeframes"
      | _, _ => "consensus over " +:+ text (length available) +:+ "/" +:+ text (length inputs)
          +:+ " timeframes — no data for: " +:+ join ", " (List.map showTimeframe missing)
      end |}.
End consensus.
