(* ===== verification/Planner.v ===== *)
(** * Planner: the trade plan engine

    packages/trading-plan/src: util.ts, facts.ts (the atomic facts every section reads),
    summary.ts, execution-checklist.ts, risk-checklist.ts, invalidation.ts, readiness.ts
    and plan.ts.  [round] is the one of the decision engine: both packages have the same
    text.  [Partial<TradePlanConfig>] is a record of optional fields. *)

From S2P Require Import Prelude JsNumber JsText JsDecimal Json Signals Served Decision.

Local Open Scope string_scope.
Local Open Scope list_scope.

(** ** util.ts *)

(** [Tri]: [None] is UNKNOWN. *)
Definition Tri : Type := option bool.

Definition clamp (x lo hi : number) : number :=
  if negb (isFinite x) then lo else if nlt x lo then lo else if ngt x hi then hi else x.

Definition unitClamp (x : number) : number := clamp x (nint 0) (nint 1).

Definition mv (m : Measure) : option number :=
  match me_value m with Some v => if isFinite v then Some v else None | None => None end.

Definition triStatus (t : Tri) : CheckStatus :=
  match t with None => CK_UNKNOWN | Some true => CK_PASS | Some false => CK_FAIL end.

Definition toRiskTag (p : Provenance) : RiskTag :=
  match p with
  | Pv_verbatim | Pv_real => TAG_REAL
  | Pv_derived => TAG_DERIVED
  | Pv_estimated => TAG_ESTIMATED
  | Pv_unavailable => TAG_UNAVAILABLE
  end.

(** ** types.ts *)

Record ReadinessWeights := {
  rw_directional : number;
  rw_confidence : number;
  rw_riskReward : number;
  rw_control : number;
  rw_runtime : number;
  rw_risk : number;
  rw_dataQuality : number;
  rw_freshness : number
}.

Definition DEFAULT_READINESS_WEIGHTS : ReadinessWeights := {|
  rw_directional := nint 10;
  rw_confidence := nint 20;
  rw_riskReward := nint 15;
  rw_control := nint 10;
  rw_runtime := nint 10;
  rw_risk := nint 10;
  rw_dataQuality := nint 10;
  rw_freshness := nint 15
|}.

Record TradePlanConfig := {
  pf_signalStaleSeconds : number;
  pf_featureStaleSeconds : number;
  pf_minDqScore : number;
  pf_strongConfidence : number;
  pf_readyRR : number;
  pf_goodTrend : number;
  pf_goodMomentum : number;
  pf_maxVolScore : number;
  pf_goodLiquidity : number;
  pf_trendLostBelow : number;
  pf_momentumReversalBelow : number;
  pf_readinessWeights : ReadinessWeights;
  pf_readyBand : number;
  pf_nearBand : number;
  pf_formingBand : number;
  pf_riskTightBelowPct : number;
  pf_riskNormalBelowPct : number;
  pf_riskWideBelowPct : number
}.

Definition DEFAULT_TRADE_PLAN_CONFIG : TradePlanConfig := {|
  pf_signalStaleSeconds := nint 180;
  pf_featureStaleSeconds := nint 180;
  pf_minDqScore := MIN_DATA_QUALITY_SCORE;
  pf_strongConfidence := ndec 75 2;
  pf_readyRR := nint 2;
  pf_goodTrend := nint 60;
  pf_goodMomentum := nint 55;
  pf_maxVolScore := nint 50;
  pf_goodLiquidity := nint 50;
  pf_trendLostBelow := nint 30;
  pf_momentumReversalBelow := nint 15;
  pf_readinessWeights := DEFAULT_READINESS_WEIGHTS;
  pf_readyBand := nint 75;
  pf_nearBand := nint 55;
  pf_formingBand := nint 35;
  pf_riskTightBelowPct := ndec 15 1;
  pf_riskNormalBelowPct := nint 4;
  pf_riskWideBelowPct := nint 8
|}.

(** [Partial<TradePlanConfig>] *)
Record TradePlanOverrides := {
  pv_signalStaleSeconds : option number;
  pv_featureStaleSeconds : option number;
  pv_minDqScore : option number;
  pv_strongConfidence : option number;
  pv_readyRR : option number;
  pv_goodTrend : option number;
  pv_goodMomentum : option number;
  pv_maxVolScore : option number;
  pv_goodLiquidity : option number;
  pv_trendLostBelow : option number;
  pv_momentumReversalBelow : option number;
  pv_readinessWeights : option ReadinessWeights;
  pv_readyBand : option number;
  pv_nearBand : option number;
  pv_formingBand : option number;
  pv_riskTightBelowPct : option number;
  pv_riskNormalBelowPct : option number;
  pv_riskWideBelowPct : option number
}.

Record TradePlanInputs := {
  ti_now : number;
  ti_decision : TradingDecision;
  ti_dqScore : option number;
  ti_runtimeState : option string;
  ti_killEngaged : bool;
  ti_config : option TradePlanOverrides
}.

(** ** facts.ts *)

Definition resolveConfig (partial : option TradePlanOverrides) : TradePlanConfig :=
  let d := DEFAULT_TRADE_PLAN_CONFIG in
  match partial with
  | None => d
  | Some c => {|
      pf_signalStaleSeconds := default (pf_signalStaleSeconds d) (pv_signalStaleSeconds c);
      pf_featureStaleSeconds := default (pf_featureStaleSeconds d) (pv_featureStaleSeconds c);
      pf_minDqScore := default (pf_minDqScore d) (pv_minDqScore c);
      pf_strongConfidence := default (pf_strongConfidence d) (pv_strongConfidence c);
      pf_readyRR := default (pf_readyRR d) (pv_readyRR c);
      pf_goodTrend := default (pf_goodTrend d) (pv_goodTrend c);
      pf_goodMomentum := default (pf_goodMomentum d) (pv_goodMomentum c);
      pf_maxVolScore := default (pf_maxVolScore d) (pv_maxVolScore c);
      pf_goodLiquidity := default (pf_goodLiquidity d) (pv_goodLiquidity c);
      pf_trendLostBelow := default (pf_trendLostBelow d) (pv_trendLostBelow c);
      pf_momentumReversalBelow := default (pf_momentumReversalBelow d) (pv_momentumReversalBelow c);
      pf_readinessWeights := default (pf_readinessWeights d) (pv_readinessWeights c);
      pf_readyBand := default (pf_readyBand d) (pv_readyBand c);
      pf_nearBand := default (pf_nearBand d) (pv_nearBand c);
      pf_formingBand := default (pf_formingBand d) (pv_formingBand c);
      pf_riskTightBelowPct := default (pf_riskTightBelowPct d) (pv_riskTightBelowPct c);
      pf_riskNormalBelowPct := default (pf_riskNormalBelowPct d) (pv_riskNormalBelowPct c);
      pf_riskWideBelowPct := default (pf_riskWideBelowPct d) (pv_riskWideBelowPct c) |}
  end.

Record PlanFacts := {
  f_cfg : TradePlanConfig;
  f_direction : SignalDecision;
  f_directional : bool;
  f_isLong : bool;
  f_isShort : bool;
  f_confidence : number;
  f_controlAllowed : Tri;
  f_runtimeHealthy : Tri;
  f_riskApproved : Tri;
  f_dqOk : Tri;
  f_signalFresh : Tri;
  f_featureFresh : Tri;
  f_trendAligned : Tri;
  f_momentumAligned : Tri;
  f_volOk : Tri;
  f_liqOk : Tri;
  f_killEngaged : bool;
  f_overallStatus : OverallStatus;
  f_controlStatus : ControlStatus;
  f_executionStatus : DecisionReadiness;
  f_riskStatusLabel : RiskStatus;
  f_hardBlocked : bool;
  f_stale : bool;
  f_noTrade : bool;
  f_actionable : bool;
  f_canTrade : bool;
  f_strong : bool;
  f_good : bool;
  f_entry : option number;
  f_stop : option number;
  f_tp1 : option number;
  f_size : option number;
  f_rr : option number;
  f_stopDistancePct : option number;
  f_capitalRiskPercent : option number;
  f_trendScore : option number;
  f_momentumScoreVal : option number;
  f_volScore : option number;
  f_liqScore : option number;
  f_holdSeconds : option number;
  f_signalAgeSeconds : option number;
  f_featureAgeSeconds : option number;
  f_atr : option number;
  f_atrPct : option number;
  f_maxLoss : option number;
  f_rewardPct : option number
}.

(** A finite Number, or [null]. *)
Definition finite (x : number) : option number := if isFinite x then Some x else None.

(** [x === null ? null : test(x)] *)
Definition triOf (test : number -> bool) (x : option number) : Tri := test <$> x.

Definition isTrue (t : Tri) : bool := match t with Some true => true | _ => false end.
Definition isFalse (t : Tri) : bool := match t with Some false => true | _ => false end.

Definition atLeast (x : option number) (bound : number) : bool :=
  match x with Some v => nge v bound | None => false end.

(** |a - b| as a percentage of the base, when both are known and the base is positive. *)
Definition percentOf (part : number) (base : number) : option number :=
  if ngt base (nint 0) then Some (round (nmul (ndiv part base) (nint 100)) 4) else None.

Definition deriveFacts (inputs : TradePlanInputs) : PlanFacts :=
  let cfg := resolveConfig (ti_config inputs) in
  let d := ti_decision inputs in
  let direction := td_direction d in
  let directional := bool_decide (direction <> FLAT) in
  let confidence := default (nint 0) (finite (td_confidence d)) in
  let entry := mv (td_entryPrice d) in
  let stop := mv (td_stopLoss d) in
  let tp1 := mv (td_takeProfit1 d) in
  let size := mv (td_positionSize d) in
  let rr := mv (td_riskRewardRatio d) in
  let trendScore := mv (td_trendStrength d) in
  let momentumScoreVal := mv (td_momentumScore d) in
  let volScore := mv (td_volatilityScore d) in
  let liqScore := mv (td_liquidityScore d) in
  let signalAgeSeconds := finite (td_signalAgeSeconds d) in
  let featureAgeSeconds := td_featureAgeSeconds d ≫= finite in
  let controlAllowed :=
    match td_controlStatus d with CT_ALLOWED => Some true | CT_BLOCKED => Some false | CT_UNKNOWN => None end in
  let riskApproved :=
    match rv_status (td_riskStatus d) with RK_APPROVED => Some true | RK_BLOCKED => Some false | _ => None end in
  let dqOk := triOf (fun s => nge s (pf_minDqScore cfg)) (ti_dqScore inputs ≫= finite) in
  let signalFresh := triOf (fun a => nle a (pf_signalStaleSeconds cfg)) signalAgeSeconds in
  let featureFresh := triOf (fun a => nle a (pf_featureStaleSeconds cfg)) featureAgeSeconds in
  let distance :=
    match entry, stop with Some entry, Some stop => Some (nabs (nsub entry stop)) | _, _ => None end in
  let atr := (fun x => round (ndiv x (dg_atrStopMult DEFAULT_DECISION_CONFIG)) 6) <$> distance in
  let killEngaged := ti_killEngaged inputs in
  let hardBlocked :=
    killEngaged || bool_decide (td_controlStatus d = CT_BLOCKED)
    || bool_decide (rv_status (td_riskStatus d) = RK_BLOCKED) || bool_decide (td_overallStatus d = OV_BLOCKED) in
  let actionable := bool_decide (td_overallStatus d = OV_ACTIONABLE) && negb killEngaged in
  let convinced := nge confidence (pf_strongConfidence cfg) in
  let rewarding := atLeast rr (pf_readyRR cfg) in
  {|
    f_cfg := cfg;
    f_direction := direction;
    f_directional := directional;
    f_isLong := bool_decide (direction = LONG);
    f_isShort := bool_decide (direction = SHORT);
    f_confidence := confidence;
    f_controlAllowed := controlAllowed;
    f_runtimeHealthy := (fun s => bool_decide (s = "HEALTHY")) <$> ti_runtimeState inputs;
    f_riskApproved := riskApproved;
    f_dqOk := dqOk;
    f_signalFresh := signalFresh;
    f_featureFresh := featureFresh;
    f_trendAligned := triOf (fun s => nge s (pf_goodTrend cfg)) trendScore;
    f_momentumAligned := triOf (fun s => nge s (pf_goodMomentum cfg)) momentumScoreVal;
    f_volOk := triOf (fun s => nle s (pf_maxVolScore cfg)) volScore;
    f_liqOk := triOf (fun s => nge s (pf_goodLiquidity cfg)) liqScore;
    f_killEngaged := killEngaged;
    f_overallStatus := td_overallStatus d;
    f_controlStatus := td_controlStatus d;
    f_executionStatus := td_executionStatus d;
    f_riskStatusLabel := rv_status (td_riskStatus d);
    f_hardBlocked := hardBlocked;
    f_stale := isFalse signalFresh || isFalse featureFresh;
    f_noTrade := negb directional || bool_decide (td_overallStatus d = OV_NO_TRADE);
    f_actionable := actionable;
    f_canTrade := actionable && negb hardBlocked;
    f_strong := convinced && rewarding;
    f_good := negb (convinced && rewarding) && (convinced || rewarding);
    f_entry := entry;
    f_stop := stop;
    f_tp1 := tp1;
    f_size := size;
    f_rr := rr;
    f_stopDistancePct := mv (td_stopDistancePct d);
    f_capitalRiskPercent := mv (td_capitalRiskPercent d);
    f_trendScore := trendScore;
    f_momentumScoreVal := momentumScoreVal;
    f_volScore := volScore;
    f_liqScore := liqScore;
    f_holdSeconds := ht_seconds (td_expectedHoldingTime d) ≫= finite;
    f_signalAgeSeconds := signalAgeSeconds;
    f_featureAgeSeconds := featureAgeSeconds;
    f_atr := atr;
    f_atrPct := match atr, entry with Some atr, Some entry => percentOf atr entry | _, _ => None end;
    f_maxLoss := match size, distance with Some size, Some x => Some (round (nmul size x) 2) | _, _ => None end;
    f_rewardPct := match tp1, entry with
                   | Some tp1, Some entry => percentOf (nabs (nsub tp1 entry)) entry | _, _ => None end
  |}.

(** ** summary.ts *)

Definition actionFor (f : PlanFacts) : Action :=
  if f_noTrade f then NO_TRADE
  else if f_hardBlocked f then NO_TRADE
  else if negb (f_actionable f) || f_stale f then WAIT
  else if f_isLong f then if f_strong f then STRONG_BUY else if f_good f then BUY_ACTION else WATCH
  else if f_isShort f then if f_strong f then STRONG_SELL else if f_good f then SELL_ACTION else WATCH
  else WAIT.

(** [f.direction.toLowerCase()] *)
Definition lowerDirection (d : SignalDecision) : string :=
  match d with LONG => "long" | SHORT => "short" | FLAT => "flat" end.

Definition headlineFor (action : Action) (f : PlanFacts) : string :=
  match action with
  | STRONG_BUY => "Strong long setup on " +:+ toFixed (f_confidence f) 2 +:+ " conviction — execute the plan"
  | BUY_ACTION => "Valid long setup — execute with standard sizing"
  | STRONG_SELL => "Strong short setup on " +:+ toFixed (f_confidence f) 2 +:+ " conviction — execute the plan"
  | SELL_ACTION => "Valid short setup — execute with standard sizing"
  | WATCH => "Directional " +:+ lowerDirection (f_direction f)
      +:+ " setup forming — conviction below threshold, monitor"
  | WAIT =>
      if f_stale f then "Signal/feature data is stale — wait for a fresh tick"
      else "Setup not yet actionable — wait for gates to clear"
  | NO_TRADE =>
      if f_noTrade f && negb (f_hardBlocked f) then "No directional edge this bar — stand aside"
      else "Trading is blocked — do not trade"
  end.

Definition alsoIf (b : bool) (text : string) : list string := if b then [text] else [].

Definition reasons (f : PlanFacts) : list string :=
  (if negb (f_directional f) then ["Signal is FLAT — the rule found no directional edge this bar"]
   else ["Signal direction " +:+ showDirection (f_direction f) +:+ " carried verbatim (confidence "
         +:+ toFixed (f_confidence f) 4 +:+ ")"]
     ++ match f_rr f with
        | Some rr => ["Reward:risk " +:+ toFixed rr 2 +:+ " vs ready threshold " +:+ numToString (pf_readyRR (f_cfg f))]
        | None => []
        end)
  ++ alsoIf (f_killEngaged f) "Kill switch ENGAGED — trading globally stopped"
  ++ (if bool_decide (f_controlStatus f = CT_BLOCKED) then ["Control plane BLOCKED trading"]
      else match f_controlAllowed f with
           | None => ["Control permission unknown (control plane off / no data) — fail-closed"] | Some _ => [] end)
  ++ alsoIf (bool_decide (f_riskStatusLabel f = RK_BLOCKED)) "Risk engine BLOCKED the order"
  ++ alsoIf (bool_decide (f_overallStatus f = OV_WAITING) || bool_decide (f_overallStatus f = OV_INCOMPLETE))
       ("Overall status " +:+ showOverallStatus (f_overallStatus f) +:+ " — not yet actionable")
  ++ alsoIf (f_stale f) "Signal or feature data is stale (past freshness bound)"
  ++ (if f_directional f then
        match f_trendAligned f with
        | Some true => ["Trend aligned with the direction"]
        | Some false => ["Trend NOT aligned (weak EMA separation)"]
        | None => []
        end
        ++ match f_momentumAligned f with
           | Some true => ["Momentum supports the direction"]
           | Some false => ["Momentum weak / not supportive"]
           | None => []
           end
        ++ alsoIf (isFalse (f_volOk f)) "Volatility elevated (near the filter ceiling)"
      else []).

Definition showBool (b : bool) : string := if b then "true" else "false".

Definition isTradeAction (a : Action) : bool :=
  match a with STRONG_BUY | BUY_ACTION | STRONG_SELL | SELL_ACTION => true | _ => false end.

Definition buildDecisionSummary (inputs : TradePlanInputs) : DecisionSummary :=
  let f := deriveFacts inputs in
  let action := actionFor f in {|
  ds_action := action;
  ds_headline := headlineFor action f;
  ds_canTrade := f_canTrade f;
  ds_shouldTrade := isTradeAction action;
  ds_why := reasons f;
  ds_direction := f_direction f;
  ds_confidence := f_confidence f;
  ds_basis := "action from overallStatus=" +:+ showOverallStatus (f_overallStatus f) +:+ ", control="
    +:+ showControlStatus (f_controlStatus f) +:+ ", risk=" +:+ showRiskStatus (f_riskStatusLabel f) +:+ ", kill="
    +:+ showBool (f_killEngaged f) +:+ ", stale=" +:+ showBool (f_stale f) +:+ ", strong=" +:+ showBool (f_strong f)
    +:+ ", good=" +:+ showBool (f_good f) +:+ " (no strategy recomputed)" |}.

(** ** execution-checklist.ts *)

Definition showFixed (x : option number) (dp : nat) : string :=
  match x with None => "n/a" | Some v => toFixed v dp end.

Definition item (id label : string) (t : Tri) (provenance : Provenance) (detail : string) : ChecklistItem := {|
  ci_id := id; ci_label := label; ci_status := triStatus t; ci_provenance := provenance; ci_detail := detail |}.

(** FAIL when either age is stale, PASS when both are fresh. *)
Definition freshness (f : PlanFacts) : Tri :=
  if isFalse (f_signalFresh f) || isFalse (f_featureFresh f) then Some false
  else if isTrue (f_signalFresh f) && isTrue (f_featureFresh f) then Some true else None.

Definition realIfSome {A} (x : option A) : Provenance := match x with Some _ => Pv_real | None => Pv_unavailable end.

Definition checklistItems (f : PlanFacts) (inputs : TradePlanInputs) : list ChecklistItem :=
  let d := ti_decision inputs in
  let cfg := f_cfg f in [
  item "directional" "Directional signal" (Some (f_directional f)) Pv_verbatim
    (if f_directional f then "decision is " +:+ showDirection (f_direction f)
     else "decision is FLAT (no directional edge)");
  item "trend" "Trend aligned" (f_trendAligned f) (me_provenance (td_trendStrength d))
    ("trend strength " +:+ showFixed (f_trendScore f) 1 +:+ " vs ≥ " +:+ numToString (pf_goodTrend cfg));
  item "momentum" "Momentum aligned" (f_momentumAligned f) (me_provenance (td_momentumScore d))
    ("momentum " +:+ showFixed (f_momentumScoreVal f) 1 +:+ " vs ≥ " +:+ numToString (pf_goodMomentum cfg) +:+ " (RSI-only)");
  item "volatility" "Volatility acceptable" (f_volOk f) (me_provenance (td_volatilityScore d))
    ("volatility score " +:+ showFixed (f_volScore f) 1 +:+ " vs ≤ " +:+ numToString (pf_maxVolScore cfg)
     +:+ " (lower is better — vs 2× maxRealizedVol)");
  item "liquidity" "Liquidity acceptable" (f_liqOk f) (me_provenance (td_liquidityScore d))
    (match f_liqScore f with
     | None => "no order-book/liquidity snapshot (demo / no live ingestion)"
     | Some _ => "liquidity score " +:+ showFixed (f_liqScore f) 1 +:+ " vs ≥ " +:+ numToString (pf_goodLiquidity cfg)
     end);
  item "risk" "Risk approved" (f_riskApproved f) Pv_verbatim
    ("risk status " +:+ showRiskStatus (f_riskStatusLabel f)
     +:+ if rv_staticOnly (td_riskStatus d) then " (static — no live account)" else "");
  item "control" "Control approved" (f_controlAllowed f) Pv_verbatim
    ("control status " +:+ showControlStatus (f_controlStatus f));
  item "runtime" "Runtime healthy" (f_runtimeHealthy f) (realIfSome (ti_runtimeState inputs))
    ("runtime state " +:+ default "unknown" (ti_runtimeState inputs) +:+ " vs HEALTHY");
  item "dataQuality" "Data quality acceptable" (f_dqOk f) (realIfSome (ti_dqScore inputs))
    (match ti_dqScore inputs with
     | None => "no admitting DQ score"
     | Some s => "DQ score " +:+ numToString s +:+ " vs ≥ " +:+ numToString (pf_minDqScore cfg)
     end);
  item "freshness" "Fresh data" (freshness f)
    (match f_signalAgeSeconds f, f_featureAgeSeconds f with Some _, Some _ => Pv_real | _, _ => Pv_unavailable end)
    ("signal age " +:+ showFixed (f_signalAgeSeconds f) 0 +:+ "s (≤ " +:+ numToString (pf_signalStaleSeconds cfg)
     +:+ "), feature age " +:+ showFixed (f_featureAgeSeconds f) 0 +:+ "s (≤ "
     +:+ numToString (pf_featureStaleSeconds cfg) +:+ ")")
].

Definition countStatus (s : CheckStatus) (items : list ChecklistItem) : nat :=
  length (List.filter (fun i => bool_decide (ci_status i = s)) items).

Definition buildExecutionChecklist (inputs : TradePlanInputs) : ExecutionChecklist :=
  let f := deriveFacts inputs in
  let items := checklistItems f inputs in
  let passed := countStatus CK_PASS items in
  let failed := countStatus CK_FAIL items in
  let unknown := countStatus CK_UNKNOWN items in
  let text n := showZ (Z.of_nat n) in {|
  ec_items := items;
  ec_passed := passed;
  ec_failed := failed;
  ec_unknown := unknown;
  ec_allPass := bool_decide (failed = 0) && bool_decide (unknown = 0);
  ec_note := text passed +:+ "/" +:+ text (length items) +:+ " checks passed"
    +:+ (if bool_decide (failed = 0) then "" else ", " +:+ text failed +:+ " failed")
    +:+ (if bool_decide (unknown = 0) then "" else ", " +:+ text unknown +:+ " unknown (fail-closed)") |}.

(** ** risk-checklist.ts *)

Definition riskField (key label : string) (value : option number) (unit : string) (tag : RiskTag) (basis : string) :
    RiskField := {|
  rf_key := key; rf_label := label; rf_value := value; rf_unit := unit;
  rf_tag := match value with None => TAG_UNAVAILABLE | Some _ => tag end; rf_basis := basis |}.

Definition categorize (stopDistancePct rr : option number) (cfg : TradePlanConfig) : RiskCategory :=
  match stopDistancePct with
  | None => {| rc_label := "UNKNOWN"; rc_tag := TAG_UNAVAILABLE; rc_basis := "no stop distance — category not computable" |}
  | Some d =>
      let band :=
        if nlt d (pf_riskTightBelowPct cfg) then "TIGHT"
        else if nlt d (pf_riskNormalBelowPct cfg) then "NORMAL"
        else if nlt d (pf_riskWideBelowPct cfg) then "WIDE" else "VERY_WIDE" in
      {| rc_label := band; rc_tag := TAG_DERIVED;
         rc_basis := "stop distance " +:+ toFixed d 2 +:+ "% → " +:+ band +:+ " (TIGHT<"
           +:+ numToString (pf_riskTightBelowPct cfg) +:+ " · NORMAL<" +:+ numToString (pf_riskNormalBelowPct cfg)
           +:+ " · WIDE<" +:+ numToString (pf_riskWideBelowPct cfg) +:+ " · VERY_WIDE≥"
           +:+ numToString (pf_riskWideBelowPct cfg) +:+ ")"
           +:+ match rr with None => "" | Some rr => ", R:R " +:+ toFixed rr 2 end |}
  end.

Definition showNullable (x : option number) : string := match x with Some v => numToString v | None => "null" end.

(** A served measure under its own provenance. *)
Definition servedField (key label : string) (value : option number) (unit : string) (m : Measure) : RiskField :=
  riskField key label value unit (toRiskTag (me_provenance m)) (me_basis m).

Definition buildRiskChecklist (inputs : TradePlanInputs) : RiskChecklist :=
  let f := deriveFacts inputs in
  let d := ti_decision inputs in {|
  rl_maximumLoss := riskField "maximumLoss" "Maximum loss" (f_maxLoss f) "$" TAG_DERIVED
    (match f_maxLoss f with
     | None => "needs position size + entry + stop (unavailable)"
     | Some _ => "position size " +:+ showNullable (f_size f) +:+ " × |entry − stop| "
         +:+ match f_entry f, f_stop f with Some e, Some s => toFixed (nabs (nsub e s)) 2 | _, _ => "?" end
         +:+ " (assumes equity $" +:+ numToString (td_assumedEquity d) +:+ ")"
     end);
  rl_capitalAtRisk := servedField "capitalAtRisk" "Capital at risk" (f_capitalRiskPercent f) "%" (td_capitalRiskPercent d);
  rl_rMultiple := servedField "rMultiple" "R multiple" (f_rr f) "x" (td_riskRewardRatio d);
  rl_distancePct := servedField "distancePct" "Stop distance" (f_stopDistancePct f) "%" (td_stopDistancePct d);
  rl_atrPct := riskField "atrPct" "ATR" (f_atrPct f) "%" TAG_DERIVED
    (match f_atrPct f with
     | None => "needs entry + stop (unavailable)"
     | Some _ => "ATR " +:+ showNullable (f_atr f) +:+ " recovered from |entry − stop| ÷ atrStopMult, as % of entry"
     end);
  rl_rewardPct := riskField "rewardPct" "Reward to TP1" (f_rewardPct f) "%" TAG_DERIVED
    (match f_rewardPct f with
     | None => "needs entry + TP1 (unavailable)" | Some _ => "|TP1 − entry| ÷ entry × 100" end);
  rl_expectedHoldSeconds := riskField "expectedHoldSeconds" "Expected hold" (f_holdSeconds f) "s"
    (toRiskTag (ht_provenance (td_expectedHoldingTime d))) (ht_basis (td_expectedHoldingTime d));
  rl_category := categorize (f_stopDistancePct f) (f_rr f) (f_cfg f);
  rl_assumedEquity := default (nint 0) (finite (td_assumedEquity d));
  rl_note := if f_directional f then "risk figures assume the display equity (no live account at the web tier)"
             else "FLAT — no directional trade; risk figures unavailable" |}.

(** ** invalidation.ts *)

Definition firedIf (b : bool) : TriggerState := if b then TRIGGERED else ARMED.

Definition stopState (f : PlanFacts) (current : option number) : TriggerState :=
  match f_stop f with
  | None => NOT_APPLICABLE
  | Some stop =>
      match current with
      | None => ARMED
      | Some current => firedIf (f_isLong f && nle current stop || f_isShort f && nge current stop)
      end
  end.

Definition showUnknown (x : option number) : string := match x with Some v => numToString v | None => "?" end.

Definition buildInvalidation (inputs : TradePlanInputs) : Invalidation :=
  let f := deriveFacts inputs in
  let d := ti_decision inputs in
  let cfg := f_cfg f in
  let na := negb (f_directional f) in
  let t id label description state provenance basis := {|
    it_id := id; it_label := label; it_description := description;
    it_state := if na then NOT_APPLICABLE else state; it_provenance := provenance; it_basis := basis |} in
  let current := mv (td_currentPrice d) in
  let triggers := [
    t "stop_hit" "Stop loss hit" "Price closes through the protective stop" (stopState f current)
      (match f_stop f with None => Pv_unavailable | Some _ => Pv_derived end)
      (match f_stop f with
       | None => "no stop level (no fresh mark / FLAT)"
       | Some stop => "stop " +:+ numToString stop
           +:+ match current with None => "" | Some c => ", mark " +:+ numToString c end
           +:+ " (" +:+ showDirection (f_direction f) +:+ ")"
       end);
    t "signal_expired" "Signal expired" "The EngineSignal ages past its freshness bound"
      (firedIf (isFalse (f_signalFresh f))) (realIfSome (f_signalAgeSeconds f))
      ("signal age " +:+ showUnknown (f_signalAgeSeconds f) +:+ "s vs ≤ " +:+ numToString (pf_signalStaleSeconds cfg) +:+ "s");
    t "feature_stale" "Feature stale" "The FeatureSnapshot ages past its freshness bound"
      (firedIf (isFalse (f_featureFresh f))) (realIfSome (f_featureAgeSeconds f))
      ("feature age " +:+ showUnknown (f_featureAgeSeconds f) +:+ "s vs ≤ " +:+ numToString (pf_featureStaleSeconds cfg) +:+ "s");
    t "control_blocked" "Control blocked" "The control plane blocks trading"
      (firedIf (bool_decide (f_controlStatus f = CT_BLOCKED))) Pv_verbatim
      ("control status " +:+ showControlStatus (f_controlStatus f));
    t "risk_disabled" "Risk disabled" "The risk engine blocks or disables the order"
      (firedIf (bool_decide (f_riskStatusLabel f = RK_BLOCKED))) Pv_verbatim
      ("risk status " +:+ showRiskStatus (f_riskStatusLabel f));
    t "dq_degraded" "Data quality degraded" "The admitting data-quality score drops below the floor"
      (firedIf (isFalse (f_dqOk f))) (realIfSome (ti_dqScore inputs))
      ("DQ " +:+ showUnknown (ti_dqScore inputs) +:+ " vs ≥ " +:+ numToString (pf_minDqScore cfg));
    t "momentum_reversal" "RSI reversal" "Momentum collapses back toward neutral (RSI reversal)"
      (firedIf (match f_momentumScoreVal f with Some m => nlt m (pf_momentumReversalBelow cfg) | None => false end))
      (me_provenance (td_momentumScore d))
      ("momentum " +:+ showUnknown (f_momentumScoreVal f) +:+ " vs < " +:+ numToString (pf_momentumReversalBelow cfg)
       +:+ " (RSI-only)");
    t "trend_lost" "Trend lost" "Trend strength fades / EMA stack flattens (crossover lost)"
      (firedIf (match f_trendScore f with Some m => nlt m (pf_trendLostBelow cfg) | None => false end))
      (me_provenance (td_trendStrength d))
      ("trend strength " +:+ showUnknown (f_trendScore f) +:+ " vs < " +:+ numToString (pf_trendLostBelow cfg));
    t "vol_expansion" "Volatility expansion" "Realized volatility expands beyond the acceptable band (ATR expansion)"
      (firedIf (match f_volScore f with Some m => ngt m (pf_maxVolScore cfg) | None => false end))
      (me_provenance (td_volatilityScore d))
      ("volatility score " +:+ showUnknown (f_volScore f) +:+ " vs > " +:+ numToString (pf_maxVolScore cfg))
  ] in
  let countState s := length (List.filter (fun t => bool_decide (it_state t = s)) triggers) in
  let armed := countState ARMED in
  let triggered := countState TRIGGERED in
  let text n := showZ (Z.of_nat n) in {|
  iv_triggers := triggers;
  iv_armed := armed;
  iv_triggered := triggered;
  iv_summary :=
    if na then "FLAT — no active directional trade to invalidate"
    else if bool_decide (0 < triggered) then
      text triggered +:+ " invalidation condition" +:+ (if bool_decide (1 < triggered) then "s" else "") +:+ " already breached"
    else text armed +:+ " invalidation conditions armed — none breached yet" |}.

(** ** readiness.ts *)

Definition gate (t : Tri) (weight : number) : number := if isTrue t then weight else nint 0.

Definition bandFor (score : number) (cfg : TradePlanConfig) : ReadinessBand :=
  if nge score (pf_readyBand cfg) then RB_READY
  else if nge score (pf_nearBand cfg) then RB_NEAR
  else if nge score (pf_formingBand cfg) then RB_FORMING
  else RB_NOT_READY.

Definition rewardFraction (f : PlanFacts) : number :=
  let denom := nsub (pf_readyRR (f_cfg f)) (nint 1) in
  match f_rr f with
  | None => nint 0
  | Some rr => if nle denom (nint 0) then nint 0 else clamp (ndiv (nsub rr (nint 1)) denom) (nint 0) (nint 1)
  end.

Definition showTri (t : Tri) : string := match t with None => "?" | Some b => showBool b end.

Definition readinessComponents (f : PlanFacts) (inputs : TradePlanInputs) : list ReadinessComponent :=
  let w := pf_readinessWeights (f_cfg f) in
  let component key label weight earned basis :=
    {| rp_key := key; rp_label := label; rp_weight := weight; rp_earned := earned; rp_basis := basis |} in
  let dqFrac := match ti_dqScore inputs ≫= finite with None => nint 0 | Some s => unitClamp (ndiv s (nint 100)) end in
  let half := ndiv (rw_freshness w) (nint 2) in [
  component "directional" "Directional signal" (rw_directional w) (if f_directional f then rw_directional w else nint 0)
    (if f_directional f then "direction " +:+ showDirection (f_direction f) else "FLAT — no directional edge");
  component "confidence" "Conviction" (rw_confidence w) (round (nmul (rw_confidence w) (unitClamp (f_confidence f))) 2)
    ("confidence " +:+ toFixed (f_confidence f) 4 +:+ " × " +:+ numToString (rw_confidence w));
  component "riskReward" "Reward:risk" (rw_riskReward w) (round (nmul (rw_riskReward w) (rewardFraction f)) 2)
    (match f_rr f with
     | None => "no R:R (no levels)"
     | Some rr => "R:R " +:+ toFixed rr 2 +:+ " scaled 1→" +:+ numToString (pf_readyRR (f_cfg f))
     end);
  component "control" "Control approved" (rw_control w) (gate (f_controlAllowed f) (rw_control w))
    ("control " +:+ showControlStatus (f_controlStatus f));
  component "runtime" "Runtime healthy" (rw_runtime w) (gate (f_runtimeHealthy f) (rw_runtime w))
    ("runtime " +:+ default "unknown" (ti_runtimeState inputs));
  component "risk" "Risk approved" (rw_risk w) (gate (f_riskApproved f) (rw_risk w))
    ("risk " +:+ showRiskStatus (f_riskStatusLabel f));
  component "dataQuality" "Data quality" (rw_dataQuality w) (round (nmul (rw_dataQuality w) dqFrac) 2)
    (match ti_dqScore inputs with None => "no DQ score" | Some s => "DQ " +:+ numToString s +:+ "/100" end);
  component "freshness" "Data freshness" (rw_freshness w)
    (round (nadd (gate (f_signalFresh f) half) (gate (f_featureFresh f) half)) 2)
    ("signal fresh=" +:+ showTri (f_signalFresh f) +:+ ", feature fresh=" +:+ showTri (f_featureFresh f))
].

Definition sumOf (part : ReadinessComponent -> number) (components : list ReadinessComponent) : number :=
  foldl (fun a c => nadd a (part c)) (nint 0) components.

Definition earnedText (components : list ReadinessComponent) (i : nat) : string :=
  match components !! i with Some c => numToString (rp_earned c) | None => "" end.

Definition buildTradeReadiness (inputs : TradePlanInputs) : TradeReadiness :=
  let f := deriveFacts inputs in
  let components := readinessComponents f inputs in
  let score := round (clamp (sumOf rp_earned components) (nint 0) (nint 100)) 1 in
  let earned := earnedText components in {|
  tr_score := score;
  tr_band := bandFor score (f_cfg f);
  tr_components := components;
  tr_basis := "deterministic readiness " +:+ numToString score +:+ "/100 = directional " +:+ earned 0 +:+ " + conf "
    +:+ earned 1 +:+ " + R:R " +:+ earned 2 +:+ " + control " +:+ earned 3 +:+ " + runtime " +:+ earned 4 +:+ " + risk "
    +:+ earned 5 +:+ " + DQ " +:+ earned 6 +:+ " + freshness " +:+ earned 7 +:+ " (documented weights sum "
    +:+ numToString (sumOf rp_weight components) +:+ "; UNKNOWN→0)" |}.

(** ** plan.ts *)

Definition buildTradePlan (inputs : TradePlanInputs) : TradePlan :=
  let d := ti_decision inputs in
  let gaps := match td_provenanceNotes d with [] => "" | notes => "; " +:+ join "; " notes end in {|
  tp_signalId := td_signalId d;
  tp_symbol := td_symbol d;
  tp_timeframe := td_timeframe d;
  tp_direction := td_direction d;
  tp_confidence := default (nint 0) (finite (td_confidence d));
  tp_summary := buildDecisionSummary inputs;
  tp_execution := buildExecutionChecklist inputs;
  tp_risk := buildRiskChecklist inputs;
  tp_invalidation := buildInvalidation inputs;
  tp_readiness := buildTradeReadiness inputs;
  tp_generatedNote := "derived from TradingDecision " +:+ td_signalId d
    +:+ " (consumed verbatim, nothing re-decided)" +:+ gaps |}.
