(* ===== verification/Intelligence.v ===== *)
(** * Intelligence: the portfolio engine

    packages/portfolio-intelligence/src: types.ts, util.ts, facts.ts (the facts every
    section reads), exposure.ts, heat.ts, allocation.ts, statistics.ts, warnings.ts,
    health.ts, summary.ts and portfolio.ts.  The engine aggregates served decisions and
    plans; [clamp], [round] and [mv] are those of the planner, whose text it shares.  A Map
    is the list of its entries in insertion order.  [Partial<PortfolioConfig>] is a record
    of optional fields; counts are [nat]. *)

From S2P Require Import Prelude JsNumber JsText JsDecimal Json Signals Served Decision Planner.

Local Open Scope string_scope.
Local Open Scope list_scope.

(** ** types.ts *)

Record HeatWeights := {
  hw_capital : number;
  hw_risk : number;
  hw_concentration : number;
  hw_directionalSkew : number;
  hw_gating : number
}.

Definition DEFAULT_HEAT_WEIGHTS : HeatWeights := {|
  hw_capital := nint 25; hw_risk := nint 30; hw_concentration := nint 20; hw_directionalSkew := nint 15; hw_gating := nint 10 |}.

Record PortfolioConfig := {
  bc_defaultEquity : number;
  bc_maxPortfolioRiskPct : number;
  bc_concentrationWarnPct : number;
  bc_directionalSkewWarnPct : number;
  bc_capitalWarnPct : number;
  bc_signalStaleSeconds : number;
  bc_featureStaleSeconds : number;
  bc_minDqScore : number;
  bc_heatWeights : HeatWeights;
  bc_heatExtremeBand : number;
  bc_heatHotBand : number;
  bc_heatWarmBand : number
}.

Definition DEFAULT_PORTFOLIO_CONFIG : PortfolioConfig := {|
  bc_defaultEquity := nint 100000;
  bc_maxPortfolioRiskPct := nint 10;
  bc_concentrationWarnPct := nint 60;
  bc_directionalSkewWarnPct := nint 80;
  bc_capitalWarnPct := nint 90;
  bc_signalStaleSeconds := nint 180;
  bc_featureStaleSeconds := nint 180;
  bc_minDqScore := MIN_DATA_QUALITY_SCORE;
  bc_heatWeights := DEFAULT_HEAT_WEIGHTS;
  bc_heatExtremeBand := nint 85;
  bc_heatHotBand := nint 60;
  bc_heatWarmBand := nint 35 |}.

Record PortfolioOverrides := {
  bo_defaultEquity : option number;
  bo_maxPortfolioRiskPct : option number;
  bo_concentrationWarnPct : option number;
  bo_directionalSkewWarnPct : option number;
  bo_capitalWarnPct : option number;
  bo_signalStaleSeconds : option number;
  bo_featureStaleSeconds : option number;
  bo_minDqScore : option number;
  bo_heatWeights : option HeatWeights;
  bo_heatExtremeBand : option number;
  bo_heatHotBand : option number;
  bo_heatWarmBand : option number
}.

Record PortfolioItem := { it_decision : TradingDecision; it_plan : TradePlan; it_dqScore : option number }.

Record PortfolioInputs := {
  bi_now : number;
  bi_items : list PortfolioItem;
  bi_runtimeState : option string;
  bi_controlPermission : option Permission;
  bi_killEngaged : bool;
  bi_config : option PortfolioOverrides
}.

Inductive PositionState := PO_OPEN | PO_WAITING | PO_BLOCKED | PO_FLAT.

#[export] Instance PositionState_eq_dec : EqDecision PositionState.
Proof. solve_decision. Defined.

Definition showPositionState (s : PositionState) : string :=
  match s with PO_OPEN => "OPEN" | PO_WAITING => "WAITING" | PO_BLOCKED => "BLOCKED" | PO_FLAT => "FLAT" end.

Record PortfolioPosition := {
  bp_signalId : string;
  bp_symbol : string;
  bp_timeframe : Timeframe;
  bp_direction : SignalDecision;
  bp_state : PositionState;
  bp_action : Action;
  bp_confidence : number;
  bp_notional : option number;
  bp_maxLoss : option number;
  bp_riskPct : option number;
  bp_riskReward : option number;
  bp_readiness : number;
  bp_readinessBand : ReadinessBand;
  bp_regime : option MarketRegime;
  bp_contributesExposure : bool
}.

Inductive PortfolioStatus := BK_HEALTHY | BK_CAUTION | BK_RISK | BK_BLOCKED.

#[export] Instance PortfolioStatus_eq_dec : EqDecision PortfolioStatus.
Proof. solve_decision. Defined.

Definition showPortfolioStatus (s : PortfolioStatus) : string :=
  match s with BK_HEALTHY => "HEALTHY" | BK_CAUTION => "CAUTION" | BK_RISK => "RISK" | BK_BLOCKED => "BLOCKED" end.

Record PortfolioSummary := {
  bm_currentExposure : number;
  bm_longExposure : number;
  bm_shortExposure : number;
  bm_netExposure : number;
  bm_openTrades : nat;
  bm_blockedTrades : nat;
  bm_waitingTrades : nat;
  bm_readyTrades : nat;
  bm_flatTrades : nat;
  bm_capitalUsed : number;
  bm_capitalAvailable : number;
  bm_riskUsed : number;
  bm_riskRemaining : number;
  bm_status : PortfolioStatus;
  bm_assumedEquity : number;
  bm_note : string
}.

Record ExposureGroup := {
  eg_key : string;
  eg_notional : number;
  eg_sharePct : number;
  eg_count : nat;
  eg_provenance : Provenance
}.

Record ExposureBuckets := {
  eb_byState : list ExposureGroup;
  eb_byConfidence : list ExposureGroup;
  eb_byRisk : list ExposureGroup
}.

Record PortfolioExposure := {
  ex_bySymbol : list ExposureGroup;
  ex_bySide : list ExposureGroup;
  ex_byRegime : list ExposureGroup;
  ex_buckets : ExposureBuckets;
  ex_grossExposure : number;
  ex_netExposure : number;
  ex_note : string
}.

(** [PortfolioMeasure] has the fields of the decision's [Measure]. *)
Record SymbolAllocation := {
  sy_symbol : string;
  sy_capitalPct : Measure;
  sy_riskPct : Measure;
  sy_exposurePct : Measure
}.

Record AllocationRef := {
  al_symbol : option string;
  al_value : option number;
  al_provenance : Provenance;
  al_basis : string
}.

Record CapitalAllocation := {
  ca_capitalPct : Measure;
  ca_riskPct : Measure;
  ca_exposurePct : Measure;
  ca_perSymbol : list SymbolAllocation;
  ca_largestPosition : AllocationRef;
  ca_largestRisk : AllocationRef;
  ca_largestOpportunity : AllocationRef;
  ca_concentration : Measure;
  ca_note : string
}.

Inductive HeatBand := HB_COOL | HB_WARM | HB_HOT | HB_EXTREME.

#[export] Instance HeatBand_eq_dec : EqDecision HeatBand.
Proof. solve_decision. Defined.

Definition showHeatBand (b : HeatBand) : string :=
  match b with HB_COOL => "COOL" | HB_WARM => "WARM" | HB_HOT => "HOT" | HB_EXTREME => "EXTREME" end.

Record HeatComponent := {
  hc_key : string;
  hc_label : string;
  hc_weight : number;
  hc_earned : number;
  hc_basis : string
}.

Record RiskHeat := {
  rh_heatScore : number;
  rh_heatBand : HeatBand;
  rh_diversificationScore : number;
  rh_concentrationScore : number;
  rh_portfolioRisk : number;
  rh_portfolioStability : number;
  rh_components : list HeatComponent;
  rh_provenance : Provenance;
  rh_note : string
}.

Record PortfolioHealth := {
  he_status : PortfolioStatus;
  he_reasons : list string;
  he_runtimeHealthy : option bool;
  he_controlAllowed : option bool;
  he_killEngaged : bool;
  he_heatBand : HeatBand;
  he_note : string
}.

Inductive WarningSeverity := WS_CRITICAL | WS_HIGH | WS_MEDIUM | WS_LOW.

#[export] Instance WarningSeverity_eq_dec : EqDecision WarningSeverity.
Proof. solve_decision. Defined.

Inductive WarningSource :=
| WO_control | WO_runtime | WO_risk | WO_exposure | WO_capital | WO_concentration | WO_data_quality | WO_freshness | WO_signal.

Record PortfolioWarning := {
  wn_id : string;
  wn_severity : WarningSeverity;
  wn_reason : string;
  wn_source : WarningSource;
  wn_provenance : Provenance;
  wn_basis : string
}.

Record PortfolioWarnings := {
  ww_warnings : list PortfolioWarning;
  ww_critical : nat;
  ww_high : nat;
  ww_medium : nat;
  ww_low : nat;
  ww_note : string
}.

Record StatRef := {
  sr_symbol : option string;
  sr_timeframe : option Timeframe;
  sr_direction : option SignalDecision;
  sr_value : option number
}.

Record ConfidenceBucket := { cu_label : string; cu_count : nat }.

Record PortfolioDistribution := {
  pd_byAction : list (Action * nat);
  pd_byReadinessBand : list (ReadinessBand * nat);
  pd_byRegime : list ExposureGroup;
  pd_confidenceBuckets : list ConfidenceBucket
}.

Record PortfolioStatistics := {
  bt_sampleSize : nat;
  bt_averageConfidence : option number;
  bt_medianConfidence : option number;
  bt_highestConfidence : option number;
  bt_lowestConfidence : option number;
  bt_averageRiskReward : option number;
  bt_averageReadiness : option number;
  bt_averageRisk : option number;
  bt_bestOpportunity : StatRef;
  bt_worstOpportunity : StatRef;
  bt_distribution : PortfolioDistribution;
  bt_note : string
}.

Record PortfolioState := {
  bb_summary : PortfolioSummary;
  bb_exposure : PortfolioExposure;
  bb_allocation : CapitalAllocation;
  bb_heat : RiskHeat;
  bb_health : PortfolioHealth;
  bb_warnings : PortfolioWarnings;
  bb_statistics : PortfolioStatistics;
  bb_positions : list PortfolioPosition;
  bb_generatedNote : string
}.

(** ** util.ts *)

(** A finite Number, or [null]. *)
Definition fin (x : option number) : option number :=
  match x with Some v => if isFinite v then Some v else None | None => None end.

(** The finite values of a list that may have missing ones. *)
Definition finiteValues (xs : list (option number)) : list number := omap fin xs.

Definition sumFinite (xs : list (option number)) : number := foldl nadd (nint 0) (finiteValues xs).

Definition avg (xs : list (option number)) : option number :=
  match finiteValues xs with
  | [] => None
  | vals => Some (ndiv (foldl nadd (nint 0) vals) (nint (Z.of_nat (length vals))))
  end.

Definition median (xs : list (option number)) : option number :=
  let vals := sortBy compareNumbers (finiteValues xs) in
  let mid := (length vals / 2)%nat in
  match vals with
  | [] => None
  | _ => if Nat.odd (length vals) then vals !! mid
         else match vals !! (mid - 1)%nat, vals !! mid with
              | Some a, Some b => Some (ndiv (nadd a b) (nint 2))
              | _, _ => None
              end
  end.

Definition maxFinite (xs : list (option number)) : option number :=
  match finiteValues xs with
  | [] => None
  | v :: vals => Some (foldl (fun a b => if ngt b a then b else a) v vals)
  end.

Definition minFinite (xs : list (option number)) : option number :=
  match finiteValues xs with
  | [] => None
  | v :: vals => Some (foldl (fun a b => if nlt b a then b else a) v vals)
  end.

Definition safeDiv (num den : number) : option number :=
  if negb (isFinite num) || negb (isFinite den) || neq den (nint 0) then None else Some (ndiv num den).

(** [map.set(key, f(map.get(key)))] *)
Fixpoint updateKey {A} (key : string) (f : option A -> A) (m : list (string * A)) : list (string * A) :=
  match m with
  | [] => [(key, f None)]
  | (k, a) :: m => if bool_decide (k = key) then (k, f (Some a)) :: m else (k, a) :: updateKey key f m
  end.

(** The Number of a count, and its text. *)
Definition ncount (n : nat) : number := nint (Z.of_nat n).
Definition showCount (n : nat) : string := numToString (ncount n).

Definition showRegime (r : MarketRegime) : string :=
  match r with
  | TRENDING_BULL => "TRENDING_BULL" | TRENDING_BEAR => "TRENDING_BEAR" | RANGE_BOUND => "RANGE_BOUND"
  | HIGH_VOL => "HIGH_VOL" | LOW_VOL => "LOW_VOL" | PANIC => "PANIC" | EUPHORIA => "EUPHORIA"
  end.

(** ** facts.ts *)

Record PortfolioFacts := {
  pn_config : PortfolioConfig;
  pn_now : number;
  pn_killEngaged : bool;
  pn_controlAllowed : Tri;
  pn_runtimeHealthy : Tri;
  pn_positions : list PortfolioPosition;
  pn_open : list PortfolioPosition;
  pn_directional : list PortfolioPosition;
  pn_openCount : nat;
  pn_waitingCount : nat;
  pn_blockedCount : nat;
  pn_flatCount : nat;
  pn_readyCount : nat;
  pn_totalCount : nat;
  pn_staleCount : nat;
  pn_lowDqCount : nat;
  pn_assumedEquity : number;
  pn_longExposure : number;
  pn_shortExposure : number;
  pn_grossExposure : number;
  pn_netExposure : number;
  pn_capitalUsed : number;
  pn_capitalAvailable : number;
  pn_capitalPct : number;
  pn_riskUsedAbs : number;
  pn_riskBudgetAbs : number;
  pn_riskRemainingAbs : number;
  pn_riskUsedPct : number
}.

Definition resolveConfig (partial : option PortfolioOverrides) : PortfolioConfig :=
  let D := DEFAULT_PORTFOLIO_CONFIG in
  match partial with
  | None => D
  | Some o => {|
      bc_defaultEquity := default (bc_defaultEquity D) (bo_defaultEquity o);
      bc_maxPortfolioRiskPct := default (bc_maxPortfolioRiskPct D) (bo_maxPortfolioRiskPct o);
      bc_concentrationWarnPct := default (bc_concentrationWarnPct D) (bo_concentrationWarnPct o);
      bc_directionalSkewWarnPct := default (bc_directionalSkewWarnPct D) (bo_directionalSkewWarnPct o);
      bc_capitalWarnPct := default (bc_capitalWarnPct D) (bo_capitalWarnPct o);
      bc_signalStaleSeconds := default (bc_signalStaleSeconds D) (bo_signalStaleSeconds o);
      bc_featureStaleSeconds := default (bc_featureStaleSeconds D) (bo_featureStaleSeconds o);
      bc_minDqScore := default (bc_minDqScore D) (bo_minDqScore o);
      bc_heatWeights := default (bc_heatWeights D) (bo_heatWeights o);
      bc_heatExtremeBand := default (bc_heatExtremeBand D) (bo_heatExtremeBand o);
      bc_heatHotBand := default (bc_heatHotBand D) (bo_heatHotBand o);
      bc_heatWarmBand := default (bc_heatWarmBand D) (bo_heatWarmBand o) |}
  end.

Definition isStale (item : PortfolioItem) (cfg : PortfolioConfig) : bool :=
  let d := it_decision item in
  let older age bound := match fin age with Some a => ngt a bound | None => false end in
  older (Some (td_signalAgeSeconds d)) (bc_signalStaleSeconds cfg) || older (td_featureAgeSeconds d) (bc_featureStaleSeconds cfg).

Definition isHardBlocked (item : PortfolioItem) (killEngaged : bool) : bool :=
  let d := it_decision item in
  killEngaged || bool_decide (td_controlStatus d = CT_BLOCKED) || bool_decide (rv_status (td_riskStatus d) = RK_BLOCKED)
  || bool_decide (td_overallStatus d = OV_BLOCKED).

Definition classify (item : PortfolioItem) (killEngaged : bool) (cfg : PortfolioConfig) : PositionState :=
  let d := it_decision item in
  if bool_decide (td_direction d = FLAT) || bool_decide (td_overallStatus d = OV_NO_TRADE) then PO_FLAT
  else if isHardBlocked item killEngaged then PO_BLOCKED
  else
    let canTrade := ds_canTrade (tp_summary (it_plan item)) && bool_decide (td_overallStatus d = OV_ACTIONABLE) in
    if canTrade && negb (isStale item cfg) then PO_OPEN else PO_WAITING.

Definition toPosition (item : PortfolioItem) (killEngaged : bool) (cfg : PortfolioConfig) : PortfolioPosition :=
  let d := it_decision item in
  let p := it_plan item in
  let state := classify item killEngaged cfg in {|
  bp_signalId := td_signalId d;
  bp_symbol := td_symbol d;
  bp_timeframe := td_timeframe d;
  bp_direction := td_direction d;
  bp_state := state;
  bp_action := ds_action (tp_summary p);
  bp_confidence := if isFinite (td_confidence d) then td_confidence d else nint 0;
  bp_notional := mv (td_positionNotional d);
  bp_maxLoss := fin (rf_value (rl_maximumLoss (tp_risk p)));
  bp_riskPct := mv (td_capitalRiskPercent d);
  bp_riskReward := mv (td_riskRewardRatio d);
  bp_readiness := if isFinite (tr_score (tp_readiness p)) then tr_score (tp_readiness p) else nint 0;
  bp_readinessBand := tr_band (tp_readiness p);
  bp_regime := rg_regime (td_marketRegime d);
  bp_contributesExposure := bool_decide (state = PO_OPEN) |}.

(** By symbol, then by signal. *)
Definition byName (a b : PortfolioPosition) : comparison :=
  orElse (String.compare (bp_symbol a) (bp_symbol b)) (String.compare (bp_signalId a) (bp_signalId b)).

Definition inState (s : PositionState) (p : PortfolioPosition) : bool := bool_decide (bp_state p = s).

(** [l.filter(f).length] *)
Definition countIf {A} (f : A -> bool) (l : list A) : nat := length (List.filter f l).

(** [Math.max(...xs)] *)
Definition maxOf (xs : list number) : number := foldl nmax (Inf true) xs.

Definition equitiesOf (items : list PortfolioItem) : list number :=
  List.filter (fun x => ngt x (nint 0)) (omap (fun it => fin (Some (td_assumedEquity (it_decision it)))) items).

Definition sideExposure (side : SignalDecision) (open : list PortfolioPosition) : number :=
  round (sumFinite (List.map bp_notional (List.filter (fun p => bool_decide (bp_direction p = side)) open))) 2.

Definition percentage (part whole : number) : number := round (nmul (ndiv part whole) (nint 100)) 2.

Definition derivePortfolioFacts (inputs : PortfolioInputs) : PortfolioFacts :=
  let cfg := resolveConfig (bi_config inputs) in
  let kill := bi_killEngaged inputs in
  let items := bi_items inputs in
  let positions := sortBy byName (List.map (fun it => toPosition it kill cfg) items) in
  let open := List.filter (inState PO_OPEN) positions in
  let equities := equitiesOf items in
  let equity := match equities with [] => bc_defaultEquity cfg | _ => maxOf equities end in
  let long := sideExposure LONG open in
  let short := sideExposure SHORT open in
  let gross := round (nadd long short) 2 in
  let riskUsed := round (sumFinite (List.map bp_maxLoss open)) 2 in
  let budget := round (ndiv (nmul equity (bc_maxPortfolioRiskPct cfg)) (nint 100)) 2 in {|
  pn_config := cfg;
  pn_now := bi_now inputs;
  pn_killEngaged := kill;
  pn_controlAllowed := (fun p => match p with PM_ALLOWED => true | PM_BLOCKED => false end) <$> bi_controlPermission inputs;
  pn_runtimeHealthy := (fun s => bool_decide (s = "HEALTHY")) <$> bi_runtimeState inputs;
  pn_positions := positions;
  pn_open := open;
  pn_directional := List.filter (fun p => negb (bool_decide (bp_direction p = FLAT))) positions;
  pn_openCount := length open;
  pn_waitingCount := countIf (inState PO_WAITING) positions;
  pn_blockedCount := countIf (inState PO_BLOCKED) positions;
  pn_flatCount := countIf (inState PO_FLAT) positions;
  pn_readyCount := countIf (fun p => bool_decide (bp_readinessBand p = RB_READY)) open;
  pn_totalCount := length positions;
  pn_staleCount := countIf (fun it => negb (bool_decide (td_direction (it_decision it) = FLAT)) && isStale it cfg) items;
  pn_lowDqCount :=
    countIf (fun it => match fin (it_dqScore it) with Some s => nlt s (bc_minDqScore cfg) | None => false end) items;
  pn_assumedEquity := equity;
  pn_longExposure := long;
  pn_shortExposure := short;
  pn_grossExposure := gross;
  pn_netExposure := round (nsub long short) 2;
  pn_capitalUsed := gross;
  pn_capitalAvailable := round (nmax (nint 0) (nsub equity gross)) 2;
  pn_capitalPct := if ngt equity (nint 0) then percentage gross equity else nint 0;
  pn_riskUsedAbs := riskUsed;
  pn_riskBudgetAbs := budget;
  pn_riskRemainingAbs := round (nmax (nint 0) (nsub budget riskUsed)) 2;
  pn_riskUsedPct := if ngt equity (nint 0) then percentage riskUsed equity else nint 0 |}.

(** ** exposure.ts *)

(** What a Map of groups accumulates per key. *)
Record GroupAgg := { ga_notional : number; ga_count : nat; ga_missing : bool }.

Definition addToAgg (p : PortfolioPosition) (cur : option GroupAgg) : GroupAgg :=
  let cur := default {| ga_notional := nint 0; ga_count := 0; ga_missing := false |} cur in
  let counted := S (ga_count cur) in
  if bp_contributesExposure p then
    match bp_notional p with
    | None => {| ga_notional := ga_notional cur; ga_count := counted; ga_missing := true |}
    | Some n => {| ga_notional := nadd (ga_notional cur) n; ga_count := counted; ga_missing := ga_missing cur |}
    end
  else {| ga_notional := ga_notional cur; ga_count := counted; ga_missing := ga_missing cur |}.

Definition aggregate (keyFn : PortfolioPosition -> string) (positions : list PortfolioPosition) : list (string * GroupAgg) :=
  foldl (fun agg p => updateKey (keyFn p) (addToAgg p) agg) [] positions.

Definition groupProvenance (g : GroupAgg) : Provenance := if ga_missing g then Pv_estimated else Pv_derived.

(** Descending notional, then key. *)
Definition byNotional (a b : ExposureGroup) : comparison :=
  if negb (neq (eg_notional b) (eg_notional a)) then compareNumbers (eg_notional b) (eg_notional a)
  else String.compare (eg_key a) (eg_key b).

Definition group (keyFn : PortfolioPosition -> string) (positions : list PortfolioPosition) : list ExposureGroup :=
  let agg := aggregate keyFn positions in
  let total := foldl (fun a kg => nadd a (ga_notional (snd kg))) (nint 0) agg in
  sortBy byNotional (List.map (fun '(key, g) => {|
    eg_key := key;
    eg_notional := round (ga_notional g) 2;
    eg_sharePct := if ngt total (nint 0) then percentage (ga_notional g) total else nint 0;
    eg_count := ga_count g;
    eg_provenance := groupProvenance g |}) agg).

Definition confidenceBand (p : PortfolioPosition) : string :=
  if nge (bp_confidence p) (ndec 75 2) then "HIGH" else if nge (bp_confidence p) (ndec 5 1) then "MEDIUM" else "LOW".

Definition riskBand (p : PortfolioPosition) : string :=
  match bp_riskPct p with
  | None => "UNKNOWN"
  | Some r => if nlt r (ndec 5 1) then "LOW" else if nlt r (ndec 15 1) then "MODERATE" else "HIGH"
  end.

Definition regimeKey (p : PortfolioPosition) : string :=
  match bp_regime p with Some r => showRegime r | None => "UNKNOWN" end.

Definition buildPortfolioExposure (inputs : PortfolioInputs) : PortfolioExposure :=
  let f := derivePortfolioFacts inputs in
  let open := pn_open f in {|
  ex_bySymbol := group bp_symbol open;
  ex_bySide := group (fun p => showDirection (bp_direction p)) open;
  ex_byRegime := group regimeKey open;
  ex_buckets := {|
    eb_byState := group (fun p => showPositionState (bp_state p)) (pn_positions f);
    eb_byConfidence := group confidenceBand open;
    eb_byRisk := group riskBand open |};
  ex_grossExposure := pn_grossExposure f;
  ex_netExposure := pn_netExposure f;
  ex_note :=
    match open with
    | [] => "no open exposure — all groupings empty (only OPEN positions expose capital)"
    | _ => "gross $" +:+ numToString (pn_grossExposure f) +:+ " across " +:+ showCount (length open)
        +:+ " open position(s); net $" +:+ numToString (pn_netExposure f)
    end |}.

(** ** heat.ts *)

(** The notional of every symbol of the open book that has one. *)
Definition notionalBySymbol (open : list PortfolioPosition) : list (string * number) :=
  foldl (fun m p => match bp_notional p with
                    | None => m
                    | Some n => updateKey (bp_symbol p) (fun cur => nadd (default (nint 0) cur) n) m
                    end) [] open.

Definition concentrationScore (f : PortfolioFacts) : number :=
  let gross := pn_grossExposure f in
  if nle gross (nint 0) then nint 0
  else
    let hhi := foldl (fun hhi sn => let share := ndiv (snd sn) gross in nadd hhi (nmul share share)) (nint 0)
      (notionalBySymbol (pn_open f)) in
    round (nmul (unitClamp hhi) (nint 100)) 2.

Definition heatBandFor (score : number) (cfg : PortfolioConfig) : HeatBand :=
  if nge score (bc_heatExtremeBand cfg) then HB_EXTREME
  else if nge score (bc_heatHotBand cfg) then HB_HOT
  else if nge score (bc_heatWarmBand cfg) then HB_WARM else HB_COOL.

Definition heatComponents (f : PortfolioFacts) (concentration : number) : list HeatComponent :=
  let w := bc_heatWeights (pn_config f) in
  let component key label weight frac basis :=
    {| hc_key := key; hc_label := label; hc_weight := weight; hc_earned := round (nmul weight frac) 2; hc_basis := basis |} in
  let text := numToString in
  let denom := length (pn_directional f) in [
  component "capital" "Capital deployed" (hw_capital w) (unitClamp (ndiv (pn_capitalPct f) (nint 100)))
    ("capital " +:+ text (pn_capitalPct f) +:+ "% of equity");
  component "risk" "Risk vs budget" (hw_risk w)
    (if ngt (pn_riskBudgetAbs f) (nint 0) then unitClamp (ndiv (pn_riskUsedAbs f) (pn_riskBudgetAbs f)) else nint 0)
    ("risk $" +:+ text (pn_riskUsedAbs f) +:+ " of $" +:+ text (pn_riskBudgetAbs f) +:+ " budget");
  component "concentration" "Concentration" (hw_concentration w) (unitClamp (ndiv concentration (nint 100)))
    ("HHI concentration " +:+ text concentration +:+ "/100");
  component "directionalSkew" "Directional skew" (hw_directionalSkew w)
    (if ngt (pn_grossExposure f) (nint 0) then unitClamp (ndiv (nabs (pn_netExposure f)) (pn_grossExposure f)) else nint 0)
    ("|net| $" +:+ text (nabs (pn_netExposure f)) +:+ " ÷ gross $" +:+ text (pn_grossExposure f));
  component "gating" "Gating stress" (hw_gating w)
    (if (0 <? denom)%nat then unitClamp (ndiv (ncount (pn_blockedCount f + pn_staleCount f)) (ncount denom)) else nint 0)
    ("blocked " +:+ showCount (pn_blockedCount f) +:+ ", stale " +:+ showCount (pn_staleCount f) +:+ " of " +:+ showCount denom
       +:+ " directional")
].

Definition buildRiskHeat (inputs : PortfolioInputs) : RiskHeat :=
  let f := derivePortfolioFacts inputs in
  let w := bc_heatWeights (pn_config f) in
  let concentration := concentrationScore f in
  let components := heatComponents f concentration in
  let heatScore := round (clamp (foldl (fun a c => nadd a (hc_earned c)) (nint 0) components) (nint 0) (nint 100)) 1 in
  let heatBand := heatBandFor heatScore (pn_config f) in {|
  rh_heatScore := heatScore;
  rh_heatBand := heatBand;
  rh_diversificationScore := round (nsub (nint 100) concentration) 2;
  rh_concentrationScore := concentration;
  rh_portfolioRisk :=
    if ngt (pn_riskBudgetAbs f) (nint 0) then
      round (clamp (nmul (default (nint 0) (safeDiv (pn_riskUsedAbs f) (pn_riskBudgetAbs f))) (nint 100)) (nint 0) (nint 100)) 2
    else nint 0;
  rh_portfolioStability := round (nsub (nint 100) heatScore) 1;
  rh_components := components;
  rh_provenance := Pv_derived;
  rh_note :=
    if (pn_openCount f =? 0)%nat then "no open exposure — heat is COOL by construction (nothing deployed)"
    else "heat " +:+ numToString heatScore +:+ "/100 (" +:+ showHeatBand heatBand +:+ ") from documented weights (sum "
      +:+ numToString (nadd (nadd (nadd (nadd (hw_capital w) (hw_risk w)) (hw_concentration w)) (hw_directionalSkew w)) (hw_gating w))
      +:+ ")" |}.

(** ** allocation.ts *)

Record SymAgg := {
  sa_gross : number;
  sa_net : number;
  sa_risk : number;
  sa_grossHasSource : bool;
  sa_riskHasSource : bool;
  sa_bestReadiness : number;
  sa_bestConfidence : number
}.

Definition noSymAgg : SymAgg := {|
  sa_gross := nint 0; sa_net := nint 0; sa_risk := nint 0; sa_grossHasSource := false; sa_riskHasSource := false;
  sa_bestReadiness := nint (-1); sa_bestConfidence := nint (-1) |}.

Definition addToSymbol (p : PortfolioPosition) (cur : option SymAgg) : SymAgg :=
  let cur := default noSymAgg cur in
  let better := ngt (bp_readiness p) (sa_bestReadiness cur) in {|
  sa_gross := match bp_notional p with Some n => nadd (sa_gross cur) n | None => sa_gross cur end;
  sa_net :=
    match bp_notional p with
    | Some n => nadd (sa_net cur) (if bool_decide (bp_direction p = SHORT) then nneg n else n)
    | None => sa_net cur
    end;
  sa_risk := match bp_maxLoss p with Some l => nadd (sa_risk cur) l | None => sa_risk cur end;
  sa_grossHasSource := match bp_notional p with Some _ => true | None => sa_grossHasSource cur end;
  sa_riskHasSource := match bp_maxLoss p with Some _ => true | None => sa_riskHasSource cur end;
  sa_bestReadiness := if better then bp_readiness p else sa_bestReadiness cur;
  sa_bestConfidence := if better then bp_confidence p else sa_bestConfidence cur |}.

Definition aggregateBySymbol (f : PortfolioFacts) : list (string * SymAgg) :=
  foldl (fun m p => updateKey (bp_symbol p) (addToSymbol p) m) [] (pn_open f).

Definition pct (num equity : number) : number := if ngt equity (nint 0) then percentage num equity else nint 0.

Definition naRef (basis : string) : AllocationRef :=
  {| al_symbol := None; al_value := None; al_provenance := Pv_unavailable; al_basis := basis |}.

Definition strLtb (a b : string) : bool := bool_decide (String.compare a b = Lt).

(** A figure takes the place of the largest one so far, which is the rounded one. *)
Definition outranks (value : number) (symbol : string) (best : AllocationRef) : bool :=
  match al_value best with
  | None => true
  | Some v => ngt value v || neq value v && match al_symbol best with Some s => strLtb symbol s | None => false end
  end.

Definition largestBy (hasSource : SymAgg -> bool) (value : SymAgg -> number) (what missing : string)
    (bySymbol : list (string * SymAgg)) : AllocationRef :=
  foldl (fun best '(symbol, a) =>
    if hasSource a && outranks (value a) symbol best then
      {| al_symbol := Some symbol; al_value := Some (round (value a) 2); al_provenance := Pv_derived; al_basis := symbol +:+ what |}
    else best) (naRef missing) bySymbol.

(** The best reference so far, with the readiness and the confidence it stands for. *)
Record Opportunity := { op_ref : AllocationRef; op_readiness : number; op_confidence : number }.

Definition betterOpportunity (p : PortfolioPosition) (o : Opportunity) : bool :=
  let r := bp_readiness p in
  let c := bp_confidence p in
  ngt r (op_readiness o) || neq r (op_readiness o) && ngt c (op_confidence o)
  || neq r (op_readiness o) && neq c (op_confidence o)
     && match al_symbol (op_ref o) with Some s => strLtb (bp_symbol p) s | None => false end.

Definition largestOpportunity (directional : list PortfolioPosition) : AllocationRef :=
  op_ref (foldl (fun o p =>
    if betterOpportunity p o then
      let readiness := round (bp_readiness p) 1 in {|
      op_ref := {| al_symbol := Some (bp_symbol p); al_value := Some readiness; al_provenance := Pv_derived;
                   al_basis := bp_symbol p +:+ " readiness " +:+ numToString readiness +:+ " (confidence "
                     +:+ toFixed (bp_confidence p) 4 +:+ ")" |};
      op_readiness := bp_readiness p; op_confidence := bp_confidence p |}
    else o) {| op_ref := naRef "no directional candidates"; op_readiness := nint (-1); op_confidence := nint (-1) |} directional).

Definition symbolAllocation (f : PortfolioFacts) (symbol : string) (a : SymAgg) : SymbolAllocation :=
  let equity := pn_assumedEquity f in
  let gross := symbol +:+ " gross $" +:+ numToString (round (sa_gross a) 2) in {|
  sy_symbol := symbol;
  sy_capitalPct := {| me_value := Some (pct (sa_gross a) equity); me_provenance := Pv_derived;
    me_basis := gross +:+ " ÷ equity $" +:+ numToString equity |};
  sy_riskPct := {| me_value := Some (pct (sa_risk a) equity); me_provenance := Pv_derived;
    me_basis := symbol +:+ " risk $" +:+ numToString (round (sa_risk a) 2) +:+ " ÷ equity $" +:+ numToString equity |};
  sy_exposurePct := {|
    me_value := Some (if ngt (pn_grossExposure f) (nint 0) then percentage (sa_gross a) (pn_grossExposure f) else nint 0);
    me_provenance := Pv_derived; me_basis := gross +:+ " ÷ gross $" +:+ numToString (pn_grossExposure f) |} |}.

Definition byCapital (x y : SymbolAllocation) : comparison :=
  let value s := default (nint 0) (me_value (sy_capitalPct s)) in
  orElse (compareNumbers (value y) (value x)) (String.compare (sy_symbol x) (sy_symbol y)).

Definition hasSome {A} (o : option A) : bool := match o with Some _ => true | None => false end.

Definition buildCapitalAllocation (inputs : PortfolioInputs) : CapitalAllocation :=
  let f := derivePortfolioFacts inputs in
  let equity := pn_assumedEquity f in
  let hasOpen := (0 <? pn_openCount f)%nat in
  let notionalCovered := countIf (fun p => hasSome (bp_notional p)) (pn_open f) in
  let riskCovered := countIf (fun p => hasSome (bp_maxLoss p)) (pn_open f) in
  let coverage covered := if hasOpen && (covered <? pn_openCount f)%nat then Pv_estimated else Pv_derived in
  let basis what amount source covered := what +:+ " $" +:+ numToString amount +:+ " ÷ equity $" +:+ numToString equity +:+ " ("
    +:+ source +:+ " from " +:+ showCount covered +:+ "/" +:+ showCount (pn_openCount f) +:+ " open)" in
  let capital := pct (pn_grossExposure f) equity in
  let bySymbol := aggregateBySymbol f in
  let perSymbol := sortBy byCapital (List.map (fun '(symbol, a) => symbolAllocation f symbol a) bySymbol) in
  let conc := concentrationScore f in {|
  ca_capitalPct := {| me_value := Some capital; me_provenance := coverage notionalCovered;
    me_basis := basis "gross" (pn_grossExposure f) "notional" notionalCovered |};
  ca_riskPct := {| me_value := Some (pct (pn_riskUsedAbs f) equity); me_provenance := coverage riskCovered;
    me_basis := basis "risk" (pn_riskUsedAbs f) "maxLoss" riskCovered |};
  ca_exposurePct := {| me_value := Some (pct (pn_netExposure f) equity); me_provenance := coverage notionalCovered;
    me_basis := basis "net" (pn_netExposure f) "notional" notionalCovered |};
  ca_perSymbol := perSymbol;
  ca_largestPosition := largestBy sa_grossHasSource sa_gross " gross notional" "no open position with a notional source" bySymbol;
  ca_largestRisk := largestBy sa_riskHasSource sa_risk " Σ maxLoss" "no open position with a maxLoss source" bySymbol;
  ca_largestOpportunity := largestOpportunity (pn_directional f);
  ca_concentration := {| me_value := Some conc; me_provenance := if hasOpen then coverage notionalCovered else Pv_unavailable;
    me_basis := if hasOpen then "HHI of gross-exposure shares (1 symbol→100, n equal→100/n)" else "no open exposure" |};
  ca_note :=
    if hasOpen then "capital " +:+ numToString capital +:+ "% deployed across " +:+ showCount (length perSymbol)
      +:+ " symbol(s); concentration " +:+ numToString conc +:+ "/100"
    else "no open exposure — allocation is empty (nothing deployed)" |}.

(** ** statistics.ts *)

Definition ALL_ACTIONS : list Action := [STRONG_BUY; BUY_ACTION; WATCH; WAIT; NO_TRADE; SELL_ACTION; STRONG_SELL].
Definition ALL_BANDS : list ReadinessBand := [RB_READY; RB_NEAR; RB_FORMING; RB_NOT_READY].

(** Best first: higher readiness, then confidence, then the first symbol; worst likewise. *)
Definition betterByReadiness (highest : bool) (p best : PortfolioPosition) : bool :=
  let dr := nsub (bp_readiness p) (bp_readiness best) in
  let dc := nsub (bp_confidence p) (bp_confidence best) in
  let beyond x := if highest then ngt x (nint 0) else nlt x (nint 0) in
  let zero x := neq x (nint 0) in
  beyond dr || zero dr && beyond dc || zero dr && zero dc && strLtb (bp_symbol p) (bp_symbol best).

Definition pickByReadiness (highest : bool) (sample : list PortfolioPosition) : StatRef :=
  match sample with
  | [] => {| sr_symbol := None; sr_timeframe := None; sr_direction := None; sr_value := None |}
  | p :: sample =>
      let best := foldl (fun best p => if betterByReadiness highest p best then p else best) p sample in
      {| sr_symbol := Some (bp_symbol best); sr_timeframe := Some (bp_timeframe best); sr_direction := Some (bp_direction best);
         sr_value := Some (round (bp_readiness best) 1) |}
  end.

Definition confidenceBuckets (sample : list PortfolioPosition) : list ConfidenceBucket :=
  List.map (fun '(label, lo, hi) =>
      {| cu_label := label; cu_count := countIf (fun p => nge (bp_confidence p) lo && nlt (bp_confidence p) hi) sample |})
    [("0.00–0.25", nint 0, ndec 25 2); ("0.25–0.50", ndec 25 2, ndec 5 1); ("0.50–0.75", ndec 5 1, ndec 75 2);
     ("0.75–1.00", ndec 75 2, ndec 10001 4)].

(** Descending count, then key. *)
Definition byCount (a b : ExposureGroup) : comparison :=
  orElse (Nat.compare (eg_count b) (eg_count a)) (String.compare (eg_key a) (eg_key b)).

Definition regimeGroups (sample : list PortfolioPosition) : list ExposureGroup :=
  let total := length sample in
  sortBy byCount (List.map (fun '(key, g) => {|
    eg_key := key;
    eg_notional := round (ga_notional g) 2;
    eg_sharePct := if (0 <? total)%nat then percentage (ncount (ga_count g)) (ncount total) else nint 0;
    eg_count := ga_count g;
    eg_provenance := groupProvenance g |}) (aggregate regimeKey sample)).

(** [record[key] += 1] *)
Definition bump {A} `{!EqDecision A} (key : A) (counts : list (A * nat)) : list (A * nat) :=
  List.map (fun '(k, n) => (k, if bool_decide (k = key) then S n else n)) counts.

Definition tally {A B} `{!EqDecision A} (keys : list A) (key : B -> A) (l : list B) : list (A * nat) :=
  foldl (fun counts b => bump (key b) counts) (List.map (fun k => (k, 0%nat)) keys) l.

Definition buildPortfolioStatistics (inputs : PortfolioInputs) : PortfolioStatistics :=
  let f := derivePortfolioFacts inputs in
  let sample := pn_directional f in
  let confidences := List.map (fun p => Some (bp_confidence p)) sample in
  let rounded dp x := (fun v => round v dp) <$> x in
  let averageConfidence := rounded 4 (avg confidences) in {|
  bt_sampleSize := length sample;
  bt_averageConfidence := averageConfidence;
  bt_medianConfidence := rounded 4 (median confidences);
  bt_highestConfidence := rounded 4 (maxFinite confidences);
  bt_lowestConfidence := rounded 4 (minFinite confidences);
  bt_averageRiskReward := rounded 2 (avg (List.map bp_riskReward sample));
  bt_averageReadiness := rounded 1 (avg (List.map (fun p => Some (bp_readiness p)) sample));
  bt_averageRisk := rounded 4 (avg (List.map bp_riskPct sample));
  bt_bestOpportunity := pickByReadiness true sample;
  bt_worstOpportunity := pickByReadiness false sample;
  bt_distribution := {|
    pd_byAction := tally ALL_ACTIONS bp_action (pn_positions f);
    pd_byReadinessBand := tally ALL_BANDS bp_readinessBand sample;
    pd_byRegime := regimeGroups sample;
    pd_confidenceBuckets := confidenceBuckets sample |};
  bt_note :=
    match sample with
    | [] => "no directional candidates — statistics fail closed (null)"
    | _ => showCount (length sample) +:+ " directional candidate(s); avg confidence "
        +:+ match averageConfidence with None => "—" | Some v => numToString v end
    end |}.

(** ** warnings.ts *)

Definition topSymbolSharePct (f : PortfolioFacts) : option string * number :=
  if nle (pn_grossExposure f) (nint 0) then (None, nint 0)
  else
    let '(symbol, notional) := foldl (fun '(symbol, notional) '(s, n) =>
        if ngt n notional || neq n notional && match symbol with Some best => strLtb s best | None => false end
        then (Some s, n) else (symbol, notional)) (None, nint (-1)) (notionalBySymbol (pn_open f)) in
    (symbol, percentage notional (pn_grossExposure f)).

Definition warnIf (b : bool) (id : string) (severity : WarningSeverity) (reason : string) (source : WarningSource)
    (provenance : Provenance) (basis : string) : list PortfolioWarning :=
  if b then [{| wn_id := id; wn_severity := severity; wn_reason := reason; wn_source := source; wn_provenance := provenance;
                wn_basis := basis |}]
  else [].

Definition overBudget (f : PortfolioFacts) : bool :=
  ngt (pn_riskUsedAbs f) (pn_riskBudgetAbs f) && ngt (pn_riskBudgetAbs f) (nint 0).

Definition gateWarnings (f : PortfolioFacts) (inputs : PortfolioInputs) : list PortfolioWarning :=
  warnIf (pn_killEngaged f) "kill-engaged" WS_CRITICAL "Kill switch engaged — trading globally stopped" WO_control Pv_real
    "killEngaged=true"
  ++ warnIf (isFalse (pn_controlAllowed f)) "control-blocked" WS_CRITICAL "Control plane is BLOCKING trading" WO_control Pv_real
    "controlPermission=BLOCKED"
  ++ match pn_runtimeHealthy f with
     | Some false => warnIf true "runtime-unhealthy" WS_HIGH "Runtime is not HEALTHY — trading gated" WO_runtime Pv_real
         ("runtimeState=" +:+ default "unknown" (bi_runtimeState inputs))
     | None => warnIf true "runtime-unknown" WS_LOW "Runtime state unknown (control plane off / no data) — fail-closed" WO_runtime
         Pv_unavailable "runtimeState=null"
     | Some true => []
     end.

Definition capitalWarnings (f : PortfolioFacts) : list PortfolioWarning :=
  let cfg := pn_config f in
  let text := numToString in
  warnIf (overBudget f) "risk-over-budget" WS_CRITICAL "Portfolio risk exceeds the risk budget" WO_risk Pv_derived
    ("risk $" +:+ text (pn_riskUsedAbs f) +:+ " > budget $" +:+ text (pn_riskBudgetAbs f) +:+ " (" +:+ text (bc_maxPortfolioRiskPct cfg)
      +:+ "% of equity)")
  ++ (let open := (0 <? pn_openCount f)%nat in
      if open && nle (pn_capitalAvailable f) (nint 0) then
        warnIf true "no-capital" WS_HIGH "No capital remaining — book is fully deployed" WO_capital Pv_derived
          ("capitalUsed $" +:+ text (pn_capitalUsed f) +:+ " ≥ equity $" +:+ text (pn_assumedEquity f))
      else warnIf (open && nge (pn_capitalPct f) (bc_capitalWarnPct cfg)) "low-capital" WS_MEDIUM
          "Low capital remaining — most of the book is deployed" WO_capital Pv_derived
          ("capital " +:+ text (pn_capitalPct f) +:+ "% ≥ " +:+ text (bc_capitalWarnPct cfg) +:+ "% threshold")).

Definition exposureWarnings (f : PortfolioFacts) : list PortfolioWarning :=
  let cfg := pn_config f in
  let text := numToString in
  let gross := pn_grossExposure f in
  let '(top, share) := topSymbolSharePct f in
  match top with
  | Some symbol => warnIf (nge share (bc_concentrationWarnPct cfg)) "over-concentrated" WS_MEDIUM
      ("Portfolio over-concentrated in " +:+ symbol) WO_concentration Pv_derived
      (symbol +:+ " " +:+ text share +:+ "% of gross ≥ " +:+ text (bc_concentrationWarnPct cfg) +:+ "% (HHI "
        +:+ text (concentrationScore f) +:+ "/100)")
  | None => []
  end
  ++ (if ngt gross (nint 0) then
        let longPct := percentage (pn_longExposure f) gross in
        let shortPct := percentage (pn_shortExposure f) gross in
        let bound := bc_directionalSkewWarnPct cfg in
        if nge longPct bound then
          warnIf true "long-skew" WS_MEDIUM "Too much long exposure — one-sided book" WO_exposure Pv_derived
            ("long " +:+ text longPct +:+ "% of gross ≥ " +:+ text bound +:+ "%")
        else warnIf (nge shortPct bound) "short-skew" WS_MEDIUM "Too much short exposure — one-sided book" WO_exposure Pv_derived
            ("short " +:+ text shortPct +:+ "% of gross ≥ " +:+ text bound +:+ "%")
      else []).

Definition signalWarnings (f : PortfolioFacts) : list PortfolioWarning :=
  let cfg := pn_config f in
  warnIf ((0 <? pn_totalCount f)%nat && (pn_openCount f =? 0)%nat) "no-actionable" WS_LOW
    "No actionable trades — nothing currently executable" WO_signal Pv_derived
    ("0 OPEN of " +:+ showCount (pn_totalCount f) +:+ " candidates")
  ++ warnIf (0 <? pn_staleCount f)%nat "stale-decisions" WS_MEDIUM "Stale decisions present — past the freshness bound" WO_freshness
    Pv_derived (showCount (pn_staleCount f) +:+ " directional signal(s) stale (> " +:+ numToString (bc_signalStaleSeconds cfg) +:+ "s)")
  ++ warnIf (0 <? pn_lowDqCount f)%nat "low-dq" WS_MEDIUM "Low data quality on one or more signals" WO_data_quality Pv_real
    (showCount (pn_lowDqCount f) +:+ " signal(s) below DQ floor " +:+ numToString (bc_minDqScore cfg)).

Definition countSeverity (s : WarningSeverity) (l : list PortfolioWarning) : nat :=
  countIf (fun w => bool_decide (wn_severity w = s)) l.

Definition buildPortfolioWarnings (inputs : PortfolioInputs) : PortfolioWarnings :=
  let f := derivePortfolioFacts inputs in
  let out := gateWarnings f inputs ++ capitalWarnings f ++ exposureWarnings f ++ signalWarnings f in
  let count s := countSeverity s out in {|
  ww_warnings := out;
  ww_critical := count WS_CRITICAL;
  ww_high := count WS_HIGH;
  ww_medium := count WS_MEDIUM;
  ww_low := count WS_LOW;
  ww_note :=
    match out with
    | [] => "no portfolio warnings"
    | _ => showCount (length out) +:+ " warning(s): " +:+ showCount (count WS_CRITICAL) +:+ " critical, "
        +:+ showCount (count WS_HIGH) +:+ " high, " +:+ showCount (count WS_MEDIUM) +:+ " medium, " +:+ showCount (count WS_LOW)
        +:+ " low"
    end |}.

(** ** health.ts *)

Definition buildPortfolioHealth (inputs : PortfolioInputs) : PortfolioHealth :=
  let f := derivePortfolioFacts inputs in
  let heat := buildRiskHeat inputs in
  let warns := buildPortfolioWarnings inputs in
  let band := rh_heatBand heat in
  let heatText := numToString (rh_heatScore heat) in
  let some n := (0 <? n)%nat in
  let '(status, reasons) :=
    if pn_killEngaged f || isFalse (pn_controlAllowed f) || isFalse (pn_runtimeHealthy f) then
      (BK_BLOCKED,
       alsoIf (pn_killEngaged f) "kill switch engaged"
       ++ alsoIf (isFalse (pn_controlAllowed f)) "control plane BLOCKED"
       ++ alsoIf (isFalse (pn_runtimeHealthy f)) ("runtime not HEALTHY (" +:+ default "unknown" (bi_runtimeState inputs) +:+ ")"))
    else if bool_decide (band = HB_EXTREME) || overBudget f || some (ww_critical warns) then
      (BK_RISK,
       alsoIf (bool_decide (band = HB_EXTREME)) ("risk heat EXTREME (" +:+ heatText +:+ "/100)")
       ++ alsoIf (overBudget f) ("risk $" +:+ numToString (pn_riskUsedAbs f) +:+ " over budget $" +:+ numToString (pn_riskBudgetAbs f))
       ++ alsoIf (some (ww_critical warns)) (showCount (ww_critical warns) +:+ " critical warning(s)"))
    else if bool_decide (band = HB_HOT) || some (ww_high warns) || some (ww_medium warns) then
      (BK_CAUTION,
       alsoIf (bool_decide (band = HB_HOT)) ("risk heat HOT (" +:+ heatText +:+ "/100)")
       ++ alsoIf (some (ww_high warns)) (showCount (ww_high warns) +:+ " high warning(s)")
       ++ alsoIf (some (ww_medium warns)) (showCount (ww_medium warns) +:+ " medium warning(s)"))
    else
      (BK_HEALTHY,
       [if some (pn_openCount f) then
          showCount (pn_openCount f) +:+ " open position(s), heat " +:+ showHeatBand band +:+ ", no elevated warnings"
        else "no open exposure, no elevated warnings"]) in {|
  he_status := status;
  he_reasons := reasons;
  he_runtimeHealthy := pn_runtimeHealthy f;
  he_controlAllowed := pn_controlAllowed f;
  he_killEngaged := pn_killEngaged f;
  he_heatBand := band;
  he_note := "portfolio " +:+ showPortfolioStatus status +:+ " — derived from control/runtime/risk-budget + heat "
    +:+ showHeatBand band +:+ " (no strategy recomputed)" |}.

(** ** summary.ts *)

Definition buildPortfolioSummary (inputs : PortfolioInputs) : PortfolioSummary :=
  let f := derivePortfolioFacts inputs in
  let text := numToString in {|
  bm_currentExposure := pn_grossExposure f;
  bm_longExposure := pn_longExposure f;
  bm_shortExposure := pn_shortExposure f;
  bm_netExposure := pn_netExposure f;
  bm_openTrades := pn_openCount f;
  bm_blockedTrades := pn_blockedCount f;
  bm_waitingTrades := pn_waitingCount f;
  bm_readyTrades := pn_readyCount f;
  bm_flatTrades := pn_flatCount f;
  bm_capitalUsed := pn_capitalUsed f;
  bm_capitalAvailable := pn_capitalAvailable f;
  bm_riskUsed := pn_riskUsedAbs f;
  bm_riskRemaining := pn_riskRemainingAbs f;
  bm_status := he_status (buildPortfolioHealth inputs);
  bm_assumedEquity := pn_assumedEquity f;
  bm_note := showCount (pn_openCount f) +:+ " open / " +:+ showCount (pn_waitingCount f) +:+ " waiting / "
    +:+ showCount (pn_blockedCount f) +:+ " blocked / " +:+ showCount (pn_flatCount f) +:+ " flat of " +:+ showCount (pn_totalCount f)
    +:+ "; capital " +:+ text (pn_capitalPct f) +:+ "% deployed, risk $" +:+ text (pn_riskUsedAbs f) +:+ " of $"
    +:+ text (pn_riskBudgetAbs f) +:+ " budget (assumed equity $" +:+ text (pn_assumedEquity f) +:+ ")" |}.

(** ** portfolio.ts *)

Definition buildPortfolioState (inputs : PortfolioInputs) : PortfolioState :=
  let f := derivePortfolioFacts inputs in {|
  bb_summary := buildPortfolioSummary inputs;
  bb_exposure := buildPortfolioExposure inputs;
  bb_allocation := buildCapitalAllocation inputs;
  bb_heat := buildRiskHeat inputs;
  bb_health := buildPortfolioHealth inputs;
  bb_warnings := buildPortfolioWarnings inputs;
  bb_statistics := buildPortfolioStatistics inputs;
  bb_positions := pn_positions f;
  bb_generatedNote := "derived from " +:+ showCount (pn_totalCount f)
    +:+ " served decision/plan pair(s) (consumed verbatim, nothing re-decided; " +:+ showCount (pn_openCount f) +:+ " open, "
    +:+ showCount (length (pn_directional f)) +:+ " directional)" |}.
