(* ===== verification/DecisionFacts.v ===== *)
(** * DecisionFacts: order, bounds and exactness lemmas of the decision engine and planner

    Monotonicity of the rounded operations the levels are computed with, the bounds of the
    clamps, and what the statuses say about the inputs they were derived from. *)

From S2P Require Import Prelude JsNumber JsNumberFacts JsText JsDecimalFacts JsDecimal Json ExecTypes ExecIntent.
From S2P Require Import StageTypes Signals Served Decision Ranking Planner.

Local Open Scope string_scope.
Local Open Scope list_scope.

(** ** Rounding: the two packages round like the execution core *)

Lemma round_core x dp : round x dp = ExecTypes.round x (Z.of_nat dp).
Proof. reflexivity. Qed.

Lemma plainRound_finite x dp : isFinite (round x dp) = true.
Proof. apply ExecTypes.round_finite. lia. Qed.

Lemma plainRound_sv x dp : isFinite x = true -> sv (round x dp) = RN (sv x) (Z.of_nat dp).
Proof. intros H. apply ExecTypes.round_sv; [lia|done]. Qed.

Lemma round_mono x y dp :
  isFinite x = true -> isFinite y = true -> (sv x <= sv y)%Z -> (sv (round x dp) <= sv (round y dp))%Z.
Proof. intros Hx Hy H. rewrite !plainRound_sv by done. apply RN_mono; lia. Qed.

(** A value between two bounds that round to themselves stays between them. *)
Lemma round_between lo hi x dp :
  isFinite lo = true -> isFinite hi = true -> isFinite x = true -> sv (round lo dp) = sv lo -> sv (round hi dp) = sv hi ->
  (sv lo <= sv x <= sv hi)%Z -> (sv lo <= sv (round x dp) <= sv hi)%Z.
Proof. intros Fl Fh Fx El Eh [H1 H2]. rewrite <- El, <- Eh. split; by apply round_mono. Qed.

(** ** Clamps *)

Lemma clamp_between x lo hi :
  isFinite lo = true -> isFinite hi = true -> (sv lo <= sv hi)%Z ->
  isFinite (clamp x lo hi) = true /\ (sv lo <= sv (clamp x lo hi) <= sv hi)%Z.
Proof.
  intros Fl Fh H. unfold clamp. destruct (isFinite x) eqn:Fx; simpl; [|split; [done|lia]].
  unfold ngt. rewrite !nlt_sv by done.
  destruct (Z.ltb_spec (sv x) (sv lo)); [split; [done|lia]|].
  destruct (Z.ltb_spec (sv hi) (sv x)); split; try done; lia.
Qed.

Lemma clamp01_clamp x : clamp01 x = clamp x (nint 0) (nint 1).
Proof. reflexivity. Qed.

Lemma sv_small z : (0 <= z < 2 ^ 53)%Z -> isFinite (nint z) = true /\ sv (nint z) = (2 ^ 1074 * z)%Z.
Proof. apply nint_sv. Qed.

(** The clamp of the sealed rule agrees with the mirror's on finite Numbers. *)
Lemma clampUnit_finite x : isFinite x = true -> clampUnit x = clamp01 x.
Proof. intros H. unfold clampUnit, clamp01. by rewrite H. Qed.

(** ** The decision rule and its mirror *)

Lemma clamp01_unit x : isFinite (clamp01 x) = true /\ (0 <= sv (clamp01 x) <= unit1)%Z.
Proof.
  rewrite clamp01_clamp. destruct (clamp_between x (nint 0) (nint 1)) as [? H]; [done|done| |by split].
  apply Z.leb_le. evaluate.
Qed.

(** Half of one share plus half of another stays a finite share. *)
Lemma half_shares t r :
  isFinite t = true -> isFinite r = true -> (0 <= sv t <= unit1)%Z -> (0 <= sv r <= unit1)%Z ->
  isFinite (nadd (nmul (ndec 5 1) t) (nmul (ndec 5 1) r)) = true.
Proof.
  intros Ft Fr Ht Hr. assert (wf_number (ndec 5 1)) as W by (apply rnd_wf; lia).
  destruct (nmul_share (ndec 5 1) t) as [Ft' Bt]; [done|done|by apply Z.leb_le; evaluate|done|done|].
  destruct (nmul_share (ndec 5 1) r) as [Fr' Br]; [done|done|by apply Z.leb_le; evaluate|done|done|].
  apply (nadd_finite _ _ (nint 1)); [done|done|apply rnd_wf; lia|done|].
  assert (sv (ndec 5 1) + sv (ndec 5 1) = sv (nint 1))%Z as E by (apply Z.eqb_eq; evaluate). lia.
Qed.

Lemma readFeature_feature features key :
  readFeature features key = match feature features key with inr v => Some v | inl _ => None end.
Proof. unfold readFeature, feature. repeat case_match; congruence. Qed.

Lemma feature_finite features key v : feature features key = inr v -> isFinite v = true.
Proof. unfold feature. repeat case_match; congruence. Qed.

(** ** Generation and the lineage contract *)

Lemma belowFloor_false report :
  belowFloor report = false <-> dq_status report = DQ_PASSED /\ nlt (dq_score report) MIN_DATA_QUALITY_SCORE = false.
Proof.
  unfold belowFloor. rewrite orb_false_iff, bool_decide_eq_false. destruct (dq_status report); [tauto|].
  split; intros [H ?]; [by exfalso; apply H|done].
Qed.

Lemma lineage_valid s input :
  lv_lineageValid (verifySignalLineage s input) = true
  <-> gs_featureSnapshotId s = fs_id (se_featureSnapshot input)
      /\ gs_featureHash s = fs_featureHash (se_featureSnapshot input)
      /\ gs_symbol s = fs_symbol (se_featureSnapshot input)
      /\ gs_dqReportId s = dq_id (se_dqReport input)
      /\ gs_datasetHash s = dq_datasetHash (se_dqReport input)
      /\ gs_strategyVersionId s = sv_id (se_strategyVersion input)
      /\ paramsMatch (Signals.resolveSignalParams (sv_parameters (se_strategyVersion input))) (gs_strategyParams s) = true.
Proof.
  unfold verifySignalLineage. cbn [lv_lineageValid]. rewrite !andb_true_iff, !bool_decide_eq_true. tauto.
Qed.

Lemma finiteOr_finite raw fallback : isFinite fallback = true -> isFinite (finiteOr raw fallback) = true.
Proof. intros H. unfold finiteOr. repeat case_match; done. Qed.

Lemma finiteOr_id n fallback : isFinite n = true -> finiteOr (J_number n) fallback = n.
Proof. intros H. unfold finiteOr. by rewrite H. Qed.

Lemma paramsJson_fields p :
  prop "rsiLongMin" (paramsJson p) = J_number (sp_rsiLongMin p)
  /\ prop "rsiShortMax" (paramsJson p) = J_number (sp_rsiShortMax p)
  /\ prop "maxRealizedVol" (paramsJson p) = J_number (sp_maxRealizedVol p).
Proof. done. Qed.

(** Storing resolved parameters and resolving them again changes nothing. *)
Lemma resolve_stored parameters :
  let p := Signals.resolveSignalParams parameters in
  Signals.resolveSignalParams (paramsJson p) = p /\ paramsMatch p (paramsJson p) = true.
Proof.
  intros p. assert (isFinite (sp_rsiLongMin p) = true /\ isFinite (sp_rsiShortMax p) = true
    /\ isFinite (sp_maxRealizedVol p) = true) as (F1 & F2 & F3) by (split_and!; by apply finiteOr_finite).
  clearbody p. unfold Signals.resolveSignalParams, paramsMatch.
  destruct (paramsJson_fields p) as (-> & -> & ->). split.
  - rewrite !finiteOr_id by done. by destruct p.
  - unfold sameNumber. by rewrite !neq_sv, !Z.eqb_refl by done.
Qed.

(** ** Served measures *)

(** A measure is honest: no value and marked unavailable, or a finite value that is not. *)
Definition honest (m : Measure) : Prop :=
  match me_value m with
  | None => me_provenance m = Pv_unavailable
  | Some v => isFinite v = true /\ me_provenance m <> Pv_unavailable
  end.

Lemma honest_unavailable basis : honest (unavailable basis).
Proof. done. Qed.

Lemma honest_round x dp p basis : p <> Pv_unavailable -> honest (measure (round x dp) p basis).
Proof. intros H. split; [apply plainRound_finite|done]. Qed.

(** The measures of a decision. *)
Definition measuresOf (d : TradingDecision) : list Measure :=
  [td_currentPrice d; td_entryPrice d; td_stopLoss d; td_takeProfit1 d; td_takeProfit2 d; td_takeProfit3 d;
   td_riskRewardRatio d; td_stopDistancePct d; td_positionSize d; td_positionNotional d; td_capitalRiskPercent d;
   td_trendStrength d; td_momentumScore d; td_volatilityScore d; td_liquidityScore d].

Ltac honest_measures :=
  repeat (apply Forall_cons; split);
  first [apply Forall_nil_2 | apply honest_unavailable | by apply honest_round].

Lemma computeLevels_honest direction price atr cfg :
  let l := computeLevels direction price atr cfg in
  Forall honest [lv_entryPrice l; lv_stopLoss l; lv_takeProfit1 l; lv_takeProfit2 l; lv_takeProfit3 l;
                 lv_riskRewardRatio l; lv_stopDistancePct l].
Proof.
  unfold computeLevels. destruct (bool_decide _); [honest_measures|].
  destruct price as [p|]; [|honest_measures]. destruct atr as [a|]; [|honest_measures].
  destruct (nle a (nint 0)); honest_measures.
Qed.

Lemma computeSizing_honest direction entry stop risk :
  let z := computeSizing direction entry stop risk in
  Forall honest [sz_positionSize z; sz_positionNotional z; sz_capitalRiskPercent z].
Proof.
  unfold computeSizing. destruct (bool_decide _); [honest_measures|].
  destruct entry as [e|], stop as [t|]; try honest_measures. destruct (_ || _ || _); honest_measures.
Qed.

Lemma scores_honest features params liq cfg :
  Forall honest [trendScore features; momentumScore features; volatilityScore features params; liquidityScore liq cfg].
Proof.
  unfold trendScore, momentumScore, volatilityScore, liquidityScore.
  repeat (apply Forall_cons; split); [..|apply Forall_nil_2].
  - destruct (readFeature features "ema_20"), (readFeature features "ema_200"); try done.
    destruct (neq _ _); [done|by apply honest_round].
  - destruct (readFeature features "rsi_14"); [by apply honest_round|done].
  - destruct (readFeature features "realized_vol_30"); [by apply honest_round|done].
  - destruct liq as [l|]; [|done]. destruct (liquidityParts l cfg); [done|by apply honest_round].
Qed.

(** ** Statuses *)

(** Levels have a stop exactly for a directional signal with a mark and a positive ATR. *)
Lemma stopLoss_available direction price atr cfg :
  match me_value (lv_stopLoss (computeLevels direction price atr cfg)) with Some _ => true | None => false end = true
  <-> direction <> FLAT /\ is_Some price /\ exists a, atr = Some a /\ nle a (nint 0) = false.
Proof.
  unfold computeLevels. case_bool_decide as Hd; [subst; simpl; split; [done|tauto]|].
  destruct price as [p|]; [|simpl; split; [done|by intros (_ & [? ?] & _)]].
  destruct atr as [a|]; [|simpl; split; [done|by intros (_ & _ & ? & ? & _)]].
  destruct (nle a (nint 0)) eqn:E; simpl.
  - split; [done|]. intros (_ & _ & b & [= <-] & ?). congruence.
  - split; [intros _|done]. split; [done|]. split; [by eexists|by exists a].
Qed.

Lemma controlStatus_allowed control :
  deriveControlStatus control = CT_ALLOWED <-> cx_permission control = Some PM_ALLOWED /\ cx_killEngaged control = false.
Proof.
  unfold deriveControlStatus. destruct (cx_killEngaged control); [split; [done|by intros [_ ?]]|].
  destruct (cx_permission control) as [[]|]; split; try done; by intros [? _].
Qed.

(** A state that is neither waiting nor unknown. *)
Definition settledState (state : option string) : Prop :=
  exists s, state = Some s /\ (s = "HEALTHY" \/ s ∈ BLOCKED_STATES).

Lemma executionStatus_settled control :
  (deriveExecutionStatus control CT_ALLOWED <> XS_WAITING /\ deriveExecutionStatus control CT_ALLOWED <> XS_UNKNOWN)
  <-> settledState (cx_runtimeState control).
Proof.
  unfold deriveExecutionStatus, settledState. destruct (cx_runtimeState control) as [s|].
  - case_bool_decide; [split; [intros _; exists s; auto|done]|].
    case_bool_decide; [split; [intros _; exists s; auto|done]|].
    split; [case_bool_decide; by intros [? _]|]. by intros (? & [= <-] & [?|?]).
  - split; [by intros [? _]|]. by intros (? & ? & _).
Qed.

(** ** Levels *)

(** A signed multiple of the ATR has the sign of its direction, and grows with the multiple. *)
Lemma offset_sign s m a :
  isFinite (nmul (nmul s m) a) = true -> (0 <= sv m)%Z -> (0 <= sv a)%Z ->
  ((0 <= sv s)%Z -> (0 <= sv (nmul (nmul s m) a))%Z) /\ ((sv s <= 0)%Z -> (sv (nmul (nmul s m) a) <= 0)%Z).
Proof.
  intros F Hm Ha. destruct (nmul_finite_inv _ _ F) as [Fsm Fa]. destruct (nmul_finite_inv _ _ Fsm) as [Fs Fm].
  rewrite (nmul_sv _ a), (nmul_sv s m) by done.
  pose proof (RQ_sign (sv s * sv m) unit1 unit1_pos) as [P1 P2].
  pose proof (RQ_sign (RQ (sv s * sv m) unit1 * sv a) unit1 unit1_pos) as [Q1 Q2].
  split; intros Hs; [apply Q1|apply Q2]; [assert (0 <= RQ (sv s * sv m) unit1)%Z by (apply P1; nia)
    |assert (RQ (sv s * sv m) unit1 <= 0)%Z by (apply P2; nia)]; nia.
Qed.

Lemma offset_mono s m m' a :
  isFinite (nmul (nmul s m) a) = true -> isFinite (nmul (nmul s m') a) = true -> (0 <= sv a)%Z -> (sv m <= sv m')%Z ->
  ((0 <= sv s)%Z -> (sv (nmul (nmul s m) a) <= sv (nmul (nmul s m') a))%Z)
  /\ ((sv s <= 0)%Z -> (sv (nmul (nmul s m') a) <= sv (nmul (nmul s m) a))%Z).
Proof.
  intros F F' Ha Hm.
  destruct (nmul_finite_inv _ _ F) as [Fsm Fa], (nmul_finite_inv _ _ F') as [Fsm' _].
  destruct (nmul_finite_inv _ _ Fsm) as [Fs Fm], (nmul_finite_inv _ _ Fsm') as [_ Fm'].
  rewrite (nmul_sv _ a), (nmul_sv s m), (nmul_sv (nmul s m') a), (nmul_sv s m') by done.
  split; intros Hs; apply RQ_mono; try apply unit1_pos; (apply Z.mul_le_mono_nonneg_r; [done|]);
    apply RQ_mono; try apply unit1_pos; nia.
Qed.

(** A level lies on its direction's side of the entry, the stop on the other. *)
Lemma levelAt_side entry s m a :
  wf_number entry -> isFinite (levelAt entry s m a) = true -> (0 <= sv m)%Z -> (0 <= sv a)%Z ->
  ((0 <= sv s)%Z -> (sv entry <= sv (levelAt entry s m a))%Z)
  /\ ((sv s <= 0)%Z -> (sv (levelAt entry s m a) <= sv entry)%Z).
Proof.
  intros W F Hm Ha. destruct (nadd_finite_inv _ _ F) as [_ F']. destruct (offset_sign _ _ _ F' Hm Ha) as [P N].
  split; intros Hs; [apply nadd_above|apply nadd_below]; auto.
Qed.

Lemma stopAt_side entry s m a :
  wf_number entry -> isFinite (stopAt entry s m a) = true -> (0 <= sv m)%Z -> (0 <= sv a)%Z ->
  ((0 <= sv s)%Z -> (sv (stopAt entry s m a) <= sv entry)%Z)
  /\ ((sv s <= 0)%Z -> (sv entry <= sv (stopAt entry s m a))%Z).
Proof.
  intros W F Hm Ha. destruct (nsub_finite_inv _ _ F) as [_ F']. destruct (offset_sign _ _ _ F' Hm Ha) as [P N].
  split; intros Hs; [apply nadd_below|apply nadd_above]; try done; rewrite nneg_sv; lia.
Qed.

Lemma levelAt_mono entry s m m' a :
  isFinite (levelAt entry s m a) = true -> isFinite (levelAt entry s m' a) = true -> (0 <= sv a)%Z -> (sv m <= sv m')%Z ->
  ((0 <= sv s)%Z -> (sv (levelAt entry s m a) <= sv (levelAt entry s m' a))%Z)
  /\ ((sv s <= 0)%Z -> (sv (levelAt entry s m' a) <= sv (levelAt entry s m a))%Z).
Proof.
  intros F F' Ha Hm. destruct (nadd_finite_inv _ _ F) as [_ G], (nadd_finite_inv _ _ F') as [_ G'].
  destruct (offset_mono _ _ _ _ G G' Ha Hm) as [P N]. split; intros Hs; apply nadd_mono; auto.
Qed.

(** Rounding keeps an order. *)
Lemma rounded_in_order dp l :
  Forall (fun x => isFinite x = true) l -> Sorted (fun x y => (sv x <= sv y)%Z) l ->
  Sorted (fun x y => nle x y = true) (List.map (fun x => round x dp) l).
Proof.
  intros HF HS. induction HS as [|x l HS IH Hx]; [constructor|].
  apply Forall_cons in HF as [Fx HF]. constructor; [by apply IH|].
  destruct Hx as [|y l Hxy]; constructor. apply Forall_cons in HF as [Fy _].
  rewrite nle_sv by apply plainRound_finite. apply Z.leb_le. by apply round_mono.
Qed.

Lemma levelAt_multiple entry s m a : isFinite (levelAt entry s m a) = true -> isFinite m = true.
Proof. intros [_ [[_ ?]%nmul_finite_inv _]%nmul_finite_inv]%nadd_finite_inv. done. Qed.

(** ** Facts of a plan *)

Lemma directional_sides ti : f_directional (deriveFacts ti) = f_isLong (deriveFacts ti) || f_isShort (deriveFacts ti).
Proof. unfold deriveFacts. cbn [f_directional f_isLong f_isShort]. by destruct (td_direction (ti_decision ti)). Qed.

Lemma canTrade_facts ti :
  f_canTrade (deriveFacts ti) = f_actionable (deriveFacts ti) && negb (f_hardBlocked (deriveFacts ti)).
Proof. reflexivity. Qed.

(** A trade is on the side of the direction. *)
Lemma actionFor_side ti :
  let f := deriveFacts ti in
  isTradeAction (actionFor f) = true ->
  f_direction f = LONG /\ actionFor f ∈ [STRONG_BUY; BUY_ACTION]
  \/ f_direction f = SHORT /\ actionFor f ∈ [STRONG_SELL; SELL_ACTION].
Proof.
  intros f. unfold actionFor.
  destruct (f_noTrade f), (f_hardBlocked f), (negb (f_actionable f) || f_stale f); try done.
  change (f_isLong f) with (bool_decide (f_direction f = LONG)). change (f_isShort f) with (bool_decide (f_direction f = SHORT)).
  destruct (f_direction f) eqn:Ed, (f_strong f), (f_good f); simpl; intros H; try done; set_solver.
Qed.

Lemma mv_round x dp p basis : is_Some (ExecTypes.mv (Some (measure (round x dp) p basis))).
Proof. unfold ExecTypes.mv, num. simpl. rewrite plainRound_finite. by eexists. Qed.

(** The readiness score is a finite Number, so the intent carries it and its band. *)
Lemma readiness_intent d ti now mode venue :
  let intent := buildExecutionIntent d (buildTradePlan ti) now mode venue in
  is_Some (in_readinessScore intent) /\ is_Some (in_readinessBand intent).
Proof.
  unfold buildExecutionIntent, buildTradePlan, buildTradeReadiness. cbn [in_readinessScore in_readinessBand tp_readiness tr_score].
  rewrite plainRound_finite. split; by eexists.
Qed.

(** ** Ranking *)

Lemma compare_opp_orElse c d c' d' : c' = CompOpp c -> d' = CompOpp d -> orElse c' d' = CompOpp (orElse c d).
Proof. intros -> ->. by destruct c. Qed.

Lemma rankScore_finite c : isFinite (rankScore c) = true.
Proof. apply plainRound_finite. Qed.

(** The order of the board is antisymmetric. *)
Lemma byScore_opp a b :
  isFinite (rd_rankScore a) = true -> isFinite (rd_rankScore b) = true -> byScore b a = CompOpp (byScore a b).
Proof.
  intros Fa Fb. unfold byScore. apply compare_opp_orElse; [|apply compare_opp_orElse; apply String.compare_antisym].
  rewrite !compareNumbers_sv by done. apply Z.compare_antisym.
Qed.

Lemma bucket_perm keep ranked : bucket keep ranked ≡ₚ List.filter keep ranked.
Proof. apply sortBy_perm. Qed.

(** ** Counting the statuses of a checklist *)

Lemma countStatus_total items :
  countStatus CK_PASS items + countStatus CK_FAIL items + countStatus CK_UNKNOWN items = length items.
Proof.
  unfold countStatus. induction items as [|i items IH]; [done|]. simpl.
  destruct (ci_status i); simpl; lia.
Qed.

Lemma countStatus_zero s items : countStatus s items = 0 <-> Forall (fun i => ci_status i <> s) items.
Proof.
  unfold countStatus. induction items as [|i items IH]; [done|]. simpl. rewrite Forall_cons.
  case_bool_decide; simpl; [|tauto]. split; [done|]. intros [? _]. done.
Qed.

Lemma readiness_range inputs :
  nle (nint 0) (tr_score (buildTradeReadiness inputs)) = true /\ nle (tr_score (buildTradeReadiness inputs)) (nint 100) = true.
Proof.
  unfold buildTradeReadiness. cbn [tr_score]. generalize (sumOf rp_earned (readinessComponents (deriveFacts inputs) inputs)).
  intros x. destruct (clamp_between x (nint 0) (nint 100)) as [F B]; [done|done|by apply Z.leb_le; evaluate|].
  rewrite !nle_sv by (done || apply plainRound_finite).
  destruct (round_between (nint 0) (nint 100) (clamp x (nint 0) (nint 100)) 1) as [L U]; [done|done|done|evaluate|evaluate|done|].
  split; by apply Z.leb_le.
Qed.

Lemma checklist_passes inputs :
  ec_allPass (buildExecutionChecklist inputs) = true
  <-> Forall (fun i => ci_status i = CK_PASS) (ec_items (buildExecutionChecklist inputs)).
Proof.
  unfold buildExecutionChecklist. cbn [ec_allPass ec_items]. generalize (checklistItems (deriveFacts inputs) inputs).
  intros items. rewrite andb_true_iff, !bool_decide_eq_true, !countStatus_zero, <- Forall_and.
  apply Forall_iff. intros i. destruct (ci_status i); split; try done; by intros [? ?].
Qed.
