(* ===== verification/DecisionProps.v ===== *)
(** * DecisionProps: what the decision engine, the planner and the signal engine promise

    The properties of the decision rule and its mirror, of generation and replay, of the
    served decision and its levels, of the plan built on it, and of the ranking. *)

From S2P Require Import Prelude JsNumber JsNumberFacts JsText JsDecimalFacts JsDecimal Json ExecTypes ExecIntent.
From S2P Require Import StageTypes Signals Served Decision Ranking Planner DecisionFacts.

Local Open Scope string_scope.
Local Open Scope list_scope.

(** ** The sealed rule and its mirror *)

(** The three ratios the confidences are clamped from. *)
Definition ratiosFinite (features : Json) (params : SignalParams) : Prop :=
  forall ema20 ema200 rsi vol,
    readFeature features "ema_20" = Some ema20 -> readFeature features "ema_200" = Some ema200 ->
    readFeature features "rsi_14" = Some rsi -> readFeature features "realized_vol_30" = Some vol ->
    isFinite (ndiv (nabs (nsub ema20 ema200)) (nabs ema200)) = true
    /\ isFinite (ndiv (nabs (nsub rsi (nint 50))) (nint 50)) = true
    /\ isFinite (ndiv (nsub vol (sp_maxRealizedVol params)) (sp_maxRealizedVol params)) = true.

(** The mirror of the decision rule accepts exactly the feature vectors the sealed rule
    accepts, with the same side and decision; and the same confidence whenever the ratios
    it is computed from are finite. *)
Theorem rule_mirror_exact features params :
  match decideSignal features params, applyRule features params with
  | inl _, None => True
  | inr sealed, Some mirror =>
      ru_side mirror = sd_side sealed /\ ru_decision mirror = sd_decision sealed
      /\ (ratiosFinite features params -> ru_confidence mirror = sd_confidence sealed)
  | _, _ => False
  end.
Proof.
  unfold decideSignal, applyRule, ratiosFinite. rewrite !readFeature_feature.
  destruct (feature features "ema_20") as [|ema20] eqn:E1; [done|].
  destruct (feature features "ema_50") as [|ema50]; [done|].
  destruct (feature features "ema_200") as [|ema200] eqn:E3; [done|].
  destruct (feature features "rsi_14") as [|rsi] eqn:E4; [done|].
  destruct (feature features "realized_vol_30") as [|vol] eqn:E5; [done|].
  split; [done|]. split; [done|]. intros H. destruct (H _ _ _ _ eq_refl eq_refl eq_refl eq_refl) as (F1 & F2 & F3).
  unfold ruleOf. cbn [sd_confidence ru_confidence].
  rewrite (clampUnit_finite _ F1), (clampUnit_finite _ F2), (clampUnit_finite _ F3).
  destruct (clamp01_unit (ndiv (nabs (nsub ema20 ema200)) (nabs ema200))) as [G1 B1].
  destruct (clamp01_unit (ndiv (nabs (nsub rsi (nint 50))) (nint 50))) as [G2 B2].
  by rewrite clampUnit_finite by (by apply half_shares).
Qed.

(** With a zero slow average the sealed rule's trend strength is 1 and the mirror's 0. *)
Definition flatAverage : Json :=
  J_object [("ema_20", J_number (nint 2)); ("ema_50", J_number (nint 1)); ("ema_200", J_number (nint 0));
            ("rsi_14", J_number (nint 60)); ("realized_vol_30", J_number (ndec 1 2))].

Example mirror_diverges :
  sd_confidence <$> (match decideSignal flatAverage DEFAULT_SIGNAL_PARAMS with inr r => Some r | inl _ => None end) = Some (ndec 6 1)
  /\ ru_confidence <$> applyRule flatAverage DEFAULT_SIGNAL_PARAMS = Some (ndec 1 1).
Proof. split; evaluate. Qed.

(** ** Generation and replay *)

(** The recorded signal is the one its artifacts give: every link and verbatim copy holds,
    the stored parameters are those in force, the report passes the floor, and the rule
    over the stored parameters yields the recorded side, decision and confidence. *)
Definition reproduced (s : GeneratedSignal) (input : SignalEngineInput) : Prop :=
  gs_featureSnapshotId s = fs_id (se_featureSnapshot input)
  /\ gs_featureHash s = fs_featureHash (se_featureSnapshot input)
  /\ gs_symbol s = fs_symbol (se_featureSnapshot input)
  /\ gs_dqReportId s = dq_id (se_dqReport input)
  /\ gs_datasetHash s = dq_datasetHash (se_dqReport input)
  /\ gs_strategyVersionId s = sv_id (se_strategyVersion input)
  /\ paramsMatch (Signals.resolveSignalParams (sv_parameters (se_strategyVersion input))) (gs_strategyParams s) = true
  /\ dq_status (se_dqReport input) = DQ_PASSED
  /\ nlt (dq_score (se_dqReport input)) MIN_DATA_QUALITY_SCORE = false
  /\ exists r, decideSignal (fs_features (se_featureSnapshot input)) (Signals.resolveSignalParams (gs_strategyParams s)) = inr r
       /\ gs_side s = sd_side r /\ gs_decision s = sd_decision r
       /\ gs_confidence s = quantizeConfidence (sd_confidence r).

(** Replaying a stored signal reports MATCH exactly when its artifacts reproduce it; in
    particular whatever the engine generates replays to MATCH against the artifacts it was
    generated from, under any row id. *)
Theorem replay_exact signal input :
  (rr_replayResult (replayEngineSignal signal input) = MATCH <-> reproduced (pg_signal signal) input)
  /\ (generateSignal input = Generated (pg_signal signal) -> rr_replayResult (replayEngineSignal signal input) = MATCH).
Proof.
  assert (rr_replayResult (replayEngineSignal signal input) = MATCH <-> reproduced (pg_signal signal) input) as K.
  { unfold replayEngineSignal, reproduced. cbv zeta.
    pose proof (lineage_valid (pg_signal signal) input) as HL.
    destruct (lv_lineageValid _); simpl; [|split; [done|]; intros (?&?&?&?&?&?&?&_); by assert (false = true) by (apply HL; by split_and!)].
    pose proof (belowFloor_false (se_dqReport input)) as HF.
    destruct (belowFloor _); simpl; [split; [done|]; intros (_&_&_&_&_&_&_&?&?&_); by assert (true = false) by (apply HF; by split)|].
    destruct (proj1 HL eq_refl) as (?&?&?&?&?&?&?). destruct (proj1 HF eq_refl) as [? ?]. clear HL HF.
    destruct (decideSignal _ _) as [m|r] eqn:E; simpl.
    - split; [done|]. intros (_&_&_&_&_&_&_&_&_&r&?&_). congruence.
    - destruct (_ && _ && _) eqn:Em; simpl.
      + bool_hyps. split; [intros _|done]. split_and!; try done. exists r. by split_and!.
      + split; [done|]. intros (_&_&_&_&_&_&_&_&_&r'&Er&E1&E2&E3). injection Er as <-.
        by rewrite E1, E2, E3, !bool_decide_true in Em. }
  split; [exact K|]. intros G. apply K. unfold generateSignal in G.
  destruct (belowFloor _) eqn:EF; [done|]. apply belowFloor_false in EF as [? ?].
  destruct (decideSignal _ _) as [m|r] eqn:E; [done|]. injection G as G. rewrite <- G.
  destruct (resolve_stored (sv_parameters (se_strategyVersion input))) as [R1 R2].
  unfold reproduced. simpl. split_and!; try done. exists r. rewrite R1. by split_and!.
Qed.

(** ** The served decision *)

Section decision.
(** The time values of date texts. *)
Context (timeOf : string -> number).

Lemma build_measures inputs : Forall honest (measuresOf (buildTradingDecision timeOf inputs)).
Proof.
  unfold measuresOf, buildTradingDecision. cbv zeta.
  pose proof (computeLevels_honest (sj_decision (dn_signal inputs)) (dn_price inputs)
    (readFeature (dn_features inputs) "atr_14") (decisionConfig (dn_config inputs))) as HL.
  pose proof (computeSizing_honest (sj_decision (dn_signal inputs))
    (me_value (lv_entryPrice (computeLevels (sj_decision (dn_signal inputs)) (dn_price inputs)
      (readFeature (dn_features inputs) "atr_14") (decisionConfig (dn_config inputs)))))
    (me_value (lv_stopLoss (computeLevels (sj_decision (dn_signal inputs)) (dn_price inputs)
      (readFeature (dn_features inputs) "atr_14") (decisionConfig (dn_config inputs))))) (dn_risk inputs)) as HZ.
  pose proof (scores_honest (dn_features inputs) (sj_strategyParams (dn_signal inputs)) (dn_liquidity inputs)
    (decisionConfig (dn_config inputs))) as HS.
  constructor; [cbn; case_match; [by apply honest_round|done]|].
  apply (Forall_app_2 _ [_; _; _; _; _; _; _] _ HL), (Forall_app_2 _ [_; _; _] _ HZ), HS.
Qed.

(** When the overall status of a served decision is ACTIONABLE. *)
Definition actionableInputs (inputs : DecisionInputs) : Prop :=
  sj_decision (dn_signal inputs) <> FLAT
  /\ cx_permission (dn_control inputs) = Some PM_ALLOWED /\ cx_killEngaged (dn_control inputs) = false
  /\ settledState (cx_runtimeState (dn_control inputs))
  /\ rv_status (td_riskStatus (buildTradingDecision timeOf inputs)) <> RK_BLOCKED
  /\ is_Some (dn_price inputs)
  /\ exists atr, readFeature (dn_features inputs) "atr_14" = Some atr /\ nle atr (nint 0) = false.

(** The overall status is ACTIONABLE exactly on these inputs. *)
Lemma build_actionable inputs :
  td_overallStatus (buildTradingDecision timeOf inputs) = OV_ACTIONABLE <-> actionableInputs inputs.
Proof.
  set (s := dn_signal inputs). set (d := buildTradingDecision timeOf inputs).
  assert (td_overallStatus d = deriveOverallStatus (sj_decision s) (deriveControlStatus (dn_control inputs))
    (rv_status (td_riskStatus d)) (deriveExecutionStatus (dn_control inputs) (deriveControlStatus (dn_control inputs)))
    match me_value (lv_stopLoss (computeLevels (sj_decision s) (dn_price inputs)
      (readFeature (dn_features inputs) "atr_14") (decisionConfig (dn_config inputs)))) with
    | Some _ => true | None => false end) as -> by done.
  unfold actionableInputs. fold d s. generalize (rv_status (td_riskStatus d)). intros risk.
  pose proof (stopLoss_available (sj_decision s) (dn_price inputs) (readFeature (dn_features inputs) "atr_14")
    (decisionConfig (dn_config inputs))) as HS.
  pose proof (controlStatus_allowed (dn_control inputs)) as HC.
  pose proof (executionStatus_settled (dn_control inputs)) as HE.
  revert HS. generalize (match me_value (lv_stopLoss (computeLevels (sj_decision s) (dn_price inputs)
      (readFeature (dn_features inputs) "atr_14") (decisionConfig (dn_config inputs)))) with
    | Some _ => true | None => false end). intros complete HS.
  unfold deriveOverallStatus.
  case_bool_decide as Hd; [split; [done|tauto]|].
  destruct (deriveControlStatus (dn_control inputs)) eqn:EC; simpl.
  - case_bool_decide as Hr; [split; [done|tauto]|].
    destruct (bool_decide (_ = XS_WAITING) || _) eqn:EX.
    + split; [done|]. intros (_ & _ & _ & Hs & _). apply HE in Hs as [? ?].
      apply orb_true_iff in EX. rewrite !bool_decide_eq_true in EX. tauto.
    + apply orb_false_iff in EX. rewrite !bool_decide_eq_false in EX. apply HE in EX.
      destruct (proj1 HC eq_refl). destruct complete; simpl.
      * destruct (proj1 HS eq_refl) as (_ & ? & ?). tauto.
      * split; [done|]. intros (_ & _ & _ & _ & _ & Hp & Ha). by assert (false = true) by (apply HS; exact (conj Hd (conj Hp Ha))).
  - split; [done|]. intros (_ & Hp & Hk & _). by assert (CT_BLOCKED = CT_ALLOWED) by (apply HC; by split).
  - split; [by repeat case_bool_decide|]. intros (_ & Hp & Hk & _).
    by assert (CT_UNKNOWN = CT_ALLOWED) by (apply HC; by split).
Qed.

(** A served decision carries its signal verbatim; every measure it serves is unavailable
    and marked so, or finite and not (never a NaN, never a made-up provenance); and it is
    ACTIONABLE exactly for a directional signal with trading allowed, no kill switch, a
    runtime state that is HEALTHY or one of the blocked states, a risk status that is not
    BLOCKED, a mark, and a positive ATR. *)
Theorem decision_sound inputs :
  let d := buildTradingDecision timeOf inputs in
  let s := dn_signal inputs in
  (td_signalId d = sj_id s /\ td_symbol d = sj_symbol s /\ td_direction d = sj_decision s /\ td_bias d = sj_side s
   /\ td_confidence d = sj_confidence s /\ td_featureHash d = sj_featureHash s /\ td_datasetHash d = sj_datasetHash s
   /\ td_strategyVersionId d = sj_strategyVersionId s)
  /\ Forall honest (measuresOf d)
  /\ (td_overallStatus d = OV_ACTIONABLE <-> actionableInputs inputs).
Proof.
  intros d s. split; [done|]. split; [apply build_measures|apply build_actionable].
Qed.

(** *** From the inputs of a decision to the submit gate of the execution core *)

(** The plan judges the served signal worth trading: nothing it reads is stale, and the
    conviction or the reward-to-risk ratio reaches its threshold. *)
Definition worthTrading (ti : TradePlanInputs) : Prop :=
  let f := deriveFacts ti in
  f_signalFresh f <> Some false /\ f_featureFresh f <> Some false /\ (f_strong f = true \/ f_good f = true).

Lemma isFalse_false t : isFalse t = false <-> t <> Some false.
Proof. by destruct t as [[]|]. Qed.

(** The facts of a plan over a decision the engine built. *)
Lemma actionable_facts inputs ti :
  ti_decision ti = buildTradingDecision timeOf inputs ->
  let f := deriveFacts ti in
  f_noTrade f = false /\ f_hardBlocked f = false /\ f_actionable f = true
  <-> actionableInputs inputs /\ ti_killEngaged ti = false.
Proof.
  intros E f. subst f. rewrite <- build_actionable, <- E. unfold deriveFacts. cbn [f_noTrade f_hardBlocked f_actionable].
  split.
  - intros (_ & _ & H). bool_hyps. by destruct (ti_killEngaged ti).
  - intros [H ->]. rewrite H. simpl.
    assert (td_controlStatus (ti_decision ti) <> CT_BLOCKED /\ rv_status (td_riskStatus (ti_decision ti)) <> RK_BLOCKED
      /\ td_direction (ti_decision ti) <> FLAT) as (H1 & H2 & H3).
    { rewrite E in H |- *. pose proof (proj1 (build_actionable inputs) H) as (K1 & K2 & K3 & _ & K4 & _).
      split_and!; [|done|done].
      change (deriveControlStatus (dn_control inputs) <> CT_BLOCKED).
      by rewrite (proj2 (controlStatus_allowed (dn_control inputs)) (conj K2 K3)). }
    by rewrite bool_decide_true, !bool_decide_false by done.
Qed.

(** When the action of a plan is a trade. *)
Lemma actionFor_trades f :
  f_directional f = f_isLong f || f_isShort f ->
  isTradeAction (actionFor f) = true
  <-> (f_noTrade f = false /\ f_hardBlocked f = false /\ f_actionable f = true) /\ f_stale f = false
      /\ f_directional f = true /\ (f_strong f = true \/ f_good f = true).
Proof.
  intros ->. unfold actionFor.
  destruct (f_noTrade f); [split; [done|by intros ((? & _) & _)]|].
  destruct (f_hardBlocked f); [split; [done|by intros ((_ & ? & _) & _)]|].
  destruct (f_actionable f); simpl; [|split; [done|by intros ((_ & _ & ?) & _)]].
  destruct (f_stale f); [split; [done|by intros (_ & ? & _)]|].
  destruct (f_isLong f), (f_isShort f), (f_strong f), (f_good f); simpl; split; try done; intuition done.
Qed.

(** The levels of an actionable decision reach the intent. *)
Lemma actionable_levels inputs :
  actionableInputs inputs ->
  let d := buildTradingDecision timeOf inputs in
  is_Some (ExecTypes.mv (Some (td_entryPrice d))) /\ is_Some (ExecTypes.mv (Some (td_stopLoss d)))
  /\ collectTargets d <> [].
Proof.
  intros (Hd & _ & _ & _ & _ & [p Hp] & a & Ha & Hpos) d.
  assert (Forall (fun m => is_Some (ExecTypes.mv (Some m))) [td_entryPrice d; td_stopLoss d; td_takeProfit1 d]) as HF.
  { unfold d, buildTradingDecision. cbn [td_entryPrice td_stopLoss td_takeProfit1]. rewrite Hp, Ha. unfold computeLevels.
    rewrite bool_decide_false, Hpos by done. cbn [lv_entryPrice lv_stopLoss lv_takeProfit1].
    repeat (apply Forall_cons; split); [..|apply Forall_nil_2]; apply mv_round. }
  rewrite !Forall_cons in HF. destruct HF as (? & ? & [t Ht] & _). split_and!; [done|done|].
  unfold collectTargets. rewrite Ht. by destruct (ExecTypes.mv _), (ExecTypes.mv _).
Qed.

(** C26. An intent built from a decision of the engine and the plan over it passes the submit
    gate exactly when the inputs are actionable, the kill switch is off for the planner
    too, and the plan judges the signal worth trading; the action it then carries buys for
    a long and sells for a short. *)
Theorem planned_intent_gate inputs ti now mode venue :
  ti_decision ti = buildTradingDecision timeOf inputs ->
  let plan := buildTradePlan ti in
  let intent := buildExecutionIntent (ti_decision ti) plan now mode venue in
  (checkSubmittable intent = None <-> actionableInputs inputs /\ ti_killEngaged ti = false /\ worthTrading ti)
  /\ (checkSubmittable intent = None ->
      in_direction intent = LONG /\ in_action intent ∈ [STRONG_BUY; BUY_ACTION]
      \/ in_direction intent = SHORT /\ in_action intent ∈ [STRONG_SELL; SELL_ACTION]).
Proof.
  intros E plan intent. pose proof (actionable_facts inputs ti E) as HA.
  pose proof (actionFor_trades (deriveFacts ti) (directional_sides ti)) as HT.
  assert (submit_ready intent -> isTradeAction (actionFor (deriveFacts ti)) = true) as HR by (intros []; done).
  rewrite checkSubmittable_None. split; [split|].
  - intros R. apply HR, HT in R as (A & S & _ & G). apply HA in A as [A K].
    apply orb_false_iff in S as [S1 S2]. split; [done|]. split; [done|].
    split_and!; [by apply isFalse_false|by apply isFalse_false|done].
  - intros (A & K & S1 & S2 & G). pose proof (actionable_levels inputs A) as (L1 & L2 & L3).
    assert (f_noTrade (deriveFacts ti) = false /\ f_hardBlocked (deriveFacts ti) = false
      /\ f_actionable (deriveFacts ti) = true) as (B1 & B2 & B3) by (apply HA; by split).
    assert (isTradeAction (actionFor (deriveFacts ti)) = true) as T.
    { apply HT. split_and!; try done.
      - apply orb_false_iff. split; by apply isFalse_false.
      - apply bool_decide_eq_true. cbn. rewrite E. by destruct A. }
    rewrite <- E in L1, L2, L3. split; try done.
    + change (actionFor (deriveFacts ti) <> NO_TRADE). by destruct (actionFor _).
    + change (f_canTrade (deriveFacts ti) = true). by rewrite canTrade_facts, B2, B3.
    + apply readiness_intent.
    + apply readiness_intent.
  - intros R. apply HR in R. change (in_direction intent) with (f_direction (deriveFacts ti)).
    change (in_action intent) with (actionFor (deriveFacts ti)). by apply actionFor_side.
Qed.
End decision.

(** ** Entry, stop and targets *)

(** Multiples of the ATR that are not negative, the targets in increasing order. *)
Definition orderedMultiples (cfg : DecisionConfig) : Prop :=
  nle (nint 0) (dg_atrStopMult cfg) = true /\ nle (nint 0) (dg_atrTp1Mult cfg) = true
  /\ nle (dg_atrTp1Mult cfg) (dg_atrTp2Mult cfg) = true /\ nle (dg_atrTp2Mult cfg) (dg_atrTp3Mult cfg) = true.

Definition signOfDirection (d : SignalDecision) : number := if bool_decide (d = LONG) then nint 1 else nint (-1).

(** No level overflows. *)
Definition levelsFinite (d : SignalDecision) (entry atr : number) (cfg : DecisionConfig) : Prop :=
  let s := signOfDirection d in
  isFinite (stopAt entry s (dg_atrStopMult cfg) atr) = true /\ isFinite (levelAt entry s (dg_atrTp1Mult cfg) atr) = true
  /\ isFinite (levelAt entry s (dg_atrTp2Mult cfg) atr) = true /\ isFinite (levelAt entry s (dg_atrTp3Mult cfg) atr) = true.

Definition valuesInOrder (l : list number) : Prop := Sorted (fun x y => nle x y = true) l.

(** For a directional signal with a mark and a positive ATR, the served stop, entry and
    targets are in the order of the direction: a long stops at or below its entry and
    takes profit at or above it, each target no nearer than the one before, and a short
    is the mirror image, after rounding to the price decimals. *)
Theorem levels_ordered direction price atr cfg :
  direction <> FLAT -> wf_number (pc_price price) -> nle atr (nint 0) = false -> orderedMultiples cfg ->
  levelsFinite direction (pc_price price) atr cfg ->
  let l := computeLevels direction (Some price) (Some atr) cfg in
  exists stop entry tp1 tp2 tp3,
    me_value (lv_stopLoss l) = Some stop /\ me_value (lv_entryPrice l) = Some entry
    /\ me_value (lv_takeProfit1 l) = Some tp1 /\ me_value (lv_takeProfit2 l) = Some tp2
    /\ me_value (lv_takeProfit3 l) = Some tp3
    /\ valuesInOrder (if bool_decide (direction = LONG) then [stop; entry; tp1; tp2; tp3]
                      else [tp3; tp2; tp1; entry; stop]).
Proof.
  intros Hd W Ha (HS & H1 & H2 & H3) (FS & F1 & F2 & F3) l.
  assert (isFinite (nmul (signOfDirection direction) (dg_atrStopMult cfg)) = true /\ isFinite atr = true) as [G0 Fa].
  { apply nsub_finite_inv in FS as [_ FS]. by apply nmul_finite_inv in FS. }
  apply nmul_finite_inv in G0 as [_ G0].
  pose proof (levelAt_multiple _ _ _ _ F1) as G1. pose proof (levelAt_multiple _ _ _ _ F2) as G2.
  pose proof (levelAt_multiple _ _ _ _ F3) as G3.
  rewrite nle_sv in HS, H1, H2, H3, Ha by done. apply Z.leb_le in HS, H1, H2, H3. apply Z.leb_gt in Ha.
  change (sv (nint 0)) with 0%Z in *.
  assert (isFinite (pc_price price) = true) as Fe by exact (proj1 (nadd_finite_inv _ _ F1)).
  destruct (stopAt_side _ _ _ _ W FS HS ltac:(lia)) as [PS NS].
  destruct (levelAt_side _ _ _ _ W F1 H1 ltac:(lia)) as [P1 N1].
  destruct (levelAt_mono _ _ _ _ _ F1 F2 ltac:(lia) H2) as [P2 N2].
  destruct (levelAt_mono _ _ _ _ _ F2 F3 ltac:(lia) H3) as [P3 N3].
  assert (nle atr (nint 0) = false) as Ha' by (rewrite nle_sv by done; by apply Z.leb_gt).
  unfold l, computeLevels. rewrite bool_decide_false, Ha' by done. do 5 eexists. split_and!; [reflexivity..|].
  unfold signOfDirection in *. unfold valuesInOrder.
  destruct (bool_decide (direction = LONG)) eqn:E.
  - assert (0 <= sv (nint 1))%Z as Hs by done.
    apply (rounded_in_order _ [_; _; _; _; _]); [by repeat constructor|].
    repeat constructor; auto.
  - assert (sv (nint (-1)) <= 0)%Z as Hs by (apply Z.leb_le; evaluate).
    apply (rounded_in_order _ [_; _; _; _; _]); [by repeat constructor|].
    repeat constructor; auto.
Qed.

(** ** The opportunity board *)

(** The score does not grow along a bucket, and ties are in symbol, then timeframe order. *)
Definition ranksBefore (a b : RankedDecision) : Prop :=
  nle (rd_rankScore b) (rd_rankScore a) = true /\ byScore a b <> Gt.

Lemma bucket_sorted keep items : Sorted ranksBefore (bucket keep (List.map toRanked items)).
Proof.
  set (scored := fun r => isFinite (rd_rankScore r) = true).
  assert (Forall scored (List.filter keep (List.map toRanked items))) as HF.
  { apply Forall_forall. intros r. rewrite list_elem_of_In, filter_In, in_map_iff.
    intros [([d q] & <- & _) _]. apply rankScore_finite. }
  assert (Forall scored (bucket keep (List.map toRanked items))) as HB by (unfold bucket; by rewrite sortBy_perm).
  pose proof (sortBy_sorted byScore scored _
    (fun a b Fa Fb E => ltac:(rewrite (byScore_opp a b Fa Fb), E; done)) HF) as HS.
  fold (bucket keep (List.map toRanked items)) in HS. revert HS HB.
  generalize (bucket keep (List.map toRanked items)). intros l HS.
  induction HS as [|a l HS IH Ha]; intros HB; [constructor|]. apply Forall_cons in HB as [Fa HB].
  constructor; [by apply IH|]. destruct Ha as [|b l Hab]; constructor. apply Forall_cons in HB as [Fb _].
  split; [|done]. rewrite nle_sv by done. apply Z.leb_le.
  unfold byScore in Hab. rewrite compareNumbers_sv in Hab by done.
  destruct (Z.compare_spec (sv (rd_rankScore b)) (sv (rd_rankScore a))); simpl in Hab; [lia..|done].
Qed.

(** Five selections of which exactly one takes each element are a rearrangement of the list. *)
Lemma partition5 {A} (p1 p2 p3 p4 p5 : A -> bool) l :
  Forall (fun x => (if p1 x then 1 else 0) + (if p2 x then 1 else 0) + (if p3 x then 1 else 0)
                   + (if p4 x then 1 else 0) + (if p5 x then 1 else 0) = 1) l ->
  List.filter p1 l ++ List.filter p2 l ++ List.filter p3 l ++ List.filter p4 l ++ List.filter p5 l ≡ₚ l.
Proof.
  induction 1 as [|x l Hx H IH]; [done|]. simpl.
  destruct (p1 x), (p2 x), (p3 x), (p4 x), (p5 x); try done; rewrite <- IH at 6; solve_Permutation.
Qed.

(** Every ranked decision is on the board exactly once; each bucket is in ranking order;
    and only complete, actionable decisions of its direction are a top opportunity. *)
Theorem board_partition items :
  let board := rankOpportunities items in
  ob_topLong board ++ ob_topShort board ++ ob_watchlist board ++ ob_blocked board ++ ob_waiting board
    ≡ₚ List.map toRanked items
  /\ ob_total board = length items
  /\ Forall (Sorted ranksBefore) [ob_topLong board; ob_topShort board; ob_watchlist board; ob_blocked board; ob_waiting board]
  /\ Forall (fun r => rd_overallStatus r = OV_ACTIONABLE /\ rd_direction r = LONG) (ob_topLong board)
  /\ Forall (fun r => rd_overallStatus r = OV_ACTIONABLE /\ rd_direction r = SHORT) (ob_topShort board).
Proof.
  cbn [rankOpportunities ob_topLong ob_topShort ob_watchlist ob_blocked ob_waiting ob_total]. split_and!.
  - rewrite !bucket_perm. apply partition5, Forall_forall. intros r _. unfold isTop, isBlocked, isWaiting.
    by destruct (rd_overallStatus r), (rd_direction r).
  - by rewrite length_map.
  - repeat (apply Forall_cons; split); try apply bucket_sorted. apply Forall_nil_2.
  - unfold isTop. rewrite bucket_perm. apply Forall_forall. intros r.
    rewrite list_elem_of_In, filter_In. intros [_ H]. bool_hyps. done.
  - unfold isTop. rewrite bucket_perm. apply Forall_forall. intros r.
    rewrite list_elem_of_In, filter_In. intros [_ H]. bool_hyps. done.
Qed.

(** ** The sections of a plan *)

(** The readiness score is a finite Number between 0 and 100 and its band is the one of the
    score; the counts of the execution checklist add up, and it passes exactly when every
    item passes (an unknown fact never passes). *)
Theorem plan_sections_sound inputs :
  let readiness := tp_readiness (buildTradePlan inputs) in
  let checklist := tp_execution (buildTradePlan inputs) in
  (isFinite (tr_score readiness) = true /\ nle (nint 0) (tr_score readiness) = true
   /\ nle (tr_score readiness) (nint 100) = true
   /\ tr_band readiness = bandFor (tr_score readiness) (resolveConfig (ti_config inputs)))
  /\ ec_passed checklist + ec_failed checklist + ec_unknown checklist = length (ec_items checklist)
  /\ (ec_allPass checklist = true <-> Forall (fun i => ci_status i = CK_PASS) (ec_items checklist)).
Proof.
  intros readiness checklist. split_and!; try done.
  - apply plainRound_finite.
  - apply readiness_range.
  - apply readiness_range.
  - apply countStatus_total.
  - apply checklist_passes.
Qed.

(** ** A concrete long signal, from its features to the submit gate *)

Module LongSignal.
Definition timeOf (_ : string) : number := nint 1700000000000.

Definition features : Json :=
  J_object [("ema_20", J_number (nint 130)); ("ema_50", J_number (nint 120)); ("ema_200", J_number (nint 50));
            ("rsi_14", J_number (nint 90)); ("realized_vol_30", J_number (ndec 5 3)); ("atr_14", J_number (nint 2))].

Definition signal : SignalProjection := {|
  sj_id := "sig-1"; sj_symbol := "BTC-PERP"; sj_side := LONG; sj_decision := LONG; sj_confidence := ndec 9 1;
  sj_featureHash := "fh"; sj_datasetHash := "dh"; sj_strategyVersionId := "sv";
  sj_strategyParams := DEFAULT_SIGNAL_PARAMS; sj_createdAt := "2023-11-14T22:13:20.000Z" |}.

Definition price : PriceObservation := {| pc_price := nint 100; pc_ts := "t"; pc_source := "BINANCE" |}.

(** The decision inputs with this runtime state and account size. *)
Definition inputs (state : string) (maxNotional : number) : DecisionInputs := {|
  dn_now := nint 1700000001000; dn_signal := signal; dn_features := features; dn_featureTs := Some "t";
  dn_timeframe := M15; dn_dqScore := nint 100; dn_price := Some price; dn_liquidity := None;
  dn_risk := {| rk_assumedEquity := nint 100000; rk_riskFraction := ndec 1 2; rk_leverage := nint 1;
                rk_maxNotional := maxNotional; rk_systemRiskMode := None |};
  dn_control := {| cx_permission := Some PM_ALLOWED; cx_runtimeState := Some state; cx_killEngaged := false;
                   cx_blockedReasons := [] |};
  dn_config := None |}.

Definition planInputs (state : string) : TradePlanInputs := {|
  ti_now := nint 1700000001000; ti_decision := buildTradingDecision timeOf (inputs state (nint 1000000));
  ti_dqScore := Some (nint 100); ti_runtimeState := Some state; ti_killEngaged := false; ti_config := None |}.
End LongSignal.

Lemma levels_ordered_witness :
  levelsFinite LONG (nint 100) (nint 2) DEFAULT_DECISION_CONFIG
  /\ exists stop entry tp1 tp2 tp3, valuesInOrder [stop; entry; tp1; tp2; tp3]
     /\ me_value (lv_stopLoss (computeLevels LONG (Some LongSignal.price) (Some (nint 2)) DEFAULT_DECISION_CONFIG)) = Some stop.
Proof.
  assert (levelsFinite LONG (nint 100) (nint 2) DEFAULT_DECISION_CONFIG) as HF by (split_and!; evaluate).
  split; [exact HF|].
  destruct (levels_ordered LONG LongSignal.price (nint 2) DEFAULT_DECISION_CONFIG) as (stop & entry & tp1 & tp2 & tp3 & H & _ & _ & _ & _ & HO).
  - discriminate.
  - apply rnd_wf; lia.
  - evaluate.
  - split_and!; evaluate.
  - exact HF.
  - exists stop, entry, tp1, tp2, tp3. split; [exact HO|exact H].
Defined.

Lemma planned_intent_gate_witness :
  let ti := LongSignal.planInputs "HEALTHY" in
  let intent := buildExecutionIntent (ti_decision ti) (buildTradePlan ti) (nint 0) None None in
  checkSubmittable intent = None
  /\ (in_direction intent = LONG /\ in_action intent ∈ [STRONG_BUY; BUY_ACTION]
      \/ in_direction intent = SHORT /\ in_action intent ∈ [STRONG_SELL; SELL_ACTION]).
Proof.
  intros ti intent. assert (checkSubmittable intent = None) as H by (vm_compute; reflexivity).
  split; [exact H|].
  exact (proj2 (planned_intent_gate LongSignal.timeOf (LongSignal.inputs "HEALTHY" (nint 1000000)) ti (nint 0) None None eq_refl) H).
Defined.

(** A STOPPED runtime blocks the execution status of the decision, which is ACTIONABLE and
    passes the submit gate all the same. *)
Example stopped_is_actionable :
  let d := buildTradingDecision LongSignal.timeOf (LongSignal.inputs "STOPPED" (nint 1000000)) in
  td_executionStatus d = XS_BLOCKED /\ td_overallStatus d = OV_ACTIONABLE
  /\ checkSubmittable (buildExecutionIntent d (buildTradePlan (LongSignal.planInputs "STOPPED")) (nint 0) None None) = None.
Proof. split_and!; evaluate. Qed.
