(* ===== verification/IntelligenceFacts.v ===== *)
(** * IntelligenceFacts: the facts of the portfolio engine

    The facts do not depend on the order of the items; grouping by a key is filtering by
    it; scores stay within their scale; what an open position stands for, and which
    warnings can occur. *)

From S2P Require Import Prelude JsNumber JsNumberFacts JsText JsDecimal Json Signals Served Decision Planner DecisionFacts.
From S2P Require Import Intelligence.

Local Open Scope string_scope.
Local Open Scope list_scope.

(** ** Sorting by distinct keys *)

Section sorted.
Context {A : Type} (compare : A -> A -> comparison).
Hypothesis compare_opp : forall a b, compare b a = CompOpp (compare a b).
Hypothesis compare_trans : forall a b c, compare a b <> Gt -> compare b c <> Gt -> compare a c <> Gt.

Lemma compare_between a b x : compare a x = Gt -> compare b x <> Gt -> compare a b = Gt.
Proof using compare_trans.
  intros Ha Hb. destruct (compare a b) eqn:E; [| |done]; exfalso; apply (compare_trans a b x); try done; by rewrite E.
Qed.

Lemma insertBy_comm a b l :
  compare a b <> Eq -> insertBy compare a (insertBy compare b l) = insertBy compare b (insertBy compare a l).
Proof using compare_opp compare_trans.
  intros Hab. pose proof (compare_opp a b) as Ho. pose proof (compare_between a b) as Ha. pose proof (compare_between b a) as Hb.
  induction l as [|x l IH]; simpl; [rewrite Ho; by destruct (compare a b)|].
  specialize (Ha x). specialize (Hb x).
  destruct (compare b x) eqn:Eb, (compare a x) eqn:Ea; simpl; rewrite ?Ea, ?Eb, ?IH; try done;
    first [by rewrite Ha|by rewrite Hb|rewrite Ho; by destruct (compare a b)].
Qed.

(** Sorting does not depend on the order of elements that the comparator tells apart. *)
Lemma sortBy_perm_eq {K} (key : A -> K) l l' :
  (forall a b, compare a b = Eq -> key a = key b) -> l ≡ₚ l' -> NoDup (List.map key l) -> sortBy compare l = sortBy compare l'.
Proof using compare_opp compare_trans.
  intros Hk HP. induction HP as [|a l l' HP IH|a b l|l l' l'' H1 IH1 H2 IH2]; intros HN; [done| | |].
  - apply NoDup_cons in HN as [_ HN]. unfold sortBy in *. simpl. by rewrite IH.
  - unfold sortBy. simpl. apply insertBy_comm. intros E%Hk. simpl in HN. apply NoDup_cons in HN as [HN _].
    apply HN. rewrite E. left.
  - rewrite IH1 by done. apply IH2. by rewrite <- H1.
Qed.
End sorted.

Definition nameOf (p : PortfolioPosition) : string * string := (bp_symbol p, bp_signalId p).

Lemma byName_opp a b : byName b a = CompOpp (byName a b).
Proof. apply compare_opp_orElse; apply String.compare_antisym. Qed.

Lemma byName_Eq a b : byName a b = Eq -> nameOf a = nameOf b.
Proof.
  unfold byName, nameOf, orElse. destruct (String.compare _ _) eqn:E; [|done..]. intros E'.
  apply String.compare_eq_iff in E, E'. by rewrite E, E'.
Qed.

Lemma byName_trans a b c : byName a b <> Gt -> byName b c <> Gt -> byName a c <> Gt.
Proof.
  unfold byName, orElse. intros H1 H2.
  pose proof (stringCompare_trans (bp_symbol a) (bp_symbol b) (bp_symbol c)) as T1.
  pose proof (stringCompare_trans (bp_signalId a) (bp_signalId b) (bp_signalId c)) as T2.
  destruct (String.compare (bp_symbol a) (bp_symbol b)) eqn:E1; [apply String.compare_eq_iff in E1; rewrite E1| |done].
  - destruct (String.compare (bp_symbol b) (bp_symbol c)); [by apply T2|done|done].
  - destruct (String.compare (bp_symbol b) (bp_symbol c)) eqn:E2; [apply String.compare_eq_iff in E2; rewrite <- E2, E1; done| |done].
    by rewrite (stringCompare_lt_trans _ _ _ E1 E2).
Qed.

(** ** The assumed equity *)

(** Well-formed positive Numbers of the same value are the same. *)
Lemma positive_sv_inj x y : wf_number x -> wf_number y -> (0 < sv x)%Z -> sv x = sv y -> x = y.
Proof.
  intros Wx Wy Hx E. assert (0 < sv y)%Z as Hy by lia.
  destruct x as [| |[] m k], y as [| |[] n j]; simpl in *; try lia;
    try (pose proof (mag_nonneg m k); lia); try (pose proof (mag_nonneg n j); lia).
  unfold mag in *. destruct Wx as (Hm & _ & Nm), Wy as (Hn & _ & Nn).
  assert (forall (m n k j : N), (m < 2 ^ 53)%N -> ((0 < j)%N -> (2 ^ 52 <= n)%N) ->
    (2 ^ Z.of_N k * Z.of_N m = 2 ^ Z.of_N j * Z.of_N n)%Z -> ~ (k < j)%N) as Hno.
  { intros m' n' k' j' H1 H2 HE Hlt. specialize (H2 ltac:(lia)).
    replace (Z.of_N j') with (Z.of_N k' + Z.of_N (j' - k'))%Z in HE by lia. rewrite Z.pow_add_r in HE by lia.
    pose proof (pow2_pos (Z.of_N k') ltac:(lia)). pose proof (Z.pow_le_mono_r 2 1 (Z.of_N (j' - k')) ltac:(lia) ltac:(lia)).
    assert (Z.of_N m' = 2 ^ Z.of_N (j' - k') * Z.of_N n')%Z as HE' by nia.
    assert (Z.of_N m' < 2 ^ 53)%Z by lia. assert (2 ^ 52 <= Z.of_N n')%Z by lia. nia. }
  assert (k = j) as -> by (pose proof (Hno m n k j Hm Nn E); pose proof (Hno n m j k Hn Nm (eq_sym E)); lia).
  f_equal. pose proof (pow2_pos (Z.of_N j) ltac:(lia)). nia.
Qed.

Definition soundEquity (x : number) : Prop := isFinite x = true /\ wf_number x /\ (0 < sv x)%Z.

Lemma nmax_cases x y : soundEquity x -> soundEquity y -> (nmax x y = x \/ nmax x y = y) /\ (sv x <= sv (nmax x y) /\ sv y <= sv (nmax x y))%Z.
Proof.
  intros (Fx & _ & _) (Fy & _ & _). rewrite nmax_sv by done. split; [|lia].
  unfold nmax. rewrite !isFinite_notNaN by done. simpl. repeat case_match; tauto.
Qed.

Lemma maxOf_fold a xs :
  soundEquity a -> Forall soundEquity xs ->
  foldl nmax a xs ∈ a :: xs /\ Forall (fun x => sv x <= sv (foldl nmax a xs))%Z (a :: xs).
Proof.
  revert a. induction xs as [|x xs IH]; intros a Ha HF; simpl; [split; [left|by constructor]|].
  apply Forall_cons in HF as [Hx HF]. destruct (nmax_cases a x Ha Hx) as [Hc [La Lx]].
  assert (soundEquity (nmax a x)) as Hn by (destruct Hc as [->| ->]; done).
  destruct (IH _ Hn HF) as [Hin Hall]. apply Forall_cons in Hall as [Hl Hall]. split.
  - apply elem_of_cons in Hin as [->|Hin]; [|by do 2 right]. destruct Hc as [->| ->]; [left|right; left].
  - constructor; [lia|]. constructor; [lia|done].
Qed.

Lemma maxOf_spec xs :
  xs <> [] -> Forall soundEquity xs -> maxOf xs ∈ xs /\ Forall (fun x => sv x <= sv (maxOf xs))%Z xs.
Proof.
  destruct xs as [|x xs]; [done|]. intros _ [Hx HF]%Forall_cons.
  assert (maxOf (x :: xs) = foldl nmax x xs) as ->.
  { unfold maxOf. simpl. destruct Hx as (Fx & _ & _). by destruct x. }
  by apply maxOf_fold.
Qed.

Lemma maxOf_perm xs ys : Forall soundEquity xs -> xs ≡ₚ ys -> maxOf xs = maxOf ys.
Proof.
  intros HF HP. destruct (decide (xs = [])) as [->|Hne]; [apply Permutation_nil_l in HP; by subst|].
  assert (ys <> []) as Hne' by (intros ->; by apply Permutation_nil_r in HP).
  assert (Forall soundEquity ys) as HF' by (by rewrite <- HP).
  destruct (maxOf_spec xs Hne HF) as [H1 H2], (maxOf_spec ys Hne' HF') as [H3 H4].
  rewrite Forall_forall in H2, H4, HF, HF'. destruct (HF _ H1) as (_ & W1 & P1), (HF' _ H3) as (_ & W2 & _).
  apply positive_sv_inj; [done..|]. apply Z.le_antisymm; [apply H4|apply H2]; by eapply elem_of_Permutation_proper.
Qed.

(** ** The facts do not depend on the order of the items *)

Definition withItems (items : list PortfolioItem) (inputs : PortfolioInputs) : PortfolioInputs := {|
  bi_now := bi_now inputs; bi_items := items; bi_runtimeState := bi_runtimeState inputs;
  bi_controlPermission := bi_controlPermission inputs; bi_killEngaged := bi_killEngaged inputs; bi_config := bi_config inputs |}.

Lemma countIf_perm {A} (f : A -> bool) l l' : l ≡ₚ l' -> countIf f l = countIf f l'.
Proof.
  intros HP. unfold countIf. induction HP as [|a l l' _ IH|a b l|l l' l'' _ IH1 _ IH2]; simpl; [done| | |congruence].
  - destruct (f a); simpl; lia.
  - by destruct (f a), (f b).
Qed.

Lemma filter_perm {A} (f : A -> bool) l l' : l ≡ₚ l' -> List.filter f l ≡ₚ List.filter f l'.
Proof.
  intros HP. induction HP as [|a l l' _ IH|a b l|l l' l'' _ IH1 _ IH2]; simpl; [done| | |by rewrite IH1].
  - destruct (f a); [by constructor|done].
  - destruct (f a), (f b); try done. constructor.
Qed.

Lemma omap_perm {A B} (f : A -> option B) l l' : l ≡ₚ l' -> omap f l ≡ₚ omap f l'.
Proof.
  intros HP. induction HP as [|a l l' _ IH|a b l|l l' l'' _ IH1 _ IH2]; simpl; [done| | |by rewrite IH1].
  - destruct (f a); [by constructor|done].
  - destruct (f a), (f b); try done. constructor.
Qed.

(** The names of the items are the names of their positions. *)
Definition itemName (it : PortfolioItem) : string * string := (td_symbol (it_decision it), td_signalId (it_decision it)).

Lemma positions_names kill cfg items :
  List.map nameOf (List.map (fun it => toPosition it kill cfg) items) = List.map itemName items.
Proof. by rewrite List.map_map. Qed.

Lemma equities_sound items :
  Forall (fun it => wf_number (td_assumedEquity (it_decision it))) items -> Forall soundEquity (equitiesOf items).
Proof.
  intros HF. apply Forall_forall. intros x [Hx Hp]%list_elem_of_In%List.filter_In.
  apply list_elem_of_In, list_elem_of_omap in Hx as (it & Hit & Hx). rewrite Forall_forall in HF. specialize (HF _ Hit).
  simpl in Hx. destruct (isFinite _) eqn:F in Hx; [|done]. injection Hx as <-. split; [done|]. split; [done|].
  unfold ngt in Hp. rewrite nlt_sv in Hp by done. by apply Z.ltb_lt.
Qed.

Lemma facts_perm inputs items :
  bi_items inputs ≡ₚ items -> NoDup (List.map itemName items) ->
  Forall (fun it => wf_number (td_assumedEquity (it_decision it))) items ->
  derivePortfolioFacts (withItems items inputs) = derivePortfolioFacts inputs.
Proof.
  intros HP HN HW. unfold derivePortfolioFacts. cbn [bi_config bi_killEngaged bi_items bi_controlPermission bi_runtimeState withItems bi_now].
  set (cfg := resolveConfig (bi_config inputs)). set (kill := bi_killEngaged inputs).
  assert (sortBy byName (List.map (fun it => toPosition it kill cfg) items)
    = sortBy byName (List.map (fun it => toPosition it kill cfg) (bi_items inputs))) as ->.
  { apply (sortBy_perm_eq byName byName_opp byName_trans nameOf _ _ byName_Eq); [by rewrite HP|by rewrite positions_names]. }
  assert (maxOf (equitiesOf items) = maxOf (equitiesOf (bi_items inputs))) as HM.
  { apply maxOf_perm; [by apply equities_sound|]. unfold equitiesOf. by apply filter_perm, omap_perm. }
  assert ((match equitiesOf items with [] => bc_defaultEquity cfg | _ :: _ => maxOf (equitiesOf items) end)
    = match equitiesOf (bi_items inputs) with [] => bc_defaultEquity cfg | _ :: _ => maxOf (equitiesOf (bi_items inputs)) end) as ->.
  { rewrite HM. assert (equitiesOf items ≡ₚ equitiesOf (bi_items inputs)) as HE by (unfold equitiesOf; by apply filter_perm, omap_perm).
    destruct (equitiesOf items), (equitiesOf (bi_items inputs)); try done;
      [by apply Permutation_nil_l in HE|by apply Permutation_nil_r in HE]. }
  by rewrite !(countIf_perm _ items (bi_items inputs)).
Qed.

(** ** Grouping by a key is filtering by it *)

Fixpoint assoc {A} (k : string) (m : list (string * A)) : option A :=
  match m with
  | [] => None
  | (k', a) :: m => if bool_decide (k' = k) then Some a else assoc k m
  end.

Section keyed.
Context {A B : Type} (key : B -> string) (step : B -> option A -> A).

Definition foldKeys (l : list B) : list (string * A) := foldl (fun m b => updateKey (key b) (step b) m) [] l.

(** What the members of a key add up to. *)
Definition foldMembers (k : string) (l : list B) : option A :=
  foldl (fun cur b => Some (step b cur)) None (List.filter (fun b => bool_decide (key b = k)) l).

Lemma updateKey_assoc k f (m : list (string * A)) k' :
  assoc k' (updateKey k f m) = if bool_decide (k' = k) then Some (f (assoc k m)) else assoc k' m.
Proof.
  induction m as [|[j a] m IH]; simpl; [by repeat case_bool_decide; subst|].
  destruct (bool_decide (j = k)) eqn:E; simpl; rewrite ?IH.
  - apply bool_decide_eq_true in E as ->. by repeat case_bool_decide; subst.
  - apply bool_decide_eq_false in E. by repeat case_bool_decide; subst.
Qed.

Lemma updateKey_keys k f (m : list (string * A)) :
  List.map fst (updateKey k f m) = if bool_decide (k ∈ List.map fst m) then List.map fst m else List.map fst m ++ [k].
Proof.
  induction m as [|[j a] m IH]; simpl; [done|]. destruct (bool_decide (j = k)) eqn:E; simpl.
  - apply bool_decide_eq_true in E as ->. by rewrite bool_decide_true by left.
  - apply bool_decide_eq_false in E. rewrite IH. repeat case_bool_decide; try done.
    + by exfalso; apply H0; right.
    + by apply elem_of_cons in H0 as [->|].
Qed.

Lemma foldKeys_spec l :
  NoDup (List.map fst (foldKeys l))
  /\ (forall k, k ∈ List.map fst (foldKeys l) <-> k ∈ List.map key l)
  /\ forall k, assoc k (foldKeys l) = foldMembers k l.
Proof.
  induction l as [|b l (IH1 & IH2 & IH3)] using rev_ind; [split_and!; [constructor|done|done]|].
  unfold foldKeys, foldMembers in *. rewrite foldl_snoc. split_and!.
  - rewrite updateKey_keys. case_bool_decide as Hb; [done|]. apply NoDup_app. split; [done|].
    split; [|apply NoDup_singleton]. intros k Hk ->%list_elem_of_singleton. done.
  - intros k. rewrite updateKey_keys, List.map_app, elem_of_app, <- IH2. simpl. rewrite list_elem_of_singleton.
    case_bool_decide as Hb; [|by rewrite elem_of_app, list_elem_of_singleton].
    split; [by left|]. by intros [?| ->].
  - intros k. rewrite updateKey_assoc, List.filter_app, foldl_app. simpl. rewrite !IH3.
    repeat case_bool_decide; subst; try done.
Qed.

(** An entry of the Map is its key with what the members of the key add up to. *)
Lemma foldKeys_elem l k a : (k, a) ∈ foldKeys l -> foldMembers k l = Some a.
Proof.
  destruct (foldKeys_spec l) as (HN & _ & HA). rewrite <- HA. clear HA. induction (foldKeys l) as [|[j b] m IH]; intros H; [by inversion H|].
  simpl in *. apply NoDup_cons in HN as [Hn HN]. apply elem_of_cons in H as [[= -> ->]|H]; [by rewrite bool_decide_true|].
  rewrite bool_decide_false; [by apply IH|]. intros ->. apply Hn. apply (list_elem_of_fmap_2 fst) in H. exact H.
Qed.
End keyed.

Definition live (p : PortfolioPosition) : bool := bp_contributesExposure p.

(** A position whose notional was served has a finite one. *)
Definition finiteNotional (p : PortfolioPosition) : Prop := fin (bp_notional p) = bp_notional p.

Lemma addToAgg_fold l cur :
  foldl (fun cur p => Some (addToAgg p cur)) (Some cur) l
  = Some {| ga_notional := foldl nadd (ga_notional cur) (omap bp_notional (List.filter live l));
            ga_count := ga_count cur + length l;
            ga_missing := ga_missing cur || existsb (fun p => live p && negb (hasSome (bp_notional p))) l |}.
Proof.
  revert cur. induction l as [|p l IH]; intros cur; simpl.
  - rewrite orb_false_r, Nat.add_0_r. by destruct cur.
  - rewrite IH. unfold addToAgg, live. simpl. destruct (bp_contributesExposure p) eqn:E; simpl.
    + destruct (bp_notional p) eqn:En; simpl; f_equal; f_equal; rewrite ?orb_true_r; try done; lia.
    + by rewrite Nat.add_succ_r.
Qed.

Lemma foldMembers_agg keyFn k l :
  let members := List.filter (fun p => bool_decide (keyFn p = k)) l in
  forall g, foldMembers keyFn addToAgg k l = Some g ->
  g = {| ga_notional := foldl nadd (nint 0) (omap bp_notional (List.filter live members)); ga_count := length members;
         ga_missing := existsb (fun p => live p && negb (hasSome (bp_notional p))) members |}.
Proof.
  intros members g. unfold foldMembers. fold members. destruct members as [|p ms]; [done|]. simpl foldl.
  rewrite addToAgg_fold. intros [= <-]. unfold addToAgg, live. simpl.
  destruct (bp_contributesExposure p); simpl; [|done]. destruct (bp_notional p); simpl; [done|]. f_equal.
Qed.

Lemma sum_live l :
  Forall finiteNotional l ->
  sumFinite (List.map bp_notional (List.filter live l)) = foldl nadd (nint 0) (omap bp_notional (List.filter live l)).
Proof.
  intros HF. unfold sumFinite. f_equal. unfold finiteValues. induction HF as [|p l Hp HF IH]; [done|]. simpl.
  destruct (live p); [|done]. simpl. rewrite Hp. destruct (bp_notional p); simpl.
  - by f_equal.
  - exact IH.
Qed.

Lemma byNotional_sv a b :
  isFinite (eg_notional a) = true -> isFinite (eg_notional b) = true ->
  byNotional a b = orElse (sv (eg_notional b) ?= sv (eg_notional a))%Z (String.compare (eg_key a) (eg_key b)).
Proof.
  intros Fa Fb. unfold byNotional. rewrite neq_sv, compareNumbers_sv by done.
  destruct (Z.eqb_spec (sv (eg_notional b)) (sv (eg_notional a))) as [->|Hne]; simpl; [by rewrite Z.compare_refl|].
  destruct (Z.compare_spec (sv (eg_notional b)) (sv (eg_notional a))); done.
Qed.

(** The groups of a list of positions by a key. *)
Definition groupsExact (keyFn : PortfolioPosition -> string) (positions : list PortfolioPosition) (groups : list ExposureGroup) : Prop :=
  NoDup (List.map eg_key groups)
  /\ (forall k, k ∈ List.map eg_key groups <-> k ∈ List.map keyFn positions)
  /\ Sorted (fun a b => byNotional a b <> Gt) groups
  /\ Forall (fun g =>
       let members := List.filter (fun p => bool_decide (keyFn p = eg_key g)) positions in
       eg_count g = length members
       /\ eg_notional g = round (sumFinite (List.map bp_notional (List.filter live members))) 2
       /\ (eg_provenance g = Pv_estimated <-> Exists (fun p => live p = true /\ bp_notional p = None) members)) groups.

Lemma group_exact keyFn positions : Forall finiteNotional positions -> groupsExact keyFn positions (group keyFn positions).
Proof.
  intros HF. unfold group. set (total := foldl _ _ _). set (mk := fun '(_, _) => _).
  pose proof (sortBy_perm byNotional (List.map mk (aggregate keyFn positions))) as HP.
  destruct (foldKeys_spec keyFn addToAgg positions) as (HN & HK & _).
  assert (List.map eg_key (List.map mk (aggregate keyFn positions)) = List.map fst (aggregate keyFn positions)) as EK
    by (rewrite List.map_map; apply List.map_ext; by intros [k g]).
  split_and!.
  - rewrite HP, EK. exact HN.
  - intros k. rewrite HP, EK. apply HK.
  - apply (sortBy_sorted _ (fun g => isFinite (eg_notional g) = true)).
    + intros a b Fa Fb. rewrite !byNotional_sv by done. rewrite (Z.compare_antisym (sv (eg_notional b)) (sv (eg_notional a))).
      rewrite (String.compare_antisym (eg_key b) (eg_key a)).
      destruct (Z.compare _ _), (String.compare _ _); done.
    + apply Forall_forall. intros g ([k a] & -> & _)%list_elem_of_fmap. apply plainRound_finite.
  - rewrite HP. apply Forall_forall. intros g ([k a] & -> & Ha)%list_elem_of_fmap. apply foldKeys_elem in Ha.
    pose proof (foldMembers_agg keyFn k positions a Ha) as ->. cbn [eg_key mk eg_count eg_notional eg_provenance ga_count ga_notional].
    split; [done|]. rewrite sum_live by by apply Forall_forall; intros p [Hp _]%list_elem_of_In%List.filter_In; rewrite Forall_forall in HF; apply HF, list_elem_of_In.
    split; [done|]. unfold groupProvenance. simpl. rewrite Exists_exists.
    destruct (existsb _ _) eqn:E; split; try done.
    + intros _. apply List.existsb_exists in E as (p & Hp & HL). exists p. split; [by apply list_elem_of_In|].
      apply andb_true_iff in HL as [? ?]. by destruct (bp_notional p).
    + intros (p & Hp & HL & Hnone). exfalso. apply not_true_iff_false in E. apply E, List.existsb_exists. exists p.
      split; [by apply list_elem_of_In|]. by rewrite HL, Hnone.
Qed.

(** ** Positions *)

Section facts.
Context (inputs : PortfolioInputs).
Let f := derivePortfolioFacts inputs.
Let cfg := resolveConfig (bi_config inputs).

Lemma position_elem p :
  p ∈ pn_positions f <-> exists it, it ∈ bi_items inputs /\ p = toPosition it (bi_killEngaged inputs) cfg.
Proof.
  unfold f, derivePortfolioFacts. cbn [pn_positions]. rewrite (sortBy_perm byName). split.
  - intros (it & -> & Hit)%list_elem_of_fmap. by exists it.
  - intros (it & Hit & ->). apply list_elem_of_fmap. by exists it.
Qed.

Lemma open_elem p : p ∈ pn_open f <-> p ∈ pn_positions f /\ bp_state p = PO_OPEN.
Proof.
  change (pn_open f) with (List.filter (inState PO_OPEN) (pn_positions f)).
  rewrite !list_elem_of_In, List.filter_In. unfold inState. by rewrite bool_decide_eq_true.
Qed.

Lemma fin_idem x v : fin x = Some v -> isFinite v = true.
Proof. unfold fin. destruct x as [w|]; [|done]. destruct (isFinite w) eqn:F; [|done]. by intros [= <-]. Qed.

Lemma mv_fin m : fin (mv m) = mv m.
Proof. unfold mv, fin. destruct (me_value m) as [v|]; [|done]. destruct (isFinite v) eqn:F; [by rewrite F|done]. Qed.

Lemma positions_finite : Forall finiteNotional (pn_positions f).
Proof. apply Forall_forall. intros p (it & _ & ->)%position_elem. apply mv_fin. Qed.

Lemma open_live : Forall (fun p => live p = true) (pn_open f).
Proof.
  apply Forall_forall. intros p [(it & _ & ->)%position_elem Hs]%open_elem. unfold live. simpl in *. by apply bool_decide_eq_true.
Qed.

Lemma open_finite : Forall finiteNotional (pn_open f).
Proof.
  apply Forall_forall. intros p [Hp _]%open_elem. pose proof positions_finite as HF. rewrite Forall_forall in HF. by apply HF.
Qed.

(** Every position is in exactly one state. *)
Lemma states_partition l :
  countIf (inState PO_OPEN) l + countIf (inState PO_WAITING) l + countIf (inState PO_BLOCKED) l + countIf (inState PO_FLAT) l = length l.
Proof.
  unfold countIf, inState. induction l as [|p l IH]; [done|]. simpl. destruct (bp_state p); simpl; lia.
Qed.

Lemma classify_open it kill c :
  classify it kill c = PO_OPEN <->
  kill = false /\ td_direction (it_decision it) <> FLAT /\ td_overallStatus (it_decision it) = OV_ACTIONABLE
  /\ td_controlStatus (it_decision it) <> CT_BLOCKED /\ rv_status (td_riskStatus (it_decision it)) <> RK_BLOCKED
  /\ ds_canTrade (tp_summary (it_plan it)) = true /\ isStale it c = false.
Proof.
  unfold classify, isHardBlocked. case_bool_decide as Hd; simpl; [by split; [|tauto]|].
  destruct (td_overallStatus (it_decision it)) eqn:EO; simpl; rewrite ?orb_true_r, ?orb_false_r, ?andb_false_r;
    try (split; [by repeat case_match|by intros (_ & _ & ? & _)]).
  destruct kill; simpl; [by split; [|intros [? _]]|].
  case_bool_decide as Hc; simpl; [by split; [|tauto]|]. case_bool_decide as Hr; simpl; [by split; [|tauto]|].
  rewrite andb_true_r. destruct (ds_canTrade _); simpl; [|by split; [|intros (_ & _ & _ & _ & _ & ? & _)]].
  destruct (isStale it c); simpl; [by split; [|intros (_ & _ & _ & _ & _ & _ & ?)]|]. by split.
Qed.

Lemma kill_open : bi_killEngaged inputs = true -> pn_open f = [].
Proof.
  intros HK. destruct (pn_open f) as [|p l] eqn:E; [done|]. assert (p ∈ pn_open f) as Hp by (rewrite E; left).
  apply open_elem in Hp as [(it & _ & ->)%position_elem Hs]. simpl in Hs. apply classify_open in Hs as [Hk _]. by rewrite HK in Hk.
Qed.

(** The long and the short exposure are those of the groups by side. *)
Lemma side_members side :
  List.filter (fun p => bool_decide (bp_direction p = side)) (pn_open f)
  = List.filter live (List.filter (fun p => bool_decide (showDirection (bp_direction p) = showDirection side)) (pn_open f)).
Proof.
  pose proof open_live as HL. induction HL as [|p l Hp _ IH]; [done|]. simpl.
  assert (bool_decide (showDirection (bp_direction p) = showDirection side) = bool_decide (bp_direction p = side)) as ->
    by (apply bool_decide_ext; split; [by destruct (bp_direction p), side|by intros ->]).
  case_bool_decide; simpl; [by rewrite Hp, IH|done].
Qed.

(** ** Scores *)

Lemma unitClamp_unit x : isFinite (unitClamp x) = true /\ (0 <= sv (unitClamp x) <= unit1)%Z.
Proof. apply clamp01_unit. Qed.

Lemma hundred_round x dp :
  isFinite x = true -> (0 <= sv x <= sv (nint 100))%Z -> (dp <= 2)%nat ->
  nle (nint 0) (round x dp) = true /\ nle (round x dp) (nint 100) = true.
Proof.
  intros F B Hd. rewrite !nle_sv by (done || apply plainRound_finite).
  assert (sv (round (nint 0) dp) = sv (nint 0) /\ sv (round (nint 100) dp) = sv (nint 100)) as [E0 E1]
    by (destruct dp as [|[|[|]]]; [split; evaluate..|lia]).
  destruct (round_between (nint 0) (nint 100) x dp) as [L U]; try done. split; by apply Z.leb_le.
Qed.

Lemma hundred_clamp x : isFinite (clamp x (nint 0) (nint 100)) = true /\ (0 <= sv (clamp x (nint 0) (nint 100)) <= sv (nint 100))%Z.
Proof. apply clamp_between; [done|done|]. by apply Z.leb_le; evaluate. Qed.

Lemma nmul_comm x y : nmul x y = nmul y x.
Proof.
  destruct x as [|s|s m k], y as [|t|t n j]; simpl; rewrite 1?xorb_comm; try done. by rewrite (N.mul_comm m), (N.add_comm k).
Qed.

Lemma hundred_wf : wf_number (nint 100).
Proof. unfold nint. apply rnd_wf; lia. Qed.

(** A hundred times a share, and a hundred minus a score. *)
Lemma hundred_share x : isFinite x = true -> (0 <= sv x <= unit1)%Z ->
  isFinite (nmul x (nint 100)) = true /\ (0 <= sv (nmul x (nint 100)) <= sv (nint 100))%Z.
Proof.
  intros F B. rewrite nmul_comm. apply nmul_share; [done|exact hundred_wf|by apply Z.leb_le; evaluate|done|done].
Qed.

Lemma hundred_minus x : wf_number x -> isFinite x = true -> (0 <= sv x <= sv (nint 100))%Z ->
  isFinite (nsub (nint 100) x) = true /\ (0 <= sv (nsub (nint 100) x) <= sv (nint 100))%Z.
Proof.
  intros W F B. pose proof hundred_wf as H. split; [by apply nsub_finite|by apply nsub_bounds].
Qed.

(** A share as a percentage. *)
Lemma share_score x : nle (nint 0) (round (nmul (unitClamp x) (nint 100)) 2) = true /\ nle (round (nmul (unitClamp x) (nint 100)) 2) (nint 100) = true.
Proof.
  destruct (unitClamp_unit x) as [F B]. destruct (hundred_share (unitClamp x) F B) as [G K]. apply hundred_round; [done|done|lia].
Qed.

Lemma concentration_bounded g : nle (nint 0) (concentrationScore g) = true /\ nle (concentrationScore g) (nint 100) = true.
Proof.
  unfold concentrationScore. destruct (nle (pn_grossExposure g) (nint 0)); [split; evaluate|apply share_score].
Qed.
End facts.

(** ** Heat *)

Lemma round_between_self w x dp :
  isFinite w = true -> isFinite x = true -> sv (round w dp) = sv w -> (dp <= 2)%nat -> (0 <= sv x <= sv w)%Z ->
  nle (nint 0) (round x dp) = true /\ nle (round x dp) w = true.
Proof.
  intros Fw Fx Ew Hd B. rewrite !nle_sv by (done || apply plainRound_finite).
  assert (sv (round (nint 0) dp) = sv (nint 0)) as E0 by (destruct dp as [|[|[|]]]; [evaluate..|lia]).
  destruct (round_between (nint 0) w x dp) as [L U]; try done. split; by apply Z.leb_le.
Qed.

(** A weight that rounding to cents keeps. *)
Definition soundWeight (w : number) : Prop := isFinite w = true /\ wf_number w /\ (0 <= sv w)%Z /\ sv (round w 2) = sv w.

Definition earnsWithin (c : HeatComponent) : Prop :=
  soundWeight (hc_weight c) -> nle (nint 0) (hc_earned c) = true /\ nle (hc_earned c) (hc_weight c) = true.

Lemma earns_share w x key label basis :
  isFinite x = true -> (0 <= sv x <= unit1)%Z ->
  earnsWithin {| hc_key := key; hc_label := label; hc_weight := w; hc_earned := round (nmul w x) 2; hc_basis := basis |}.
Proof.
  intros F B (Fw & Ww & Hw & Ew). simpl in *. destruct (nmul_share w x) as [G K]; try done. by apply round_between_self.
Qed.

Lemma share_if (b : bool) x :
  isFinite (if b then unitClamp x else nint 0) = true /\ (0 <= sv (if b then unitClamp x else nint 0) <= unit1)%Z.
Proof. destruct b; [apply unitClamp_unit|]. split; [done|]. change (sv (nint 0)) with 0%Z. pose proof unit1_pos. lia. Qed.

Lemma components_earn g c : Forall earnsWithin (heatComponents g c).
Proof.
  unfold heatComponents. repeat (apply Forall_cons; split); [..|apply Forall_nil_2]; apply earns_share;
    (apply unitClamp_unit || apply share_if).
Qed.

Lemma components_wf g c : Forall (fun x => wf_number (hc_earned x)) (heatComponents g c).
Proof.
  unfold heatComponents. repeat (apply Forall_cons; split); [..|apply Forall_nil_2]; simpl hc_earned;
    rewrite round_core; (apply ExecTypes.round_wf; [lia|apply nmul_wf]).
Qed.

Lemma sum_wf {A} (value : A -> number) l a :
  wf_number a -> Forall (fun x => wf_number (value x)) l -> wf_number (foldl (fun a x => nadd a (value x)) a l).
Proof.
  intros Ha HF. revert a Ha. induction HF as [|x l Hx _ IH]; intros a Ha; simpl; [done|]. apply IH. by apply nadd_wf.
Qed.

Lemma hundred_clamp_wf x : wf_number x -> wf_number (clamp x (nint 0) (nint 100)).
Proof. intros W. unfold clamp. repeat case_match; try done; apply hundred_wf. Qed.

(** 100 minus a score in range. *)
Lemma complement_bounded x dp :
  wf_number x -> isFinite x = true -> nle (nint 0) x = true -> nle x (nint 100) = true -> (dp <= 2)%nat ->
  nle (nint 0) (round (nsub (nint 100) x) dp) = true /\ nle (round (nsub (nint 100) x) dp) (nint 100) = true.
Proof.
  intros W F. rewrite !nle_sv by done. intros L%Z.leb_le U%Z.leb_le Hd.
  destruct (hundred_minus x W F) as [G K]; [by split|]. by apply hundred_round.
Qed.

Lemma concentration_wf g : wf_number (concentrationScore g) /\ isFinite (concentrationScore g) = true.
Proof.
  unfold concentrationScore. destruct (nle (pn_grossExposure g) (nint 0)); [done|]. cbv zeta. split; [|apply plainRound_finite].
  rewrite round_core. apply ExecTypes.round_wf; [lia|apply nmul_wf].
Qed.

(** ** Warnings and the verdict *)

Lemma count_app s l l' : countSeverity s (l ++ l') = (countSeverity s l + countSeverity s l')%nat.
Proof. unfold countSeverity, countIf. by rewrite List.filter_app, length_app. Qed.

Lemma count_warnIf s b id sev reason source prov basis :
  countSeverity s (warnIf b id sev reason source prov basis) = if b && bool_decide (sev = s) then 1%nat else 0%nat.
Proof. destruct b; [|done]. unfold countSeverity, countIf. simpl. by case_bool_decide. Qed.

(** A gate that is closed. *)
Definition gated (g : PortfolioFacts) : bool := pn_killEngaged g || isFalse (pn_controlAllowed g) || isFalse (pn_runtimeHealthy g).

Lemma gate_count s g inputs :
  gated g = false -> s <> WS_LOW -> countSeverity s (gateWarnings g inputs) = 0%nat.
Proof.
  unfold gated, gateWarnings. intros [[HK HC]%orb_false_iff HR]%orb_false_iff Hs. rewrite HK, HC, !count_app, !count_warnIf.
  destruct (pn_runtimeHealthy g) as [[]|]; [done|done|]. rewrite count_warnIf. simpl. by rewrite bool_decide_false.
Qed.

Lemma capital_critical g : countSeverity WS_CRITICAL (capitalWarnings g) = if overBudget g then 1%nat else 0%nat.
Proof.
  unfold capitalWarnings. cbv zeta. rewrite count_app, count_warnIf. simpl bool_decide. rewrite andb_true_r.
  destruct ((0 <? pn_openCount g)%nat && nle (pn_capitalAvailable g) (nint 0)); rewrite count_warnIf; simpl;
    rewrite ?andb_false_r; lia.
Qed.

Lemma exposure_critical g : countSeverity WS_CRITICAL (exposureWarnings g) = 0%nat.
Proof.
  unfold exposureWarnings. cbv zeta. destruct (topSymbolSharePct g) as [top share]. rewrite count_app.
  assert (countSeverity WS_CRITICAL (match top with
    | Some symbol => warnIf (nge share (bc_concentrationWarnPct (pn_config g))) "over-concentrated" WS_MEDIUM
        ("Portfolio over-concentrated in " +:+ symbol) WO_concentration Pv_derived
        (symbol +:+ " " +:+ numToString share +:+ "% of gross ≥ " +:+ numToString (bc_concentrationWarnPct (pn_config g)) +:+ "% (HHI "
          +:+ numToString (concentrationScore g) +:+ "/100)")
    | None => [] end) = 0%nat) as ->.
  { destruct top; [rewrite count_warnIf; simpl; by rewrite andb_false_r|done]. }
  destruct (ngt (pn_grossExposure g) (nint 0)); [|done].
  destruct (nge _ _); rewrite count_warnIf; simpl; by rewrite ?andb_false_r.
Qed.

Lemma signal_critical g : countSeverity WS_CRITICAL (signalWarnings g) = 0%nat.
Proof. unfold signalWarnings. rewrite !count_app, !count_warnIf. simpl. by rewrite !andb_false_r. Qed.

(** Past the gates, only an exceeded risk budget is critical. *)
Lemma critical_exact inputs :
  gated (derivePortfolioFacts inputs) = false ->
  ww_critical (buildPortfolioWarnings inputs) = if overBudget (derivePortfolioFacts inputs) then 1%nat else 0%nat.
Proof.
  intros HG. unfold buildPortfolioWarnings. cbn [ww_critical]. rewrite !count_app, gate_count, capital_critical, exposure_critical,
    signal_critical by done. lia.
Qed.

Lemma countIf_zero {A} (p : A -> bool) l : countIf p l = 0%nat <-> Forall (fun a => p a = false) l.
Proof.
  unfold countIf. induction l as [|a l IH]; simpl; [by split|]. rewrite Forall_cons. destruct (p a); simpl; [split; [done|by intros [? _]]|tauto].
Qed.

Lemma only_low_counts inputs :
  Forall (fun w => wn_severity w = WS_LOW) (ww_warnings (buildPortfolioWarnings inputs))
  <-> ww_critical (buildPortfolioWarnings inputs) = 0%nat /\ ww_high (buildPortfolioWarnings inputs) = 0%nat
      /\ ww_medium (buildPortfolioWarnings inputs) = 0%nat.
Proof.
  unfold buildPortfolioWarnings. cbn [ww_warnings ww_critical ww_high ww_medium]. unfold countSeverity. rewrite !countIf_zero, !Forall_forall.
  setoid_rewrite bool_decide_eq_false. split.
  - intros H. split_and!; intros w Hw; by rewrite (H w Hw).
  - intros (H1 & H2 & H3) w Hw. specialize (H1 w Hw). specialize (H2 w Hw). specialize (H3 w Hw). by destruct (wn_severity w).
Qed.

(** A gate that is closed is a reason. *)
Lemma gated_reasons f text : gated f = true ->
  alsoIf (pn_killEngaged f) "kill switch engaged" ++ alsoIf (isFalse (pn_controlAllowed f)) "control plane BLOCKED"
  ++ alsoIf (isFalse (pn_runtimeHealthy f)) text <> [].
Proof. unfold gated. by destruct (pn_killEngaged f), (isFalse _), (isFalse _). Qed.
