(* ===== verification/IntelligenceProps.v ===== *)
(** * IntelligenceProps: what the portfolio engine promises

    The whole state does not depend on the order of the items; a group of the exposure is
    the positions with its key; every score keeps its scale; the verdict on the book and
    what an open position stands for, down to the inputs its decision was built from. *)

From S2P Require Import Prelude JsNumber JsNumberFacts JsText JsDecimal Json Signals Served Decision Planner DecisionFacts DecisionProps.
From S2P Require Import Intelligence IntelligenceFacts.

Local Open Scope string_scope.
Local Open Scope list_scope.

(** ** Order of the items *)

(** C25. The state of the book does not depend on the order in which the items are served, as
    long as no two of them have the same symbol and signal. *)
Theorem portfolio_order_independent inputs items :
  bi_items inputs ≡ₚ items -> NoDup (List.map itemName items) ->
  Forall (fun it => wf_number (td_assumedEquity (it_decision it))) items ->
  buildPortfolioState (withItems items inputs) = buildPortfolioState inputs.
Proof.
  intros HP HN HW. pose proof (facts_perm inputs items HP HN HW) as HF.
  assert (buildRiskHeat (withItems items inputs) = buildRiskHeat inputs) as HH by (unfold buildRiskHeat; by rewrite HF).
  assert (buildPortfolioWarnings (withItems items inputs) = buildPortfolioWarnings inputs) as HWn
    by (unfold buildPortfolioWarnings; by rewrite HF).
  assert (buildPortfolioHealth (withItems items inputs) = buildPortfolioHealth inputs) as HHe
    by (unfold buildPortfolioHealth; by rewrite HF, HH, HWn).
  unfold buildPortfolioState, buildPortfolioSummary, buildPortfolioExposure, buildCapitalAllocation, buildPortfolioStatistics.
  by rewrite HF, HH, HWn, HHe.
Qed.

(** ** Exposure *)

Definition sideGroup (side : SignalDecision) (g : ExposureGroup) : Prop := eg_key g = showDirection side.

(** Each grouping of the exposure has one group per key of its positions, in order of
    notional; a group counts the positions with its key, its notional is the rounded sum of
    the notionals of those that are open, and it is marked estimated exactly when one of
    them has none.  The exposure of a side is the notional of the group of the side, and
    zero when no open position is on it. *)
Theorem exposure_groups_exact inputs :
  let f := derivePortfolioFacts inputs in
  let x := buildPortfolioExposure inputs in
  groupsExact bp_symbol (pn_open f) (ex_bySymbol x)
  /\ groupsExact (fun p => showDirection (bp_direction p)) (pn_open f) (ex_bySide x)
  /\ groupsExact regimeKey (pn_open f) (ex_byRegime x)
  /\ groupsExact confidenceBand (pn_open f) (eb_byConfidence (ex_buckets x))
  /\ groupsExact riskBand (pn_open f) (eb_byRisk (ex_buckets x))
  /\ groupsExact (fun p => showPositionState (bp_state p)) (pn_positions f) (eb_byState (ex_buckets x))
  /\ forall side,
       Forall (fun g => sideGroup side g -> eg_notional g = sideExposure side (pn_open f)) (ex_bySide x)
       /\ (Forall (fun g => ~ sideGroup side g) (ex_bySide x) -> sideExposure side (pn_open f) = nint 0).
Proof.
  intros f x. pose proof (group_exact (fun p => showDirection (bp_direction p)) (pn_open f) (open_finite inputs)) as HS.
  split_and!; [apply group_exact, open_finite..|apply group_exact, positions_finite|]. intros side. split.
  - destruct HS as (_ & _ & _ & HG). rewrite Forall_forall in HG |- *. intros g Hg Hk.
    destruct (HG g Hg) as (_ & -> & _). rewrite Hk. unfold sideExposure. by rewrite (side_members inputs).
  - intros HN. unfold sideExposure. rewrite (side_members inputs).
    assert (List.filter (fun p => bool_decide (showDirection (bp_direction p) = showDirection side)) (pn_open f) = []) as E.
    { apply length_zero_iff_nil, countIf_zero, Forall_forall. intros p Hp. apply bool_decide_eq_false. intros Hd.
      destruct HS as (_ & HK & _). rewrite Forall_forall in HN.
      apply (list_elem_of_fmap_2 (fun p => showDirection (bp_direction p))) in Hp. apply HK in Hp.
      apply list_elem_of_fmap in Hp as (g & Hk & Hg). apply (HN g Hg). unfold sideGroup. congruence. }
    unfold f in E. by rewrite E.
Qed.

(** ** Scores *)

Definition inHundred (x : number) : Prop := nle (nint 0) x = true /\ nle x (nint 100) = true.

(** Whatever the book, the heat, the stability, the concentration, the diversification and
    the share of the risk budget lie in 0..100, and every component earns between nothing
    and its weight when the weight is a sound one. *)
Theorem heat_bounded inputs :
  let h := buildRiskHeat inputs in
  inHundred (rh_heatScore h) /\ inHundred (rh_portfolioStability h) /\ inHundred (rh_concentrationScore h)
  /\ inHundred (rh_diversificationScore h) /\ inHundred (rh_portfolioRisk h)
  /\ Forall earnsWithin (rh_components h).
Proof.
  set (f := derivePortfolioFacts inputs).   intros h. unfold h, buildRiskHeat, inHundred. cbn [rh_heatScore rh_portfolioStability rh_concentrationScore rh_diversificationScore
    rh_portfolioRisk rh_components]. fold f.
  set (total := foldl _ _ _). destruct (hundred_clamp total) as [Fc Bc].
  assert (wf_number total) as Wt by (apply sum_wf; [done|apply components_wf]).
  pose proof (hundred_round (clamp total (nint 0) (nint 100)) 1 Fc Bc ltac:(lia)) as [HL HU].
  destruct (concentration_wf f) as [Wk Fk]. destruct (concentration_bounded f) as [CL CU].
  split_and!; try done.
  1, 2: apply complement_bounded; [|apply plainRound_finite|done|done|lia]; rewrite round_core; apply ExecTypes.round_wf; [lia|by apply hundred_clamp_wf].
  1, 2: by apply complement_bounded; [..|lia].
  1, 2: destruct (ngt (pn_riskBudgetAbs f) (nint 0)); [|by evaluate]; destruct (hundred_clamp (nmul (default (nint 0) (safeDiv (pn_riskUsedAbs f) (pn_riskBudgetAbs f))) (nint 100))) as [G K]; apply (hundred_round _ 2 G K); lia.
  apply components_earn.
Qed.

(** ** The verdict on the book *)

(** The book is BLOCKED exactly when a gate is closed (the kill switch, the control plane, a
    runtime that is not healthy); otherwise it is at RISK exactly when the heat is extreme
    or the risk exceeds its budget, and HEALTHY exactly when the heat is below hot and no
    warning is above LOW; reasons are always given, and the summary states the same status. *)
Theorem health_exact inputs :
  let f := derivePortfolioFacts inputs in
  let he := buildPortfolioHealth inputs in
  let band := rh_heatBand (buildRiskHeat inputs) in
  (he_status he = BK_BLOCKED <-> gated f = true)
  /\ (he_status he = BK_RISK <-> gated f = false /\ (band = HB_EXTREME \/ overBudget f = true))
  /\ (he_status he = BK_HEALTHY <-> gated f = false /\ band <> HB_EXTREME /\ band <> HB_HOT
        /\ Forall (fun w => wn_severity w = WS_LOW) (ww_warnings (buildPortfolioWarnings inputs)))
  /\ he_reasons he <> [] /\ bm_status (buildPortfolioSummary inputs) = he_status he.
Proof.
  intros f he band. pose proof (critical_exact inputs) as HK. pose proof (only_low_counts inputs) as HL.
  assert (he = buildPortfolioHealth inputs) as E by done. unfold buildPortfolioHealth in E. fold f in E, HK, HL.
  fold band in E. change (pn_killEngaged f || isFalse (pn_controlAllowed f) || isFalse (pn_runtimeHealthy f)) with (gated f) in E.
  change (bm_status (buildPortfolioSummary inputs)) with (he_status he).
  rewrite HL. clear HL. subst he. destruct (gated f) eqn:EG; cbn [he_status he_reasons] in E; rewrite E; cbn [he_status he_reasons].
  - pose proof (gated_reasons f ("runtime not HEALTHY (" +:+ default "unknown" (bi_runtimeState inputs) +:+ ")") EG).
    intuition congruence.
  - specialize (HK eq_refl). rewrite HK. clear HK.
    destruct (overBudget f), band, (ww_high (buildPortfolioWarnings inputs)), (ww_medium (buildPortfolioWarnings inputs)); simpl;
      intuition (congruence || lia).
Qed.

(** ** From the inputs of a decision to the open book *)

Section decision.
Context (timeOf : string -> number).

(** Actionable inputs give a decision that nothing blocks. *)
Lemma actionable_unblocked di :
  actionableInputs timeOf di ->
  let d := buildTradingDecision timeOf di in
  td_direction d <> FLAT /\ td_controlStatus d <> CT_BLOCKED /\ rv_status (td_riskStatus d) <> RK_BLOCKED.
Proof.
  intros (Hd & Hp & Hk & _ & Hr & _) d. split; [done|]. split; [|done].
  change (deriveControlStatus (dn_control di) <> CT_BLOCKED).
  by rewrite (proj2 (controlStatus_allowed (dn_control di)) (conj Hp Hk)).
Qed.

Lemma unblocked_planner ti : f_hardBlocked (deriveFacts ti) = false -> ti_killEngaged ti = false.
Proof. unfold deriveFacts. cbn [f_hardBlocked]. by destruct (ti_killEngaged ti). Qed.

Lemma killed_book inputs :
  bi_killEngaged inputs = true ->
  pn_grossExposure (derivePortfolioFacts inputs) = nint 0 /\ he_status (buildPortfolioHealth inputs) = BK_BLOCKED.
Proof.
  intros HK. split.
  - pose proof (kill_open inputs HK) as HO.
    assert (pn_grossExposure (derivePortfolioFacts inputs)
      = round (nadd (sideExposure LONG (pn_open (derivePortfolioFacts inputs))) (sideExposure SHORT (pn_open (derivePortfolioFacts inputs)))) 2)
      as -> by done.
    rewrite HO. evaluate.
  - unfold buildPortfolioHealth.
    change (pn_killEngaged (derivePortfolioFacts inputs)) with (bi_killEngaged inputs). by rewrite HK.
Qed.

(** C24. A decision and a plan of the engines exposes capital exactly when the decision's inputs
    are actionable, the kill switch is off for the planner and for the book, and the
    decision is not stale; once the kill switch of the book is engaged nothing is exposed
    and the book is BLOCKED. *)
Theorem open_position_executable inputs di ti it :
  it ∈ bi_items inputs -> it_decision it = buildTradingDecision timeOf di ->
  ti_decision ti = it_decision it -> it_plan it = buildTradePlan ti ->
  let cfg := resolveConfig (bi_config inputs) in
  let p := toPosition it (bi_killEngaged inputs) cfg in
  p ∈ pn_positions (derivePortfolioFacts inputs)
  /\ (p ∈ pn_open (derivePortfolioFacts inputs)
      <-> actionableInputs timeOf di /\ ti_killEngaged ti = false /\ bi_killEngaged inputs = false /\ isStale it cfg = false)
  /\ (bi_killEngaged inputs = true ->
      pn_grossExposure (derivePortfolioFacts inputs) = nint 0 /\ he_status (buildPortfolioHealth inputs) = BK_BLOCKED).
Proof.
  intros Hit Ed Et Ep cfg p.
  assert (p ∈ pn_positions (derivePortfolioFacts inputs)) as Hp by (apply position_elem; by exists it).
  split; [done|]. split; [|by apply killed_book].
  rewrite open_elem. change (bp_state p) with (classify it (bi_killEngaged inputs) cfg). rewrite classify_open.
  assert (ds_canTrade (tp_summary (it_plan it)) = f_canTrade (deriveFacts ti)) as -> by (by rewrite Ep).
  rewrite canTrade_facts, Ed, build_actionable. pose proof (actionable_facts timeOf di ti (eq_trans Et Ed)) as HA. split.
  - intros (_ & HK & Hd & HO & _ & _ & HT & HS). split; [done|]. apply andb_true_iff in HT as [HT1 HT2%negb_true_iff].
    split; [|done]. by apply unblocked_planner.
  - intros (HO & HK & HB & HS). destruct (proj2 HA (conj HO HK)) as (_ & H2 & H3).
    pose proof (proj2 (build_actionable timeOf di) HO) as HV. pose proof (actionable_unblocked di HO) as (? & ? & ?). by rewrite H2, H3.
Qed.
End decision.

(** ** A concrete book *)

Module Book.
(** The decision of the concrete long signal, served under this signal and symbol. *)
Definition decisionInputs (id symbol : string) : DecisionInputs :=
  let d := LongSignal.inputs "HEALTHY" (nint 1000000) in
  let s := LongSignal.signal in {|
  dn_now := dn_now d;
  dn_signal := {| sj_id := id; sj_symbol := symbol; sj_side := sj_side s; sj_decision := sj_decision s;
    sj_confidence := sj_confidence s; sj_featureHash := sj_featureHash s; sj_datasetHash := sj_datasetHash s;
    sj_strategyVersionId := sj_strategyVersionId s; sj_strategyParams := sj_strategyParams s; sj_createdAt := sj_createdAt s |};
  dn_features := dn_features d; dn_featureTs := dn_featureTs d; dn_timeframe := dn_timeframe d; dn_dqScore := dn_dqScore d;
  dn_price := dn_price d; dn_liquidity := dn_liquidity d; dn_risk := dn_risk d; dn_control := dn_control d;
  dn_config := dn_config d |}.

Definition decision (id symbol : string) : TradingDecision := buildTradingDecision LongSignal.timeOf (decisionInputs id symbol).

Definition planInputs (id symbol : string) : TradePlanInputs := {|
  ti_now := nint 1700000001000; ti_decision := decision id symbol; ti_dqScore := Some (nint 100);
  ti_runtimeState := Some "HEALTHY"; ti_killEngaged := false; ti_config := None |}.

Definition entry (id symbol : string) : PortfolioItem :=
  {| it_decision := decision id symbol; it_plan := buildTradePlan (planInputs id symbol); it_dqScore := Some (nint 100) |}.

Definition btc : PortfolioItem := entry "sig-1" "BTC-PERP".
Definition eth : PortfolioItem := entry "sig-2" "ETH-PERP".

Definition inputs (kill : bool) (items : list PortfolioItem) : PortfolioInputs := {|
  bi_now := nint 1700000001000; bi_items := items; bi_runtimeState := Some "HEALTHY"; bi_controlPermission := Some PM_ALLOWED;
  bi_killEngaged := kill; bi_config := None |}.

(** An open position of a symbol with this notional. *)
Definition position (symbol : string) (notional : number) : PortfolioPosition := {|
  bp_signalId := "s"; bp_symbol := symbol; bp_timeframe := M15; bp_direction := LONG; bp_state := PO_OPEN; bp_action := BUY_ACTION;
  bp_confidence := nint 1; bp_notional := Some notional; bp_maxLoss := None; bp_riskPct := None; bp_riskReward := None;
  bp_readiness := nint 100; bp_readinessBand := RB_READY; bp_regime := None; bp_contributesExposure := true |}.
End Book.

Lemma portfolio_order_independent_witness :
  buildPortfolioState (withItems [Book.eth; Book.btc] (Book.inputs false [Book.btc; Book.eth]))
  = buildPortfolioState (Book.inputs false [Book.btc; Book.eth]).
Proof.
  apply portfolio_order_independent.
  - apply perm_swap.
  - change (NoDup [("ETH-PERP", "sig-2"); ("BTC-PERP", "sig-1")]).
    apply NoDup_cons. split; [|apply NoDup_singleton]. intros H. apply list_elem_of_singleton in H. discriminate H.
  - apply Forall_cons. split; [|apply Forall_cons; split; [|apply Forall_nil_2]]; change (wf_number (nint 100000)); apply rnd_wf; lia.
Defined.

Lemma open_position_executable_witness :
  toPosition Book.btc false DEFAULT_PORTFOLIO_CONFIG ∈ pn_open (derivePortfolioFacts (Book.inputs false [Book.btc; Book.eth])).
Proof.
  destruct (open_position_executable LongSignal.timeOf (Book.inputs false [Book.btc; Book.eth])
    (Book.decisionInputs "sig-1" "BTC-PERP") (Book.planInputs "sig-1" "BTC-PERP") Book.btc) as (_ & [_ H] & _).
  - left.
  - exact eq_refl.
  - exact eq_refl.
  - exact eq_refl.
  - apply H. split; [|split; [exact eq_refl|split; [exact eq_refl|vm_compute; reflexivity]]].
    apply build_actionable. vm_compute. reflexivity.
Defined.

(** The group shares are rounded apart, so three equal groups sum to 99.99. *)
Example shares_do_not_sum :
  List.map eg_sharePct (group bp_symbol [Book.position "A" (nint 100); Book.position "B" (nint 100); Book.position "C" (nint 100)])
  = [ndec 3333 2; ndec 3333 2; ndec 3333 2].
Proof. evaluate. Qed.

(** The sum of finite values overflows, and the exposure of a side rounded from it is zero. *)
Example sum_overflows :
  let huge := Num false (2 ^ 53 - 1) 2045 in
  isFinite huge = true /\ isFinite (sumFinite [Some huge; Some huge]) = false
  /\ sideExposure LONG [Book.position "A" huge; Book.position "B" huge] = nint 0.
Proof. split_and!; evaluate. Qed.
