(* ===== verification/MarketState.v ===== *)
(** * MarketState: positions, the account and the fold over fills

    services/workers/src/market: the data of types.ts, position.ts, account.ts and
    state.ts.  A position is a pure fold of fills and the account of the realised PnL
    deltas; a valuation derives from both.  An object keyed by symbol is a finite map,
    and [Object.keys(o).sort()] is [sortedKeys]. *)

From stdpp Require Import gmap.
From S2P Require Import Prelude JsNumber JsText JsDecimal Json StageTypes.

Local Open Scope string_scope.
Local Open Scope list_scope.

(** ** Objects used as maps *)

(** Code unit order; for ASCII symbols it is the byte order. *)
Definition strLeb (a b : string) : bool :=
  match String.compare a b with Gt => false | _ => true end.

Fixpoint insertSorted (k : string) (ks : list string) : list string :=
  match ks with
  | [] => [k]
  | k' :: ks' => if strLeb k k' then k :: ks else k' :: insertSorted k ks'
  end.

Definition sortStrings (ks : list string) : list string := foldr insertSorted [] ks.

(** [Object.keys(o).sort()] *)
Definition sortedKeys {V} (m : gmap string V) : list string :=
  sortStrings (List.map fst (map_to_list m)).

(** ** Data (types.ts) *)

Inductive PositionSide := PS_LONG | PS_SHORT | PS_FLAT.

#[export] Instance PositionSide_eq_dec : EqDecision PositionSide.
Proof. solve_decision. Defined.

Definition showPositionSide (s : PositionSide) : string :=
  match s with PS_LONG => "LONG" | PS_SHORT => "SHORT" | PS_FLAT => "FLAT" end.

Inductive OrderSide := BUY | SELL.

#[export] Instance OrderSide_eq_dec : EqDecision OrderSide.
Proof. solve_decision. Defined.

Definition showOrderSide (s : OrderSide) : string := match s with BUY => "BUY" | SELL => "SELL" end.

Inductive ProviderMode := historical | replay | realtime.

Record Quote := { qt_symbol : string; qt_ts : string; qt_price : string }.

Record Order := {
  or_orderId : string;
  or_intentId : string;
  or_symbol : string;
  or_side : OrderSide;
  or_qty : string;
  or_price : string;
  or_brokerId : string;
  or_lineage : ExecutionLineage
}.

Record Fill := {
  fl_orderId : string;
  fl_intentId : string;
  fl_symbol : string;
  fl_side : OrderSide;
  fl_qty : string;
  fl_price : string;
  fl_lineage : ExecutionLineage
}.

Record Position := {
  mp_symbol : string;
  mp_netQty : string;
  mp_avgEntryPrice : string;
  mp_realizedPnl : string;
  mp_markPrice : string
}.

#[export] Instance Position_eq_dec : EqDecision Position.
Proof. solve_decision. Defined.

Record Account := { ac_cashBalance : string; ac_realizedPnl : string }.

#[export] Instance Account_eq_dec : EqDecision Account.
Proof. solve_decision. Defined.

Record AccountValuation := {
  av_cashBalance : string;
  av_realizedPnl : string;
  av_unrealizedPnl : string;
  av_equity : string;
  av_marginUsed : string;
  av_buyingPower : string;
  av_grossExposure : string
}.

Record MarketState := {
  ms_positions : gmap string Position;
  ms_account : Account
}.

(** ** position.ts *)

(** 1e-9 *)
Definition QTY_EPSILON : number := ndec 1 9.

Definition flatPosition (symbol : string) : Position := {|
  mp_symbol := symbol;
  mp_netQty := quantizeQty (nint 0);
  mp_avgEntryPrice := quantizePrice (nint 0);
  mp_realizedPnl := quantizePnl (nint 0);
  mp_markPrice := quantizePrice (nint 0)
|}.

Definition positionSide (p : Position) : PositionSide :=
  let q := parseDecimal (mp_netQty p) in
  if ngt q QTY_EPSILON then PS_LONG
  else if nlt q (nneg QTY_EPSILON) then PS_SHORT
  else PS_FLAT.

Definition signedFillQty (fill : Fill) : number :=
  let q := parseDecimal (fl_qty fill) in
  match fl_side fill with BUY => q | SELL => nneg q end.

(** [Math.sign] *)
Definition nsign (x : number) : number :=
  if isNaN x then NaN
  else if nlt (nint 0) x then nint 1
  else if nlt x (nint 0) then nint (-1)
  else x.

(** The cost basis and the realised PnL after a fill of signed quantity f at a price. *)
Definition fillBasis (cur a price realized f : number) : number * number :=
  if nle (nabs cur) QTY_EPSILON then (price, realized)
  else if neq (nsign cur) (nsign f) then
    (ndiv (nadd (nmul (nabs cur) a) (nmul (nabs f) price)) (nadd (nabs cur) (nabs f)), realized)
  else
    let closeQty := nmin (nabs f) (nabs cur) in
    let realized' := nadd realized (nmul (nmul closeQty (nsub price a)) (nsign cur)) in
    (if nlt (nabs f) (nabs cur) then a
     else if ngt (nabs f) (nabs cur) then price
     else nint 0, realized').

Definition applyFill (p : Position) (fill : Fill) : Position :=
  let cur := parseDecimal (mp_netQty p) in
  let price := parseDecimal (fl_price fill) in
  let f := signedFillQty fill in
  let next := nadd cur f in
  let '(avg, realized) :=
    fillBasis cur (parseDecimal (mp_avgEntryPrice p)) price (parseDecimal (mp_realizedPnl p)) f in
  let flat := nle (nabs next) QTY_EPSILON in
  {|
    mp_symbol := mp_symbol p;
    mp_netQty := quantizeQty (if flat then nint 0 else next);
    mp_avgEntryPrice := quantizePrice (if flat then nint 0 else avg);
    mp_realizedPnl := quantizePnl realized;
    mp_markPrice := quantizePrice price
  |}.

Definition reconstructPosition (fills : list Fill) (seed : option Position) : Position :=
  let symbol := match seed, fills with
    | Some p, _ => mp_symbol p
    | None, f :: _ => fl_symbol f
    | None, [] => ""
    end in
  foldl applyFill (match seed with Some p => p | None => flatPosition symbol end) fills.

(** [positionNotional] and [unrealizedPnl] at the stored mark. *)
Definition positionNotional (p : Position) : number :=
  nmul (nabs (parseDecimal (mp_netQty p))) (parseDecimal (mp_markPrice p)).

Definition positionNotionalString (p : Position) : string := quantizeNotional (positionNotional p).

Definition unrealizedPnl (p : Position) : number :=
  let q := parseDecimal (mp_netQty p) in
  if nle (nabs q) QTY_EPSILON then nint 0
  else nmul q (nsub (parseDecimal (mp_markPrice p)) (parseDecimal (mp_avgEntryPrice p))).

Definition unrealizedPnlString (p : Position) : string := quantizePnl (unrealizedPnl p).

(** ** account.ts *)

Record AccountConfig := { acf_initialCash : number; acf_leverage : number }.

Definition DEFAULT_ACCOUNT_CONFIG : AccountConfig :=
  {| acf_initialCash := nint 1000000; acf_leverage := nint 1 |}.

Definition emptyAccount (config : AccountConfig) : Account := {|
  ac_cashBalance := quantizePnl (acf_initialCash config);
  ac_realizedPnl := quantizePnl (nint 0)
|}.

(** applyRealized, with the default fee of 0. *)
Definition applyRealized (account : Account) (realizedDelta fee : number) : Account := {|
  ac_cashBalance := quantizePnl (nsub (nadd (parseDecimal (ac_cashBalance account)) realizedDelta) fee);
  ac_realizedPnl := quantizePnl (nadd (parseDecimal (ac_realizedPnl account)) realizedDelta)
|}.

(** The sum over the positions in the order of their symbols. *)
Definition sumPositions (f : number -> Position -> number) (positions : gmap string Position) : number :=
  foldl (fun acc symbol => match positions !! symbol with Some p => f acc p | None => acc end)
    (nint 0) (sortedKeys positions).

Definition valuateAccount (account : Account) (positions : gmap string Position)
    (config : AccountConfig) : AccountValuation :=
  let unrealized := sumPositions (fun acc p => nadd acc (unrealizedPnl p)) positions in
  let gross := sumPositions (fun acc p => nadd acc (positionNotional p)) positions in
  let cash := parseDecimal (ac_cashBalance account) in
  let realized := parseDecimal (ac_realizedPnl account) in
  let equity := nadd cash unrealized in
  let leverage := if ngt (acf_leverage config) (nint 0) then acf_leverage config else nint 1 in
  let marginUsed := ndiv gross leverage in
  let buyingPower := nsub (nmul equity leverage) gross in
  {|
    av_cashBalance := quantizePnl cash;
    av_realizedPnl := quantizePnl realized;
    av_unrealizedPnl := quantizePnl unrealized;
    av_equity := quantizePnl equity;
    av_marginUsed := quantizeNotional marginUsed;
    av_buyingPower := quantizePnl buyingPower;
    av_grossExposure := quantizeNotional gross
  |}.

(** ** state.ts *)

Definition REALIZED_EPSILON : number := ndec 1 9.

Definition emptyMarketState (config : AccountConfig) : MarketState :=
  {| ms_positions := ∅; ms_account := emptyAccount config |}.

Definition applyFillToMarketState (state : MarketState) (fill : Fill) : MarketState :=
  let prior := default (flatPosition (fl_symbol fill)) (ms_positions state !! fl_symbol fill) in
  let nextPos := applyFill prior fill in
  let realizedDelta := nsub (parseDecimal (mp_realizedPnl nextPos)) (parseDecimal (mp_realizedPnl prior)) in
  let account :=
    if ngt (nabs realizedDelta) REALIZED_EPSILON
    then applyRealized (ms_account state) realizedDelta (nint 0)
    else ms_account state in
  {| ms_positions := <[fl_symbol fill := nextPos]> (ms_positions state); ms_account := account |}.

Definition reconstructMarketState (fills : list Fill) (config : AccountConfig) : MarketState :=
  foldl applyFillToMarketState (emptyMarketState config) fills.
