(* ===== verification/RiskModel.v ===== *)
(** * RiskModel: the pure parts of the risk layer

    services/workers/src/risk: types.ts, capital.ts, exposure.ts, sizer.ts, gate.ts and
    kill-switch.ts.  Everything here is a function of its arguments; the text of each
    reason is built as the sources build it. *)

From stdpp Require Import gmap.
From S2P Require Import Prelude JsNumber JsText JsDecimal Json StageTypes MarketState.

Local Open Scope string_scope.
Local Open Scope list_scope.

(** ** types.ts *)

Record CapitalSnapshot := {
  cs_accountEquity : string;
  cs_availableCash : string;
  cs_usedMargin : string;
  cs_availableMargin : string;
  cs_unrealizedPnl : string;
  cs_realizedPnl : string;
  cs_grossExposure : string;
  cs_netExposure : string
}.

#[export] Instance CapitalSnapshot_eq_dec : EqDecision CapitalSnapshot.
Proof. solve_decision. Defined.

Inductive RiskSizingMode :=
| FIXED_QUANTITY | FIXED_NOTIONAL | PERCENT_OF_EQUITY | VOLATILITY_ADJUSTED | RISK_PER_TRADE.

Record SizingConfig := {
  sc_mode : RiskSizingMode;
  sc_leverage : number;
  sc_fixedQuantity : option number;
  sc_fixedNotional : option number;
  sc_equityFraction : option number;
  sc_volTargetFraction : option number;
  sc_riskFraction : option number;
  sc_stopLossFraction : option number
}.

Record SizingInput := {
  si_config : SizingConfig;
  si_equity : number;
  si_price : number;
  si_volatility : option number
}.

Record PositionSizing := {
  ps_mode : RiskSizingMode;
  ps_targetQuantity : string;
  ps_targetNotional : string;
  ps_estimatedMargin : string;
  ps_detail : string
}.

Record ExposureMetrics := {
  em_grossExposure : string;
  em_netExposure : string;
  em_longExposure : string;
  em_shortExposure : string;
  em_leverage : string;
  em_utilization : string
}.

(** The optional lineage is left out: the only caller does not set it. *)
Record ProposedOrder := {
  po_symbol : string;
  po_side : ExecutionSide;
  po_targetQuantity : string;
  po_targetNotional : string;
  po_price : string;
  po_strategyId : string
}.

Record OrderProjection := {
  op_symbol : string;
  op_positionAfterQty : string;
  op_positionNotional : string;
  op_grossExposureAfter : string;
  op_requiredMargin : string;
  op_concentration : string
}.

Inductive GateReason :=
| MAX_POSITION_SIZE | MAX_NOTIONAL | MAX_LEVERAGE | MARGIN_UNAVAILABLE
| DAILY_LOSS_LIMIT | CONCENTRATION_LIMIT | FAIL_CLOSED.

#[export] Instance GateReason_eq_dec : EqDecision GateReason.
Proof. solve_decision. Defined.

Definition showReason (r : GateReason) : string :=
  match r with
  | MAX_POSITION_SIZE => "MAX_POSITION_SIZE"
  | MAX_NOTIONAL => "MAX_NOTIONAL"
  | MAX_LEVERAGE => "MAX_LEVERAGE"
  | MARGIN_UNAVAILABLE => "MARGIN_UNAVAILABLE"
  | DAILY_LOSS_LIMIT => "DAILY_LOSS_LIMIT"
  | CONCENTRATION_LIMIT => "CONCENTRATION_LIMIT"
  | FAIL_CLOSED => "FAIL_CLOSED"
  end.

Record GateCheck := { gc_reason : GateReason; gc_passed : bool; gc_detail : string }.

Inductive RiskEventType :=
| RISK_CHECK_PASSED | RISK_CHECK_FAILED | POSITION_LIMIT_BREACHED | LEVERAGE_LIMIT_BREACHED
| DRAWDOWN_LIMIT_BREACHED | KILL_SWITCH_TRIGGERED | TRADING_HALTED | TRADING_RESUMED.

#[export] Instance RiskEventType_eq_dec : EqDecision RiskEventType.
Proof. solve_decision. Defined.

Definition RISK_EVENT_TYPES : list RiskEventType :=
  [RISK_CHECK_PASSED; RISK_CHECK_FAILED; POSITION_LIMIT_BREACHED; LEVERAGE_LIMIT_BREACHED;
   DRAWDOWN_LIMIT_BREACHED; KILL_SWITCH_TRIGGERED; TRADING_HALTED; TRADING_RESUMED].

Definition showEventType (t : RiskEventType) : string :=
  match t with
  | RISK_CHECK_PASSED => "RISK_CHECK_PASSED"
  | RISK_CHECK_FAILED => "RISK_CHECK_FAILED"
  | POSITION_LIMIT_BREACHED => "POSITION_LIMIT_BREACHED"
  | LEVERAGE_LIMIT_BREACHED => "LEVERAGE_LIMIT_BREACHED"
  | DRAWDOWN_LIMIT_BREACHED => "DRAWDOWN_LIMIT_BREACHED"
  | KILL_SWITCH_TRIGGERED => "KILL_SWITCH_TRIGGERED"
  | TRADING_HALTED => "TRADING_HALTED"
  | TRADING_RESUMED => "TRADING_RESUMED"
  end.

Inductive KillSwitchTrigger :=
| DAILY_LOSS_BREACH | DRAWDOWN_BREACH | LEVERAGE_BREACH | MARKET_DATA_STALE | RECOVERY_FAILURE
| JOURNAL_INTEGRITY_FAILURE | EXCHANGE_CONNECTIVITY_FAILURE.

#[export] Instance KillSwitchTrigger_eq_dec : EqDecision KillSwitchTrigger.
Proof. solve_decision. Defined.

Definition KILL_SWITCH_TRIGGERS : list KillSwitchTrigger :=
  [DAILY_LOSS_BREACH; DRAWDOWN_BREACH; LEVERAGE_BREACH; MARKET_DATA_STALE; RECOVERY_FAILURE;
   JOURNAL_INTEGRITY_FAILURE; EXCHANGE_CONNECTIVITY_FAILURE].

Definition showTrigger (t : KillSwitchTrigger) : string :=
  match t with
  | DAILY_LOSS_BREACH => "DAILY_LOSS_BREACH"
  | DRAWDOWN_BREACH => "DRAWDOWN_BREACH"
  | LEVERAGE_BREACH => "LEVERAGE_BREACH"
  | MARKET_DATA_STALE => "MARKET_DATA_STALE"
  | RECOVERY_FAILURE => "RECOVERY_FAILURE"
  | JOURNAL_INTEGRITY_FAILURE => "JOURNAL_INTEGRITY_FAILURE"
  | EXCHANGE_CONNECTIVITY_FAILURE => "EXCHANGE_CONNECTIVITY_FAILURE"
  end.

Inductive GateVerdict :=
| Approve (checks : list GateCheck)
| Reject (reason : GateReason) (eventType : RiskEventType) (detail : string) (checks : list GateCheck).

Record RiskLimits := {
  rl_maxPositionSize : number;
  rl_maxPositionNotional : number;
  rl_maxLeverage : number;
  rl_dailyLossLimit : number;
  rl_maxAssetAllocation : number;
  rl_maxDrawdown : number
}.

(** Omitted flags read as false. *)
Record HealthSignals := {
  hs_marketDataStale : bool;
  hs_recoveryFailure : bool;
  hs_journalIntegrityFailure : bool;
  hs_exchangeConnectivityFailure : bool
}.

Definition healthy : HealthSignals := {|
  hs_marketDataStale := false; hs_recoveryFailure := false;
  hs_journalIntegrityFailure := false; hs_exchangeConnectivityFailure := false |}.

(** ** capital.ts *)

Definition netExposure (positions : gmap string Position) : number :=
  sumPositions (fun net p =>
    match positionSide p with
    | PS_LONG => nadd net (positionNotional p)
    | PS_SHORT => nsub net (positionNotional p)
    | PS_FLAT => net
    end) positions.

Definition buildCapitalSnapshot (account : Account) (positions : gmap string Position)
    (config : AccountConfig) : CapitalSnapshot :=
  let v := valuateAccount account positions config in
  let net := netExposure positions in
  let equity := parseDecimal (av_equity v) in
  let usedMargin := parseDecimal (av_marginUsed v) in
  let availableMargin := nsub equity usedMargin in
  {|
    cs_accountEquity := av_equity v;
    cs_availableCash := av_cashBalance v;
    cs_usedMargin := av_marginUsed v;
    cs_availableMargin := quantizeNotional availableMargin;
    cs_unrealizedPnl := av_unrealizedPnl v;
    cs_realizedPnl := av_realizedPnl v;
    cs_grossExposure := av_grossExposure v;
    cs_netExposure := quantizeNotional net
  |}.

(** ** exposure.ts *)

Definition sideTotal (side : PositionSide) (positions : gmap string Position) : number :=
  sumPositions (fun acc p =>
    if bool_decide (positionSide p = side) then nadd acc (positionNotional p) else acc) positions.

Definition grossTotal (positions : gmap string Position) : number :=
  sumPositions (fun acc p =>
    match positionSide p with PS_FLAT => acc | _ => nadd acc (positionNotional p) end) positions.

Definition computeExposure (account : Account) (positions : gmap string Position)
    (config : AccountConfig) : ExposureMetrics :=
  let gross := grossTotal positions in
  let long := sideTotal PS_LONG positions in
  let short := sideTotal PS_SHORT positions in
  let net := nsub long short in
  let equity := parseDecimal (av_equity (valuateAccount account positions config)) in
  let lev := if ngt (acf_leverage config) (nint 0) then acf_leverage config else nint 1 in
  let maxBuyingPower := nmul equity lev in
  let leverage := if ngt equity (nint 0) then ndiv gross equity else nint 0 in
  let utilization := if ngt maxBuyingPower (nint 0) then ndiv gross maxBuyingPower else nint 0 in
  {|
    em_grossExposure := quantizeNotional gross;
    em_netExposure := quantizeNotional net;
    em_longExposure := quantizeNotional long;
    em_shortExposure := quantizeNotional short;
    em_leverage := quantizeRatio leverage;
    em_utilization := quantizeRatio utilization
  |}.

(** ** sizer.ts *)

Definition isPos (n : number) : bool := isFinite n && ngt n (nint 0).

(** [finite(n)] of an optional number. *)
Definition given (n : option number) : option number :=
  match n with Some x => if isFinite x then Some x else None | None => None end.

Definition zeroSize (mode : RiskSizingMode) (detail : string) : PositionSizing := {|
  ps_mode := mode;
  ps_targetQuantity := quantizeQty (nint 0);
  ps_targetNotional := quantizeNotional (nint 0);
  ps_estimatedMargin := quantizeNotional (nint 0);
  ps_detail := detail
|}.

(** A given, non-negative parameter. *)
Definition nonNegative (n : option number) : option number :=
  match given n with Some x => if nlt x (nint 0) then None else Some x | None => None end.

(** A given, positive parameter. *)
Definition positive (n : option number) : option number :=
  match n with Some x => if isPos x then Some x else None | None => None end.

Definition showOption (n : option number) : string :=
  match n with Some x => numToString x | None => "undefined" end.

(** The notional a mode asks for and why, or the reason there is none. *)
Definition modeNotional (input : SizingInput) : string + number * string :=
  let config := si_config input in
  let equity := si_equity input in
  let price := si_price input in
  match sc_mode config with
  | FIXED_QUANTITY =>
      match nonNegative (sc_fixedQuantity config) with
      | None => inl "fixedQuantity missing or negative"
      | Some qty => inr (nmul qty price,
          "FIXED_QUANTITY qty=" +:+ numToString qty +:+ " @ " +:+ numToString price)
      end
  | FIXED_NOTIONAL =>
      match nonNegative (sc_fixedNotional config) with
      | None => inl "fixedNotional missing or negative"
      | Some notional => inr (notional, "FIXED_NOTIONAL notional=" +:+ numToString notional)
      end
  | PERCENT_OF_EQUITY =>
      match nonNegative (sc_equityFraction config) with
      | None => inl "equityFraction missing or negative"
      | Some fraction =>
          if negb (isFinite equity) then inl "equity is non-finite"
          else inr (nmul (nmax (nint 0) equity) fraction,
            "PERCENT_OF_EQUITY " +:+ numToString fraction +:+ " * equity " +:+ numToString equity)
      end
  | VOLATILITY_ADJUSTED =>
      match nonNegative (sc_volTargetFraction config) with
      | None => inl "volTargetFraction missing or negative"
      | Some target =>
          match positive (si_volatility input) with
          | None => inl "volatility missing or non-positive"
          | Some volatility =>
              if negb (isFinite equity) then inl "equity is non-finite"
              else inr (ndiv (nmul (nmax (nint 0) equity) target) volatility,
                "VOLATILITY_ADJUSTED riskBudget=" +:+ numToString target +:+ " vol=" +:+ numToString volatility)
          end
      end
  | RISK_PER_TRADE =>
      match nonNegative (sc_riskFraction config) with
      | None => inl "riskFraction missing or negative"
      | Some risk =>
          match positive (sc_stopLossFraction config) with
          | None => inl "stopLossFraction missing or non-positive"
          | Some stop =>
              if negb (isFinite equity) then inl "equity is non-finite"
              else
                let stopDistance := nmul price stop in
                let qty := ndiv (nmul (nmax (nint 0) equity) risk) stopDistance in
                inr (nmul qty price,
                  "RISK_PER_TRADE risk=" +:+ numToString risk +:+ " stop=" +:+ numToString stop)
          end
      end
  end.

Definition sizePosition (input : SizingInput) : PositionSizing :=
  let mode := sc_mode (si_config input) in
  let leverage := sc_leverage (si_config input) in
  let price := si_price input in
  if negb (isPos price) then zeroSize mode ("non-positive reference price " +:+ numToString price)
  else
    let lev := if isPos leverage then leverage else nint 1 in
    match modeNotional input with
    | inl detail => zeroSize mode detail
    | inr (notional, detail) =>
        if negb (isFinite notional) || nle notional (nint 0)
        then zeroSize mode (detail +:+ " -> non-positive notional")
        else
          let qty := ndiv notional price in
          let margin := ndiv notional lev in
          {|
            ps_mode := mode;
            ps_targetQuantity := quantizeQty qty;
            ps_targetNotional := quantizeNotional notional;
            ps_estimatedMargin := quantizeNotional margin;
            ps_detail := detail
          |}
    end.

Definition sizingNotional (sizing : PositionSizing) : number := parseDecimal (ps_targetNotional sizing).

(** ** gate.ts *)

Definition DEFAULT_RISK_LIMITS : RiskLimits := {|
  rl_maxPositionSize := nint 1000;
  rl_maxPositionNotional := nint 750000;
  rl_maxLeverage := nint 3;
  rl_dailyLossLimit := nint 100000;
  rl_maxAssetAllocation := ndec 6 1;
  rl_maxDrawdown := ndec 25 2
|}.

Definition projectOrder (positions : gmap string Position) (capital : CapitalSnapshot)
    (order : ProposedOrder) (leverage : number) : OrderProjection :=
  let lev := if isFinite leverage && ngt leverage (nint 0) then leverage else nint 1 in
  let target := parseDecimal (po_targetNotional order) in
  let priorNotional :=
    match positions !! po_symbol order with Some prior => positionNotional prior | None => nint 0 end in
  let grossBefore := parseDecimal (cs_grossExposure capital) in
  let grossAfter := nadd (nsub grossBefore priorNotional) target in
  let requiredMargin := ndiv (nmax (nint 0) (nsub target priorNotional)) lev in
  let equity := parseDecimal (cs_accountEquity capital) in
  let concentration := if ngt equity (nint 0) then ndiv target equity else nint 1000000000 in
  {|
    op_symbol := po_symbol order;
    op_positionAfterQty := po_targetQuantity order;
    op_positionNotional := po_targetNotional order;
    op_grossExposureAfter := quantizeNotional grossAfter;
    op_requiredMargin := quantizeNotional requiredMargin;
    op_concentration := quantizeRatio concentration
  |}.

Definition pass (reason : GateReason) (detail : string) : GateCheck :=
  {| gc_reason := reason; gc_passed := true; gc_detail := detail |}.

Definition block (checks : list GateCheck) (reason : GateReason) (eventType : RiskEventType)
    (detail : string) : GateVerdict :=
  Reject reason eventType detail (checks ++ [{| gc_reason := reason; gc_passed := false; gc_detail := detail |}]).

(** One of the six checks: whether it rejects, its reason and event, and its two texts. *)
Record Check := {
  ck_rejects : bool;
  ck_reason : GateReason;
  ck_eventType : RiskEventType;
  ck_failure : string;
  ck_success : string
}.

(** The checks are evaluated in order; the first that rejects blocks. *)
Fixpoint runChecks (checks : list GateCheck) (todo : list Check) : GateVerdict :=
  match todo with
  | [] => Approve checks
  | c :: todo =>
      if ck_rejects c then block checks (ck_reason c) (ck_eventType c) (ck_failure c)
      else runChecks (checks ++ [pass (ck_reason c) (ck_success c)]) todo
  end.

Definition limitsFinite (limits : RiskLimits) : bool :=
  List.forallb (fun x => isFinite x && ngt x (nint 0))
    [rl_maxPositionSize limits; rl_maxPositionNotional limits; rl_maxLeverage limits;
     rl_dailyLossLimit limits; rl_maxAssetAllocation limits].

Section gate.
Context (order : ProposedOrder) (projection : OrderProjection) (capital : CapitalSnapshot).
Context (limits : RiskLimits) (dailyPnL : number).

Definition targetQty : number := parseDecimal (po_targetQuantity order).
Definition targetNotional : number := parseDecimal (po_targetNotional order).
Definition gateEquity : number := parseDecimal (cs_accountEquity capital).
Definition availableMargin : number := parseDecimal (cs_availableMargin capital).
Definition grossAfter : number := parseDecimal (op_grossExposureAfter projection).
Definition requiredMargin : number := parseDecimal (op_requiredMargin projection).
Definition concentration : number := parseDecimal (op_concentration projection).
Definition leverageAfter : number := ndiv grossAfter gateEquity.

Definition inputsValid : bool :=
  limitsFinite limits
  && (isFinite targetQty && isFinite targetNotional && ngt targetQty (nint 0) && ngt targetNotional (nint 0))
  && (isFinite gateEquity && isFinite availableMargin && isFinite grossAfter && isFinite requiredMargin
      && isFinite dailyPnL)
  && ngt gateEquity (nint 0).

Definition gateChecks : list Check := [
  {| ck_rejects := ngt targetQty (rl_maxPositionSize limits);
     ck_reason := MAX_POSITION_SIZE; ck_eventType := POSITION_LIMIT_BREACHED;
     ck_failure := "position " +:+ po_targetQuantity order +:+ " > maxPositionSize "
       +:+ numToString (rl_maxPositionSize limits);
     ck_success := "qty " +:+ po_targetQuantity order +:+ " <= " +:+ numToString (rl_maxPositionSize limits) |};
  {| ck_rejects := ngt targetNotional (rl_maxPositionNotional limits);
     ck_reason := MAX_NOTIONAL; ck_eventType := POSITION_LIMIT_BREACHED;
     ck_failure := "notional " +:+ po_targetNotional order +:+ " > maxPositionNotional "
       +:+ numToString (rl_maxPositionNotional limits);
     ck_success := "notional " +:+ po_targetNotional order +:+ " <= "
       +:+ numToString (rl_maxPositionNotional limits) |};
  {| ck_rejects := ngt leverageAfter (rl_maxLeverage limits);
     ck_reason := MAX_LEVERAGE; ck_eventType := LEVERAGE_LIMIT_BREACHED;
     ck_failure := "leverage " +:+ toFixed leverageAfter 6 +:+ " (gross " +:+ op_grossExposureAfter projection
       +:+ " / equity " +:+ cs_accountEquity capital +:+ ") > max " +:+ numToString (rl_maxLeverage limits);
     ck_success := "leverage " +:+ toFixed leverageAfter 6 +:+ " <= " +:+ numToString (rl_maxLeverage limits) |};
  {| ck_rejects := ngt requiredMargin availableMargin;
     ck_reason := MARGIN_UNAVAILABLE; ck_eventType := RISK_CHECK_FAILED;
     ck_failure := "requiredMargin " +:+ op_requiredMargin projection +:+ " > availableMargin "
       +:+ cs_availableMargin capital;
     ck_success := "requiredMargin " +:+ op_requiredMargin projection +:+ " <= " +:+ cs_availableMargin capital |};
  {| ck_rejects := nlt dailyPnL (nneg (rl_dailyLossLimit limits));
     ck_reason := DAILY_LOSS_LIMIT; ck_eventType := RISK_CHECK_FAILED;
     ck_failure := "dailyPnL " +:+ toFixed dailyPnL 2 +:+ " < -dailyLossLimit "
       +:+ numToString (rl_dailyLossLimit limits);
     ck_success := "dailyPnL " +:+ toFixed dailyPnL 2 +:+ " >= -" +:+ numToString (rl_dailyLossLimit limits) |};
  {| ck_rejects := ngt concentration (rl_maxAssetAllocation limits);
     ck_reason := CONCENTRATION_LIMIT; ck_eventType := RISK_CHECK_FAILED;
     ck_failure := "concentration " +:+ op_concentration projection +:+ " > maxAssetAllocation "
       +:+ numToString (rl_maxAssetAllocation limits);
     ck_success := "concentration " +:+ op_concentration projection +:+ " <= "
       +:+ numToString (rl_maxAssetAllocation limits) |}
].

Definition evaluatePreTrade : GateVerdict :=
  if negb inputsValid then
    Reject FAIL_CLOSED RISK_CHECK_FAILED
      (if negb (ngt gateEquity (nint 0))
       then "insolvent or non-positive equity " +:+ cs_accountEquity capital +:+ " — blocking (fail-closed)"
       else "missing or invalid risk inputs — blocking (fail-closed)")
      [{| gc_reason := FAIL_CLOSED; gc_passed := false; gc_detail := "input validation failed" |}]
  else runChecks [] gateChecks.
End gate.

(** ** kill-switch.ts *)

Definition currentDrawdown (peakEquity equity : number) : number :=
  if negb (ngt peakEquity (nint 0)) || negb (isFinite equity) then nint 0
  else
    let dd := ndiv (nsub peakEquity equity) peakEquity in
    if ngt dd (nint 0) then dd else nint 0.

Record TriggerInput := {
  ti_capital : CapitalSnapshot;
  ti_limits : RiskLimits;
  ti_dailyPnL : number;
  ti_drawdown : number;
  ti_health : option HealthSignals
}.

Definition evaluateTriggers (input : TriggerInput) : option (KillSwitchTrigger * string) :=
  let capital := ti_capital input in
  let limits := ti_limits input in
  let dailyPnL := ti_dailyPnL input in
  let drawdown := ti_drawdown input in
  let equity := parseDecimal (cs_accountEquity capital) in
  let gross := parseDecimal (cs_grossExposure capital) in
  let leverage := ndiv gross equity in
  let h := default healthy (ti_health input) in
  if isFinite dailyPnL && nlt dailyPnL (nneg (rl_dailyLossLimit limits)) then
    Some (DAILY_LOSS_BREACH, "dailyPnL " +:+ toFixed dailyPnL 2 +:+ " < -dailyLossLimit "
      +:+ numToString (rl_dailyLossLimit limits))
  else if isFinite drawdown && ngt drawdown (rl_maxDrawdown limits) then
    Some (DRAWDOWN_BREACH, "drawdown " +:+ toFixed drawdown 6 +:+ " > maxDrawdown "
      +:+ numToString (rl_maxDrawdown limits))
  else if ngt equity (nint 0) && ngt leverage (rl_maxLeverage limits) then
    Some (LEVERAGE_BREACH, "leverage " +:+ toFixed leverage 6 +:+ " (gross " +:+ cs_grossExposure capital
      +:+ " / equity " +:+ cs_accountEquity capital +:+ ") > max " +:+ numToString (rl_maxLeverage limits))
  else if negb (ngt equity (nint 0)) && ngt gross (nint 0) then
    Some (LEVERAGE_BREACH, "insolvent: equity " +:+ cs_accountEquity capital +:+ " <= 0 with gross exposure "
      +:+ cs_grossExposure capital)
  else if hs_marketDataStale h then Some (MARKET_DATA_STALE, "market data is stale")
  else if hs_recoveryFailure h then Some (RECOVERY_FAILURE, "state recovery failed")
  else if hs_journalIntegrityFailure h then Some (JOURNAL_INTEGRITY_FAILURE, "journal integrity failure")
  else if hs_exchangeConnectivityFailure h then
    Some (EXCHANGE_CONNECTIVITY_FAILURE, "exchange connectivity failure")
  else None.
