(* ===== verification/Journal.v ===== *)
(** * Journal: append-only JSON-lines files

    The part that FileRiskEventStore (services/workers/src/risk/events.ts) and
    FileMarketEventStore (market/event-store.ts) share word for word: one JSON object per
    line, appended, never rewritten; reading stops at an unparseable last line and refuses
    everything else that is not the expected record.

    The file system is the state [FileState]: the text of the file (or no file), the
    store's cached next sequence number, and what the coming calls of the file system
    will do ([Fault]).  A write that fails may leave any prefix of its text behind. *)

From S2P Require Import Prelude JsNumber JsText JsDecimal Json JsonFacts Effects.

Local Open Scope string_scope.
Local Open Scope list_scope.
Local Open Scope eff_scope.

(** ** Lines *)

(** [raw.split] at line feeds. *)
Fixpoint splitLines (s : string) : list string :=
  match s with
  | "" => [""]
  | String c s =>
      if bool_decide (c = newline) then "" :: splitLines s
      else match splitLines s with
           | l :: ls => String c l :: ls
           | [] => [String c ""]
           end
  end.

Definition endLine (s : string) : string := s +:+ String newline "".

(** ** The file *)

Inductive Fault :=
| NoFault
| ReadFault (message : string)
| WriteFault (written : nat) (message : string).

Record FileState := {
  fs_text : option string;
  fs_nextSeq : option nat;
  fs_faults : list Fault
}.

Inductive JournalExn :=
| FsError (message : string)
| CorruptionError (message : string).

Definition journalMessage (e : JournalExn) : string :=
  match e with FsError m | CorruptionError m => m end.

Definition nextFault (s : FileState) : Fault := match fs_faults s with f :: _ => f | [] => NoFault end.
Definition popFault (s : FileState) : FileState :=
  {| fs_text := fs_text s; fs_nextSeq := fs_nextSeq s; fs_faults := List.tl (fs_faults s) |}.
Definition withText (t : option string) (s : FileState) : FileState :=
  {| fs_text := t; fs_nextSeq := fs_nextSeq s; fs_faults := fs_faults s |}.
Definition withNextSeq (n : option nat) (s : FileState) : FileState :=
  {| fs_text := fs_text s; fs_nextSeq := n; fs_faults := fs_faults s |}.

(** [readFile(path, "utf8")]; [None] is ENOENT. *)
Definition readFile : M JournalExn FileState (option string) :=
  let! f := gets nextFault in
  do! modify popFault in
  match f with
  | ReadFault m => throw (FsError m)
  | _ => gets fs_text
  end.

(** [appendFile(path, text, "utf8")]: creates the file when there is none. *)
Definition appendFile (text : string) : M JournalExn FileState unit :=
  let! f := gets nextFault in
  do! modify popFault in
  let! old := gets fs_text in
  let old := default "" old in
  match f with
  | WriteFault n m =>
      do! modify (withText (Some (old +:+ String.substring 0 n text))) in
      throw (FsError m)
  | _ => modify (withText (Some (old +:+ text)))
  end.

(** ** The store *)

Section store.
(** The path of the file, the text of the engine's SyntaxError for a line, and the
    admission check of the record type: the detail of its rejection, if any. *)
Context (path : string) (syntaxError : string -> string).
Context (admit_record : Json -> option string).

Definition at_line (i : nat) : string := path +:+ ": line " +:+ showZ (Z.of_nat (S i)).

(** One pass over the lines from index i, with the records admitted so far. *)
Fixpoint readLines (i : nat) (records : list Json) (lines : list string) : JournalExn + list Json :=
  match lines with
  | [] => inr records
  | l :: rest =>
      let line := trim l in
      if bool_decide (line = "") then readLines (S i) records rest
      else
        match JSON_parse line with
        | None =>
            if List.forallb (fun l => bool_decide (trim l = "")) rest then inr records
            else inl (CorruptionError (at_line i +:+ " is not valid JSON (mid-file corruption): "
                        +:+ syntaxError line))
        | Some parsed =>
            match admit_record parsed with
            | Some detail => inl (CorruptionError (at_line i +:+ ": " +:+ detail +:+ " (malformed record — fail-closed)"))
            | None =>
                let seq := match parsed with J_object fs => field "seq" fs | _ => J_undefined end in
                if match seq with J_number n => neq n (nint (Z.of_nat (length records))) | _ => false end then
                  readLines (S i) (records ++ [parsed]) rest
                else inl (CorruptionError (path +:+ ": record at line " +:+ showZ (Z.of_nat (S i)) +:+ " has seq "
                            +:+ jsString seq +:+ " (expected " +:+ showZ (Z.of_nat (length records))
                            +:+ ") — log is not append-only"))
            end
        end
  end.

(** [readAll]: every record in file order. *)
Definition readAllJson : M JournalExn FileState (list Json) :=
  let! raw := readFile in
  match raw with
  | None => ret []
  | Some raw =>
      match readLines 0 [] (splitLines raw) with
      | inl e => throw e
      | inr records => ret records
      end
  end.

(** [append]: the record of a sequence number is the text of its line. *)
Definition appendJson (record : nat -> Json) : M JournalExn FileState nat :=
  let! cached := gets fs_nextSeq in
  do! match cached with
      | Some _ => ret tt
      | None =>
          let! records := readAllJson in
          modify (withNextSeq (Some (length records)))
      end in
  let! cached := gets fs_nextSeq in
  let seq := default 0 cached in
  do! appendFile (endLine (stringify (record seq))) in
  do! modify (withNextSeq (Some (S seq))) in
  ret seq.

(** A restarted process: a new store object over the same file. *)
Definition restart (s : FileState) : FileState := withNextSeq None s.
End store.
