(* ===== verification/JournalFacts.v ===== *)
(** * JournalFacts: what a journal file gives back

    Reading the text of well-formed records yields those records; a torn last line is
    dropped when it is incomplete and read when only its line feed is missing.  Over file
    systems whose writes are atomic, [appendJson] adds one record or none.  Over any writes,
    torn ones included, a line that two writes have glued together is never JSON (a scanner
    of brackets and strings shows it), so what was whole stays and what is added is some of
    the records that were appended.  The last part is what reading any text as a journal
    gives. *)

From S2P Require Import Prelude JsNumber JsNumberFacts JsText JsDecimal JsDecimalFacts Json JsonFacts Effects Journal.

Local Open Scope string_scope.
Local Open Scope list_scope.

(** ** Lines *)

Lemma splitLines_cons s : exists l ls, splitLines s = l :: ls.
Proof.
  induction s as [|c s (l & ls & E)]; simpl; [by eexists _, _|].
  case_bool_decide; [by eexists _, _|]. rewrite E. by eexists _, _.
Qed.

Lemma splitLines_line s t : oneLine s = true -> splitLines (endLine s +:+ t) = s :: splitLines t.
Proof.
  induction s as [|c s IH]; simpl; intros H.
  - reflexivity.
  - bool_hyps. unfold endLine in *. simpl. rewrite bool_decide_false by done. by rewrite IH.
Qed.

Lemma splitLines_last s : oneLine s = true -> splitLines s = [s].
Proof.
  induction s as [|c s IH]; simpl; intros H; [done|]. bool_hyps.
  rewrite bool_decide_false by done. by rewrite IH.
Qed.

Lemma endLine_split x p u : endLine x = p +:+ u -> u <> "" -> exists u', u = endLine u' /\ x = p +:+ u'.
Proof.
  revert x. induction p as [|c p IH]; intros x E Hu; [by exists x|].
  destruct x as [|d x]; unfold endLine in E; simpl in E; injection E as <- E.
  - destruct p; [by destruct u|done].
  - destruct (IH x E Hu) as (u' & -> & ->). by exists u'.
Qed.

Lemma endLine_inj s t : endLine s = endLine t -> s = t.
Proof.
  intros E. destruct (endLine_split s t (String newline "") E) as (u & Eu & ->); [done|].
  destruct u as [|c u]; [by rewrite string_app_nil_r|]. unfold endLine in Eu. simpl in Eu.
  injection Eu as _ Eu. by destruct u.
Qed.

(** ** Trimming an object's text *)

Lemma trimEnd_prefix s : exists u, s = trimEnd s +:+ u.
Proof.
  induction s as [|c s [u IH]]; [by exists ""|]. simpl.
  destruct (blank (String c s)); [by exists (String c s)|].
  exists u. change (String c s = String c (trimEnd s +:+ u)). by rewrite <- IH.
Qed.

Lemma trim_object fs :
  printable (J_object fs) = true -> trim (stringify (J_object fs)) = stringify (J_object fs).
Proof.
  intros H. simpl in H. bool_hyps. rewrite stringify_object by done.
  by apply (trim_solid (char 123) _ (char 125)).
Qed.

(** A text that starts with a brace keeps its start. *)
Lemma trim_brace p : exists u v, String (char 123) p = u +:+ v /\ trim (String (char 123) p) = u /\ u <> "".
Proof.
  unfold trim. rewrite trimStart_solid by done.
  destruct (trimEnd_prefix (String (char 123) p)) as [v E].
  exists (trimEnd (String (char 123) p)), v. split_and!; [done|done|].
  simpl. unfold blank. rewrite bool_decide_false; [done|]. by rewrite trimStart_solid.
Qed.

Lemma field_elem k v fs : field k fs = v -> v <> J_undefined -> exists k', (k', v) ∈ fs.
Proof.
  induction fs as [|[k' w] fs IH]; simpl; [by intros <-|].
  case_bool_decide; [intros -> _; eexists; apply list_elem_of_here|].
  intros E Hv. destruct (IH E Hv) as [k2 ?]. exists k2. by apply list_elem_of_further.
Qed.

(** ** Writes *)

(** A write fails before it wrote anything. *)
Definition atomicFault (f : Fault) : bool :=
  match f with WriteFault (S _) _ => false | _ => true end.

Lemma substring_0 t : String.substring 0 0 t = "".
Proof. by destruct t. Qed.

Lemma appendFile_law t s (Q : JournalExn + unit -> FileState -> Prop) :
  List.forallb atomicFault (fs_faults s) = true ->
  (forall m s', default "" (fs_text s') = default "" (fs_text s) -> fs_nextSeq s' = fs_nextSeq s ->
     fs_faults s' = List.tl (fs_faults s) -> fs_faults s <> [] -> Q (inl (FsError m)) s') ->
  (forall s', fs_text s' = Some (default "" (fs_text s) +:+ t) -> fs_nextSeq s' = fs_nextSeq s ->
     fs_faults s' = List.tl (fs_faults s) -> Q (inr tt) s') ->
  wp (appendFile t) Q s.
Proof.
  intros Hf Hfail Hok. unfold appendFile.
  apply wp_bind, wp_gets, wp_bind, wp_modify, wp_bind, wp_gets.
  assert (nextFault s = NoFault \/ (exists m, nextFault s = ReadFault m)
    \/ exists m, nextFault s = WriteFault 0 m /\ fs_faults s <> []) as [->|[[m ->]|(m & -> & Hne)]].
  { unfold nextFault. destruct (fs_faults s) as [|[|m|[|n] m] fs]; simpl in *; naive_solver. }
  - apply wp_modify. by apply Hok.
  - apply wp_modify. by apply Hok.
  - apply wp_bind, wp_modify, wp_throw. apply Hfail; [|done..].
    simpl. by rewrite substring_0, string_app_nil_r.
Qed.

Lemma atomic_tl fs : List.forallb atomicFault fs = true -> List.forallb atomicFault (List.tl fs) = true.
Proof. destruct fs; [done|]. simpl. intros. by bool_hyps. Qed.

(** ** Records *)

Section store.
Context (admit_record : Json -> option string).

(** A record the store accepts at position i: the text reads back, the record is admitted
    and carries its sequence number. *)
Definition wellFormed (i : nat) (v : Json) : Prop :=
  printable v = true /\ admit_record v = None
  /\ exists fs, v = J_object fs /\ field "seq" fs = J_number (nint (Z.of_nat i)).

(** The records of a journal, in order from position i. *)
Fixpoint wellFormedFrom (i : nat) (rs : list Json) : Prop :=
  match rs with [] => True | r :: rs => wellFormed i r /\ wellFormedFrom (S i) rs end.

Definition journalText (rs : list Json) : string :=
  foldr (fun r t => endLine (stringify r) +:+ t) "" rs.

Lemma journalText_app rs rs' : journalText (rs ++ rs') = journalText rs +:+ journalText rs'.
Proof. induction rs as [|r rs IH]; [done|]. simpl. by rewrite IH, string_app_assoc. Qed.

Lemma wellFormedFrom_app i rs rs' :
  wellFormedFrom i (rs ++ rs') <-> wellFormedFrom i rs /\ wellFormedFrom (i + length rs) rs'.
Proof.
  revert i. induction rs as [|r rs IH]; intros i; simpl; [rewrite Nat.add_0_r; tauto|].
  rewrite IH. replace (S i + length rs)%nat with (i + S (length rs))%nat by lia. tauto.
Qed.

Lemma wellFormed_seq i v : wellFormed i v ->
  match match v with J_object fs => field "seq" fs | _ => J_undefined end with
  | J_number n => neq n (nint (Z.of_nat i)) | _ => false end = true.
Proof.
  intros (Hp & _ & fs & -> & E). rewrite E. simpl in Hp. bool_hyps.
  destruct (field_elem _ _ _ E ltac:(done)) as [k' Hin]. apply list_elem_of_In in Hin.
  pose proof (proj1 (List.forallb_forall _ _) H0 _ Hin) as Hn. simpl in Hn.
  unfold readsBack in Hn. apply andb_true_iff in Hn as [Hf _].
  rewrite neq_sv by done. apply Z.eqb_refl.
Qed.

Context (path : string) (syntaxError : string -> string).

Lemma readLines_records i acc rs tail :
  wellFormedFrom (length acc) rs ->
  readLines path syntaxError admit_record i acc (List.map stringify rs ++ tail)
  = readLines path syntaxError admit_record (i + length rs) (acc ++ rs) tail.
Proof.
  revert i acc. induction rs as [|r rs IH]; intros i acc H; simpl.
  { by rewrite app_nil_r, Nat.add_0_r. }
  destruct H as [Hr H]. pose proof (wellFormed_seq _ _ Hr) as Hs.
  destruct Hr as (Hp & Ha & fs & -> & E). rewrite trim_object, JSON_round_trip by done.
  rewrite bool_decide_false.
  2:{ destruct (stringify_start _ Hp) as (c & s & -> & _). done. }
  rewrite Ha, Hs. rewrite IH.
  - rewrite <- app_assoc. f_equal. simpl. lia.
  - rewrite length_app, Nat.add_1_r. exact H.
Qed.

Lemma splitLines_journal rs t :
  Forall (fun r => printable r = true) rs ->
  splitLines (journalText rs +:+ t) = List.map stringify rs ++ splitLines t.
Proof.
  induction 1 as [|r rs Hr H IH]; [done|]. simpl. rewrite string_app_assoc.
  rewrite splitLines_line by (by apply oneLine_stringify). by rewrite IH.
Qed.

Lemma wellFormedFrom_printable i rs : wellFormedFrom i rs -> Forall (fun r => printable r = true) rs.
Proof.
  revert i. induction rs as [|r rs IH]; intros i; simpl; [constructor|].
  intros [(Hp & _) H]. constructor; [done|]. by eapply IH.
Qed.

(** The lines of a text, after the records of a journal. *)
Lemma read_after rs t :
  wellFormedFrom 0 rs ->
  readLines path syntaxError admit_record 0 [] (splitLines (journalText rs +:+ t))
  = readLines path syntaxError admit_record (length rs) rs (splitLines t).
Proof.
  intros H. rewrite splitLines_journal by (by eapply wellFormedFrom_printable).
  by rewrite (readLines_records 0 [] rs).
Qed.

(** Reading a journal gives its records. *)
Lemma read_journal rs :
  wellFormedFrom 0 rs ->
  readLines path syntaxError admit_record 0 [] (splitLines (journalText rs)) = inr rs.
Proof. intros H. rewrite <- (string_app_nil_r (journalText rs)), read_after by done. done. Qed.

Lemma oneLine_prefix p u : oneLine (p +:+ u) = true -> oneLine p = true.
Proof. rewrite oneLine_app. intros. by bool_hyps. Qed.

(** A last line cut before its last character is dropped. *)
Lemma read_torn rs r p u :
  wellFormedFrom 0 rs -> wellFormed (length rs) r -> stringify r = p +:+ u -> u <> "" ->
  readLines path syntaxError admit_record 0 [] (splitLines (journalText rs +:+ p)) = inr rs.
Proof.
  intros H (Hp & Ha & fs & -> & Es) E Hu. rewrite read_after by done.
  rewrite splitLines_last by (eapply oneLine_prefix; rewrite <- E; by apply oneLine_stringify).
  simpl readLines. destruct p as [|c p]; [done|].
  assert (c = char 123) as ->.
  { pose proof E as E'. simpl in E'. by injection E' as <- _. }
  destruct (trim_brace p) as (q & v & Eq & -> & Hq). rewrite bool_decide_false by done.
  rewrite (torn_object_not_JSON fs q (v +:+ u)); [done|done| |].
  - by rewrite <- string_app_assoc, <- Eq.
  - intros E0. by apply app_eq_nil_r in E0.
Qed.

(** A last line that only lacks its line feed is read. *)
Lemma read_unended rs r :
  wellFormedFrom 0 rs -> wellFormed (length rs) r ->
  readLines path syntaxError admit_record 0 [] (splitLines (journalText rs +:+ stringify r)) = inr (rs ++ [r]).
Proof.
  intros H Hr. rewrite read_after by done.
  rewrite splitLines_last by (apply oneLine_stringify; apply Hr).
  exact (readLines_records (length rs) rs [r] [] (conj Hr I)).
Qed.

(** The records of a journal whose last append was cut: all of the line, all but the line
    feed, or less. *)
Lemma journal_tail rs r p u :
  wellFormedFrom 0 rs -> wellFormed (length rs) r -> stringify r = p +:+ u ->
  readLines path syntaxError admit_record 0 [] (splitLines (journalText rs +:+ p))
  = inr (if bool_decide (u = "") then rs ++ [r] else rs).
Proof.
  intros Hw Hr E. case_bool_decide as Hu; [|by eapply read_torn].
  subst u. rewrite string_app_nil_r in E. subst p. by apply read_unended.
Qed.

(** ** The store over atomic writes *)

(** The file holds exactly these records, and the cached number is theirs. *)
Definition fileHolds (rs : list Json) (s : FileState) : Prop :=
  wellFormedFrom 0 rs /\ default "" (fs_text s) = journalText rs
  /\ (fs_nextSeq s = None \/ fs_nextSeq s = Some (length rs))
  /\ List.forallb atomicFault (fs_faults s) = true.

Lemma fileHolds_pop rs s : fileHolds rs s -> fileHolds rs (popFault s).
Proof. intros (H1 & H2 & H3 & H4). split_and!; try done. by apply atomic_tl. Qed.

Lemma readAllJson_law rs s :
  fileHolds rs s ->
  wp (readAllJson path syntaxError admit_record)
    (fun r s' => s' = popFault s /\ match r with inr l => l = rs | inl _ => fs_faults s <> [] end) s.
Proof.
  intros (H1 & H2 & H3 & H4).
  unfold readAllJson, readFile. apply wp_bind, wp_bind, wp_gets, wp_bind, wp_modify.
  assert (wp (X := JournalExn) (gets fs_text) (fun r s' => match r with
    | inr raw => wp (match raw with
        | Some raw => match readLines path syntaxError admit_record 0 [] (splitLines raw) with
            | inl e => throw e | inr records => ret records end
        | None => ret [] end) (fun r s' => s' = popFault s
                 /\ match r with inr l => l = rs | inl _ => fs_faults s <> [] end) s'
    | inl x => s' = popFault s /\ fs_faults s <> []
    end) (popFault s)) as K.
  { apply wp_gets. simpl fs_text. destruct (fs_text s) as [raw|]; simpl in H2.
    - subst raw. rewrite read_journal by done. by apply wp_ret.
    - apply wp_ret. split; [done|]. destruct rs as [|r rs]; [done|]. simpl in H2.
      unfold endLine in H2. rewrite string_app_assoc in H2. destruct H1 as [(Hp & _) _].
      destruct (stringify_start _ Hp) as (c & t & E & _). by rewrite E in H2. }
  destruct (nextFault s) eqn:E; [exact K| |exact K].
  apply wp_throw. split; [done|]. unfold nextFault in E. by destruct (fs_faults s).
Qed.

(** One record is added, or the append failed and nothing changed.  A record that is not
    well-formed is added all the same: then the file holds no journal any more. *)
Lemma appendJson_law rs (record : nat -> Json) s :
  fileHolds rs s ->
  wp (appendJson path syntaxError admit_record record)
    (fun r s' => (fs_faults s = [] -> fs_faults s' = []) /\ match r with
       | inr seq => seq = length rs /\ (wellFormed seq (record seq) -> fileHolds (rs ++ [record seq]) s')
       | inl _ => fs_faults s <> [] /\ fileHolds rs s' end) s.
Proof.
  intros H.
  assert (forall s1, fileHolds rs s1 -> (fs_faults s = [] -> fs_faults s1 = []) -> fs_nextSeq s1 = Some (length rs) ->
    wp (bind (gets fs_nextSeq) (fun cached => let seq := default 0 cached in
         bind (appendFile (endLine (stringify (record seq)))) (fun _ =>
         bind (modify (withNextSeq (Some (S seq)))) (fun _ => ret seq))))
      (fun r s' => (fs_faults s = [] -> fs_faults s' = []) /\ match r with
       | inr seq => seq = length rs /\ (wellFormed seq (record seq) -> fileHolds (rs ++ [record seq]) s')
       | inl _ => fs_faults s <> [] /\ fileHolds rs s' end) s1) as K.
  { intros s1 (H1 & H2 & H3 & H4) Hc Hn1. apply wp_bind, wp_gets. rewrite Hn1. cbv zeta. simpl default.
    apply wp_bind, appendFile_law; [done|..].
    - intros m s' Ht Hn Hf Hne. rewrite Hf. split; [intros E; by rewrite (Hc E)|]. split; [by auto|].
      split_and!; [done|congruence|rewrite Hn; by right|rewrite Hf; by apply atomic_tl].
    - intros s' Ht Hn Hf. apply wp_bind, wp_modify, wp_ret. simpl. rewrite Hf.
      split; [intros E; by rewrite (Hc E)|]. split; [done|]. intros Hr. split_and!; simpl.
      + apply wellFormedFrom_app. by split.
      + rewrite Ht. simpl. by rewrite journalText_app, <- H2, (string_app_nil_r (endLine _) : journalText [_] = _).
      + right. f_equal. rewrite length_app. simpl. lia.
      + rewrite Hf. by apply atomic_tl. }
  unfold appendJson. apply wp_bind, wp_gets. pose proof H as Hh. destruct H as (H1 & H2 & [H3|H3] & H4).
  - rewrite H3. apply wp_bind, wp_bind. eapply wp_mono; [by apply readAllJson_law|].
    intros [e|l] s1 [-> ?]; [split; [simpl; by intros ->|]; split; [done|by apply fileHolds_pop]|].
    subst l. apply wp_modify. apply K; [|simpl; by intros ->|done].
    destruct (fileHolds_pop rs s Hh) as (G1 & G2 & _ & G4). split_and!; [done|done|by right|done].
  - rewrite H3. apply wp_bind, wp_ret. by apply K.
Qed.

Lemma restart_holds rs s : fileHolds rs s -> fileHolds rs (restart s).
Proof. intros (H1 & H2 & _ & H4). split_and!; [done|done|by left|done]. Qed.
End store.

(** * Lines made of several writes *)

Module Scan.

(** Where a reader that only counts brackets stands inside an object's text: outside
    strings, just after a string, in a string, after a backslash; [Done] after the closing
    brace, and [Dead] where no JSON can go on. *)
Inductive Lex := Out (d : nat) | Closed (d : nat) | InStr (d : nat) | Esc (d : nat) | Done | Dead.

(** A closing bracket at depth d. *)
Definition pop (d : nat) : Lex := match d with O => Done | S d => Out d end.

Definition outOfString (d : nat) (c : Ascii.ascii) : Lex :=
  (if (code c =? 34) then InStr d
   else if (code c =? 123) || (code c =? 91) then Out (S d)
   else if (code c =? 125) || (code c =? 93) then pop d
   else Out d)%Z.

Definition lex (st : Lex) (c : Ascii.ascii) : Lex :=
  match st with
  | Out d => outOfString d c
  | Closed d =>
      if jsonWs c || (code c =? 58)%Z || (code c =? 44)%Z then Out d
      else if (code c =? 125)%Z || (code c =? 93)%Z then pop d else Dead
  | InStr d => if (code c =? 34)%Z then Closed d else if (code c =? 92)%Z then Esc d else InStr d
  | Esc d => match simpleEscape c with
             | Some _ => InStr d
             | None => if (code c =? 117)%Z then InStr d else Dead
             end
  | Done => if jsonWs c then Done else Dead
  | Dead => Dead
  end.

Fixpoint scan (st : Lex) (s : string) : Lex :=
  match s with "" => st | String c s => scan (lex st c) s end.

Lemma scan_app st s t : scan st (s +:+ t) = scan (scan st s) t.
Proof. revert st. induction s as [|c s IH]; intros st; [done|]. apply IH. Qed.

Lemma scan_dead s : scan Dead s = Dead.
Proof. by induction s. Qed.

(** Between two tokens of a value at depth d. *)
Definition settled (d : nat) (st : Lex) : Prop := st = Out d \/ st = Closed d.

(** Characters that keep a reader outside strings where it is. *)
Definition inert (c : Ascii.ascii) : bool :=
  negb ((code c =? 34) || (code c =? 123) || (code c =? 91) || (code c =? 125) || (code c =? 93))%Z.

Lemma inert_outside d c : inert c = true -> outOfString d c = Out d.
Proof.
  unfold inert, outOfString. destruct (code c =? 34)%Z, (code c =? 123)%Z, (code c =? 91)%Z,
    (code c =? 125)%Z, (code c =? 93)%Z; done.
Qed.

Lemma jsonWs_inert c : jsonWs c = true -> inert c = true.
Proof. all_characters c; done. Qed.

Lemma isDigit_inert c : isDigit c = true -> inert c = true.
Proof. all_characters c; done. Qed.

Lemma scan_skipWs d s : scan (Out d) s = scan (Out d) (skipWs s).
Proof.
  induction s as [|c s IH]; [done|]. simpl. destruct (jsonWs c) eqn:E; [|done].
  by rewrite (inert_outside d c (jsonWs_inert c E)).
Qed.

Lemma scan_settled d st s :
  settled d st -> exists st', settled d st' /\ scan st s = scan st' (skipWs s).
Proof.
  intros [->| ->]; [exists (Out d); split; [by left|apply scan_skipWs]|].
  destruct s as [|c s]; [exists (Closed d); split; [by right|done]|]. cbn [skipWs].
  destruct (jsonWs c) eqn:E; [|exists (Closed d); split; [by right|done]].
  exists (Out d). split; [by left|]. cbn [scan lex]. rewrite E. apply scan_skipWs.
Qed.

(** After a value: a comma or a colon goes on, a bracket closes. *)
Lemma lex_separator d st c :
  settled d st -> (code c =? 44)%Z = true \/ (code c =? 58)%Z = true -> lex st c = Out d.
Proof.
  rewrite !Z.eqb_eq. intros [->| ->] [H|H]; unfold lex, outOfString, jsonWs; by rewrite H.
Qed.

Lemma lex_close d st c :
  settled d st -> (code c =? 125)%Z = true \/ (code c =? 93)%Z = true -> lex st c = pop d.
Proof.
  rewrite !Z.eqb_eq. intros [->| ->] [H|H]; unfold lex, outOfString, jsonWs; by rewrite H.
Qed.

Lemma scan_digits d acc cnt s v k r :
  takeDigits acc cnt s = (v, k, r) -> scan (Out d) s = scan (Out d) r.
Proof.
  revert acc cnt. induction s as [|c s IH]; intros acc cnt; simpl; [by intros [= _ _ <-]|].
  destruct (isDigit c) eqn:E; [|by intros [= _ _ <-]].
  rewrite (inert_outside d c (isDigit_inert c E)). apply IH.
Qed.

Lemma code_inert c n : (code c =? n)%Z = true -> n ∈ [45; 43; 46; 101; 69]%Z -> inert c = true.
Proof.
  intros H%Z.eqb_eq Hn. unfold inert. rewrite H.
  repeat (apply elem_of_cons in Hn as [->|Hn]; [done|]). by apply elem_of_nil in Hn.
Qed.

Lemma scan_inert d c s : inert c = true -> scan (Out d) (String c s) = scan (Out d) s.
Proof. intros H. simpl. by rewrite (inert_outside d c H). Qed.

Lemma scan_exponent d s e r : takeExponent s = Some (e, r) -> scan (Out d) s = scan (Out d) r.
Proof.
  unfold takeExponent. destruct s as [|c s]; [by intros [= _ <-]|].
  destruct ((code c =? 101)%Z || (code c =? 69)%Z) eqn:Ec; [|by intros [= _ <-]].
  assert (inert c = true) as Hc.
  { apply orb_true_iff in Ec as [Ec|Ec]; (eapply code_inert; [exact Ec|]); apply (bool_decide_unpack _); vm_compute; exact I. }
  rewrite (scan_inert d c s Hc). destruct s as [|e1 s2]; [done|].
  destruct (code e1 =? 45)%Z eqn:Ed; [|destruct (code e1 =? 43)%Z eqn:Ed'];
    (destruct (takeDigits 0 0 _) as [[v n] s3] eqn:ET; destruct (n =? 0)%nat; [done|];
     intros [= _ ->]; apply (scan_digits d) in ET).
  - rewrite scan_inert; [done|]. eapply code_inert; [exact Ed|]. apply (bool_decide_unpack _); vm_compute; exact I.
  - rewrite scan_inert; [done|]. eapply code_inert; [exact Ed'|]. apply (bool_decide_unpack _); vm_compute; exact I.
  - exact ET.
Qed.

Lemma scan_fraction d v s w k r : takeFraction v s = Some (w, k, r) -> scan (Out d) s = scan (Out d) r.
Proof.
  unfold takeFraction. destruct s as [|c s]; [by intros [= _ _ <-]|].
  destruct (code c =? 46)%Z eqn:Ec; [|by intros [= _ _ <-]].
  destruct (takeDigits v 0 s) as [[w' k'] r'] eqn:ET. destruct (k' =? 0)%nat; [done|].
  intros [= _ _ <-]. rewrite scan_inert; [by eapply scan_digits|].
  eapply code_inert; [exact Ec|]. apply (bool_decide_unpack _); vm_compute; exact I.
Qed.

Lemma scan_unsigned d neg s n r : parseUnsigned neg s = Some (n, r) -> scan (Out d) s = scan (Out d) r.
Proof.
  unfold parseUnsigned. destruct (takeDigits 0 0 s) as [[v k] s1] eqn:E1. destruct (_ || _); [done|].
  destruct (takeFraction v s1) as [[[w j] s3]|] eqn:E2; [|done].
  destruct (takeExponent s3) as [[e s4]|] eqn:E3; [|done]. intros [= _ <-].
  rewrite (scan_digits d _ _ _ _ _ _ E1), (scan_fraction d _ _ _ _ _ E2). by eapply scan_exponent.
Qed.

Lemma scan_number d s n r : parseNumber s = Some (n, r) -> scan (Out d) s = scan (Out d) r.
Proof.
  destruct s as [|c s]; [done|]. unfold parseNumber.
  destruct (code c =? 45)%Z eqn:Ec; [|by apply scan_unsigned]. intros H.
  rewrite scan_inert; [by eapply scan_unsigned|].
  eapply code_inert; [exact Ec|]. apply (bool_decide_unpack _); vm_compute; exact I.
Qed.

Lemma scan_strip d w s r :
  List.forallb inert (String.list_ascii_of_string w) = true -> strip w s = Some r ->
  scan (Out d) s = scan (Out d) r.
Proof.
  revert s. induction w as [|c w IH]; intros s Hw; cbn [strip]; [by intros [= ->]|].
  destruct s as [|e s]; [done|]. case_bool_decide as E; [|done]. subst e.
  simpl in Hw. apply andb_true_iff in Hw as [Hc Hw]. rewrite (scan_inert d c s Hc). by apply IH.
Qed.

Lemma scan_literal d w v s x r :
  List.forallb inert (String.list_ascii_of_string w) = true ->
  parseLiteral w v s = Ok x r -> scan (Out d) s = scan (Out d) r.
Proof.
  unfold parseLiteral. intros Hw. destruct (strip w s) eqn:E; [|done]. intros [= _ <-].
  by eapply scan_strip.
Qed.

Lemma hexValue_in_string d c x : hexValue c = Some x -> lex (InStr d) c = InStr d.
Proof. all_characters c; done. Qed.

(** The characters of a string literal up to its quotation mark. *)
Lemma scan_chars d s l r : parseChars s = Some (l, r) -> scan (InStr d) s = scan (Closed d) r.
Proof.
  remember (len s) as n eqn:En. revert s En l r.
  induction (lt_wf n) as [n _ IH]. intros s -> l r. destruct s as [|c u]; [done|]. simpl.
  assert (forall v l r, (len v < S (len u))%nat -> parseChars v = Some (l, r) ->
    scan (InStr d) v = scan (Closed d) r) as K
    by (intros v l' r' Hv; exact (IH _ Hv v eq_refl l' r')).
  destruct (code c =? 34)%Z; [by intros [= _ <-]|].
  destruct (code c =? 92)%Z.
  - destruct u as [|e u]; [done|]. simpl. destruct (simpleEscape e).
    + destruct (parseChars u) as [[l' r']|] eqn:E; [|done]. intros [= _ <-].
      apply (K u l' r'); [simpl; lia|done].
    + destruct (code e =? 117)%Z; [|done]. destruct u as [|h1 [|h2 [|h3 [|h4 u]]]]; try done.
      destruct (hexValue h1) eqn:E1; [|done]. destruct (hexValue h2) eqn:E2; [|done].
      destruct (hexValue h3) eqn:E3; [|done]. destruct (hexValue h4) eqn:E4; [|done].
      destruct (parseChars u) as [[l' r']|] eqn:E; [|done]. intros [= _ <-]. cbn [scan].
      rewrite (hexValue_in_string d _ _ E1), (hexValue_in_string d _ _ E2),
        (hexValue_in_string d _ _ E3), (hexValue_in_string d _ _ E4).
      apply (K u l' r'); [simpl; lia|done].
  - destruct (code c <? 32)%Z; [done|]. destruct (parseChars u) as [[l' r']|] eqn:E; [|done].
    intros [= _ <-]. apply (K u l' r'); [lia|done].
Qed.

Lemma scan_open d c s : (code c =? 123)%Z = true \/ (code c =? 91)%Z = true ->
  scan (Out d) (String c s) = scan (Out (S d)) (skipWs s).
Proof.
  intros H. rewrite <- (scan_skipWs (S d) s). cbn [scan lex]. unfold outOfString.
  rewrite !Z.eqb_eq in H. by destruct H as [-> | ->].
Qed.

Lemma scan_close d st c s : settled d st -> (code c =? 125)%Z = true \/ (code c =? 93)%Z = true ->
  scan st (String c s) = scan (pop d) s.
Proof. intros Hs Hc. cbn [scan]. by rewrite (lex_close d st c Hs Hc). Qed.

Lemma scan_separator d st c s : settled d st -> (code c =? 44)%Z = true \/ (code c =? 58)%Z = true ->
  scan st (String c s) = scan (Out d) s.
Proof. intros Hs Hc. cbn [scan]. by rewrite (lex_separator d st c Hs Hc). Qed.

Lemma scan_quote d c s : (code c =? 34)%Z = true -> scan (Out d) (String c s) = scan (InStr d) s.
Proof. intros H%Z.eqb_eq. cbn [scan lex]. unfold outOfString. by rewrite H. Qed.

(** What the parser accepts, the reader passes over: a value at its depth, the members of
    an object and the elements of an array up to the bracket that closes them. *)
Lemma scan_parse f :
  (forall s v r d, parseValue f s = Ok v r -> exists st, settled d st /\ scan (Out d) s = scan st r)
  /\ (forall s fs r d, parseMembers f s = Ok fs r -> scan (Out d) s = scan (pop d) r)
  /\ (forall s l r d, parseElements f s = Ok l r -> scan (Out d) s = scan (pop d) r).
Proof.
  induction f as [|f (IHv & IHm & IHe)]; [done|].
  assert (forall d, settled d (Out d)) as Ho by by left.
  split_and!; intros s v r d.
  - rewrite parseValue_S, (scan_skipWs d s). unfold valueBody.
    destruct (skipWs s) as [|c u]; [done|].
    destruct (code c =? 123)%Z eqn:Ec; [|destruct (code c =? 91)%Z eqn:Ec'; [|destruct (code c =? 34)%Z eqn:Eq]].
    + rewrite scan_open by (by left). destruct (skipWs u) as [|e m]; [done|].
      destruct (code e =? 125)%Z eqn:Ee.
      * intros [= _ <-]. exists (Out d). split; [done|]. by rewrite (scan_close (S d)) by auto.
      * destruct (parseMembers f (String e m)) eqn:E; try done. intros [= _ <-]. exists (Out d).
        split; [done|]. by rewrite (IHm _ _ _ (S d) E).
    + rewrite scan_open by (by right). destruct (skipWs u) as [|e m]; [done|].
      destruct (code e =? 93)%Z eqn:Ee.
      * intros [= _ <-]. exists (Out d). split; [done|]. by rewrite (scan_close (S d)) by auto.
      * destruct (parseElements f (String e m)) eqn:E; try done. intros [= _ <-]. exists (Out d).
        split; [done|]. by rewrite (IHe _ _ _ (S d) E).
    + destruct (parseChars u) as [[l q]|] eqn:E; [|done]. intros [= _ <-]. exists (Closed d).
      split; [by right|]. rewrite scan_quote by done. by eapply scan_chars.
    + intros H. exists (Out d). split; [done|]. revert H.
      destruct (code c =? 116)%Z; [by apply scan_literal|].
      destruct (code c =? 102)%Z; [by apply scan_literal|].
      destruct (code c =? 110)%Z; [by apply scan_literal|].
      destruct (parseNumber (String c u)) as [[n q]|] eqn:E; [|done]. intros [= _ <-]. by eapply scan_number.
  - rewrite parseMembers_S, (scan_skipWs d s). unfold membersBody, memberTail.
    destruct (skipWs s) as [|c u]; [done|]. destruct (code c =? 34)%Z eqn:Ec; [|done].
    destruct (parseChars u) as [[l q]|] eqn:E; [|done]. rewrite scan_quote, (scan_chars d _ _ _ E) by done.
    destruct (scan_settled d (Closed d) q (or_intror eq_refl)) as (st & Hst & ->).
    destruct (skipWs q) as [|e r1]; [done|]. destruct (code e =? 58)%Z eqn:Ee; [|done].
    rewrite (scan_separator d) by auto. destruct (parseValue f r1) as [w r2| |] eqn:Ev; try done.
    destruct (IHv _ _ _ d Ev) as (st1 & Hst1 & ->).
    destruct (scan_settled d st1 r2 Hst1) as (st2 & Hst2 & ->).
    destruct (skipWs r2) as [|g r3]; [done|].
    destruct (code g =? 125)%Z eqn:Eg; [intros [= _ <-]; by rewrite (scan_close d) by auto|].
    destruct (code g =? 44)%Z eqn:Eg'; [|done]. rewrite (scan_separator d) by auto.
    destruct (parseMembers f r3) eqn:E3; try done. intros [= _ <-]. by eapply IHm.
  - rewrite parseElements_S. unfold elementsBody.
    destruct (parseValue f s) as [w r2| |] eqn:Ev; try done.
    destruct (IHv _ _ _ d Ev) as (st1 & Hst1 & ->).
    destruct (scan_settled d st1 r2 Hst1) as (st2 & Hst2 & ->).
    destruct (skipWs r2) as [|g r3]; [done|].
    destruct (code g =? 93)%Z eqn:Eg; [intros [= _ <-]; by rewrite (scan_close d) by auto|].
    destruct (code g =? 44)%Z eqn:Eg'; [|done]. rewrite (scan_separator d) by auto.
    destruct (parseElements f r3) eqn:E3; try done. intros [= _ <-]. by eapply IHe.
Qed.

(** The object's opening brace. *)
Definition brace : Ascii.ascii := char 123.

Lemma scan_done s : scan Done s = if bool_decide (skipWs s = "") then Done else Dead.
Proof.
  induction s as [|c s IH]; [done|]. simpl. destruct (jsonWs c); [done|]. apply scan_dead.
Qed.

(** A text that starts with a brace and is JSON is read to the end of its object. *)
Lemma JSON_parse_scan s v : JSON_parse (String brace s) = Some v -> scan (Out 0) s = Done.
Proof.
  unfold JSON_parse. destruct (parseValue _ _) as [w r| |] eqn:E; [|done..].
  case_bool_decide as Hr; [|done]. intros _.
  unfold parseFuel in E. rewrite parseValue_S in E. unfold valueBody in E. simpl skipWs in E.
  cbv beta iota in E. change (code (char 123) =? 123)%Z with true in E. cbv iota in E.
  rewrite (scan_skipWs 0 s). destruct (skipWs s) as [|e m]; [done|].
  assert (scan Done r = Done) as Hd by (rewrite scan_done; by rewrite bool_decide_true).
  destruct (code e =? 125)%Z eqn:Ee.
  - injection E as _ <-. rewrite (scan_close 0) by (auto; by left). done.
  - destruct (parseMembers _ (String e m)) eqn:Em; try done. injection E as _ <-.
    by rewrite (proj1 (proj2 (scan_parse _)) _ _ _ 0%nat Em).
Qed.

(** ** Pieces of records *)

(** One level deeper. *)
Definition lift (st : Lex) : Lex :=
  match st with
  | Out d => Out (S d) | Closed d => Closed (S d) | InStr d => InStr (S d) | Esc d => Esc (S d)
  | Done => Out 0
  | Dead => Dead
  end.

Lemma lift_not_done st : lift st <> Done.
Proof. by destruct st. Qed.

Lemma pop_lift d : pop (S d) = lift (pop d).
Proof. by destruct d. Qed.

Lemma lex_lift st c : lex st c <> Dead -> lex (lift st) c = lift (lex st c).
Proof.
  destruct st as [d|d|d|d| |]; cbn [lex lift]; unfold outOfString; intros H.
  1-4: repeat (case_match; try done); by destruct d.
  - destruct (jsonWs c) eqn:E; [|done]. exact (inert_outside 0 c (jsonWs_inert c E)).
  - done.
Qed.

Lemma scan_lift st s : scan st s <> Dead -> scan (lift st) s = lift (scan st s).
Proof.
  revert st. induction s as [|c s IH]; intros st H; [done|]. cbn [scan] in *.
  assert (lex st c <> Dead) as Hc by (intros E; by rewrite E, scan_dead in H).
  by rewrite (lex_lift st c Hc), (IH _ H).
Qed.

Lemma scan_deeper d s :
  scan (Out 0) s <> Dead -> scan (Out d) s <> Dead /\ (d <> 0%nat -> scan (Out d) s <> Done).
Proof.
  intros H. induction d as [|d [IH _]]; [done|].
  change (Out (S d)) with (lift (Out d)). rewrite scan_lift by done.
  split; [by destruct (scan (Out d) s)|]. intros _. apply lift_not_done.
Qed.

End Scan.

Import Scan.

(** The text of an object whose first key starts with a character that cannot follow a
    string. *)
Definition opensKey (s : string) : bool :=
  match s with
  | String a (String b (String c _)) =>
      bool_decide (a = brace) && bool_decide (b = quotation)
      && negb (jsonWs c || (code c =? 58) || (code c =? 44) || (code c =? 125) || (code c =? 93))%Z
  | _ => false
  end.

(** The texts made by one write each, whole or cut, and the texts made of several. *)
Fixpoint glue (ps : list string) : string := match ps with [] => "" | p :: ps => p +:+ glue ps end.

Lemma glue_app ps qs : glue (ps ++ qs) = glue ps +:+ glue qs.
Proof. induction ps as [|p ps IH]; [done|]. simpl. by rewrite IH, string_app_assoc. Qed.

(** Text with a visible character stays, up to and with that character. *)
Lemma trimStart_visible s t : trimStart (s +:+ String brace t) <> "".
Proof.
  assert (solid brace = true) as Hb by done.
  remember (len s) as n eqn:En. revert s En.
  induction (lt_wf n) as [n _ IH]. intros [|a s] ->.
  { change ("" +:+ ?u) with u. by rewrite trimStart_solid. }
  simpl. destruct (ws1 a) eqn:E1; [apply (IH (len s)); [simpl; lia|done]|].
  destruct s as [|b s]; simpl.
  { rewrite (proj2 (solid_ws2 brace a Hb)). destruct t as [|c t]; [done|].
    by rewrite (proj1 (proj2 (solid_ws3 brace a c Hb))). }
  destruct (ws2 a b) eqn:E2; [apply (IH (len s)); [simpl; lia|done]|].
  destruct s as [|d s]; simpl.
  { by rewrite (proj2 (proj2 (solid_ws3 brace a b Hb))). }
  destruct (ws3 a b d) eqn:E3; [apply (IH (len s)); [simpl; lia|done]|done].
Qed.

Lemma trimEnd_visible s t : trimEnd (s +:+ String brace t) = s +:+ trimEnd (String brace t).
Proof.
  induction s as [|a s IH]; [done|]. change (String a s +:+ ?u) with (String a (s +:+ u)).
  cbn [trimEnd]. unfold blank. rewrite bool_decide_false; [by rewrite IH|].
  exact (trimStart_visible (String a s) t).
Qed.

Section pieces.
Context (Q : Json -> Prop).
Context (HQ : forall v, Q v -> printable v = true /\ isPlainObject v = true /\ opensKey (stringify v) = true).

(** What a write of a record leaves: a prefix of its text. *)
Definition piece (p : string) : Prop := p <> "" /\ exists v u, Q v /\ stringify v = p +:+ u.

(** How a piece begins, and where it leaves a reader. *)
Lemma piece_start p :
  piece p -> exists t, p = String brace t /\ scan (Out 0) t <> Dead
    /\ (t = "" \/ exists t', t = String quotation t'
         /\ (t' = "" \/ exists c t'', t' = String c t'' /\ forall d, lex (Closed d) c = Dead)).
Proof using HQ.
  intros (Hp & v & u & Hv & E). destruct (HQ v Hv) as (Hpr & _ & Ho).
  pose proof (JSON_round_trip v Hpr) as Hj. rewrite E in Ho, Hj.
  destruct p as [|a p]; [done|]. change (String a p +:+ u) with (String a (p +:+ u)) in *.
  unfold opensKey in Ho. destruct (p +:+ u) as [|b [|c r]] eqn:Er; [done..|]. bool_hyps. subst a b.
  exists p. split; [done|]. rewrite <- Er in Hj. apply JSON_parse_scan in Hj. rewrite scan_app in Hj. split.
  { intros Hd. by rewrite Hd, scan_dead in Hj. }
  destruct p as [|b p]; [by left|right]. injection Er as -> Er. exists p. split; [done|].
  destruct p as [|c' p]; [by left|right]. injection Er as -> _. exists c, p. split; [done|].
  intros d. cbn [lex]. by repeat match goal with H : _ = false |- _ => rewrite H; clear H end.
Qed.

(** A piece never ends an object that another piece has opened. *)
Lemma piece_continues p st : piece p -> st <> Done -> scan st p <> Done.
Proof using HQ.
  intros Hp Hst. destruct (piece_start p Hp) as (t & -> & Hd & Ht). cbn [scan].
  destruct st as [d|d|d|d| |]; [| | | |done|].
  - change (lex (Out d) brace) with (Out (S d)). by apply (scan_deeper (S d) t Hd).
  - change (lex (Closed d) brace) with Dead. by rewrite scan_dead.
  - change (lex (InStr d) brace) with (InStr d).
    destruct Ht as [->|(t' & -> & [->|(c & t'' & -> & Hc)])]; [done|done|].
    cbn [scan]. change (lex (InStr d) quotation) with (Closed d). by rewrite Hc, scan_dead.
  - change (lex (Esc d) brace) with Dead. by rewrite scan_dead.
  - change (lex Dead brace) with Dead. by rewrite scan_dead.
Qed.

Lemma pieces_continue ps st : Forall piece ps -> st <> Done -> scan st (glue ps) <> Done.
Proof using HQ.
  intros H. revert st. induction H as [|p ps Hp _ IH]; intros st Hst; [done|].
  simpl. rewrite scan_app. by apply IH, piece_continues.
Qed.

(** A line made of two or more pieces is not JSON. *)
Lemma glued_not_JSON p q ps : Forall piece (p :: q :: ps) -> JSON_parse (glue (p :: q :: ps)) = None.
Proof using HQ.
  intros (Hp & (Hq & Hps)%Forall_cons)%Forall_cons.
  destruct (JSON_parse (glue (p :: q :: ps))) as [v|] eqn:E; [|done]. exfalso.
  destruct (piece_start p Hp) as (t & -> & _). change (glue (String brace t :: ?l)) with (String brace (t +:+ glue l)) in E.
  apply JSON_parse_scan in E. revert E. rewrite scan_app.
  destruct (scan (Out 0) t); try (apply pieces_continue; [by constructor|done]).
  destruct (piece_start q Hq) as (t' & -> & _). cbn [glue]. rewrite scan_app.
  change (scan Done (String brace t')) with (scan Dead t'). by rewrite !scan_dead.
Qed.

(** Trimming a line shortens its last piece. *)
Lemma glue_trim ps :
  Forall piece ps -> ps <> [] ->
  exists qs, length qs = length ps /\ Forall piece qs /\ trim (glue ps) = glue qs.
Proof using HQ.
  intros H Hne. destruct ps as [|p ps _] using rev_ind; [done|].
  apply Forall_app in H as [Hps [Hp _]%Forall_cons].
  destruct (piece_start p Hp) as (t & -> & _).
  destruct (trimEnd_prefix (String brace t)) as [u Eu].
  exists (ps ++ [trimEnd (String brace t)]). rewrite !length_app. split; [done|].
  assert (trimStart (glue (ps ++ [String brace t])) = glue (ps ++ [String brace t])) as Es.
  { destruct ps as [|p ps].
    - change (glue ([] ++ [String brace t])) with (String brace (t +:+ "")). by apply trimStart_solid.
    - apply Forall_cons in Hps as [(t' & -> & _)%piece_start _].
      change (glue ((String brace t' :: ps) ++ ?l)) with (String brace (t' +:+ glue (ps ++ l))).
      by apply trimStart_solid. }
  split.
  - apply Forall_app. split; [done|]. apply Forall_singleton. split.
    + cbn [trimEnd]. unfold blank. rewrite bool_decide_false; [done|]. by rewrite trimStart_solid.
    + destruct Hp as (_ & v & w & Hv & E). exists v, (u +:+ w). split; [done|].
      by rewrite E, Eu at 1; rewrite string_app_assoc.
  - unfold trim. rewrite Es, !glue_app. simpl glue. rewrite !string_app_nil_r. apply trimEnd_visible.
Qed.

(** A line of pieces that is JSON is one whole record. *)
Lemma line_parse ps v : Forall piece ps -> JSON_parse (trim (glue ps)) = Some v -> Q v.
Proof using HQ.
  intros Hps. destruct ps as [|p ps]; [done|].
  destruct (glue_trim (p :: ps) Hps ltac:(done)) as ([|q [|q' qs]] & Hl & Hqs & ->); [done| |].
  - apply Forall_cons in Hqs as [(_ & w & u & Hw & E) _]. simpl glue. rewrite string_app_nil_r.
    destruct (HQ w Hw) as (Hp & Ho & _). destruct w as [| | | | | |fs]; try done.
    destruct (decide (u = "")) as [->|Hu].
    + rewrite string_app_nil_r in E. rewrite <- E, JSON_round_trip by done. by intros [= <-].
    + by rewrite (torn_object_not_JSON fs q u).
  - by rewrite glued_not_JSON.
Qed.

Lemma line_blank ps : Forall piece ps -> trim (glue ps) = "" -> ps = [].
Proof using HQ.
  intros Hps E. destruct ps as [|p ps]; [done|].
  destruct (glue_trim (p :: ps) Hps ltac:(done)) as ([|q qs] & Hl & Hqs & Et); [done|].
  rewrite Et in E. apply Forall_cons in Hqs as [(Hq & _) _]. by destruct q.
Qed.

Lemma piece_oneLine p : piece p -> oneLine p = true.
Proof using HQ.
  intros (_ & v & u & Hv & E). eapply oneLine_prefix. rewrite <- E. apply oneLine_stringify, HQ, Hv.
Qed.

Lemma glue_oneLine ps : Forall piece ps -> oneLine (glue ps) = true.
Proof using HQ.
  induction 1 as [|p ps Hp _ IH]; [done|]. simpl. by rewrite oneLine_app, (piece_oneLine p Hp).
Qed.

(** Closed lines of pieces. *)
Definition linesText (closed : list (list string)) : string :=
  foldr (fun ps t => endLine (glue ps) +:+ t) "" closed.

Lemma linesText_app l l' : linesText (l ++ l') = linesText l +:+ linesText l'.
Proof. induction l as [|ps l IH]; [done|]. simpl. by rewrite IH, string_app_assoc. Qed.

Lemma splitLines_pieces closed open :
  Forall (Forall piece) closed -> Forall piece open ->
  splitLines (linesText closed +:+ glue open) = List.map glue (closed ++ [open]).
Proof using HQ.
  intros Hc Ho. induction Hc as [|ps closed Hps _ IH]; simpl.
  - by rewrite splitLines_last by (by apply glue_oneLine).
  - rewrite string_app_assoc, splitLines_line by (by apply glue_oneLine). by rewrite IH.
Qed.

Context (path : string) (syntaxError : string -> string) (admit_record : Json -> option string).

(** Whatever the pieces make, a reading that succeeds adds whole records to those read
    before, numbered after them, at most one per piece. *)
Lemma readLines_pieces i acc lines records :
  Forall (Forall piece) lines ->
  readLines path syntaxError admit_record i acc (List.map glue lines) = inr records ->
  exists more, records = acc ++ more /\ Forall Q more /\ (length more <= length (concat lines))%nat
    /\ forall k v, more !! k = Some v -> exists n, prop "seq" v = J_number n
         /\ neq n (nint (Z.of_nat (length acc + k))) = true.
Proof using HQ.
  revert i acc. induction lines as [|ps lines IH]; intros i acc H E; cbn [List.map readLines] in E.
  { injection E as <-. exists []. rewrite app_nil_r. by split_and!; [| |simpl; lia|]. }
  apply Forall_cons in H as [Hps H]. cbv zeta in E. cbn [concat]. rewrite length_app.
  case_bool_decide as Hb.
  { destruct (IH _ _ H E) as (more & -> & ? & ? & ?). exists more. split_and!; [done|done|lia|done]. }
  assert (exists more, acc = acc ++ more /\ Forall Q more /\ (length more <= length ps + length (concat lines))%nat
    /\ forall k v, more !! k = Some v -> exists n, prop "seq" v = J_number n
         /\ neq n (nint (Z.of_nat (length acc + k))) = true) as Hnil.
  { exists []. rewrite app_nil_r. by split_and!; [| |simpl; lia|]. }
  assert (ps <> []) as Hne by (by intros ->).
  destruct (JSON_parse (trim (glue ps))) as [v|] eqn:Ej.
  2:{ destruct (List.forallb _ _); [|done]. by injection E as <-. }
  destruct (admit_record v); [done|]. fold (prop "seq" v) in E.
  destruct (prop "seq" v) as [| | |n| | |] eqn:Es; try done.
  destruct (neq n _) eqn:En; [|done].
  destruct (IH _ _ H E) as (more & -> & HF & Hl & Hk). exists (v :: more).
  rewrite <- app_assoc. split; [done|]. split; [constructor; [by eapply line_parse|done]|].
  split; [destruct ps; [done|simpl; lia]|].
  intros [|k] w; simpl.
  - intros [= <-]. exists n. by rewrite Nat.add_0_r.
  - intros Hw. destruct (Hk k w Hw) as (m & Em & Hm). exists m. split; [done|].
    rewrite length_app, Nat.add_1_r in Hm. by rewrite Nat.add_succ_r.
Qed.
End pieces.

(** ** The store over any writes

    Whatever the writes leave behind, the settled records stay the first of the file, and
    what follows them is made of pieces of records that were appended. *)

Section torn.
Context (Q : Json -> Prop).
Context (HQ : forall v, Q v -> printable v = true /\ isPlainObject v = true /\ opensKey (stringify v) = true).
Context (path : string) (syntaxError : string -> string) (admit_record : Json -> option string).

(** The file starts with these records; at most n writes came after them. *)
Definition mayHold (rs : list Json) (n : nat) (s : FileState) : Prop :=
  wellFormedFrom admit_record 0 rs
  /\ (exists closed open, Forall (Forall (piece Q)) closed /\ Forall (piece Q) open
       /\ default "" (fs_text s) = journalText rs +:+ linesText closed +:+ glue open
       /\ (length (concat closed) + length open <= n)%nat)
  /\ match fs_nextSeq s with Some k => (k <= length rs + n)%nat | None => True end.

Lemma mayHold_pop rs n s : mayHold rs n s -> mayHold rs n (popFault s).
Proof. done. Qed.

Lemma mayHold_restart rs n s : mayHold rs n s -> mayHold rs n (restart s).
Proof. by intros (? & ? & _). Qed.

Lemma mayHold_seq rs n s k : mayHold rs n s -> (k <= length rs + n)%nat -> mayHold rs n (withNextSeq (Some k) s).
Proof. by intros (? & ? & _). Qed.

Lemma mayHold_start rs n s :
  wellFormedFrom admit_record 0 rs -> default "" (fs_text s) = journalText rs ->
  match fs_nextSeq s with Some k => (k <= length rs + n)%nat | None => True end -> mayHold rs n s.
Proof.
  intros Hw Ht Hn. split; [done|]. split; [|done]. exists [], [].
  split_and!; [constructor..| |simpl; lia]. simpl. by rewrite string_app_nil_r.
Qed.

(** The records a reading gives: the settled ones, and some of those appended since. *)
Definition readsMore (rs : list Json) (n : nat) (l : list Json) : Prop :=
  exists more, l = rs ++ more /\ Forall Q more /\ (length more <= n)%nat
    /\ forall k v, more !! k = Some v -> exists m, prop "seq" v = J_number m
         /\ neq m (nint (Z.of_nat (length rs + k))) = true.

Lemma readAllJson_torn rs n s :
  mayHold rs n s ->
  wp (readAllJson path syntaxError admit_record)
    (fun r s' => s' = popFault s /\ match r with inr l => readsMore rs n l | inl _ => True end) s.
Proof using HQ.
  intros (Hw & (closed & open & Hc & Ho & Ht & Hl) & _).
  assert (match fs_text s with
    | None => readsMore rs n []
    | Some raw => forall l, readLines path syntaxError admit_record 0 [] (splitLines raw) = inr l -> readsMore rs n l
    end) as K.
  { assert (forall raw, raw = journalText rs +:+ linesText closed +:+ glue open -> forall l,
      readLines path syntaxError admit_record 0 [] (splitLines raw) = inr l -> readsMore rs n l) as R.
    { intros raw -> l E. rewrite read_after, (splitLines_pieces Q HQ) in E by done.
      apply (readLines_pieces Q HQ) in E as (more & -> & HF & Hm & Hk); [|apply Forall_app; by split; [|constructor]].
      exists more. split_and!; [done|done| |done].
      revert Hm. rewrite concat_app, length_app. simpl. rewrite app_nil_r. lia. }
    destruct (fs_text s) as [raw|]; simpl in Ht; [by apply R|]. by apply (R ""). }
  unfold readAllJson, readFile. apply wp_bind, wp_bind, wp_gets, wp_bind, wp_modify.
  assert (wp (X := JournalExn) (gets fs_text) (fun r s' => match r with
    | inr raw => wp (match raw with
        | Some raw => match readLines path syntaxError admit_record 0 [] (splitLines raw) with
            | inl e => throw e | inr records => ret records end
        | None => ret [] end) (fun r s' => s' = popFault s
                 /\ match r with inr l => readsMore rs n l | inl _ => True end) s'
    | inl x => s' = popFault s /\ True
    end) (popFault s)) as G.
  { apply wp_gets. simpl fs_text. destruct (fs_text s) as [raw|]; [|by apply wp_ret].
    destruct (readLines _ _ _ _ _ _) eqn:E; [by apply wp_throw|]. apply wp_ret. auto. }
  destruct (nextFault s); [exact G|by apply wp_throw|exact G].
Qed.

(** Any write of a record leaves a piece of it, or all of its line. *)
Lemma substring_prefix k t : exists u, t = String.substring 0 k t +:+ u.
Proof.
  revert k. induction t as [|c t IH]; intros [|k]; simpl; try (by eexists).
  destruct (IH k) as [u E]. exists u. change (String c t = String c (String.substring 0 k t +:+ u)). by rewrite <- E.
Qed.

Lemma mayHold_write rs n s v p u :
  mayHold rs n s -> Q v -> endLine (stringify v) = p +:+ u ->
  mayHold rs (S n) (withText (Some (default "" (fs_text s) +:+ p)) s).
Proof using HQ.
  intros (Hw & (closed & open & Hc & Ho & Ht & Hl) & Hs) Hv E.
  assert (stringify v <> "") as Hne.
  { destruct (HQ v Hv) as (_ & _ & Hk). by intros E0; rewrite E0 in Hk. }
  split; [done|]. split; [|simpl; destruct (fs_nextSeq s); [lia|done]]. simpl. rewrite Ht.
  destruct (decide (u = "")) as [->|Hu].
  - rewrite string_app_nil_r in E. subst p. exists (closed ++ [open ++ [stringify v]]), [].
    split_and!; [|constructor| |].
    + apply Forall_app; split; [done|]. constructor; [|done]. apply Forall_app; split; [done|].
      constructor; [|done]. split; [done|]. exists v, "". by rewrite string_app_nil_r.
    + rewrite linesText_app. simpl. rewrite glue_app. simpl. unfold endLine.
      by rewrite !string_app_nil_r, !string_app_assoc.
    + rewrite concat_app, length_app. simpl. rewrite app_nil_r, length_app. simpl. lia.
  - destruct (endLine_split _ _ _ E Hu) as (u' & -> & Ev). destruct (decide (p = "")) as [->|Hp].
    + exists closed, open. rewrite string_app_nil_r. split_and!; [done..|lia].
    + exists closed, (open ++ [p]). split_and!; [done| | |rewrite length_app; simpl; lia].
      * apply Forall_app; split; [done|]. constructor; [|done]. split; [done|]. by exists v, u'.
      * rewrite glue_app. simpl. by rewrite string_app_nil_r, !string_app_assoc.
Qed.

Lemma appendFile_torn rs n s v :
  mayHold rs n s -> Q v ->
  wp (appendFile (endLine (stringify v))) (fun _ s' => mayHold rs (S n) s' /\ fs_nextSeq s' = fs_nextSeq s) s.
Proof using HQ.
  intros H Hv. unfold appendFile. apply wp_bind, wp_gets, wp_bind, wp_modify, wp_bind, wp_gets.
  pose proof (mayHold_pop rs n s H) as Hp.
  assert (wp (X := JournalExn)
    (modify (withText (Some (default "" (fs_text (popFault s)) +:+ endLine (stringify v)))))
    (fun _ s' => mayHold rs (S n) s' /\ fs_nextSeq s' = fs_nextSeq s) (popFault s)) as G.
  { apply wp_modify. split; [|done]. apply (mayHold_write rs n _ v _ "" Hp Hv). by rewrite string_app_nil_r. }
  destruct (nextFault s) as [| |k m]; [exact G..|].
  apply wp_bind, wp_modify, wp_throw. split; [|done].
  destruct (substring_prefix k (endLine (stringify v))) as [u E]. by eapply mayHold_write.
Qed.

(** An append, returning or not, whatever its write leaves. *)
Lemma appendJson_torn rs n (record : nat -> Json) s :
  mayHold rs n s -> (forall k, (k <= length rs + n)%nat -> Q (record k)) ->
  wp (appendJson path syntaxError admit_record record)
    (fun r s' => mayHold rs (S n) s' /\ match r with inr seq => (seq <= length rs + n)%nat | inl _ => True end) s.
Proof using HQ.
  intros H Hr.
  assert (forall s1 k, mayHold rs n s1 -> fs_nextSeq s1 = Some k ->
    wp (bind (gets fs_nextSeq) (fun cached => let seq := default 0 cached in
         bind (appendFile (endLine (stringify (record seq)))) (fun _ =>
         bind (modify (withNextSeq (Some (S seq)))) (fun _ => ret seq))))
      (fun (r : JournalExn + nat) s' => mayHold rs (S n) s'
         /\ match r with inr seq => (seq <= length rs + n)%nat | inl _ => True end) s1) as K.
  { intros s1 k H1 Hk. apply wp_bind, wp_gets. rewrite Hk. cbv zeta. simpl default.
    assert (k <= length rs + n)%nat as Hle by (destruct H1 as (_ & _ & H1); by rewrite Hk in H1).
    apply wp_bind. eapply wp_mono; [by apply appendFile_torn, Hr|].
    intros [e|[]] s2 [H2 _]; [done|]. apply wp_bind, wp_modify, wp_ret. split; [|done].
    apply mayHold_seq; [done|lia]. }
  unfold appendJson. apply wp_bind, wp_gets. destruct (fs_nextSeq s) as [k|] eqn:Ek.
  - apply wp_bind, wp_ret. by eapply K.
  - apply wp_bind, wp_bind. eapply wp_mono; [by apply readAllJson_torn|].
    intros [e|l] s1 [-> Hl].
    { split; [|done]. apply mayHold_pop in H as (Hw & (closed & open & ? & ? & ? & Hn) & Hs).
      split; [done|]. split; [exists closed, open; split_and!; [done..|lia]|]. by destruct (fs_nextSeq _); [lia|]. }
    apply wp_modify. destruct Hl as (more & -> & _ & Hm & _).
    eapply K; [|done]. apply mayHold_seq; [by apply mayHold_pop|]. rewrite length_app. lia.
Qed.

(** ** Appends that all return *)

(** The file is whole: its lines are exactly these records. *)
Definition fileWhole (rs : list Json) (s : FileState) : Prop :=
  wellFormedFrom admit_record 0 rs /\ default "" (fs_text s) = journalText rs
  /\ (fs_nextSeq s = None \/ fs_nextSeq s = Some (length rs)).

(** An append to a whole file that returns has added its record, whatever else the file
    system is about to do. *)
Lemma appendJson_whole rs (record : nat -> Json) s :
  fileWhole rs s -> wellFormed admit_record (length rs) (record (length rs)) ->
  wp (appendJson path syntaxError admit_record record)
    (fun r s' => match r with
       | inr seq => seq = length rs /\ fileWhole (rs ++ [record seq]) s'
       | inl _ => True end) s.
Proof.
  intros (Hw & Ht & Hn) Hr.
  assert (forall s1, fileWhole rs s1 -> fs_nextSeq s1 = Some (length rs) ->
    wp (bind (gets fs_nextSeq) (fun cached => let seq := default 0 cached in
         bind (appendFile (endLine (stringify (record seq)))) (fun _ =>
         bind (modify (withNextSeq (Some (S seq)))) (fun _ => ret seq))))
      (fun (r : JournalExn + nat) s' => match r with
       | inr seq => seq = length rs /\ fileWhole (rs ++ [record seq]) s'
       | inl _ => True end) s1) as K.
  { intros s1 (_ & Ht1 & _) Hk. apply wp_bind, wp_gets. rewrite Hk. cbv zeta. simpl default.
    apply wp_bind. unfold appendFile. apply wp_bind, wp_gets, wp_bind, wp_modify, wp_bind, wp_gets.
    assert (fileWhole (rs ++ [record (length rs)]) (withNextSeq (Some (S (length rs)))
      (withText (Some (default "" (fs_text (popFault s1)) +:+ endLine (stringify (record (length rs))))) (popFault s1)))) as G.
    { split_and!; simpl.
      - apply wellFormedFrom_app. by split.
      - by rewrite Ht1, journalText_app, (string_app_nil_r (endLine _) : journalText [_] = _).
      - right. f_equal. rewrite length_app. simpl. lia. }
    destruct (nextFault s1).
    1-2: by apply wp_modify, wp_bind, wp_modify, wp_ret.
    by apply wp_bind, wp_modify, wp_throw. }
  assert (forall s1, fs_text s1 = fs_text s -> fs_nextSeq s1 = Some (length rs) -> fileWhole rs s1) as W
    by (intros s1 Et Es; split_and!; [done|by rewrite Et|by right]).
  unfold appendJson. apply wp_bind, wp_gets. destruct Hn as [Hn|Hn]; rewrite Hn; [|apply wp_bind, wp_ret, K; auto].
  apply wp_bind, wp_bind. unfold readAllJson, readFile.
  apply wp_bind, wp_bind, wp_gets, wp_bind, wp_modify.
  assert (match fs_text s with
    | Some raw => readLines path syntaxError admit_record 0 [] (splitLines raw) = inr rs
    | None => rs = [] end) as Hread.
  { destruct (fs_text s) as [raw|]; simpl in Ht; [subst raw; by apply read_journal|].
    destruct rs as [|r rs]; [done|]. exfalso. simpl in Ht. destruct Hw as [(Hp & _) _].
    destruct (stringify_start _ Hp) as (c & t & E & _). by rewrite E in Ht. }
  destruct (nextFault s); [|by apply wp_throw|]; apply wp_gets; simpl fs_text.
  all: destruct (fs_text s) as [raw|] eqn:Er; [rewrite Hread|rewrite Hread in *];
    apply wp_ret, wp_modify, K; try done; by apply W.
Qed.
End torn.

(** * What reading any text as a journal gives

    The outcome of [readLines] on arbitrary lines, in terms of the parser at any fuel
    that is enough for the whole text: the records of a prefix of the lines, and why the
    reading stopped there. *)

(** ** The lengths of lines *)

Lemma trimEnd_len s : (len (trimEnd s) <= len s)%nat.
Proof. destruct (trimEnd_prefix s) as [u E]. rewrite E at 2. rewrite len_app. lia. Qed.

Lemma trimStart_len s : (len (trimStart s) <= len s)%nat.
Proof.
  induction s as [s IH] using (induction_ltof1 string len). unfold ltof in IH.
  assert (forall t, (len t < len s)%nat -> (len (trimStart t) <= len s)%nat) as K
    by (intros t Ht; pose proof (IH t Ht); lia).
  destruct s as [|a [|b [|c s]]]; cbn [trimStart]; repeat case_match; try (apply K); simpl; lia.
Qed.

Lemma trim_len s : (len (trim s) <= len s)%nat.
Proof. unfold trim. etransitivity; [apply trimEnd_len|apply trimStart_len]. Qed.

Lemma splitLines_len s : Forall (fun l => (len l <= len s)%nat) (splitLines s).
Proof.
  induction s as [|c s IH]; simpl; [by repeat constructor|].
  destruct (splitLines_cons s) as (l & ls & E). rewrite E in *. apply Forall_cons in IH as [H1 H2].
  assert (Forall (fun l => (len l <= S (len s))%nat) ls) as H3 by (eapply Forall_impl; [exact H2|simpl; lia]).
  case_bool_decide; repeat (apply Forall_cons; split); simpl; try lia; done.
Qed.

(** The lines of a text that are not blank, trimmed. *)
Definition contentLines (lines : list string) : list string :=
  filter (fun l => l <> "") (List.map trim lines).

Lemma contentLines_blank lines :
  List.forallb (fun l => bool_decide (trim l = "")) lines = true <-> contentLines lines = [].
Proof.
  unfold contentLines. induction lines as [|l lines IH]; [done|]. cbn [List.forallb List.map].
  rewrite filter_cons, andb_true_iff, IH, bool_decide_eq_true.
  case_decide as H; [by split; [intros [? _]|]|]. tauto.
Qed.

(** ** What a line says *)

Section reads.
Context (path : string) (syntaxError : string -> string) (admit_record : Json -> option string).
Context (f : nat).

(** The parser reads the whole line as this value. *)
Definition parses (l : string) (v : Json) : Prop := exists rest, parseValue f l = Ok v rest /\ skipWs rest = "".

Definition numberedAs (k : nat) (v : Json) : Prop :=
  exists n, prop "seq" v = J_number n /\ neq n (nint (Z.of_nat k)) = true.

(** The k-th record of a journal. *)
Definition journalLine (k : nat) (l : string) (v : Json) : Prop :=
  parses l v /\ admit_record v = None /\ numberedAs k v.

Definition journalLines (n : nat) (lines : list string) (records : list Json) : Prop :=
  forall k v, records !! k = Some v -> exists l, lines !! k = Some l /\ journalLine (n + k) l v.

(** Every line is a record, or all but a last one that is not JSON. *)
Definition wholeOrTorn (lines : list string) (records : list Json) : Prop :=
  length records = length lines
  \/ length lines = S (length records)
     /\ exists l, lines !! length records = Some l /\ forall v, ~ parses l v.

(** The line after the records is corrupt: not JSON though others follow, not admitted, or
    out of sequence. *)
Definition corruptAfter (n : nat) (lines : list string) (records : list Json) : Prop :=
  exists l, lines !! length records = Some l
    /\ ((forall v, ~ parses l v) /\ (S (length records) < length lines)%nat
        \/ exists v, parses l v /\ (admit_record v <> None \/ ~ numberedAs (n + length records) v)).

Definition readOutcome (n : nat) (lines : list string) (r : JournalExn + list Json) : Prop :=
  exists records, journalLines n lines records /\ match r with
    | inr read => read = records /\ wholeOrTorn lines records
    | inl e => (exists text, e = CorruptionError text) /\ corruptAfter n lines records end.

Lemma parses_JSON l v : (parseFuel l <= f)%nat -> parses l v <-> JSON_parse l = Some v.
Proof.
  intros Hf. split.
  - intros (rest & E & Er). rewrite (JSON_parse_Ok f l v rest E). by rewrite bool_decide_true.
  - unfold JSON_parse. destruct (parseValue (parseFuel l) l) as [w rest| |] eqn:E; try done.
    case_bool_decide; [|done]. intros [= ->]. exists rest. split; [|done].
    by apply (parseValue_more (parseFuel l)).
Qed.

Lemma journalLines_nil n lines : journalLines n lines [].
Proof. by intros k v. Qed.

Lemma journalLines_cons n l lines v records :
  journalLine n l v -> journalLines (S n) lines records -> journalLines n (l :: lines) (v :: records).
Proof.
  intros H Hs [|k] w; simpl.
  - intros [= <-]. exists l. by rewrite Nat.add_0_r.
  - intros E. destruct (Hs k w E) as (l' & El & Hl). exists l'. by rewrite Nat.add_succ_r.
Qed.

(** A record in front of an outcome. *)
Lemma readOutcome_cons n l lines v r :
  journalLine n l v -> readOutcome (S n) lines r ->
  readOutcome n (l :: lines) (match r with inl e => inl e | inr read => inr (v :: read) end).
Proof.
  intros Hl (records & Hj & Hr). exists (v :: records). split; [by apply journalLines_cons|].
  destruct r as [e|read].
  - destruct Hr as [He (l' & El & Hc)]. split; [done|]. exists l'. split; [done|].
    destruct Hc as [[? ?]|(w & Hw & Hc)]; [left; simpl; split; [done|lia]|right].
    exists w. simpl length. by rewrite Nat.add_succ_r.
  - destruct Hr as [-> [E|(E & l' & El & Hn)]]; split; try done; [left; simpl; by rewrite E|right].
    simpl length. split; [by rewrite E|]. by exists l'.
Qed.

Lemma readLines_outcome i acc lines :
  Forall (fun l => (parseFuel (trim l) <= f)%nat) lines ->
  exists r, readOutcome (length acc) (contentLines lines) r
    /\ readLines path syntaxError admit_record i acc lines
       = match r with inl e => inl e | inr read => inr (acc ++ read) end.
Proof.
  revert i acc. induction lines as [|l lines IH]; intros i acc H; cbn [readLines].
  { exists (inr []). split; [|by rewrite app_nil_r]. exists []. split; [apply journalLines_nil|]. by split; [|left]. }
  apply Forall_cons in H as [Hl Hs]. unfold contentLines. cbn [List.map]. rewrite filter_cons. cbv zeta.
  case_bool_decide as Hb; [rewrite decide_False by (by intros ?); by apply IH|].
  rewrite decide_True by done. fold (contentLines lines).
  assert (readOutcome (length acc) (trim l :: contentLines lines) (inr []) -> exists r,
    readOutcome (length acc) (trim l :: contentLines lines) r
    /\ inr acc = match r with inl e => inl e | inr read => inr (acc ++ read) end :> JournalExn + list Json) as Kr
    by (intros K; exists (inr []); by rewrite app_nil_r).
  assert (forall text, corruptAfter (length acc) (trim l :: contentLines lines) [] -> exists r,
    readOutcome (length acc) (trim l :: contentLines lines) r
    /\ inl (CorruptionError text) = match r with inl e => inl e | inr read => inr (acc ++ read) end) as Kl.
  { intros text K. exists (inl (CorruptionError text)). split; [|done]. exists [].
    split; [apply journalLines_nil|]. split; [by exists text|done]. }
  destruct (JSON_parse (trim l)) as [v|] eqn:E.
  - apply parses_JSON in E; [|done]. destruct (admit_record v) as [detail|] eqn:Ea.
    { apply Kl. exists (trim l). split; [done|]. right. exists v. split; [done|]. left. by rewrite Ea. }
    fold (prop "seq" v). destruct (prop "seq" v) as [| | |n| | |] eqn:Es;
      try (apply Kl; exists (trim l); split; [done|]; right; exists v; split; [done|]; right;
           intros (n & En & _); congruence).
    destruct (neq n (nint (Z.of_nat (length acc)))) eqn:En.
    + destruct (IH (S i) (acc ++ [v]) Hs) as (r & Hr & Er). rewrite Er. rewrite length_app, Nat.add_1_r in Hr.
      eexists. split; [apply (readOutcome_cons _ (trim l) _ v r); [split_and!; [done|done|by exists n]|exact Hr]|].
      destruct r; [done|]. by rewrite <- app_assoc.
    + apply Kl. exists (trim l). split; [done|]. right. exists v. split; [done|]. right.
      intros (m & Em & Hm). simpl in Hm. rewrite Nat.add_0_r in Hm. congruence.
  - assert (forall v, ~ parses (trim l) v) as Hn by (intros v Hv; apply parses_JSON in Hv; [congruence|done]).
    destruct (List.forallb _ lines) eqn:Eb.
    + apply contentLines_blank in Eb. apply Kr. exists []. split; [apply journalLines_nil|]. split; [done|].
      right. rewrite Eb. split; [done|]. by exists (trim l).
    + apply Kl. exists (trim l). split; [done|]. left. split; [done|]. simpl.
      destruct (contentLines lines) eqn:Ec; [apply contentLines_blank in Ec; congruence|simpl; lia].
Qed.

(** Enough fuel for the whole text is enough for each of its lines. *)
Lemma readLines_text raw :
  (parseFuel raw <= f)%nat ->
  readOutcome 0 (contentLines (splitLines raw)) (readLines path syntaxError admit_record 0 [] (splitLines raw)).
Proof.
  intros Hf. destruct (readLines_outcome 0 [] (splitLines raw)) as (r & Hr & ->); [|by destruct r].
  eapply Forall_impl; [apply splitLines_len|]. intros l Hl. pose proof (trim_len l). unfold parseFuel in *.
  change String.length with len in *. lia.
Qed.
End reads.
