(* ===== verification/RiskJournal.v ===== *)
(** * RiskJournal: the risk events, their fold and their stores

    services/workers/src/risk: state.ts (the fold that rebuilds the control state),
    events.ts (admission of a parsed record, the in-memory and the file store) and
    recovery.ts.  The two stores are instances of the class [RiskEventStore]; what the
    engine relies on is the class [RiskEventStoreLaws].

    The order a record carries is the JSON object of the order (nothing reads it back). *)

From stdpp Require Import gmap.
From S2P Require Import Prelude JsNumber JsText JsDecimal Json Effects Journal StageTypes MarketState RiskModel.

Local Open Scope string_scope.
Local Open Scope list_scope.
Local Open Scope eff_scope.

(** ** Records (types.ts) *)

Record RiskJournalInput := {
  ri_type : RiskEventType;
  ri_reason : string;
  ri_detail : string;
  ri_symbol : option string;
  ri_capital : option CapitalSnapshot;
  ri_trigger : option KillSwitchTrigger;
  ri_order : option Json
}.

Record RiskJournalRecord := { rj_input : RiskJournalInput; rj_seq : nat }.

(** ** The control state (types.ts, state.ts) *)

Inductive HaltCause := Trigger (t : KillSwitchTrigger) | MANUAL.

#[export] Instance HaltCause_eq_dec : EqDecision HaltCause.
Proof. solve_decision. Defined.

Definition showCause (c : HaltCause) : string :=
  match c with Trigger t => showTrigger t | MANUAL => "MANUAL" end.

Record RiskControlState := {
  rs_halted : bool;
  rs_trigger : option HaltCause;
  rs_haltDetail : option string;
  rs_haltedAtSeq : option nat;
  rs_baselineEquity : option string;
  rs_peakEquity : option string;
  rs_checksPassed : nat;
  rs_checksFailed : nat
}.

#[export] Instance RiskControlState_eq_dec : EqDecision RiskControlState.
Proof. solve_decision. Defined.

Definition initialRiskControlState : RiskControlState := {|
  rs_halted := false;
  rs_trigger := None;
  rs_haltDetail := None;
  rs_haltedAtSeq := None;
  rs_baselineEquity := None;
  rs_peakEquity := None;
  rs_checksPassed := 0;
  rs_checksFailed := 0
|}.

Definition asHaltCause (record : RiskJournalInput) : HaltCause :=
  match ri_trigger record with Some t => Trigger t | None => MANUAL end.

(** The session baseline and the high-water mark after observing a capital snapshot. *)
Definition observeEquity (baselineEquity peakEquity : option string) (capital : option CapitalSnapshot) :
    option string * option string :=
  match capital with
  | None => (baselineEquity, peakEquity)
  | Some c =>
      let equity := parseDecimal (cs_accountEquity c) in
      let baseline := match baselineEquity with None => Some (quantizePnl equity) | b => b end in
      let priorPeak := match peakEquity with None => Inf true | Some p => parseDecimal p end in
      (baseline, if ngt equity priorPeak then Some (quantizePnl equity) else peakEquity)
  end.

Definition applyRiskRecord (state : RiskControlState) (record : RiskJournalRecord) : RiskControlState :=
  let input := rj_input record in
  let '(baselineEquity, peakEquity) :=
    observeEquity (rs_baselineEquity state) (rs_peakEquity state) (ri_capital input) in
  let engages := match ri_type input with KILL_SWITCH_TRIGGERED | TRADING_HALTED => true | _ => false end in
  let resumes := bool_decide (ri_type input = TRADING_RESUMED) in
  let first := engages && negb (rs_halted state) in
  {|
    rs_halted := if resumes then false else if engages then true else rs_halted state;
    rs_trigger := if resumes then None else if first then Some (asHaltCause input) else rs_trigger state;
    rs_haltDetail := if resumes then None else if first then Some (ri_detail input) else rs_haltDetail state;
    rs_haltedAtSeq := if resumes then None else if first then Some (rj_seq record) else rs_haltedAtSeq state;
    rs_baselineEquity := baselineEquity;
    rs_peakEquity := peakEquity;
    rs_checksPassed :=
      if bool_decide (ri_type input = RISK_CHECK_PASSED) then S (rs_checksPassed state) else rs_checksPassed state;
    rs_checksFailed :=
      if bool_decide (ri_type input = RISK_CHECK_FAILED) then S (rs_checksFailed state) else rs_checksFailed state
  |}.

Definition reconstructRiskState (records : list RiskJournalRecord) (seed : RiskControlState) : RiskControlState :=
  foldl applyRiskRecord seed records.

(** ** The JSON of a record *)

Definition capitalJson (c : CapitalSnapshot) : Json :=
  J_object [
    ("accountEquity", J_string (cs_accountEquity c));
    ("availableCash", J_string (cs_availableCash c));
    ("usedMargin", J_string (cs_usedMargin c));
    ("availableMargin", J_string (cs_availableMargin c));
    ("unrealizedPnl", J_string (cs_unrealizedPnl c));
    ("realizedPnl", J_string (cs_realizedPnl c));
    ("grossExposure", J_string (cs_grossExposure c));
    ("netExposure", J_string (cs_netExposure c))
  ].

Definition orderJson (o : ProposedOrder) : Json :=
  J_object [
    ("symbol", J_string (po_symbol o));
    ("side", J_string (showSide (po_side o)));
    ("targetQuantity", J_string (po_targetQuantity o));
    ("targetNotional", J_string (po_targetNotional o));
    ("price", J_string (po_price o));
    ("strategyId", J_string (po_strategyId o))
  ].

Definition orNull {A} (f : A -> Json) (o : option A) : Json :=
  match o with Some a => f a | None => J_null end.

(** [{ ...input, seq }] *)
Definition riskRecordJson (r : RiskJournalRecord) : Json :=
  let i := rj_input r in
  J_object [
    ("type", J_string (showEventType (ri_type i)));
    ("reason", J_string (ri_reason i));
    ("detail", J_string (ri_detail i));
    ("symbol", orNull J_string (ri_symbol i));
    ("capital", orNull capitalJson (ri_capital i));
    ("trigger", orNull (fun t => J_string (showTrigger t)) (ri_trigger i));
    ("order", orNull id (ri_order i));
    ("seq", J_number (nint (Z.of_nat (rj_seq r))))
  ].

(** ** Admission (events.ts) *)

Definition RISK_EVENT_TYPE_SET : list string := List.map showEventType RISK_EVENT_TYPES.
Definition KILL_SWITCH_TRIGGER_SET : list string := List.map showTrigger KILL_SWITCH_TRIGGERS.

Definition CAPITAL_FIELDS : list string :=
  ["accountEquity"; "availableCash"; "usedMargin"; "availableMargin"; "unrealizedPnl"; "realizedPnl";
   "grossExposure"; "netExposure"].

(** [isCanonicalDecimalString(v, dp)] of an unknown value. *)
Definition isCanonicalDecimal (v : Json) (dp : nat) : bool :=
  match v with J_string s => isCanonicalDecimalString s dp | _ => false end.

Definition capitalTests (capital : Json) : list (bool * string) :=
  match capital with
  | J_null => []
  | _ =>
      (negb (isPlainObject capital), "capital is not a JSON object or null")
      :: List.map (fun f => (negb (isCanonicalDecimal (prop f capital) NOTIONAL_DP),
           "capital." +:+ f +:+ " is not a canonical 2dp decimal string")) CAPITAL_FIELDS
  end.

(** assertValidRiskJournalRecord: the detail of the rejection, or None for an admitted
    record. *)
Definition assertValidRiskJournalRecord (v : Json) : option string :=
  let seq := prop "seq" v in
  let type := prop "type" v in
  let trigger := prop "trigger" v in
  let order := prop "order" v in
  firstRejection ([
    (negb (isPlainObject v), "record is not a JSON object");
    (negb (match seq with J_number n => isInteger n && negb (nlt n (nint 0)) | _ => false end),
       "seq is not a non-negative integer");
    (negb (isOneOf RISK_EVENT_TYPE_SET type),
       "type " +:+ quoted (jsString type) +:+ " is not a known risk event type");
    (negb (bool_decide (typeof (prop "reason" v) = "string")), "reason is not a string");
    (negb (bool_decide (typeof (prop "detail" v) = "string")), "detail is not a string");
    (match prop "symbol" v with J_null | J_string _ => false | _ => true end, "symbol is not a string or null")
  ] ++ capitalTests (prop "capital" v) ++ [
    (match trigger with J_null => false | _ => negb (isOneOf KILL_SWITCH_TRIGGER_SET trigger) end,
       "trigger " +:+ quoted (jsString trigger) +:+ " is not a known kill-switch trigger or null");
    (match order with J_null => false | _ => negb (isPlainObject order) end, "order is not a JSON object or null")
  ]).

(** ** An admitted value as a record (the cast of the assertion) *)

Definition typeOf (v : Json) : RiskEventType :=
  default RISK_CHECK_FAILED (List.find (fun t => bool_decide (showEventType t = stringOf v)) RISK_EVENT_TYPES).

Definition triggerOf (v : Json) : option KillSwitchTrigger :=
  match v with
  | J_string s => List.find (fun t => bool_decide (showTrigger t = s)) KILL_SWITCH_TRIGGERS
  | _ => None
  end.

Definition capitalOf (v : Json) : option CapitalSnapshot :=
  match v with
  | J_object _ => Some {|
      cs_accountEquity := stringOf (prop "accountEquity" v);
      cs_availableCash := stringOf (prop "availableCash" v);
      cs_usedMargin := stringOf (prop "usedMargin" v);
      cs_availableMargin := stringOf (prop "availableMargin" v);
      cs_unrealizedPnl := stringOf (prop "unrealizedPnl" v);
      cs_realizedPnl := stringOf (prop "realizedPnl" v);
      cs_grossExposure := stringOf (prop "grossExposure" v);
      cs_netExposure := stringOf (prop "netExposure" v) |}
  | _ => None
  end.

(** The natural number a sequence number is. *)
Definition natOf (v : Json) : nat :=
  match v with J_number n => Z.to_nat (sv n / 2 ^ 1074) | _ => 0 end.

Definition riskRecordOf (v : Json) : RiskJournalRecord := {|
  rj_input := {|
    ri_type := typeOf (prop "type" v);
    ri_reason := stringOf (prop "reason" v);
    ri_detail := stringOf (prop "detail" v);
    ri_symbol := match prop "symbol" v with J_string s => Some s | _ => None end;
    ri_capital := capitalOf (prop "capital" v);
    ri_trigger := triggerOf (prop "trigger" v);
    ri_order := match prop "order" v with J_object fs => Some (J_object fs) | _ => None end
  |};
  rj_seq := natOf (prop "seq" v)
|}.

(** ** Stores (events.ts) *)

Class RiskEventStore (S : Type) := {
  append : RiskJournalInput -> M JournalExn S RiskJournalRecord;
  readAll : M JournalExn S (list RiskJournalRecord)
}.

(** The process-local store: its records. *)
Definition InMemoryRiskEventStore : Type := list RiskJournalRecord.

#[export] Instance InMemory_store : RiskEventStore InMemoryRiskEventStore := {|
  append input :=
    let! records := gets id in
    let record := {| rj_input := input; rj_seq := length records |} in
    do! modify (fun rs => rs ++ [record]) in
    ret record;
  readAll := gets id
|}.

(** The JSON-lines store over a file, at a path and with the engine's SyntaxError texts. *)
Definition FileRiskEventStore (path : string) (syntaxError : string -> string) : RiskEventStore FileState := {|
  append input :=
    let! seq := appendJson path syntaxError assertValidRiskJournalRecord
                  (fun seq => riskRecordJson {| rj_input := input; rj_seq := seq |}) in
    ret {| rj_input := input; rj_seq := seq |};
  readAll :=
    let! parsed := readAllJson path syntaxError assertValidRiskJournalRecord in
    ret (List.map riskRecordOf parsed)
|}.

(** ** What the engine relies on *)

(** The snapshot's amounts are canonical two-decimal strings (below 10^21, see
    [quantize_canonical]). *)
Definition canonicalCapital (c : CapitalSnapshot) : bool :=
  List.forallb (fun s => isCanonicalDecimalString s NOTIONAL_DP)
    [cs_accountEquity c; cs_availableCash c; cs_usedMargin c; cs_availableMargin c; cs_unrealizedPnl c;
     cs_realizedPnl c; cs_grossExposure c; cs_netExposure c].

(** An input whose record a store can give back: canonical capital, and an order that is
    an object that JSON can carry. *)
Definition recordable (i : RiskJournalInput) : bool :=
  match ri_capital i with Some c => canonicalCapital c | None => true end
  && match ri_order i with Some (J_object _ as o) => JsonFacts.printable o | Some _ => false | None => true end.

(** A journal of n records has room for another: its sequence number is an exact Number. *)
Definition hasRoom (n : nat) : Prop := (Z.of_nat n < 2 ^ 53)%Z.

Class RiskEventStoreLaws (S : Type) `{!RiskEventStore S} := {
  (** the records that can be read back *)
  durable : S -> list RiskJournalRecord;
  (** the store a later engine gets: the same object, or a new one over the same file *)
  reopen : S -> S;
  store_ok : S -> Prop;
  append_law i s :
    store_ok s -> recordable i = true -> hasRoom (length (durable s)) ->
    wp (append i) (fun r s' => store_ok s' /\ match r with
      | inr record => record = {| rj_input := i; rj_seq := length (durable s) |} /\ durable s' = durable s ++ [record]
      | inl _ => durable s' = durable s
      end) s;
  readAll_law s :
    store_ok s ->
    wp readAll (fun r s' => store_ok s' /\ durable s' = durable s
      /\ match r with inr records => records = durable s | inl _ => True end) s;
  reopen_law s : store_ok s -> store_ok (reopen s) /\ durable (reopen s) = durable s
}.

(** ** recovery.ts *)

(** What the risk layer throws besides its store. *)
Inductive RiskExn :=
| StoreError (e : JournalExn)
| RiskRecoveryError (message : string).

Record RecoveredRiskState := { rr_state : RiskControlState; rr_recordsReplayed : nat }.

Definition recoverRiskState {S} `{!RiskEventStore S} : M RiskExn S RecoveredRiskState := fun s =>
  match readAll s with
  | (inr records, s') =>
      (inr {| rr_state := reconstructRiskState records initialRiskControlState;
              rr_recordsReplayed := length records |}, s')
  | (inl e, s') =>
      (inl (RiskRecoveryError ("risk journal unreadable — cannot reconstruct risk state: " +:+ journalMessage e)), s')
  end.
