(* ===== verification/RiskEngine.v ===== *)
(** * RiskEngine: the orchestration of the risk layer

    services/workers/src/risk/engine.ts (class RiskEngine: its control state and its store
    are the state of every method) and integration.ts (the gate of the execution stage).
    A method may throw what its store throws. *)

From stdpp Require Import gmap.
From S2P Require Import Prelude JsNumber JsText JsDecimal Json Effects Journal.
From S2P Require Import StageTypes MarketState RiskModel RiskJournal.

Local Open Scope string_scope.
Local Open Scope list_scope.
Local Open Scope eff_scope.

Record MarketView := { mv_account : Account; mv_positions : gmap string Position }.

(** The configuration fixed by the constructor. *)
Record RiskEngineConfig := { re_limits : RiskLimits; re_accountConfig : AccountConfig }.

(** A GateReason, or TRADING_HALTED. *)
Inductive DecisionReason := Gate (r : GateReason) | Halted.

Definition showDecisionReason (r : DecisionReason) : string :=
  match r with Gate r => showReason r | Halted => "TRADING_HALTED" end.

Inductive RiskDecision :=
| Allow (capital : CapitalSnapshot)
| Forbid (reason : DecisionReason) (eventType : RiskEventType) (detail : string) (capital : CapitalSnapshot).

Section engine.
Context {S : Type} `{!RiskEventStore S}.
Context (config : RiskEngineConfig).

Definition Method (A : Type) : Type := M JournalExn (RiskControlState * S) A.

Definition state : Method RiskControlState := gets fst.

Definition setState (f : RiskControlState -> RiskControlState) : Method unit :=
  modify (fun s => (f (fst s), snd s)).

Definition appendAndFold (input : RiskJournalInput) : Method RiskJournalRecord :=
  let! record := onWorld (append input) in
  do! setState (fun s => applyRiskRecord s record) in
  ret record.

Definition breachType (trigger : option KillSwitchTrigger) : option RiskEventType :=
  match trigger with
  | Some DRAWDOWN_BREACH => Some DRAWDOWN_LIMIT_BREACHED
  | Some LEVERAGE_BREACH => Some LEVERAGE_LIMIT_BREACHED
  | _ => None
  end.

(** The records a halt journals. *)
Definition haltRecord (type : RiskEventType) (detail : string) (trigger : option KillSwitchTrigger)
    (recordTrigger : option KillSwitchTrigger) (capital : option CapitalSnapshot) : RiskJournalInput := {|
  ri_type := type;
  ri_reason := match trigger with Some t => showTrigger t | None => "MANUAL" end;
  ri_detail := detail;
  ri_symbol := None;
  ri_capital := capital;
  ri_trigger := recordTrigger;
  ri_order := None
|}.

(** The control state after a halt that could not be journaled. *)
Definition haltInMemory (detail : string) (trigger : option KillSwitchTrigger) (err : JournalExn)
    (s : RiskControlState) : RiskControlState := {|
  rs_halted := true;
  rs_trigger := Some (match trigger with Some t => Trigger t | None => MANUAL end);
  rs_haltDetail := Some (detail +:+ " (journal write failed: " +:+ journalMessage err +:+ ")");
  rs_haltedAtSeq := rs_haltedAtSeq s;
  rs_baselineEquity := rs_baselineEquity s;
  rs_peakEquity := rs_peakEquity s;
  rs_checksPassed := rs_checksPassed s;
  rs_checksFailed := rs_checksFailed s
|}.

Definition halt (detail : string) (trigger : option KillSwitchTrigger) (capital : option CapitalSnapshot) :
    Method unit :=
  catch
    (do! match breachType trigger with
         | Some type => let! _ := appendAndFold (haltRecord type detail trigger None capital) in ret tt
         | None => ret tt
         end in
     do! match trigger with
         | Some _ => let! _ := appendAndFold (haltRecord KILL_SWITCH_TRIGGERED detail trigger trigger capital) in ret tt
         | None => ret tt
         end in
     let! _ := appendAndFold (haltRecord TRADING_HALTED detail trigger trigger capital) in
     ret tt)
    (fun err =>
       do! setState (haltInMemory detail trigger err) in
       throw err).

Definition reset (detail : string) : Method unit :=
  let! _ := appendAndFold {|
    ri_type := TRADING_RESUMED;
    ri_reason := "RESET";
    ri_detail := detail;
    ri_symbol := None;
    ri_capital := None;
    ri_trigger := None;
    ri_order := None |} in
  ret tt.

(** The record of a gate outcome. *)
Definition gateRecord (type : RiskEventType) (reason detail : string) (capital : CapitalSnapshot)
    (order : ProposedOrder) : RiskJournalInput := {|
  ri_type := type;
  ri_reason := reason;
  ri_detail := detail;
  ri_symbol := Some (po_symbol order);
  ri_capital := Some capital;
  ri_trigger := None;
  ri_order := Some (orderJson order)
|}.

(** What the control state says about the equity of a snapshot: the session's PnL and the
    drawdown from the high-water mark. *)
Definition sessionPnL (s : RiskControlState) (capital : CapitalSnapshot) : number :=
  let equity := parseDecimal (cs_accountEquity capital) in
  let baseline := match rs_baselineEquity s with Some b => parseDecimal b | None => equity end in
  nsub equity baseline.

Definition sessionDrawdown (s : RiskControlState) (capital : CapitalSnapshot) : number :=
  let equity := parseDecimal (cs_accountEquity capital) in
  let priorPeak := match rs_peakEquity s with Some p => parseDecimal p | None => Inf true end in
  currentDrawdown (nmax priorPeak equity) equity.

Definition globalTrigger (s : RiskControlState) (capital : CapitalSnapshot)
    (health : option HealthSignals) : option (KillSwitchTrigger * string) :=
  evaluateTriggers {|
    ti_capital := capital;
    ti_limits := re_limits config;
    ti_dailyPnL := sessionPnL s capital;
    ti_drawdown := sessionDrawdown s capital;
    ti_health := health |}.

Definition gateVerdict (s : RiskControlState) (order : ProposedOrder) (view : MarketView)
    (capital : CapitalSnapshot) : GateVerdict :=
  let projection := projectOrder (mv_positions view) capital order (acf_leverage (re_accountConfig config)) in
  evaluatePreTrade order projection capital (re_limits config) (sessionPnL s capital).

Definition snapshotOf (view : MarketView) : CapitalSnapshot :=
  buildCapitalSnapshot (mv_account view) (mv_positions view) (re_accountConfig config).

Definition evaluate (order : ProposedOrder) (view : MarketView) (health : option HealthSignals) :
    Method RiskDecision :=
  let capital := snapshotOf view in
  let! s := state in
  if rs_halted s then
    ret (Forbid Halted TRADING_HALTED
           ("trading halted (" +:+ match rs_trigger s with Some c => showCause c | None => "?" end +:+ "): "
            +:+ default "" (rs_haltDetail s)) capital)
  else
    match globalTrigger s capital health with
    | Some (trigger, detail) =>
        do! halt detail (Some trigger) (Some capital) in
        ret (Forbid Halted KILL_SWITCH_TRIGGERED (showTrigger trigger +:+ ": " +:+ detail) capital)
    | None =>
        match gateVerdict s order view capital with
        | Approve _ =>
            catch
              (let! _ := appendAndFold
                 (gateRecord RISK_CHECK_PASSED "PASSED" "all pre-trade checks passed" capital order) in
               ret (Allow capital))
              (fun err => ret (Forbid (Gate FAIL_CLOSED) RISK_CHECK_FAILED
                 ("risk journal write failed: " +:+ journalMessage err) capital))
        | Reject reason eventType detail _ =>
            catch
              (let! _ := appendAndFold (gateRecord RISK_CHECK_FAILED (showReason reason) detail capital order) in
               do! if bool_decide (eventType = RISK_CHECK_FAILED) then ret tt
                   else (let! _ := appendAndFold (gateRecord eventType (showReason reason) detail capital order) in
                         ret tt) in
               ret (Forbid (Gate reason) eventType detail capital))
              (fun err => ret (Forbid (Gate reason) eventType
                 (detail +:+ " (risk journal write failed: " +:+ journalMessage err +:+ ")") capital))
        end
    end.

(** ** integration.ts *)

(** createRiskExecutionGate: the hook the execution stage calls for a proposal, over the
    current market view, quotes and health. *)
Definition createRiskExecutionGate (view : MarketView) (getQuote : string -> option Quote)
    (health : option HealthSignals) (proposal : ProposedAllocation) : Method RiskGateDecision :=
  match getQuote (pa_symbol proposal) with
  | None => ret (Denied "NO_MARKET_DATA" ("no quote for " +:+ pa_symbol proposal))
  | Some quote =>
      let price := parseDecimal (qt_price quote) in
      if negb (ngt price (nint 0))
      then ret (Denied "NO_MARKET_DATA" ("invalid price " +:+ qt_price quote))
      else
        let capital := snapshotOf view in
        let sizing := sizePosition {|
          si_config := {|
            sc_mode := FIXED_NOTIONAL;
            sc_leverage := acf_leverage (re_accountConfig config);
            sc_fixedQuantity := None;
            sc_fixedNotional := Some (parseDecimal (pa_targetNotional proposal));
            sc_equityFraction := None;
            sc_volTargetFraction := None;
            sc_riskFraction := None;
            sc_stopLossFraction := None |};
          si_equity := parseDecimal (cs_accountEquity capital);
          si_price := price;
          si_volatility := None |} in
        let order := {|
          po_symbol := pa_symbol proposal;
          po_side := pa_side proposal;
          po_targetQuantity := ps_targetQuantity sizing;
          po_targetNotional := ps_targetNotional sizing;
          po_price := qt_price quote;
          po_strategyId := pa_strategyId proposal |} in
        let! decision := evaluate order view health in
        match decision with
        | Allow _ => ret Approved
        | Forbid reason _ detail _ => ret (Denied (showDecisionReason reason) detail)
        end
  end.

(** ** The life of an engine *)

Inductive EngineCommand :=
| Evaluate (order : ProposedOrder) (view : MarketView) (health : option HealthSignals)
| Halt (detail : string) (trigger : option KillSwitchTrigger) (capital : option CapitalSnapshot)
| Reset (detail : string).

(** The control state and the store after a command, whatever it returned or threw. *)
Definition command (s : RiskControlState * S) (c : EngineCommand) : RiskControlState * S :=
  match c with
  | Evaluate order view health => snd (evaluate order view health s)
  | Halt detail trigger capital => snd (halt detail trigger capital s)
  | Reset detail => snd (reset detail s)
  end.
End engine.
