(* ===== verification/RiskFacts.v ===== *)
(** * RiskFacts: the stores keep their promise, and what every command preserves

    Both stores satisfy [RiskEventStoreLaws] (the file store over atomic writes), and a
    record survives the trip through its JSON.  [Kept] is a property of an engine that the
    two moves of a method keep; every method, and the life of an engine (evaluations,
    commands and restarts), keeps it too.  Two such properties follow: over a store that
    keeps its promise the live state is faithful to the records; and over a file that any
    write may tear the records it started with stay, with only records of attempted inputs
    after them. *)

From stdpp Require Import gmap.
From S2P Require Import Prelude JsNumber JsNumberFacts JsText JsDecimal JsDecimalFacts Json JsonFacts Effects.
From S2P Require Import StageTypes MarketState RiskModel Journal JournalFacts RiskJournal RiskEngine.

Local Open Scope string_scope.
Local Open Scope list_scope.

(** ** The trip of a record through its JSON *)

Definition storable (r : RiskJournalRecord) : Prop := recordable (rj_input r) = true /\ hasRoom (rj_seq r).

Lemma nint_nat n : hasRoom n ->
  isFinite (nint (Z.of_nat n)) = true /\ sv (nint (Z.of_nat n)) = (2 ^ 1074 * Z.of_nat n)%Z.
Proof. intros H. apply nint_sv. unfold hasRoom in H. lia. Qed.

Lemma natOf_nint n : hasRoom n -> natOf (J_number (nint (Z.of_nat n))) = n.
Proof.
  intros H. unfold natOf. rewrite (proj2 (nint_nat n H)), Z.mul_comm, Z.div_mul by done. apply Nat2Z.id.
Qed.

Lemma triggerOf_show t : triggerOf (J_string (showTrigger t)) = Some t.
Proof. by destruct t. Qed.

Lemma typeOf_show t : typeOf (J_string (showEventType t)) = t.
Proof. by destruct t. Qed.

Lemma capitalOf_json c : capitalOf (capitalJson c) = Some c.
Proof. by destruct c. Qed.

Lemma recordable_order i o : recordable i = true -> ri_order i = Some o -> exists fs, o = J_object fs /\ printable o = true.
Proof. unfold recordable. intros H E. rewrite E in H. bool_hyps. destruct o; try done. by eexists. Qed.

Lemma riskRecordOf_json r : storable r -> riskRecordOf (riskRecordJson r) = r.
Proof.
  intros [Hr Hs]. destruct r as [i seq]. simpl in Hr, Hs.
  pose proof (recordable_order i) as Ho. destruct i as [type reason detail symbol capital trigger order].
  unfold riskRecordOf. simpl prop. rewrite natOf_nint, typeOf_show by done. f_equal. f_equal.
  - by destruct symbol.
  - destruct capital; [apply capitalOf_json|done].
  - destruct trigger; [apply triggerOf_show|done].
  - destruct order as [o|]; [|done]. destruct (Ho o Hr eq_refl) as (fs & -> & _). done.
Qed.

(** ** Admission accepts what the engine writes *)

Lemma isInteger_nint n : hasRoom n -> isInteger (nint (Z.of_nat n)) && negb (nlt (nint (Z.of_nat n)) (nint 0)) = true.
Proof.
  intros H. destruct (nint_nat n H) as [Hf Hs]. unfold isInteger. rewrite Hf, nlt_sv, Hs by done.
  rewrite Z.mul_comm, Z.mod_mul by done. change (sv (nint 0)) with 0%Z. simpl.
  apply negb_true_iff, Z.ltb_ge. pose proof (pow2_pos 1074). lia.
Qed.

Lemma canonicalCapital_tests c :
  canonicalCapital c = true -> Forall (fun t => fst t = false) (capitalTests (capitalJson c)).
Proof.
  intros H. unfold canonicalCapital in H. simpl in H. bool_hyps.
  repeat constructor; simpl; by apply negb_false_iff.
Qed.

Lemma admission_record r : storable r -> assertValidRiskJournalRecord (riskRecordJson r) = None.
Proof.
  intros [Hr Hs]. destruct r as [i seq]. simpl in Hr, Hs.
  pose proof (recordable_order i) as Ho. destruct i as [type reason detail symbol capital trigger order].
  apply firstRejection_none. unfold riskRecordJson. simpl prop.
  repeat (apply Forall_cons; split); [done| | |done|done|by destruct symbol|].
  - apply negb_false_iff. by apply isInteger_nint.
  - by destruct type.
  - apply Forall_app; split.
    + destruct capital as [c|]; [|constructor]. apply canonicalCapital_tests.
      unfold recordable in Hr. simpl in Hr. by bool_hyps.
    + repeat constructor; simpl.
      * by destruct trigger as [[]|].
      * destruct order as [o|]; [|done]. by destruct (Ho o Hr eq_refl) as (fs & -> & _).
Qed.

Lemma printable_record r : storable r -> printable (riskRecordJson r) = true.
Proof.
  intros [Hr Hs]. destruct r as [i seq]. simpl in Hr, Hs.
  pose proof (recordable_order i) as Ho. destruct i as [type reason detail symbol capital trigger order].
  assert (match order with Some o => printable o | None => true end = true) as Hord.
  { destruct order as [o|]; [|done]. by destruct (Ho o Hr eq_refl) as (fs & -> & ?). }
  clear Ho Hr. unfold hasRoom in Hs.
  assert (readsBack (nint (Z.of_nat seq)) = true) as Hseq by (apply readsBack_nint; lia).
  destruct symbol, capital, trigger, order; simpl in *; by rewrite ?Hord, Hseq.
Qed.

Lemma wellFormed_record r n :
  storable r -> rj_seq r = n -> wellFormed assertValidRiskJournalRecord n (riskRecordJson r).
Proof.
  intros H <-. split_and!; [by apply printable_record|by apply admission_record|].
  eexists. split; [done|]. done.
Qed.

(** ** The stores *)

#[export] Instance InMemory_laws : RiskEventStoreLaws InMemoryRiskEventStore.
Proof.
  refine {| durable := id; reopen := id; store_ok := fun _ => True |}.
  - intros i s _ _ _. done.
  - intros s _. done.
  - intros s _. done.
Defined.

(** Records numbered from n. *)
Fixpoint numbered (n : nat) (rs : list RiskJournalRecord) : Prop :=
  match rs with [] => True | r :: rs => (storable r /\ rj_seq r = n) /\ numbered (S n) rs end.

Lemma numbered_app n rs rs' : numbered n (rs ++ rs') <-> numbered n rs /\ numbered (n + length rs) rs'.
Proof.
  revert n. induction rs as [|r rs IH]; intros n; simpl; [rewrite Nat.add_0_r; tauto|].
  rewrite IH. replace (S n + length rs)%nat with (n + S (length rs))%nat by lia. tauto.
Qed.

Lemma numbered_wellFormed n rs :
  numbered n rs -> wellFormedFrom assertValidRiskJournalRecord n (List.map riskRecordJson rs).
Proof.
  revert n. induction rs as [|r rs IH]; intros n; simpl; [done|]. intros [[Hs Hq] H].
  split; [by apply wellFormed_record|by apply IH].
Qed.

Lemma numbered_records n rs : numbered n rs -> List.map riskRecordOf (List.map riskRecordJson rs) = rs.
Proof.
  revert n. induction rs as [|r rs IH]; intros n; simpl; [done|]. intros [[Hs _] H].
  rewrite riskRecordOf_json by done. f_equal. by eapply IH.
Qed.

Section file.
Context (path : string) (syntaxError : string -> string).

(** The records a file gives back. *)
Definition fileRecords (s : FileState) : list RiskJournalRecord :=
  match readLines path syntaxError assertValidRiskJournalRecord 0 [] (splitLines (default "" (fs_text s))) with
  | inr parsed => List.map riskRecordOf parsed
  | inl _ => []
  end.

Definition riskFileHolds (rs : list RiskJournalRecord) (s : FileState) : Prop :=
  numbered 0 rs /\ fileHolds assertValidRiskJournalRecord (List.map riskRecordJson rs) s.

Lemma riskFile_records rs s : riskFileHolds rs s -> fileRecords s = rs.
Proof.
  intros [Hn (Hw & Ht & _)]. unfold fileRecords. rewrite Ht, read_journal by done. by eapply numbered_records.
Qed.

#[local] Instance riskFile : RiskEventStore FileState := FileRiskEventStore path syntaxError.

Lemma riskFile_append rs i s :
  riskFileHolds rs s -> recordable i = true -> hasRoom (length rs) ->
  wp (append i) (fun r s' => (fs_faults s = [] -> fs_faults s' = []) /\ match r with
    | inr record => record = {| rj_input := i; rj_seq := length rs |} /\ riskFileHolds (rs ++ [record]) s'
    | inl _ => fs_faults s <> [] /\ riskFileHolds rs s' end) s.
Proof.
  intros [Hn Hf] Hi Hroom.
  assert (storable {| rj_input := i; rj_seq := length rs |}) as Hst by done.
  simpl append. apply wp_bind. eapply wp_mono.
  { by apply (appendJson_law _ path syntaxError (List.map riskRecordJson rs)). }
  intros [e|seq] s' [Hff Hq]; [by destruct Hq; split_and!|]. rewrite length_map in Hq. destruct Hq as [-> Hf'].
  specialize (Hf' (wellFormed_record _ _ Hst eq_refl)).
  apply wp_ret. split; [done|]. split; [done|]. split.
  - apply numbered_app. split; [done|]. simpl. by split_and!.
  - by rewrite List.map_app.
Qed.

Lemma riskFile_readAll rs s :
  riskFileHolds rs s ->
  wp readAll (fun r s' => riskFileHolds rs s' /\ match r with inr records => records = rs | inl _ => fs_faults s <> [] end) s.
Proof.
  intros [Hn Hf]. simpl readAll. apply wp_bind. eapply wp_mono; [by apply readAllJson_law|].
  intros [e|parsed] s' [-> Hp].
  - split; [|done]. split; [done|]. by apply fileHolds_pop.
  - apply wp_ret. split; [split; [done|by apply fileHolds_pop]|]. subst. by eapply numbered_records.
Qed.

Lemma riskFile_restart rs s : riskFileHolds rs s -> riskFileHolds rs (restart s).
Proof. intros [Hn Hf]. split; [done|by apply restart_holds]. Qed.

(** The file store keeps the promise over file systems whose writes are atomic. *)
#[export] Instance File_laws : @RiskEventStoreLaws FileState (FileRiskEventStore path syntaxError).
Proof.
  refine {| durable := fileRecords; reopen := restart; store_ok := fun s => exists rs, riskFileHolds rs s |}.
  - intros i s [rs H] Hi Hroom. rewrite (riskFile_records rs s H) in *. eapply wp_mono; [by apply riskFile_append|].
    intros [e|r] s'.
    + intros (_ & _ & H'). rewrite (riskFile_records rs s' H'). split; [by exists rs|done].
    + intros (_ & -> & H'). rewrite (riskFile_records _ s' H'). split; [by eexists|done].
  - intros s [rs H]. rewrite (riskFile_records rs s H). eapply wp_mono; [by apply riskFile_readAll|].
    intros [e|r] s' [H' Hr]; rewrite (riskFile_records rs s' H'); (split; [by exists rs|done]).
  - intros s [rs H]. split; [|done]. exists rs. by apply riskFile_restart.
Defined.
End file.

(** * The life of a risk engine

    What every method preserves, as closure of a predicate on the control state and the
    journal under the two moves a method makes (a record that reached the store is folded;
    a halt that did not reach it is kept in memory), the outcome of [evaluate], and the
    lives of an engine: its commands and the recoveries of a restarted process. *)

Local Open Scope Z_scope.

Definition recordAt (i : RiskJournalInput) (rs : list RiskJournalRecord) : RiskJournalRecord :=
  {| rj_input := i; rj_seq := length rs |}.

(** The journal recovers to a halted state. *)
Definition journalHalted (rs : list RiskJournalRecord) : Prop :=
  rs_halted (reconstructRiskState rs initialRiskControlState) = true.

Lemma reconstruct_end rs r seed :
  reconstructRiskState (rs ++ [r]) seed = applyRiskRecord (reconstructRiskState rs seed) r.
Proof. unfold reconstructRiskState. by rewrite foldl_app. Qed.

Lemma applyRiskRecord_halted st r :
  rs_halted (applyRiskRecord st r) = match ri_type (rj_input r) with
    | TRADING_RESUMED => false
    | KILL_SWITCH_TRIGGERED | TRADING_HALTED => true
    | _ => rs_halted st end.
Proof. unfold applyRiskRecord. destruct (observeEquity _ _ _). by destruct (ri_type (rj_input r)). Qed.

Lemma journalHalted_end rs r : ri_type (rj_input r) = TRADING_HALTED -> journalHalted (rs ++ [r]).
Proof. intros E. unfold journalHalted. by rewrite reconstruct_end, applyRiskRecord_halted, E. Qed.

(** A predicate that the moves of a method preserve, for records with inputs in K. *)
Record Closed (K : RiskJournalInput -> Prop) (P : RiskControlState -> list RiskJournalRecord -> Prop) : Prop := {
  closed_append st rs i : K i -> P st rs -> P (applyRiskRecord st (recordAt i rs)) (rs ++ [recordAt i rs]);
  closed_memory detail trigger err st rs : P st rs -> P (haltInMemory detail trigger err st) rs
}.

Lemma always_closed K : Closed K (fun _ _ => True).
Proof. by split. Qed.

(** The journal has room for n more records. *)
Definition room (n : Z) (rs : list RiskJournalRecord) : Prop := Z.of_nat (length rs) + n <= 2 ^ 53.

(** ** Which records the engine can journal *)

Lemma recordable_order_json type reason detail capital order :
  canonicalCapital capital = true -> recordable (gateRecord type reason detail capital order) = true.
Proof. intros H. unfold recordable. simpl ri_capital. cbv iota. by rewrite H. Qed.

Lemma recordable_halt type detail trigger t capital :
  match capital with Some c => canonicalCapital c | None => true end = true ->
  recordable (haltRecord type detail trigger t capital) = true.
Proof. intros H. unfold recordable. simpl ri_capital. by rewrite H. Qed.

(** Every record but the one that resumes. *)
Definition notResumed (i : RiskJournalInput) : Prop := ri_type i <> TRADING_RESUMED.

(** ** What an approval means *)

(** The six limits, in exact values of the amounts: the leverage after the trade is a
    rounded quotient. *)
Definition withinLimits (order : ProposedOrder) (projection : OrderProjection) (capital : CapitalSnapshot)
    (limits : RiskLimits) (dailyPnL : number) : Prop :=
  inputsValid order projection capital limits dailyPnL = true
  /\ sv (targetQty order) <= sv (rl_maxPositionSize limits)
  /\ sv (targetNotional order) <= sv (rl_maxPositionNotional limits)
  /\ nle (ndiv (grossAfter projection) (gateEquity capital)) (rl_maxLeverage limits) = true
  /\ sv (requiredMargin projection) <= sv (availableMargin capital)
  /\ - sv (rl_dailyLossLimit limits) <= sv dailyPnL
  /\ sv (concentration projection) <= sv (rl_maxAssetAllocation limits).

Lemma ndiv_pos_notNaN x y : isFinite x = true -> isFinite y = true -> ngt y (nint 0) = true -> isNaN (ndiv x y) = false.
Proof.
  intros Hx Hy H. unfold ngt in H. rewrite nlt_sv in H by done. apply Z.ltb_lt in H. change (sv (nint 0)) with 0%Z in H.
  apply ndiv_notNaN; [by apply isFinite_notNaN|done|lia].
Qed.

Lemma runChecks_approve checks todo :
  (exists checks', runChecks checks todo = Approve checks') <-> Forall (fun c => ck_rejects c = false) todo.
Proof.
  revert checks. induction todo as [|c todo IH]; intros checks; simpl.
  { split; [constructor|by eexists]. }
  rewrite Forall_cons. destruct (ck_rejects c).
  - split; [by intros [? ?]|by intros [? _]].
  - rewrite IH. tauto.
Qed.

Lemma runChecks_checks checks todo checks' :
  runChecks checks todo = Approve checks' ->
  checks' = checks ++ List.map (fun c => pass (ck_reason c) (ck_success c)) todo.
Proof.
  revert checks. induction todo as [|c todo IH]; intros checks; simpl; [by rewrite app_nil_r; intros [= ->]|].
  destruct (ck_rejects c); [done|]. intros ->%IH. by rewrite <- app_assoc.
Qed.

Lemma runChecks_first checks todo reason type detail checks' :
  runChecks checks todo = Reject reason type detail checks' ->
  exists before c after, todo = before ++ c :: after /\ Forall (fun c => ck_rejects c = false) before
    /\ ck_rejects c = true /\ reason = ck_reason c /\ type = ck_eventType c.
Proof.
  revert checks. induction todo as [|c todo IH]; intros checks; simpl; [done|].
  destruct (ck_rejects c) eqn:E.
  - intros [= <- <- _ _]. by exists [], c, todo.
  - intros (before & c' & after & -> & Hb & H)%IH. exists (c :: before), c', after. split_and!; [done|by constructor|apply H..].
Qed.

Lemma ngt_false_sv x y : isFinite x = true -> isFinite y = true -> ngt x y = false <-> sv x <= sv y.
Proof. intros Hx Hy. unfold ngt. rewrite nlt_sv by done. apply Z.ltb_ge. Qed.

(** Approval is exactly valid inputs within the limits. *)
Lemma approve_withinLimits order projection capital limits dailyPnL :
  (exists checks, evaluatePreTrade order projection capital limits dailyPnL = Approve checks)
  <-> withinLimits order projection capital limits dailyPnL.
Proof.
  unfold evaluatePreTrade, withinLimits. destruct (inputsValid _ _ _ _ _) eqn:E.
  2:{ simpl. split; [by intros [? ?]|by intros [? _]]. }
  simpl negb. cbv iota. rewrite runChecks_approve. unfold inputsValid, limitsFinite in E. simpl forallb in E. bool_hyps.
  unfold gateChecks. rewrite !Forall_cons, Forall_nil. simpl ck_rejects.
  rewrite (ngt_false_sv (targetQty _)), (ngt_false_sv (targetNotional _)), (ngt_false_sv (requiredMargin _)), (ngt_false_sv (concentration _)) by (done || apply parseDecimal_finite).
  unfold leverageAfter, ngt.
  rewrite (nle_negb_nlt (ndiv _ _)) by eauto using isFinite_notNaN, ndiv_pos_notNaN.
  rewrite negb_true_iff, (nlt_sv dailyPnL), Z.ltb_ge, nneg_sv by (by rewrite ?nneg_finite).
  tauto.
Qed.

(** A gate never rejects with the event that resumes. *)
Lemma runChecks_event checks todo reason type detail checks' :
  runChecks checks todo = Reject reason type detail checks' -> type ∈ List.map ck_eventType todo.
Proof.
  revert checks. induction todo as [|c todo IH]; intros checks; simpl; [done|].
  destruct (ck_rejects c); [intros [= _ <- _ _]; apply list_elem_of_here|].
  intros H. apply list_elem_of_further. by eapply IH.
Qed.

Lemma gateVerdict_event config st order view capital reason type detail checks :
  gateVerdict config st order view capital = Reject reason type detail checks -> type <> TRADING_RESUMED.
Proof.
  unfold gateVerdict, evaluatePreTrade. cbv zeta. destruct (negb _); [by intros [= _ <- _ _]|].
  intros H%runChecks_event ->. simpl in H. repeat (apply elem_of_cons in H as [H|H]; [done|]). by apply elem_of_nil in H.
Qed.

Section engine.
Set Default Proof Using "Type*".
Context {S : Type} `{!RiskEventStore S}.
Context (config : RiskEngineConfig).

(** The capital a command brings is canonical (see [quantize_canonical]). *)
Definition commandOk (c : EngineCommand) : Prop :=
  match c with
  | Evaluate _ view _ => canonicalCapital (snapshotOf config view) = true
  | Halt _ _ (Some capital) => canonicalCapital capital = true
  | Halt _ _ None | Reset _ => True
  end.

Definition isReset (c : EngineCommand) : bool := match c with Reset _ => true | _ => false end.

(** ** What every method keeps *)

Section kept.
Context (K : RiskJournalInput -> Prop) (H : Z -> RiskControlState * S -> Prop).

(** A property of an engine with room for n more records that the two moves of a method
    keep: a record the store took is folded, and a halt it did not take is kept in
    memory.  An append that throws may have written all the same. *)
Record Kept : Prop := {
  kept_less m n s : m <= n -> H n s -> H m s;
  kept_append i n s :
    H n s -> 1 <= n -> recordable i = true -> K i ->
    wp (appendAndFold i) (fun r s' => H (n - 1) s' /\ match r with
      | inr record => rj_input record = i /\ fst s' = applyRiskRecord (fst s) record
      | inl _ => True end) s;
  kept_memory detail trigger err n s :
    H n s -> H n (haltInMemory detail trigger err (fst s), snd s)
}.

Context (HK : Kept) (n : Z) (Hn : 0 <= n).

Lemma append_kept m i s :
  0 <= m -> H (m + 1) s -> recordable i = true -> K i ->
  wp (appendAndFold i) (fun r s' => H m s' /\ match r with
      | inr record => rj_input record = i /\ fst s' = applyRiskRecord (fst s) record
      | inl _ => True end) s.
Proof.
  intros Hm Hs Hi Hk. pose proof (kept_append HK i (m + 1) s Hs ltac:(lia) Hi Hk) as W.
  by replace (m + 1 - 1) with m in W by lia.
Qed.

(** An optional record. *)
Lemma append_option_kept m (o : option RiskJournalInput) s :
  0 <= m -> H (m + 1) s -> match o with Some i => recordable i = true /\ K i | None => True end ->
  wp (match o with
      | Some i => bind (appendAndFold i) (fun _ => ret tt)
      | None => ret tt end) (fun (r : JournalExn + unit) s' => H m s') s.
Proof.
  intros Hm Hs Hi. destruct o as [i|]; [|apply wp_ret; eapply (kept_less HK), Hs; lia].
  destruct Hi as [Hi Hk]. apply wp_bind. eapply wp_mono; [by apply append_kept|]. by intros [e|r] s' [Hs' _].
Qed.

Lemma halt_kept detail trigger capital s :
  H (n + 3) s -> match capital with Some c => canonicalCapital c | None => true end = true ->
  (forall type t, type <> TRADING_RESUMED -> K (haltRecord type detail trigger t capital)) ->
  wp (halt detail trigger capital) (fun _ s' => H n s' /\ rs_halted (fst s') = true) s.
Proof.
  intros Hs Hc Hk.
  assert (forall m err s', n <= m -> H m s' ->
    wp (bind (setState (haltInMemory detail trigger err)) (fun _ => throw err))
      (fun (r : JournalExn + unit) s' => H n s' /\ rs_halted (fst s') = true) s') as Hmem.
  { intros m err s' Hle Hm. apply wp_bind, wp_modify, wp_throw. split; [|done].
    apply (kept_less HK n m); [done|]. by apply (kept_memory HK). }
  unfold halt. apply wp_catch, wp_bind. eapply wp_mono.
  { pose proof (append_option_kept (n + 2)
      ((fun type => haltRecord type detail trigger None capital) <$> breachType trigger) s) as W.
    replace (n + 3) with (n + 2 + 1) in Hs by lia.
    destruct (breachType trigger) eqn:Eb; (apply W; [lia|done|]); [|done].
    split; [by apply recordable_halt|]. apply Hk. intros ->. by destruct trigger as [[]|]. }
  intros [e|[]] s1 H1; [eapply Hmem, H1; lia|]. apply wp_bind. eapply wp_mono.
  { pose proof (append_option_kept (n + 1)
      ((fun _ => haltRecord KILL_SWITCH_TRIGGERED detail trigger trigger capital) <$> trigger) s1) as W.
    replace (n + 2) with (n + 1 + 1) in H1 by lia.
    destruct trigger; (apply W; [lia|done|]); [|done]. split; [by apply recordable_halt|by apply Hk]. }
  intros [e|[]] s2 H2; [eapply Hmem, H2; lia|]. apply wp_bind. eapply wp_mono.
  { apply (append_kept n); [done|exact H2|by apply recordable_halt|by apply Hk]. }
  intros [e|r] s3 [H3 Hr]; [eapply Hmem, H3; lia|]. destruct Hr as [Hi Hf]. apply wp_ret. split; [done|].
  by rewrite Hf, applyRiskRecord_halted, Hi.
Qed.

Lemma evaluate_kept order view health s :
  H (n + 3) s -> canonicalCapital (snapshotOf config view) = true -> (forall i, notResumed i -> K i) ->
  wp (evaluate config order view health) (fun _ s' => H n s') s.
Proof.
  intros Hs Hc Hk. assert (forall m s', n <= m -> H m s' -> H n s') as L by (intros; by eapply (kept_less HK)).
  unfold evaluate, state. cbv zeta. apply wp_bind, wp_gets.
  destruct (rs_halted (fst s)); [apply wp_ret; eapply L, Hs; lia|].
  destruct (globalTrigger config (fst s) (snapshotOf config view) health) as [[t d]|].
  { apply wp_bind. eapply wp_mono; [apply halt_kept; [done|done|]|].
    - intros type t' Ht. by apply Hk.
    - by intros [e|[]] s' [Hs' _]; [|apply wp_ret]. }
  assert (forall m s' type reason detail, 0 <= m -> H (m + 1) s' -> type <> TRADING_RESUMED ->
    wp (appendAndFold (gateRecord type reason detail (snapshotOf config view) order))
      (fun _ s'' => H m s'') s') as A.
  { intros m s' type reason detail Hm Hs' Ht. eapply wp_mono;
      [apply append_kept; [exact Hm|exact Hs'|by apply recordable_order_json|by apply Hk]|].
    by intros r s'' [? _]. }
  replace (n + 3) with (n + 2 + 1) in Hs by lia.
  destruct (gateVerdict config (fst s) order view (snapshotOf config view)) as [checks|reason type detail checks] eqn:Ev.
  - apply wp_catch, wp_bind. eapply wp_mono; [apply (A (n + 2)); [lia|done|done]|].
    intros [e|r] s' H'; apply wp_ret; eapply L, H'; lia.
  - apply wp_catch, wp_bind. eapply wp_mono; [apply (A (n + 2)); [lia|done|done]|].
    intros [e|r] s1 H1; [apply wp_ret; eapply L, H1; lia|].
    apply wp_bind. case_bool_decide; [apply wp_ret, wp_ret; eapply L, H1; lia|].
    assert (type <> TRADING_RESUMED) as Ht by (eapply gateVerdict_event; done).
    apply wp_bind. replace (n + 2) with (n + 1 + 1) in H1 by lia.
    eapply wp_mono; [apply (A (n + 1)); [lia|done|done]|].
    intros [e|r'] s2 H2; [apply wp_ret|apply wp_ret, wp_ret]; (eapply L, H2; lia).
Qed.

Lemma command_kept c s :
  H (n + 3) s -> commandOk c -> (forall i, notResumed i -> K i) ->
  (isReset c = true -> forall i, K i) -> H n (command config s c).
Proof.
  intros Hs Hc Hk HR. destruct c as [order view health|detail trigger capital|detail]; simpl.
  - exact (evaluate_kept order view health s Hs Hc Hk).
  - refine (proj1 (halt_kept detail trigger capital s Hs _ _)); [by destruct capital|].
    intros type t Ht. by apply Hk.
  - assert (wp (X := JournalExn) (reset detail) (fun _ s' => H n s') s) as W; [|exact W].
    unfold reset. replace (n + 3) with (n + 2 + 1) in Hs by lia. apply wp_bind.
    eapply wp_mono; [apply (append_kept (n + 2)); [lia|done|done|by apply HR]|].
    intros [e|r] s' [H' _]; [|apply wp_ret]; (eapply (kept_less HK), H'; lia).
Qed.
End kept.

(** ** The outcome of an approval *)

(** What holds when an evaluation approves. *)
Definition approved `{!RiskEventStoreLaws S} (order : ProposedOrder) (view : MarketView)
    (health : option HealthSignals) (s : RiskControlState * S) (capital : CapitalSnapshot)
    (s' : RiskControlState * S) : Prop :=
  let record := recordAt (gateRecord RISK_CHECK_PASSED "PASSED" "all pre-trade checks passed" capital order)
                  (durable (snd s)) in
  rs_halted (fst s) = false /\ capital = snapshotOf config view
  /\ globalTrigger config (fst s) capital health = None
  /\ (exists checks, gateVerdict config (fst s) order view capital = Approve checks)
  /\ durable (snd s') = durable (snd s) ++ [record] /\ fst s' = applyRiskRecord (fst s) record.

(** One record is appended and folded, or nothing changes. *)
Lemma appendAndFold_wp `{!RiskEventStoreLaws S} i (s : RiskControlState * S) :
  store_ok (snd s) -> room 1 (durable (snd s)) -> recordable i = true ->
  wp (appendAndFold i) (fun r s' => store_ok (snd s') /\ match r with
    | inr record => record = recordAt i (durable (snd s))
        /\ fst s' = applyRiskRecord (fst s) record /\ durable (snd s') = durable (snd s) ++ [record]
    | inl _ => fst s' = fst s /\ durable (snd s') = durable (snd s) end) s.
Proof.
  intros Hs Hr Hi. unfold appendAndFold. apply wp_bind, wp_onWorld.
  eapply wp_mono; [apply append_law; [done|done|unfold hasRoom; unfold room in Hr; lia]|].
  intros [e|r] s' [Hs' H]; simpl; [done|]. destruct H as [-> Hd].
  unfold setState. by apply wp_bind, wp_modify, wp_ret.
Qed.

Lemma evaluate_approves `{!RiskEventStoreLaws S} order view health s :
  store_ok (snd s) -> room 1 (durable (snd s)) -> canonicalCapital (snapshotOf config view) = true ->
  wp (evaluate config order view health) (fun r s' => match r with
    | inr (Allow capital) => approved order view health s capital s'
    | _ => True end) s.
Proof.
  intros Hs Hr Hc. unfold evaluate, state. cbv zeta. apply wp_bind, wp_gets.
  destruct (rs_halted (fst s)) eqn:Eh; [by apply wp_ret|].
  destruct (globalTrigger config (fst s) (snapshotOf config view) health) as [[t d]|] eqn:Et.
  { apply wp_bind, (wp_mono _ (fun _ _ => True)); [done|]. by intros [e|[]] s' _; [|apply wp_ret]. }
  destruct (gateVerdict config (fst s) order view (snapshotOf config view)) as [checks|reason type detail checks] eqn:Ev.
  - apply wp_catch, wp_bind. eapply wp_mono; [by apply appendAndFold_wp, recordable_order_json|].
    intros [e|r] s' (_ & Hq); [by apply wp_ret|]. destruct Hq as (-> & ? & ?). apply wp_ret.
    unfold approved. split_and!; [done|done|done|by eexists|done|done].
  - apply wp_catch, wp_bind, (wp_mono _ (fun _ _ => True)); [done|]. intros [e|r] s1 _; [by apply wp_ret|].
    apply wp_bind, (wp_mono _ (fun _ _ => True)); [done|]. by intros [e|r'] s2 _; apply wp_ret.
Qed.

(** ** Lives *)

(** What happens to the risk layer: a command to the engine, or a restart of the process,
    which reopens the store and recovers the control state from it. *)
Inductive LifeEvent := Call (c : EngineCommand) | Recover.

(** The running engine's control state, if the last recovery succeeded, and the store. *)
Definition Life : Type := option RiskControlState * S.

Definition eventOk (e : LifeEvent) : Prop := match e with Call c => commandOk c | Recover => True end.
Definition isResetEvent (e : LifeEvent) : bool := match e with Call c => isReset c | Recover => false end.

Context `{!RiskEventStoreLaws S}.

Definition lifeStep (l : Life) (e : LifeEvent) : Life :=
  match e, l with
  | Call c, (Some st, s) => let '(st', s') := command config (st, s) c in (Some st', s')
  | Call _, (None, _) => l
  | Recover, (_, s) =>
      match recoverRiskState (reopen s) with
      | (inr r, s') => (Some (rr_state r), s')
      | (inl _, s') => (None, s')
      end
  end.

Section lives.
Context (K : RiskJournalInput -> Prop) (H : Z -> RiskControlState * S -> Prop) (HK : Kept K H).

(** A recovery gives a state with which the property holds, or no state. *)
Context (HR : forall n st s, 0 <= n -> H n (st, s) ->
  wp recoverRiskState (fun r s' => match r with
    | inr r => H n (rr_state r, s')
    | inl _ => exists st', H n (st', s') end) (reopen s)).

Definition lifeKept (n : Z) (l : Life) : Prop :=
  match fst l with Some st => H n (st, snd l) | None => exists st, H n (st, snd l) end.

Lemma lifeStep_kept n e l :
  lifeKept (n + 3) l -> 0 <= n -> eventOk e -> (forall i, notResumed i -> K i) ->
  (isResetEvent e = true -> forall i, K i) -> lifeKept n (lifeStep l e).
Proof.
  intros Hl Hn He Hk Hr. destruct l as [o s], e as [c|]; unfold lifeKept in *; simpl in *.
  - destruct o as [st|].
    + pose proof (command_kept K H HK n Hn c (st, s) Hl He Hk Hr) as W.
      by destruct (command config (st, s) c) as [st' s'].
    + destruct Hl as [st Hl]. exists st. eapply (kept_less _ _ HK), Hl. lia.
  - assert (exists st, H n (st, s)) as [st Hst].
    { destruct o as [st|]; [exists st|destruct Hl as [st Hl]; exists st]; (eapply (kept_less _ _ HK), Hl; lia). }
    pose proof (HR n st s Hn Hst) as W. unfold wp in W.
    by destruct (recoverRiskState (reopen s)) as [[e|r] s'].
Qed.

Lemma lives_kept events l :
  lifeKept (3 * Z.of_nat (length events)) l -> Forall eventOk events -> (forall i, notResumed i -> K i) ->
  (forall e, e ∈ events -> isResetEvent e = true -> forall i, K i) -> lifeKept 0 (foldl lifeStep l events).
Proof.
  intros Hl He Hk. revert l Hl. induction He as [|e events He _ IH]; intros l Hl Hr; [done|]. simpl foldl. apply IH.
  - apply lifeStep_kept; [|lia|done|done|apply Hr, list_elem_of_here].
    replace (_ + 3) with (3 * Z.of_nat (length (e :: events))) by (simpl length; lia). done.
  - intros e' H'. apply Hr. by apply list_elem_of_further.
Qed.
End lives.

(** ** Stores that keep their promise *)

(** The store is in order, has room for n records and satisfies P with the control state. *)
Definition engineHolds (P : RiskControlState -> list RiskJournalRecord -> Prop) (n : Z)
    (s : RiskControlState * S) : Prop :=
  store_ok (snd s) /\ room n (durable (snd s)) /\ P (fst s) (durable (snd s)).

Lemma engineHolds_kept K P : Closed K P -> Kept K (engineHolds P).
Proof.
  intros HP. split.
  - unfold engineHolds, room. intros m n s ? (? & ? & ?). split_and!; [done|lia|done].
  - intros i n s (Hs & Hr & Hp) Hn Hi Hk. eapply wp_mono.
    { apply appendAndFold_wp; [done|unfold room in *; lia|done]. }
    intros [e|r] [st' s'] [Hs' H]; simpl in *.
    + destruct H as [-> E]. split; [|done]. unfold engineHolds, room in *. simpl. rewrite E.
      split_and!; [done|lia|done].
    + destruct H as (-> & -> & E). split; [|done]. unfold engineHolds, room in *. simpl.
      rewrite E, length_app. simpl. split_and!; [done|lia|]. by apply (closed_append K P HP).
  - intros d t e n s (? & ? & ?). split_and!; [done|done|]. by apply (closed_memory K P HP).
Qed.

(** A recovery that returns gives the fold of the records. *)
Lemma recover_wp s :
  store_ok s ->
  wp recoverRiskState (fun r s' => store_ok s' /\ durable s' = durable s /\ match r with
    | inr r => rr_state r = reconstructRiskState (durable s) initialRiskControlState
               /\ rr_recordsReplayed r = length (durable s)
    | inl _ => True end) s.
Proof.
  intros H. pose proof (readAll_law s H) as W. unfold wp, recoverRiskState in *.
  destruct (readAll s) as [[e|rs] s']; simpl in *; destruct W as (? & ? & W); [done|].
  subst rs. by split_and!.
Qed.

Lemma engineHolds_recover P n st s :
  (forall st rs, P st rs -> P (reconstructRiskState rs initialRiskControlState) rs) ->
  engineHolds P n (st, s) ->
  wp recoverRiskState (fun r s' => match r with
    | inr r => engineHolds P n (rr_state r, s')
    | inl _ => exists st', engineHolds P n (st', s') end) (reopen s).
Proof.
  intros HR (Hs & Hr & Hp). simpl in *. destruct (reopen_law s Hs) as [Ho Hd].
  eapply wp_mono; [by apply recover_wp|]. rewrite Hd.
  intros [e|r] s' (Hs' & Hd' & W).
  - exists st. unfold engineHolds. simpl. by rewrite Hd'.
  - unfold engineHolds. simpl. rewrite Hd', (proj1 W). split_and!; [done|done|by eapply HR].
Qed.
End engine.

(** ** What a journal keeps *)

(** The control state is what the journal recovers to, or a halt that could not be
    journaled: then everything but the halt agrees, and its detail says so. *)
Definition faithful (st : RiskControlState) (rs : list RiskJournalRecord) : Prop :=
  let recovered := reconstructRiskState rs initialRiskControlState in
  st = recovered
  \/ (rs_halted st = true
      /\ (exists detail message, rs_haltDetail st = Some (detail +:+ " (journal write failed: " +:+ message +:+ ")"))
      /\ rs_baselineEquity st = rs_baselineEquity recovered /\ rs_peakEquity st = rs_peakEquity recovered
      /\ rs_checksPassed st = rs_checksPassed recovered /\ rs_checksFailed st = rs_checksFailed recovered).

Lemma applyRiskRecord_congr st st' r :
  rs_halted st = true -> ri_type (rj_input r) <> TRADING_RESUMED ->
  rs_baselineEquity st = rs_baselineEquity st' -> rs_peakEquity st = rs_peakEquity st' ->
  rs_checksPassed st = rs_checksPassed st' -> rs_checksFailed st = rs_checksFailed st' ->
  let a := applyRiskRecord st r in let b := applyRiskRecord st' r in
  rs_haltDetail a = rs_haltDetail st /\ rs_baselineEquity a = rs_baselineEquity b
  /\ rs_peakEquity a = rs_peakEquity b /\ rs_checksPassed a = rs_checksPassed b /\ rs_checksFailed a = rs_checksFailed b.
Proof.
  intros Hh Ht Eb Ep Ec Ef. unfold applyRiskRecord. rewrite Eb, Ep, Ec, Ef, Hh.
  destruct (observeEquity _ _ _). simpl. rewrite bool_decide_false, andb_false_r by done. done.
Qed.

Lemma applyRiskRecord_resumed st st' r :
  ri_type (rj_input r) = TRADING_RESUMED ->
  rs_baselineEquity st = rs_baselineEquity st' -> rs_peakEquity st = rs_peakEquity st' ->
  rs_checksPassed st = rs_checksPassed st' -> rs_checksFailed st = rs_checksFailed st' ->
  applyRiskRecord st r = applyRiskRecord st' r.
Proof. intros E Eb Ep Ec Ef. unfold applyRiskRecord. rewrite E, Eb, Ep, Ec, Ef. by destruct (observeEquity _ _ _). Qed.

Lemma faithful_closed : Closed (fun _ => True) faithful.
Proof.
  split.
  - intros st rs i _ [->|(Hh & (d & m & Hd) & Eb & Ep & Ec & Ef)]; unfold faithful; cbv zeta; rewrite reconstruct_end.
    { by left. }
    destruct (decide (ri_type i = TRADING_RESUMED)) as [E|E]; [left; by apply applyRiskRecord_resumed|right].
    destruct (applyRiskRecord_congr st _ (recordAt i rs) Hh E Eb Ep Ec Ef) as (-> & ? & ? & ? & ?).
    split; [rewrite applyRiskRecord_halted; simpl; by destruct (ri_type i)|]. split; [by eexists _, _|done].
  - intros d t e st rs H. right. simpl. split; [done|]. split; [by eexists _, _|].
    destruct H as [->|(_ & _ & H)]; [by split_and!|done].
Qed.

(** The records of a start and more, to which a control state is faithful. *)
Definition faithfulFrom (start : list RiskJournalRecord) (st : RiskControlState) (rs : list RiskJournalRecord) : Prop :=
  faithful st rs /\ exists more, rs = start ++ more.

Lemma faithfulFrom_closed start : Closed (fun _ => True) (faithfulFrom start).
Proof.
  split.
  - intros st rs i Hi [Hf [more ->]]. split; [by apply (closed_append _ _ faithful_closed)|].
    exists (more ++ [recordAt i (start ++ more)]). by rewrite app_assoc.
  - intros d t e st rs [Hf Hp]. split; [by apply (closed_memory _ _ faithful_closed)|done].
Qed.

(** Only the record that resumes ends a halt. *)
Lemma notResumed_halted st r :
  rs_halted st = true -> notResumed (rj_input r) -> rs_halted (applyRiskRecord st r) = true.
Proof. intros Hs Hr. rewrite applyRiskRecord_halted. unfold notResumed in Hr. by destruct (ri_type (rj_input r)). Qed.

Lemma reconstruct_stays_halted rs more :
  journalHalted rs -> Forall (fun r => notResumed (rj_input r)) more -> journalHalted (rs ++ more).
Proof.
  intros Hj. induction more as [|r more IH] using rev_ind; [by rewrite app_nil_r|].
  intros [Hm [Hr _]%Forall_cons]%Forall_app. unfold journalHalted. rewrite app_assoc, reconstruct_end.
  apply notResumed_halted; [by apply IH|done].
Qed.

(** ** The engine over a file that any write may tear *)

Section torn.
Context (path : string) (syntaxError : string -> string).
#[local] Instance tornFile_store : RiskEventStore FileState := FileRiskEventStore path syntaxError.
#[local] Instance tornFile_laws : RiskEventStoreLaws FileState := File_laws path syntaxError.

(** The lines of the file are exactly these records, whatever the file system will do. *)
Definition wholeFile (rs : list RiskJournalRecord) (s : FileState) : Prop :=
  numbered 0 rs /\ fileWhole assertValidRiskJournalRecord (List.map riskRecordJson rs) s.

Lemma appendAndFold_whole rs i s :
  wholeFile rs (snd s) -> recordable i = true -> hasRoom (length rs) ->
  wp (appendAndFold i) (fun r s' => match r with
    | inr record => record = recordAt i rs /\ wholeFile (rs ++ [record]) (snd s')
        /\ fst s' = applyRiskRecord (fst s) record
    | inl _ => True end) s.
Proof.
  intros [Hn Hf] Hi Hroom. unfold appendAndFold. apply wp_bind, wp_onWorld. simpl append. apply wp_bind.
  assert (storable (recordAt i rs)) as Hst by done.
  eapply wp_mono.
  { apply (appendJson_whole path syntaxError _ (List.map riskRecordJson rs)); [done|].
    rewrite length_map. by apply wellFormed_record. }
  intros [e|seq] s' Hq; [done|]. rewrite length_map in Hq. destruct Hq as [-> Hf'].
  apply wp_ret. simpl. apply wp_bind, wp_modify, wp_ret. split; [done|]. split; [|done]. split.
  - apply numbered_app. split; [done|]. simpl. by split_and!.
  - by rewrite List.map_app.
Qed.

(** A halt that returns, on a whole file, has halted the engine and left a whole file that
    recovers to a halt. *)
Lemma halt_whole rs detail trigger capital s :
  wholeFile rs (snd s) -> room 3 rs -> match capital with Some c => canonicalCapital c | None => true end = true ->
  wp (halt detail trigger capital) (fun r s' => match r with
    | inr _ => rs_halted (fst s') = true
        /\ exists rs', wholeFile rs' (snd s') /\ journalHalted rs' /\ (length rs' <= length rs + 3)%nat
    | inl _ => True end) s.
Proof.
  intros Hw Hr Hc.
  assert (forall rs' (o : option RiskJournalInput) s', wholeFile rs' (snd s') -> hasRoom (length rs') ->
    match o with Some i => recordable i = true | None => True end ->
    wp (match o with
        | Some i => bind (appendAndFold i) (fun _ => ret tt)
        | None => ret tt end) (fun (r : JournalExn + unit) s'' => match r with
      | inr _ => exists rs'', wholeFile rs'' (snd s'') /\ (length rs'' <= length rs' + 1)%nat
      | inl _ => True end) s') as A.
  { intros rs' o s' Hw' Hroom Hi. destruct o as [i|]; [|apply wp_ret; exists rs'; split; [done|lia]].
    apply wp_bind. eapply wp_mono; [by apply (appendAndFold_whole rs')|]. intros [e|r] s'' H; [done|].
    apply wp_ret. destruct H as (-> & H & _). exists (rs' ++ [recordAt i rs']). split; [done|]. rewrite length_app. simpl. lia. }
  unfold room, hasRoom in *. unfold halt. apply wp_catch, wp_bind. eapply wp_mono.
  { pose proof (A rs ((fun type => haltRecord type detail trigger None capital) <$> breachType trigger) s Hw) as W.
    destruct (breachType trigger); (apply W; [lia|]); [by apply recordable_halt|done]. }
  assert (forall e s', wp (bind (setState (haltInMemory detail trigger e)) (fun _ => throw e))
    (fun (r : JournalExn + unit) s'' => match r with
      | inr _ => rs_halted (fst s'') = true
          /\ exists rs', wholeFile rs' (snd s'') /\ journalHalted rs' /\ (length rs' <= length rs + 3)%nat
      | inl _ => True end) s') as Hthrow by (intros; by apply wp_bind, wp_modify, wp_throw).
  intros [e|[]] s1 H1; [apply Hthrow|]. destruct H1 as (rs1 & H1 & L1). apply wp_bind. eapply wp_mono.
  { pose proof (A rs1 ((fun _ => haltRecord KILL_SWITCH_TRIGGERED detail trigger trigger capital) <$> trigger) s1 H1) as W.
    destruct trigger; (apply W; [lia|]); [by apply recordable_halt|done]. }
  intros [e|[]] s2 H2; [apply Hthrow|]. destruct H2 as (rs2 & H2 & L2). apply wp_bind. eapply wp_mono.
  { apply (appendAndFold_whole rs2); [done|by apply recordable_halt|unfold hasRoom; lia]. }
  intros [e|r] s3 H3; [apply Hthrow|]. destruct H3 as (-> & H3 & Hf). apply wp_ret.
  split; [by rewrite Hf, applyRiskRecord_halted|].
  exists (rs2 ++ [recordAt (haltRecord TRADING_HALTED detail trigger trigger capital) rs2]).
  split; [done|]. split; [by apply journalHalted_end|]. rewrite length_app. simpl. lia.
Qed.

(** The JSON of the records of inputs in K. *)
Definition attempted (K : RiskJournalInput -> Prop) (v : Json) : Prop :=
  exists r, v = riskRecordJson r /\ storable r /\ K (rj_input r).

Lemma attempted_text K v :
  attempted K v -> printable v = true /\ isPlainObject v = true /\ opensKey (stringify v) = true.
Proof. intros (r & -> & Hs & _). split; [by apply printable_record|]. by split. Qed.

(** The file starts with these records; what the writes since have left is made of pieces of
    records with inputs in K, and there is room for m more. *)
Definition tornHolds (K : RiskJournalInput -> Prop) (rs : list RiskJournalRecord) (m : Z) (s : FileState) : Prop :=
  numbered 0 rs /\ exists n, mayHold (attempted K) assertValidRiskJournalRecord (List.map riskRecordJson rs) n s
    /\ Z.of_nat (length rs + n) + m <= 2 ^ 53.

Lemma wholeFile_torn K rs m s : wholeFile rs s -> room m rs -> tornHolds K rs m s.
Proof.
  intros [Hn (Hw & Ht & Hs)] Hr. split; [done|]. exists 0%nat. unfold room in Hr.
  split; [|lia]. apply mayHold_start; [done|done|]. destruct Hs as [-> | ->]; [done|lia].
Qed.

(** What a recovery that succeeds can find: the records, and some that came later, numbered
    after them. *)
Definition recoversMore (K : RiskJournalInput -> Prop) (rs records : list RiskJournalRecord) : Prop :=
  exists more, records = rs ++ more /\ Forall (fun r => K (rj_input r)) more /\ numbered 0 records.

Lemma attempted_records K n l :
  Forall (attempted K) l -> (forall k v, l !! k = Some v -> exists m, prop "seq" v = J_number m
    /\ neq m (nint (Z.of_nat (n + k))) = true) -> Z.of_nat (n + length l) <= 2 ^ 53 ->
  exists more, l = List.map riskRecordJson more /\ Forall (fun r => K (rj_input r)) more /\ numbered n more.
Proof.
  intros H. revert n. induction H as [|v l (r & -> & Hs & Hk) _ IH]; intros n Hq Hl.
  { by exists []. }
  destruct (IH (S n)) as (more & -> & HF & Hn).
  { intros k v Hv. destruct (Hq (S k) v Hv) as (m & Em & Hm). exists m. split; [done|]. by rewrite Nat.add_succ_r in Hm. }
  { simpl length in Hl. lia. }
  exists (r :: more). split; [done|]. split; [by constructor|]. split; [|done]. split; [done|].
  destruct (Hq 0%nat _ eq_refl) as (m & [= <-] & Hm). rewrite Nat.add_0_r in Hm.
  assert (hasRoom n) as Hroom by (unfold hasRoom; simpl length in Hl; lia).
  destruct (nint_nat _ (proj2 Hs)) as [F1 E1]. destruct (nint_nat n Hroom) as [F2 E2].
  rewrite neq_sv, E1, E2 in Hm by done. apply Z.eqb_eq, Z.mul_cancel_l in Hm; [lia|done].
Qed.

Lemma torn_recover K rs m s :
  tornHolds K rs m s ->
  0 <= m -> wp recoverRiskState (fun r s' => tornHolds K rs m s' /\ match r with
    | inr r => exists records, recoversMore K rs records
        /\ rr_state r = reconstructRiskState records initialRiskControlState
        /\ rr_recordsReplayed r = length records
    | inl _ => True end) (restart s).
Proof.
  intros (Hn & n & Hm & Hr) H0. apply mayHold_restart in Hm.
  pose proof (readAllJson_torn (attempted K) (attempted_text K) path syntaxError assertValidRiskJournalRecord
    _ n (restart s) Hm) as W.
  assert (forall s', s' = popFault (restart s) -> tornHolds K rs m s') as Hk.
  { intros s' ->. split; [done|]. exists n. by split; [apply mayHold_pop|]. }
  unfold wp, recoverRiskState in *. simpl readAll. unfold bind.
  destruct (readAllJson path syntaxError assertValidRiskJournalRecord (restart s)) as [[e|l] s']; simpl in *.
  { destruct W as [W _]. split; [by apply Hk|done]. }
  destruct W as [W (more & -> & HF & Hl & Hq)]. split; [by apply Hk|]. rewrite length_map in Hq.
  destruct (attempted_records K (length rs) more HF Hq ltac:(lia)) as (mr & -> & HK & Hmr).
  assert (numbered 0 (rs ++ mr)) as Hnum by (by apply numbered_app).
  exists (rs ++ mr). split; [by exists mr|]. rewrite <- List.map_app.
  rewrite (numbered_records 0) by done. done.
Qed.

(** An engine whose control state has P over such a file. *)
Definition tornEngine (K : RiskJournalInput -> Prop) (P : RiskControlState -> Prop)
    (rs : list RiskJournalRecord) (m : Z) (s : RiskControlState * FileState) : Prop :=
  tornHolds K rs m (snd s) /\ P (fst s).

Lemma tornEngine_kept K P rs :
  (forall st r, P st -> K (rj_input r) -> P (applyRiskRecord st r)) ->
  (forall detail trigger err st, P st -> P (haltInMemory detail trigger err st)) ->
  Kept K (tornEngine K P rs).
Proof.
  intros Hfold Hmem. split.
  - intros m n s Hle [(Hn & k & Hk & Hr) Hp]. split; [|done]. split; [done|]. exists k. split; [done|lia].
  - intros i n s [(Hn & k & Hk & Hr) Hp] H1 Hi HKi. unfold appendAndFold. apply wp_bind, wp_onWorld. simpl append.
    apply wp_bind. eapply wp_mono.
    { apply (appendJson_torn (attempted K) (attempted_text K) path syntaxError assertValidRiskJournalRecord
        (List.map riskRecordJson rs) k); [done|].
      intros seq Hseq. rewrite length_map in Hseq. eexists. split; [reflexivity|]. split; [|done].
      split; [done|]. unfold hasRoom. simpl. lia. }
    assert (forall st' w, mayHold (attempted K) assertValidRiskJournalRecord (List.map riskRecordJson rs) (S k) w ->
      P st' -> tornEngine K P rs (n - 1) (st', w)) as G.
    { intros st' w Hw Hp'. split; [|done]. split; [done|]. exists (S k). split; [done|lia]. }
    intros [e|seq] w [Hw _]; [split; [by apply G|done]|]. apply wp_ret, wp_bind, wp_modify, wp_ret.
    split; [apply G; [done|by apply Hfold]|done].
  - intros d t e n s [Hs Hp]. split; [done|by apply Hmem].
Qed.

Lemma tornEngine_recover K P rs n st s :
  (forall records, recoversMore K rs records -> P (reconstructRiskState records initialRiskControlState)) ->
  0 <= n -> tornEngine K P rs n (st, s) ->
  wp recoverRiskState (fun r s' => match r with
    | inr r => tornEngine K P rs n (rr_state r, s')
    | inl _ => exists st', tornEngine K P rs n (st', s') end) (restart s).
Proof.
  intros HR Hn [Hs Hp]. eapply wp_mono; [by apply torn_recover|].
  intros [e|r] s' [Hs' W]; [by exists st|]. destruct W as (records & Hm & E & _).
  split; [done|]. simpl. rewrite E. auto.
Qed.
(** A life over a file that keeps its promise: the records the file holds, and the control
    state with them. *)
Lemma lifeKept_file P (l : Life) :
  lifeKept (engineHolds P) 0 l ->
  exists rs, riskFileHolds rs (snd l) /\ match fst l with
    | Some st => P st rs | None => exists st, P st rs end.
Proof.
  intros H. assert (exists st, engineHolds P 0 (st, snd l) /\ (fst l = Some st \/ fst l = None)) as (st & Hs & E).
  { unfold lifeKept in H. destruct (fst l); [|destruct H as [st ?]]; eauto. }
  destruct Hs as ([rs Hh] & _ & Hp). exists rs. split; [done|]. simpl in *.
  rewrite (riskFile_records path syntaxError rs _ Hh) in Hp. destruct E as [-> | ->]; eauto.
Qed.
End torn.
