(* ===== verification/RiskProps.v ===== *)
(** * RiskProps: what makes the risk layer safe

    An approval of the execution gate, the limits it stands for,
    halts and recoveries over the life of an engine, the journal file, its admission
    check, and the reading of any file. *)

From stdpp Require Import gmap.
From S2P Require Import Prelude JsNumber JsNumberFacts JsText JsDecimal JsDecimalFacts Json JsonFacts Effects.
From S2P Require Import Journal JournalFacts StageTypes MarketState RiskModel RiskJournal RiskEngine RiskFacts.

Local Open Scope string_scope.
Local Open Scope list_scope.

(** ** A sample engine *)

Definition sampleConfig : RiskEngineConfig :=
  {| re_limits := DEFAULT_RISK_LIMITS; re_accountConfig := DEFAULT_ACCOUNT_CONFIG |}.

Definition sampleView : MarketView :=
  {| mv_account := emptyAccount DEFAULT_ACCOUNT_CONFIG; mv_positions := ∅ |}.

Definition sampleQuote (symbol : string) : option Quote :=
  if bool_decide (symbol = "BTC") then Some {| qt_symbol := "BTC"; qt_ts := "t"; qt_price := "50000.00000000" |}
  else None.

Definition sampleContribution : DecisionContribution := {|
  dc_strategyVersionId := "v"; dc_executionStrategyId := "s"; dc_executionStrategyVersion := nint 1;
  dc_featureSnapshotId := "f"; dc_dqReportId := "d"; dc_datasetHash := "h"; dc_featureHash := "g";
  dc_side := LONG; dc_confidence := "0.80"; dc_weightedNotional := "5000.00" |}.

Definition sampleProposal : ProposedAllocation := {|
  pa_symbol := "BTC"; pa_side := LONG; pa_targetNotional := "5000.00"; pa_netScore := "0.80";
  pa_strategyId := "s"; pa_strategyVersion := nint 1; pa_primary := sampleContribution;
  pa_contributions := [sampleContribution] |}.

Definition sampleOrder : ProposedOrder := {|
  po_symbol := "BTC"; po_side := LONG; po_targetQuantity := "0.10000000"; po_targetNotional := "5000.00";
  po_price := "50000.00000000"; po_strategyId := "s" |}.

(** A fresh store in memory, and a fresh file over which some call will fail. *)
Definition emptyStore : InMemoryRiskEventStore := [].

Definition emptyFile (faults : list Fault) : FileState :=
  {| fs_text := None; fs_nextSeq := None; fs_faults := faults |}.

(** ** The execution gate *)

(** A positive size has the notional it was asked for. *)
Lemma sized_notional lev equity price notional projection capital limits pnl symbol side p strategy :
  let sizing := sizePosition {| si_config := {| sc_mode := FIXED_NOTIONAL; sc_leverage := lev;
      sc_fixedQuantity := None; sc_fixedNotional := Some notional; sc_equityFraction := None;
      sc_volTargetFraction := None; sc_riskFraction := None; sc_stopLossFraction := None |};
    si_equity := equity; si_price := price; si_volatility := None |} in
  inputsValid (Build_ProposedOrder symbol side (ps_targetQuantity sizing) (ps_targetNotional sizing) p strategy)
    projection capital limits pnl = true ->
  ps_targetNotional sizing = quantizeNotional notional.
Proof.
  cbv zeta. unfold sizePosition. simpl si_config. simpl si_price. cbv zeta.
  assert (forall mode detail, inputsValid (Build_ProposedOrder symbol side (ps_targetQuantity (zeroSize mode detail))
    (ps_targetNotional (zeroSize mode detail)) p strategy) projection capital limits pnl = true -> False) as Z.
  { intros mode detail. unfold inputsValid, targetQty. simpl po_targetQuantity.
    replace (ngt (parseDecimal (quantizeQty (nint 0))) (nint 0)) with false by evaluate.
    rewrite !andb_false_r. discriminate. }
  destruct (negb (isPos price)); [intros []%Z|].
  unfold modeNotional. simpl. unfold nonNegative, given.
  destruct (isFinite notional); [|intros []%Z].
  destruct (nlt notional (nint 0)); [intros []%Z|]. destruct (negb _ || _); [intros []%Z|reflexivity].
Qed.

Section engine.
Context {S : Type} `{!RiskEventStore S} `{!RiskEventStoreLaws S}.
Context (config : RiskEngineConfig).

(** C11. The risk gate approves a proposal only when there is a quote with a positive
    price, trading is not halted, no kill-switch trigger holds, and an order of the
    proposal's symbol and side at the quoted price, sized to the proposal's notional, is
    within every limit; and then the approval is in the journal before it is returned. *)
Theorem risk_gate_sound view getQuote health proposal s s' :
  store_ok (snd s) -> room 3 (durable (snd s)) -> canonicalCapital (snapshotOf config view) = true ->
  createRiskExecutionGate config view getQuote health proposal s = (inr Approved, s') ->
  exists quote order,
    getQuote (pa_symbol proposal) = Some quote /\ ngt (parseDecimal (qt_price quote)) (nint 0) = true
    /\ po_symbol order = pa_symbol proposal /\ po_side order = pa_side proposal /\ po_price order = qt_price quote
    /\ po_targetNotional order = quantizeNotional (parseDecimal (pa_targetNotional proposal))
    /\ rs_halted (fst s) = false
    /\ globalTrigger config (fst s) (snapshotOf config view) health = None
    /\ withinLimits order
         (projectOrder (mv_positions view) (snapshotOf config view) order (acf_leverage (re_accountConfig config)))
         (snapshotOf config view) (re_limits config) (sessionPnL (fst s) (snapshotOf config view))
    /\ let record := recordAt (gateRecord RISK_CHECK_PASSED "PASSED" "all pre-trade checks passed"
                       (snapshotOf config view) order) (durable (snd s)) in
       durable (snd s') = durable (snd s) ++ [record] /\ fst s' = applyRiskRecord (fst s) record.
Proof.
  intros Hs Hr Hc. unfold createRiskExecutionGate.
  destruct (getQuote (pa_symbol proposal)) as [quote|]; [|by intros [= ]].
  destruct (ngt (parseDecimal (qt_price quote)) (nint 0)) eqn:Hp; [|by intros [= ]].
  cbv zeta. set (order := Build_ProposedOrder _ _ _ _ _ _). unfold bind. cbn [negb]. cbv beta iota.
  assert (room 1 (durable (snd s))) as Hr1 by (unfold room in *; lia).
  pose proof (evaluate_approves config order view health s Hs Hr1 Hc) as W.
  unfold wp in W. destruct (evaluate config order view health s) as [[e|[capital|reason type detail capital]] s1]; [by intros [= ]| |by intros [= ]].
  intros [= ->]. simpl in W. destruct W as (Hn & -> & Ht & Hv & Hd & Hf).
  exists quote, order. apply approve_withinLimits in Hv. split_and!; try done.
  subst order. simpl. eapply sized_notional, (proj1 Hv).
Qed.
End engine.

Section life.
Context (path : string) (syntaxError : string -> string).
#[local] Instance anyFile : RiskEventStore FileState := FileRiskEventStore path syntaxError.
#[local] Instance anyFile_laws : RiskEventStoreLaws FileState := File_laws path syntaxError.
Context (config : RiskEngineConfig).

(** ** Halts *)

(** C12. Once a halt has been journaled in a file whose lines are whole, nothing but a
    reset ends it: after any sequence of evaluations, further halts and restarts of the
    process, whatever the file system does to the calls on the way (a read or a write that
    fails before, in the middle of or after its text, so that later records are glued to
    torn ones, lost or repeated), a running engine is halted, every evaluation forbids with
    TRADING_HALTED and changes nothing, and a restart either refuses the journal or
    recovers to a halt. *)
Theorem halt_persists st w rs detail trigger capital st1 w1 events :
  wholeFile rs w -> room (6 + 3 * Z.of_nat (length events)) rs ->
  match capital with Some c => canonicalCapital c | None => true end = true ->
  halt detail trigger capital (st, w) = (inr tt, (st1, w1)) ->
  Forall (eventOk config) events -> Forall (fun e => isResetEvent e = false) events ->
  let l := foldl (lifeStep config) (Some st1, w1) events in
  (forall st', fst l = Some st' -> rs_halted st' = true
     /\ forall order view health, exists text, evaluate config order view health (st', snd l)
          = (inr (Forbid Halted TRADING_HALTED text (snapshotOf config view)), (st', snd l)))
  /\ forall r s', recoverRiskState (restart (snd l)) = (inr r, s') -> rs_halted (rr_state r) = true.
Proof.
  intros Hw Hr Hc Hh He Hn l.
  pose proof (halt_whole path syntaxError rs detail trigger capital (st, w) Hw ltac:(unfold room in *; lia) Hc) as W.
  unfold wp in W. change (tornFile_store path syntaxError) with anyFile in W. rewrite Hh in W.
  destruct W as (H1 & rs' & Hw' & Hj & Hlen).
  assert (forall records, recoversMore notResumed rs' records ->
    rs_halted (reconstructRiskState records initialRiskControlState) = true) as Hrec.
  { intros records (more & -> & HF & _). by apply reconstruct_stays_halted. }
  assert (lifeKept (tornEngine notResumed (fun st => rs_halted st = true) rs') 0 l) as Hl.
  { apply (lives_kept config notResumed).
    - apply (tornEngine_kept path syntaxError); [|done]. intros st' r Hst Hk. by apply notResumed_halted.
    - intros n st' s Hn0 H. by apply (tornEngine_recover path syntaxError _ _ rs' n st' s).
    - split; [|done]. apply wholeFile_torn; [done|]. unfold room in *. lia.
    - done.
    - done.
    - intros e Hin Hrs. rewrite Forall_forall in Hn. by rewrite (Hn e Hin) in Hrs. }
  split.
  - intros st' E. unfold lifeKept in Hl. rewrite E in Hl. destruct Hl as [_ H2]. split; [done|].
    intros order view health. eexists. unfold evaluate, state, bind, gets. cbn [fst]. cbv zeta. simpl in H2. by rewrite H2.
  - intros r s' E. assert (tornHolds notResumed rs' 0 (snd l)) as Ht.
    { unfold lifeKept in Hl. destruct (fst l); [apply Hl|by destruct Hl as [? [? _]]]. }
    pose proof (torn_recover path syntaxError notResumed rs' 0 (snd l) Ht ltac:(lia)) as W. unfold wp in W.
    change (tornFile_store path syntaxError) with anyFile in W. rewrite E in W.
    destruct W as [_ (records & Hm & -> & _)]. by apply Hrec.
Qed.

(** ** Recovery *)

(** C13. The life of an engine over a file whose lines are whole, from a control state
    faithful to its records, through evaluations, halts, resets and restarts.  Whatever
    the file system does, torn writes included, a restart either refuses the journal or
    recovers the fold of records that begin with all those of the start and are numbered
    in sequence: nothing settled is lost or changed (a record appended after a torn line
    may be, see [append_after_torn_line_is_lost]).  If no write is torn (each coming
    call works or fails before it writes), then at every point the control state is the
    fold of all records of the file, or it is halted by a journal failure that its detail
    names and agrees with that fold on all accounting; and a restart recovers exactly that
    fold, and does so when its read works. *)
Theorem recovery_faithful st w rs events :
  wholeFile rs w -> room (3 * Z.of_nat (length events)) rs -> faithful st rs ->
  Forall (eventOk config) events ->
  let l := foldl (lifeStep config) (Some st, w) events in
  (forall r s', recoverRiskState (restart (snd l)) = (inr r, s') ->
     exists more, rr_state r = reconstructRiskState (rs ++ more) initialRiskControlState
       /\ rr_recordsReplayed r = length (rs ++ more) /\ numbered 0 (rs ++ more))
  /\ (List.forallb atomicFault (fs_faults w) = true ->
      exists more, riskFileHolds (rs ++ more) (snd l)
        /\ (forall st', fst l = Some st' -> faithful st' (rs ++ more))
        /\ (forall r s', recoverRiskState (restart (snd l)) = (inr r, s') ->
              rr_state r = reconstructRiskState (rs ++ more) initialRiskControlState
              /\ rr_recordsReplayed r = length (rs ++ more))
        /\ (fs_faults (snd l) = [] -> exists r s', recoverRiskState (restart (snd l)) = (inr r, s'))).
Proof.
  intros Hw Hr Hf He l. split.
  - intros r s' E. assert (lifeKept (tornEngine (fun _ => True) (fun _ => True) rs) 0 l) as Hl.
    { apply (lives_kept config (fun _ => True)); [by apply (tornEngine_kept path syntaxError)|..|done|done|done].
      - intros n st' s Hn0 H. by apply (tornEngine_recover path syntaxError _ _ rs n st' s).
      - split; [|done]. by apply wholeFile_torn. }
    assert (tornHolds (fun _ => True) rs 0 (snd l)) as Ht.
    { unfold lifeKept in Hl. destruct (fst l); [apply Hl|by destruct Hl as [? [? _]]]. }
    pose proof (torn_recover path syntaxError _ rs 0 (snd l) Ht ltac:(lia)) as W. unfold wp in W.
    change (tornFile_store path syntaxError) with anyFile in W. rewrite E in W.
    destruct W as [_ (records & (more & -> & _ & Hn) & Est & Elen)]. by exists more.
  - intros Ha. assert (riskFileHolds rs w) as Hh.
    { destruct Hw as [Hn (? & ? & ?)]. split; [done|]. by split_and!. }
    assert (lifeKept (engineHolds (faithfulFrom rs)) 0 l) as Hl.
    { apply (lives_kept config (fun _ => True)); [by apply engineHolds_kept, faithfulFrom_closed|..|done|done|done].
      - intros n st' s _. apply engineHolds_recover. intros st'' rs' [_ Hp]. split; [by left|done].
      - split_and!; simpl; rewrite ?(riskFile_records path syntaxError rs w Hh); [by exists rs|done|].
        split; [done|]. exists []. by rewrite app_nil_r. }
    destruct (lifeKept_file path syntaxError _ l Hl) as (rs' & Hh' & Hst).
    assert (exists more, rs' = rs ++ more) as [more ->].
    { destruct (fst l); [apply Hst|by destruct Hst as [? [_ ?]]]. }
    exists more. split; [done|]. split; [|split].
    + intros st' E. rewrite E in Hst. apply Hst.
    + intros r s' E. assert (store_ok (restart (snd l))) as Ho by (by exists (rs ++ more); apply riskFile_restart).
      pose proof (recover_wp (restart (snd l)) Ho) as W. unfold wp in W. rewrite E in W. destruct W as (_ & _ & W). simpl in W.
      by rewrite (riskFile_records path syntaxError _ _ (riskFile_restart _ _ Hh')) in W.
    + intros Hno. pose proof (riskFile_readAll path syntaxError _ _ (riskFile_restart _ _ Hh')) as W.
      unfold wp in W. unfold recoverRiskState. destruct (readAll (restart (snd l))) as [[e|records] s'] eqn:E.
      * by destruct W as [_ []].
      * by eexists _, _.
Qed.
End life.

(** ** The limits *)

(** C14. The pre-trade gate approves exactly the orders whose inputs are all finite and
    positive where they must be and that are within the six limits; when it rejects,
    either an input is invalid, or the reason is that of the first check that rejects:
    every check before it passed. *)
Theorem pretrade_gate_exact order projection capital limits dailyPnL :
  match evaluatePreTrade order projection capital limits dailyPnL with
  | Approve checks => withinLimits order projection capital limits dailyPnL
      /\ Forall (fun c => gc_passed c = true) checks
      /\ List.map gc_reason checks = [MAX_POSITION_SIZE; MAX_NOTIONAL; MAX_LEVERAGE; MARGIN_UNAVAILABLE;
                                       DAILY_LOSS_LIMIT; CONCENTRATION_LIMIT]
  | Reject reason eventType _ _ => ~ withinLimits order projection capital limits dailyPnL
      /\ if inputsValid order projection capital limits dailyPnL then
           exists before c after,
             gateChecks order projection capital limits dailyPnL = before ++ c :: after
             /\ Forall (fun c => ck_rejects c = false) before /\ ck_rejects c = true
             /\ reason = ck_reason c /\ eventType = ck_eventType c
         else reason = FAIL_CLOSED /\ eventType = RISK_CHECK_FAILED
  end.
Proof.
  pose proof (approve_withinLimits order projection capital limits dailyPnL) as Hiff.
  destruct (evaluatePreTrade _ _ _ _ _) as [checks|reason type detail checks] eqn:E; unfold evaluatePreTrade in E.
  - split; [by apply Hiff; eexists|]. destruct (inputsValid _ _ _ _ _); [|done]. cbn [negb] in E.
    apply runChecks_checks in E as ->. simpl. by repeat constructor.
  - split; [intros H; apply Hiff in H as [? ?]; done|]. destruct (inputsValid _ _ _ _ _).
    + simpl negb in E. cbv iota in E. by eapply runChecks_first.
    + by injection E as <- <- _ _.
Qed.

(** ** The journal file *)

(** The file of a process that died while it wrote: the text with p at its end, and no
    store object yet. *)
Definition crashed (p : string) (s : FileState) : FileState :=
  {| fs_text := Some (default "" (fs_text s) +:+ p); fs_nextSeq := None; fs_faults := [] |}.

(** The records of some inputs in order. *)
Fixpoint recordsFrom (n : nat) (inputs : list RiskJournalInput) : list RiskJournalRecord :=
  match inputs with
  | [] => []
  | i :: inputs => {| rj_input := i; rj_seq := n |} :: recordsFrom (Datatypes.S n) inputs
  end.

Lemma recordsFrom_length n inputs : length (recordsFrom n inputs) = length inputs.
Proof. revert n. induction inputs; intros n; simpl; auto. Qed.

Lemma recordsFrom_numbered n inputs :
  Forall (fun i => recordable i = true) inputs -> (Z.of_nat (n + length inputs) <= 2 ^ 53)%Z ->
  numbered n (recordsFrom n inputs).
Proof.
  intros H. revert n. induction H as [|i inputs Hi _ IH]; intros n Hl; simpl in *; [done|].
  split; [split; [split; [done|unfold hasRoom; simpl; lia]|done]|]. apply IH. lia.
Qed.

Section journal.
Context (path : string) (syntaxError : string -> string).

(** Appends to a file that works leave exactly their records. *)
Lemma appends_hold rs inputs s :
  riskFileHolds rs s -> fs_faults s = [] ->
  Forall (fun i => recordable i = true) inputs -> (Z.of_nat (length rs + length inputs) <= 2 ^ 53)%Z ->
  exists s', mapAll (@append _ (FileRiskEventStore path syntaxError)) inputs s = (inr (recordsFrom (length rs) inputs), s')
    /\ riskFileHolds (rs ++ recordsFrom (length rs) inputs) s'.
Proof.
  intros Hh Hf Hi. revert rs s Hh Hf. induction Hi as [|i inputs Hi _ IH]; intros rs s Hh Hf Hl; cbn [mapAll recordsFrom length] in *.
  { exists s. rewrite app_nil_r. by split. }
  pose proof (riskFile_append path syntaxError rs i s Hh Hi ltac:(unfold hasRoom; lia)) as W.
  unfold wp in W. unfold bind at 1. unfold riskFile in W.
  destruct (append i s) as [[e|r] s1]; simpl in W.
  { by destruct W as (_ & W & _). }
  destruct W as (Hf1 & -> & Hh1). destruct (IH _ s1 Hh1 (Hf1 Hf)) as (s' & E & Hh').
  { rewrite length_app. simpl. lia. }
  rewrite length_app, Nat.add_1_r in E, Hh'. exists s'. unfold bind. rewrite E. split; [done|].
  by rewrite <- app_assoc in Hh'.
Qed.

(** The text of the line a record is journaled as. *)
Definition recordLine (r : RiskJournalRecord) : string := endLine (stringify (riskRecordJson r)).

(** C15. The journal file gives back exactly what was appended to it, also after a crash
    in the middle of a further append: a prefix of that record's line leaves the records
    as they were, unless it lacks nothing but the final line feed, and then the record is
    there too.  Nothing is lost and no torn line is read as a record. *)
Theorem journal_survives_crash inputs i p u :
  Forall (fun i => recordable i = true) (inputs ++ [i]) -> (Z.of_nat (length inputs) < 2 ^ 53)%Z ->
  let rs := recordsFrom 0 inputs in
  let r := {| rj_input := i; rj_seq := length inputs |} in
  recordLine r = p +:+ u -> u <> "" ->
  exists s, mapAll (@append _ (FileRiskEventStore path syntaxError)) inputs (emptyFile []) = (inr rs, s)
    /\ fst (@readAll _ (FileRiskEventStore path syntaxError) (crashed p s)) = inr (if bool_decide (u = endLine "") then rs ++ [r] else rs).
Proof.
  intros Hi Hl rs r E Hu. apply Forall_app in Hi as [Hi Hr]. apply Forall_cons in Hr as [Hr _].
  assert (riskFileHolds [] (emptyFile [])) as H0 by (split; [done|split_and!; [done|done|by left|done]]).
  destruct (appends_hold [] inputs _ H0 eq_refl Hi ltac:(simpl; lia)) as (s & Es & Hn & Hw & Ht & _).
  exists s. split; [exact Es|]. simpl app in Hn, Hw, Ht.
  assert (storable r) as Hsr by exact (conj Hr Hl).
  assert (wellFormed assertValidRiskJournalRecord (length (List.map riskRecordJson rs)) (riskRecordJson r)) as Hwr.
  { apply wellFormed_record; [done|]. rewrite length_map. unfold rs. by rewrite recordsFrom_length. }
  assert (numbered 0 (rs ++ [r])) as Hn'.
  { apply numbered_app. split; [done|]. simpl. unfold rs. rewrite recordsFrom_length. by split_and!. }
  apply endLine_split in E as (u' & -> & E); [|done].
  pose proof (journal_tail assertValidRiskJournalRecord path syntaxError (List.map riskRecordJson rs) (riskRecordJson r) p u' Hw Hwr E) as Hrd.
  unfold readAll, FileRiskEventStore, readAllJson, readFile, bind, gets, modify, crashed, nextFault.
  cbn [fs_faults fs_text popFault]. rewrite Ht. fold rs. rewrite Hrd. simpl fst. f_equal.
  replace (bool_decide (endLine u' = endLine "")) with (bool_decide (u' = "")).
  2:{ apply bool_decide_ext. split; [by intros ->|]. by intros ?%endLine_inj. }
  case_bool_decide; [|by eapply numbered_records].
  change [riskRecordJson r] with (List.map riskRecordJson [r]). rewrite <- List.map_app. by eapply numbered_records.
Qed.
End journal.

(** ** Admission *)

(** The shape of a risk event in JSON, as its type declares it. *)
Definition RecordShape (v : Json) : Prop := exists fs n t reason detail,
  v = J_object fs
  /\ field "seq" fs = J_number n /\ isFinite n = true /\ (exists k : nat, sv n = (2 ^ 1074 * Z.of_nat k)%Z)
  /\ field "type" fs = J_string (showEventType t)
  /\ field "reason" fs = J_string reason /\ field "detail" fs = J_string detail
  /\ (field "symbol" fs = J_null \/ exists s, field "symbol" fs = J_string s)
  /\ (field "capital" fs = J_null
      \/ exists cfs, field "capital" fs = J_object cfs
         /\ Forall (fun f => exists s, field f cfs = J_string s /\ isCanonicalDecimalString s NOTIONAL_DP = true) CAPITAL_FIELDS)
  /\ (field "trigger" fs = J_null \/ exists t, field "trigger" fs = J_string (showTrigger t))
  /\ (field "order" fs = J_null \/ exists ofs, field "order" fs = J_object ofs).

Lemma isInteger_natural n :
  isInteger n && negb (nlt n (nint 0)) = true
  <-> isFinite n = true /\ exists k : nat, sv n = (2 ^ 1074 * Z.of_nat k)%Z.
Proof.
  pose proof (pow2_pos 1074 ltac:(lia)) as Hp. unfold isInteger.
  destruct (isFinite n) eqn:Hf; [|split; [done|by intros [? _]]]. rewrite nlt_sv by done.
  change (sv (nint 0)) with 0%Z. rewrite !andb_true_iff, negb_true_iff, Z.eqb_eq, Z.ltb_ge. split.
  - intros [[_ Hm] Hn]. split; [done|]. exists (Z.to_nat (sv n / 2 ^ 1074)).
    rewrite Z2Nat.id by (apply Z.div_pos; lia). apply Z.div_exact; lia.
  - intros [_ [k E]]. rewrite E. split; [split; [done|]|lia]. by rewrite Z.mul_comm, Z.mod_mul by lia.
Qed.

Lemma isString_spec v : negb (bool_decide (typeof v = "string")) = false <-> exists s, v = J_string s.
Proof.
  rewrite negb_false_iff, bool_decide_eq_true. split; [|by intros [s ->]]. destruct v; try done. by eexists.
Qed.

Lemma capitalTests_spec v :
  Forall (fun t => fst t = false) (capitalTests v)
  <-> v = J_null \/ exists cfs, v = J_object cfs
      /\ Forall (fun f => exists s, field f cfs = J_string s /\ isCanonicalDecimalString s NOTIONAL_DP = true) CAPITAL_FIELDS.
Proof.
  unfold capitalTests. destruct v as [| | | | | |cfs];
    try (split; [|by intros [?|(? & ? & _)]]; rewrite Forall_cons; by intros [? _]).
  - split; [by left|constructor].
  - rewrite Forall_cons, Forall_map.
    rewrite (Forall_iff _ _ (fun f => exists s, field f cfs = J_string s /\ isCanonicalDecimalString s NOTIONAL_DP = true)).
    { split; [intros [_ H]; right; by exists cfs|]. by intros [?|(? & [= <-] & H)]. }
    intros f. simpl. rewrite negb_false_iff. unfold isCanonicalDecimal.
    destruct (field f cfs); try (split; [done|by intros (? & ? & _)]).
    split; [by eexists|]. by intros (? & [= <-] & ?).
Qed.

Lemma seqTest_spec v :
  match v with J_number n => isInteger n && negb (nlt n (nint 0)) | _ => false end = true
  <-> exists n, v = J_number n /\ isFinite n = true /\ exists k : nat, sv n = (2 ^ 1074 * Z.of_nat k)%Z.
Proof.
  destruct v; try (split; [done|by intros (? & ? & _)]). rewrite isInteger_natural.
  split; [by eexists|]. by intros (? & [= <-] & ?).
Qed.

Lemma symbolTest_spec v :
  match v with J_null | J_string _ => false | _ => true end = false <-> v = J_null \/ exists s, v = J_string s.
Proof.
  destruct v; try (split; [done|by intros [?|[? ?]]]); (split; [|done]); intros _; [by left|right; by eexists].
Qed.

Lemma triggerTest_spec v :
  match v with J_null => false | _ => negb (isOneOf (List.map showTrigger KILL_SWITCH_TRIGGERS) v) end = false
  <-> v = J_null \/ exists t, v = J_string (showTrigger t).
Proof.
  rewrite <- (isOneOf_show showTrigger KILL_SWITCH_TRIGGERS) by (by intros []; repeat constructor).
  destruct v; rewrite ?negb_false_iff; (split; [auto|by intros [?|?]]).
Qed.

Lemma orderTest_spec v :
  match v with J_null => false | _ => negb (isPlainObject v) end = false <-> v = J_null \/ exists fs, v = J_object fs.
Proof.
  destruct v; try (split; [done|by intros [?|[? ?]]]); (split; [|done]); intros _; [by left|right; by eexists].
Qed.

Lemma admission_shape v : assertValidRiskJournalRecord v = None <-> RecordShape v.
Proof.
  unfold assertValidRiskJournalRecord. cbv zeta.
  rewrite firstRejection_none, !Forall_app, !Forall_cons, !Forall_nil, capitalTests_spec.
  destruct v as [| | | | | |fs]; try (split; [by intros [[? _] _]|by intros (? & ? & ? & ? & ? & ? & _)]).
  cbn [prop fst isPlainObject negb]. unfold RISK_EVENT_TYPE_SET, KILL_SWITCH_TRIGGER_SET.
  rewrite !isString_spec, !negb_false_iff, seqTest_spec, symbolTest_spec, triggerTest_spec, orderTest_spec.
  rewrite isOneOf_show by (by intros []; repeat constructor). split.
  - intros [(_ & (n & Es & Hn & Hk) & [t Et] & [reason Er] & [detail Ed] & Hs & _) (Hc & Ht & Ho & _)].
    by exists fs, n, t, reason, detail.
  - intros (fs' & n & t & reason & detail & [= <-] & Es & Hn & Hk & Et & Er & Ed & Hs & Hc & Ht & Ho).
    split_and!; eauto.
Qed.

(** The capital a record is used with is the one its line gives: none for null, and field
    by field the amounts of the object otherwise. *)
Definition capitalGiven (v : Json) (capital : option CapitalSnapshot) : Prop :=
  match capital with
  | None => v = J_null
  | Some c => isPlainObject v = true
      /\ prop "accountEquity" v = J_string (cs_accountEquity c)
      /\ prop "availableCash" v = J_string (cs_availableCash c)
      /\ prop "usedMargin" v = J_string (cs_usedMargin c)
      /\ prop "availableMargin" v = J_string (cs_availableMargin c)
      /\ prop "unrealizedPnl" v = J_string (cs_unrealizedPnl c)
      /\ prop "realizedPnl" v = J_string (cs_realizedPnl c)
      /\ prop "grossExposure" v = J_string (cs_grossExposure c)
      /\ prop "netExposure" v = J_string (cs_netExposure c)
      /\ canonicalCapital c = true
  end.

Lemma capitalOf_given v : Forall (fun t => fst t = false) (capitalTests v) -> capitalGiven v (capitalOf v).
Proof.
  intros [->|(cfs & -> & H)]%capitalTests_spec; [done|]. unfold CAPITAL_FIELDS in H. rewrite !Forall_cons in H.
  destruct H as ((s1 & E1 & C1) & (s2 & E2 & C2) & (s3 & E3 & C3) & (s4 & E4 & C4) & (s5 & E5 & C5)
    & (s6 & E6 & C6) & (s7 & E7 & C7) & (s8 & E8 & C8) & _).
  unfold capitalGiven, capitalOf, canonicalCapital, prop.
  rewrite E1, E2, E3, E4, E5, E6, E7, E8. simpl. rewrite C1, C2, C3, C4, C5, C6, C7, C8. by split_and!.
Qed.

(** C16. Admission of a parsed journal line accepts exactly the values of the declared
    shape, and the record it is then used as has the parsed type, texts, symbol, trigger,
    order and sequence number, and the parsed capital, amount by amount. *)
Theorem risk_admission_exact v :
  (assertValidRiskJournalRecord v = None <-> RecordShape v)
  /\ (assertValidRiskJournalRecord v = None ->
      let r := riskRecordOf v in
      J_string (showEventType (ri_type (rj_input r))) = prop "type" v
      /\ J_string (ri_reason (rj_input r)) = prop "reason" v /\ J_string (ri_detail (rj_input r)) = prop "detail" v
      /\ orNull J_string (ri_symbol (rj_input r)) = prop "symbol" v
      /\ orNull (fun t => J_string (showTrigger t)) (ri_trigger (rj_input r)) = prop "trigger" v
      /\ orNull id (ri_order (rj_input r)) = prop "order" v
      /\ capitalGiven (prop "capital" v) (ri_capital (rj_input r))
      /\ exists n, prop "seq" v = J_number n /\ sv n = (2 ^ 1074 * Z.of_nat (rj_seq r))%Z).
Proof.
  split; [apply admission_shape|]. rewrite admission_shape.
  intros (fs & n & t & reason & detail & -> & Es & Hn & [k Hk] & Et & Er & Ed & Hs & Hc & Ht & Ho).
  apply capitalTests_spec, capitalOf_given in Hc.
  unfold riskRecordOf. cbn [prop rj_input rj_seq ri_type ri_reason ri_detail ri_symbol ri_trigger ri_order ri_capital].
  rewrite Et, Er, Ed, typeOf_show. split_and!; [done|done|done|..|exact Hc|].
  - by destruct Hs as [->|[s ->]].
  - destruct Ht as [->|[t' ->]]; [done|by rewrite triggerOf_show].
  - by destruct Ho as [->|[ofs ->]].
  - rewrite Es. eexists. split; [done|]. unfold natOf. rewrite Hk.
    rewrite (Z.mul_comm (2 ^ 1074)), Z.div_mul, Nat2Z.id by (by apply Z.pow_nonzero). apply Z.mul_comm.
Qed.

(** ** Reading a journal *)

(** C17. Reading a journal file terminates with an answer on every content, whatever it
    is: the failure of the file system, or, reading with any fuel that is enough for the
    length of the text (more fuel changes nothing), the records of all lines that are not
    blank but a torn last one, each parsed, admitted and numbered by its position, or a
    corruption error, at a line that follows such records and is unparseable with others
    after it, or not admitted, or out of sequence.  Reading changes nothing. *)
Theorem journal_read_total path syntaxError admit_record f s :
  let raw := default "" (fs_text s) in
  (parseFuel raw <= f)%nat ->
  exists r, readAllJson path syntaxError admit_record s = (r, popFault s)
    /\ match nextFault s with
       | ReadFault m => r = inl (FsError m)
       | _ => readOutcome admit_record f 0 (contentLines (splitLines raw)) r
       end.
Proof.
  intros raw Hf. pose proof (readLines_text path syntaxError admit_record f raw Hf) as H.
  unfold readAllJson, readFile, bind, gets, modify. cbn [fst snd].
  destruct (nextFault s); try by eexists.
  all: change (fs_text (popFault s)) with (fs_text s); subst raw; destruct (fs_text s) as [t|]; simpl in H |- *.
  all: try (destruct (readLines _ _ _ _ _ _) eqn:E; by eexists). all: by eexists.
Qed.

(** ** Witnesses *)

Definition sampleStart : RiskControlState * InMemoryRiskEventStore := (initialRiskControlState, emptyStore).

Lemma risk_gate_sound_witness :
  let s' := snd (createRiskExecutionGate sampleConfig sampleView sampleQuote None sampleProposal sampleStart) in
  fst (createRiskExecutionGate sampleConfig sampleView sampleQuote None sampleProposal sampleStart) = inr Approved
  /\ exists quote order, sampleQuote "BTC" = Some quote /\ po_price order = qt_price quote
     /\ po_targetNotional order = "5000.00" /\ exists record, durable (snd s') = [record].
Proof.
  split; [evaluate|].
  destruct (@risk_gate_sound InMemoryRiskEventStore InMemory_store InMemory_laws sampleConfig sampleView sampleQuote None sampleProposal sampleStart
    (snd (createRiskExecutionGate sampleConfig sampleView sampleQuote None sampleProposal sampleStart)) I
    ltac:(apply Z.leb_le; evaluate) ltac:(evaluate) ltac:(evaluate))
    as (quote & order & Hq & _ & _ & _ & Hpr & Hn & _ & _ & _ & Hd & _).
  exists quote, order. split; [exact Hq|]. split; [exact Hpr|]. split; [rewrite Hn; evaluate|].
  eexists. exact Hd.
Defined.

(** An engine over a file: a manual halt, an evaluation, two restarts, another evaluation,
    a second halt. *)
Definition sampleEvents : list LifeEvent := [
  Call (Evaluate sampleOrder sampleView None); Recover; Recover; Call (Evaluate sampleOrder sampleView None);
  Call (Halt "again" None None)].

(** A third halt and one more restart. *)
Definition moreEvents : list LifeEvent := sampleEvents ++ [Recover; Call (Halt "third" None None); Recover].

(** The file systems of the two lives: the first reading of a restart fails; the second halt
    tears its line in the middle, or fails before it writes. *)
Definition tearingFile : FileState :=
  emptyFile [NoFault; NoFault; ReadFault "EIO"; NoFault; NoFault; WriteFault 40 "ENOSPC"].
Definition failingFile : FileState :=
  emptyFile [NoFault; NoFault; ReadFault "EIO"; NoFault; NoFault; NoFault; WriteFault 0 "ENOSPC"].

Definition sampleError (text : string) : string := "Unexpected token".

Definition fileStore : RiskEventStore FileState := FileRiskEventStore "risk.jsonl" sampleError.
#[local] Existing Instance fileStore.

Lemma sampleEvents_ok : Forall (eventOk sampleConfig) sampleEvents.
Proof.
  assert (canonicalCapital (snapshotOf sampleConfig sampleView) = true) as H by evaluate.
  repeat (apply Forall_cons; split); [exact H|exact I|exact I|exact H|exact I|constructor].
Qed.

Lemma emptyFile_whole faults : wholeFile [] (emptyFile faults).
Proof. repeat split. by left. Qed.

(** The halt is journaled, the restart fails once, the second halt is torn in the file and
    the third glued to it: the engine is still halted, and so is what the next restart
    recovers. *)
Lemma halt_persists_witness :
  let start := halt "operator" None None (initialRiskControlState, tearingFile) in
  let l := foldl (lifeStep sampleConfig) (Some (fst (snd start)), snd (snd start)) moreEvents in
  fst start = inr tt /\ option_map rs_halted (fst l) = Some true
  /\ forall r s', recoverRiskState (restart (snd l)) = (inr r, s') -> rs_halted (rr_state r) = true.
Proof.
  split; [evaluate|]. split; [evaluate|].
  refine (proj2 (halt_persists "risk.jsonl" sampleError sampleConfig initialRiskControlState tearingFile []
    "operator" None None _ _ moreEvents _ _ _ _ _ _)).
  - apply emptyFile_whole.
  - apply Z.leb_le. evaluate.
  - reflexivity.
  - evaluate.
  - apply Forall_app. split; [exact sampleEvents_ok|repeat constructor].
  - repeat constructor.
Defined.

(** The last halt could not be journaled: the engine keeps it and says why, and a restart
    recovers the fold of the file. *)
Lemma recovery_faithful_witness :
  let l := foldl (lifeStep sampleConfig) (Some initialRiskControlState, failingFile) sampleEvents in
  exists st' more, fst l = Some st' /\ riskFileHolds more (snd l) /\ faithful st' more
    /\ exists r s', recoverRiskState (restart (snd l)) = (inr r, s').
Proof.
  destruct (recovery_faithful "risk.jsonl" sampleError sampleConfig initialRiskControlState failingFile [] sampleEvents
    (emptyFile_whole _) ltac:(apply Z.leb_le; evaluate) ltac:(left; reflexivity) sampleEvents_ok)
    as [_ [more (Hh & Hf & _ & Hr)]]; [evaluate|].
  eexists _, more. split; [vm_compute; reflexivity|]. split; [exact Hh|]. split; [apply Hf; vm_compute; reflexivity|].
  apply Hr. evaluate.
Defined.

Definition sampleHalt : RiskJournalInput := haltRecord TRADING_HALTED "operator" None None None.

Lemma journal_survives_crash_witness :
  exists s, mapAll (@append _ fileStore) [sampleHalt] (emptyFile []) = (inr (recordsFrom 0 [sampleHalt]), s)
    /\ fst (@readAll _ fileStore (crashed (String.substring 0 40 (recordLine {| rj_input := sampleHalt; rj_seq := 1 |})) s))
       = inr (recordsFrom 0 [sampleHalt]).
Proof.
  destruct (journal_survives_crash "risk.jsonl" (fun _ => "Unexpected token") [sampleHalt] sampleHalt
    (String.substring 0 40 (recordLine {| rj_input := sampleHalt; rj_seq := 1 |}))
    (String.substring 40 200 (recordLine {| rj_input := sampleHalt; rj_seq := 1 |})) ltac:(repeat constructor)
    ltac:(apply Z.ltb_lt; evaluate) ltac:(evaluate) ltac:(vm_compute; discriminate)) as (s & Hs & Hr).
  exists s. split; [exact Hs|]. etransitivity; [exact Hr|]. evaluate.
Defined.

(** The append after a crash glues its line to the torn one: it reports success, and the
    next process reads neither; one more append and the journal is corrupt mid-file. *)
Definition tornFile : FileState := crashed "{" (emptyFile []).

Example append_after_torn_line_is_lost :
  let halted := @append _ fileStore sampleHalt tornFile in
  fst halted = inr {| rj_input := sampleHalt; rj_seq := 0 |}
  /\ fst (@readAll _ fileStore (restart (snd halted))) = inr []
  /\ match fst (@readAll _ fileStore (restart (snd (@append _ fileStore sampleHalt (restart (snd halted))))) ) with
     | inl (CorruptionError _) => True | _ => False end.
Proof. vm_compute. repeat split. Qed.

(** A torn line after a halt: the halt is read, the torn line is not a record. *)
Lemma journal_read_total_witness :
  let raw := recordLine {| rj_input := sampleHalt; rj_seq := 0 |} +:+ "{" in
  let s := {| fs_text := Some raw; fs_nextSeq := None; fs_faults := [] |} in
  exists records, fst (readAllJson "risk.jsonl" id assertValidRiskJournalRecord s) = inr records /\ length records = 1
    /\ readOutcome assertValidRiskJournalRecord (parseFuel raw) 0 (contentLines (splitLines raw)) (inr records).
Proof.
  intros raw s. pose proof (journal_read_total "risk.jsonl" id assertValidRiskJournalRecord (parseFuel raw) s (le_n _)) as (r & E & H).
  exists [riskRecordJson {| rj_input := sampleHalt; rj_seq := 0 |}].
  assert (fst (readAllJson "risk.jsonl" id assertValidRiskJournalRecord s)
    = inr [riskRecordJson {| rj_input := sampleHalt; rj_seq := 0 |}]) as Er by evaluate.
  split; [exact Er|]. split; [reflexivity|]. rewrite E in Er. cbn [fst] in Er. rewrite Er in H. exact H.
Defined.

(** The record of an approval, with its capital. *)
Definition samplePassed : RiskJournalRecord :=
  recordAt (gateRecord RISK_CHECK_PASSED "PASSED" "all pre-trade checks passed" (snapshotOf sampleConfig sampleView)
              sampleOrder) [].

Lemma risk_admission_exact_witness :
  let v := riskRecordJson samplePassed in
  assertValidRiskJournalRecord v = None /\ RecordShape v
  /\ capitalGiven (prop "capital" v) (ri_capital (rj_input (riskRecordOf v)))
  /\ ri_capital (rj_input (riskRecordOf v)) = Some (snapshotOf sampleConfig sampleView).
Proof.
  intros v. assert (assertValidRiskJournalRecord v = None) as Hv by evaluate.
  destruct (risk_admission_exact v) as [Hs Hr]. destruct (Hr Hv) as (_ & _ & _ & _ & _ & _ & Hc & _).
  split; [exact Hv|]. split; [apply Hs, Hv|]. split; [exact Hc|evaluate].
Defined.
