(* ===== verification/Portfolio.v ===== *)
(** * Portfolio: the pure parts of the worker's execution layer

    services/workers/src/execution: decide.ts, portfolio.ts, risk.ts, intent.ts and
    adapters.ts.  Strings are compared by [localeCompare], the runtime's collation, which
    is a parameter; [sha256] of the intent id is another.  [Array.prototype.sort] is a
    stable insertion sort: every stable sort gives the same list when the comparison is
    consistent. *)

From stdpp Require Import gmap.
From S2P Require Import Prelude JsNumber JsText JsDecimal Json Served StageTypes MarketState.

Local Open Scope string_scope.
Local Open Scope list_scope.

(** ** decide.ts *)

(** A Strategy: its identity and its pure decision; the context is the tick id. *)
Record Strategy := {
  sy_id : string;
  sy_version : number;
  sy_decide : GeneratedSignal -> option string -> DecisionIntent
}.

Definition executionFor (action : DecisionAction) : StageTypes.ExecutionPlan :=
  match action with
  | DA_ENTER => {| xp_status := PENDING; xp_detail := "execution hook reserved (no router wired in Phase 4)" |}
  | _ => {| xp_status := SKIPPED; xp_detail := "intent " +:+ showAction action +:+ " — nothing to execute" |}
  end.

Definition deriveDecisionEvent (observation : GeneratedSignal) (strategy : Strategy) (tickId : option string) :
    DecisionEvent :=
  let decision := sy_decide strategy observation tickId in
  {|
    de_signal := observation;
    de_decision := decision;
    de_execution := Some (executionFor (di_action decision));
    de_lineage := {|
      dl_tickId := tickId;
      dl_strategyVersionId := gs_strategyVersionId observation;
      dl_featureSnapshotId := gs_featureSnapshotId observation;
      dl_dqReportId := gs_dqReportId observation;
      dl_datasetHash := gs_datasetHash observation;
      dl_featureHash := gs_featureHash observation;
      dl_executionStrategyId := sy_id strategy;
      dl_executionStrategyVersion := sy_version strategy
    |}
  |}.

(** ** portfolio.ts *)

Record PortfolioConfig := {
  pc_totalCapital : number;
  pc_strategyWeights : gmap string number;
  pc_defaultStrategyWeight : number;
  pc_netDeadband : number
}.

Definition DEFAULT_PORTFOLIO_CONFIG : PortfolioConfig := {|
  pc_totalCapital := nint 1000000;
  pc_strategyWeights := ∅;
  pc_defaultStrategyWeight := nint 1;
  pc_netDeadband := ndec 1 2
|}.

Record PortfolioPosition := {
  pp_symbol : string;
  pp_side : ExecutionSide;
  pp_notional : string;
  pp_strategyId : string
}.

#[export] Instance PortfolioPosition_eq_dec : EqDecision PortfolioPosition.
Proof. solve_decision. Defined.

Record PortfolioState := {
  ps_positions : gmap string PortfolioPosition;
  ps_grossExposure : string;
  ps_byStrategy : gmap string string
}.

#[export] Instance PortfolioState_eq_dec : EqDecision PortfolioState.
Proof. solve_decision. Defined.

Record ExposureProjection := { ep_grossAfter : number; ep_strategyAfter : number }.

Definition signOf (side : ExecutionSide) : number :=
  match side with LONG => nint 1 | SHORT => nint (-1) end.

Definition emptyPortfolioState : PortfolioState :=
  {| ps_positions := ∅; ps_grossExposure := quantizeNotional (nint 0); ps_byStrategy := ∅ |}.

(** The loop of deriveAggregates: the gross total and the totals of the strategies. *)
Definition exposureTotals (positions : gmap string PortfolioPosition) : number * gmap string number :=
  foldl (fun '(gross, byStrategy) symbol =>
    match positions !! symbol with
    | Some pos =>
        let n := parseDecimal (pp_notional pos) in
        (nadd gross n,
         <[pp_strategyId pos := nadd (default (nint 0) (byStrategy !! pp_strategyId pos)) n]> byStrategy)
    | None => (gross, byStrategy)
    end) (nint 0, ∅) (sortedKeys positions).

Definition deriveAggregates (positions : gmap string PortfolioPosition) : PortfolioState :=
  let '(gross, byStrategy) := exposureTotals positions in
  {|
    ps_positions := positions;
    ps_grossExposure := quantizeNotional gross;
    ps_byStrategy := quantizeNotional <$> byStrategy
  |}.

Definition symbolExposure (state : PortfolioState) (symbol : string) : number :=
  match ps_positions state !! symbol with Some pos => parseDecimal (pp_notional pos) | None => nint 0 end.

Definition projectExposure (state : PortfolioState) (proposal : ProposedAllocation) : ExposureProjection :=
  let target := parseDecimal (pa_targetNotional proposal) in
  let prior := ps_positions state !! pa_symbol proposal in
  let priorNotional := match prior with Some p => parseDecimal (pp_notional p) | None => nint 0 end in
  let grossBefore := parseDecimal (ps_grossExposure state) in
  let bucket := pa_strategyId proposal in
  let strategyBefore := parseDecimal (default "0" (ps_byStrategy state !! bucket)) in
  let priorInBucket :=
    match prior with
    | Some p => if bool_decide (pp_strategyId p = bucket) then priorNotional else nint 0
    | None => nint 0
    end in
  {|
    ep_grossAfter := nadd (nsub grossBefore priorNotional) target;
    ep_strategyAfter := nadd (nsub strategyBefore priorInBucket) target
  |}.

Definition applyResult (state : PortfolioState) (result : ExecutionResult) : PortfolioState :=
  match xr_status result with
  | REJECTED => state
  | FILLED =>
      deriveAggregates (<[xr_symbol result := {|
        pp_symbol := xr_symbol result;
        pp_side := xr_side result;
        pp_notional := xr_filledNotional result;
        pp_strategyId := xl_executionStrategyId (xr_lineage result) |}]> (ps_positions state))
  end.

Definition reconstructPortfolioState (results : list ExecutionResult) (seed : PortfolioState) : PortfolioState :=
  foldl applyResult seed results.

(** *** Aggregation *)

Section aggregation.
Context (localeCompare : string -> string -> comparison).

Definition compareContribution (a b : DecisionContribution) : comparison :=
  orElse (compareNumbers (nabs (parseDecimal (dc_weightedNotional b))) (nabs (parseDecimal (dc_weightedNotional a))))
 (orElse (localeCompare (dc_featureSnapshotId a) (dc_featureSnapshotId b))
 (orElse (localeCompare (dc_executionStrategyId a) (dc_executionStrategyId b))
 (orElse (compareNumbers (dc_executionStrategyVersion a) (dc_executionStrategyVersion b))
 (orElse (localeCompare (dc_strategyVersionId a) (dc_strategyVersionId b))
 (orElse (localeCompare (dc_dqReportId a) (dc_dqReportId b))
 (orElse (localeCompare (dc_datasetHash a) (dc_datasetHash b))
 (orElse (localeCompare (dc_featureHash a) (dc_featureHash b))
 (orElse (localeCompare (showSide (dc_side a)) (showSide (dc_side b)))
 (orElse (localeCompare (dc_confidence a) (dc_confidence b))
         (localeCompare (dc_weightedNotional a) (dc_weightedNotional b))))))))))).

Definition sideOf (d : Served.SignalDecision) : option ExecutionSide :=
  match d with Served.LONG => Some LONG | Served.SHORT => Some SHORT | Served.FLAT => None end.

(** The contribution of a decision that enters, with its symbol. *)
Definition contributionOf (config : PortfolioConfig) (event : DecisionEvent) :
    option (string * DecisionContribution) :=
  match di_action (de_decision event), sideOf (di_side (de_decision event)) with
  | DA_ENTER, Some side =>
      let lineage := de_lineage event in
      let weight := default (pc_defaultStrategyWeight config)
                      (pc_strategyWeights config !! dl_executionStrategyId lineage) in
      let strategyCapital := nmul (pc_totalCapital config) weight in
      let conviction := parseDecimal (di_confidence (de_decision event)) in
      let signed := nmul (nmul (signOf side) strategyCapital) conviction in
      Some (gs_symbol (de_signal event), {|
        dc_strategyVersionId := dl_strategyVersionId lineage;
        dc_executionStrategyId := dl_executionStrategyId lineage;
        dc_executionStrategyVersion := dl_executionStrategyVersion lineage;
        dc_featureSnapshotId := dl_featureSnapshotId lineage;
        dc_dqReportId := dl_dqReportId lineage;
        dc_datasetHash := dl_datasetHash lineage;
        dc_featureHash := dl_featureHash lineage;
        dc_side := side;
        dc_confidence := di_confidence (de_decision event);
        dc_weightedNotional := quantizeNotional signed
      |})
  | _, _ => None
  end.

Definition bucketOf (entries : list (string * DecisionContribution)) (symbol : string) : list DecisionContribution :=
  List.map snd (List.filter (fun e => bool_decide (fst e = symbol)) entries).

Definition netOf (contributions : list DecisionContribution) : number :=
  foldl (fun acc c => nadd acc (parseDecimal (dc_weightedNotional c))) (nint 0) contributions.

(** One symbol: no allocation inside the deadband; [None] is the TypeError of a net with no
    contributor on its side. *)
Definition allocate (config : PortfolioConfig) (symbol : string) (contributions : list DecisionContribution) :
    option (list ProposedAllocation) :=
  let netSigned := netOf contributions in
  if nle (nabs netSigned) (pc_netDeadband config) then Some []
  else
    let side := if ngt netSigned (nint 0) then LONG else SHORT in
    match List.find (fun c => bool_decide (dc_side c = side)) contributions with
    | None => None
    | Some primary => Some [{|
        pa_symbol := symbol;
        pa_side := side;
        pa_targetNotional := quantizeNotional (nabs netSigned);
        pa_netScore := quantizeNotional netSigned;
        pa_strategyId := dc_executionStrategyId primary;
        pa_strategyVersion := dc_executionStrategyVersion primary;
        pa_primary := primary;
        pa_contributions := contributions |}]
    end.

Fixpoint allocateAll (config : PortfolioConfig) (entries : list (string * DecisionContribution))
    (symbols : list string) : option (list ProposedAllocation) :=
  match symbols with
  | [] => Some []
  | symbol :: symbols =>
      match allocate config symbol (sortBy compareContribution (bucketOf entries symbol)) with
      | None => None
      | Some out => match allocateAll config entries symbols with None => None | Some outs => Some (out ++ outs) end
      end
  end.

Definition aggregateDecisions (decisions : list DecisionEvent) (config : PortfolioConfig) :
    option (list ProposedAllocation) :=
  let entries := omap (contributionOf config) decisions in
  allocateAll config entries (sortStrings (remove_dups (List.map fst entries))).
End aggregation.

(** ** risk.ts *)

Record StageLimits := {
  sl_maxPositionNotional : number;
  sl_maxPortfolioExposure : number;
  sl_perStrategyMaxNotional : gmap string number;
  sl_defaultPerStrategyMaxNotional : number
}.

Definition DEFAULT_STAGE_LIMITS : StageLimits := {|
  sl_maxPositionNotional := nint 750000;
  sl_maxPortfolioExposure := nint 2000000;
  sl_perStrategyMaxNotional := ∅;
  sl_defaultPerStrategyMaxNotional := nint 1500000
|}.

Inductive RiskBlockReason :=
| BR_KILL_SWITCH | BR_MAX_POSITION_SIZE | BR_PER_STRATEGY_LIMIT | BR_MAX_PORTFOLIO_EXPOSURE | BR_FAIL_CLOSED.

Definition showBlockReason (r : RiskBlockReason) : string :=
  match r with
  | BR_KILL_SWITCH => "KILL_SWITCH"
  | BR_MAX_POSITION_SIZE => "MAX_POSITION_SIZE"
  | BR_PER_STRATEGY_LIMIT => "PER_STRATEGY_LIMIT"
  | BR_MAX_PORTFOLIO_EXPOSURE => "MAX_PORTFOLIO_EXPOSURE"
  | BR_FAIL_CLOSED => "FAIL_CLOSED"
  end.

Inductive RiskVerdict := RiskApproved | RiskBlocked (reason : RiskBlockReason) (detail : string).

(** The KillSwitch object is its mode. *)
Definition isEngaged (mode : RiskMode) : bool :=
  match mode with RISK_OFF | FROZEN => true | NORMAL | ELEVATED => false end.

Definition perStrategyMax (limits : StageLimits) (strategyId : string) : number :=
  default (sl_defaultPerStrategyMaxNotional limits) (sl_perStrategyMaxNotional limits !! strategyId).

Definition evaluateRisk (proposal : ProposedAllocation) (projection : ExposureProjection)
    (limits : StageLimits) (mode : RiskMode) : RiskVerdict :=
  if isEngaged mode then
    RiskBlocked BR_KILL_SWITCH ("risk mode " +:+ showMode mode +:+ " — all execution halted")
  else
    let target := parseDecimal (pa_targetNotional proposal) in
    let perStrategyMax := perStrategyMax limits (pa_strategyId proposal) in
    let limitsValid := List.forallb (fun x => isFinite x && ngt x (nint 0))
      [sl_maxPositionNotional limits; sl_maxPortfolioExposure limits; perStrategyMax] in
    let projectionValid := isFinite (ep_grossAfter projection) && isFinite (ep_strategyAfter projection) in
    if negb limitsValid || negb projectionValid || negb (ngt target (nint 0)) then
      RiskBlocked BR_FAIL_CLOSED "missing or invalid risk inputs — blocking (fail-closed)"
    else if ngt target (sl_maxPositionNotional limits) then
      RiskBlocked BR_MAX_POSITION_SIZE ("position " +:+ pa_targetNotional proposal +:+ " > max "
        +:+ numToString (sl_maxPositionNotional limits))
    else if ngt (ep_strategyAfter projection) perStrategyMax then
      RiskBlocked BR_PER_STRATEGY_LIMIT ("strategy " +:+ pa_strategyId proposal +:+ " exposure "
        +:+ toFixed (ep_strategyAfter projection) 2 +:+ " > limit " +:+ numToString perStrategyMax)
    else if ngt (ep_grossAfter projection) (sl_maxPortfolioExposure limits) then
      RiskBlocked BR_MAX_PORTFOLIO_EXPOSURE ("portfolio exposure "
        +:+ toFixed (ep_grossAfter projection) 2 +:+ " > max " +:+ numToString (sl_maxPortfolioExposure limits))
    else RiskApproved.

(** ** intent.ts *)

(** [JSON.stringify(parts, Object.keys(parts).sort())] *)
Definition sortedParts (parts : list (string * Json)) : list (string * Json) :=
  omap (fun k => match field k parts with J_undefined => None | v => Some (k, v) end)
    (sortStrings (List.map fst parts)).

Section intent.
(** The first 16 hexadecimal digits of the SHA-256 of a text. *)
Context (sha256_16 : string -> string).

Definition deterministicId (parts : list (string * Json)) : string :=
  sha256_16 (stringify (J_object (sortedParts parts))).

Definition contributionText (c : DecisionContribution) : string :=
  dc_featureSnapshotId c +:+ ":" +:+ dc_strategyVersionId c +:+ ":" +:+ dc_executionStrategyId c +:+ "@v"
  +:+ numToString (dc_executionStrategyVersion c) +:+ ":" +:+ showSide (dc_side c) +:+ ":" +:+ dc_confidence c
  +:+ ":" +:+ dc_weightedNotional c +:+ ":" +:+ dc_dqReportId c +:+ ":" +:+ dc_datasetHash c +:+ ":"
  +:+ dc_featureHash c.

Definition deriveExecutionIntent (proposal : ProposedAllocation) (adapterId : string) (tickId : option string) :
    ExecutionIntent :=
  let primary := pa_primary proposal in
  let contributionKey := join "|" (List.map contributionText (pa_contributions proposal)) in
  let intentId := deterministicId [
    ("symbol", J_string (pa_symbol proposal));
    ("side", J_string (showSide (pa_side proposal)));
    ("action", J_string "ENTER");
    ("targetNotional", J_string (pa_targetNotional proposal));
    ("adapterId", J_string adapterId);
    ("strategyVersionId", J_string (dc_strategyVersionId primary));
    ("featureSnapshotId", J_string (dc_featureSnapshotId primary));
    ("dqReportId", J_string (dc_dqReportId primary));
    ("datasetHash", J_string (dc_datasetHash primary));
    ("featureHash", J_string (dc_featureHash primary));
    ("executionStrategyId", J_string (dc_executionStrategyId primary));
    ("executionStrategyVersion", J_number (dc_executionStrategyVersion primary));
    ("netScore", J_string (pa_netScore proposal));
    ("contributionKey", J_string contributionKey)
  ] in
  {|
    xi_intentId := intentId;
    xi_symbol := pa_symbol proposal;
    xi_side := pa_side proposal;
    xi_targetNotional := pa_targetNotional proposal;
    xi_adapterId := adapterId;
    xi_lineage := {|
      xl_tickId := tickId;
      xl_strategyVersionId := dc_strategyVersionId primary;
      xl_featureSnapshotId := dc_featureSnapshotId primary;
      xl_dqReportId := dc_dqReportId primary;
      xl_datasetHash := dc_datasetHash primary;
      xl_featureHash := dc_featureHash primary;
      xl_executionStrategyId := dc_executionStrategyId primary;
      xl_executionStrategyVersion := dc_executionStrategyVersion primary;
      xl_intentId := intentId;
      xl_netScore := pa_netScore proposal;
      xl_contributions := pa_contributions proposal
    |};
    xi_rationale := "ENTER " +:+ showSide (pa_side proposal) +:+ " " +:+ pa_symbol proposal +:+ " notional "
      +:+ pa_targetNotional proposal +:+ " via " +:+ adapterId +:+ " (net " +:+ pa_netScore proposal +:+ " from "
      +:+ showZ (Z.of_nat (length (pa_contributions proposal))) +:+ " decision(s))"
  |}.
End intent.

(** ** adapters.ts *)

(** FNV-1a, 32 bits, over the code units of an ASCII text. *)
Definition hash32 (input : string) : Z :=
  foldl (fun h c => (Z.lxor h (code c) * 16777619) mod 2 ^ 32)%Z 2166136261%Z (String.list_ascii_of_string input).

Definition fill (intent : ExecutionIntent) (status : ResultStatus) (filledNotional detail : string) : ExecutionResult := {|
  xr_intentId := xi_intentId intent;
  xr_symbol := xi_symbol intent;
  xr_side := xi_side intent;
  xr_status := status;
  xr_adapterId := xi_adapterId intent;
  xr_filledNotional := filledNotional;
  xr_detail := detail;
  xr_lineage := xi_lineage intent
|}.

(** An adapter's execute is a message it throws or a result. *)
Definition PaperExecutionAdapter (intent : ExecutionIntent) : string + ExecutionResult :=
  inr (fill intent FILLED (xi_targetNotional intent) "paper fill at reference (no market impact)").

Definition SimulatedExecutionAdapter (intent : ExecutionIntent) : string + ExecutionResult :=
  if (Z.land (hash32 (xi_intentId intent +:+ ":reject")) 63 =? 0)%Z then
    inr (fill intent REJECTED (quantizeNotional (nint 0)) "simulated venue reject")
  else
    let slippageBps := (hash32 (xi_intentId intent +:+ ":slip") mod 25)%Z in
    let filled := nmul (parseDecimal (xi_targetNotional intent))
                    (nsub (nint 1) (ndiv (nint slippageBps) (nint 10000))) in
    inr (fill intent FILLED (quantizeNotional filled)
      ("simulated fill, " +:+ showZ slippageBps +:+ "bps modeled slippage")).

Definition RealExecutionAdapter (intent : ExecutionIntent) : string + ExecutionResult :=
  inl "RealExecutionAdapter is interface-only in Phase 5 — no live venue is wired".

(** resolveAdapter: the id of the adapter and its execute. *)
Definition resolveAdapter (id : string) : string * (ExecutionIntent -> string + ExecutionResult) :=
  if bool_decide (id = "simulated") then ("simulated", SimulatedExecutionAdapter)
  else if bool_decide (id = "real") then ("real", RealExecutionAdapter)
  else ("paper", PaperExecutionAdapter).
