(* ===== verification/ExecStage.v ===== *)
(** * ExecStage: the execution stage of the worker

    services/workers/src/execution: stage.ts (runExecutionStage) and the in-process buses
    (execution-bus.ts, bus.ts and market/market-bus.ts, which are the same class for three
    event types).  The adapter, the risk hook and the bus are the operations of the stage
    over an outside world W; each may throw. *)

From stdpp Require Import gmap.
From S2P Require Import Prelude JsNumber JsText JsDecimal Json Effects Served StageTypes MarketState Portfolio.

Local Open Scope string_scope.
Local Open Scope list_scope.
Local Open Scope eff_scope.

(** ** The in-process bus *)

(** publish: every subscriber in registration order; the first that throws aborts. *)
Definition publishAll {X W E : Type} (handlers : list (E -> M X W unit)) (event : E) : M X W unit :=
  forEach (fun handler => handler event) handlers.

(** ** stage.ts *)

(** The effectful dependencies: the adapter, the opt-in hook of the risk engine and the bus. *)
Record StageOps (X W : Type) := {
  so_adapterId : string;
  so_execute : ExecutionIntent -> M X W ExecutionResult;
  so_riskGate : option (ProposedAllocation -> PortfolioState -> M X W RiskGateDecision);
  so_publish : ExecutionStageEvent -> M X W unit
}.
Arguments so_adapterId {X W}.
Arguments so_execute {X W}.
Arguments so_riskGate {X W}.
Arguments so_publish {X W}.

(** The rest of ExecutionStageDeps, which a run does not change. *)
Record StageConfig := {
  sg_limits : StageLimits;
  sg_killSwitch : RiskMode;
  sg_portfolioConfig : PortfolioConfig
}.

Record ExecutionStageResult := {
  sr_proposed : nat;
  sr_intentsEmitted : nat;
  sr_filled : nat;
  sr_rejected : nat;
  sr_blocked : nat;
  sr_results : list ExecutionResult;
  sr_portfolioState : PortfolioState
}.

Record ExecutionStageSummary := {
  sm_proposed : nat;
  sm_intentsEmitted : nat;
  sm_filled : nat;
  sm_rejected : nat;
  sm_blocked : nat
}.

Definition summarize (result : ExecutionStageResult) : ExecutionStageSummary := {|
  sm_proposed := sr_proposed result;
  sm_intentsEmitted := sr_intentsEmitted result;
  sm_filled := sr_filled result;
  sm_rejected := sr_rejected result;
  sm_blocked := sr_blocked result
|}.

(** The result before the first proposal. *)
Definition stageStart (state : PortfolioState) (proposed : nat) : ExecutionStageResult := {|
  sr_proposed := proposed; sr_intentsEmitted := 0; sr_filled := 0; sr_rejected := 0; sr_blocked := 0;
  sr_results := []; sr_portfolioState := state |}.

Definition countBlocked (r : ExecutionStageResult) : ExecutionStageResult := {|
  sr_proposed := sr_proposed r; sr_intentsEmitted := sr_intentsEmitted r; sr_filled := sr_filled r;
  sr_rejected := sr_rejected r; sr_blocked := S (sr_blocked r); sr_results := sr_results r;
  sr_portfolioState := sr_portfolioState r |}.

(** One more intent and its recorded result. *)
Definition countResult (result : ExecutionResult) (r : ExecutionStageResult) : ExecutionStageResult := {|
  sr_proposed := sr_proposed r;
  sr_intentsEmitted := S (sr_intentsEmitted r);
  sr_filled := if bool_decide (xr_status result = FILLED) then S (sr_filled r) else sr_filled r;
  sr_rejected := if bool_decide (xr_status result = FILLED) then sr_rejected r else S (sr_rejected r);
  sr_blocked := sr_blocked r;
  sr_results := sr_results r ++ [result];
  sr_portfolioState := applyResult (sr_portfolioState r) result |}.

(** The result of an adapter that threw. *)
Definition adapterError (intent : ExecutionIntent) (message : string) : ExecutionResult := {|
  xr_intentId := xi_intentId intent;
  xr_symbol := xi_symbol intent;
  xr_side := xi_side intent;
  xr_status := REJECTED;
  xr_adapterId := xi_adapterId intent;
  xr_filledNotional := "0.00";
  xr_detail := "adapter error: " +:+ message;
  xr_lineage := xi_lineage intent
|}.

Section stage.
Context {X W : Type} (errMsg : X -> string) (typeError : string -> X).
Context (localeCompare : string -> string -> comparison) (sha256_16 : string -> string).
Context (ops : StageOps X W) (config : StageConfig).

(** The answer of the risk engine's hook; without one every proposal passes it. *)
Definition askRiskGate (proposal : ProposedAllocation) (state : PortfolioState) : M X W RiskGateDecision :=
  match so_riskGate ops with
  | None => ret Approved
  | Some gate =>
      catch (gate proposal state)
        (fun err => ret (Denied "FAIL_CLOSED" ("risk engine error: " +:+ errMsg err)))
  end.

(** The body of the loop for one proposal. *)
Definition runProposal (tickId : option string) (proposal : ProposedAllocation) (acc : ExecutionStageResult) :
    M X W ExecutionStageResult :=
  let state := sr_portfolioState acc in
  let! pre := askRiskGate proposal state in
  match pre with
  | Denied reason detail =>
      do! so_publish ops (BLOCKED proposal reason detail) in
      ret (countBlocked acc)
  | Approved =>
      match evaluateRisk proposal (projectExposure state proposal) (sg_limits config) (sg_killSwitch config) with
      | RiskBlocked reason detail =>
          do! so_publish ops (BLOCKED proposal (showBlockReason reason) detail) in
          ret (countBlocked acc)
      | RiskApproved =>
          let intent := deriveExecutionIntent sha256_16 proposal (so_adapterId ops) tickId in
          do! so_publish ops (INTENT_EMITTED intent) in
          let! result := catch (so_execute ops intent) (fun err => ret (adapterError intent (errMsg err))) in
          do! so_publish ops (RESULT_RECORDED result) in
          ret (countResult result acc)
      end
  end.

Fixpoint runProposals (tickId : option string) (proposals : list ProposedAllocation) (acc : ExecutionStageResult) :
    M X W ExecutionStageResult :=
  match proposals with
  | [] => ret acc
  | proposal :: proposals =>
      let! acc := runProposal tickId proposal acc in
      runProposals tickId proposals acc
  end.

Definition runExecutionStage (decisions : list DecisionEvent) (portfolioState : PortfolioState)
    (tickId : option string) : M X W ExecutionStageResult :=
  match aggregateDecisions localeCompare decisions (sg_portfolioConfig config) with
  | None => throw (typeError "Cannot read properties of undefined (reading 'executionStrategyId')")
  | Some proposals => runProposals tickId proposals (stageStart portfolioState (length proposals))
  end.
End stage.
