(* ===== verification/StageFacts.v ===== *)
(** * StageFacts: what a run of the execution stage does

    The exact meaning of an approval by [evaluateRisk], the trace of a run (which
    proposals were blocked, which became intents, and the portfolio after each), and a
    rule for invariants of the outside world: the adapter and the INTENT_EMITTED event
    only ever see the intents of approved proposals. *)

From stdpp Require Import gmap.
From S2P Require Import Prelude JsNumber JsNumberFacts JsText JsDecimal JsDecimalFacts Json Effects Served StageTypes MarketState Portfolio ExecStage.

Local Open Scope string_scope.
Local Open Scope list_scope.

(** ** Approvals *)

(** The kill switch is disengaged, every limit and projection is valid, and the target and
    both projected exposures are within their limits, in exact values. *)
Definition withinStageLimits (proposal : ProposedAllocation) (projection : ExposureProjection)
    (limits : StageLimits) (mode : RiskMode) : Prop :=
  let target := parseDecimal (pa_targetNotional proposal) in
  let strategyMax := perStrategyMax limits (pa_strategyId proposal) in
  isEngaged mode = false
  /\ Forall (fun x => isFinite x = true /\ (0 < sv x)%Z)
       [sl_maxPositionNotional limits; sl_maxPortfolioExposure limits; strategyMax; target]
  /\ isFinite (ep_grossAfter projection) = true /\ isFinite (ep_strategyAfter projection) = true
  /\ (sv target <= sv (sl_maxPositionNotional limits))%Z
  /\ (sv (ep_strategyAfter projection) <= sv strategyMax)%Z
  /\ (sv (ep_grossAfter projection) <= sv (sl_maxPortfolioExposure limits))%Z.

Lemma finite_positive x : isFinite x && ngt x (nint 0) = true <-> isFinite x = true /\ (0 < sv x)%Z.
Proof.
  destruct (isFinite x) eqn:E; [|split; [done|by intros [? _]]]. unfold ngt. rewrite nlt_sv by done.
  change (sv (nint 0)) with 0%Z. simpl. rewrite Z.ltb_lt. tauto.
Qed.

Lemma evaluateRisk_approved proposal projection limits mode :
  evaluateRisk proposal projection limits mode = RiskApproved <-> withinStageLimits proposal projection limits mode.
Proof.
  unfold evaluateRisk, withinStageLimits. cbv zeta. destruct (isEngaged mode).
  { split; [done|by intros [? _]]. }
  set (target := parseDecimal (pa_targetNotional proposal)). set (smax := perStrategyMax limits (pa_strategyId proposal)).
  assert (isFinite target = true) as Ht.
  { unfold target, parseDecimal. cbv zeta. by destruct (isFinite (stringToNumber _)) eqn:E. }
  cbn [forallb]. rewrite !Forall_cons, Forall_nil, <- !finite_positive, Ht.
  destruct (isFinite (sl_maxPositionNotional limits) && ngt (sl_maxPositionNotional limits) (nint 0)) eqn:H1;
    [|split; [done|by intros (_ & (? & _) & _)]].
  destruct (isFinite (sl_maxPortfolioExposure limits) && ngt (sl_maxPortfolioExposure limits) (nint 0)) eqn:H2;
    [|split; [done|by intros (_ & (_ & ? & _) & _)]].
  destruct (isFinite smax && ngt smax (nint 0)) eqn:H3; [|split; [done|by intros (_ & (_ & _ & ? & _) & _)]].
  destruct (isFinite (ep_grossAfter projection)) eqn:H4; [|split; [done|by intros (_ & _ & ? & _)]].
  destruct (isFinite (ep_strategyAfter projection)) eqn:H5; [|split; [done|by intros (_ & _ & _ & ? & _)]].
  destruct (ngt target (nint 0)) eqn:H6; [|split; [done|by intros (_ & (_ & _ & _ & ? & _) & _)]].
  bool_hyps. cbn [negb andb orb]. rewrite <- !Z.ltb_ge.
  assert (forall x y, isFinite x = true -> isFinite y = true -> ngt x y = (sv y <? sv x)%Z) as G.
  { intros x y Hx Hy. unfold ngt. by rewrite nlt_sv. }
  rewrite !G by done. repeat case_match; (split; [done|by intros (_ & _ & _ & _ & ? & ? & ?)]) || naive_solver.
Qed.

(** ** The trace of a run *)

Section stage.
Context {X W : Type} (errMsg : X -> string) (sha256_16 : string -> string).
Context (ops : StageOps X W) (config : StageConfig) (tickId : option string).

(** Both gates approve a proposal in a portfolio: the hook in some world, and the limits. *)
Definition approvedIn (state : PortfolioState) (proposal : ProposedAllocation) : Prop :=
  (exists w w', askRiskGate errMsg ops proposal state w = (inr Approved, w'))
  /\ withinStageLimits proposal (projectExposure state proposal) (sg_limits config) (sg_killSwitch config).

Definition intentFor (proposal : ProposedAllocation) : ExecutionIntent :=
  deriveExecutionIntent sha256_16 proposal (so_adapterId ops) tickId.

(** A result of an intent: what the adapter returned, or the rejection of what it threw. *)
Definition resultFor (intent : ExecutionIntent) (result : ExecutionResult) : Prop :=
  exists w w', so_execute ops intent w = (inr result, w')
    \/ exists err, so_execute ops intent w = (inl err, w') /\ result = adapterError intent (errMsg err).

(** The proposals in order, the results of those that executed, how many were blocked, and
    the portfolio: every decision is taken in the portfolio left by the results before it. *)
Inductive stageTrace : PortfolioState -> list ProposedAllocation -> list ExecutionResult -> nat -> PortfolioState -> Prop :=
| trace_done state : stageTrace state [] [] 0 state
| trace_blocked state p ps rs n state' :
    stageTrace state ps rs n state' -> stageTrace state (p :: ps) rs (S n) state'
| trace_executed state p ps r rs n state' :
    approvedIn state p -> resultFor (intentFor p) r ->
    stageTrace (applyResult state r) ps rs n state' -> stageTrace state (p :: ps) (r :: rs) n state'.

Lemma stageTrace_app state ps rs n state' ps' rs' n' state'' :
  stageTrace state ps rs n state' -> stageTrace state' ps' rs' n' state'' ->
  stageTrace state (ps ++ ps') (rs ++ rs') (n + n') state''.
Proof. induction 1; simpl; [done|intros; constructor; auto..]. Qed.

Lemma stageTrace_fold state ps rs n state' :
  stageTrace state ps rs n state' ->
  state' = reconstructPortfolioState rs state /\ length ps = (length rs + n)%nat.
Proof. induction 1 as [|? ? ? ? ? ? ? [IH1 IH2]|? ? ? ? ? ? ? ? ? ? [IH1 IH2]]; simpl; [done|split; [done|lia]..]. Qed.

(** The intents a run may show to the bus and to the adapter. *)
Definition emittable (intent : ExecutionIntent) : Prop :=
  exists state proposal, approvedIn state proposal /\ intent = intentFor proposal.

Definition emittableEvent (event : ExecutionStageEvent) : Prop :=
  match event with INTENT_EMITTED intent => emittable intent | _ => True end.

Context (I : W -> Prop).
Context (Igate : forall gate p state w, so_riskGate ops = Some gate -> I w -> I (snd (gate p state w))).
Context (Ipublish : forall event w, emittableEvent event -> I w -> I (snd (so_publish ops event w))).
Context (Iexecute : forall intent w, emittable intent -> I w -> I (snd (so_execute ops intent w))).

(** The counters and the portfolio of a result that started from another. *)
Definition advances (acc : ExecutionStageResult) (ps : list ProposedAllocation) (acc' : ExecutionStageResult) : Prop :=
  exists rs n, stageTrace (sr_portfolioState acc) ps rs n (sr_portfolioState acc')
    /\ sr_proposed acc' = sr_proposed acc
    /\ sr_results acc' = sr_results acc ++ rs
    /\ sr_blocked acc' = (sr_blocked acc + n)%nat
    /\ sr_intentsEmitted acc' = (sr_intentsEmitted acc + length rs)%nat
    /\ sr_filled acc' = (sr_filled acc + length (List.filter (fun r => bool_decide (xr_status r = FILLED)) rs))%nat
    /\ (sr_filled acc' + sr_rejected acc' = sr_filled acc + sr_rejected acc + length rs)%nat.

Lemma advances_trans acc ps acc' ps' acc'' :
  advances acc ps acc' -> advances acc' ps' acc'' -> advances acc (ps ++ ps') acc''.
Proof.
  intros (rs & n & Ht & Hp & Hr & Hb & Hi & Hf & Hs) (rs' & n' & Ht' & Hp' & Hr' & Hb' & Hi' & Hf' & Hs').
  exists (rs ++ rs'), (n + n')%nat. split; [by eapply stageTrace_app|].
  rewrite List.filter_app, !length_app, Hp', Hr', Hb', Hi', app_assoc. split_and!; [done|congruence|lia..].
Qed.

Lemma publish_blocked acc p reason detail w :
  I w ->
  wp (bind (so_publish ops (BLOCKED p reason detail)) (fun _ => ret (countBlocked acc)))
    (fun r w' => I w' /\ match r with inr acc' => advances acc [p] acc' | inl _ => True end) w.
Proof using Type Igate Ipublish Iexecute.
  intros Hw. apply wp_bind. unfold wp. pose proof (Ipublish (BLOCKED p reason detail) w Logic.I Hw) as H.
  destruct (so_publish ops (BLOCKED p reason detail) w) as [[x|[]] w1]; simpl in *; [done|]. split; [done|].
  exists [], 1%nat. simpl. rewrite app_nil_r. split_and!; (apply trace_blocked, trace_done) || done || lia.
Qed.

Lemma askRiskGate_inv p state w :
  I w -> wp (askRiskGate errMsg ops p state) (fun _ w' => I w') w.
Proof using Type Igate Ipublish Iexecute.
  intros Hw. unfold askRiskGate. destruct (so_riskGate ops) as [gate|] eqn:E; [|done].
  apply wp_catch. unfold wp. pose proof (Igate gate p state w eq_refl Hw) as H.
  by destruct (gate p state w) as [[x|d] w1].
Qed.

Lemma runProposal_wp p acc w :
  I w ->
  wp (runProposal errMsg sha256_16 ops config tickId p acc)
    (fun r w' => I w' /\ match r with inr acc' => advances acc [p] acc' | inl _ => True end) w.
Proof using Type Igate Ipublish Iexecute.
  intros Hw. unfold runProposal. apply wp_bind.
  pose proof (askRiskGate_inv p (sr_portfolioState acc) w Hw) as W1. unfold wp in *.
  destruct (askRiskGate errMsg ops p (sr_portfolioState acc) w) as [[x|[|reason detail]] w1] eqn:Eg; simpl in *; [done| |].
  2:{ by apply publish_blocked. }
  destruct (evaluateRisk _ _ _ _) as [|reason detail] eqn:Er; [|by apply publish_blocked].
  assert (approvedIn (sr_portfolioState acc) p) as Ha.
  { split; [by exists w, w1|by apply evaluateRisk_approved]. }
  assert (emittable (intentFor p)) as Hem by by eexists _, _. fold (intentFor p).
  apply wp_bind. unfold wp. pose proof (Ipublish (INTENT_EMITTED (intentFor p)) w1 Hem W1) as W2.
  destruct (so_publish ops (INTENT_EMITTED (intentFor p)) w1) as [[x|[]] w2]; simpl in *; [done|].
  apply wp_bind, wp_catch. unfold wp. pose proof (Iexecute (intentFor p) w2 Hem W2) as W3.
  assert (forall r w3, I w3 -> resultFor (intentFor p) r ->
    wp (bind (so_publish ops (RESULT_RECORDED r)) (fun _ => ret (countResult r acc)))
      (fun r w' => I w' /\ match r with inr acc' => advances acc [p] acc' | inl _ => True end) w3) as K.
  { intros r w3 Hw3 Hr. apply wp_bind. unfold wp. pose proof (Ipublish (RESULT_RECORDED r) w3 Logic.I Hw3) as W4.
    destruct (so_publish ops (RESULT_RECORDED r) w3) as [[x|[]] w4]; simpl in *; [done|]. split; [done|].
    exists [r], 0%nat. simpl. split; [apply (trace_executed _ p [] r [] 0); [done|done|constructor]|].
    destruct (bool_decide (xr_status r = FILLED)); simpl; split_and!; (done || lia). }
  destruct (so_execute ops (intentFor p) w2) as [[x|r] w3] eqn:Ee; simpl in W3.
  - simpl. apply K; [done|]. exists w2, w3. right. by exists x.
  - simpl. apply K; [done|]. exists w2, w3. by left.
Qed.

Lemma runProposals_wp ps acc w :
  I w ->
  wp (runProposals errMsg sha256_16 ops config tickId ps acc)
    (fun r w' => I w' /\ match r with inr acc' => advances acc ps acc' | inl _ => True end) w.
Proof using Type Igate Ipublish Iexecute.
  revert acc w. induction ps as [|p ps IH]; intros acc w Hw; simpl.
  { apply wp_ret. split; [done|]. exists [], 0%nat. rewrite app_nil_r. simpl. split_and!; (apply trace_done) || done || lia. }
  apply wp_bind. eapply wp_mono; [by apply runProposal_wp|]. intros [x|acc1] w1 [Hw1 H1]; [done|].
  eapply wp_mono; [by apply IH|]. intros [x|acc2] w2 [Hw2 H2]; (split; [done|]); [done|].
  by apply (advances_trans acc [p] acc1 ps).
Qed.
End stage.
