(* ===== verification/Strategies.v ===== *)
(** * Strategies: the versioned execution strategies of the workers

    services/workers/src/execution/strategies: lib.ts (the conviction floor), strategy-v1.ts,
    strategy-v2.ts and index.ts (the registry).  A strategy is the record [Strategy] of
    Portfolio. *)

From stdpp Require Import gmap.
From S2P Require Import Prelude JsNumber JsText JsDecimal Json StageTypes Served MarketState Portfolio.

Local Open Scope string_scope.
Local Open Scope list_scope.

(** ** lib.ts *)

Definition parseConfidence (confidence : string) : number :=
  let n := stringToNumber confidence in if isFinite n then n else nint 0.

Definition floorIntent (action : DecisionAction) (observation : GeneratedSignal) (rationale : string) : DecisionIntent :=
  {| di_action := action; di_side := gs_side observation; di_confidence := gs_confidence observation;
     di_rationale := rationale |}.

Definition deriveFloorIntent (observation : GeneratedSignal) (floor : number) : DecisionIntent :=
  let decision := gs_decision observation in
  let confidence := gs_confidence observation in
  let conviction := parseConfidence confidence in
  if bool_decide (decision = FLAT) then
    floorIntent DA_STAND_ASIDE observation "observation FLAT (no directional edge) — stand aside"
  else if nge conviction floor then
    floorIntent DA_ENTER observation
      (showDirection decision +:+ " edge with conviction " +:+ confidence +:+ " >= floor " +:+ toFixed floor 4 +:+ " — enter")
  else
    floorIntent DA_HOLD observation
      (showDirection decision +:+ " edge but conviction " +:+ confidence +:+ " < floor " +:+ toFixed floor 4 +:+ " — hold").

(** ** strategy-v1.ts, strategy-v2.ts *)

Definition STRATEGY_V1_CONFIDENCE_FLOOR : number := ndec 1 1.
Definition STRATEGY_V2_CONFIDENCE_FLOOR : number := ndec 25 2.

Definition StrategyV1 : Strategy := {|
  sy_id := "core-technical";
  sy_version := nint 1;
  sy_decide observation _ := deriveFloorIntent observation STRATEGY_V1_CONFIDENCE_FLOOR
|}.

Definition StrategyV2 : Strategy := {|
  sy_id := "core-technical";
  sy_version := nint 2;
  sy_decide observation _ := deriveFloorIntent observation STRATEGY_V2_CONFIDENCE_FLOOR
|}.

(** ** index.ts *)

Definition strategyKey (s : Strategy) : string := sy_id s +:+ "@v" +:+ numToString (sy_version s).

Record StrategyRegistry := { rg_byKey : gmap string Strategy; rg_fallback : Strategy }.

Definition newRegistry (fallback : Strategy) : StrategyRegistry := {| rg_byKey := ∅; rg_fallback := fallback |}.

Definition register (strategy : Strategy) (keys : list string) (r : StrategyRegistry) : StrategyRegistry :=
  {| rg_byKey := foldl (fun byKey k => <[k := strategy]> byKey) (rg_byKey r) keys; rg_fallback := rg_fallback r |}.

Definition resolve (key : option string) (r : StrategyRegistry) : Strategy :=
  match key with Some k => default (rg_fallback r) (rg_byKey r !! k) | None => rg_fallback r end.

Definition defaultStrategyRegistry : StrategyRegistry :=
  register StrategyV2 [strategyKey StrategyV2] (register StrategyV1 [strategyKey StrategyV1] (newRegistry StrategyV1)).
