(* ===== verification/Admission.v ===== *)
(** * Admission: the checks at the boundaries of the signal pipeline

    services/workers/src/pipeline/validate.ts (rows read from the database, generated
    signals) and services/workers/src/bus/admission.ts (payloads of the distributed
    decision bus).  A value of unknown shape is a [Json]; a check that throws gives the
    error, one that returns a reason gives the reason. *)

From S2P Require Import Prelude JsNumber JsText JsDecimal Json StageTypes Served Signals.

Local Open Scope string_scope.
Local Open Scope list_scope.

(** ** pipeline/errors.ts *)

Record PipelineDataError := { pd_message : string; pd_code : string }.

(** ** pipeline/validate.ts *)

(** packages/core/src/types.ts *)
Definition SIGNAL_DECISIONS : list SignalDecision := [LONG; SHORT; FLAT].

Definition DECISION_SET : list string := List.map showDirection SIGNAL_DECISIONS.

Definition isNonEmptyString (v : Json) : bool :=
  match v with J_string s => bool_decide (s <> "") | _ => false end.

(** The regular expression ^[01]\.\d{4}$ *)
Definition CONFIDENCE_RE (s : string) : bool :=
  match s with
  | String a (String p d) =>
      ((code a =? 48) || (code a =? 49))%Z && (code p =? 46)%Z && allDigits d && (String.length d =? 4)%nat
  | _ => false
  end.

(** [c >= 0 && c <= 1] of the Number of a text *)
Definition unitText (s : string) : bool :=
  let c := stringToNumber s in nge c (nint 0) && nle c (nint 1).

Definition assertValidStrategyVersionRow (id parameters : Json) : option PipelineDataError :=
  let malformed message := Some {| pd_message := message; pd_code := "MALFORMED_STRATEGY_VERSION" |} in
  if negb (isNonEmptyString id) then
    malformed "resolved StrategyVersion has no id (malformed row — fail-fast, nothing fabricated)"
  else if negb (isPlainObject parameters) then
    malformed ("StrategyVersion " +:+ jsString id
      +:+ ": parameters is not a JSON object (malformed row — fail-fast, nothing fabricated)")
  else None.

(** The quality report of a candidate row. *)
Record CandidateDqReport := { cq_id : Json; cq_score : Json; cq_status : Json; cq_datasetHash : Json }.

(** A candidate row; [cs_ts] is the time value of a valid Date. *)
Record CandidateSnapshotRow := {
  cs_id : Json;
  cs_symbol : Json;
  cs_ts : option Z;
  cs_featureHash : Json;
  cs_features : Json;
  cs_dqReport : option CandidateDqReport
}.

Definition isFiniteNumber (v : Json) : bool := match v with J_number n => isFinite n | _ => false end.

Definition dqTests (dq : CandidateDqReport) : list (bool * string) := [
  (negb (isNonEmptyString (cq_id dq)), "dqReport.id missing or empty");
  (negb (isFiniteNumber (cq_score dq)), "dqReport.score is not a finite number");
  (negb (isOneOf ["PASSED"; "FAILED"] (cq_status dq)),
     "dqReport.status " +:+ quoted (jsString (cq_status dq)) +:+ " is not PASSED|FAILED");
  (negb (isNonEmptyString (cq_datasetHash dq)), "dqReport.datasetHash missing or empty")
].

Definition assertValidSnapshotRow (row : CandidateSnapshotRow) : option PipelineDataError :=
  let ref := if isNonEmptyString (cs_id row) then stringOf (cs_id row) else "<no id>" in
  match firstRejection ([
    (negb (isNonEmptyString (cs_id row)), "id missing or empty");
    (negb (isNonEmptyString (cs_symbol row)), "symbol missing or empty");
    (match cs_ts row with Some _ => false | None => true end, "ts is not a valid timestamp");
    (negb (isNonEmptyString (cs_featureHash row)), "featureHash missing or empty");
    (negb (isPlainObject (cs_features row)), "features is not a JSON object")
  ] ++ match cs_dqReport row with
       | None => [(true, "dqReport relation missing")]
       | Some dq => dqTests dq
       end) with
  | None => None
  | Some detail => Some {|
      pd_message := "FeatureSnapshot " +:+ ref +:+ ": " +:+ detail +:+ " (malformed row — fail-fast, nothing fabricated)";
      pd_code := "MALFORMED_FEATURE_SNAPSHOT" |}
  end.

Definition decisionSetText : string := join "|" DECISION_SET.

Definition malformedSignalReason (signal : GeneratedSignal) (ctx : SignalEngineInput) : option string :=
  let featureSnapshot := se_featureSnapshot ctx in
  let dqReport := se_dqReport ctx in
  let strategyVersion := se_strategyVersion ctx in
  let outside name d :=
    (negb (bool_decide (showDirection d ∈ DECISION_SET)),
     name +:+ " " +:+ quoted (showDirection d) +:+ " not in " +:+ decisionSetText) in
  let differs name a what b :=
    (bool_decide (a <> b), name +:+ " " +:+ quoted a +:+ " != " +:+ what +:+ " " +:+ quoted b) in
  firstRejection [
    outside "side" (gs_side signal);
    outside "decision" (gs_decision signal);
    (negb (CONFIDENCE_RE (gs_confidence signal)),
       "confidence " +:+ quoted (gs_confidence signal) +:+ " is not the quantized 4-decimal format");
    (negb (unitText (gs_confidence signal)), "confidence " +:+ gs_confidence signal +:+ " outside [0, 1]");
    differs "symbol" (gs_symbol signal) "snapshot symbol" (fs_symbol featureSnapshot);
    differs "featureSnapshotId" (gs_featureSnapshotId signal) "snapshot id" (fs_id featureSnapshot);
    differs "dqReportId" (gs_dqReportId signal) "DQ report id" (dq_id dqReport);
    differs "strategyVersionId" (gs_strategyVersionId signal) "resolved version" (sv_id strategyVersion);
    (bool_decide (gs_featureHash signal <> fs_featureHash featureSnapshot),
       "featureHash not carried verbatim from the feature snapshot");
    (bool_decide (gs_datasetHash signal <> dq_datasetHash dqReport),
       "datasetHash not carried verbatim from the DQ report")
  ].

(** The fields a signal and its lineage share. *)
Definition LINEAGE_VERBATIM_FIELDS : list string :=
  ["strategyVersionId"; "featureSnapshotId"; "dqReportId"; "datasetHash"; "featureHash"].

(** A decision of the set at a key of an object. *)
Definition decisionTest (name : string) (v : Json) : bool * string :=
  (negb (isOneOf DECISION_SET v), name +:+ " " +:+ quoted (jsString v) +:+ " not in " +:+ decisionSetText).

Definition isConfidence (v : Json) : bool := match v with J_string s => CONFIDENCE_RE s | _ => false end.

Definition missingTest (prefix : string) (v : Json) (field : string) : bool * string :=
  (negb (isNonEmptyString (prop field v)), prefix +:+ field +:+ " missing or empty").

Definition malformedSignalStructureReason (v : Json) : option string :=
  firstRejection ([
    (negb (isPlainObject v), "is not a JSON object");
    (negb (isNonEmptyString (prop "symbol" v)), "symbol missing or empty");
    decisionTest "side" (prop "side" v);
    decisionTest "decision" (prop "decision" v);
    (negb (isConfidence (prop "confidence" v)),
       "confidence " +:+ quoted (jsString (prop "confidence" v)) +:+ " is not the quantized 4-decimal string format");
    (negb (unitText (stringOf (prop "confidence" v))),
       "confidence " +:+ stringOf (prop "confidence" v) +:+ " outside [0, 1]")
  ] ++ List.map (missingTest "" v) LINEAGE_VERBATIM_FIELDS ++ [
    (negb (isPlainObject (prop "strategyParams" v)), "strategyParams is not a JSON object")
  ]).

(** ** bus/admission.ts *)

Definition DECISION_ACTIONS : list string := List.map showAction [DA_ENTER; DA_HOLD; DA_STAND_ASIDE].

Definition isString (v : Json) : bool := match v with J_string _ => true | _ => false end.

Definition decisionTests (decision : Json) : list (bool * string) :=
  let confidence := prop "confidence" decision in [
  (negb (isPlainObject decision), "decision is not a JSON object");
  (negb (isOneOf DECISION_ACTIONS (prop "action" decision)),
     "decision.action " +:+ quoted (jsString (prop "action" decision)) +:+ " not in " +:+ join "|" DECISION_ACTIONS);
  decisionTest "decision.side" (prop "side" decision);
  (negb (isConfidence confidence), "decision.confidence is not the quantized 4-decimal string format");
  (negb (unitText (stringOf confidence)), "decision.confidence " +:+ stringOf confidence +:+ " outside [0, 1]");
  (negb (isString (prop "rationale" decision)), "decision.rationale is not a string")
].

Definition executionTests (execution : Json) : list (bool * string) :=
  match execution with
  | J_null => []
  | _ => [
      (negb (isPlainObject execution), "execution is not null or a JSON object");
      (negb (isOneOf ["PENDING"; "SKIPPED"] (prop "status" execution)),
         "execution.status " +:+ quoted (jsString (prop "status" execution)) +:+ " is not PENDING|SKIPPED");
      (negb (isString (prop "detail" execution)), "execution.detail is not a string")
    ]
  end.

Definition lineageTests (lineage : Json) : list (bool * string) :=
  (negb (isPlainObject lineage), "lineage is not a JSON object")
  :: List.map (missingTest "lineage." lineage) LINEAGE_VERBATIM_FIELDS ++ [
  missingTest "lineage." lineage "executionStrategyId";
  (negb (match prop "executionStrategyVersion" lineage with J_number n => isInteger n | _ => false end),
     "lineage.executionStrategyVersion is not a finite integer");
  (match prop "tickId" lineage with J_undefined => false | v => negb (isNonEmptyString v) end,
     "lineage.tickId present but not a non-empty string")
].

(** [lineage\[field\] !== signal\[field\]], both strings by then. *)
Definition verbatimTest (lineage signal : Json) (field : string) : bool * string :=
  (bool_decide (stringOf (prop field lineage) <> stringOf (prop field signal)),
   "lineage." +:+ field +:+ " does not match signal." +:+ field +:+ " (must be carried verbatim)").

Definition signalTests (signal : Json) : list (bool * string) := [
  (negb (isPlainObject signal), "signal is not a JSON object");
  match malformedSignalStructureReason signal with
  | Some reason => (true, "signal " +:+ reason)
  | None => (false, "")
  end
].

(** The detail of the BusAdmissionError; an admitted payload is the event as it is. *)
Definition admitDecisionEvent (v : Json) : option string :=
  let signal := prop "signal" v in
  let lineage := prop "lineage" v in
  match firstRejection (
    (negb (isPlainObject v), "event is not a JSON object")
    :: signalTests signal ++ decisionTests (prop "decision" v) ++ executionTests (prop "execution" v)
    ++ lineageTests lineage ++ List.map (verbatimTest lineage signal) LINEAGE_VERBATIM_FIELDS) with
  | Some detail => Some ("decision bus event rejected: " +:+ detail)
  | None => None
  end.

(** ** The JSON of a decision event and the event of an admitted payload *)

Definition signalJson (s : GeneratedSignal) : Json :=
  J_object [
    ("symbol", J_string (gs_symbol s));
    ("side", J_string (showDirection (gs_side s)));
    ("decision", J_string (showDirection (gs_decision s)));
    ("confidence", J_string (gs_confidence s));
    ("strategyVersionId", J_string (gs_strategyVersionId s));
    ("strategyParams", gs_strategyParams s);
    ("featureSnapshotId", J_string (gs_featureSnapshotId s));
    ("dqReportId", J_string (gs_dqReportId s));
    ("datasetHash", J_string (gs_datasetHash s));
    ("featureHash", J_string (gs_featureHash s))
  ].

Definition intentJson (i : DecisionIntent) : Json :=
  J_object [
    ("action", J_string (showAction (di_action i)));
    ("side", J_string (showDirection (di_side i)));
    ("confidence", J_string (di_confidence i));
    ("rationale", J_string (di_rationale i))
  ].

Definition showPlanStatus (s : PlanStatus) : string := match s with PENDING => "PENDING" | SKIPPED => "SKIPPED" end.

Definition planJson (p : ExecutionPlan) : Json :=
  J_object [("status", J_string (showPlanStatus (xp_status p))); ("detail", J_string (xp_detail p))].

Definition decisionLineageJson (l : DecisionLineage) : Json :=
  J_object ((match dl_tickId l with Some t => [("tickId", J_string t)] | None => [] end) ++ [
    ("strategyVersionId", J_string (dl_strategyVersionId l));
    ("featureSnapshotId", J_string (dl_featureSnapshotId l));
    ("dqReportId", J_string (dl_dqReportId l));
    ("datasetHash", J_string (dl_datasetHash l));
    ("featureHash", J_string (dl_featureHash l));
    ("executionStrategyId", J_string (dl_executionStrategyId l));
    ("executionStrategyVersion", J_number (dl_executionStrategyVersion l))
  ]).

Definition decisionEventJson (e : DecisionEvent) : Json :=
  J_object [
    ("signal", signalJson (de_signal e));
    ("decision", intentJson (de_decision e));
    ("execution", match de_execution e with Some p => planJson p | None => J_null end);
    ("lineage", decisionLineageJson (de_lineage e))
  ].

(** The cast of an admitted payload: the members by name, enumerations by their text. *)
Definition directionOf (v : Json) : SignalDecision :=
  default FLAT (List.find (fun d => bool_decide (showDirection d = stringOf v)) SIGNAL_DECISIONS).

Definition actionOf (v : Json) : DecisionAction :=
  default DA_STAND_ASIDE (List.find (fun a => bool_decide (showAction a = stringOf v)) [DA_ENTER; DA_HOLD; DA_STAND_ASIDE]).

Definition numberOf (v : Json) : number := match v with J_number n => n | _ => NaN end.

Definition signalOf (v : Json) : GeneratedSignal := {|
  gs_symbol := stringOf (prop "symbol" v);
  gs_side := directionOf (prop "side" v);
  gs_decision := directionOf (prop "decision" v);
  gs_confidence := stringOf (prop "confidence" v);
  gs_strategyVersionId := stringOf (prop "strategyVersionId" v);
  gs_strategyParams := prop "strategyParams" v;
  gs_featureSnapshotId := stringOf (prop "featureSnapshotId" v);
  gs_dqReportId := stringOf (prop "dqReportId" v);
  gs_datasetHash := stringOf (prop "datasetHash" v);
  gs_featureHash := stringOf (prop "featureHash" v)
|}.

Definition decisionEventOf (v : Json) : DecisionEvent :=
  let decision := prop "decision" v in
  let lineage := prop "lineage" v in {|
  de_signal := signalOf (prop "signal" v);
  de_decision := {|
    di_action := actionOf (prop "action" decision);
    di_side := directionOf (prop "side" decision);
    di_confidence := stringOf (prop "confidence" decision);
    di_rationale := stringOf (prop "rationale" decision) |};
  de_execution :=
    match prop "execution" v with
    | J_object _ as p => Some {|
        xp_status := if bool_decide (stringOf (prop "status" p) = "PENDING") then PENDING else SKIPPED;
        xp_detail := stringOf (prop "detail" p) |}
    | _ => None
    end;
  de_lineage := {|
    dl_tickId := match prop "tickId" lineage with J_string t => Some t | _ => None end;
    dl_strategyVersionId := stringOf (prop "strategyVersionId" lineage);
    dl_featureSnapshotId := stringOf (prop "featureSnapshotId" lineage);
    dl_dqReportId := stringOf (prop "dqReportId" lineage);
    dl_datasetHash := stringOf (prop "datasetHash" lineage);
    dl_featureHash := stringOf (prop "featureHash" lineage);
    dl_executionStrategyId := stringOf (prop "executionStrategyId" lineage);
    dl_executionStrategyVersion := numberOf (prop "executionStrategyVersion" lineage) |}
|}.
