(* ===== verification/Pipeline.v ===== *)
(** * Pipeline: the signal tick of the workers and the buses it publishes to

    services/workers/src/pipeline/orchestrator.ts (one tick), execution/index.ts and
    execution/subscribers/persistence-subscriber.ts (the default bus), bus/types.ts,
    bus/redis-bus.ts and bus/bullmq-bus.ts (the distributed bridges).  The database, the
    bus and the execution stage are operations over an outside world W that may throw;
    SHA-256 is a parameter.  Log lines are left out. *)

From stdpp Require Import gmap.
From S2P Require Import Prelude JsNumber JsText JsDecimal Json Effects StageTypes Served MarketState Portfolio ExecStage.
From S2P Require Import Signals Strategies Admission.

Local Open Scope string_scope.
Local Open Scope list_scope.
Local Open Scope eff_scope.

(** ** The rows and queries of a tick *)

(** A FeatureSnapshot row with its quality report; the columns have their database types,
    [features] is JSON. *)
Record FeatureSnapshotRow := {
  fr_id : string;
  fr_symbol : string;
  fr_ts : Z;
  fr_featureHash : string;
  fr_features : Json;
  fr_dqReport : SignalDataQualityReport
}.

(** The arguments of featureSnapshot.findMany. *)
Record SnapshotQuery := {
  qs_featureSetId : string;
  qs_exchangeNot : string;
  qs_orderBy : list (string * string);
  qs_take : nat
}.

(** The arguments of strategyVersion.findFirst. *)
Record StrategyQuery := { qv_status : string; qv_orderBy : list (string * string) }.

Record PipelineOps (X W : Type) := {
  po_findFeatureSet : string -> nat -> M X W (option string);
  po_findStrategy : StrategyQuery -> M X W (option SignalStrategyVersion);
  po_findSnapshots : SnapshotQuery -> M X W (list FeatureSnapshotRow);
  po_publish : DecisionEvent -> M X W unit;
  po_dataError : PipelineDataError -> X
}.
Arguments po_findFeatureSet {X W}.
Arguments po_findStrategy {X W}.
Arguments po_findSnapshots {X W}.
Arguments po_publish {X W}.
Arguments po_dataError {X W}.

Definition SNAPSHOT_SCAN_LIMIT : nat := 200.

Definition activeStrategy : StrategyQuery :=
  {| qv_status := "ACTIVE"; qv_orderBy := [("createdAt", "desc"); ("id", "desc")] |}.

Definition recentSnapshots (featureSetId : string) : SnapshotQuery := {|
  qs_featureSetId := featureSetId;
  qs_exchangeNot := "DEMO";
  qs_orderBy := [("ts", "desc"); ("id", "desc")];
  qs_take := SNAPSHOT_SCAN_LIMIT
|}.

(** ** The input of a tick *)

(** The first row of each symbol, in the order of the rows (the values of the Map). *)
Definition latestPerSymbol (rows : list FeatureSnapshotRow) : list FeatureSnapshotRow :=
  foldl (fun latest r =>
    if existsb (fun r' => bool_decide (fr_symbol r' = fr_symbol r)) latest then latest else latest ++ [r]) [] rows.

Definition bySymbol (a b : FeatureSnapshotRow) : comparison := String.compare (fr_symbol a) (fr_symbol b).

Definition orderedSnapshots (latest : list FeatureSnapshotRow) : list FeatureSnapshotRow :=
  sortBy bySymbol latest.

Definition candidateOf (snap : FeatureSnapshotRow) : CandidateSnapshotRow :=
  let dq := fr_dqReport snap in {|
  cs_id := J_string (fr_id snap);
  cs_symbol := J_string (fr_symbol snap);
  cs_ts := Some (fr_ts snap);
  cs_featureHash := J_string (fr_featureHash snap);
  cs_features := fr_features snap;
  cs_dqReport := Some {|
    cq_id := J_string (dq_id dq);
    cq_score := J_number (dq_score dq);
    cq_status := J_string (showDqStatus (dq_status dq));
    cq_datasetHash := J_string (dq_datasetHash dq) |}
|}.

Definition hashEntry (s : FeatureSnapshotRow) : Json :=
  J_object [
    ("id", J_string (fr_id s));
    ("symbol", J_string (fr_symbol s));
    ("ts", J_string (toISOString (fr_ts s)));
    ("featureHash", J_string (fr_featureHash s));
    ("dqReportId", J_string (dq_id (fr_dqReport s)));
    ("datasetHash", J_string (dq_datasetHash (fr_dqReport s)))
  ].

Definition hashInput (featureSetId strategyVersionId : string) (snapshots : list FeatureSnapshotRow) : Json :=
  J_object [
    ("featureSetId", J_string featureSetId);
    ("strategyVersionId", J_string strategyVersionId);
    ("snapshots", J_array (List.map hashEntry snapshots))
  ].

(** ** One tick *)

(** The counters of the loop and the decisions it collected. *)
Record Tally := {
  ta_generated : nat;
  ta_refused : nat;
  ta_lineageRejected : nat;
  ta_malformedRejected : nat;
  ta_decisions : list DecisionEvent
}.

Definition noTally : Tally :=
  {| ta_generated := 0; ta_refused := 0; ta_lineageRejected := 0; ta_malformedRejected := 0; ta_decisions := [] |}.

Definition countRefused (t : Tally) : Tally := {|
  ta_generated := ta_generated t; ta_refused := S (ta_refused t); ta_lineageRejected := ta_lineageRejected t;
  ta_malformedRejected := ta_malformedRejected t; ta_decisions := ta_decisions t |}.

Definition countMalformed (t : Tally) : Tally := {|
  ta_generated := ta_generated t; ta_refused := ta_refused t; ta_lineageRejected := ta_lineageRejected t;
  ta_malformedRejected := S (ta_malformedRejected t); ta_decisions := ta_decisions t |}.

Definition countLineage (t : Tally) : Tally := {|
  ta_generated := ta_generated t; ta_refused := ta_refused t; ta_lineageRejected := S (ta_lineageRejected t);
  ta_malformedRejected := ta_malformedRejected t; ta_decisions := ta_decisions t |}.

Definition countDecision (event : DecisionEvent) (t : Tally) : Tally := {|
  ta_generated := S (ta_generated t); ta_refused := ta_refused t; ta_lineageRejected := ta_lineageRejected t;
  ta_malformedRejected := ta_malformedRejected t; ta_decisions := ta_decisions t ++ [event] |}.

Record PipelineTickResult := {
  tk_snapshotsConsidered : nat;
  tk_generated : nat;
  tk_refused : nat;
  tk_lineageRejected : nat;
  tk_malformedRejected : nat;
  tk_inputHash : string;
  tk_execution : option ExecutionStageSummary
}.

(** What the engine is given for one snapshot. *)
Definition engineInput (sv : SignalStrategyVersion) (snap : FeatureSnapshotRow) : SignalEngineInput := {|
  se_featureSnapshot := {|
    fs_id := fr_id snap; fs_symbol := fr_symbol snap; fs_featureHash := fr_featureHash snap; fs_features := fr_features snap |};
  se_dqReport := fr_dqReport snap;
  se_strategyVersion := sv |}.

Section tick.
Context {X W : Type} (errMsg : X -> string) (typeError : string -> X).
Context (localeCompare : string -> string -> comparison) (sha256_16 sha256 : string -> string).
Context (ops : PipelineOps X W) (registry : StrategyRegistry) (tickId : option string).
(** The execution layer, opt-in. *)
Context (execution : option (StageOps X W * StageConfig)).

Definition failFast {A} (message code : string) : M X W A :=
  throw (po_dataError ops {| pd_message := message; pd_code := code |}).

Definition orThrow (e : option PipelineDataError) : M X W unit :=
  match e with Some e => throw (po_dataError ops e) | None => ret tt end.

Definition resolvePersistedLineage : M X W (string * SignalStrategyVersion) :=
  let! def := po_findFeatureSet ops "core-technical" 1 in
  let! version := po_findStrategy ops activeStrategy in
  match def, version with
  | None, _ => failFast
      "no FeatureSetDefinition core-technical v1 — the feature catalog has not been seeded (fail-fast, nothing fabricated)"
      "MISSING_FEATURE_SET"
  | _, None => failFast
      "no ACTIVE StrategyVersion — register and approve a strategy before running the pipeline (fail-fast, nothing fabricated)"
      "MISSING_ACTIVE_STRATEGY"
  | Some featureSetId, Some sv =>
      do! orThrow (assertValidStrategyVersionRow (J_string (sv_id sv)) (sv_parameters sv)) in
      ret (featureSetId, sv)
  end.

Definition computeInputHash (featureSetId strategyVersionId : string) (snapshots : list FeatureSnapshotRow) : string :=
  sha256 (stringify (hashInput featureSetId strategyVersionId snapshots)).

(** The body of the loop for one snapshot. *)
Definition processSnapshot (sv : SignalStrategyVersion) (snap : FeatureSnapshotRow) (tally : Tally) : M X W Tally :=
  let input := engineInput sv snap in
  match generateSignal input with
  | Refused _ => ret (countRefused tally)
  | Generated signal =>
      match malformedSignalReason signal input with
      | Some _ => ret (countMalformed tally)
      | None =>
          if lv_lineageValid (verifySignalLineage signal input) then
            let strategy := resolve (Some (gs_strategyVersionId signal)) registry in
            let event := deriveDecisionEvent signal strategy tickId in
            do! po_publish ops event in
            ret (countDecision event tally)
          else ret (countLineage tally)
      end
  end.

Fixpoint processSnapshots (sv : SignalStrategyVersion) (snaps : list FeatureSnapshotRow) (tally : Tally) : M X W Tally :=
  match snaps with
  | [] => ret tally
  | snap :: snaps =>
      let! tally := processSnapshot sv snap tally in
      processSnapshots sv snaps tally
  end.

(** The execution stage over the decisions; a failure of it is logged.  The state carries
    the portfolio to the next tick. *)
Definition executionStage (decisions : list DecisionEvent) : M X (PortfolioState * W) (option ExecutionStageSummary) :=
  match execution with
  | None => ret None
  | Some (stageOps, config) =>
      catch
        (let! portfolioState := gets fst in
         let! stage := onWorld (runExecutionStage errMsg typeError localeCompare sha256_16 stageOps config
                                  decisions portfolioState tickId) in
         do! modify (fun s => (sr_portfolioState stage, snd s)) in
         ret (Some (summarize stage)))
        (fun _ => ret None)
  end.

(** The resolved and validated input: the feature set, the strategy version and the latest
    snapshots. *)
Definition resolveInput : M X W (string * SignalStrategyVersion * list FeatureSnapshotRow) :=
  let! (featureSetId, sv) := resolvePersistedLineage in
  let! rows := po_findSnapshots ops (recentSnapshots featureSetId) in
  let latest := latestPerSymbol rows in
  do! (if (length latest =? 0)%nat then
         failFast
           "no admissible FeatureSnapshot exists for the core-technical v1 feature set — run ingestion before the pipeline (fail-fast, nothing fabricated)"
           "MISSING_FEATURE_SNAPSHOTS"
       else ret tt) in
  do! forEach (fun snap => orThrow (assertValidSnapshotRow (candidateOf snap))) (orderedSnapshots latest) in
  ret (featureSetId, sv, latest).

Definition runSignalPipelineTick : M X (PortfolioState * W) PipelineTickResult :=
  let! (featureSetId, sv, latest) := onWorld resolveInput in
  let ordered := orderedSnapshots latest in
  let inputHash := computeInputHash featureSetId (sv_id sv) ordered in
  let! tally := onWorld (processSnapshots sv ordered noTally) in
  let! execution := executionStage (ta_decisions tally) in
  ret {|
    tk_snapshotsConsidered := length latest;
    tk_generated := ta_generated tally;
    tk_refused := ta_refused tally;
    tk_lineageRejected := ta_lineageRejected tally;
    tk_malformedRejected := ta_malformedRejected tally;
    tk_inputHash := inputHash;
    tk_execution := execution
  |}.
End tick.

(** ** The default bus: persistence *)

(** persistence-subscriber.ts *)
Definition createPersistenceSubscriber {X W} (ops : SignalOps X W) (event : DecisionEvent) : M X W unit :=
  do! persistEngineSignal ops (de_signal event) in ret tt.

(** execution/index.ts: the publish of the bus it wires *)
Definition createDecisionBus {X W} (ops : SignalOps X W) : DecisionEvent -> M X W unit :=
  publishAll [createPersistenceSubscriber ops].

(** ** bus/types.ts *)

Definition BUS_DECISION : string := "nexus.bus.decision".

Inductive BusBackend := BB_inprocess | BB_redis | BB_bullmq.

Definition readBusBackend (raw : option string) : BusBackend :=
  match raw with
  | Some s => if bool_decide (s = "redis") then BB_redis else if bool_decide (s = "bullmq") then BB_bullmq else BB_inprocess
  | None => BB_inprocess
  end.

(** ** bus/redis-bus.ts *)

Record RedisChannelBus (X W E : Type) := {
  rb_channel : string;
  rb_admit : Json -> string + E;
  rb_handlers : list (E -> M X W unit);
  rb_onError : X -> string -> M X W unit;
  rb_onReject : string -> string -> M X W unit
}.
Arguments rb_channel {X W E}.
Arguments rb_admit {X W E}.
Arguments rb_handlers {X W E}.
Arguments rb_onError {X W E}.
Arguments rb_onReject {X W E}.

Section redis.
(** The text of the SyntaxError of a message that is not JSON. *)
Context {X W E : Type} (syntaxError : string -> string) (bus : RedisChannelBus X W E).

Definition dispatch (event : E) : M X W unit :=
  forEach (fun handler => catch (handler event) (fun err => rb_onError bus err (rb_channel bus))) (rb_handlers bus).

(** The message listener of the subscriber connection. *)
Definition onMessage (channel message : string) : M X W unit :=
  if bool_decide (channel <> rb_channel bus) then ret tt
  else
    match JSON_parse message with
    | None => rb_onReject bus ("message is not valid JSON: " +:+ syntaxError message) channel
    | Some parsed =>
        match rb_admit bus parsed with
        | inl detail => rb_onReject bus detail channel
        | inr event => dispatch event
        end
    end.
End redis.

(** publish: the channel and the message handed to Redis. *)
Definition redisMessage {X W} (bus : RedisChannelBus X W DecisionEvent) (event : DecisionEvent) : string * string :=
  (rb_channel bus, stringify (decisionEventJson event)).

(** The admission that createRedisDecisionBus bakes in. *)
Definition decisionAdmission (v : Json) : string + DecisionEvent :=
  match admitDecisionEvent v with Some detail => inl detail | None => inr (decisionEventOf v) end.

Definition createRedisDecisionBus {X W} (handlers : list (DecisionEvent -> M X W unit))
    (onError : X -> string -> M X W unit) (onReject : string -> string -> M X W unit) : RedisChannelBus X W DecisionEvent :=
  {| rb_channel := BUS_DECISION; rb_admit := decisionAdmission; rb_handlers := handlers;
     rb_onError := onError; rb_onReject := onReject |}.

(** ** bus/bullmq-bus.ts *)

(** The processor of a job: admission throws as it is, a handler's error is wrapped. *)
Definition processJob {X W E} (errMsg : X -> string) (error admissionError : string -> X) (jobName : string)
    (admission : Json -> string + E) (handlers : list (E -> M X W unit)) (data : Json) : M X W unit :=
  match admission data with
  | inl detail => throw (admissionError detail)
  | inr event =>
      forEach (fun handler =>
        catch (handler event)
          (fun err => throw (error ("bullmq bus handler failed on " +:+ jobName +:+ ": " +:+ errMsg err)))) handlers
  end.
