(* ===== verification/PipelineFacts.v ===== *)
(** * PipelineFacts: lemmas of the bus admission and of the signal tick

    The shape of the JSON of a decision event, and what an admitted payload is; then
    confidences as shares, what the engine generates, and the loop of a tick. *)

From stdpp Require Import gmap.
From S2P Require Import Prelude JsNumber JsNumberFacts Served JsText JsDecimal JsDecimalFacts Json JsonFacts Effects.
From S2P Require Import StageTypes Signals DecisionFacts MarketState Portfolio ExecStage Strategies Admission Pipeline.

Local Open Scope string_scope.
Local Open Scope list_scope.

(** ** Well-formed events *)

Definition unitConfidence (s : string) : bool := CONFIDENCE_RE s && unitText s.

Definition nonEmpty (s : string) : bool := bool_decide (s <> "").

Definition wellFormedSignal (s : GeneratedSignal) : bool :=
  nonEmpty (gs_symbol s) && unitConfidence (gs_confidence s)
  && List.forallb nonEmpty [gs_strategyVersionId s; gs_featureSnapshotId s; gs_dqReportId s; gs_datasetHash s; gs_featureHash s]
  && isPlainObject (gs_strategyParams s).

(** The lineage of an event repeats its signal's and names its strategy. *)
Definition verbatimLineage (l : DecisionLineage) (s : GeneratedSignal) : Prop :=
  dl_strategyVersionId l = gs_strategyVersionId s /\ dl_featureSnapshotId l = gs_featureSnapshotId s
  /\ dl_dqReportId l = gs_dqReportId s /\ dl_datasetHash l = gs_datasetHash s /\ dl_featureHash l = gs_featureHash s.

Record wellFormedEvent (e : DecisionEvent) : Prop := {
  we_signal : wellFormedSignal (de_signal e) = true;
  we_confidence : unitConfidence (di_confidence (de_decision e)) = true;
  we_lineage : verbatimLineage (de_lineage e) (de_signal e);
  we_strategy : nonEmpty (dl_executionStrategyId (de_lineage e)) = true;
  we_version : isInteger (dl_executionStrategyVersion (de_lineage e)) = true;
  we_tick : dl_tickId (de_lineage e) <> Some ""
}.

(** ** The JSON of an event *)

Lemma directionOf_show d : directionOf (J_string (showDirection d)) = d.
Proof. by destruct d. Qed.

Lemma actionOf_show a : actionOf (J_string (showAction a)) = a.
Proof. by destruct a. Qed.

Lemma direction_known d : isOneOf DECISION_SET (J_string (showDirection d)) = true.
Proof. by destruct d. Qed.

Lemma action_known a : isOneOf DECISION_ACTIONS (J_string (showAction a)) = true.
Proof. by destruct a. Qed.

(** Reading the members of an event back gives the event. *)
Lemma decisionEventOf_json e : decisionEventOf (decisionEventJson e) = e.
Proof.
  destruct e as [s d x l]. unfold decisionEventOf. cbn [de_signal de_decision de_execution de_lineage]. f_equal.
  - unfold signalOf. simpl. rewrite !directionOf_show. by destruct s.
  - simpl. rewrite directionOf_show, actionOf_show. by destruct d.
  - destruct x as [[[] detail]|]; done.
  - destruct l as [[t|] ? ? ? ? ? ? ?]; done.
Qed.

Lemma decisionEvent_printable e :
  printable (gs_strategyParams (de_signal e)) = true -> readsBack (dl_executionStrategyVersion (de_lineage e)) = true ->
  printable (decisionEventJson e) = true.
Proof.
  intros Hp Hv. destruct e as [s d x l]. cbn [de_signal de_lineage] in *.
  assert (printable (signalJson s) = true) as P1 by (simpl; by rewrite Hp).
  assert (printable (decisionLineageJson l) = true) as P2 by (destruct l as [[t|] ? ? ? ? ? ? ?]; simpl; simpl in Hv; by rewrite Hv).
  assert (printable match x with Some p => planJson p | None => J_null end = true) as P3 by (by destruct x as [[[] ?]|]).
  unfold decisionEventJson. cbn [de_signal de_lineage de_decision de_execution printable List.forallb].
  rewrite P1, P2, P3. reflexivity.
Qed.

(** ** Admission *)

Lemma nonEmpty_string s : isNonEmptyString (J_string s) = nonEmpty s.
Proof. done. Qed.

Lemma signalStructure_event s : wellFormedSignal s = true -> malformedSignalStructureReason (signalJson s) = None.
Proof.
  unfold wellFormedSignal, unitConfidence. intros H. simpl in H. bool_hyps.
  apply firstRejection_none. repeat (apply Forall_cons; split); try apply Forall_nil_2; apply negb_false_iff; try done;
    exact (direction_known _).
Qed.

(** What an admitted string is. *)
Lemma isConfidence_inv v : isConfidence v = true -> v = J_string (stringOf v) /\ CONFIDENCE_RE (stringOf v) = true.
Proof. by destruct v. Qed.

Lemma isNonEmptyString_inv v : isNonEmptyString v = true -> nonEmpty (stringOf v) = true.
Proof. by destruct v. Qed.

Lemma signalStructure_sound v : malformedSignalStructureReason v = None -> wellFormedSignal (signalOf v) = true.
Proof.
  intros H. apply firstRejection_none in H. simpl in H. repeat rewrite Forall_cons in H. simpl in H.
  destruct H as (_ & Hs & _ & _ & Hc & Hu & H1 & H2 & H3 & H4 & H5 & Hp & _).
  apply negb_false_iff in Hs, Hc, Hu, H1, H2, H3, H4, H5, Hp.
  unfold wellFormedSignal, unitConfidence, signalOf. simpl.
  destruct (isConfidence_inv _ Hc) as [_ ->]. rewrite Hu, Hp. by rewrite !isNonEmptyString_inv.
Qed.

Lemma admit_None v :
  admitDecisionEvent v = None <->
  isPlainObject v = true /\ Forall (fun t => fst t = false) (signalTests (prop "signal" v))
  /\ Forall (fun t => fst t = false) (decisionTests (prop "decision" v))
  /\ Forall (fun t => fst t = false) (executionTests (prop "execution" v))
  /\ Forall (fun t => fst t = false) (lineageTests (prop "lineage" v))
  /\ Forall (fun t => fst t = false) (List.map (verbatimTest (prop "lineage" v) (prop "signal" v)) LINEAGE_VERBATIM_FIELDS).
Proof.
  unfold admitDecisionEvent.
  assert (forall o : option string, match o with Some d => Some ("decision bus event rejected: " +:+ d) | None => None end = None
    <-> o = None) as -> by (by intros []).
  rewrite firstRejection_none, Forall_cons, !Forall_app. simpl fst. rewrite negb_false_iff. done.
Qed.

(** A well-formed event is admitted. *)
Lemma admit_wellFormed e : wellFormedEvent e -> admitDecisionEvent (decisionEventJson e) = None.
Proof.
  intros [Hs Hc Hl He Hv Ht]. apply admit_None.
  change (prop "signal" (decisionEventJson e)) with (signalJson (de_signal e)).
  change (prop "decision" (decisionEventJson e)) with (intentJson (de_decision e)).
  change (prop "execution" (decisionEventJson e)) with (match de_execution e with Some p => planJson p | None => J_null end).
  change (prop "lineage" (decisionEventJson e)) with (decisionLineageJson (de_lineage e)).
  split; [done|]. split_and!.
  - unfold signalTests. rewrite signalStructure_event by done. by repeat constructor.
  - unfold unitConfidence in Hc. bool_hyps. repeat (apply Forall_cons; split); try apply Forall_nil_2; apply negb_false_iff; try done;
      [exact (action_known _)|exact (direction_known _)].
  - destruct (de_execution e) as [[[] detail]|]; by repeat constructor.
  - destruct (de_lineage e) as [t v1 v2 v3 v4 v5 xid xv], Hl as (E1 & E2 & E3 & E4 & E5). simpl in *. subst.
    unfold wellFormedSignal in Hs. simpl in Hs. bool_hyps.
    destruct t as [t|]; repeat (apply Forall_cons; split); try apply Forall_nil_2; try apply negb_false_iff; try done.
    apply bool_decide_eq_true. congruence.
  - destruct (de_lineage e) as [t v1 v2 v3 v4 v5 xid xv], Hl as (E1 & E2 & E3 & E4 & E5). simpl in *. subst.
    destruct t; repeat (apply Forall_cons; split); try apply Forall_nil_2; by apply bool_decide_eq_false; intros [].
Qed.

(** An admitted payload is a well-formed event. *)
Lemma admit_sound v : admitDecisionEvent v = None -> wellFormedEvent (decisionEventOf v).
Proof.
  intros (Hv & Hs & Hd & _ & Hl & Hm)%admit_None.
  unfold signalTests in Hs. repeat rewrite Forall_cons in Hs. destruct Hs as (_ & Hs & _).
  destruct (malformedSignalStructureReason (prop "signal" v)) eqn:ES; [done|]. apply signalStructure_sound in ES.
  unfold decisionTests in Hd. repeat rewrite Forall_cons in Hd. simpl in Hd. destruct Hd as (_ & _ & _ & Hc & Hu & _).
  unfold lineageTests in Hl. simpl in Hl. repeat rewrite Forall_cons in Hl. simpl in Hl.
  destruct Hl as (_ & _ & _ & _ & _ & _ & Hx & Hn & Ht & _).
  simpl in Hm. repeat rewrite Forall_cons in Hm. simpl in Hm. destruct Hm as (M1 & M2 & M3 & M4 & M5 & _).
  apply negb_false_iff in Hc, Hu, Hx, Hn. rewrite bool_decide_eq_false in M1, M2, M3, M4, M5.
  apply dec_stable in M1, M2, M3, M4, M5.
  constructor; unfold decisionEventOf; cbn [de_signal de_decision de_lineage].
  - done.
  - unfold unitConfidence. cbn [di_confidence]. destruct (isConfidence_inv _ Hc) as [_ ->]. done.
  - by split_and!.
  - by apply isNonEmptyString_inv.
  - cbn. by destruct (prop "executionStrategyVersion" (prop "lineage" v)).
  - cbn. destruct (prop "tickId" (prop "lineage" v)); try done. apply negb_false_iff in Ht. intros [= ->]. done.
Qed.

(** * Lemmas of the signal tick

    The confidences of the sealed rule are never NaN and print in the wire format; what the
    engine generates passes the two gates of the loop; the selection of the snapshots. *)

Local Open Scope eff_scope.

(** ** Confidences are shares *)

(** A finite Number in [0, 1]. *)
Definition share (x : number) : Prop := isFinite x = true /\ (0 <= sv x <= unit1)%Z.

(** The difference of different Numbers is not zero. *)
Lemma nsub_nonzero x y :
  isFinite x = true -> isFinite y = true -> sv x <> sv y -> isFinite (nsub x y) = true -> sv (nsub x y) <> 0%Z.
Proof.
  intros Fx Fy H F. unfold nsub in *. rewrite nadd_sv by (rewrite ?nneg_finite; done). rewrite nneg_sv. unfold RS.
  assert (1 <= RZ (Z.abs (sv x + - sv y)) 1)%Z; [|destruct (_ <? 0)%Z; simpl; lia].
  apply RZ_lower; [by exists 1%Z, 0%Z|lia|lia|lia].
Qed.

Lemma clampUnit_share x : isNaN x = false -> share (clampUnit x).
Proof.
  intros H. unfold clampUnit. destruct x as [|[]|s m k]; [done| | |].
  - split; [done|]. split; apply Z.leb_le; evaluate.
  - split; [done|]. split; apply Z.leb_le; evaluate.
  - pose proof (clamp01_unit (Num s m k)) as K. by rewrite <- clampUnit_finite in K.
Qed.

Lemma share_zero : share (nint 0).
Proof. split; [done|]. split; apply Z.leb_le; evaluate. Qed.

(** The confidence of the rule over finite features and parameters. *)
Lemma ruleOf_share params ema20 ema50 ema200 rsi vol :
  isFinite (sp_maxRealizedVol params) = true -> Forall (fun x => isFinite x = true) [ema20; ema50; ema200; rsi; vol] ->
  share (sd_confidence (ruleOf params ema20 ema50 ema200 rsi vol)).
Proof.
  intros Fm HF. repeat rewrite Forall_cons in HF. destruct HF as (F20 & F50 & F200 & Fr & Fv & _).
  unfold ruleOf, confirmedBias. cbn [sd_confidence]. set (max := sp_maxRealizedVol params) in *.
  destruct (ngt vol max) eqn:Ev.
  { apply clampUnit_share, ndiv_notNaN; [by apply nadd_notNaN; rewrite ?nneg_finite|done|].
    intros F Hz. exfalso. unfold ngt in Ev. rewrite nlt_sv in Ev by done. apply Z.ltb_lt in Ev.
    apply (nsub_nonzero vol max); try done. lia. }
  assert (share (clampUnit (ndiv (nabs (nsub rsi (nint 50))) (nint 50)))) as Hr.
  { apply clampUnit_share, ndiv_notNaN; [|done|by intros _ _].
    destruct (nabs_facts (nsub rsi (nint 50))) as (-> & _). by apply nadd_notNaN. }
  assert (sv ema20 <> sv ema200 -> share (clampUnit (ndiv (nabs (nsub ema20 ema200)) (nabs ema200)))) as Ht.
  { intros Hne. destruct (nabs_facts (nsub ema20 ema200)) as (N1 & N2 & N3).
    apply clampUnit_share, ndiv_notNaN.
    - rewrite N1. apply nadd_notNaN; [done|by rewrite nneg_finite].
    - destruct (nabs_facts ema200) as (_ & -> & _). done.
    - intros F Hz. rewrite N2 in F. exfalso. apply N3 in Hz. by apply (nsub_nonzero ema20 ema200). }
  assert (sv ema20 <> sv ema200 ->
    share (clampUnit (nadd (nmul (ndec 5 1) (clampUnit (ndiv (nabs (nsub ema20 ema200)) (nabs ema200))))
                           (nmul (ndec 5 1) (clampUnit (ndiv (nabs (nsub rsi (nint 50))) (nint 50))))))) as Hc.
  { intros Hne. destruct (Ht Hne) as [G1 B1], Hr as [G2 B2].
    apply clampUnit_share, isFinite_notNaN. by apply half_shares. }
  unfold isBull, isBear, ngt. rewrite !nlt_sv by done.
  destruct (Z.ltb_spec (sv ema50) (sv ema20)), (Z.ltb_spec (sv ema200) (sv ema50)),
    (Z.ltb_spec (sv ema20) (sv ema50)), (Z.ltb_spec (sv ema50) (sv ema200)); try lia; simpl;
    repeat case_match; try apply share_zero; apply Hc; lia.
Qed.

(** ** The wire format of a confidence *)

Lemma fx_unit z : (0 <= z <= unit1)%Z -> (0 <= fx z 4 <= 10000)%Z.
Proof.
  intros Hz. split; [apply fx_nonneg; lia|].
  rewrite <- (fx_int unit1 10000 4); [apply fx_mono; lia|change (10 ^ 4)%Z with 10000%Z; lia].
Qed.

(** A share prints with four decimals, and its text denotes a share. *)
Lemma share_text s m k :
  share (Num s m k) -> (s = true -> m = 0%N) ->
  CONFIDENCE_RE (toFixed (Num s m k) 4) = true /\ unitText (toFixed (Num s m k) 4) = true.
Proof.
  intros [_ B] Hs.
  assert (0 <= mag m k <= unit1)%Z as Bm.
  { pose proof (mag_nonneg m k). unfold sv in B. destruct s; simpl in B; [|done]. rewrite (Hs eq_refl) in *. unfold mag in *. lia. }
  assert (mag m k < fixed_limit)%Z as Hl by (assert (unit1 < fixed_limit)%Z by done; lia).
  assert (s && negb (m =? 0)%N = false) as Hsign by (destruct s; [by rewrite (Hs eq_refl)|done]).
  destruct (fx_unit _ Bm) as [Hf0 Hf1]. split.
  - unfold toFixed. rewrite (proj2 (Z.ltb_lt _ _) Hl), Hsign, fixed_int_fx. change (Z.of_nat 4) with 4%Z.
    revert Hf0 Hf1. generalize (fx (mag m k) 4). intros f Hf0 Hf1. change (10 ^ 4)%Z with 10000%Z.
    assert (f / 10000 = 0 \/ f / 10000 = 1)%Z as Hq.
    { pose proof (Z.div_pos f 10000 Hf0 ltac:(lia)).
      pose proof (Z.div_le_upper_bound f 10000 1 ltac:(lia) ltac:(lia)). lia. }
    pose proof (pad_digits 4 f) as Hd. pose proof (digits_of_all _ _ _ Hd) as Ha. pose proof (digits_of_length _ _ _ Hd) as Hn.
    clear Hd. revert Ha Hn. generalize (pad 4 f). intros d Ha Hn.
    destruct Hq as [-> | ->]; [change (showZ 0) with "0"|change (showZ 1) with "1"]; simpl; change ("" +:+ d) with d; by rewrite Ha, Hn.
  - unfold unitText. rewrite (stringToNumber_toFixed s m k 3 Hl). change (Z.of_nat 4) with 4%Z.
    pose proof (toFixedNumber_finite (Num s m k) 4 ltac:(lia) eq_refl) as F.
    pose proof (toFixedNumber_sv s m k 4 ltac:(lia)) as E.
    assert (0 <= RF (mag m k) 4 <= unit1)%Z as BR.
    { split; [apply RF_nonneg; lia|]. assert (RF unit1 4 = unit1) as <- by (apply Z.eqb_eq; evaluate). apply RF_mono; lia. }
    assert (0 <= sv (toFixedNumber (Num s m k) 4) <= unit1)%Z as BE.
    { rewrite E. destruct s; simpl; [|done]. rewrite (Hs eq_refl) in *.
      assert (mag 0 k = 0)%Z as Hz by (unfold mag; lia). rewrite Hz in *. by rewrite RF_0. }
    unfold nge. rewrite !nle_sv by done. assert (sv (nint 1) = unit1) as -> by (apply Z.eqb_eq; evaluate).
    change (sv (nint 0)) with 0%Z. apply andb_true_iff. split; apply Z.leb_le; lia.
Qed.

Lemma quantizeConfidence_text x :
  share x -> CONFIDENCE_RE (quantizeConfidence x) = true /\ unitText (quantizeConfidence x) = true.
Proof.
  intros Hx. unfold quantizeConfidence. cbv zeta.
  destruct (clampUnit_share x) as [F B]; [by apply isFinite_notNaN, Hx|].
  rewrite neq_sv by done. destruct (Z.eqb_spec (sv (clampUnit x)) (sv (nint 0))) as [_|Hne].
  - exact (share_text false 0 0 share_zero ltac:(done)).
  - destruct (clampUnit x) as [| |s m k]; try done. apply share_text; [done|]. intros ->. exfalso. simpl in B, Hne.
    pose proof (mag_nonneg m k). change (mag 0 0) with 0%Z in Hne. lia.
Qed.

(** ** What the engine generates *)

Lemma resolved_finite parameters : isFinite (sp_maxRealizedVol (Signals.resolveSignalParams parameters)) = true.
Proof. by apply finiteOr_finite. Qed.

Lemma decideSignal_share features parameters r :
  decideSignal features (Signals.resolveSignalParams parameters) = inr r -> share (sd_confidence r).
Proof.
  unfold decideSignal.
  destruct (feature features "ema_20") eqn:E1; [done|]. destruct (feature features "ema_50") eqn:E2; [done|].
  destruct (feature features "ema_200") eqn:E3; [done|]. destruct (feature features "rsi_14") eqn:E4; [done|].
  destruct (feature features "realized_vol_30") eqn:E5; [done|]. intros [= <-].
  apply ruleOf_share; [apply resolved_finite|].
  repeat (apply Forall_cons; split); first [by eapply feature_finite|apply Forall_nil_2].
Qed.

(** A generated signal: its report passes the floor and its fields are those of its input. *)
Lemma generateSignal_inv input signal :
  generateSignal input = Generated signal ->
  dq_status (se_dqReport input) = DQ_PASSED /\ nlt (dq_score (se_dqReport input)) MIN_DATA_QUALITY_SCORE = false
  /\ exists r,
    decideSignal (fs_features (se_featureSnapshot input)) (Signals.resolveSignalParams (sv_parameters (se_strategyVersion input))) = inr r
    /\ signal = {|
        gs_symbol := fs_symbol (se_featureSnapshot input);
        gs_side := sd_side r;
        gs_decision := sd_decision r;
        gs_confidence := quantizeConfidence (sd_confidence r);
        gs_strategyVersionId := sv_id (se_strategyVersion input);
        gs_strategyParams := paramsJson (Signals.resolveSignalParams (sv_parameters (se_strategyVersion input)));
        gs_featureSnapshotId := fs_id (se_featureSnapshot input);
        gs_dqReportId := dq_id (se_dqReport input);
        gs_datasetHash := dq_datasetHash (se_dqReport input);
        gs_featureHash := fs_featureHash (se_featureSnapshot input) |}.
Proof.
  unfold generateSignal. destruct (belowFloor _) eqn:EF; [done|]. apply belowFloor_false in EF as [? ?].
  destruct (decideSignal _ _) as [|r]; [done|]. intros [= <-]. split_and!; try done. by exists r.
Qed.

Lemma direction_in_set d : showDirection d ∈ DECISION_SET.
Proof. apply list_elem_of_fmap. exists d. split; [done|]. destruct d; set_solver. Qed.

(** Both gates of the loop let a generated signal through. *)
Lemma gates_pass input signal :
  generateSignal input = Generated signal ->
  malformedSignalReason signal input = None /\ lv_lineageValid (verifySignalLineage signal input) = true.
Proof.
  intros (_ & _ & r & Hr & ->)%generateSignal_inv. split.
  - destruct (quantizeConfidence_text (sd_confidence r)) as [H1 H2]; [by eapply decideSignal_share|].
    unfold malformedSignalReason. cbn [gs_confidence gs_side gs_decision]. rewrite H1, H2.
    apply firstRejection_none. repeat constructor; simpl; rewrite ?bool_decide_true by apply direction_in_set; try done;
      by apply bool_decide_eq_false; intros [].
  - apply lineage_valid. cbn. split_and!; try done.
    exact (proj2 (resolve_stored (sv_parameters (se_strategyVersion input)))).
Qed.

(** ** The loop *)

Section loop.
Context {X W : Type} (ops : PipelineOps X W) (registry : StrategyRegistry) (tickId : option string).

(** The event of a snapshot the engine does not refuse. *)
Definition plannedEvent (sv : SignalStrategyVersion) (snap : FeatureSnapshotRow) : option DecisionEvent :=
  match generateSignal (engineInput sv snap) with
  | Generated signal => Some (deriveDecisionEvent signal (resolve (Some (sv_id sv)) registry) tickId)
  | Refused _ => None
  end.

Definition plannedEvents (sv : SignalStrategyVersion) (snaps : list FeatureSnapshotRow) : list DecisionEvent :=
  omap (plannedEvent sv) snaps.

(** A tally after more events and refusals. *)
Definition tallied (t : Tally) (events : list DecisionEvent) (refused : nat) : Tally := {|
  ta_generated := ta_generated t + length events;
  ta_refused := ta_refused t + refused;
  ta_lineageRejected := ta_lineageRejected t;
  ta_malformedRejected := ta_malformedRejected t;
  ta_decisions := ta_decisions t ++ events
|}.

Lemma tallied_nil t : tallied t [] 0 = t.
Proof. destruct t. unfold tallied. simpl. by rewrite !Nat.add_0_r, app_nil_r. Qed.

Lemma tallied_refused t events n : tallied (countRefused t) events n = tallied t events (S n).
Proof. unfold tallied, countRefused. simpl. f_equal. lia. Qed.

Lemma tallied_decision t e events n : tallied (countDecision e t) events n = tallied t (e :: events) n.
Proof. unfold tallied, countDecision. simpl. rewrite <- app_assoc. f_equal. lia. Qed.

Lemma plannedEvents_length sv snaps : length (plannedEvents sv snaps) <= length snaps.
Proof. induction snaps as [|s snaps IH]; simpl; [done|]. case_match; simpl; lia. Qed.

(** The loop publishes the planned events in order and counts; its gates never fire. *)
Lemma processSnapshots_spec sv snaps tally w :
  processSnapshots ops registry tickId sv snaps tally w
  = (do! forEach (po_publish ops) (plannedEvents sv snaps) in
     ret (tallied tally (plannedEvents sv snaps) (length snaps - length (plannedEvents sv snaps)))) w.
Proof.
  revert tally w. induction snaps as [|snap snaps IH]; intros tally w; simpl.
  { unfold bind, ret. by rewrite tallied_nil. }
  pose proof (plannedEvents_length sv snaps) as HL.
  unfold processSnapshot, plannedEvent. destruct (generateSignal (engineInput sv snap)) as [signal|reason] eqn:EG.
  - destruct (gates_pass _ _ EG) as [-> ->].
    assert (gs_strategyVersionId signal = sv_id sv) as -> by (apply generateSignal_inv in EG as (_ & _ & r & _ & ->); done).
    cbn [forEach length]. set (event := deriveDecisionEvent _ _ _).
    cbv beta iota delta [bind ret]. destruct (po_publish ops event w) as [[x|[]] w1]; [done|].
    rewrite IH. cbv beta iota delta [bind ret]. destruct (forEach _ _ w1) as [[x|[]] w2]; [done|].
    by rewrite tallied_decision.
  - cbv beta iota delta [bind ret]. rewrite IH. cbv beta iota delta [bind ret]. destruct (forEach _ _ w) as [[x|[]] w2]; [done|].
    rewrite tallied_refused. repeat f_equal. lia.
Qed.
End loop.

(** ** The selection of the snapshots *)

(** The first row of a symbol. *)
Definition firstOf (symbol : string) (rows : list FeatureSnapshotRow) : option FeatureSnapshotRow :=
  List.find (fun r => bool_decide (fr_symbol r = symbol)) rows.

Lemma firstOf_snoc symbol rows r :
  firstOf symbol (rows ++ [r])
  = match firstOf symbol rows with Some x => Some x | None => if bool_decide (fr_symbol r = symbol) then Some r else None end.
Proof.
  unfold firstOf. induction rows as [|y rows IH]; simpl; [done|]. by destruct (bool_decide (fr_symbol y = symbol)).
Qed.

Lemma firstOf_Some symbol rows r : firstOf symbol rows = Some r -> r ∈ rows /\ fr_symbol r = symbol.
Proof. intros [H ?%bool_decide_eq_true]%find_Some_elem. done. Qed.

(** The first row of a symbol comes before every other row of it. *)
Lemma firstOf_split symbol rows r :
  firstOf symbol rows = Some r ->
  exists before after, rows = before ++ r :: after /\ Forall (fun x => fr_symbol x <> symbol) before.
Proof.
  induction rows as [|y rows IH]; [done|]. unfold firstOf. simpl. case_bool_decide as Hy.
  - intros [= <-]. exists [], rows. split; [done|constructor].
  - intros (b & a & -> & HF)%IH. exists (y :: b), a. split; [done|by constructor].
Qed.

Lemma StronglySorted_tail {A} (R : A -> A -> Prop) l m : StronglySorted R (l ++ m) -> StronglySorted R m.
Proof. induction l as [|a l IH]; [done|]. intros [H _]%StronglySorted_inv. by apply IH. Qed.

Lemma latestPerSymbol_snoc rows r :
  latestPerSymbol (rows ++ [r])
  = if existsb (fun r' => bool_decide (fr_symbol r' = fr_symbol r)) (latestPerSymbol rows)
    then latestPerSymbol rows else latestPerSymbol rows ++ [r].
Proof. unfold latestPerSymbol. by rewrite foldl_app. Qed.

Lemma latestPerSymbol_spec rows :
  (forall r, r ∈ latestPerSymbol rows <-> firstOf (fr_symbol r) rows = Some r)
  /\ NoDup (List.map fr_symbol (latestPerSymbol rows)).
Proof.
  induction rows as [|r rows [IH ND]] using rev_ind.
  { split; [|constructor]. intros r. split; [intros H; by apply not_elem_of_nil in H|done]. }
  rewrite latestPerSymbol_snoc. destruct (existsb _ _) eqn:E.
  - apply existsb_exists in E as (y & Hy%list_elem_of_In & Es%bool_decide_eq_true). apply IH in Hy. split; [|done].
    intros x. rewrite IH, firstOf_snoc. destruct (firstOf (fr_symbol x) rows) eqn:Ex; [done|].
    case_bool_decide as Hx; [|done]. by rewrite <- Hx, <- Es, Hy in Ex.
  - assert (forall y, y ∈ latestPerSymbol rows -> fr_symbol y <> fr_symbol r) as Hno.
    { intros y Hy Es. assert (existsb (fun r' => bool_decide (fr_symbol r' = fr_symbol r)) (latestPerSymbol rows) = true) as K.
      { apply existsb_exists. exists y. split; [by apply list_elem_of_In|by apply bool_decide_eq_true]. }
      congruence. }
    assert (firstOf (fr_symbol r) rows = None) as Hnew.
    { destruct (firstOf (fr_symbol r) rows) as [y|] eqn:Ey; [|done]. exfalso.
      destruct (firstOf_Some _ _ _ Ey) as [_ Es]. apply (Hno y); [|done]. apply IH. by rewrite Es. }
    split.
    + intros x. rewrite elem_of_app, list_elem_of_singleton, firstOf_snoc, IH. split.
      * intros [H| ->]; [by rewrite H|]. by rewrite Hnew, bool_decide_true.
      * destruct (firstOf (fr_symbol x) rows); [by left|]. case_bool_decide; [|done]. intros [= ->]. by right.
    + rewrite List.map_app. apply NoDup_app. split; [done|]. split; [|apply NoDup_singleton].
      intros s (y & -> & Hy)%list_elem_of_fmap. intros Hin. inversion Hin as [|? ? ? Hin2]; [by apply (Hno y)|by apply not_elem_of_nil in Hin2].
Qed.

Lemma bySymbol_opp a b : bySymbol b a = CompOpp (bySymbol a b).
Proof. apply String.compare_antisym. Qed.

(** Neighbours of a sorted list without duplicate keys are strictly in order. *)
Lemma ascending_symbols l :
  Sorted (fun a b => bySymbol a b <> Gt) l -> NoDup (List.map fr_symbol l) -> Sorted (fun a b => bySymbol a b = Lt) l.
Proof.
  induction 1 as [|a l HS IH Ha]; intros HN; [constructor|]. apply NoDup_cons in HN as [Hn HN].
  constructor; [by apply IH|]. destruct Ha as [|b l Hab]; constructor.
  destruct (bySymbol a b) eqn:E; try done. exfalso. apply String.compare_eq_iff in E. apply Hn. rewrite E. left.
Qed.

(** ** The validated input *)

Definition soundVersion (sv : SignalStrategyVersion) : Prop :=
  sv_id sv <> "" /\ isPlainObject (sv_parameters sv) = true.

Definition soundRow (r : FeatureSnapshotRow) : Prop :=
  fr_id r <> "" /\ fr_symbol r <> "" /\ fr_featureHash r <> "" /\ isPlainObject (fr_features r) = true
  /\ dq_id (fr_dqReport r) <> "" /\ isFinite (dq_score (fr_dqReport r)) = true /\ dq_datasetHash (fr_dqReport r) <> "".

Lemma version_valid sv :
  assertValidStrategyVersionRow (J_string (sv_id sv)) (sv_parameters sv) = None <-> soundVersion sv.
Proof.
  unfold assertValidStrategyVersionRow, soundVersion. simpl isNonEmptyString.
  case_bool_decide as Hd; simpl; [|split; [done|by intros [? _]]].
  destruct (isPlainObject _); simpl; split; try done; by intros [_ ?].
Qed.

Lemma status_known s : isOneOf ["PASSED"; "FAILED"] (J_string (showDqStatus s)) = true.
Proof. by destruct s. Qed.

Lemma candidate_valid r : assertValidSnapshotRow (candidateOf r) = None <-> soundRow r.
Proof.
  unfold assertValidSnapshotRow. cbv zeta.
  match goal with |- match ?o with _ => _ end = None <-> _ =>
    assert (match o with None => None | Some d => Some {| pd_message := "FeatureSnapshot " +:+
      (if isNonEmptyString (cs_id (candidateOf r)) then stringOf (cs_id (candidateOf r)) else "<no id>") +:+ ": " +:+ d
      +:+ " (malformed row — fail-fast, nothing fabricated)"; pd_code := "MALFORMED_FEATURE_SNAPSHOT" |} end = None
      <-> o = None) as -> by (by destruct o)
  end.
  rewrite firstRejection_none. unfold candidateOf, dqTests, soundRow. cbn [cs_id cs_symbol cs_ts cs_featureHash cs_features
    cs_dqReport cq_id cq_score cq_status cq_datasetHash app].
  repeat rewrite Forall_cons. cbn [fst isNonEmptyString isFiniteNumber]. rewrite !negb_false_iff, !bool_decide_eq_true, status_known.
  split; [tauto|]. pose proof (Forall_nil_2 (fun t : bool * string => fst t = false)). tauto.
Qed.

Section input.
Context {X W : Type} (ops : PipelineOps X W).

(** A loop of checks passes, or throws the first error. *)
Lemma forEach_orThrow {A} (f : A -> option PipelineDataError) l (w : W) :
  (Forall (fun a => f a = None) l /\ forEach (fun a => orThrow ops (f a)) l w = (inr tt, w))
  \/ exists a e, a ∈ l /\ f a = Some e /\ forEach (fun a => orThrow ops (f a)) l w = (inl (po_dataError ops e), w).
Proof.
  induction l as [|a l IH]; simpl; [left; by split|]. unfold bind, orThrow at 1 3. destruct (f a) as [e|] eqn:E.
  - right. exists a, e. split_and!; try done. left.
  - destruct IH as [[HF E']|(b & e & Hb & Eb & E')].
    + left. split; [by constructor|]. exact E'.
    + right. exists b, e. split_and!; try done. by right.
Qed.
(** The input a tick runs on. *)
Definition soundInput (def : option string) (version : option SignalStrategyVersion) (rows : list FeatureSnapshotRow) : Prop :=
  is_Some def /\ (exists sv, version = Some sv /\ soundVersion sv) /\ rows <> [] /\ Forall soundRow (latestPerSymbol rows).

Definition DATA_ERROR_CODES : list string :=
  ["MISSING_FEATURE_SET"; "MISSING_ACTIVE_STRATEGY"; "MALFORMED_STRATEGY_VERSION"; "MISSING_FEATURE_SNAPSHOTS";
   "MALFORMED_FEATURE_SNAPSHOT"].

Lemma latestPerSymbol_empty rows : length (latestPerSymbol rows) = 0 <-> rows = [].
Proof.
  split; [|by intros ->]. destruct rows as [|r rows]; [done|]. intros H. exfalso.
  destruct (latestPerSymbol_spec (r :: rows)) as [K _].
  assert (r ∈ latestPerSymbol (r :: rows)) as Hr by (apply K; unfold firstOf; simpl; by rewrite bool_decide_true).
  destruct (latestPerSymbol (r :: rows)); [by apply not_elem_of_nil in Hr|done].
Qed.

(** What the three reads of a tick answer. *)
Definition readsAnswer (w w2 w3 : W) def version rows : Prop :=
  exists w1, po_findFeatureSet ops "core-technical" 1 w = (inr def, w1) /\ po_findStrategy ops activeStrategy w1 = (inr version, w2)
  /\ forall f, def = Some f -> po_findSnapshots ops (recentSnapshots f) w2 = (inr rows, w3).

Lemma resolveInput_exact w w2 w3 def version rows :
  readsAnswer w w2 w3 def version rows ->
  (soundInput def version rows /\ exists f sv, def = Some f /\ version = Some sv
     /\ resolveInput ops w = (inr (f, sv, latestPerSymbol rows), w3))
  \/ ~ soundInput def version rows /\ exists e w', resolveInput ops w = (inl (po_dataError ops e), w')
     /\ pd_code e ∈ DATA_ERROR_CODES /\ (w' = w2 \/ w' = w3).
Proof.
  intros (w1 & E1 & E2 & E3). unfold resolveInput, resolvePersistedLineage, soundInput.
  cbv beta iota delta [bind]. rewrite E1, E2.
  destruct def as [f|]; [|right; split; [by intros ([? ?] & _)|]; eexists _, w2; split_and!; [done|set_solver|by left]].
  destruct version as [sv|]; [|right; split; [by intros (_ & (? & ? & _) & _)|]; eexists _, w2; split_and!; [done|set_solver|by left]].
  destruct (assertValidStrategyVersionRow _ _) as [e|] eqn:EV.
  { right. split; [intros (_ & (v & [= <-] & Hv) & _); apply version_valid in Hv; congruence|].
    exists e, w2. split_and!; [done| |by left]. revert EV. unfold assertValidStrategyVersionRow.
    repeat case_match; intros [= <-]; set_solver. }
  apply version_valid in EV. cbn. rewrite (E3 f eq_refl).
  destruct (Nat.eqb_spec (length (latestPerSymbol rows)) 0) as [H0|H0].
  { rewrite latestPerSymbol_empty in H0. right. split; [by intros (_ & _ & ? & _)|].
    eexists _, w3. split_and!; [done|set_solver|by right]. }
  rewrite latestPerSymbol_empty in H0. cbn.
  destruct (forEach_orThrow (fun snap => assertValidSnapshotRow (candidateOf snap)) (orderedSnapshots (latestPerSymbol rows)) w3)
    as [[HF ->]|(r & e & Hr & He & ->)].
  - left. split; [|by exists f, sv]. split_and!; [by eexists|by exists sv|done|].
    unfold orderedSnapshots in HF. rewrite sortBy_perm in HF. eapply Forall_impl; [exact HF|]. intros r. apply candidate_valid.
  - right. split.
    + intros (_ & _ & _ & HF). unfold orderedSnapshots in Hr. rewrite sortBy_perm in Hr.
      rewrite Forall_forall in HF. apply HF, candidate_valid in Hr. congruence.
    + exists e, w3. split_and!; [done| |by right]. revert He. unfold assertValidSnapshotRow.
      destruct (firstRejection _); [|done]. intros [= <-]. set_solver.
Qed.
End input.

(** ** The planned events *)

Lemma resolve_default key :
  resolve (Some key) defaultStrategyRegistry = if bool_decide (key = "core-technical@v2") then StrategyV2 else StrategyV1.
Proof.
  change defaultStrategyRegistry with {|
    rg_byKey := <[strategyKey StrategyV2 := StrategyV2]> (<[strategyKey StrategyV1 := StrategyV1]> ∅);
    rg_fallback := StrategyV1 |}.
  assert (strategyKey StrategyV1 = "core-technical@v1") as -> by evaluate.
  assert (strategyKey StrategyV2 = "core-technical@v2") as -> by evaluate.
  unfold resolve. cbn [rg_byKey rg_fallback]. case_bool_decide as H2; [subst; by rewrite lookup_insert_eq|].
  rewrite lookup_insert_ne by done. destruct (decide (key = "core-technical@v1")) as [->|H1]; [by rewrite lookup_insert_eq|].
  by rewrite lookup_insert_ne, lookup_empty.
Qed.

(** The conviction floor of the strategy that decides for a version. *)
Definition floorOf (sv : SignalStrategyVersion) : number :=
  if bool_decide (sv_id sv = "core-technical@v2") then STRATEGY_V2_CONFIDENCE_FLOOR else STRATEGY_V1_CONFIDENCE_FLOOR.

Lemma decide_default sv signal tickId :
  sy_decide (resolve (Some (sv_id sv)) defaultStrategyRegistry) signal tickId = deriveFloorIntent signal (floorOf sv).
Proof. rewrite resolve_default. unfold floorOf. by case_bool_decide. Qed.

Lemma plannedEvent_inv registry tickId sv snap e :
  plannedEvent registry tickId sv snap = Some e ->
  exists signal, generateSignal (engineInput sv snap) = Generated signal
    /\ e = deriveDecisionEvent signal (resolve (Some (sv_id sv)) registry) tickId.
Proof. unfold plannedEvent. destruct (generateSignal _) as [signal|]; [|done]. intros [= <-]. by exists signal. Qed.

Lemma unitText_finite s : unitText s = true -> isFinite (stringToNumber s) = true.
Proof. unfold unitText. by destruct (stringToNumber s) as [|[]|]. Qed.

Lemma nlt_asym x y : nlt x y = true -> nlt y x = true -> False.
Proof. unfold nlt. rewrite (ncmp_antisym x y). by destruct (ncmp x y) as [[]|]. Qed.

(** The rule decides a direction only on its own side. *)
Lemma decided_side features params r :
  decideSignal features params = inr r -> sd_decision r <> FLAT -> sd_side r = sd_decision r.
Proof.
  unfold decideSignal. repeat case_match; try done. intros [= <-]. unfold ruleOf, confirmedBias, trendBias.
  cbn [sd_decision sd_side]. destruct (ngt _ (sp_maxRealizedVol params)); [done|].
  destruct (isBull _ _ _) eqn:EB, (isBear _ _ _) eqn:ES; simpl; repeat case_match; try done.
  unfold isBull, isBear in *. bool_hyps. by exfalso; eapply nlt_asym.
Qed.

(** The input a tick resolved is sound. *)
Lemma resolveInput_sound {X W} (ops : PipelineOps X W) w w' f sv latest :
  resolveInput ops w = (inr (f, sv, latest), w') -> soundVersion sv /\ Forall soundRow latest.
Proof.
  unfold resolveInput, resolvePersistedLineage. cbv beta iota delta [bind].
  destruct (po_findFeatureSet ops _ _ w) as [[|def] w1]; [done|].
  destruct (po_findStrategy ops _ w1) as [[|version] w2]; [done|].
  destruct def as [f'|]; [|done]. destruct version as [sv'|]; [|done].
  destruct (assertValidStrategyVersionRow _ _) eqn:EV; [done|]. apply version_valid in EV. cbn.
  destruct (po_findSnapshots ops _ w2) as [[|rows] w3]; [done|].
  destruct (Nat.eqb _ _); [done|]. cbn.
  destruct (forEach_orThrow ops (fun snap => assertValidSnapshotRow (candidateOf snap)) (orderedSnapshots (latestPerSymbol rows)) w3)
    as [[HF ->]|(r & e & _ & _ & ->)]; [|done].
  intros [= <- <- <- _]. split; [done|]. unfold orderedSnapshots in HF. rewrite sortBy_perm in HF.
  eapply Forall_impl; [exact HF|]. intros r. apply candidate_valid.
Qed.

(** An event planned from a sound row is well formed. *)
Lemma planned_wellFormed sv snap tickId e :
  soundVersion sv -> soundRow snap -> tickId <> Some "" ->
  plannedEvent defaultStrategyRegistry tickId sv snap = Some e -> wellFormedEvent e.
Proof.
  intros [V1 V2] (R1 & R2 & R3 & R4 & R5 & R6 & R7) Ht (signal & Hg & ->)%plannedEvent_inv.
  apply generateSignal_inv in Hg as (_ & _ & r & Hr & ->).
  destruct (quantizeConfidence_text (sd_confidence r)) as [C1 C2]; [by eapply decideSignal_share|].
  constructor; unfold deriveDecisionEvent; cbn [de_signal de_decision de_lineage dl_tickId dl_executionStrategyId dl_executionStrategyVersion].
  - unfold wellFormedSignal, unitConfidence, nonEmpty. simpl in *. by rewrite C1, C2, !bool_decide_true.
  - rewrite decide_default. unfold deriveFloorIntent, unitConfidence. cbn [gs_confidence gs_decision].
    repeat case_match; cbn [floorIntent di_confidence gs_confidence]; by rewrite C1, C2.
  - by split_and!.
  - rewrite resolve_default. by case_bool_decide.
  - rewrite resolve_default. case_bool_decide; evaluate.
  - done.
Qed.

Lemma planned_version_readsBack sv snap tickId e :
  plannedEvent defaultStrategyRegistry tickId sv snap = Some e ->
  gs_strategyParams (de_signal e) = paramsJson (Signals.resolveSignalParams (sv_parameters sv))
  /\ readsBack (dl_executionStrategyVersion (de_lineage e)) = true.
Proof.
  intros (signal & Hg & ->)%plannedEvent_inv. apply generateSignal_inv in Hg as (_ & _ & r & _ & ->).
  split; [done|]. unfold deriveDecisionEvent. cbn [de_lineage dl_executionStrategyVersion]. rewrite resolve_default. case_bool_decide; evaluate.
Qed.

(** ** The rows the default bus writes *)

(** A row after an update. *)
Definition updated (u : EngineSignalUpdate) (row : GeneratedSignal) : GeneratedSignal := {|
  gs_symbol := gs_symbol row;
  gs_side := eu_side u;
  gs_decision := eu_decision u;
  gs_confidence := eu_confidence u;
  gs_strategyVersionId := gs_strategyVersionId row;
  gs_strategyParams := eu_strategyParams u;
  gs_featureSnapshotId := gs_featureSnapshotId row;
  gs_dqReportId := eu_dqReportId u;
  gs_datasetHash := eu_datasetHash u;
  gs_featureHash := eu_featureHash u
|}.

(** The row at a signal's key after it was upserted. *)
Definition merged (s : GeneratedSignal) (row : option GeneratedSignal) : GeneratedSignal :=
  match row with None => s | Some row => updated (signalUpdate s) row end.

Definition upserted (s : GeneratedSignal) (t : gmap (string * string) GeneratedSignal) : gmap (string * string) GeneratedSignal :=
  <[signalKey s := merged s (t !! signalKey s)]> t.

(** The last of the signals upserted at a key. *)
Definition lastAt (k : string * string) (l : list GeneratedSignal) : option GeneratedSignal :=
  last (List.filter (fun s => bool_decide (signalKey s = k)) l).

(** A key holds the fields of the last signal upserted at it, over the row it held or the
    first signal upserted at it. *)
Lemma upserted_lookup l t k :
  exists row, foldl (fun t s => upserted s t) t l !! k
    = match lastAt k l with None => t !! k | Some s => Some (updated (signalUpdate s) row) end
  /\ (forall old, t !! k = Some old -> row = old)
  /\ (t !! k = None -> is_Some (lastAt k l) -> signalKey row = k /\ row ∈ l).
Proof.
  induction l as [|s l IH] using rev_ind; simpl.
  { destruct (t !! k) as [old|]; [by exists old; split_and!; [|intros ? [= ->]|]|].
    exists {| gs_symbol := ""; gs_side := FLAT; gs_decision := FLAT; gs_confidence := ""; gs_strategyVersionId := "";
      gs_strategyParams := J_null; gs_featureSnapshotId := ""; gs_dqReportId := ""; gs_datasetHash := ""; gs_featureHash := "" |}.
    split_and!; [done|done|by intros _ [? ?]]. }
  destruct IH as (row & E & Hrow & Hfresh). rewrite foldl_app. simpl. unfold lastAt in *. rewrite List.filter_app. simpl.
  case_bool_decide as Hk.
  - rewrite last_snoc. unfold upserted at 1. rewrite Hk, lookup_insert_eq.
    destruct (foldl _ t l !! k) as [cur|] eqn:EC; simpl.
    + destruct (last (List.filter _ l)) as [s'|] eqn:EL.
      * exists row. injection E as ->. split_and!; [done|done|]. intros Ht _.
        destruct (Hfresh Ht ltac:(by eexists)). split; [done|]. apply elem_of_app. by left.
      * exists cur. split_and!; [done| |]; intros; congruence.
    + exists s. destruct (last (List.filter _ l)); [done|]. split_and!; [by destruct s| |].
      * intros old Ho. congruence.
      * intros _ _. split; [done|]. apply elem_of_app. right. apply list_elem_of_here.
  - rewrite app_nil_r. exists row. unfold upserted at 1. rewrite lookup_insert_ne by done. split_and!; [done|done|].
    intros Ht Hl. destruct (Hfresh Ht Hl). split; [done|]. apply elem_of_app. by left.
Qed.

Lemma updated_updated u u' row : updated u (updated u' row) = updated u row.
Proof. done. Qed.

(** Upserting the same signals again changes no row. *)
Lemma upserted_idempotent l t :
  foldl (fun t s => upserted s t) (foldl (fun t s => upserted s t) t l) l = foldl (fun t s => upserted s t) t l.
Proof.
  apply map_eq. intros k. destruct (upserted_lookup l t k) as (row & E & _).
  destruct (upserted_lookup l (foldl (fun t s => upserted s t) t l) k) as (row' & E' & H' & _).
  rewrite E'. destruct (lastAt k l) as [s|]; [|done]. rewrite E. by rewrite (H' _ E), updated_updated.
Qed.

Section table.
Context {X W : Type} (sops : SignalOps X W) (table : W -> gmap (string * string) GeneratedSignal).

(** The documented behaviour of the client: an upsert that returns created the row at the key
    it was given, or updated the given columns of the one that is there; one that throws
    wrote nothing, and no other writer raced it. *)
Definition upsertLaw : Prop :=
  forall key create update w, match so_upsert sops key create update w with
    | (inr _, w') =>
        table w' = <[key := match table w !! key with None => create | Some row => updated update row end]> (table w)
    | (inl e, w') => table w' = table w /\ so_isUniqueViolation sops e = false
    end.

Lemma publish_default e w :
  upsertLaw ->
  match createDecisionBus sops e w with
  | (inr _, w') => table w' = upserted (de_signal e) (table w)
  | (inl _, w') => table w' = table w
  end.
Proof.
  intros HL. specialize (HL (signalKey (de_signal e)) (de_signal e) (signalUpdate (de_signal e)) w).
  unfold createDecisionBus, publishAll, createPersistenceSubscriber, persistEngineSignal. cbn [forEach].
  cbv beta iota delta [bind catch ret]. destruct (so_upsert sops _ _ _ w) as [[x|row] w1]; [|done].
  destruct HL as [HL ->]. done.
Qed.

(** Publishing events that all complete folds their signals into the table. *)
Lemma publish_all_default events w w' :
  upsertLaw -> forEach (createDecisionBus sops) events w = (inr tt, w') ->
  table w' = foldl (fun t s => upserted s t) (table w) (List.map de_signal events).
Proof.
  intros HL. revert w. induction events as [|e events IH]; intros w; simpl; [by intros [= <-]|].
  unfold bind. pose proof (publish_default e w HL) as HP.
  destruct (createDecisionBus sops e w) as [[x|[]] w1]; [done|]. intros H. apply IH in H. by rewrite H, HP.
Qed.
End table.

(** ** What a tick leaves in the rows *)

(** The signals of the snapshots the engine does not refuse. *)
Definition generatedSignals (sv : SignalStrategyVersion) (snaps : list FeatureSnapshotRow) : list GeneratedSignal :=
  omap (fun snap => match generateSignal (engineInput sv snap) with Generated signal => Some signal | Refused _ => None end) snaps.

Lemma planned_signals registry tickId sv snaps :
  List.map de_signal (plannedEvents registry tickId sv snaps) = generatedSignals sv snaps.
Proof.
  unfold plannedEvents, generatedSignals. induction snaps as [|snap snaps IH]; [done|]. simpl. unfold plannedEvent at 1.
  destruct (generateSignal _); simpl; [by f_equal|done].
Qed.

(** The last signal of a snapshot and a strategy version. *)
Definition lastSignal (snapshotId versionId : string) (signals : list GeneratedSignal) : option GeneratedSignal :=
  last (List.filter (fun s => bool_decide (gs_featureSnapshotId s = snapshotId)
                              && bool_decide (gs_strategyVersionId s = versionId)) signals).

Lemma lastSignal_lastAt snapshotId versionId l : lastSignal snapshotId versionId l = lastAt (snapshotId, versionId) l.
Proof.
  unfold lastSignal, lastAt. f_equal. apply List.filter_ext. intros s. unfold signalKey.
  repeat case_bool_decide; simpl; try done; exfalso; congruence.
Qed.

(** A row has the columns of a signal that an update writes. *)
Definition hasColumns (signal row : GeneratedSignal) : Prop :=
  gs_side row = gs_side signal /\ gs_decision row = gs_decision signal /\ gs_confidence row = gs_confidence signal
  /\ gs_strategyParams row = gs_strategyParams signal /\ gs_dqReportId row = gs_dqReportId signal
  /\ gs_datasetHash row = gs_datasetHash signal /\ gs_featureHash row = gs_featureHash signal.

(** The columns that a row keeps from its creation. *)
Definition sameIdentity (row row' : GeneratedSignal) : Prop :=
  gs_symbol row = gs_symbol row' /\ gs_strategyVersionId row = gs_strategyVersionId row'
  /\ gs_featureSnapshotId row = gs_featureSnapshotId row'.

(** The rows after these signals were written over others: those of the last signal at each
    key, and the old ones elsewhere. *)
Definition writtenRows (signals : list GeneratedSignal) (before after : gmap (string * string) GeneratedSignal) : Prop :=
  forall snapshotId versionId,
    match lastSignal snapshotId versionId signals with
    | None => after !! (snapshotId, versionId) = before !! (snapshotId, versionId)
    | Some signal => exists row, after !! (snapshotId, versionId) = Some row /\ hasColumns signal row
        /\ match before !! (snapshotId, versionId) with
           | Some old => sameIdentity row old
           | None => gs_featureSnapshotId row = snapshotId /\ gs_strategyVersionId row = versionId
               /\ exists first, first ∈ signals /\ sameIdentity row first
           end
    end.

Lemma upserted_written signals before : writtenRows signals before (foldl (fun t s => upserted s t) before signals).
Proof.
  intros snapshotId versionId. rewrite lastSignal_lastAt.
  destruct (upserted_lookup signals before (snapshotId, versionId)) as (row & E & Hold & Hnew).
  destruct (lastAt _ signals) as [signal|]; [|done]. eexists. split; [exact E|]. split; [done|].
  destruct (before !! _) as [old|]; [by rewrite (Hold old eq_refl)|].
  destruct (Hnew eq_refl ltac:(by eexists)) as [Hk Hin]. injection Hk as Hs Hv. split_and!; [done|done|by exists row].
Qed.
