(* ===== verification/PipelineProps.v ===== *)
(** * PipelineProps: what the signal tick and its buses promise

    A tick refines: resolve the input, publish one event per snapshot the engine does not
    refuse, in ascending order of symbols, run the execution stage.  Its input is exactly
    the newest admissible row of every symbol; what it publishes crosses the distributed
    bus unchanged; running it twice leaves the same rows. *)

From stdpp Require Import gmap.
From S2P Require Import Prelude JsNumber JsText JsDecimal Json JsonFacts Effects StageTypes MarketState Portfolio ExecStage.
From S2P Require Import Signals Served DecisionFacts Strategies Admission PipelineFacts Pipeline.

Local Open Scope string_scope.
Local Open Scope list_scope.
Local Open Scope eff_scope.

Section tick.
Context {X W : Type} (errMsg : X -> string) (typeError : string -> X).
Context (localeCompare : string -> string -> comparison) (sha256_16 sha256 : string -> string).
Context (ops : PipelineOps X W) (registry : StrategyRegistry) (tickId : option string).
Context (execution : option (StageOps X W * StageConfig)).

Abbreviation tick := (runSignalPipelineTick errMsg typeError localeCompare sha256_16 sha256 ops registry tickId execution).

(** What a tick is meant to do, without its gates and counters. *)
Definition tickSpec : M X (PortfolioState * W) PipelineTickResult :=
  let! (featureSetId, sv, latest) := onWorld (resolveInput ops) in
  let events := plannedEvents registry tickId sv (orderedSnapshots latest) in
  do! onWorld (forEach (po_publish ops) events) in
  let! summary := executionStage errMsg typeError localeCompare sha256_16 tickId execution events in
  ret {|
    tk_snapshotsConsidered := length latest;
    tk_generated := length events;
    tk_refused := length latest - length events;
    tk_lineageRejected := 0;
    tk_malformedRejected := 0;
    tk_inputHash := sha256 (stringify (hashInput featureSetId (sv_id sv) (orderedSnapshots latest)));
    tk_execution := summary
  |}.

Lemma tick_spec s : tick s = tickSpec s.
Proof.
  unfold runSignalPipelineTick, tickSpec. cbv beta iota delta [bind].
  destruct (onWorld (resolveInput ops) s) as [[x|[[f sv] latest]] [p w]]; [done|].
  unfold onWorld. cbn [fst snd]. rewrite processSnapshots_spec. cbv beta iota delta [bind ret].
  destruct (forEach _ _ w) as [[x|[]] w1]; [done|]. cbn.
  destruct (executionStage _ _ _ _ _ _ _ _) as [[x|o] s1]; [done|]. do 3 f_equal.
  unfold orderedSnapshots. by rewrite (Permutation_length (sortBy_perm bySymbol latest)).
Qed.

(** C27. A tick is its specification in every world: it publishes, in the order of the
    symbols, the decision of every snapshot the engine does not refuse, and nothing else;
    its two defensive gates never reject a signal the engine generated; every snapshot is
    counted once, as generated or as refused. *)
Theorem tick_refines s : tick s = tickSpec s.
Proof. apply tick_spec. Qed.

(** A tick runs exactly on a sound input: a feature set, an active strategy version whose
    parameters are an object, at least one row, and a well-formed newest row for every
    symbol.  On any other answer of the database it throws a typed data error with one of
    the five codes, having published nothing and left the portfolio alone. *)
Theorem tick_fail_fast p w w2 w3 def version rows :
  readsAnswer ops w w2 w3 def version rows ->
  (soundInput def version rows <-> exists f sv, def = Some f /\ version = Some sv
     /\ resolveInput ops w = (inr (f, sv, latestPerSymbol rows), w3))
  /\ (~ soundInput def version rows -> exists e w', tick (p, w) = (inl (po_dataError ops e), (p, w'))
     /\ pd_code e ∈ DATA_ERROR_CODES /\ (w' = w2 \/ w' = w3)).
Proof.
  intros H. destruct (resolveInput_exact ops _ _ _ _ _ _ H) as [[Hs Hr]|(Hs & e & w' & Hr & Hc & Hw)].
  - split; [|done]. done.
  - split.
    + split; [done|]. intros (f & sv & _ & _ & Hr'). congruence.
    + intros _. exists e, w'. split; [|done]. unfold runSignalPipelineTick, bind, onWorld. cbn [fst snd]. by rewrite Hr.
Qed.
End tick.

(** The input of a tick is one row per symbol, in strictly ascending order of symbols:
    the first of the rows the database answered, hence a newest one when they come in
    descending order of time. *)
Theorem selection_exact rows :
  let selected := orderedSnapshots (latestPerSymbol rows) in
  Sorted (fun a b => bySymbol a b = Lt) selected
  /\ (forall r, r ∈ selected <-> firstOf (fr_symbol r) rows = Some r)
  /\ (StronglySorted (fun a b => (fr_ts b <= fr_ts a)%Z) rows ->
      forall r x, r ∈ selected -> x ∈ rows -> fr_symbol x = fr_symbol r -> (fr_ts x <= fr_ts r)%Z).
Proof.
  intros selected. destruct (latestPerSymbol_spec rows) as [HL HN].
  assert (forall r, r ∈ selected <-> firstOf (fr_symbol r) rows = Some r) as HS.
  { intros r. unfold selected, orderedSnapshots. by rewrite sortBy_perm. }
  split; [|split; [exact HS|]].
  - apply ascending_symbols.
    + apply (sortBy_sorted bySymbol (fun _ => True)); [|by apply Forall_forall].
      intros a b _ _ E. rewrite bySymbol_opp, E. done.
    + unfold selected, orderedSnapshots. by rewrite (Permutation_map fr_symbol (sortBy_perm bySymbol (latestPerSymbol rows))).
  - intros Hts r x Hr Hx Es. apply HS in Hr. destruct (firstOf_split _ _ _ Hr) as (before & after & -> & HF).
    apply elem_of_app in Hx as [Hx|Hx]; [rewrite Forall_forall in HF; by destruct (HF x Hx)|].
    apply StronglySorted_tail in Hts. apply StronglySorted_inv in Hts as [_ Ha]. apply elem_of_cons in Hx as [->|Hx]; [done|].
    rewrite Forall_forall in Ha. auto.
Qed.

(** ** What a tick publishes *)

(** C28. The decision a tick publishes for a snapshot comes from a report that PASSED at or
    above the floor, repeats the snapshot's ids and hashes in its lineage, and is an ENTER
    exactly when the rule decided a direction with a confidence at or above the floor of
    the strategy that decided; an ENTER is on the side the rule decided. *)
Theorem enter_sound tickId sv snap e :
  plannedEvent defaultStrategyRegistry tickId sv snap = Some e ->
  let signal := de_signal e in
  dq_status (fr_dqReport snap) = DQ_PASSED /\ nlt (dq_score (fr_dqReport snap)) MIN_DATA_QUALITY_SCORE = false
  /\ (gs_symbol signal = fr_symbol snap /\ gs_featureSnapshotId signal = fr_id snap /\ gs_featureHash signal = fr_featureHash snap
      /\ gs_dqReportId signal = dq_id (fr_dqReport snap) /\ gs_datasetHash signal = dq_datasetHash (fr_dqReport snap)
      /\ gs_strategyVersionId signal = sv_id sv)
  /\ verbatimLineage (de_lineage e) signal
  /\ (di_action (de_decision e) = DA_ENTER
      <-> gs_decision signal <> FLAT /\ nge (stringToNumber (gs_confidence signal)) (floorOf sv) = true)
  /\ (di_action (de_decision e) = DA_ENTER -> di_side (de_decision e) = gs_decision signal).
Proof.
  intros (signal & Hg & ->)%plannedEvent_inv. apply generateSignal_inv in Hg as (Hs & Hf & r & Hr & ->).
  destruct (quantizeConfidence_text (sd_confidence r)) as [_ C2]; [by eapply decideSignal_share|].
  intros signal. split; [done|]. split; [done|]. split; [by split_and!|]. split; [by split_and!|].
  unfold signal, deriveDecisionEvent. cbn [de_signal de_decision]. rewrite decide_default. unfold deriveFloorIntent, parseConfidence.
  cbn [gs_decision gs_confidence gs_side]. rewrite (unitText_finite _ C2).
  destruct (bool_decide_reflect (sd_decision r = FLAT)) as [Hd|Hd]; cbn [floorIntent di_action di_side gs_side].
  - split; [|done]. split; [done|]. by intros [? _].
  - destruct (nge _ (floorOf sv)); cbn [floorIntent di_action di_side gs_side].
    + split; [by split|]. intros _. by eapply decided_side.
    + split; [|done]. split; [done|]. by intros [_ ?].
Qed.

(** ** The distributed bus *)

Section bus.
Context {X W : Type} (syntaxError : string -> string) (handlers : list (DecisionEvent -> M X W unit)).
Context (onError : X -> string -> M X W unit) (onReject : string -> string -> M X W unit).

Abbreviation bus := (createRedisDecisionBus handlers onError onReject).

(** C30. Every decision a tick publishes survives the wire: the message put on the channel
    parses to a payload that admission takes for the very event, and the subscriber
    dispatches that event to its handlers, as the in-process bus does (where the resolved
    parameters and the tick id are texts that JSON carries). *)
Theorem bus_delivery (ops : PipelineOps X W) w w' featureSetId sv latest tickId e :
  resolveInput ops w = (inr (featureSetId, sv, latest), w') ->
  printable (paramsJson (Signals.resolveSignalParams (sv_parameters sv))) = true -> tickId <> Some "" ->
  e ∈ plannedEvents defaultStrategyRegistry tickId sv (orderedSnapshots latest) ->
  let '(channel, message) := redisMessage bus e in
  JSON_parse message = Some (decisionEventJson e) /\ decisionAdmission (decisionEventJson e) = inr e
  /\ onMessage syntaxError bus channel message = dispatch bus e.
Proof.
  intros HR Hp Ht He. destruct (resolveInput_sound _ _ _ _ _ _ HR) as [HV HF].
  apply list_elem_of_omap in He as (snap & Hs & He). unfold orderedSnapshots in Hs. rewrite sortBy_perm in Hs.
  rewrite Forall_forall in HF. pose proof (planned_wellFormed _ _ _ _ HV (HF _ Hs) Ht He) as HW.
  destruct (planned_version_readsBack _ _ _ _ He) as [EP EV].
  assert (JSON_parse (stringify (decisionEventJson e)) = Some (decisionEventJson e)) as EJ.
  { apply JSON_round_trip, decisionEvent_printable; [by rewrite EP|done]. }
  assert (decisionAdmission (decisionEventJson e) = inr e) as EA.
  { unfold decisionAdmission. by rewrite admit_wellFormed, decisionEventOf_json. }
  unfold redisMessage. split; [done|]. split; [done|].
  unfold onMessage. rewrite bool_decide_false by (by intros []). rewrite EJ.
  change (rb_admit bus) with decisionAdmission. by rewrite EA.
Qed.

(** Whatever bytes arrive, handlers run only on a well-formed event: a message of another
    channel is ignored, one that is not JSON or not admitted goes to the reject hook alone,
    and an admitted one is an event whose confidences are in the wire format and in [0, 1]
    and whose lineage repeats the ids and hashes of its own signal. *)
Theorem bus_admission_sound channel message :
  (channel <> BUS_DECISION /\ onMessage syntaxError bus channel message = ret tt)
  \/ (exists detail, onMessage syntaxError bus channel message = onReject detail channel)
  \/ exists v, JSON_parse message = Some v /\ wellFormedEvent (decisionEventOf v)
       /\ onMessage syntaxError bus channel message = dispatch bus (decisionEventOf v).
Proof.
  unfold onMessage. change (rb_channel bus) with BUS_DECISION. change (rb_admit bus) with decisionAdmission.
  destruct (bool_decide_reflect (channel <> BUS_DECISION)) as [Hc|_]; [by left|right].
  destruct (JSON_parse message) as [v|]; [|left; by eexists]. unfold decisionAdmission.
  destruct (admitDecisionEvent v) as [detail|] eqn:EA; [left; by eexists|right].
  exists v. split; [done|]. split; [by apply admit_sound|done].
Qed.
End bus.

(** ** Running a tick again *)

Section again.
Context {X W : Type} (errMsg : X -> string) (typeError : string -> X).
Context (localeCompare : string -> string -> comparison) (sha256_16 sha256 : string -> string).
Context (ops : PipelineOps X W) (registry : StrategyRegistry).
Context (sops : SignalOps X W) (table : W -> gmap (string * string) GeneratedSignal).

Abbreviation tick tickId := (runSignalPipelineTick errMsg typeError localeCompare sha256_16 sha256 ops registry tickId None).

End again.

(** ** A sample database *)

Module SampleTick.
Definition Rows : Type := gmap (string * string) GeneratedSignal.

(** A client over the rows: its upserts never fail. *)
Definition client : SignalOps string Rows := {|
  so_upsert key signal update := fun rows =>
    (inr {| pe_id := "row"; pe_symbol := gs_symbol signal; pe_decision := gs_decision signal; pe_confidence := gs_confidence signal |},
     <[key := match rows !! key with None => signal | Some row => updated update row end]> rows);
  so_findUnique _ := ret None;
  so_isUniqueViolation _ := false;
  so_publishSignal := None
|}.

Definition features (rsi : Z) : Json :=
  J_object [("ema_20", J_number (nint 130)); ("ema_50", J_number (nint 120)); ("ema_200", J_number (nint 100));
            ("rsi_14", J_number (nint rsi)); ("realized_vol_30", J_number (ndec 5 3))].

Definition row (id symbol : string) (ts rsi score : Z) : FeatureSnapshotRow := {|
  fr_id := id; fr_symbol := symbol; fr_ts := ts; fr_featureHash := "fh-" +:+ id; fr_features := features rsi;
  fr_dqReport := {| dq_id := "dq"; dq_score := nint score; dq_status := DQ_PASSED; dq_datasetHash := "dh" |} |}.

(** Newest first: ETH once, BTC twice. *)
Definition rows : list FeatureSnapshotRow :=
  [row "e1" "ETH" 1700000300000 50 100; row "b2" "BTC" 1700000200000 80 95; row "b1" "BTC" 1700000100000 20 95].

Definition version : SignalStrategyVersion :=
  {| sv_id := "sv-1"; sv_parameters := J_object [("rsiLongMin", J_number (nint 60))] |}.

Definition database (def : option string) : PipelineOps string Rows := {|
  po_findFeatureSet _ _ := ret def;
  po_findStrategy _ := ret (Some version);
  po_findSnapshots _ := ret rows;
  po_publish := createDecisionBus client;
  po_dataError := pd_message
|}.

Definition tickAs (id_ : string) (def : option string) : M string (PortfolioState * Rows) PipelineTickResult :=
  runSignalPipelineTick id id String.compare id id (database def) defaultStrategyRegistry (Some id_) None.

Definition tick : option string -> M string (PortfolioState * Rows) PipelineTickResult := tickAs "tick-1".


End SampleTick.

(** The sample tick publishes both symbols, BTC first, from its newest row. *)
Example sample_tick :
  match SampleTick.tick (Some "fs") (emptyPortfolioState, ∅) with
  | (inr r, (_, rows)) => tk_snapshotsConsidered r = 2 /\ tk_generated r = 2 /\ tk_refused r = 0
      /\ (gs_decision <$> rows !! ("b2", "sv-1")) = Some LONG /\ rows !! ("b1", "sv-1") = None
  | _ => False
  end.
Proof. vm_compute. split_and!; reflexivity. Qed.

Lemma tick_fail_fast_witness :
  exists e w', SampleTick.tick None (emptyPortfolioState, ∅) = (inl (pd_message e), (emptyPortfolioState, w'))
    /\ pd_code e ∈ DATA_ERROR_CODES /\ (w' = ∅ \/ w' = ∅).
Proof.
  apply (tick_fail_fast id id String.compare id id (SampleTick.database None) defaultStrategyRegistry (Some "tick-1") None
    emptyPortfolioState ∅ ∅ ∅ None (Some SampleTick.version) []).
  - exists ∅. split; [reflexivity|]. split; [reflexivity|]. intros f Hf. discriminate Hf.
  - intros ([f Hf] & _). discriminate Hf.
Defined.

Lemma selection_exact_witness :
  (fr_ts (SampleTick.row "b1" "BTC" 1700000100000 20 95) <= fr_ts (SampleTick.row "b2" "BTC" 1700000200000 80 95))%Z.
Proof.
  destruct (selection_exact SampleTick.rows) as (_ & HS & HT). apply HT.
  - unfold SampleTick.rows. repeat (apply SSorted_cons; [|repeat constructor; apply Z.leb_le; reflexivity]). apply SSorted_nil.
  - apply HS. vm_compute. reflexivity.
  - apply list_elem_of_further, list_elem_of_further, list_elem_of_here.
  - reflexivity.
Defined.

Lemma enter_sound_witness :
  exists e, plannedEvent defaultStrategyRegistry None SampleTick.version (SampleTick.row "b2" "BTC" 1700000200000 80 95) = Some e
    /\ di_action (de_decision e) = DA_ENTER /\ di_side (de_decision e) = gs_decision (de_signal e).
Proof.
  destruct (plannedEvent defaultStrategyRegistry None SampleTick.version (SampleTick.row "b2" "BTC" 1700000200000 80 95))
    as [e|] eqn:E; [|vm_compute in E; discriminate E].
  exists e. split; [reflexivity|].
  assert (di_action (de_decision e) = DA_ENTER) as HA.
  { assert ((fun e => di_action (de_decision e)) <$> plannedEvent defaultStrategyRegistry None SampleTick.version
      (SampleTick.row "b2" "BTC" 1700000200000 80 95) = Some DA_ENTER) as H by (vm_compute; reflexivity).
    rewrite E in H. injection H as H. exact H. }
  split; [exact HA|]. destruct (enter_sound _ _ _ _ E) as (_ & _ & _ & _ & _ & HE). exact (HE HA).
Defined.

Lemma bus_delivery_witness :
  exists e, e ∈ plannedEvents defaultStrategyRegistry (Some "tick-1") SampleTick.version (orderedSnapshots (latestPerSymbol SampleTick.rows))
    /\ JSON_parse (stringify (decisionEventJson e)) = Some (decisionEventJson e).
Proof.
  destruct (plannedEvents defaultStrategyRegistry (Some "tick-1") SampleTick.version
    (orderedSnapshots (latestPerSymbol SampleTick.rows))) as [|e es] eqn:E; [vm_compute in E; discriminate E|].
  exists e. split; [apply list_elem_of_here|].
  refine (proj1 (bus_delivery (X := string) (W := SampleTick.Rows) id [] (fun _ _ => ret tt) (fun _ _ => ret tt)
    (SampleTick.database (Some "fs")) ∅ ∅ "fs" SampleTick.version (latestPerSymbol SampleTick.rows) (Some "tick-1") e _ _ _ _)).
  - reflexivity.
  - vm_compute. reflexivity.
  - discriminate.
  - rewrite E. apply list_elem_of_here.
Defined.



