(* ===== verification/Replay.v ===== *)
(** * Replay: reconstruction of a recorded decision of the v1 rule

    services/workers/src/replay: types.ts, strategy.ts (the frozen core-technical v1 rule)
    and engine.ts.  The quality report of a replay has the shape of [SignalDataQualityReport]. *)

From S2P Require Import Prelude JsNumber JsText JsDecimal Json Signals.

Local Open Scope string_scope.
Local Open Scope list_scope.

(** packages/core/src/types.ts *)
Inductive SignalState := SS_STRONG_BUY | SS_BUY | SS_NEUTRAL | SS_SELL | SS_STRONG_SELL.

#[export] Instance SignalState_eq_dec : EqDecision SignalState.
Proof. solve_decision. Defined.

Definition showState (s : SignalState) : string :=
  match s with
  | SS_STRONG_BUY => "STRONG_BUY" | SS_BUY => "BUY" | SS_NEUTRAL => "NEUTRAL" | SS_SELL => "SELL"
  | SS_STRONG_SELL => "STRONG_SELL"
  end.

(** ** types.ts *)

Record ReplayFeatureSnapshot := { rf_id : string; rf_featureHash : string; rf_features : Json }.

Record ReplaySignal := {
  rs_id : string;
  rs_state : SignalState;
  rs_featureHash : string;
  rs_datasetHash : string;
  rs_featureSnapshotId : string;
  rs_dqReportId : string;
  rs_strategyVersionId : string
}.

Record ReplayInput := {
  ri_dqReport : SignalDataQualityReport;
  ri_featureSnapshot : ReplayFeatureSnapshot;
  ri_signal : ReplaySignal;
  ri_strategyVersion : SignalStrategyVersion
}.

Inductive ReplayResult :=
| RP_MATCH | RP_DECISION_MISMATCH | RP_REFUSED_DQ | RP_ABORTED_FEATURE_HASH | RP_ABORTED_DATASET_HASH
| RP_ABORTED_LINEAGE | RP_ABORTED_FEATURE_VECTOR.

(** [SignalState | "REFUSED" | null] *)
Inductive RecomputedState := RC_null | RC_REFUSED | RC_state (s : SignalState).

Record ReplayOutput := {
  ro_replayResult : ReplayResult;
  ro_decisionMatch : bool;
  ro_featureHashMatch : bool;
  ro_datasetHashMatch : bool;
  ro_recomputedDecision : RecomputedState;
  ro_recordedDecision : SignalState;
  ro_detail : string
}.

(** ** strategy.ts *)

Record StrategyParams := {
  sr_rsiStrongBuy : number;
  sr_rsiBuy : number;
  sr_rsiSell : number;
  sr_rsiStrongSell : number
}.

Definition DEFAULT_STRATEGY_PARAMS : StrategyParams :=
  {| sr_rsiStrongBuy := nint 70; sr_rsiBuy := nint 55; sr_rsiSell := nint 45; sr_rsiStrongSell := nint 30 |}.

(** num *)
Definition paramOr (raw : Json) (fallback : number) : number :=
  match raw with J_number n => if isFinite n then n else fallback | _ => fallback end.

Definition resolveParams (parameters : Json) : StrategyParams := {|
  sr_rsiStrongBuy := paramOr (prop "rsiStrongBuy" parameters) (sr_rsiStrongBuy DEFAULT_STRATEGY_PARAMS);
  sr_rsiBuy := paramOr (prop "rsiBuy" parameters) (sr_rsiBuy DEFAULT_STRATEGY_PARAMS);
  sr_rsiSell := paramOr (prop "rsiSell" parameters) (sr_rsiSell DEFAULT_STRATEGY_PARAMS);
  sr_rsiStrongSell := paramOr (prop "rsiStrongSell" parameters) (sr_rsiStrongSell DEFAULT_STRATEGY_PARAMS)
|}.

(** feature: the message of the StrategyInputError, or the value. *)
Definition replayFeature (features : Json) (key : string) : string + number :=
  let refuse := inl ("feature " +:+ key +:+ " missing or non-finite (fail-closed)") in
  match prop key features with J_number v => if isFinite v then inr v else refuse | _ => refuse end.

(** The state the rule gives for the three averages and the RSI. *)
Definition stateOf (params : StrategyParams) (ema20 ema50 ema200 rsi : number) : SignalState :=
  let bull := ngt ema20 ema50 && ngt ema50 ema200 in
  let bear := nlt ema20 ema50 && nlt ema50 ema200 in
  if bull then
    if nge rsi (sr_rsiStrongBuy params) then SS_STRONG_BUY
    else if nge rsi (sr_rsiBuy params) then SS_BUY else SS_NEUTRAL
  else if bear then
    if nle rsi (sr_rsiStrongSell params) then SS_STRONG_SELL
    else if nle rsi (sr_rsiSell params) then SS_SELL else SS_NEUTRAL
  else SS_NEUTRAL.

Definition evaluateCoreTechnical (features : Json) (params : StrategyParams) : string + SignalState :=
  match replayFeature features "ema_20" with
  | inl e => inl e
  | inr ema20 =>
    match replayFeature features "ema_50" with
    | inl e => inl e
    | inr ema50 =>
      match replayFeature features "ema_200" with
      | inl e => inl e
      | inr ema200 =>
        match replayFeature features "rsi_14" with
        | inl e => inl e
        | inr rsi => inr (stateOf params ema20 ema50 ema200 rsi)
        end
      end
    end
  end.

(** ** engine.ts *)

Definition replaySignal (input : ReplayInput) : ReplayOutput :=
  let dqReport := ri_dqReport input in
  let featureSnapshot := ri_featureSnapshot input in
  let signal := ri_signal input in
  let strategyVersion := ri_strategyVersion input in
  let featureHashMatch := bool_decide (rs_featureHash signal = rf_featureHash featureSnapshot) in
  let datasetHashMatch := bool_decide (rs_datasetHash signal = dq_datasetHash dqReport) in
  let recordedDecision := rs_state signal in
  let output result decisionMatch recomputed detail := {|
    ro_replayResult := result; ro_decisionMatch := decisionMatch; ro_featureHashMatch := featureHashMatch;
    ro_datasetHashMatch := datasetHashMatch; ro_recomputedDecision := recomputed;
    ro_recordedDecision := recordedDecision; ro_detail := detail |} in
  let abort result detail := output result false RC_null detail in
  let differs name a what b := "signal." +:+ name +:+ " " +:+ a +:+ " != " +:+ what +:+ " " +:+ b in
  if bool_decide (rs_featureSnapshotId signal <> rf_id featureSnapshot) then
    abort RP_ABORTED_LINEAGE (differs "featureSnapshotId" (rs_featureSnapshotId signal) "snapshot.id" (rf_id featureSnapshot))
  else if bool_decide (rs_dqReportId signal <> dq_id dqReport) then
    abort RP_ABORTED_LINEAGE (differs "dqReportId" (rs_dqReportId signal) "dqReport.id" (dq_id dqReport))
  else if bool_decide (rs_strategyVersionId signal <> sv_id strategyVersion) then
    abort RP_ABORTED_LINEAGE
      (differs "strategyVersionId" (rs_strategyVersionId signal) "strategyVersion.id" (sv_id strategyVersion))
  else if negb featureHashMatch then
    abort RP_ABORTED_FEATURE_HASH "featureHash mismatch between signal and feature snapshot"
  else if negb datasetHashMatch then
    abort RP_ABORTED_DATASET_HASH "datasetHash mismatch between signal and DQ report"
  else if bool_decide (dq_status dqReport <> DQ_PASSED) || nlt (dq_score dqReport) MIN_DATA_QUALITY_SCORE then
    output RP_REFUSED_DQ false RC_REFUSED
      ("DQ score " +:+ numToString (dq_score dqReport) +:+ " (" +:+ showDqStatus (dq_status dqReport) +:+ ") < "
       +:+ numToString MIN_DATA_QUALITY_SCORE +:+ " — decision refused")
  else
    match evaluateCoreTechnical (rf_features featureSnapshot) (resolveParams (sv_parameters strategyVersion)) with
    | inl message => abort RP_ABORTED_FEATURE_VECTOR message
    | inr recomputed =>
        if bool_decide (recomputed = recordedDecision) then
          output RP_MATCH true (RC_state recomputed) "decision reproduced from persisted features"
        else
          output RP_DECISION_MISMATCH false (RC_state recomputed)
            ("recomputed " +:+ showState recomputed +:+ " != recorded " +:+ showState recordedDecision)
    end.
