(* ===== verification/Features.v ===== *)
(** * Features: the worker's consumer of the feature service

    services/workers/src/features: types.ts, client.ts (one HTTP exchange and the decoding of
    its answer) and consumer.ts (admission, contract check, persistence).  The HTTP exchange,
    the database and the event publisher are operations over an outside world W; [parseDate]
    is [new Date(text)], whose reading of texts outside the ISO format depends on the engine.
    Log lines are left out. *)

From S2P Require Import Prelude JsNumber JsText JsDecimal Json Effects Served Signals.

Local Open Scope string_scope.
Local Open Scope list_scope.
Local Open Scope eff_scope.

(** ** types.ts *)

Record FeatureScope := { sc_exchange : string; sc_symbol : string; sc_timeframe : string; sc_ts : option Z }.

Record WireCandle := {
  wc_ts : string; wc_open : string; wc_high : string; wc_low : string; wc_close : string; wc_volume : string
}.

Record FeatureComputeInput := {
  fi_dqReportId : string;
  fi_dqScore : number;
  fi_scope : FeatureScope;
  fi_featureSet : string;
  fi_version : number;
  fi_candles : list WireCandle
}.

Record FeatureComputeResult := {
  fe_featureSet : string;
  fe_version : number;
  fe_asOfTs : string;
  fe_featureHash : string;
  fe_features : Json;
  fe_inputCandleCount : number;
  fe_dqReportId : option string;
  fe_raw : string
}.

Record PersistedFeatureSnapshot := {
  pf_id : string; pf_featureHash : string; pf_featureSetId : string; pf_asOfTs : option Z
}.

(** ** client.ts *)

(** The errors of the client and of the consumer; RangeError is [toISOString] of an invalid
    Date. *)
Inductive FeatureError :=
| FeatureComputeAuthError (status : Z)
| FeatureComputeError (message : string) (status : option Z) (code : string)
| FeatureAdmissionError (score : number)
| UnknownFeatureSetError (name : string) (version : number)
| FeatureContractMismatchError (detail : string)
| RangeError.

Definition malformedResponse {A} (message : string) : FeatureError + A :=
  inl (FeatureComputeError message (Some 200%Z) "MALFORMED_RESPONSE").

(** decode, with the SyntaxError text of a body that is not JSON. *)
Definition decode (syntaxError : string -> string) (raw : string) : FeatureError + FeatureComputeResult :=
  match JSON_parse raw with
  | None => malformedResponse ("malformed response body: " +:+ syntaxError raw)
  | Some body =>
      if negb (isPlainObject body) then malformedResponse "response is not an object"
      else
        match prop "featureHash" body with
        | J_string (String c h) =>
            let featureHash := String c h in
            let features := prop "features" body in
            if negb (isPlainObject features) then malformedResponse "missing/invalid features"
            else
              match prop "feature_set" body, prop "version" body with
              | J_string featureSet, J_number version =>
                  match prop "as_of_ts" body with
                  | J_string asOfTs => inr {|
                      fe_featureSet := featureSet;
                      fe_version := version;
                      fe_asOfTs := asOfTs;
                      fe_featureHash := featureHash;
                      fe_features := features;
                      fe_inputCandleCount := match prop "input_candle_count" body with J_number n => n | _ => nint 0 end;
                      fe_dqReportId := match prop "dq_report_id" body with J_string s => Some s | _ => None end;
                      fe_raw := raw |}
                  | _ => malformedResponse "missing/invalid as_of_ts"
                  end
              | _, _ => malformedResponse "missing/invalid feature_set/version"
              end
        | _ => malformedResponse "missing/invalid featureHash"
        end
  end.

Definition candleJson (c : WireCandle) : Json :=
  J_object [("ts", J_string (wc_ts c)); ("open", J_string (wc_open c)); ("high", J_string (wc_high c));
            ("low", J_string (wc_low c)); ("close", J_string (wc_close c)); ("volume", J_string (wc_volume c))].

Definition scopeJson (s : FeatureScope) : Json :=
  J_object ([("exchange", J_string (sc_exchange s)); ("symbol", J_string (sc_symbol s));
             ("timeframe", J_string (sc_timeframe s))]
            ++ match sc_ts s with Some ts => [("ts", J_string (toISOString ts))] | None => [] end).

Definition requestJson (input : FeatureComputeInput) : Json :=
  J_object [("scope", scopeJson (fi_scope input)); ("feature_set", J_string (fi_featureSet input));
            ("version", J_number (fi_version input));
            ("market_data", J_object [("candles", J_array (List.map candleJson (fi_candles input)))]);
            ("dq_score", J_number (fi_dqScore input)); ("dq_report_id", J_string (fi_dqReportId input))].

(** An HTTP request and what [fetch] and [res.text()] answer. *)
Record HttpRequest := { hr_url : string; hr_headers : list (string * string); hr_body : string }.

Inductive HttpAnswer :=
| Unreachable (message : string)
| Answered (status : Z) (body : string).

(** [s.replace(/\/+$/, "")] *)
Fixpoint dropTrailingSlashes (s : string) : string :=
  match s with
  | "" => ""
  | String c t =>
      match dropTrailingSlashes t with
      | "" => if (code c =? 47)%Z then "" else String c ""
      | t' => String c t'
      end
  end.

(** The database rows a snapshot is written to, and the event it is announced by. *)
Record SnapshotUpsert := {
  su_exchange : string;
  su_symbol : string;
  su_timeframe : string;
  su_ts : option Z;
  su_featureSetId : string;
  su_features : Json;
  su_featureHash : string;
  su_dqReportId : string
}.

Record FeatureOps (X W : Type) := {
  fo_fetch : HttpRequest -> M X W HttpAnswer;
  fo_findFeatureSet : string -> number -> M X W (option string);
  fo_upsertSnapshot : SnapshotUpsert -> M X W string;
  fo_publishEvent : option (string -> Json -> M X W unit);
  fo_error : FeatureError -> X
}.
Arguments fo_fetch {X W}.
Arguments fo_findFeatureSet {X W}.
Arguments fo_upsertSnapshot {X W}.
Arguments fo_publishEvent {X W}.
Arguments fo_error {X W}.

(** packages/core/src/types.ts *)
Definition EXCHANGES : list string := ["BINANCE"; "DERIBIT"; "BYBIT"; "DEMO"].
Definition TIMEFRAMES : list string := List.map showTimeframe [M1; M5; M15; H1; H4; D1].

(** packages/events *)
Definition FEATURE_SNAPSHOT_CREATED : string := "feature.snapshot.created".

Section consumer.
Context {X W : Type} (syntaxError : string -> string) (parseDate : string -> option Z) (ops : FeatureOps X W).
Context (quantBaseUrl : string) (sharedSecret : option string).

Definition raise {A} (e : FeatureError) : M X W A := throw (fo_error ops e).

Definition featureRequest (input : FeatureComputeInput) : HttpRequest := {|
  hr_url := dropTrailingSlashes quantBaseUrl +:+ "/features/compute";
  hr_headers := ("Content-Type", "application/json")
    :: match sharedSecret with
       | Some s => if bool_decide (s = "") then [] else [("X-Internal-Secret", s)]
       | None => []
       end;
  hr_body := stringify (requestJson input) |}.

Definition computeFeatures (input : FeatureComputeInput) : M X W FeatureComputeResult :=
  if bool_decide (quantBaseUrl = "") then raise (FeatureComputeError "quantBaseUrl not configured" None "NOT_CONFIGURED")
  else
    let! answer := fo_fetch ops (featureRequest input) in
    match answer with
    | Unreachable message =>
        raise (FeatureComputeError ("features/compute request failed: " +:+ message) None "UNREACHABLE")
    | Answered status body =>
        if (status =? 401)%Z || (status =? 403)%Z then raise (FeatureComputeAuthError status)
        else if negb ((200 <=? status)%Z && (status <=? 299)%Z) then
          raise (FeatureComputeError ("features/compute returned HTTP " +:+ numToString (nint status)
            +:+ (if bool_decide (body = "") then "" else ": " +:+ body)) (Some status) "NON_OK")
        else
          match decode syntaxError body with inl e => raise e | inr result => ret result end
    end.

Definition snapshotUpsert (input : FeatureComputeInput) (result : FeatureComputeResult) (featureSetId : string) :
    SnapshotUpsert := {|
  su_exchange := sc_exchange (fi_scope input);
  su_symbol := sc_symbol (fi_scope input);
  su_timeframe := sc_timeframe (fi_scope input);
  su_ts := parseDate (fe_asOfTs result);
  su_featureSetId := featureSetId;
  su_features := fe_features result;
  su_featureHash := fe_featureHash result;
  su_dqReportId := fi_dqReportId input |}.

Definition createdEvent (input : FeatureComputeInput) (result : FeatureComputeResult) (id : string) : Json :=
  J_object [("snapshotId", J_string id); ("symbol", J_string (sc_symbol (fi_scope input)));
            ("timeframe", J_string (sc_timeframe (fi_scope input))); ("featureHash", J_string (fe_featureHash result))].

(** The service echoed another feature set than the one requested. *)
Definition differsFromRequest (input : FeatureComputeInput) (result : FeatureComputeResult) : bool :=
  bool_decide (fe_featureSet result <> fi_featureSet input) || negb (neq (fe_version result) (fi_version input)).

Definition mismatchText (input : FeatureComputeInput) (result : FeatureComputeResult) : string :=
  "requested " +:+ fi_featureSet input +:+ " v" +:+ numToString (fi_version input) +:+ ", got "
  +:+ fe_featureSet result +:+ " v" +:+ numToString (fe_version result).

(** Resolve the catalog id, upsert the snapshot, announce it. *)
Definition persistSnapshot (input : FeatureComputeInput) (result : FeatureComputeResult) (unknownFeatureSet : X) :
    M X W PersistedFeatureSnapshot :=
  let! def := fo_findFeatureSet ops (fe_featureSet result) (fe_version result) in
  match def with
  | None => throw unknownFeatureSet
  | Some featureSetId =>
      let! id := fo_upsertSnapshot ops (snapshotUpsert input result featureSetId) in
      do! match parseDate (fe_asOfTs result) with Some _ => ret tt | None => raise RangeError end in
      do! match fo_publishEvent ops with
          | Some publish => publish FEATURE_SNAPSHOT_CREATED (createdEvent input result id)
          | None => ret tt
          end in
      ret {| pf_id := id; pf_featureHash := fe_featureHash result; pf_featureSetId := featureSetId;
             pf_asOfTs := parseDate (fe_asOfTs result) |}
  end.

Definition consumeFeatureComputation (input : FeatureComputeInput) : M X W PersistedFeatureSnapshot :=
  if nlt (fi_dqScore input) MIN_DATA_QUALITY_SCORE then raise (FeatureAdmissionError (fi_dqScore input))
  else if bool_decide (sc_exchange (fi_scope input) ∉ EXCHANGES) then
    raise (FeatureContractMismatchError ("unknown exchange " +:+ sc_exchange (fi_scope input)))
  else if bool_decide (sc_timeframe (fi_scope input) ∉ TIMEFRAMES) then
    raise (FeatureContractMismatchError ("unknown timeframe " +:+ sc_timeframe (fi_scope input)))
  else
    let! result := computeFeatures input in
    if differsFromRequest input result then raise (FeatureContractMismatchError (mismatchText input result))
    else persistSnapshot input result (fo_error ops (UnknownFeatureSetError (fe_featureSet result) (fe_version result))).
End consumer.
