(* ===== verification/FeatureProps.v ===== *)
(** * FeatureProps: what computing and persisting a feature vector writes

    The traces of the feature operations: an accepted answer is taken verbatim, and the
    path shared by the worker's consumer and the ingestion bridge writes at most one row.
    The properties of the consumer and of the v1 replay follow. *)

From S2P Require Import Prelude JsNumber Served JsText JsDecimal Json Effects Signals DecisionFacts Replay Features.

Local Open Scope string_scope.
Local Open Scope list_scope.
Local Open Scope eff_scope.

Section consumer.
Context {X W : Type} (syntaxError : string -> string) (parseDate : string -> option Z) (ops : FeatureOps X W).
Context (quantBaseUrl : string) (sharedSecret : option string).
(** The snapshots written so far. *)
Context (written : W -> list SnapshotUpsert).

(** Only an upsert writes, its own row, at most once. *)
Record writesOnlyUpserts : Prop := {
  fetch_keeps r w : written (snd (fo_fetch ops r w)) = written w;
  find_keeps n v w : written (snd (fo_findFeatureSet ops n v w)) = written w;
  publish_keeps p n v w : fo_publishEvent ops = Some p -> written (snd (p n v w)) = written w;
  upsert_writes u w : match fo_upsertSnapshot ops u w with
    | (inr _, w') => written w' = written w ++ [u]
    | (inl _, w') => written w' = written w
    end
}.

(** A row taken verbatim from an answer of the service to an admissible input. *)
Definition verbatimRow (input : FeatureComputeInput) (u : SnapshotUpsert) : Prop :=
  nlt (fi_dqScore input) MIN_DATA_QUALITY_SCORE = false /\ sc_exchange (fi_scope input) ∈ EXCHANGES
  /\ sc_timeframe (fi_scope input) ∈ TIMEFRAMES
  /\ exists raw body, JSON_parse raw = Some body
    /\ prop "featureHash" body = J_string (su_featureHash u) /\ su_featureHash u <> ""
    /\ prop "features" body = su_features u /\ isPlainObject (su_features u) = true
    /\ prop "feature_set" body = J_string (fi_featureSet input)
    /\ su_exchange u = sc_exchange (fi_scope input) /\ su_symbol u = sc_symbol (fi_scope input)
    /\ su_timeframe u = sc_timeframe (fi_scope input) /\ su_dqReportId u = fi_dqReportId input.

Lemma decode_inv raw result :
  decode syntaxError raw = inr result ->
  exists body, JSON_parse raw = Some body /\ prop "featureHash" body = J_string (fe_featureHash result)
    /\ fe_featureHash result <> "" /\ prop "features" body = fe_features result /\ isPlainObject (fe_features result) = true
    /\ prop "feature_set" body = J_string (fe_featureSet result) /\ prop "version" body = J_number (fe_version result).
Proof.
  unfold decode. destruct (JSON_parse raw) as [body|]; [|done]. destruct (isPlainObject body); [|done]. simpl negb. cbv iota.
  destruct (prop "featureHash" body) as [| | | |[|c h]| |] eqn:E1; try done.
  destruct (isPlainObject (prop "features" body)) eqn:E2; [|done]. simpl negb. cbv iota.
  destruct (prop "feature_set" body) eqn:E3; try done. destruct (prop "version" body) eqn:E4; try done.
  destruct (prop "as_of_ts" body) eqn:E5; try done. intros [= <-]. exists body. by split_and!.
Qed.

Lemma computeFeatures_wp input w :
  writesOnlyUpserts ->
  wp (computeFeatures syntaxError ops quantBaseUrl sharedSecret input)
    (fun r w' => written w' = written w
       /\ match r with inr result => exists raw, decode syntaxError raw = inr result | inl _ => True end) w.
Proof.
  intros HL. unfold computeFeatures. case_bool_decide; [by split|].
  apply wp_bind. pose proof (fetch_keeps HL (featureRequest quantBaseUrl sharedSecret input) w) as HF. unfold wp.
  destruct (fo_fetch ops _ w) as [[x|answer] w1]; cbn [fst snd] in *; [by split|].
  destruct answer as [m|status body]; [by split|]. destruct (_ || _); [by split|]. destruct (negb _); [by split|].
  destruct (decode syntaxError body) as [e|result] eqn:ED; [by split|]. split; [done|]. by exists body.
Qed.

(** What the shared path leaves: nothing or one verbatim row, and that row when it returns. *)
Definition wroteVerbatim (input : FeatureComputeInput) (w : W) (r : X + PersistedFeatureSnapshot) (w' : W) : Prop :=
  match r with
  | inl _ => written w' = written w \/ exists u, verbatimRow input u /\ written w' = written w ++ [u]
  | inr p => exists u, verbatimRow input u /\ written w' = written w ++ [u] /\ pf_featureHash p = su_featureHash u
  end.

Lemma persistSnapshot_wp input result raw unknown w w0 :
  writesOnlyUpserts -> written w = written w0 ->
  nlt (fi_dqScore input) MIN_DATA_QUALITY_SCORE = false -> sc_exchange (fi_scope input) ∈ EXCHANGES ->
  sc_timeframe (fi_scope input) ∈ TIMEFRAMES -> decode syntaxError raw = inr result ->
  fe_featureSet result = fi_featureSet input ->
  wp (persistSnapshot parseDate ops input result unknown) (wroteVerbatim input w0) w.
Proof.
  intros HL K1 E1 E2 E3 HD E4. destruct (decode_inv _ _ HD) as (body & P1 & P2 & P3 & P4 & P5 & P6 & _).
  unfold persistSnapshot. apply wp_bind. unfold wp at 1.
  pose proof (find_keeps HL (fe_featureSet result) (fe_version result) w) as K2.
  destruct (fo_findFeatureSet ops _ _ w) as [[x|def] w2]; cbn [fst snd] in *; [left; congruence|].
  destruct def as [fsid|]; [|left; simpl; congruence].
  set (u := snapshotUpsert parseDate input result fsid).
  assert (verbatimRow input u) as HV.
  { split_and!; try done. exists raw, body. rewrite <- E4. by split_and!. }
  apply wp_bind. unfold wp at 1. pose proof (upsert_writes HL u w2) as K3.
  destruct (fo_upsertSnapshot ops u w2) as [[x|id] w3]; cbn [fst snd]; [left; congruence|].
  assert (written w3 = written w0 ++ [u]) as K4 by congruence.
  apply wp_bind. destruct (parseDate (fe_asOfTs result)); [|apply wp_throw; cbv beta iota; right; by exists u].
  apply wp_ret, wp_bind.
  destruct (fo_publishEvent ops) as [publish|] eqn:EP; [|exists u; by split_and!].
  pose proof (publish_keeps HL publish FEATURE_SNAPSHOT_CREATED (createdEvent input result id) w3 EP) as K5.
  unfold wp. destruct (publish _ _ w3) as [[x|[]] w4]; cbn [fst snd] in *; [right; exists u; split; [done|congruence]|].
  exists u. split_and!; [done|simpl; congruence|done].
Qed.

(** Compute for an admissible input, refuse another feature set, persist. *)
Lemma computeAndPersist_wp input (mismatch unknown : FeatureComputeResult -> X) w :
  writesOnlyUpserts ->
  nlt (fi_dqScore input) MIN_DATA_QUALITY_SCORE = false -> sc_exchange (fi_scope input) ∈ EXCHANGES ->
  sc_timeframe (fi_scope input) ∈ TIMEFRAMES ->
  wp (let! result := computeFeatures syntaxError ops quantBaseUrl sharedSecret input in
      if differsFromRequest input result then throw (mismatch result)
      else persistSnapshot parseDate ops input result (unknown result)) (wroteVerbatim input w) w.
Proof.
  intros HL E1 E2 E3. apply wp_bind. eapply wp_mono; [by apply computeFeatures_wp|].
  intros [x|result] w1 [K1 HD]; [by left|]. destruct HD as [raw HD]. unfold differsFromRequest.
  destruct (bool_decide_reflect (fe_featureSet result <> fi_featureSet input)) as [?|E4]; [by left|apply dec_stable in E4].
  destruct (neq _ _); [|by left]. simpl. by eapply persistSnapshot_wp.
Qed.
End consumer.

(** * What the feature consumer and the v1 replay promise

    The consumer writes at most one snapshot, verbatim from an accepted answer; the replay
    reports MATCH exactly when the recorded artifacts reproduce the state. *)

(** ** Replay *)

(** The recorded artifacts belong together and pass the floor. *)
Definition intact (input : ReplayInput) : Prop :=
  let signal := ri_signal input in
  rs_featureSnapshotId signal = rf_id (ri_featureSnapshot input) /\ rs_dqReportId signal = dq_id (ri_dqReport input)
  /\ rs_strategyVersionId signal = sv_id (ri_strategyVersion input)
  /\ rs_featureHash signal = rf_featureHash (ri_featureSnapshot input)
  /\ rs_datasetHash signal = dq_datasetHash (ri_dqReport input)
  /\ dq_status (ri_dqReport input) = DQ_PASSED /\ nlt (dq_score (ri_dqReport input)) MIN_DATA_QUALITY_SCORE = false.

Definition recomputed (input : ReplayInput) : string + SignalState :=
  evaluateCoreTechnical (rf_features (ri_featureSnapshot input)) (resolveParams (sv_parameters (ri_strategyVersion input))).

Ltac not_reproduced := split_and!; [intros s; split; [done|tauto]|split; [done|tauto]|done].

(** A replay recomputes a state exactly when the artifacts reference one another, both
    hashes agree, the report passes the floor and the feature vector is complete, and the
    state is then the rule's over the persisted features; it reports MATCH exactly when
    that state is the recorded one, and decisionMatch says the same. *)
Theorem replay_signal_exact input :
  let out := replaySignal input in
  (forall s, ro_recomputedDecision out = RC_state s <-> intact input /\ recomputed input = inr s)
  /\ (ro_replayResult out = RP_MATCH <-> intact input /\ recomputed input = inr (rs_state (ri_signal input)))
  /\ (ro_decisionMatch out = true <-> ro_replayResult out = RP_MATCH).
Proof.
  intros out. unfold out, replaySignal, intact. fold (recomputed input). cbv zeta.
  destruct (bool_decide_reflect (rs_featureSnapshotId (ri_signal input) <> rf_id (ri_featureSnapshot input))) as [H1|H1];
    [by not_reproduced|apply dec_stable in H1].
  destruct (bool_decide_reflect (rs_dqReportId (ri_signal input) <> dq_id (ri_dqReport input))) as [H2|H2];
    [by not_reproduced|apply dec_stable in H2].
  destruct (bool_decide_reflect (rs_strategyVersionId (ri_signal input) <> sv_id (ri_strategyVersion input))) as [H3|H3];
    [by not_reproduced|apply dec_stable in H3].
  destruct (bool_decide_reflect (rs_featureHash (ri_signal input) = rf_featureHash (ri_featureSnapshot input))) as [H4|H4];
    [|by not_reproduced].
  destruct (bool_decide_reflect (rs_datasetHash (ri_signal input) = dq_datasetHash (ri_dqReport input))) as [H5|H5];
    [|by not_reproduced].
  change (bool_decide (dq_status (ri_dqReport input) <> DQ_PASSED) || nlt (dq_score (ri_dqReport input)) MIN_DATA_QUALITY_SCORE)
    with (belowFloor (ri_dqReport input)).
  pose proof (belowFloor_false (ri_dqReport input)) as HF. cbn [negb].
  destruct (belowFloor (ri_dqReport input)).
  { match type of HF with _ <-> ?P => assert (~ P) as HN by (intros H; by apply HF in H) end. not_reproduced. }
  destruct (proj1 HF eq_refl) as [H6 H7]. destruct (recomputed input) as [m|s]; cbn;
    [split_and!; [intros s; split; [done|]; by intros [_ ?]|split; [done|]; by intros [_ ?]|done]|].
  destruct (bool_decide_reflect (s = rs_state (ri_signal input))) as [Hs|Hs]; cbn; split_and!; try done.
  - intros s'. split; [intros [= <-]; tauto|]. by intros [_ [= <-]].
  - split; [intros _; rewrite Hs; tauto|done].
  - intros s'. split; [intros [= <-]; tauto|]. by intros [_ [= <-]].
  - split; [done|]. intros [_ [= E]]. done.
Qed.

(** ** The feature consumer *)

(** The consumer writes at most one snapshot.  It writes one only for a report at or above
    the floor and a known exchange and timeframe, from an answer that echoes the requested
    feature set, and with the answer's hash and feature object verbatim; and when it
    returns, exactly that snapshot was written, whose hash it returns. *)
Theorem features_verbatim {X W} syntaxError parseDate (ops : FeatureOps X W) quantBaseUrl sharedSecret written input w :
  writesOnlyUpserts ops written ->
  wp (consumeFeatureComputation syntaxError parseDate ops quantBaseUrl sharedSecret input)
    (fun r w' =>
       match r with
       | inl _ => written w' = written w \/ exists u, verbatimRow input u /\ written w' = written w ++ [u]
       | inr p => exists u, verbatimRow input u /\ written w' = written w ++ [u] /\ pf_featureHash p = su_featureHash u
       end) w.
Proof.
  intros HL. unfold consumeFeatureComputation.
  destruct (nlt (fi_dqScore input) MIN_DATA_QUALITY_SCORE) eqn:E1; [by left|].
  destruct (bool_decide_reflect (sc_exchange (fi_scope input) ∉ EXCHANGES)) as [?|E2]; [by left|apply dec_stable in E2].
  destruct (bool_decide_reflect (sc_timeframe (fi_scope input) ∉ TIMEFRAMES)) as [?|E3]; [by left|apply dec_stable in E3].
  by apply (computeAndPersist_wp syntaxError parseDate ops quantBaseUrl sharedSecret written input
    (fun result => fo_error ops (FeatureContractMismatchError (mismatchText input result)))
    (fun result => fo_error ops (UnknownFeatureSetError (fe_featureSet result) (fe_version result)))).
Qed.


(** ** A sample service *)

Module SampleService.
Definition body : string := stringify (J_object [
  ("feature_set", J_string "core-technical"); ("version", J_number (nint 1)); ("as_of_ts", J_string "t");
  ("featureHash", J_string "hash"); ("features", J_object [("ema_20", J_number (nint 130))]) ]).

Definition service : FeatureOps FeatureError (list SnapshotUpsert) := {|
  fo_fetch _ := ret (Answered 200 body);
  fo_findFeatureSet _ _ := ret (Some "fs");
  fo_upsertSnapshot u := fun written => (inr "snap-1", written ++ [u]);
  fo_publishEvent := None;
  fo_error := id
|}.

Definition input : FeatureComputeInput := {|
  fi_dqReportId := "dq"; fi_dqScore := nint 95;
  fi_scope := {| sc_exchange := "DERIBIT"; sc_symbol := "BTC"; sc_timeframe := "M15"; sc_ts := None |};
  fi_featureSet := "core-technical"; fi_version := nint 1; fi_candles := [] |}.

Definition consume : M FeatureError (list SnapshotUpsert) PersistedFeatureSnapshot :=
  consumeFeatureComputation id (fun _ => Some 0%Z) service "http://quant" None input.

Lemma service_law : writesOnlyUpserts service id.
Proof. by constructor. Qed.
End SampleService.

Lemma features_verbatim_witness :
  exists p u, SampleService.consume [] = (inr p, [u]) /\ verbatimRow SampleService.input u
    /\ pf_featureHash p = su_featureHash u.
Proof.
  pose proof (features_verbatim id (fun _ => Some 0%Z) SampleService.service "http://quant" None id SampleService.input []
    SampleService.service_law) as H.
  unfold wp in H. fold SampleService.consume in H.
  destruct (SampleService.consume []) as [[x|p] w'] eqn:E; [vm_compute in E; discriminate E|].
  destruct H as (u & HV & HW & HH). cbn in HW. exists p, u. rewrite <- HW. split; [reflexivity|]. split; [exact HV|exact HH].
Defined.
