(* ===== verification/Quality.v ===== *)
(** * Quality: the data-quality gateway of the ingestion service

    services/ingestion/src/dq: gaps.ts (the timeframe grid), checks.ts (the structural
    checks), score.ts, hash.ts, stage-b-client.ts (the answer of the statistical service)
    and index.ts.  A Date is its time value in milliseconds, an integer.  The HTTP exchange
    and the report table are operations over an outside world; SHA-256 is a parameter.  Log
    lines are left out. *)

From stdpp Require Import gmap.
From S2P Require Import Prelude JsNumber JsText JsDecimal Json Effects Served Signals MarketState.

Local Open Scope string_scope.
Local Open Scope list_scope.
Local Open Scope eff_scope.

(** [Math.ceil] *)
Definition nceil (x : number) : number :=
  match x with
  | Num s _ _ => let z := (- ((- sv x) / 2 ^ 1074))%Z in if (z =? 0)%Z then Num s 0 0 else nint z
  | _ => x
  end.

Definition countText (n : nat) : string := numToString (nint (Z.of_nat n)).

(** ** connectors/types.ts *)

Record NormalizedCandle := {
  nc_exchange : string;
  nc_symbol : string;
  nc_assetType : string;
  nc_timeframe : Timeframe;
  nc_ts : Z;
  nc_open : string;
  nc_high : string;
  nc_low : string;
  nc_close : string;
  nc_volume : string;
  nc_trades : option number
}.

(** ** gaps.ts *)

Definition TIMEFRAME_MS (t : Timeframe) : Z :=
  match t with
  | M1 => 60000 | M5 => 300000 | M15 => 900000 | H1 => 3600000 | H4 => 14400000 | D1 => 86400000
  end%Z.

Record CandleGap := { cg_from : Z; cg_to : Z; cg_missingBars : nat }.

(** [Math.ceil(from / grid) * grid] over integers.  A time value is below 2^53 in magnitude,
    so the rounding error of the quotient is below 1 / grid, which is the least distance of
    a fractional quotient from an integer: the ceiling of the Number is the integer one. *)
Definition ceilDiv (a b : Z) : Z := (- ((- a) / b))%Z.
Definition firstAligned (gridMs from : Z) : Z := (ceilDiv from gridMs * gridMs)%Z.

(** The number of passes of [for (ms = first; ms < end; ms += grid)]. *)
Definition slots (gridMs first endMs : Z) : nat := Z.to_nat (ceilDiv (endMs - first) gridMs).

(** The timestamps that fill a slot. *)
Definition presentSlots (gridMs first endMs : Z) (timestamps : list Z) : gset Z :=
  list_to_set (List.filter (fun ms => (ms mod gridMs =? 0) && (first <=? ms) && (ms <? endMs))%Z timestamps).

Definition gapOf (gridMs runStart : Z) (runBars : nat) : CandleGap :=
  {| cg_from := runStart; cg_to := runStart + Z.of_nat runBars * gridMs; cg_missingBars := runBars |}.

(** The scan over n slots from ms: the open run, and the gaps it closes. *)
Fixpoint scanSlots (gridMs : Z) (present : Z -> bool) (n : nat) (ms : Z) (run : option (Z * nat)) : list CandleGap :=
  match n with
  | O => match run with Some (start, bars) => [gapOf gridMs start bars] | None => [] end
  | S n =>
      if present ms then
        match run with Some (start, bars) => [gapOf gridMs start bars] | None => [] end
        ++ scanSlots gridMs present n (ms + gridMs) None
      else
        scanSlots gridMs present n (ms + gridMs)
          (match run with Some (start, bars) => Some (start, S bars) | None => Some (ms, 1) end)
  end.

Definition detectCandleGaps (timestamps : list Z) (timeframe : Timeframe) (from to : Z) : list CandleGap :=
  let gridMs := TIMEFRAME_MS timeframe in
  let first := firstAligned gridMs from in
  if (to <=? first)%Z then []
  else
    let present := presentSlots gridMs first to timestamps in
    scanSlots gridMs (fun ms => bool_decide (ms ∈ present)) (slots gridMs first to) first None.

(** ** checks.ts *)

Inductive StageBFailureCategory := SB_INFRA | SB_AUTH.

#[export] Instance StageBFailureCategory_eq_dec : EqDecision StageBFailureCategory.
Proof. solve_decision. Defined.

Record StructuralCheck := {
  ck_check : string;
  ck_passed : bool;
  ck_deduction : number;
  ck_detail : string;
  ck_category : option StageBFailureCategory
}.

(** CHECK_WEIGHTS *)
Definition W_SCHEMA : Z := 40.
Definition W_DUPLICATES : Z := 20.
Definition W_MONOTONIC : Z := 15.
Definition W_GAPS : Z := 25.

Definition SAMPLE_CAP : nat := 5.

Definition sampleList (samples : list string) : string :=
  match samples with [] => "" | _ => " samples=[" +:+ join ", " (take SAMPLE_CAP samples) +:+ "]" end.

(** A check of a full weight. *)
Definition weighted (check : string) (weight : Z) (passed : bool) (detail : string) : StructuralCheck := {|
  ck_check := check; ck_passed := passed; ck_deduction := if passed then nint 0 else nint weight;
  ck_detail := detail; ck_category := None |}.

Definition isFiniteDecimalString (value : string) : bool :=
  if bool_decide (trim value = "") then false else isFinite (stringToNumber value).

(** The reasons a row is rejected for. *)
Definition rowReasons (c : NormalizedCandle) : list string :=
  let fields := [("open", nc_open c); ("high", nc_high c); ("low", nc_low c); ("close", nc_close c); ("volume", nc_volume c)] in
  match List.filter (fun f => negb (isFiniteDecimalString (snd f))) fields with
  | [] =>
      let open := stringToNumber (nc_open c) in
      let high := stringToNumber (nc_high c) in
      let low := stringToNumber (nc_low c) in
      let close := stringToNumber (nc_close c) in
      let volume := stringToNumber (nc_volume c) in
      let zero := nint 0 in
      (if nlt open zero || nlt high zero || nlt low zero || nlt close zero then ["negative_price"] else [])
      ++ (if nlt high low then ["high_lt_low"] else [])
      ++ (if nlt open low || ngt open high then ["open_outside_range"] else [])
      ++ (if nlt close low || ngt close high then ["close_outside_range"] else [])
      ++ (if nlt volume zero then ["negative_volume"] else [])
  | bad => List.map (fun f => fst f +:+ "_not_finite") bad
  end.

(** The Map of the reasons and their counts, in the order they first appear. *)
Fixpoint countReason (r : string) (reasons : list (string * nat)) : list (string * nat) :=
  match reasons with
  | [] => [(r, 1)]
  | (k, n) :: reasons => if bool_decide (k = r) then (k, S n) :: reasons else (k, n) :: countReason r reasons
  end.

Definition checkSchemaConformance (candles : list NormalizedCandle) : StructuralCheck :=
  let bad := List.filter (fun c => match rowReasons c with [] => false | _ => true end) candles in
  let badRows := length bad in
  let reasons := foldl (fun acc r => countReason r acc) [] (List.flat_map rowReasons candles) in
  let samples := List.map (fun c => toISOString (nc_ts c)) (take SAMPLE_CAP bad) in
  let passed := (badRows =? 0)%nat in
  weighted "schema_conformance" W_SCHEMA passed
    (if passed then "all " +:+ countText (length candles) +:+ " rows conform"
     else countText badRows +:+ "/" +:+ countText (length candles) +:+ " rows violate schema ("
          +:+ join ", " (List.map (fun kv => fst kv +:+ ":" +:+ countText (snd kv)) reasons) +:+ ");" +:+ sampleList samples).

Definition duplicateKey (c : NormalizedCandle) : string :=
  nc_exchange c +:+ "|" +:+ nc_symbol c +:+ "|" +:+ showTimeframe (nc_timeframe c) +:+ "|" +:+ numToString (nint (nc_ts c)).

(** The rows whose key an earlier row has. *)
Fixpoint repeated (seen : list string) (candles : list NormalizedCandle) : list NormalizedCandle :=
  match candles with
  | [] => []
  | c :: candles =>
      let key := duplicateKey c in
      if bool_decide (key ∈ seen) then c :: repeated seen candles else repeated (key :: seen) candles
  end.

Definition checkDuplicates (candles : list NormalizedCandle) : StructuralCheck :=
  let rows := repeated [] candles in
  let passed := (length rows =? 0)%nat in
  weighted "duplicates" W_DUPLICATES passed
    (if passed then "no duplicate keys in " +:+ countText (length candles) +:+ " rows"
     else countText (length rows) +:+ " duplicate row(s) by (exchange,symbol,timeframe,ts);"
          +:+ sampleList (List.map (fun c => toISOString (nc_ts c)) (take SAMPLE_CAP rows))).

(** The rows before their predecessor, or off the grid: whether each is unsorted, off grid. *)
Fixpoint timestampFlags (gridMs : Z) (prev : option Z) (candles : list NormalizedCandle) : list (bool * bool * Z) :=
  match candles with
  | [] => []
  | c :: candles =>
      let ms := nc_ts c in
      (match prev with Some p => (ms <? p)%Z | None => false end, negb (ms mod gridMs =? 0)%Z, ms)
      :: timestampFlags gridMs (Some ms) candles
  end.

Definition countFlags {A} (f : A -> bool) (l : list A) : nat := length (List.filter f l).

Definition checkTimestampMonotonic (candles : list NormalizedCandle) (timeframe : Timeframe) : StructuralCheck :=
  let flags := timestampFlags (TIMEFRAME_MS timeframe) None candles in
  let unsorted := countFlags (fun f => fst (fst f)) flags in
  let offGrid := countFlags (fun f => snd (fst f)) flags in
  let bad := List.filter (fun f => fst (fst f) || snd (fst f)) flags in
  let passed := (unsorted =? 0)%nat && (offGrid =? 0)%nat in
  weighted "timestamp_monotonic" W_MONOTONIC passed
    (if passed then "all " +:+ countText (length candles) +:+ " timestamps sorted and grid-aligned ("
                    +:+ showTimeframe timeframe +:+ ")"
     else "unsorted:" +:+ countText unsorted +:+ ", off_grid:" +:+ countText offGrid +:+ " of "
          +:+ countText (length candles) +:+ " rows;"
          +:+ sampleList (List.map (fun f => toISOString (snd f)) (take SAMPLE_CAP bad))).

Definition totalMissing (gaps : list CandleGap) : nat := foldr (fun g n => cg_missingBars g + n) 0 gaps.

(** The percentage of the expected bars that is missing, and what it deducts. *)
Definition missingPct (missing expected : nat) : number :=
  nmul (ndiv (nint (Z.of_nat missing)) (nint (Z.of_nat expected))) (nint 100).

Definition gapDeduction (missing expected : nat) : number :=
  if (missing =? 0)%nat then nint 0 else nmin (nint W_GAPS) (nceil (nmul (missingPct missing expected) (ndec 25 1))).

Definition gapText (g : CandleGap) : string :=
  toISOString (cg_from g) +:+ ".." +:+ toISOString (cg_to g) +:+ "(" +:+ countText (cg_missingBars g) +:+ ")".

Definition checkGaps (candles : list NormalizedCandle) (timeframe : Timeframe) (from to : Z) : StructuralCheck :=
  let gridMs := TIMEFRAME_MS timeframe in
  let expected := slots gridMs (firstAligned gridMs from) to in
  if (expected =? 0)%nat then
    weighted "gaps" W_GAPS true "window [from,to) contains no expected bars"
  else
    let gaps := detectCandleGaps (List.map nc_ts candles) timeframe from to in
    let missing := totalMissing gaps in
    {|
      ck_check := "gaps";
      ck_passed := (missing =? 0)%nat;
      ck_deduction := gapDeduction missing expected;
      ck_detail :=
        if (missing =? 0)%nat then "0 missing of " +:+ countText expected +:+ " expected bars"
        else countText missing +:+ " missing of " +:+ countText expected +:+ " expected bars ("
             +:+ toFixed (missingPct missing expected) 2 +:+ "%) in " +:+ countText (length gaps)
             +:+ " gap(s); samples=[" +:+ join ", " (List.map gapText (take SAMPLE_CAP gaps)) +:+ "]";
      ck_category := None
    |}.

Definition checkCandleBatch (candles : list NormalizedCandle) (timeframe : Timeframe) (from to : Z) :
    list StructuralCheck :=
  [checkSchemaConformance candles; checkDuplicates candles; checkTimestampMonotonic candles timeframe;
   checkGaps candles timeframe from to].

(** ** score.ts *)

Definition totalDeduction (checks : list StructuralCheck) : number :=
  foldl (fun acc c => nadd acc (if ck_passed c then nint 0 else ck_deduction c)) (nint 0) checks.

Definition scoreChecks (checks : list StructuralCheck) : number * DqStatus :=
  let score := nmax (nint 0) (nsub (nint 100) (totalDeduction checks)) in
  (score, if nge score MIN_DATA_QUALITY_SCORE then DQ_PASSED else DQ_FAILED).

(** ** hash.ts *)

(** canonicalize, of a value whose Dates are already their ISO texts; the keys of the rows
    are not array indices, so an object keeps the order they are assigned in. *)
Fixpoint canonicalize (v : Json) : Json :=
  match v with
  | J_array l => J_array (List.map canonicalize l)
  | J_object fs =>
      let fs' := List.map (fun kv => let '(k, v) := kv in (k, canonicalize v)) fs in
      J_object (List.filter (fun kv => match snd kv with J_undefined => false | _ => true end)
        (List.map (fun k => (k, field k fs')) (sortStrings (List.map fst fs'))))
  | _ => v
  end.

Definition candleJson (c : NormalizedCandle) : Json :=
  J_object ([
    ("exchange", J_string (nc_exchange c)); ("symbol", J_string (nc_symbol c)); ("assetType", J_string (nc_assetType c));
    ("timeframe", J_string (showTimeframe (nc_timeframe c))); ("ts", J_string (toISOString (nc_ts c)));
    ("open", J_string (nc_open c)); ("high", J_string (nc_high c)); ("low", J_string (nc_low c));
    ("close", J_string (nc_close c)); ("volume", J_string (nc_volume c))]
    ++ match nc_trades c with Some n => [("trades", J_number n)] | None => [] end).

Definition computeDatasetHash (sha256 : string -> string) (rows : list Json) : string :=
  sha256 (stringify (canonicalize (J_array rows))).

(** ** stage-b-client.ts *)

Definition STAGE_B_UNAVAILABLE_DEDUCTION : Z := 15.

Definition stageBUnavailable (reason : string) (category : StageBFailureCategory) : StructuralCheck := {|
  ck_check := "stage_b_unavailable";
  ck_passed := false;
  ck_deduction := nint STAGE_B_UNAVAILABLE_DEDUCTION;
  ck_detail := "statistical checks unavailable (fail-closed): " +:+ reason;
  ck_category := Some category |}.

Definition categoryOf (v : Json) : option StageBFailureCategory :=
  match v with
  | J_string s => if bool_decide (s = "INFRA") then Some SB_INFRA else if bool_decide (s = "AUTH") then Some SB_AUTH else None
  | _ => None
  end.

(** isStructuralCheck: the check a value is. *)
Definition structuralCheck (v : Json) : option StructuralCheck :=
  match prop "check" v, prop "passed" v, prop "deduction" v, prop "detail" v with
  | J_string check, J_boolean passed, J_number deduction, J_string detail =>
      if isFinite deduction then
        Some {| ck_check := check; ck_passed := passed; ck_deduction := deduction; ck_detail := detail;
                ck_category := categoryOf (prop "category" v) |}
      else None
  | _, _, _, _ => None
  end.

Definition parseStageBResponse (payload : Json) : option (list StructuralCheck) :=
  let arr := match payload with
    | J_array l => Some l
    | J_object fs => match field "checks" fs with J_array l => Some l | _ => None end
    | _ => None
    end in
  match arr with Some l => mapM structuralCheck l | None => None end.

(** What the exchange with the service answers. *)
Inductive StageBAnswer :=
| RequestFailed (reason : string)
| StageBResponse (status : Z) (body : string).

(** StageBAuthError, or the checks. *)
Definition stageBChecks (syntaxError : string -> string) (answer : StageBAnswer) : Z + list StructuralCheck :=
  match answer with
  | RequestFailed reason => inr [stageBUnavailable reason SB_INFRA]
  | StageBResponse status body =>
      if (status =? 401)%Z || (status =? 403)%Z then inl status
      else if negb ((200 <=? status)%Z && (status <=? 299)%Z) then
        inr [stageBUnavailable ("HTTP " +:+ numToString (nint status)) SB_INFRA]
      else
        match JSON_parse body with
        | None => inr [stageBUnavailable (syntaxError body) SB_INFRA]
        | Some payload =>
            match parseStageBResponse payload with
            | None => inr [stageBUnavailable "malformed response payload" SB_INFRA]
            | Some checks => inr checks
            end
        end
  end.

(** ** index.ts *)

Record QualityScope := { qc_exchange : string; qc_symbol : string; qc_timeframe : Timeframe; qc_from : Z; qc_to : Z }.

(** A row of the report table. *)
Record ReportRow := {
  rw_scope : QualityScope; rw_score : number; rw_status : DqStatus; rw_checks : list StructuralCheck; rw_datasetHash : string
}.

Record QualityReport := {
  qr_id : string; qr_score : number; qr_status : DqStatus; qr_datasetHash : string; qr_stageBHealth : option string
}.

Record QualityOps (X W : Type) := {
  qo_stageB : list NormalizedCandle -> M X W StageBAnswer;
  qo_createReport : ReportRow -> M X W string;
  qo_authError : Z -> X
}.
Arguments qo_stageB {X W}.
Arguments qo_createReport {X W}.
Arguments qo_authError {X W}.

Section gateway.
Context {X W : Type} (syntaxError sha256 : string -> string) (ops : QualityOps X W) (quantBaseUrl : option string).

Definition fetchStageBChecks (candles : list NormalizedCandle) : M X W (list StructuralCheck) :=
  match quantBaseUrl with
  | None | Some "" => ret [stageBUnavailable "quantBaseUrl not configured" SB_INFRA]
  | Some _ =>
      let! answer := qo_stageB ops candles in
      match stageBChecks syntaxError answer with
      | inl status => throw (qo_authError ops status)
      | inr checks => ret checks
      end
  end.

Definition infraHealth (stageB : list StructuralCheck) : option string :=
  ck_detail <$> List.find (fun c => bool_decide (ck_check c = "stage_b_unavailable")
                                    && bool_decide (ck_category c = Some SB_INFRA)) stageB.

Definition validateAndReport (scope : QualityScope) (candles : list NormalizedCandle) : M X W QualityReport :=
  let stageA := checkCandleBatch candles (qc_timeframe scope) (qc_from scope) (qc_to scope) in
  let! stageB := fetchStageBChecks candles in
  let checks := stageA ++ stageB in
  let '(score, status) := scoreChecks checks in
  let datasetHash := computeDatasetHash sha256 (List.map candleJson candles) in
  let! id := qo_createReport ops {| rw_scope := scope; rw_score := score; rw_status := status; rw_checks := checks;
                                    rw_datasetHash := datasetHash |} in
  ret {| qr_id := id; qr_score := score; qr_status := status; qr_datasetHash := datasetHash;
         qr_stageBHealth := infraHealth stageB |}.
End gateway.

Lemma TIMEFRAME_MS_pos t : (0 < TIMEFRAME_MS t)%Z.
Proof. by destruct t. Qed.
