(* ===== verification/QualityProps.v ===== *)
(** * QualityProps: what the data-quality gateway promises

    First the lemmas: the scan of the timeframe grid, what the structural checks say about
    the rows, and the arithmetic of the score.  Then the properties of the reports. *)

From stdpp Require Import gmap.
From S2P Require Import Prelude JsNumber JsNumberFacts JsText Served JsDecimal JsDecimalFacts Json JsonFacts Effects.
From S2P Require Import Signals MarketState Quality.

Local Open Scope string_scope.
Local Open Scope list_scope.

(** ** The grid *)

(** The slots of n passes from ms. *)
Fixpoint slotList (gridMs : Z) (n : nat) (ms : Z) : list Z :=
  match n with O => [] | S n => ms :: slotList gridMs n (ms + gridMs) end.

Lemma slotList_snoc g n ms : slotList g (S n) ms = slotList g n ms ++ [(ms + Z.of_nat n * g)%Z].
Proof.
  revert ms. induction n as [|n IH]; intros ms; [simpl; do 2 f_equal; lia|].
  change (slotList g (S (S n)) ms) with (ms :: slotList g (S n) (ms + g)). rewrite IH. simpl. do 3 f_equal. lia.
Qed.

Lemma slotList_length g n ms : length (slotList g n ms) = n.
Proof. revert ms. induction n as [|n IH]; intros ms; simpl; [done|by rewrite IH]. Qed.

Lemma elem_of_slotList g n ms x : (0 < g)%Z ->
  x ∈ slotList g n ms <-> exists i, (0 <= i < Z.of_nat n)%Z /\ x = (ms + i * g)%Z.
Proof.
  intros Hg. revert ms. induction n as [|n IH]; intros ms; simpl.
  { split; [intros H; by apply not_elem_of_nil in H|intros (i & ? & _); lia]. }
  rewrite elem_of_cons, IH. split.
  - intros [->|(i & ? & ->)]; [exists 0%Z; lia|exists (i + 1)%Z; lia].
  - intros (i & ? & ->). destruct (Z.eq_dec i 0) as [->|]; [left; lia|right; exists (i - 1)%Z; lia].
Qed.

Lemma slotList_sorted g n ms : (0 < g)%Z -> Sorted Z.lt (slotList g n ms).
Proof.
  intros Hg. revert ms. induction n as [|n IH]; intros ms; simpl; [constructor|]. constructor; [apply IH|].
  destruct n; simpl; constructor. lia.
Qed.

Lemma ceilDiv_spec a b : (0 < b)%Z -> (a <= ceilDiv a b * b < a + b)%Z.
Proof. intros Hb. unfold ceilDiv. pose proof (Z.div_mod (- a) b ltac:(lia)). pose proof (Z.mod_pos_bound (- a) b Hb). nia. Qed.

(** The slots the gap scan visits are the grid times of the window. *)
Lemma expected_slots g from to x : (0 < g)%Z ->
  x ∈ slotList g (slots g (firstAligned g from) to) (firstAligned g from) <-> (x mod g = 0 /\ from <= x < to)%Z.
Proof.
  intros Hg. rewrite elem_of_slotList by done. unfold slots, firstAligned.
  set (c := ceilDiv from g). pose proof (ceilDiv_spec from g Hg) as Hc. fold c in Hc.
  pose proof (ceilDiv_spec (to - c * g) g Hg) as Hn. set (n := ceilDiv (to - c * g) g) in *. split.
  - intros (i & Hi & ->). rewrite <- Z.mul_add_distr_r. split; [by apply Z.mod_mul; lia|].
    assert (i < n)%Z by lia. assert (i * g <= (n - 1) * g)%Z by (apply Z.mul_le_mono_nonneg_r; lia).
    assert (0 <= i * g)%Z by (apply Z.mul_nonneg_nonneg; lia). lia.
  - intros [Hm Hx]. exists (x / g - c)%Z. pose proof (Z.div_mod x g ltac:(lia)) as Hd. rewrite Hm in Hd.
    assert (c <= x / g)%Z by nia. assert (x / g - c < n)%Z by nia. split; [lia|]. lia.
Qed.

(** The bars of a gap. *)
Definition barsOf (g : Z) (gap : CandleGap) : list Z := slotList g (cg_missingBars gap) (cg_from gap).

Definition runBars (g : Z) (run : option (Z * nat)) : list Z :=
  match run with Some (start, bars) => slotList g bars start | None => [] end.

(** The open run ends where the scan is. *)
Definition runEnds (g ms : Z) (run : option (Z * nat)) : Prop :=
  match run with Some (start, bars) => (start + Z.of_nat bars * g)%Z = ms /\ 0 < bars | None => True end.

(** The gaps list the absent slots in order. *)
Lemma scanSlots_bars g present n ms run : runEnds g ms run ->
  List.flat_map (barsOf g) (scanSlots g present n ms run)
  = runBars g run ++ List.filter (fun x => negb (present x)) (slotList g n ms).
Proof.
  revert ms run. induction n as [|n IH]; intros ms run Hr; simpl.
  { rewrite app_nil_r. destruct run as [[start bars]|]; [|done]. simpl. by rewrite app_nil_r. }
  destruct (present ms); simpl.
  - rewrite List.flat_map_app, IH by done. simpl. destruct run as [[start bars]|]; simpl; by rewrite ?app_nil_r.
  - destruct run as [[start bars]|]; simpl in Hr.
    + destruct Hr as [Hr Hb]. rewrite IH by (split; lia). cbn [runBars]. rewrite slotList_snoc, Hr, <- app_assoc. done.
    + rewrite IH by (split; [simpl; lia|lia]). done.
Qed.

(** Every gap is a nonempty run of bars, and a present slot separates two gaps. *)
Definition gapShape (g : Z) (gap : CandleGap) : Prop :=
  0 < cg_missingBars gap /\ cg_to gap = (cg_from gap + Z.of_nat (cg_missingBars gap) * g)%Z.

Lemma scanSlots_shape g present n ms run : (0 < g)%Z -> runEnds g ms run ->
  let gaps := scanSlots g present n ms run in
  Forall (gapShape g) gaps /\ Sorted (fun a b => (cg_to a < cg_from b)%Z) gaps
  /\ Forall (fun gap => (match run with Some (start, _) => start | None => ms end <= cg_from gap)%Z) gaps.
Proof.
  intros Hg. revert ms run. induction n as [|n IH]; intros ms run Hr; simpl.
  { destruct run as [[start bars]|]; [|by repeat constructor]. destruct Hr as [_ Hb]. repeat constructor; simpl; lia. }
  destruct (present ms); simpl.
  - destruct (IH (ms + g)%Z None I) as (H1 & H2 & H3). destruct run as [[start bars]|]; simpl.
    + destruct Hr as [Hr Hb]. split; [constructor; [split; simpl; [lia|done]|done]|]. split.
      * constructor; [done|]. destruct (scanSlots _ _ _ _ _) as [|b l]; constructor. apply Forall_inv in H3. simpl. lia.
      * constructor; [simpl; lia|]. eapply Forall_impl; [exact H3|]. simpl. nia.
    + split; [done|]. split; [done|]. eapply Forall_impl; [exact H3|]. simpl. lia.
  - destruct run as [[start bars]|]; simpl in Hr.
    + destruct Hr as [Hr Hb]. apply IH. split; lia.
    + apply IH. split; [simpl; lia|lia].
Qed.

Lemma totalMissing_bars g gaps : totalMissing gaps = length (List.flat_map (barsOf g) gaps).
Proof.
  induction gaps as [|gap gaps IH]; [done|]. simpl. rewrite length_app, IH.
  assert (length (barsOf g gap) = cg_missingBars gap) as -> by apply slotList_length. done.
Qed.

(** A slot of the window is filled exactly by its timestamp. *)
Lemma presentSlots_spec g first endMs ts x :
  x ∈ presentSlots g first endMs ts <-> x ∈ ts /\ (x mod g = 0 /\ first <= x < endMs)%Z.
Proof.
  unfold presentSlots. rewrite elem_of_list_to_set, list_elem_of_In, filter_In, <- list_elem_of_In, !andb_true_iff,
    Z.eqb_eq, Z.leb_le, Z.ltb_lt. tauto.
Qed.

(** ** The structural checks *)

(** A row in order: finite decimals, no negative price or volume, open and close between
    low and high. *)
Definition conforming (c : NormalizedCandle) : Prop :=
  let open := stringToNumber (nc_open c) in
  let high := stringToNumber (nc_high c) in
  let low := stringToNumber (nc_low c) in
  let close := stringToNumber (nc_close c) in
  let volume := stringToNumber (nc_volume c) in
  Forall (fun x => isFinite x = true /\ nle (nint 0) x = true) [open; high; low; close; volume]
  /\ nle low high = true /\ nle low open = true /\ nle open high = true /\ nle low close = true /\ nle close high = true.

Lemma nle_of_nlt x y : isFinite x = true -> isFinite y = true -> nlt x y = false -> nle y x = true.
Proof. intros Hx Hy. rewrite nlt_sv, nle_sv by done. rewrite Z.ltb_ge, Z.leb_le. done. Qed.

Lemma rowReasons_nil c : rowReasons c = [] -> conforming c.
Proof.
  unfold rowReasons. destruct (List.filter _ _) eqn:EF; [|done].
  assert (forall n s, (n, s) ∈ [("open", nc_open c); ("high", nc_high c); ("low", nc_low c); ("close", nc_close c); ("volume", nc_volume c)]
    -> isFinite (stringToNumber s) = true) as HF.
  { intros n s Hin. destruct (isFiniteDecimalString s) eqn:Es.
    - unfold isFiniteDecimalString in Es. by destruct (bool_decide (trim s = "")).
    - exfalso. assert ((n, s) ∈ []) as Hbad by (rewrite <- EF; apply list_elem_of_In, filter_In; split;
        [by apply list_elem_of_In|simpl; by rewrite Es]). by apply not_elem_of_nil in Hbad. }
  pose proof (HF "open" (nc_open c) ltac:(set_solver)) as F1. pose proof (HF "high" (nc_high c) ltac:(set_solver)) as F2.
  pose proof (HF "low" (nc_low c) ltac:(set_solver)) as F3. pose proof (HF "close" (nc_close c) ltac:(set_solver)) as F4.
  pose proof (HF "volume" (nc_volume c) ltac:(set_solver)) as F5. clear HF EF.
  unfold conforming. revert F1 F2 F3 F4 F5. cbv zeta.
  generalize (stringToNumber (nc_open c)) (stringToNumber (nc_high c)) (stringToNumber (nc_low c))
    (stringToNumber (nc_close c)) (stringToNumber (nc_volume c)). intros o h l cl v F1 F2 F3 F4 F5 H.
  destruct (nlt o (nint 0) || nlt h (nint 0) || nlt l (nint 0) || nlt cl (nint 0)) eqn:E1; [done|].
  destruct (nlt h l) eqn:E2; [done|]. destruct (nlt o l || ngt o h) eqn:E3; [done|].
  destruct (nlt cl l || ngt cl h) eqn:E4; [done|]. destruct (nlt v (nint 0)) eqn:E5; [done|]. unfold ngt in *. bool_hyps.
  split; [repeat (apply Forall_cons; split); try apply Forall_nil_2; (split; [done|by apply nle_of_nlt])|].
  split_and!; by apply nle_of_nlt.
Qed.

Lemma schema_passed candles : ck_passed (checkSchemaConformance candles) = true -> Forall conforming candles.
Proof.
  unfold checkSchemaConformance. cbn [ck_passed weighted]. rewrite Nat.eqb_eq. intros H.
  apply Forall_forall. intros c Hc. apply rowReasons_nil. destruct (rowReasons c) eqn:E; [done|]. exfalso.
  apply nil_length_inv in H. assert (c ∈ []) as Hbad by (rewrite <- H; apply list_elem_of_In, filter_In; split;
    [by apply list_elem_of_In|by rewrite E]). by apply not_elem_of_nil in Hbad.
Qed.

Lemma repeated_nil seen candles :
  repeated seen candles = [] -> NoDup (List.map duplicateKey candles) /\ Forall (fun c => duplicateKey c ∉ seen) candles.
Proof.
  revert seen. induction candles as [|c candles IH]; intros seen; simpl; [by repeat constructor|].
  case_bool_decide as Hc; [done|]. intros H. apply IH in H as [HN HF]. split.
  - constructor; [|done]. intros (c' & E & Hc')%list_elem_of_fmap. rewrite Forall_forall in HF.
    apply (HF c' Hc'). rewrite <- E. left.
  - constructor; [done|]. eapply Forall_impl; [exact HF|]. intros c' Hn Hs. apply Hn. by right.
Qed.

(** The key of a row, as a tuple. *)
Definition rowKey (c : NormalizedCandle) : string * string * Timeframe * Z :=
  (nc_exchange c, nc_symbol c, nc_timeframe c, nc_ts c).

Lemma duplicates_passed candles : ck_passed (checkDuplicates candles) = true -> NoDup (List.map rowKey candles).
Proof.
  unfold checkDuplicates. cbn [ck_passed weighted]. rewrite Nat.eqb_eq. intros H%nil_length_inv.
  apply repeated_nil in H as [HN _]. clear -HN. induction candles as [|c candles IH]; [constructor|].
  apply NoDup_cons in HN as [Hc HN]. constructor; [|by apply IH].
  intros (c' & E & Hc')%list_elem_of_fmap. apply Hc, list_elem_of_fmap. exists c'. split; [|done].
  unfold rowKey in E. injection E as E1 E2 E3 E4. unfold duplicateKey. by rewrite E1, E2, E3, E4.
Qed.

Lemma countFlags_zero {A} (f : A -> bool) l : countFlags f l = 0 <-> Forall (fun a => f a = false) l.
Proof.
  unfold countFlags. induction l as [|a l IH]; [by split|]. simpl. rewrite Forall_cons. destruct (f a); simpl; [|tauto].
  split; [done|]. by intros [? _].
Qed.

Lemma timestampFlags_ok g prev candles :
  Forall (fun f => fst (fst f) = false) (timestampFlags g prev candles) ->
  Forall (fun f => snd (fst f) = false) (timestampFlags g prev candles) ->
  Sorted Z.le (match prev with Some p => [p] | None => [] end ++ List.map nc_ts candles)
  /\ Forall (fun c => (nc_ts c mod g = 0)%Z) candles.
Proof.
  revert prev. induction candles as [|c candles IH]; intros prev; simpl; [split; [destruct prev|]; by repeat constructor|].
  rewrite !Forall_cons. simpl. intros [H1 H2] [H3 H4]. destruct (IH _ H2 H4) as [HS HF].
  apply negb_false_iff, Z.eqb_eq in H3. split; [|by constructor].
  destruct prev as [p|]; [|done]. simpl in *. apply Z.ltb_ge in H1. constructor; [done|by constructor].
Qed.

Lemma monotonic_passed candles timeframe :
  ck_passed (checkTimestampMonotonic candles timeframe) = true ->
  Sorted Z.le (List.map nc_ts candles) /\ Forall (fun c => (nc_ts c mod TIMEFRAME_MS timeframe = 0)%Z) candles.
Proof.
  unfold checkTimestampMonotonic. cbn [ck_passed weighted]. rewrite andb_true_iff, !Nat.eqb_eq, !countFlags_zero.
  intros [H1 H2]. by apply (timestampFlags_ok _ None).
Qed.

(** ** The score *)

(** What a check may deduct. *)
Definition soundDeduction (c : StructuralCheck) : Prop :=
  ck_passed c = true
  \/ wf_number (ck_deduction c) /\ isFinite (ck_deduction c) = true /\ nle (nint 0) (ck_deduction c) = true.

Lemma wf_nint z : wf_number (nint z).
Proof. apply rnd_wf; lia. Qed.

Lemma totalDeduction_snoc checks c :
  totalDeduction (checks ++ [c]) = nadd (totalDeduction checks) (if ck_passed c then nint 0 else ck_deduction c).
Proof. unfold totalDeduction. by rewrite foldl_app. Qed.

(** The total is at least every deduction it is made of. *)
Lemma totalDeduction_bounds checks :
  Forall soundDeduction checks ->
  wf_number (totalDeduction checks) /\ isNaN (totalDeduction checks) = false /\ nle (nint 0) (totalDeduction checks) = true
  /\ Forall (fun c => ck_passed c = true \/ nle (ck_deduction c) (totalDeduction checks) = true) checks.
Proof.
  induction checks as [|c checks IH] using rev_ind; intros HF.
  { split; [apply wf_nint|]. split; [done|]. split; [evaluate|constructor]. }
  apply Forall_app in HF as [HF Hc]. apply Forall_inv in Hc. destruct (IH HF) as (W & N & P & HB).
  rewrite totalDeduction_snoc. set (d := if ck_passed c then nint 0 else ck_deduction c).
  assert (wf_number d /\ isFinite d = true /\ nle (nint 0) d = true) as (Wd & Fd & Pd).
  { assert (wf_number (nint 0) /\ isFinite (nint 0) = true /\ nle (nint 0) (nint 0) = true) as H0
      by (split; [apply wf_nint|split; [done|evaluate]]).
    unfold d. unfold soundDeduction in Hc. 
    destruct (ck_passed c); [exact H0|]. destruct Hc as [Hc|Hc]; [done|exact Hc]. }
  destruct (nadd_nonneg (totalDeduction checks) d) as (N' & L1 & L2); try done.
  split; [by apply nadd_wf|]. split; [done|]. split; [by eapply nle_trans|]. apply Forall_app. split.
  - eapply Forall_impl; [exact HB|]. intros c' [?|?]; [by left|right]. by eapply nle_trans.
  - apply Forall_singleton. unfold d in L2. destruct (ck_passed c); [by left|by right].
Qed.

Lemma sv_nint z : (0 <= z < 2 ^ 53)%Z -> sv (nint z) = (2 ^ 1074 * z)%Z.
Proof. intros H. by apply nint_sv. Qed.

(** What is left of 100 after a total of at least t points. *)
Lemma score_after total t :
  (0 <= t <= 100)%Z -> wf_number total -> isNaN total = false -> nle (nint 0) total = true -> nle (nint t) total = true ->
  nle (nsub (nint 100) total) (nint (100 - t)) = true.
Proof.
  intros Ht Wt N P H. destruct (nint_sv t ltac:(lia)) as [F1 S1]. destruct (nint_sv 100 ltac:(lia)) as [F2 S2].
  destruct (nint_sv (100 - t) ltac:(lia)) as [F3 S3].
  destruct (isFinite total) eqn:Ft; [|destruct total as [|[]|]; try done; by destruct (nint (100 - t))].
  rewrite nle_sv in H, P by done. apply Z.leb_le in H, P. change (sv (nint 0)) with 0%Z in P. rewrite S1 in H.
  pose proof (pow2_pos 1074 ltac:(lia)) as Hp.
  assert (isFinite (nsub (nint 100) total) = true) as F.
  { unfold nsub. destruct (Z.le_gt_cases (2 ^ 1074 * 50) (sv total)).
    - apply (nadd_finite _ _ total); rewrite ?nneg_finite, ?nneg_sv; try done. rewrite S2. lia.
    - apply (nadd_finite _ _ (nint 100)); rewrite ?nneg_finite, ?nneg_sv; try done. rewrite S2. lia. }
  rewrite nle_sv by done. apply Z.leb_le. unfold nsub in *. rewrite nadd_sv by (rewrite ?nneg_finite; done). rewrite nneg_sv, S2, S3.
  rewrite <- (RS_repr (2 ^ 1074 * (100 - t))%Z).
  - apply RS_mono. lia.
  - rewrite Z.abs_eq by lia. apply repr_small. lia.
Qed.

(** A score of sound deductions lies in [0, 100]; it PASSES only below eleven points. *)
Lemma scoreChecks_sound checks :
  Forall soundDeduction checks ->
  let '(score, status) := scoreChecks checks in
  nle (nint 0) score = true /\ nle score (nint 100) = true
  /\ (status = DQ_PASSED -> Forall (fun c => ck_passed c = true \/ nlt (ck_deduction c) (nint 11) = true) checks).
Proof.
  intros HF. destruct (totalDeduction_bounds checks HF) as (W & N & P & HB). unfold scoreChecks. cbv zeta.
  pose proof (score_after (totalDeduction checks) 0 ltac:(lia) W N P P) as H0. change (100 - 0)%Z with 100%Z in H0.
  pose proof (score_after (totalDeduction checks) 11 ltac:(lia) W N P) as H11. change (100 - 11)%Z with 89%Z in H11.
  assert (isNaN (nsub (nint 100) (totalDeduction checks)) = false) as Ns by (by destruct (nsub _ _)).
  revert H0 H11 Ns. generalize (nsub (nint 100) (totalDeduction checks)). intros x H0 H11 Ns.
  assert (nle (nint 0) (nmax (nint 0) x) = true /\ nle x (nmax (nint 0) x) = true
    /\ (nmax (nint 0) x = nint 0 \/ nmax (nint 0) x = x)) as (M1 & M2 & M3).
  { unfold nmax. rewrite Ns. simpl (isNaN (nint 0) || false).
    destruct (nlt (nint 0) x) eqn:E1; [split_and!; [by apply nlt_nle|by apply nle_refl|by right]|].
    destruct (nlt x (nint 0)) eqn:E2; [split_and!; [done|by apply nlt_nle|by left]|].
    rewrite nlt_negb_nle in E1, E2 by done. apply negb_false_iff in E1, E2.
    destruct (isNegZero (nint 0)); split_and!; try done; try (by apply nle_refl); first [by left|by right]. }
  split; [done|]. split; [destruct M3 as [->| ->]; [evaluate|done]|].
  destruct (nge _ _) eqn:E; [|done]. intros _. eapply Forall_impl; [exact HB|]. intros c [?|Hc]; [by left|right].
  assert (nle (nint 11) (totalDeduction checks) = false) as HT.
  { destruct (nle (nint 11) (totalDeduction checks)); [|done]. specialize (H11 eq_refl). unfold nge in E.
    assert (nle (nint 90) (nint 89) = true); [|done].
    destruct M3 as [M3|M3]; rewrite M3 in E; [done|]. by eapply nle_trans. }
  assert (isNaN (ck_deduction c) = false) as Nc by (by destruct (ck_deduction c)).
  rewrite nlt_negb_nle by done. apply negb_true_iff. destruct (nle (nint 11) (ck_deduction c)) eqn:E2; [|done].
  rewrite <- HT. symmetry. by eapply nle_trans.
Qed.

(** ** The deductions of the structural checks *)

Lemma nint_plus z : (0 <= z)%Z -> has_sign false (nint z).
Proof. intros H. unfold nint. destruct (Z.ltb_spec z 0); [lia|apply rnd_sign]. Qed.

Lemma ndiv_plus x y :
  has_sign false x -> has_sign false y -> isFinite x = true -> isFinite y = true -> sv y <> 0%Z -> has_sign false (ndiv x y).
Proof.
  destruct x as [| |s m k], y as [| |t n j]; try done. intros -> -> _ _ Hy. simpl.
  destruct (N.eqb_spec n 0) as [->|]; [by destruct Hy; unfold sv, mag; simpl; lia|apply rnd_sign].
Qed.

Lemma nmul_plus x y : has_sign false x -> has_sign false y -> isFinite y = true -> sv y <> 0%Z -> has_sign false (nmul x y).
Proof.
  destruct x as [|s|s m k], y as [| |t n j]; try done; intros -> -> _ Hy; simpl; [|apply rnd_sign].
  destruct (N.eqb_spec n 0) as [->|]; [by destruct Hy; unfold sv, mag; simpl; lia|done].
Qed.

Lemma nceil_plus x : has_sign false x -> wf_number x -> has_sign false (nceil x) /\ wf_number (nceil x).
Proof.
  destruct x as [|s|s m k]; [done|by split|]. intros -> _. unfold nceil. cbv zeta. pose proof (mag_nonneg m k).
  destruct (Z.eqb_spec (- (- sv (Num false m k) / 2 ^ 1074)) 0) as [|H0]; [split; [done|simpl; lia]|].
  split; [apply nint_plus|apply wf_nint]. pose proof (pow2_pos 1074 ltac:(lia)).
  assert (- sv (Num false m k) / 2 ^ 1074 <= 0)%Z; [|lia]. apply Z.div_le_upper_bound; simpl; lia.
Qed.

(** The smaller of a finite Number and one with a plus sign. *)
Lemma nmin_plus x y :
  has_sign false x -> isFinite x = true -> wf_number x -> has_sign false y -> wf_number y ->
  isFinite (nmin x y) = true /\ wf_number (nmin x y) /\ has_sign false (nmin x y).
Proof.
  intros Px Fx Wx Py Wy. unfold nmin. destruct x as [| |s m k]; [done|done|]. destruct y as [|t|t n j]; [done| |].
  - simpl in Py. by subst.
  - simpl (isNaN _ || isNaN _). cbv iota. repeat case_match; done.
Qed.

Lemma gapDeduction_sound missing expected :
  (0 < expected)%nat -> (Z.of_nat missing <= Z.of_nat expected < 2 ^ 53)%Z ->
  wf_number (gapDeduction missing expected) /\ isFinite (gapDeduction missing expected) = true
  /\ nle (nint 0) (gapDeduction missing expected) = true.
Proof.
  intros He Hm. unfold gapDeduction. destruct (missing =? 0)%nat; [split; [apply wf_nint|split; [done|evaluate]]|].
  destruct (nint_sv (Z.of_nat missing) ltac:(lia)) as [F1 S1]. destruct (nint_sv (Z.of_nat expected) ltac:(lia)) as [F2 S2].
  pose proof (pow2_pos 1074 ltac:(lia)) as Hp.
  assert (has_sign false (missingPct missing expected)) as P1.
  { apply nmul_plus; [apply ndiv_plus; [apply nint_plus; lia|apply nint_plus; lia|done|done|rewrite S2; nia]|done|done|].
    intros H. apply Z.eqb_eq in H. vm_compute in H. done. }
  assert (has_sign false (nmul (missingPct missing expected) (ndec 25 1))) as P2.
  { apply nmul_plus; [done|done|done|]. intros H. apply Z.eqb_eq in H. vm_compute in H. done. }
  destruct (nceil_plus _ P2 (nmul_wf _ _)) as [P3 W3].
  destruct (nmin_plus (nint W_GAPS) (nceil (nmul (missingPct missing expected) (ndec 25 1)))) as (F & W & P);
    [by apply nint_plus|done|apply wf_nint|done|done|].
  split; [done|]. split; [done|]. by apply has_sign_nonneg.
Qed.

Lemma weighted_sound check weight passed detail : (0 <= weight)%Z -> (weight < 2 ^ 53)%Z -> soundDeduction (weighted check weight passed detail).
Proof.
  intros H1 H2. destruct passed; [by left|right]. simpl. split; [apply wf_nint|]. split; [by apply nint_sv|].
  by apply has_sign_nonneg, nint_plus.
Qed.

(** The gap check never counts more missing bars than it expects. *)
Lemma missing_le_expected candles timeframe from to :
  let g := TIMEFRAME_MS timeframe in
  totalMissing (detectCandleGaps (List.map nc_ts candles) timeframe from to) <= slots g (firstAligned g from) to.
Proof.
  intros g. unfold detectCandleGaps. fold g. destruct (to <=? firstAligned g from)%Z; [simpl; lia|].
  rewrite (totalMissing_bars g), scanSlots_bars by done. simpl app.
  etransitivity; [apply filter_length_le|]. by rewrite slotList_length.
Qed.

Lemma checkCandleBatch_sound candles timeframe from to :
  (Z.of_nat (slots (TIMEFRAME_MS timeframe) (firstAligned (TIMEFRAME_MS timeframe) from) to) < 2 ^ 53)%Z ->
  Forall soundDeduction (checkCandleBatch candles timeframe from to).
Proof.
  intros Hs. repeat (apply Forall_cons; split); [by apply weighted_sound..| |apply Forall_nil_2].
  unfold checkGaps. destruct (Nat.eqb_spec (slots (TIMEFRAME_MS timeframe) (firstAligned (TIMEFRAME_MS timeframe) from) to) 0)
    as [|H0]; [by apply weighted_sound|]. right. cbn [ck_deduction]. apply gapDeduction_sound; [lia|].
  pose proof (missing_le_expected candles timeframe from to) as Hm. cbv zeta in Hm. lia.
Qed.

(** ** Sorting keys *)

Lemma strLeb_total a b : strLeb a b = true \/ strLeb b a = true.
Proof.
  unfold strLeb. destruct (String.compare a b) eqn:E; [by left|by left|right].
  rewrite String.compare_antisym, E. done.
Qed.

Lemma strLeb_antisym a b : strLeb a b = true -> strLeb b a = true -> a = b.
Proof.
  unfold strLeb. rewrite (String.compare_antisym b a). destruct (String.compare a b) eqn:E; simpl; try done.
  intros _ _. by apply String.compare_eq_iff.
Qed.

Lemma strLeb_trans a b c : strLeb a b = true -> strLeb b c = true -> strLeb a c = true.
Proof.
  unfold strLeb. pose proof (stringCompare_trans a b c) as H.
  destruct (String.compare a b), (String.compare b c); try done; intros _ _; by destruct (String.compare a c); [| |destruct H].
Qed.

Lemma insertSorted_comm a b l : insertSorted a (insertSorted b l) = insertSorted b (insertSorted a l).
Proof.
  assert (strLeb a b = true -> strLeb b a = true -> a = b) as Hab by apply strLeb_antisym.
  pose proof (strLeb_total a b) as Ht.
  induction l as [|x l IH]; simpl.
  - destruct (strLeb a b) eqn:E1, (strLeb b a) eqn:E2; try done; [by rewrite Hab|by destruct Ht].
  - destruct (strLeb b x) eqn:Eb, (strLeb a x) eqn:Ea; simpl; rewrite ?Ea, ?Eb.
    + destruct (strLeb a b) eqn:E1, (strLeb b a) eqn:E2; try done; [by rewrite Hab|by destruct Ht].
    + destruct (strLeb a b) eqn:E1; [|done]. by rewrite (strLeb_trans a b x) in Ea.
    + destruct (strLeb b a) eqn:E2; [|done]. by rewrite (strLeb_trans b a x) in Eb.
    + by rewrite IH.
Qed.

(** The sorted keys depend only on which keys there are. *)
#[export] Instance sortStrings_perm : Proper (Permutation ==> eq) sortStrings.
Proof.
  intros l l' H. induction H as [|k l l' H IH|a b l|l l' l'' H1 IH1 H2 IH2]; [done| | |].
  - unfold sortStrings in *. simpl. by rewrite IH.
  - apply insertSorted_comm.
  - by rewrite IH1.
Qed.

(** ** The properties of the gateway

    The gap scan is exact on the timeframe grid; a report that PASSED certifies the rows; a
    statistical service that is down or rejects the secret never lets a report pass; the
    dataset hash does not depend on the order of keys. *)

Local Open Scope eff_scope.

(** The gap scan is exact: the bars of its gaps are, in order, the grid times of the window
    that no timestamp fills; every gap is a nonempty run, with its end one bar past its
    last; and between two gaps some bar is present. *)
Theorem gaps_exact timestamps timeframe from to :
  let g := TIMEFRAME_MS timeframe in
  let gaps := detectCandleGaps timestamps timeframe from to in
  exists expected,
    (forall ms, ms ∈ expected <-> (ms mod g = 0 /\ from <= ms < to)%Z)
    /\ Sorted Z.lt expected
    /\ List.flat_map (barsOf g) gaps = List.filter (fun ms => negb (bool_decide (ms ∈ timestamps))) expected
    /\ Forall (gapShape g) gaps /\ Sorted (fun a b => (cg_to a < cg_from b)%Z) gaps
    /\ totalMissing gaps = length (List.flat_map (barsOf g) gaps).
Proof.
  intros g gaps. pose proof (TIMEFRAME_MS_pos timeframe) as Hg. fold g in Hg. set (first := firstAligned g from).
  exists (slotList g (slots g first to) first). split; [intros ms; by apply expected_slots|].
  split; [by apply slotList_sorted|]. split; [|split; [|split; [|apply totalMissing_bars]]].
  all: unfold gaps, detectCandleGaps; fold g first; destruct (Z.leb_spec to first) as [H0|H0].
  - unfold slots. assert (ceilDiv (to - first) g <= 0)%Z as Hc; [|by rewrite Z2Nat.nonpos].
    pose proof (ceilDiv_spec (to - first) g Hg). nia.
  - rewrite scanSlots_bars by done. simpl app. apply filter_ext_in. intros ms Hms%list_elem_of_In. f_equal.
    apply bool_decide_ext. rewrite presentSlots_spec. apply elem_of_slotList in Hms as Hi; [|done].
    apply (expected_slots g from to ms Hg) in Hms. destruct Hi as (i & Hi & ->). split; [tauto|]. intros H. split; [done|].
    split; [tauto|]. split; [|tauto]. assert (0 <= i * g)%Z by (apply Z.mul_nonneg_nonneg; lia). lia.
  - constructor.
  - by apply scanSlots_shape.
  - constructor.
  - by apply scanSlots_shape.
Qed.

(** ** Reports *)

Section gateway.
Context {X W : Type} (syntaxError sha256 : string -> string) (ops : QualityOps X W) (quantBaseUrl : option string).
(** The rows of the report table. *)
Context (reports : W -> list ReportRow).

(** The exchange writes no report, and a create that returns writes its own. *)
Record reportsLaw : Prop := {
  stageB_keeps candles w : reports (snd (qo_stageB ops candles w)) = reports w;
  create_writes row w : match qo_createReport ops row w with
    | (inr _, w') => reports w' = reports w ++ [row]
    | (inl _, w') => reports w' = reports w
    end
}.

(** The statistical service answered checks whose deductions are not negative. *)
Definition statisticsAnswered (candles : list NormalizedCandle) (w : W) (checks : list StructuralCheck) : Prop :=
  (exists url, quantBaseUrl = Some url /\ url <> "")
  /\ exists status body w1 payload, qo_stageB ops candles w = (inr (StageBResponse status body), w1)
     /\ (200 <= status <= 299)%Z /\ JSON_parse body = Some payload /\ parseStageBResponse payload = Some checks.

Definition stageBDown (checks : list StructuralCheck) : Prop := exists reason, checks = [stageBUnavailable reason SB_INFRA].

Lemma fetchStageBChecks_wp candles w :
  reportsLaw ->
  wp (fetchStageBChecks syntaxError ops quantBaseUrl candles)
    (fun r w' => reports w' = reports w
       /\ match r with inr checks => stageBDown checks \/ statisticsAnswered candles w checks | inl _ => True end) w.
Proof.
  intros HL. unfold fetchStageBChecks.
  destruct quantBaseUrl as [[|c url]|] eqn:EU; [split; [done|left; by eexists]| |split; [done|left; by eexists]].
  apply wp_bind. pose proof (stageB_keeps HL candles w) as HK. unfold wp.
  destruct (qo_stageB ops candles w) as [[x|answer] w1] eqn:EA; cbn [fst snd] in *; [by split|].
  unfold stageBChecks. destruct answer as [reason|status body]; [split; [done|left; by eexists]|].
  destruct (_ || _); [by split|]. destruct ((200 <=? status)%Z && (status <=? 299)%Z) eqn:ES; [|split; [done|left; by eexists]].
  simpl negb. cbv iota. destruct (JSON_parse body) as [payload|] eqn:EJ; [|split; [done|left; by eexists]].
  destruct (parseStageBResponse payload) as [checks|] eqn:EP; [|split; [done|left; by eexists]].
  split; [done|]. right. split; [by eexists|]. bool_hyps. exists status, body, w1, payload. split_and!; (done || lia).
Qed.

(** What a passed report certifies of the rows. *)
Definition certified (scope : QualityScope) (candles : list NormalizedCandle) : Prop :=
  Forall conforming candles /\ NoDup (List.map rowKey candles) /\ Sorted Z.le (List.map nc_ts candles)
  /\ Forall (fun c => (nc_ts c mod TIMEFRAME_MS (qc_timeframe scope) = 0)%Z) candles.

(** A passed score over the structural checks certifies the rows. *)
Lemma passed_certified scope candles stageB score :
  Forall soundDeduction stageB ->
  (Z.of_nat (slots (TIMEFRAME_MS (qc_timeframe scope)) (firstAligned (TIMEFRAME_MS (qc_timeframe scope)) (qc_from scope)) (qc_to scope))
   < 2 ^ 53)%Z ->
  scoreChecks (checkCandleBatch candles (qc_timeframe scope) (qc_from scope) (qc_to scope) ++ stageB) = (score, DQ_PASSED) ->
  certified scope candles /\ ~ stageBDown stageB.
Proof.
  intros HB Hs ES.
  assert (Forall soundDeduction (checkCandleBatch candles (qc_timeframe scope) (qc_from scope) (qc_to scope) ++ stageB)) as HF
    by (apply Forall_app; split; [by apply checkCandleBatch_sound|done]).
  pose proof (scoreChecks_sound _ HF) as HS. rewrite ES in HS. destruct HS as (_ & _ & HS). specialize (HS eq_refl).
  apply Forall_app in HS as [HA HSB]. unfold checkCandleBatch in HA. repeat rewrite Forall_cons in HA.
  destruct HA as (H1 & H2 & H3 & _ & _).
  assert (forall c weight, (11 <= weight < 2 ^ 53)%Z -> (ck_passed c = false -> ck_deduction c = nint weight) ->
    ck_passed c = true \/ nlt (ck_deduction c) (nint 11) = true -> ck_passed c = true) as K.
  { intros c weight Hw Hd H. destruct (ck_passed c) eqn:Ep; [done|]. destruct H as [|H]; [done|]. rewrite Hd in H by done.
    destruct (JsDecimalFacts.nint_sv weight ltac:(lia)) as [Fw Sw]. destruct (JsDecimalFacts.nint_sv 11 ltac:(lia)) as [F11 S11].
    rewrite nlt_sv, Sw, S11 in H by done. apply Z.ltb_lt in H. pose proof (pow2_pos 1074 ltac:(lia)). nia. }
  split.
  - split; [apply schema_passed; eapply (K _ W_SCHEMA); [done| |exact H1]|].
    { unfold checkSchemaConformance, weighted. cbn [ck_passed ck_deduction]. by intros ->. }
    split; [apply duplicates_passed; eapply (K _ W_DUPLICATES); [done| |exact H2]|].
    { unfold checkDuplicates, weighted. cbn [ck_passed ck_deduction]. by intros ->. }
    apply monotonic_passed. eapply (K _ W_MONOTONIC); [done| |exact H3].
    unfold checkTimestampMonotonic, weighted. cbn [ck_passed ck_deduction]. by intros ->.
  - intros [reason ->]. apply Forall_inv in HSB as [?|H]; [done|]. vm_compute in H. done.
Qed.

(** C31. The gateway writes exactly one report, with the score and status it returns, or none:
    when the service rejects the secret it throws without a report.  A report PASSES only
    if the service was up and its answer well-formed, and (where the deductions of that
    answer are not negative) it certifies the rows: finite decimals with low <= open, close
    <= high and nothing negative, no two rows of one key, timestamps in order on the grid. *)
Theorem report_sound scope candles w :
  reportsLaw ->
  (Z.of_nat (slots (TIMEFRAME_MS (qc_timeframe scope)) (firstAligned (TIMEFRAME_MS (qc_timeframe scope)) (qc_from scope)) (qc_to scope))
   < 2 ^ 53)%Z ->
  (forall checks, statisticsAnswered candles w checks -> Forall soundDeduction checks) ->
  wp (validateAndReport syntaxError sha256 ops quantBaseUrl scope candles)
    (fun r w' => match r with
       | inl _ => reports w' = reports w
       | inr q => exists row, reports w' = reports w ++ [row] /\ rw_scope row = scope
           /\ qr_score q = rw_score row /\ qr_status q = rw_status row /\ qr_datasetHash q = rw_datasetHash row
           /\ (qr_status q = DQ_PASSED -> certified scope candles /\ exists checks, statisticsAnswered candles w checks)
       end) w.
Proof.
  intros HL Hs HB. unfold validateAndReport. apply wp_bind. eapply wp_mono; [by apply fetchStageBChecks_wp|].
  intros [x|stageB] w1 [HK HA]; [done|]. cbv beta iota.
  destruct (scoreChecks _) as [score status] eqn:ES. apply wp_bind. unfold wp at 1.
  set (row := {| rw_scope := scope; rw_score := score |}). pose proof (create_writes HL row w1) as HW.
  destruct (qo_createReport ops row w1) as [[x|id] w2]; cbn [fst snd]; [congruence|].
  apply wp_ret. exists row. split; [congruence|]. do 4 (split; [reflexivity|]). cbn [qr_status]. intros ->.
  assert (Forall soundDeduction stageB) as HS.
  { destruct HA as [[reason ->]|HA]; [|by apply HB]. constructor; [|constructor]. right.
    unfold stageBUnavailable. cbn [ck_deduction]. split; [apply wf_nint|]. split; [done|evaluate]. }
  destruct (passed_certified scope candles stageB score HS Hs ES) as [HC HU]. split; [done|].
  destruct HA as [HA|HA]; [by destruct HU|by exists stageB].
Qed.
End gateway.

(** ** The dataset hash *)

(** The fields of two rows are the same, in any order. *)
Definition sameFields (r r' : Json) : Prop :=
  exists fs fs', r = J_object fs /\ r' = J_object fs' /\ fs ≡ₚ fs' /\ NoDup (List.map fst fs).

Lemma field_perm k fs fs' : fs ≡ₚ fs' -> NoDup (List.map fst fs) -> field k fs = field k fs'.
Proof.
  induction 1 as [|[k' v] fs fs' H IH|[k1 v1] [k2 v2] fs|fs fs' fs'' H1 IH1 H2 IH2]; simpl; intros HN; [done| | |].
  - apply NoDup_cons in HN as [_ HN]. by rewrite IH.
  - apply NoDup_cons in HN as [HN _]. case_bool_decide as E1; [|done]. case_bool_decide as E2; [|done]. subst.
    destruct HN. left.
  - rewrite IH1 by done. apply IH2. by rewrite <- (Permutation_map fst H1).
Qed.

Lemma canonicalize_sameFields r r' : sameFields r r' -> canonicalize r = canonicalize r'.
Proof.
  intros (fs & fs' & -> & -> & HP & HN). simpl.
  set (f := fun kv : string * Json => let '(k, v) := kv in (k, canonicalize v)).
  assert (forall l, List.map fst (List.map f l) = List.map fst l) as Hk.
  { intros l. rewrite List.map_map. apply List.map_ext. by intros []. }
  rewrite !Hk, (sortStrings_perm _ _ (Permutation_map fst HP)). do 2 f_equal.
  apply List.map_ext. intros k. f_equal. apply field_perm; [by apply Permutation_map|by rewrite Hk].
Qed.

(** The dataset hash depends on the rows and not on the order of their fields. *)
Theorem dataset_hash_key_order sha256 rows rows' :
  Forall2 sameFields rows rows' -> computeDatasetHash sha256 rows = computeDatasetHash sha256 rows'.
Proof.
  intros H. unfold computeDatasetHash. do 2 f_equal. simpl. f_equal.
  induction H as [|r r' rows rows' Hr H IH]; [done|]. simpl. by rewrite (canonicalize_sameFields _ _ Hr), IH.
Qed.

(** ** A sample window *)

Module SampleWindow.
Definition scope : QualityScope :=
  {| qc_exchange := "DERIBIT"; qc_symbol := "BTC"; qc_timeframe := M1; qc_from := 0; qc_to := 180000 |}.

Definition candle (ts : Z) (high : string) : NormalizedCandle := {|
  nc_exchange := "DERIBIT"; nc_symbol := "BTC"; nc_assetType := "PERP"; nc_timeframe := M1; nc_ts := ts;
  nc_open := "10"; nc_high := high; nc_low := "9"; nc_close := "10.5"; nc_volume := "3"; nc_trades := None |}.

Definition rows : list NormalizedCandle := [candle 0 "11"; candle 60000 "11"; candle 120000 "11"].

(** A service that answers with this body, and a table of reports. *)
Definition gateway (body : string) : QualityOps unit (list ReportRow) := {|
  qo_stageB _ := ret (StageBResponse 200 body);
  qo_createReport row := fun reports => (inr "report", reports ++ [row]);
  qo_authError _ := tt
|}.

Definition validate (body : string) (candles : list NormalizedCandle) : M unit (list ReportRow) QualityReport :=
  validateAndReport id id (gateway body) (Some "http://quant") scope candles.

Lemma gateway_law body : reportsLaw (gateway body) id.
Proof. by constructor. Qed.

Lemma answered_empty candles w checks : statisticsAnswered (gateway "[]") (Some "http://quant") candles w checks -> checks = [].
Proof. intros (_ & status & body & w1 & payload & [= <- <- _] & _ & H & HP). vm_compute in H. injection H as <-. by injection HP as <-. Qed.
End SampleWindow.

(** A bar that is missing is a gap of one bar. *)
Example sample_gap :
  detectCandleGaps [0; 120000]%Z M1 0 180000 = [{| cg_from := 60000; cg_to := 120000; cg_missingBars := 1 |}].
Proof. evaluate. Qed.

Lemma report_sound_witness :
  exists q row, SampleWindow.validate "[]" SampleWindow.rows [] = (inr q, [row]) /\ qr_status q = DQ_PASSED
    /\ certified SampleWindow.scope SampleWindow.rows.
Proof.
  pose proof (report_sound id id (SampleWindow.gateway "[]") (Some "http://quant") id SampleWindow.scope SampleWindow.rows []
    (SampleWindow.gateway_law "[]")) as H.
  unfold wp in H. fold (SampleWindow.validate "[]" SampleWindow.rows) in H.
  assert (match fst (SampleWindow.validate "[]" SampleWindow.rows []) with inr q => qr_status q | inl _ => DQ_FAILED end = DQ_PASSED)
    as HP by (vm_compute; reflexivity).
  assert ((fun r => match fst r with inr _ => True | inl _ => False end) (SampleWindow.validate "[]" SampleWindow.rows [])) as HR
    by (vm_compute; exact I).
  destruct (SampleWindow.validate "[]" SampleWindow.rows []) as [[x|q] w'] eqn:E; [destruct HR|].
  destruct H as (row & HW & _ & _ & _ & _ & HC).
  - apply Z.ltb_lt. vm_compute. reflexivity.
  - intros checks HA. rewrite (SampleWindow.answered_empty _ _ _ HA). constructor.
  - cbn in HW. exists q, row. rewrite <- HW. split; [reflexivity|]. split; [exact HP|]. exact (proj1 (HC HP)).
Defined.

Lemma dataset_hash_key_order_witness :
  computeDatasetHash id [J_object [("a", J_null); ("b", J_boolean true)]]
  = computeDatasetHash id [J_object [("b", J_boolean true); ("a", J_null)]].
Proof.
  apply dataset_hash_key_order. constructor; [|constructor].
  exists [("a", J_null); ("b", J_boolean true)], [("b", J_boolean true); ("a", J_null)].
  split; [reflexivity|]. split; [reflexivity|]. split; [apply Permutation_swap|].
  apply (bool_decide_unpack _). vm_compute. exact I.
Defined.

(** A failed statistical check with a negative deduction cancels the deduction of a row with
    high below low: the batch passes with a full score. *)
Example negative_deduction_passes :
  let body := stringify (J_array [J_object [("check", J_string "outliers"); ("passed", J_boolean false);
    ("deduction", J_number (nint (-40))); ("detail", J_string "")]]) in
  let bad := [SampleWindow.candle 0 "8"; SampleWindow.candle 60000 "11"; SampleWindow.candle 120000 "11"] in
  match SampleWindow.validate body bad [] with
  | (inr q, _) => qr_status q = DQ_PASSED /\ qr_score q = nint 100
  | _ => False
  end
  /\ ck_passed (checkSchemaConformance bad) = false.
Proof. split; [vm_compute; split; reflexivity|evaluate]. Qed.
