(* ===== verification/Ingestion.v ===== *)
(** * Ingestion: the persistence layer of the ingestion service

    services/ingestion/src/persistence (util.ts, index.ts, ticks.ts) over the canonical
    records of services/ingestion/src/connectors/types.ts.  A row is written by an upsert on
    the composite key of its table, in transactions of bounded size; the Prisma client is a
    record of operations over an outside world, and decimal.js is the record
    [DecimalOps].  A Date is its time value.  Log lines are left out: each of these
    functions logs an error and throws it on. *)

From S2P Require Import Prelude JsNumber Json Effects Served MarketState Quality.

Local Open Scope string_scope.
Local Open Scope list_scope.
Local Open Scope eff_scope.

(** ** connectors/types.ts *)

Record NormalizedFundingRate := {
  nf_exchange : string;
  nf_symbol : string;
  nf_ts : Z;
  nf_rate : string;
  nf_nextTs : option Z
}.

Record NormalizedOpenInterest := {
  ni_exchange : string;
  ni_symbol : string;
  ni_ts : Z;
  ni_openInterest : string;
  ni_openInterestValue : string
}.

Record NormalizedLongShortRatio := {
  nr_exchange : string;
  nr_symbol : string;
  nr_scope : string;
  nr_ts : Z;
  nr_ratio : string;
  nr_longPct : option string;
  nr_shortPct : option string
}.

Record NormalizedOptionContract := {
  no_exchange : string;
  no_underlying : string;
  no_ts : Z;
  no_expiry : Z;
  no_strike : string;
  no_optionType : string;
  no_iv : option string;
  no_delta : option string;
  no_gamma : option string;
  no_theta : option string;
  no_vega : option string;
  no_openInterest : option string;
  no_volume : option string;
  no_bid : option string;
  no_ask : option string;
  no_markPrice : option string
}.

Record NormalizedOptionChain := {
  nh_exchange : string;
  nh_underlying : string;
  nh_ts : Z;
  nh_spot : string;
  nh_ivAtm30d : option string;
  nh_skew25d : option string;
  nh_putCallRatio : option string;
  nh_totalGammaExposure : option string;
  nh_termStructure : option (list (string * string));
  nh_contracts : list NormalizedOptionContract
}.

Record NormalizedLiquidity := {
  nl_exchange : string;
  nl_symbol : string;
  nl_ts : Z;
  nl_bidDepthUsd : string;
  nl_askDepthUsd : string;
  nl_spreadBps : string
}.

Record NormalizedTick := {
  nk_exchange : string;
  nk_symbol : string;
  nk_ts : Z;
  nk_tradeId : string;
  nk_price : string;
  nk_size : string;
  nk_side : OrderSide
}.

Record NormalizedQuote := {
  nq_exchange : string;
  nq_symbol : string;
  nq_ts : Z;
  nq_bestBid : string;
  nq_bestAsk : string;
  nq_bestBidSize : string;
  nq_bestAskSize : string;
  nq_markPrice : option string;
  nq_spreadBps : option string;
  nq_bids : option (list (string * string));
  nq_asks : option (list (string * string))
}.

(** ** util.ts *)

(** The slices [items.slice(i, i + size)] for i = 0, size, 2 size, ... *)
Definition chunk {A} (items : list A) (size : nat) : string + list (list A) :=
  match size with
  | O => inl "chunk size must be positive, got 0"
  | S _ => inr (List.map (fun i => take size (drop (i * size) items))
                  (seq 0 ((length items + (size - 1)) / size)))
  end.

(** ** Rows *)

(** The values handed to the client, a missing one as the database's null. *)
Inductive DbValue :=
| D_null
| D_text (s : string)
| D_date (t : Z)
| D_number (n : number)
| D_json (v : Json).

Definition textOrNull (o : option string) : DbValue := match o with Some s => D_text s | None => D_null end.
Definition dateOrNull (o : option Z) : DbValue := match o with Some t => D_date t | None => D_null end.
Definition numberOrNull (o : option number) : DbValue := match o with Some n => D_number n | None => D_null end.

(** [jsonOrNull] of a list of levels. *)
Definition levelsOrNull (o : option (list (string * string))) : DbValue :=
  match o with
  | Some l => D_json (J_array (List.map (fun '(p, s) => J_array [J_string p; J_string s]) l))
  | None => D_null
  end.

Definition Fields : Type := list (string * DbValue).

Inductive Table :=
| T_marketCandle | T_fundingRate | T_openInterestSnapshot | T_longShortRatio
| T_optionsChainSnapshot | T_optionContractSnapshot | T_liquiditySnapshot | T_orderbookSnapshot.

#[export] Instance Table_eq_dec : EqDecision Table.
Proof. solve_decision. Defined.

(** The argument of an upsert. *)
Record Upsert := { up_where : Fields; up_create : Fields; up_update : Fields }.

(** Every upsert of the layer creates the key and the other columns, and updates the
    other columns. *)
Definition overwrite (key columns : Fields) : Upsert :=
  {| up_where := key; up_create := key ++ columns; up_update := columns |}.

Definition symbolKey (exchange symbol : string) (ts : Z) : Fields :=
  [("exchange", D_text exchange); ("symbol", D_text symbol); ("ts", D_date ts)].

Definition candleUpsert (c : NormalizedCandle) : Upsert :=
  overwrite [("exchange", D_text (nc_exchange c)); ("symbol", D_text (nc_symbol c));
             ("timeframe", D_text (showTimeframe (nc_timeframe c))); ("ts", D_date (nc_ts c))]
    [("assetType", D_text (nc_assetType c)); ("open", D_text (nc_open c)); ("high", D_text (nc_high c));
     ("low", D_text (nc_low c)); ("close", D_text (nc_close c)); ("volume", D_text (nc_volume c));
     ("trades", numberOrNull (nc_trades c))].

Definition fundingUpsert (r : NormalizedFundingRate) : Upsert :=
  overwrite (symbolKey (nf_exchange r) (nf_symbol r) (nf_ts r))
    [("rate", D_text (nf_rate r)); ("nextTs", dateOrNull (nf_nextTs r))].

(** An open-interest row with its change against the previous one. *)
Record PreparedOiRow := { po_row : NormalizedOpenInterest; po_oiDelta : option string; po_oiDeltaPct : option string }.

Definition openInterestUpsert (p : PreparedOiRow) : Upsert :=
  let r := po_row p in
  overwrite (symbolKey (ni_exchange r) (ni_symbol r) (ni_ts r))
    [("openInterest", D_text (ni_openInterest r)); ("openInterestValue", D_text (ni_openInterestValue r));
     ("oiDelta", textOrNull (po_oiDelta p)); ("oiDeltaPct", textOrNull (po_oiDeltaPct p))].

Definition longShortUpsert (r : NormalizedLongShortRatio) : Upsert :=
  overwrite [("exchange", D_text (nr_exchange r)); ("symbol", D_text (nr_symbol r)); ("scope", D_text (nr_scope r));
             ("ts", D_date (nr_ts r))]
    [("ratio", D_text (nr_ratio r)); ("longPct", textOrNull (nr_longPct r)); ("shortPct", textOrNull (nr_shortPct r))].

Definition chainUpsert (chain : NormalizedOptionChain) : Upsert :=
  overwrite [("exchange", D_text (nh_exchange chain)); ("underlying", D_text (nh_underlying chain)); ("ts", D_date (nh_ts chain))]
    [("spot", D_text (nh_spot chain)); ("ivAtm30d", textOrNull (nh_ivAtm30d chain));
     ("skew25d", textOrNull (nh_skew25d chain)); ("putCallRatio", textOrNull (nh_putCallRatio chain));
     ("totalGammaExposure", textOrNull (nh_totalGammaExposure chain));
     ("termStructure", match nh_termStructure chain with
        | Some l => D_json (J_array (List.map (fun '(e, iv) => J_object [("expiry", J_string e); ("atmIv", J_string iv)]) l))
        | None => D_null
        end);
     ("contractCount", D_number (nint (Z.of_nat (length (nh_contracts chain)))))].

Definition contractUpsert (c : NormalizedOptionContract) : Upsert :=
  overwrite [("exchange", D_text (no_exchange c)); ("underlying", D_text (no_underlying c)); ("ts", D_date (no_ts c));
             ("expiry", D_date (no_expiry c)); ("strike", D_text (no_strike c)); ("optionType", D_text (no_optionType c))]
    [("iv", textOrNull (no_iv c)); ("delta", textOrNull (no_delta c)); ("gamma", textOrNull (no_gamma c));
     ("theta", textOrNull (no_theta c)); ("vega", textOrNull (no_vega c));
     ("openInterest", textOrNull (no_openInterest c)); ("volume", textOrNull (no_volume c));
     ("bid", textOrNull (no_bid c)); ("ask", textOrNull (no_ask c)); ("markPrice", textOrNull (no_markPrice c))].

Definition liquidityUpsert (row : NormalizedLiquidity) : Upsert :=
  overwrite (symbolKey (nl_exchange row) (nl_symbol row) (nl_ts row))
    [("bidDepthUsd", D_text (nl_bidDepthUsd row)); ("askDepthUsd", D_text (nl_askDepthUsd row));
     ("spreadBps", D_text (nl_spreadBps row))].

Definition orderbookUpsert (q : NormalizedQuote) : Upsert :=
  overwrite (symbolKey (nq_exchange q) (nq_symbol q) (nq_ts q))
    [("bestBid", D_text (nq_bestBid q)); ("bestAsk", D_text (nq_bestAsk q)); ("bestBidSize", D_text (nq_bestBidSize q));
     ("bestAskSize", D_text (nq_bestAskSize q)); ("markPrice", textOrNull (nq_markPrice q));
     ("spreadBps", textOrNull (nq_spreadBps q)); ("bids", levelsOrNull (nq_bids q)); ("asks", levelsOrNull (nq_asks q))].

(** ** The client *)

Inductive JobStatus := JS_RUNNING | JS_OK | JS_FAILED.

#[export] Instance JobStatus_eq_dec : EqDecision JobStatus.
Proof. solve_decision. Defined.

Record JobRun := { jr_job : string; jr_status : JobStatus; jr_endedAt : option Z; jr_detail : Json }.

(** decimal.js: [new Decimal(text)] throws on a text that is no number. *)
Record DecimalOps (D : Type) := {
  dm_parse : string -> option D;
  dm_minus : D -> D -> D;
  dm_isZero : D -> bool;
  dm_toFixed : D -> string;
  (** [d.div(e).times(100).toFixed(6)] *)
  dm_percentOf : D -> D -> string
}.
Arguments dm_parse {D}.
Arguments dm_minus {D}.
Arguments dm_isZero {D}.
Arguments dm_toFixed {D}.
Arguments dm_percentOf {D}.

Record IngestOps (X W : Type) := {
  io_transaction : Table -> list Upsert -> M X W unit;
  io_upsert : Table -> Upsert -> M X W unit;
  (** the stored open interest of the latest row of (exchange, symbol) before a time *)
  io_priorOpenInterest : string -> string -> Z -> M X W (option string);
  (** [createMany] of ticks, duplicates skipped: the number of new rows *)
  io_createTicks : list NormalizedTick -> M X W nat;
  io_createJobRun : JobRun -> M X W unit;
  io_now : M X W Z;
  (** [new Error(message)] *)
  io_error : string -> X
}.
Arguments io_transaction {X W}.
Arguments io_upsert {X W}.
Arguments io_priorOpenInterest {X W}.
Arguments io_createTicks {X W}.
Arguments io_createJobRun {X W}.
Arguments io_now {X W}.
Arguments io_error {X W}.

Definition UPSERT_CHUNK_SIZE : nat := 500.
Definition TICK_CHUNK_SIZE : nat := 1000.
Definition ORDERBOOK_CHUNK_SIZE : nat := 500.

Section persistence.
Context {X W : Type} (ops : IngestOps X W).

(** The chunks of a list, or the error chunk throws. *)
Definition chunked {A} (items : list A) (size : nat) : M X W (list (list A)) :=
  match chunk items size with inl message => throw (io_error ops message) | inr batches => ret batches end.

(** The loop over the batches, which counts the rows written. *)
Fixpoint writeBatches {A} (table : Table) (upsert : A -> Upsert) (batches : list (list A)) (written : nat) : M X W nat :=
  match batches with
  | [] => ret written
  | batch :: batches =>
      do! io_transaction ops table (List.map upsert batch) in
      writeBatches table upsert batches (written + length batch)
  end.

Definition writeRows {A} (table : Table) (size : nat) (upsert : A -> Upsert) (rows : list A) : M X W nat :=
  match rows with
  | [] => ret 0
  | _ => let! batches := chunked rows size in writeBatches table upsert batches 0
  end.

Definition upsertCandles (candles : list NormalizedCandle) : M X W nat :=
  writeRows T_marketCandle UPSERT_CHUNK_SIZE candleUpsert candles.

Definition upsertFundingRates (rows : list NormalizedFundingRate) : M X W nat :=
  writeRows T_fundingRate UPSERT_CHUNK_SIZE fundingUpsert rows.

Definition upsertLongShortRatios (rows : list NormalizedLongShortRatio) : M X W nat :=
  writeRows T_longShortRatio UPSERT_CHUNK_SIZE longShortUpsert rows.

Definition upsertOrderbookSnapshots (quotes : list NormalizedQuote) : M X W nat :=
  writeRows T_orderbookSnapshot ORDERBOOK_CHUNK_SIZE orderbookUpsert quotes.

Definition upsertOptionChain (chain : NormalizedOptionChain) : M X W nat :=
  do! io_upsert ops T_optionsChainSnapshot (chainUpsert chain) in
  let! batches := chunked (nh_contracts chain) UPSERT_CHUNK_SIZE in
  do! writeBatches T_optionContractSnapshot contractUpsert batches 0 in
  ret (length (nh_contracts chain)).

Definition upsertLiquidity (row : NormalizedLiquidity) : M X W nat :=
  do! io_upsert ops T_liquiditySnapshot (liquidityUpsert row) in
  ret 1.

Fixpoint insertBatches (batches : list (list NormalizedTick)) (inserted : nat) : M X W nat :=
  match batches with
  | [] => ret inserted
  | batch :: batches =>
      let! count := io_createTicks ops batch in
      insertBatches batches (inserted + count)
  end.

Definition upsertTicks (ticks : list NormalizedTick) : M X W nat :=
  match ticks with
  | [] => ret 0
  | _ => let! batches := chunked ticks TICK_CHUNK_SIZE in insertBatches batches 0
  end.

(** Telemetry: a failing write is logged and swallowed. *)
Definition heartbeat (job : string) (status : JobStatus) (detail : Json) : M X W unit :=
  catch
    (let! endedAt := match status with
       | JS_RUNNING => ret None
       | _ => let! now := io_now ops in ret (Some now)
       end in
     io_createJobRun ops {| jr_job := job; jr_status := status; jr_endedAt := endedAt; jr_detail := detail |})
    (fun _ => ret tt).

(** *** Open interest *)

(** The groups of a Map by key, in the order of their first row. *)
Fixpoint addToGroup (key : string) (row : NormalizedOpenInterest) (groups : list (string * list NormalizedOpenInterest)) :
    list (string * list NormalizedOpenInterest) :=
  match groups with
  | [] => [(key, [row])]
  | (k, group) :: groups =>
      if bool_decide (k = key) then (k, group ++ [row]) :: groups else (k, group) :: addToGroup key row groups
  end.

Definition oiKey (row : NormalizedOpenInterest) : string := ni_exchange row +:+ ":" +:+ ni_symbol row.

Definition groupRows (rows : list NormalizedOpenInterest) : list (string * list NormalizedOpenInterest) :=
  foldl (fun groups row => addToGroup (oiKey row) row groups) [] rows.

Definition byTs (a b : NormalizedOpenInterest) : comparison := (ni_ts a ?= ni_ts b)%Z.

Context {D : Type} (dec : DecimalOps D) (decimalError : string -> X).

(** [new Prisma.Decimal(text)] *)
Definition newDecimal (text : string) : M X W D :=
  match dm_parse dec text with Some d => ret d | None => throw (decimalError text) end.

Definition prepareRow (prev : option D) (row : NormalizedOpenInterest) (current : D) : PreparedOiRow :=
  match prev with
  | None => {| po_row := row; po_oiDelta := None; po_oiDeltaPct := None |}
  | Some prev =>
      let delta := dm_minus dec current prev in
      {| po_row := row; po_oiDelta := Some (dm_toFixed dec delta);
         po_oiDeltaPct := if dm_isZero dec prev then None else Some (dm_percentOf dec delta prev) |}
  end.

Fixpoint prepareRows (prev : option D) (sorted : list NormalizedOpenInterest) : M X W (list PreparedOiRow) :=
  match sorted with
  | [] => ret []
  | row :: sorted =>
      let! current := newDecimal (ni_openInterest row) in
      let! prepared := prepareRows (Some current) sorted in
      ret (prepareRow prev row current :: prepared)
  end.

Definition prepareGroup (group : list NormalizedOpenInterest) : M X W (list PreparedOiRow) :=
  match sortBy byTs group with
  | [] => ret []
  | (first :: _) as sorted =>
      let! prior := io_priorOpenInterest ops (ni_exchange first) (ni_symbol first) (ni_ts first) in
      let! prev := match prior with
        | None => ret None
        | Some text => let! d := newDecimal text in ret (Some d)
        end in
      prepareRows prev sorted
  end.

Definition upsertOpenInterest (rows : list NormalizedOpenInterest) : M X W nat :=
  match rows with
  | [] => ret 0
  | _ =>
      let! groups := mapAll (fun g => prepareGroup (snd g)) (groupRows rows) in
      let prepared := concat groups in
      let! batches := chunked prepared UPSERT_CHUNK_SIZE in
      do! writeBatches T_openInterestSnapshot openInterestUpsert batches 0 in
      ret (length prepared)
  end.
End persistence.
