(* ===== verification/IngestionProps.v ===== *)
(** * IngestionProps: what the persistence layer does to the tables

    The chunks of a list; the tables as maps from keys to rows, with upserts as their
    updates; and that writing the same rows again, after any failed attempts, leaves the
    tables as one complete write does.  The properties follow, with a sample database. *)

From stdpp Require Import gmap.
From S2P Require Import Prelude JsNumber Served Json Effects MarketState Quality Ingestion.

Local Open Scope string_scope.
Local Open Scope list_scope.
Local Open Scope eff_scope.

(** ** Chunks *)

Lemma concat_slices {A} (l : list A) size n :
  concat (List.map (fun i => take size (drop (i * size) l)) (seq 0 n)) = take (n * size) l.
Proof.
  induction n as [|n IH]; [done|]. rewrite seq_S, List.map_app, List.concat_app, IH. simpl. rewrite app_nil_r.
  rewrite take_take_drop. f_equal. lia.
Qed.

(** The number of slices covers the list. *)
Lemma slices_cover len size : size <> 0 -> len <= (len + (size - 1)) / size * size.
Proof.
  intros Hs. pose proof (Nat.div_mod (len + (size - 1)) size Hs). pose proof (Nat.mod_upper_bound (len + (size - 1)) size Hs). nia.
Qed.

Lemma chunk_concat {A} (l : list A) size bs : chunk l size = inr bs -> concat bs = l.
Proof.
  destruct size as [|size]; [done|]. intros [= <-]. rewrite concat_slices. apply take_ge. by apply (slices_cover (length l) (S size)).
Qed.

Lemma chunk_size {A} (l : list A) size bs b : chunk l size = inr bs -> b ∈ bs -> 0 < length b <= size.
Proof.
  destruct size as [|size]; [done|]. intros [= <-]. intros (i & <- & Hi)%list_elem_of_In%in_map_iff.
  apply List.in_seq in Hi as [_ Hi]. rewrite length_take, length_drop.
  pose proof (Nat.Div0.mul_div_le (length l + (S size - 1)) (S size)) as HM.
  set (q := (length l + (S size - 1)) / S size) in *. change (i < q) in Hi. nia.
Qed.

Lemma chunk_total {A} (l : list A) size : 0 < size -> exists bs, chunk l size = inr bs.
Proof. destruct size; [lia|]. intros _. by eexists. Qed.

(** ** The tables *)

Definition Row : Type := gmap string DbValue.

Definition rowOf (fields : Fields) : Row := list_to_map fields.

(** The columns an upsert sets besides the key. *)
Definition columns (table : Table) : gset string :=
  list_to_set match table with
  | T_marketCandle => ["assetType"; "open"; "high"; "low"; "close"; "volume"; "trades"]
  | T_fundingRate => ["rate"; "nextTs"]
  | T_openInterestSnapshot => ["openInterest"; "openInterestValue"; "oiDelta"; "oiDeltaPct"]
  | T_longShortRatio => ["ratio"; "longPct"; "shortPct"]
  | T_optionsChainSnapshot =>
      ["spot"; "ivAtm30d"; "skew25d"; "putCallRatio"; "totalGammaExposure"; "termStructure"; "contractCount"]
  | T_optionContractSnapshot =>
      ["iv"; "delta"; "gamma"; "theta"; "vega"; "openInterest"; "volume"; "bid"; "ask"; "markPrice"]
  | T_liquiditySnapshot => ["bidDepthUsd"; "askDepthUsd"; "spreadBps"]
  | T_orderbookSnapshot =>
      ["bestBid"; "bestAsk"; "bestBidSize"; "bestAskSize"; "markPrice"; "spreadBps"; "bids"; "asks"]
  end.

(** An upsert that overwrites: it updates the columns of the table, to what it creates. *)
Record overwrites (table : Table) (u : Upsert) : Prop := {
  overwrites_columns : dom (rowOf (up_update u)) = columns table;
  overwrites_create : rowOf (up_update u) ∪ rowOf (up_create u) = rowOf (up_create u)
}.

(** What an upsert makes of the row of its key. *)
Definition upsertRow (u : Upsert) (row : option Row) : Row :=
  match row with
  | Some r => rowOf (up_update u) ∪ r
  | None => rowOf (up_create u)
  end.

Section tables.
(** The identity under which the database compares keys. *)
Context {K : Type} `{!EqDecision K} (keyOf : Table -> Fields -> K).

Definition Tables : Type := Table -> K -> option Row.

Definition sameTables (a b : Tables) : Prop := forall t k, a t k = b t k.

#[export] Instance sameTables_equiv : Equivalence sameTables.
Proof. split; [by intros a t k|by intros a b H t k|]. intros a b c H1 H2 t k. by rewrite H1. Qed.

Definition targets (t : Table) (k : K) (w : Table * Upsert) : Prop := t = fst w /\ k = keyOf (fst w) (up_where (snd w)).

#[export] Instance targets_dec t k w : Decision (targets t k w).
Proof using EqDecision0. unfold targets. apply _. Defined.

Definition applyUpsert (db : Tables) (w : Table * Upsert) : Tables :=
  fun t k => if decide (targets t k w) then Some (upsertRow (snd w) (db t k)) else db t k.

Definition applyAll (ws : list (Table * Upsert)) (db : Tables) : Tables := foldl applyUpsert db ws.

#[export] Instance applyUpsert_proper : Proper (sameTables ==> eq ==> sameTables) applyUpsert.
Proof. intros a b H w _ <- t k. unfold applyUpsert. by rewrite H. Qed.

#[export] Instance applyAll_proper ws : Proper (sameTables ==> sameTables) (applyAll ws).
Proof. unfold applyAll. induction ws as [|w ws IH]; intros a b H; simpl; [done|]. apply IH. by rewrite H. Qed.

Lemma applyAll_app p q db : applyAll (p ++ q) db = applyAll q (applyAll p db).
Proof. apply foldl_app. Qed.

(** The row of a key after a list of upserts: those of the key, in order. *)
Definition upsertRows (us : list Upsert) (row : option Row) : option Row :=
  foldl (fun row u => Some (upsertRow u row)) row us.

Definition ofKey (t : Table) (k : K) (ws : list (Table * Upsert)) : list Upsert :=
  List.map snd (filter (targets t k) ws).

Lemma applyAll_row ws db t k : applyAll ws db t k = upsertRows (ofKey t k ws) (db t k).
Proof.
  revert db. induction ws as [|w ws IH]; intros db; [done|]. unfold applyAll, ofKey in *. simpl. rewrite IH.
  rewrite filter_cons. unfold applyUpsert at 1. by destruct (decide (targets t k w)).
Qed.

(** Rows that have once been written are written over. *)
Lemma upsertRows_settled table us u row :
  Forall (overwrites table) (us ++ [u]) ->
  exists x, upsertRows (us ++ [u]) row = Some x /\ rowOf (up_update u) ∪ x = x.
Proof.
  intros H. apply Forall_app in H as [_ H]. apply Forall_cons in H as [H _]. unfold upsertRows. rewrite foldl_app. simpl.
  eexists. split; [done|]. destruct (foldl _ row us) as [r|]; simpl; [|by apply overwrites_create in H].
  by rewrite (assoc_L (∪)), (idemp_L (∪)).
Qed.

Lemma upsertRows_keep table us x :
  Forall (overwrites table) us ->
  exists y, upsertRows us (Some x) = Some y /\ forall c, c ∉ columns table -> y !! c = x !! c.
Proof.
  revert x. induction us as [|u us IH]; intros x H; [by exists x|]. apply Forall_cons in H as [Hu H]. simpl.
  destruct (IH (rowOf (up_update u) ∪ x) H) as (y & Hy & Hc). exists y. split; [done|]. intros c Hn.
  rewrite Hc by done. rewrite <- (overwrites_columns _ _ Hu) in Hn. by apply lookup_union_r, not_elem_of_dom.
Qed.

Lemma upsertRows_again table us row :
  Forall (overwrites table) us -> us <> [] -> upsertRows us (upsertRows us row) = upsertRows us row.
Proof.
  intros H Hn. destruct (exists_last Hn) as (us' & u & ->).
  destruct (upsertRows_settled table us' u row H) as (x & -> & Hx).
  destruct (upsertRows_settled table us' u (Some x) H) as (y & E & Hy).
  destruct (upsertRows_keep table _ x H) as (y' & E' & Hc). rewrite E in *. injection E' as <-. f_equal.
  apply Forall_app in H as [_ H]. apply Forall_cons in H as [H _].
  apply map_eq. intros c. destruct (decide (c ∈ columns table)) as [Hin|Hout]; [|by apply Hc].
  rewrite <- (overwrites_columns _ _ H) in Hin. apply elem_of_dom in Hin as [v Hv].
  by rewrite <- Hx, <- Hy, !(lookup_union_Some_l _ _ _ _ Hv).
Qed.

(** Writing a prefix first does not change what the whole list writes. *)
Lemma applyAll_prefix p q db :
  Forall (fun w => overwrites (fst w) (snd w)) p -> sameTables (applyAll (p ++ q) (applyAll p db)) (applyAll (p ++ q) db).
Proof.
  intros H. rewrite !applyAll_app. intros t k. rewrite !(applyAll_row q). f_equal. rewrite !(applyAll_row p).
  assert (Forall (overwrites t) (ofKey t k p)) as HF.
  { unfold ofKey. apply Forall_fmap, Forall_forall. intros w [[Ht _] Hw]%list_elem_of_filter.
    rewrite Ht. by apply (proj1 (Forall_forall _ _) H). }
  destruct (ofKey t k p) as [|u us]; [done|]. by apply (upsertRows_again t).
Qed.
End tables.

(** ** The upserts of the layer overwrite *)

Lemma overwrite_overwrites table key cols :
  list_to_set (List.map fst cols) = columns table ->
  forallb (fun c => negb (bool_decide (c ∈ List.map fst key))) (List.map fst cols) = true ->
  overwrites table (overwrite key cols).
Proof.
  intros Hc Hd. split; [by rewrite <- Hc; apply dom_list_to_map_L|]. unfold overwrite. cbn [up_update up_create].
  unfold rowOf, Row. rewrite list_to_map_app. set (k := list_to_map key). set (c := list_to_map cols).
  assert (c ##ₘ k) as HD.
  { apply map_disjoint_dom. unfold c, k. rewrite !dom_list_to_map_L. intros x Hx Hk.
    apply elem_of_list_to_set in Hx, Hk. rewrite forallb_forall in Hd.
    specialize (Hd x (proj1 (list_elem_of_In _ _) Hx)). bool_hyps. done. }
  rewrite (map_union_comm k c) by done. by rewrite (assoc_L (∪)), (idemp_L (∪)).
Qed.

Ltac overwriting := intros; apply overwrite_overwrites; reflexivity.

Lemma candle_overwrites c : overwrites T_marketCandle (candleUpsert c).
Proof. overwriting. Qed.

Lemma funding_overwrites r : overwrites T_fundingRate (fundingUpsert r).
Proof. overwriting. Qed.

Lemma openInterest_overwrites p : overwrites T_openInterestSnapshot (openInterestUpsert p).
Proof. overwriting. Qed.

Lemma longShort_overwrites r : overwrites T_longShortRatio (longShortUpsert r).
Proof. overwriting. Qed.

Lemma chain_overwrites c : overwrites T_optionsChainSnapshot (chainUpsert c).
Proof. overwriting. Qed.

Lemma contract_overwrites c : overwrites T_optionContractSnapshot (contractUpsert c).
Proof. overwriting. Qed.

Lemma liquidity_overwrites r : overwrites T_liquiditySnapshot (liquidityUpsert r).
Proof. overwriting. Qed.

Lemma orderbook_overwrites q : overwrites T_orderbookSnapshot (orderbookUpsert q).
Proof. overwriting. Qed.

(** ** What a write leaves *)

Section writes.
Context {X W : Type} (ops : IngestOps X W).
Context {K : Type} `{!EqDecision K} (keyOf : Table -> Fields -> K) (tables : W -> Tables (K := K)).

(** A transaction applies its upserts in order or none of them, and an upsert itself. *)
Record tableLaws : Prop := {
  transaction_law t us w : match io_transaction ops t us w with
    | (inr _, w') => sameTables (tables w') (applyAll keyOf (List.map (pair t) us) (tables w))
    | (inl _, w') => sameTables (tables w') (tables w)
    end;
  upsert_law t u w : match io_upsert ops t u w with
    | (inr _, w') => sameTables (tables w') (applyUpsert keyOf (tables w) (t, u))
    | (inl _, w') => sameTables (tables w') (tables w)
    end
}.

(** A prefix of the upserts was applied, and all of them when the write returned. *)
Definition wrote (ws : list (Table * Upsert)) (n : nat) (w : W) (r : X + nat) (w' : W) : Prop :=
  exists p q, ws = p ++ q /\ sameTables (tables w') (applyAll keyOf p (tables w))
    /\ match r with inr m => q = [] /\ m = n | inl _ => True end.

Lemma writeBatches_wp {A} table (upsert : A -> Upsert) batches k w :
  tableLaws ->
  wp (writeBatches ops table upsert batches k)
    (wrote (List.map (fun a => (table, upsert a)) (concat batches)) (k + length (concat batches)) w) w.
Proof.
  intros HL. revert k w. induction batches as [|b batches IH]; intros k w; simpl.
  - apply wp_ret. exists [], []. split_and!; [done|done|done|lia].
  - apply wp_bind. unfold wp at 1. pose proof (transaction_law HL table (List.map upsert b) w) as HT.
    destruct (io_transaction ops table _ w) as [[x|[]] w1]; cbn [fst snd].
    + eexists [], _. split_and!; [done|exact HT|done].
    + eapply wp_mono; [apply IH|]. intros r w' (p & q & E & HS & Hr).
      rewrite map_app. rewrite List.map_map in HT.
      exists (List.map (fun a => (table, upsert a)) b ++ p), q. split_and!.
      * by rewrite E, app_assoc.
      * rewrite applyAll_app, HS. by apply applyAll_proper.
      * destruct r as [|m]; [done|]. destruct Hr as [-> ->]. split; [done|]. rewrite length_app. lia.
Qed.

Lemma writeChunks_wp {A} table size (upsert : A -> Upsert) rows w :
  tableLaws -> 0 < size ->
  wp (let! batches := chunked ops rows size in writeBatches ops table upsert batches 0)
    (wrote (List.map (fun a => (table, upsert a)) rows) (length rows) w) w.
Proof.
  intros HL Hs. unfold chunked. destruct (chunk_total rows size Hs) as [bs E]. rewrite E.
  apply wp_bind, wp_ret. rewrite <- (chunk_concat _ _ _ E). exact (writeBatches_wp table upsert bs 0 w HL).
Qed.

Lemma writeRows_wp {A} table size (upsert : A -> Upsert) rows w :
  tableLaws -> 0 < size ->
  wp (writeRows ops table size upsert rows) (wrote (List.map (fun a => (table, upsert a)) rows) (length rows) w) w.
Proof.
  intros HL Hs. unfold writeRows. destruct rows; [exists [], []; by split_and!|by apply writeChunks_wp].
Qed.

(** An upsert before a write. *)
Lemma wrote_after w0 w1 t u ws n r w' :
  sameTables (tables w1) (applyUpsert keyOf (tables w0) (t, u)) -> wrote ws n w1 r w' -> wrote ((t, u) :: ws) n w0 r w'.
Proof.
  intros HU (p & q & -> & HS & Hr). exists ((t, u) :: p), q. split_and!; [done| |done].
  rewrite HS. exact (applyAll_proper keyOf p _ _ HU).
Qed.
End writes.

Lemma map_overwrites {A} table (upsert : A -> Upsert) l :
  (forall a, overwrites table (upsert a)) ->
  Forall (fun w => overwrites (fst w) (snd w)) (List.map (fun a => (table, upsert a)) l).
Proof. intros H. apply List.Forall_map, Forall_true. intros a. exact (H a). Qed.

(** * Re-ingesting converges

    A write of the persistence layer that failed part way and is run again, any number of
    times, leaves the tables as one complete write would. *)

(** The writes whose rows depend on their argument alone. *)
Inductive Batch :=
| B_candles (candles : list NormalizedCandle)
| B_funding (rows : list NormalizedFundingRate)
| B_longShort (rows : list NormalizedLongShortRatio)
| B_quotes (quotes : list NormalizedQuote)
| B_chain (chain : NormalizedOptionChain)
| B_liquidity (row : NormalizedLiquidity).

Definition persist {X W} (ops : IngestOps X W) (b : Batch) : M X W nat :=
  match b with
  | B_candles candles => upsertCandles ops candles
  | B_funding rows => upsertFundingRates ops rows
  | B_longShort rows => upsertLongShortRatios ops rows
  | B_quotes quotes => upsertOrderbookSnapshots ops quotes
  | B_chain chain => upsertOptionChain ops chain
  | B_liquidity row => upsertLiquidity ops row
  end.

(** The upserts of a write, in order, and the count it reports. *)
Definition batchWrites (b : Batch) : list (Table * Upsert) :=
  match b with
  | B_candles candles => List.map (fun c => (T_marketCandle, candleUpsert c)) candles
  | B_funding rows => List.map (fun r => (T_fundingRate, fundingUpsert r)) rows
  | B_longShort rows => List.map (fun r => (T_longShortRatio, longShortUpsert r)) rows
  | B_quotes quotes => List.map (fun q => (T_orderbookSnapshot, orderbookUpsert q)) quotes
  | B_chain chain => (T_optionsChainSnapshot, chainUpsert chain)
      :: List.map (fun c => (T_optionContractSnapshot, contractUpsert c)) (nh_contracts chain)
  | B_liquidity row => [(T_liquiditySnapshot, liquidityUpsert row)]
  end.

Definition batchCount (b : Batch) : nat :=
  match b with
  | B_candles candles => length candles
  | B_funding rows => length rows
  | B_longShort rows => length rows
  | B_quotes quotes => length quotes
  | B_chain chain => length (nh_contracts chain)
  | B_liquidity _ => 1
  end.

Lemma batchWrites_overwrite b : Forall (fun w => overwrites (fst w) (snd w)) (batchWrites b).
Proof.
  destruct b; simpl; [apply map_overwrites, candle_overwrites|apply map_overwrites, funding_overwrites
    |apply map_overwrites, longShort_overwrites|apply map_overwrites, orderbook_overwrites| |].
  - constructor; [apply chain_overwrites|apply map_overwrites, contract_overwrites].
  - constructor; [apply liquidity_overwrites|constructor].
Qed.

Section reingest.
Context {X W : Type} (ops : IngestOps X W).
Context {K : Type} `{!EqDecision K} (keyOf : Table -> Fields -> K) (tables : W -> Tables (K := K)).

Lemma persist_wp b w :
  tableLaws ops keyOf tables -> wp (persist ops b) (wrote keyOf tables (batchWrites b) (batchCount b) w) w.
Proof.
  intros HL. destruct b; simpl; try (apply writeRows_wp; [done|unfold UPSERT_CHUNK_SIZE, ORDERBOOK_CHUNK_SIZE; lia]).
  - unfold upsertOptionChain. apply wp_bind. unfold wp at 1.
    pose proof (upsert_law _ _ _ HL T_optionsChainSnapshot (chainUpsert chain) w) as HU.
    destruct (io_upsert ops _ _ w) as [[x|[]] w1]; cbn [fst snd]; [by eexists [], _|].
    pose proof (writeChunks_wp ops keyOf tables T_optionContractSnapshot UPSERT_CHUNK_SIZE contractUpsert (nh_contracts chain) w1 HL
      ltac:(unfold UPSERT_CHUNK_SIZE; lia)) as HW.
    eapply wrote_after in HW; [|exact HU]. revert HW. unfold wp, bind.
    destruct (chunked ops (nh_contracts chain) _ w1) as [[x|bs] w2]; cbn [fst snd]; [done|].
    destruct (writeBatches ops _ _ bs 0 w2) as [[x|m] w3]; cbn [fst snd]; [done|]. intros (p & q & E & HS & -> & _). by exists p, [].
  - unfold upsertLiquidity. apply wp_bind. unfold wp at 1.
    pose proof (upsert_law _ _ _ HL T_liquiditySnapshot (liquidityUpsert row) w) as HU.
    destruct (io_upsert ops _ _ w) as [[x|[]] w1]; cbn [fst snd]; [by eexists [], _|]. apply wp_ret. by exists (batchWrites (B_liquidity row)), [].
Qed.

(** The worlds after any number of attempts, however they ended. *)
Definition attempts (b : Batch) : W -> W -> Prop := run (fun w (_ : unit) => snd (persist ops b w)) (fun _ => True).

(** C32. However often a write was attempted and failed, at whatever batch, the attempt that
    returns counts every row and leaves every table as one complete write of the rows, in
    their order, over the original tables would: a restart never duplicates or loses a
    row, and re-ingesting what is stored changes nothing. *)
Theorem reingest_converges b w w1 w2 n :
  tableLaws ops keyOf tables -> attempts b w w1 -> persist ops b w1 = (inr n, w2) ->
  n = batchCount b /\ sameTables (tables w2) (applyAll keyOf (batchWrites b) (tables w)).
Proof.
  intros HL HA HP. pose proof (persist_wp b w1 HL) as HW. unfold wp in HW. rewrite HP in HW.
  destruct HW as (p & q & E & HS & -> & ->). rewrite app_nil_r in E. subst p. split; [done|]. rewrite HS. clear HP HS.
  revert w1 HA. apply run_inv; [done|]. intros w' _ HI _. rewrite <- HI. clear HI.
  destruct (persist_wp b w' HL) as (p & q & E & HS & _). rewrite HS, E. apply applyAll_prefix.
  pose proof (batchWrites_overwrite b) as HF. rewrite E in HF. by apply Forall_app in HF as [HF _].
Qed.
End reingest.

(** ** A sample database that fails once *)

Module SampleTables.
(** The remaining failures, and the tables by the text of the key. *)
Definition World : Type := nat * Tables (K := string).

Definition keyText (t : Table) (key : Fields) : string :=
  String.concat "|" (List.map (fun kv => match snd kv with D_text s => s | D_date t => pretty t | _ => "" end) key).

(** A failing call spends a failure and applies nothing. *)
Definition call (apply : Tables -> Tables) : M string World unit := fun w =>
  match fst w with
  | O => (inr tt, (0, apply (snd w)))
  | S n => (inl "connection lost", (n, snd w))
  end.

Definition database : IngestOps string World := {|
  io_transaction t us := call (applyAll keyText (List.map (pair t) us));
  io_upsert t u := call (fun db => applyUpsert keyText db (t, u));
  io_priorOpenInterest _ _ _ := ret None;
  io_createTicks ticks := ret (length ticks);
  io_createJobRun _ := ret tt;
  io_now := ret 0%Z;
  io_error := id |}.

Definition rate (ts : Z) (text : string) : NormalizedFundingRate :=
  {| nf_exchange := "DERIBIT"; nf_symbol := "BTC-PERP"; nf_ts := ts; nf_rate := text; nf_nextTs := None |}.

Definition rates : Batch := B_funding [rate 0 "0.0001"; rate 28800000 "0.0002"; rate 0 "0.0003"].

Definition start : World := (1, fun _ _ => None).

Lemma database_laws : tableLaws database keyText snd.
Proof. split; intros; simpl; unfold call; by destruct (fst w). Qed.
End SampleTables.

Lemma reingest_converges_witness :
  exists w1 w2, fst (persist SampleTables.database SampleTables.rates SampleTables.start) = inl "connection lost"
    /\ w1 = snd (persist SampleTables.database SampleTables.rates SampleTables.start)
    /\ persist SampleTables.database SampleTables.rates w1 = (inr 3, w2)
    /\ sameTables (snd w2) (applyAll SampleTables.keyText (batchWrites SampleTables.rates) (fun _ _ => None)).
Proof.
  exists (0, snd SampleTables.start), (snd (persist SampleTables.database SampleTables.rates (0, snd SampleTables.start))).
  split; [reflexivity|]. split; [reflexivity|]. split; [reflexivity|].
  refine (proj2 (reingest_converges SampleTables.database SampleTables.keyText snd SampleTables.rates SampleTables.start
    (0, snd SampleTables.start) _ 3 SampleTables.database_laws _ _)); [|reflexivity].
  exact (run_step _ _ _ _ tt (run_refl _ _ _) I).
Defined.
