(* ===== verification/Backfill.v ===== *)
(** * Backfill: from venue history to persisted rows, reports and features

    services/ingestion/src/features/bridge.ts (a feature snapshot from an admitted window of
    candles) and services/ingestion/src/pipeline/backfill.ts (the loop over symbols and
    timeframes).  The connector of a venue (connectors/types.ts, ExchangeConnector) is a
    record of operations.  The locals of runBackfill that survive a throw are the state
    [Progress].  Log lines are left out. *)

From S2P Require Import Prelude JsNumber JsText Json Effects Served Signals MarketState Features Quality Ingestion.

Local Open Scope string_scope.
Local Open Scope list_scope.
Local Open Scope eff_scope.

(** ** bridge.ts *)

Definition DEFAULT_FEATURE_SET : string := "core-technical".
Definition DEFAULT_FEATURE_VERSION : number := nint 1.

Record FeatureBridgeInput := {
  bi_scope : FeatureScope;
  bi_candles : list NormalizedCandle;
  bi_dqReportId : string;
  bi_dqScore : number;
  bi_featureSet : option string;
  bi_version : option number
}.

Definition wireCandle (c : NormalizedCandle) : WireCandle := {|
  wc_ts := toISOString (nc_ts c); wc_open := nc_open c; wc_high := nc_high c; wc_low := nc_low c;
  wc_close := nc_close c; wc_volume := nc_volume c |}.

Definition bridgeRequest (input : FeatureBridgeInput) : FeatureComputeInput := {|
  fi_dqReportId := bi_dqReportId input;
  fi_dqScore := bi_dqScore input;
  fi_scope := bi_scope input;
  fi_featureSet := default DEFAULT_FEATURE_SET (bi_featureSet input);
  fi_version := default DEFAULT_FEATURE_VERSION (bi_version input);
  fi_candles := List.map wireCandle (bi_candles input) |}.

Section bridge.
Context {X W : Type} (syntaxError : string -> string) (parseDate : string -> option Z) (ops : FeatureOps X W).
Context (quantBaseUrl : string) (sharedSecret : option string).
(** [new FeatureBridgeError(message, code)] *)
Context (bridgeError : string -> string -> X).

Definition computeAndPersistFeatures (input : FeatureBridgeInput) : M X W PersistedFeatureSnapshot :=
  let request := bridgeRequest input in
  if nlt (bi_dqScore input) MIN_DATA_QUALITY_SCORE then
    throw (bridgeError ("dq_score " +:+ numToString (bi_dqScore input) +:+ " < " +:+ numToString MIN_DATA_QUALITY_SCORE
                        +:+ " — refusing to compute features (fail-closed)") "DQ_BELOW_MINIMUM")
  else if bool_decide (sc_exchange (bi_scope input) ∉ EXCHANGES) then
    throw (bridgeError ("unknown exchange " +:+ sc_exchange (bi_scope input)) "FEATURE_CONTRACT_MISMATCH")
  else if bool_decide (sc_timeframe (bi_scope input) ∉ TIMEFRAMES) then
    throw (bridgeError ("unknown timeframe " +:+ sc_timeframe (bi_scope input)) "FEATURE_CONTRACT_MISMATCH")
  else if bool_decide (bi_candles input = []) then
    throw (bridgeError "no candles to compute features from" "INSUFFICIENT_DATA")
  else
    let! result := computeFeatures syntaxError ops quantBaseUrl sharedSecret request in
    if differsFromRequest request result then
      throw (bridgeError (mismatchText request result) "FEATURE_CONTRACT_MISMATCH")
    else
      persistSnapshot parseDate ops request result
        (bridgeError ("no FeatureSetDefinition for " +:+ fe_featureSet result +:+ " v" +:+ numToString (fe_version result)
                      +:+ " (fail-closed)") "UNKNOWN_FEATURE_SET").
End bridge.

(** ** connectors/types.ts *)

Record ConnectorCapabilities := {
  cp_candles : bool;
  cp_funding : bool;
  cp_openInterest : bool;
  cp_longShortRatio : bool;
  cp_optionChain : bool;
  cp_liquidity : bool
}.

Record CandleBackfillRequest := {
  cb_symbol : string; cb_assetType : string; cb_timeframe : Timeframe; cb_from : Z; cb_to : Z
}.

Record FlowBackfillRequest := { fb_symbol : string; fb_from : Z; fb_to : Z }.

Record ExchangeConnector (X W : Type) := {
  ec_exchange : string;
  ec_capabilities : ConnectorCapabilities;
  ec_fetchCandles : CandleBackfillRequest -> M X W (list NormalizedCandle);
  ec_fetchFundingRates : FlowBackfillRequest -> M X W (list NormalizedFundingRate);
  ec_fetchOpenInterest : FlowBackfillRequest -> M X W (list NormalizedOpenInterest);
  ec_fetchLongShortRatios : FlowBackfillRequest -> M X W (list NormalizedLongShortRatio);
  ec_fetchOptionChain : string -> M X W (option NormalizedOptionChain);
  ec_fetchLiquidity : string -> M X W (option NormalizedLiquidity)
}.
Arguments ec_exchange {X W}.
Arguments ec_capabilities {X W}.
Arguments ec_fetchCandles {X W}.
Arguments ec_fetchFundingRates {X W}.
Arguments ec_fetchOpenInterest {X W}.
Arguments ec_fetchLongShortRatios {X W}.
Arguments ec_fetchOptionChain {X W}.
Arguments ec_fetchLiquidity {X W}.

(** ** backfill.ts *)

Record ValidatedWindow := {
  vw_scope : QualityScope; vw_candles : list NormalizedCandle; vw_reportId : string; vw_score : number; vw_status : DqStatus
}.

(** PipelineDeps, with the functions that read a caught value. *)
Record IngestDeps (X W D : Type) := {
  id_ingest : IngestOps X W;
  id_decimal : DecimalOps D;
  id_decimalError : string -> X;
  id_quality : QualityOps X W;
  id_quantBaseUrl : option string;
  id_syntaxError : string -> string;
  id_sha256 : string -> string;
  id_publish : string -> Json -> M X W unit;
  id_onCandlesValidated : option (ValidatedWindow -> M X W unit);
  id_errMsg : X -> string;
  (** the message of a StageBAuthError *)
  id_stageBAuth : X -> option string
}.
Arguments id_ingest {X W D}.
Arguments id_decimal {X W D}.
Arguments id_decimalError {X W D}.
Arguments id_quality {X W D}.
Arguments id_quantBaseUrl {X W D}.
Arguments id_syntaxError {X W D}.
Arguments id_sha256 {X W D}.
Arguments id_publish {X W D}.
Arguments id_onCandlesValidated {X W D}.
Arguments id_errMsg {X W D}.
Arguments id_stageBAuth {X W D}.

Record BackfillOptions := {
  bf_symbols : list (string * string);
  bf_timeframes : list Timeframe;
  bf_from : Z;
  bf_to : Z;
  bf_underlyings : list string
}.

Record BackfillSummary := {
  bs_candles : nat;
  bs_funding : nat;
  bs_oi : nat;
  bs_lsr : nat;
  bs_optionContracts : nat;
  bs_dqReports : list (string * number * DqStatus)
}.

Record Progress := { pg_summary : BackfillSummary; pg_errors : list (string * string) }.

Definition noProgress : Progress := {|
  pg_summary := {| bs_candles := 0; bs_funding := 0; bs_oi := 0; bs_lsr := 0; bs_optionContracts := 0; bs_dqReports := [] |};
  pg_errors := [] |}.

(** The five counters of the summary. *)
Inductive Counter := C_candles | C_funding | C_oi | C_lsr | C_optionContracts.

Definition addCount (c : Counter) (n : nat) (s : BackfillSummary) : BackfillSummary :=
  match c with
  | C_candles => {| bs_candles := bs_candles s + n; bs_funding := bs_funding s; bs_oi := bs_oi s; bs_lsr := bs_lsr s;
                    bs_optionContracts := bs_optionContracts s; bs_dqReports := bs_dqReports s |}
  | C_funding => {| bs_candles := bs_candles s; bs_funding := bs_funding s + n; bs_oi := bs_oi s; bs_lsr := bs_lsr s;
                    bs_optionContracts := bs_optionContracts s; bs_dqReports := bs_dqReports s |}
  | C_oi => {| bs_candles := bs_candles s; bs_funding := bs_funding s; bs_oi := bs_oi s + n; bs_lsr := bs_lsr s;
               bs_optionContracts := bs_optionContracts s; bs_dqReports := bs_dqReports s |}
  | C_lsr => {| bs_candles := bs_candles s; bs_funding := bs_funding s; bs_oi := bs_oi s; bs_lsr := bs_lsr s + n;
                bs_optionContracts := bs_optionContracts s; bs_dqReports := bs_dqReports s |}
  | C_optionContracts => {| bs_candles := bs_candles s; bs_funding := bs_funding s; bs_oi := bs_oi s; bs_lsr := bs_lsr s;
                            bs_optionContracts := bs_optionContracts s + n; bs_dqReports := bs_dqReports s |}
  end.

Definition counted (c : Counter) (n : nat) (p : Progress) : Progress :=
  {| pg_summary := addCount c n (pg_summary p); pg_errors := pg_errors p |}.

Definition reported (scope : string) (report : QualityReport) (p : Progress) : Progress :=
  let s := pg_summary p in
  {| pg_summary := {| bs_candles := bs_candles s; bs_funding := bs_funding s; bs_oi := bs_oi s; bs_lsr := bs_lsr s;
                      bs_optionContracts := bs_optionContracts s;
                      bs_dqReports := bs_dqReports s ++ [(scope, qr_score report, qr_status report)] |};
     pg_errors := pg_errors p |}.

Definition failed (scope error : string) (p : Progress) : Progress :=
  {| pg_summary := pg_summary p; pg_errors := pg_errors p ++ [(scope, error)] |}.

(** latestTs *)
Definition latestTs (timestamps : list Z) : option Z :=
  foldl (fun latest ts => match latest with Some l => if (l <? ts)%Z then Some ts else latest | None => Some ts end)
    None timestamps.

Definition reportEvent (exchange symbol : string) (report : QualityReport) : Json :=
  J_object [("reportId", J_string (qr_id report)); ("exchange", J_string exchange); ("symbol", J_string symbol);
            ("score", J_number (qr_score report)); ("status", J_string (showDqStatus (qr_status report)))].

Definition healthEvent (category severity detail : string) : Json :=
  J_object [("component", J_string "quant.stage-b"); ("category", J_string category); ("severity", J_string severity);
            ("detail", J_string detail)].

Definition flowEvent (exchange symbol kind : string) (ts : Z) : Json :=
  J_object [("exchange", J_string exchange); ("symbol", J_string symbol); ("kind", J_string kind);
            ("ts", J_string (toISOString ts))].

Definition countJson (n : nat) : Json := J_number (nint (Z.of_nat n)).

Section backfill.
Context {X W D : Type} (connector : ExchangeConnector X W) (opts : BackfillOptions) (deps : IngestDeps X W D).

Definition candleScope (symbol : string) (timeframe : Timeframe) : string :=
  ec_exchange connector +:+ ":" +:+ symbol +:+ ":" +:+ showTimeframe timeframe.

Definition windowScope (symbol : string) (timeframe : Timeframe) : QualityScope :=
  {| qc_exchange := ec_exchange connector; qc_symbol := symbol; qc_timeframe := timeframe; qc_from := bf_from opts; qc_to := bf_to opts |}.

(** The report of a window, and the feature hook for a PASSED one. *)
Definition featureHook (scope : string) (window : ValidatedWindow) : M X (Progress * W) unit :=
  match id_onCandlesValidated deps with
  | Some hook =>
      if bool_decide (vw_status window = DQ_PASSED) then
        catch (onWorld (hook window)) (fun err =>
          modify (fun s => (failed (scope +:+ ":features") (id_errMsg deps err) (fst s), snd s)))
      else ret tt
  | None => ret tt
  end.

(** The body of the try for one symbol and timeframe. *)
Definition candleWindow (symbol assetType : string) (timeframe : Timeframe) : M X (Progress * W) unit :=
  let scope := candleScope symbol timeframe in
  let! candles := onWorld (ec_fetchCandles connector
    {| cb_symbol := symbol; cb_assetType := assetType; cb_timeframe := timeframe; cb_from := bf_from opts; cb_to := bf_to opts |}) in
  let! n := onWorld (upsertCandles (id_ingest deps) candles) in
  do! modify (fun s => (counted C_candles n (fst s), snd s)) in
  let! report := onWorld (validateAndReport (id_syntaxError deps) (id_sha256 deps) (id_quality deps) (id_quantBaseUrl deps)
    (windowScope symbol timeframe) candles) in
  do! modify (fun s => (reported scope report (fst s), snd s)) in
  do! onWorld (id_publish deps "data.quality.report" (reportEvent (ec_exchange connector) symbol report)) in
  do! featureHook scope {| vw_scope := windowScope symbol timeframe; vw_candles := candles; vw_reportId := qr_id report;
                           vw_score := qr_score report; vw_status := qr_status report |} in
  match qr_stageBHealth report with
  | Some detail => onWorld (id_publish deps "system.health.degraded" (healthEvent "INFRA" "WARN" detail))
  | None => ret tt
  end.

Definition backfillCandles (symbol assetType : string) (timeframe : Timeframe) : M X (Progress * W) unit :=
  catch (candleWindow symbol assetType timeframe) (fun err =>
    do! match id_stageBAuth deps err with
        | Some message => onWorld (id_publish deps "system.health.degraded" (healthEvent "AUTH" "CRITICAL" message))
        | None => ret tt
        end in
    modify (fun s => (failed (candleScope symbol timeframe) (id_errMsg deps err) (fst s), snd s))).

(** A scope whose error is recorded and goes no further. *)
Definition isolated (scope : string) (m : M X (Progress * W) unit) : M X (Progress * W) unit :=
  catch m (fun err => modify (fun s => (failed scope (id_errMsg deps err) (fst s), snd s))).

(** Fetch, persist, count, and announce the latest time. *)
Definition backfillFlow {R} (kind suffix symbol : string) (counter : Counter)
    (fetch : FlowBackfillRequest -> M X W (list R)) (upsert : list R -> M X W nat) (ts : R -> Z) : M X (Progress * W) unit :=
  isolated (ec_exchange connector +:+ ":" +:+ symbol +:+ ":" +:+ suffix)
    (let! rows := onWorld (fetch {| fb_symbol := symbol; fb_from := bf_from opts; fb_to := bf_to opts |}) in
     let! n := onWorld (upsert rows) in
     do! modify (fun s => (counted counter n (fst s), snd s)) in
     match latestTs (List.map ts rows) with
     | Some t => onWorld (id_publish deps "data.flow.ingested" (flowEvent (ec_exchange connector) symbol kind t))
     | None => ret tt
     end).

Definition backfillLiquidity (symbol : string) : M X (Progress * W) unit :=
  isolated (ec_exchange connector +:+ ":" +:+ symbol +:+ ":liquidity")
    (let! row := onWorld (ec_fetchLiquidity connector symbol) in
     match row with
     | Some row => let! _ := onWorld (upsertLiquidity (id_ingest deps) row) in ret tt
     | None => ret tt
     end).

(** Flow data of one symbol, capability-gated. *)
Definition backfillSymbol (symbol : string) : M X (Progress * W) unit :=
  let cap := ec_capabilities connector in
  do! when (cp_funding cap)
        (backfillFlow "FUNDING" "funding" symbol C_funding (ec_fetchFundingRates connector)
           (upsertFundingRates (id_ingest deps)) nf_ts) in
  do! when (cp_openInterest cap)
        (backfillFlow "OPEN_INTEREST" "oi" symbol C_oi (ec_fetchOpenInterest connector)
           (upsertOpenInterest (id_ingest deps) (id_decimal deps) (id_decimalError deps)) ni_ts) in
  do! when (cp_longShortRatio cap)
        (backfillFlow "LONG_SHORT_RATIO" "lsr" symbol C_lsr (ec_fetchLongShortRatios connector)
           (upsertLongShortRatios (id_ingest deps)) nr_ts) in
  when (cp_liquidity cap) (backfillLiquidity symbol).

Definition backfillChain (underlying : string) : M X (Progress * W) unit :=
  isolated (ec_exchange connector +:+ ":" +:+ underlying +:+ ":options")
    (let! chain := onWorld (ec_fetchOptionChain connector underlying) in
     match chain with
     | None => ret tt
     | Some chain =>
         let! n := onWorld (upsertOptionChain (id_ingest deps) chain) in
         do! modify (fun s => (counted C_optionContracts n (fst s), snd s)) in
         onWorld (id_publish deps "data.options.chain.ingested"
           (J_object [("exchange", J_string (ec_exchange connector)); ("underlying", J_string underlying);
                      ("ts", J_string (toISOString (nh_ts chain))); ("contractCount", countJson n)]))
     end).

(** The three loops. *)
Definition backfillScopes : M X (Progress * W) unit :=
  do! when (cp_candles (ec_capabilities connector))
        (forEach (fun '(symbol, assetType) =>
           forEach (fun timeframe => backfillCandles symbol assetType timeframe) (bf_timeframes opts)) (bf_symbols opts)) in
  do! forEach (fun '(symbol, _) => backfillSymbol symbol) (bf_symbols opts) in
  when (cp_optionChain (ec_capabilities connector)) (forEach backfillChain (bf_underlyings opts)).

Definition startDetail : Json :=
  J_object [("from", J_string (toISOString (bf_from opts))); ("to", J_string (toISOString (bf_to opts)));
            ("symbols", J_array (List.map (fun s => J_string (fst s)) (bf_symbols opts)));
            ("timeframes", J_array (List.map (fun t => J_string (showTimeframe t)) (bf_timeframes opts)));
            ("underlyings", J_array (List.map J_string (bf_underlyings opts)))].

Definition finishDetail (p : Progress) : Json :=
  let s := pg_summary p in
  J_object [("candles", countJson (bs_candles s)); ("funding", countJson (bs_funding s)); ("oi", countJson (bs_oi s));
            ("lsr", countJson (bs_lsr s)); ("optionContracts", countJson (bs_optionContracts s));
            ("dqReports", countJson (length (bs_dqReports s)));
            ("errors", J_array (List.map (fun '(scope, error) =>
               J_object [("scope", J_string scope); ("error", J_string error)]) (pg_errors p)))].

Definition runBackfill : M X W BackfillSummary := fun w =>
  let job := "backfill:" +:+ ec_exchange connector in
  let '(r, (_, w')) :=
    (do! onWorld (heartbeat (id_ingest deps) job JS_RUNNING startDetail) in
     do! backfillScopes in
     let! p := gets fst in
     do! onWorld (heartbeat (id_ingest deps) job (if bool_decide (pg_errors p = []) then JS_OK else JS_FAILED) (finishDetail p)) in
     ret (pg_summary p)) (noProgress, w) in
  (r, w').
End backfill.
