(* ===== verification/Live.v ===== *)
(** * Live: the live ingestion daemon

    services/ingestion/src/pipeline/live.ts.  The warm-up, the bootstrap and the REST poll
    are computations over the world; the handlers of the stream and the flush loops, which
    interleave at every await, are a state machine whose events are the callbacks and the
    settlements of the awaited calls.  A Map is the list of its entries in insertion order,
    a deleted one keeping its place (ECMA-262, "Map Objects"), so that an iteration that is
    suspended sees what the others do.  Timers only start flushes, and log lines are left
    out. *)

From S2P Require Import Prelude JsNumber JsText Json Effects Served Signals MarketState Features Quality Ingestion Backfill.

Local Open Scope string_scope.
Local Open Scope list_scope.
Local Open Scope eff_scope.

Definition DEFAULT_FEATURE_WINDOW : nat := 300.
Definition MIN_FEATURE_CANDLES : nat := 201.
Definition ONE_DAY_MS : Z := 86400000.

(** packages/events *)
Definition DATA_CANDLE_INGESTED : string := "data.candle.ingested".

Record LiveIngestionOptions := {
  lo_symbols : list (string * string);
  lo_liveTimeframe : Timeframe;
  lo_underlyings : list string;
  lo_backfillFrom : Z;
  lo_backfillTo : Z;
  lo_featureSet : string;
  lo_featureVersion : number;
  lo_featureWindow : option nat
}.

(** The reads of the candle table; the decimal columns come as their [toString()]. *)
Record CandleStore (X W : Type) := {
  ce_count : string -> string -> Timeframe -> M X W nat;
  (** the newest rows, newest first, at most so many *)
  ce_findNewest : string -> string -> Timeframe -> nat -> M X W (list NormalizedCandle)
}.
Arguments ce_count {X W}.
Arguments ce_findNewest {X W}.

(** [l.slice(-n)] *)
Definition sliceLast {A} (n : nat) (l : list A) : list A :=
  match n with O => l | S _ => drop (length l - n) l end.

(** [Math.ceil(minCandles * 1.5) + 5] *)
Definition warmupBars (minCandles : nat) : Z := ((3 * Z.of_nat minCandles + 1) / 2 + 5)%Z.

Section live.
Context {X W D : Type} (connector : ExchangeConnector X W) (store : CandleStore X W) (deps : IngestDeps X W D).
Context (features : FeatureOps X W) (parseDate : string -> option Z) (sharedSecret : option string).
Context (bridgeError : string -> string -> X).

Definition ensureWarmupHistory (symbol assetType : string) (timeframe : Timeframe) (minCandles : nat) : M X W nat :=
  let exchange := ec_exchange connector in
  let! have := ce_count store exchange symbol timeframe in
  if (minCandles <=? have)%nat || negb (cp_candles (ec_capabilities connector)) then ret have
  else
    let! to := io_now (id_ingest deps) in
    let from := (to - warmupBars minCandles * TIMEFRAME_MS timeframe)%Z in
    do! catch
          (let! candles := ec_fetchCandles connector
             {| cb_symbol := symbol; cb_assetType := assetType; cb_timeframe := timeframe; cb_from := from; cb_to := to |} in
           let! _ := upsertCandles (id_ingest deps) candles in
           ret tt)
          (fun _ => ret tt) in
    ce_count store exchange symbol timeframe.

(** The bridge over a window of candles, stamped with its last time. *)
Definition bridgeWindow (url exchange symbol : string) (timeframe : Timeframe) (last : NormalizedCandle)
    (candles : list NormalizedCandle) (reportId : string) (score : number) (featureSet : string) (version : number) :
    M X W PersistedFeatureSnapshot :=
  computeAndPersistFeatures (id_syntaxError deps) parseDate features url sharedSecret bridgeError {|
    bi_scope := {| sc_exchange := exchange; sc_symbol := symbol; sc_timeframe := showTimeframe timeframe; sc_ts := Some (nc_ts last) |};
    bi_candles := candles; bi_dqReportId := reportId; bi_dqScore := score;
    bi_featureSet := Some featureSet; bi_version := Some version |}.

Definition materializeFeaturesFromDb (exchange symbol : string) (timeframe : Timeframe) (featureSet : string) (version : number)
    (featureWindow minCandles : option nat) : M X W (option PersistedFeatureSnapshot) :=
  match id_quantBaseUrl deps with
  | None => ret None
  | Some url =>
      let! rows := ce_findNewest store exchange symbol timeframe (default DEFAULT_FEATURE_WINDOW featureWindow) in
      if (length rows <? default MIN_FEATURE_CANDLES minCandles)%nat then ret None
      else
        let candles := rev rows in
        match candles, rows with
        | first :: _, last :: _ =>
            let! report := validateAndReport (id_syntaxError deps) (id_sha256 deps) (id_quality deps) (Some url)
              {| qc_exchange := exchange; qc_symbol := symbol; qc_timeframe := timeframe; qc_from := nc_ts first; qc_to := nc_ts last |}
              candles in
            if bool_decide (qr_status report <> DQ_PASSED) then ret None
            else
              let! snapshot := bridgeWindow url exchange symbol timeframe last candles (qr_id report) (qr_score report) featureSet version in
              ret (Some snapshot)
        | _, _ => ret None
        end
  end.

(** ** Bootstrap *)

Definition isPerp (s : string * string) : bool := bool_decide (snd s = "PERP").

(** onCandlesValidated of the bootstrap: features from the tail of the window. *)
Definition bootstrapHook (opts : LiveIngestionOptions) (url : string) (window : ValidatedWindow) : M X W unit :=
  let tail := sliceLast (default DEFAULT_FEATURE_WINDOW (lo_featureWindow opts)) (vw_candles window) in
  match List.last (List.map Some tail) None with
  | None => ret tt
  | Some last =>
      let scope := vw_scope window in
      let! _ := bridgeWindow url (qc_exchange scope) (qc_symbol scope) (qc_timeframe scope) last tail (vw_reportId window)
        (vw_score window) (lo_featureSet opts) (lo_featureVersion opts) in
      ret tt
  end.

Definition bootstrapDeps (opts : LiveIngestionOptions) : IngestDeps X W D := {|
  id_ingest := id_ingest deps;
  id_decimal := id_decimal deps;
  id_decimalError := id_decimalError deps;
  id_quality := id_quality deps;
  id_quantBaseUrl := id_quantBaseUrl deps;
  id_syntaxError := id_syntaxError deps;
  id_sha256 := id_sha256 deps;
  id_publish := id_publish deps;
  id_onCandlesValidated := bootstrapHook opts <$> id_quantBaseUrl deps;
  id_errMsg := id_errMsg deps;
  id_stageBAuth := id_stageBAuth deps |}.

Definition backfillOptions (opts : LiveIngestionOptions) : BackfillOptions := {|
  bf_symbols := List.filter isPerp (lo_symbols opts);
  bf_timeframes := [lo_liveTimeframe opts];
  bf_from := lo_backfillFrom opts;
  bf_to := lo_backfillTo opts;
  bf_underlyings := lo_underlyings opts |}.

Definition bootstrap (opts : LiveIngestionOptions) : M X W unit :=
  let! _ := runBackfill connector (backfillOptions opts) (bootstrapDeps opts) in
  ret tt.

(** ** The REST poll *)

(** A failure is logged and skipped. *)
Definition skipped (m : M X W unit) : M X W unit := catch m (fun _ => ret tt).

Definition pollSymbol (from to : Z) (symbol : string) : M X W unit :=
  let cap := ec_capabilities connector in
  let req := {| fb_symbol := symbol; fb_from := from; fb_to := to |} in
  skipped
    (do! when (cp_openInterest cap)
           (let! rows := ec_fetchOpenInterest connector req in
            let! _ := upsertOpenInterest (id_ingest deps) (id_decimal deps) (id_decimalError deps) rows in ret tt) in
     do! when (cp_longShortRatio cap)
           (let! rows := ec_fetchLongShortRatios connector req in
            let! _ := upsertLongShortRatios (id_ingest deps) rows in ret tt) in
     when (cp_liquidity cap)
       (let! row := ec_fetchLiquidity connector symbol in
        match row with
        | Some row => let! _ := upsertLiquidity (id_ingest deps) row in ret tt
        | None => ret tt
        end)).

Definition pollChain (underlying : string) : M X W unit :=
  skipped
    (let! chain := ec_fetchOptionChain connector underlying in
     match chain with
     | Some chain => let! _ := upsertOptionChain (id_ingest deps) chain in ret tt
     | None => ret tt
     end).

Definition pollFlow (perps : list (string * string)) (underlyings : list string) : M X W unit :=
  let! now := io_now (id_ingest deps) in
  do! forEach (fun '(symbol, _) => pollSymbol (now - ONE_DAY_MS) now symbol) perps in
  when (cp_optionChain (ec_capabilities connector)) (forEach pollChain underlyings).

(** ** The daemon up to the stream, and the body of its asynchronous handlers *)

Definition startLive (opts : LiveIngestionOptions) : M X W unit :=
  let perps := List.filter isPerp (lo_symbols opts) in
  if bool_decide (perps = []) then
    throw (io_error (id_ingest deps) ("no PERP symbols configured for live ingestion on " +:+ ec_exchange connector))
  else
    do! heartbeat (id_ingest deps) ("live:" +:+ ec_exchange connector) JS_RUNNING
          (J_object [("symbols", J_array (List.map (fun s => J_string (fst s)) perps));
                     ("timeframe", J_string (showTimeframe (lo_liveTimeframe opts)))]) in
    bootstrap opts.

(** onCandle: the answer says whether features are recomputed next. *)
Definition onCandle (candle : NormalizedCandle) : M X W bool :=
  catch
    (let! _ := upsertCandles (id_ingest deps) [candle] in
     do! id_publish deps DATA_CANDLE_INGESTED
           (J_object [("exchange", J_string (nc_exchange candle)); ("symbol", J_string (nc_symbol candle));
                      ("timeframe", J_string (showTimeframe (nc_timeframe candle))); ("ts", J_string (toISOString (nc_ts candle)))]) in
     ret true)
    (fun _ => ret false).

(** The asynchronous part of recomputeFeatures. *)
Definition recompute (opts : LiveIngestionOptions) (symbol : string) : M X W unit :=
  let perps := List.filter isPerp (lo_symbols opts) in
  skipped
    (do! match List.find (fun s => bool_decide (fst s = symbol)) perps with
         | Some (_, assetType) =>
             let! _ := ensureWarmupHistory symbol assetType (lo_liveTimeframe opts) MIN_FEATURE_CANDLES in ret tt
         | None => ret tt
         end in
     let! _ := materializeFeaturesFromDb (ec_exchange connector) symbol (lo_liveTimeframe opts) (lo_featureSet opts)
       (lo_featureVersion opts) (lo_featureWindow opts) None in
     ret tt).
End live.

(** ** Maps that are iterated while they change *)

Definition JsMap (V : Type) : Type := list (option (string * V)).

Section jsmap.
Context {V : Type}.

Fixpoint mapGet (k : string) (m : JsMap V) : option V :=
  match m with
  | [] => None
  | Some (k', v) :: m => if bool_decide (k' = k) then Some v else mapGet k m
  | None :: m => mapGet k m
  end.

(** [m.set(k, v)] *)
Fixpoint mapSet (k : string) (v : V) (m : JsMap V) : JsMap V :=
  match m with
  | [] => [Some (k, v)]
  | Some (k', v') :: m => if bool_decide (k' = k) then Some (k, v) :: m else Some (k', v') :: mapSet k v m
  | None :: m => None :: mapSet k v m
  end.

(** [m.clear()] *)
Definition mapClear (m : JsMap V) : JsMap V := List.map (fun _ => None) m.

Definition mapValues (m : JsMap V) : list V :=
  List.flat_map (fun e => match e with Some (_, v) => [v] | None => [] end) m.
End jsmap.

(** ** The buffers and their flushes *)

Inductive CallState := InFlight | Settled (ok : bool).

(** A call of upsertTicks with a batch taken from a buffer. *)
Record TickBatch := { tb_symbol : string; tb_ticks : list NormalizedTick; tb_state : CallState }.

(** A running flushTicks: the next entry of its iteration, or the batch it awaits. *)
Inductive TickFlush := TF_next (i : nat) | TF_await (i : nat) (batch : nat).

(** A running flushQuotes. *)
Inductive QuoteFlush :=
| QF_next (i : nat)
| QF_await (i : nat) (quote : NormalizedQuote)
| QF_funding (rates : list NormalizedFundingRate).

Record LiveState := {
  ls_tickBuffer : JsMap (list NormalizedTick);
  ls_latestQuote : JsMap NormalizedQuote;
  ls_latestFunding : JsMap NormalizedFundingRate;
  ls_recomputing : list string;
  ls_batches : list TickBatch;
  ls_tickFlushes : list (option TickFlush);
  ls_quoteFlushes : list (option QuoteFlush);
  (** the quotes and rates upserted, in the order their calls settled *)
  ls_quotesWritten : list (NormalizedQuote * bool);
  ls_fundingWritten : list (list NormalizedFundingRate * bool)
}.

Definition liveStart : LiveState := {|
  ls_tickBuffer := []; ls_latestQuote := []; ls_latestFunding := []; ls_recomputing := []; ls_batches := [];
  ls_tickFlushes := []; ls_quoteFlushes := []; ls_quotesWritten := []; ls_fundingWritten := [] |}.

Inductive LiveEvent :=
| E_trade (tick : NormalizedTick)
| E_quote (quote : NormalizedQuote)
| E_funding (rate : NormalizedFundingRate)
(** recomputeFeatures with the quant service configured; it starts a recomputation unless
    one of the symbol is running *)
| E_recompute (symbol : string)
| E_recomputed (symbol : string)
| E_flushTicks
| E_tickFlush (flush : nat) (ok : bool)
| E_flushQuotes
| E_quoteFlush (flush : nat) (ok : bool).

Definition withTicks (buffer : JsMap (list NormalizedTick)) (batches : list TickBatch) (flushes : list (option TickFlush))
    (s : LiveState) : LiveState := {|
  ls_tickBuffer := buffer; ls_latestQuote := ls_latestQuote s; ls_latestFunding := ls_latestFunding s;
  ls_recomputing := ls_recomputing s; ls_batches := batches; ls_tickFlushes := flushes;
  ls_quoteFlushes := ls_quoteFlushes s; ls_quotesWritten := ls_quotesWritten s; ls_fundingWritten := ls_fundingWritten s |}.

Definition withQuotes (quotes : JsMap NormalizedQuote) (funding : JsMap NormalizedFundingRate)
    (flushes : list (option QuoteFlush)) (quotesWritten : list (NormalizedQuote * bool))
    (fundingWritten : list (list NormalizedFundingRate * bool)) (s : LiveState) : LiveState := {|
  ls_tickBuffer := ls_tickBuffer s; ls_latestQuote := quotes; ls_latestFunding := funding;
  ls_recomputing := ls_recomputing s; ls_batches := ls_batches s; ls_tickFlushes := ls_tickFlushes s;
  ls_quoteFlushes := flushes; ls_quotesWritten := quotesWritten; ls_fundingWritten := fundingWritten |}.

Definition withRecomputing (symbols : list string) (s : LiveState) : LiveState := {|
  ls_tickBuffer := ls_tickBuffer s; ls_latestQuote := ls_latestQuote s; ls_latestFunding := ls_latestFunding s;
  ls_recomputing := symbols; ls_batches := ls_batches s; ls_tickFlushes := ls_tickFlushes s;
  ls_quoteFlushes := ls_quoteFlushes s; ls_quotesWritten := ls_quotesWritten s; ls_fundingWritten := ls_fundingWritten s |}.

(** onTrade *)
Definition onTrade (tick : NormalizedTick) (buffer : JsMap (list NormalizedTick)) : JsMap (list NormalizedTick) :=
  mapSet (nk_symbol tick) (default [] (mapGet (nk_symbol tick) buffer) ++ [tick]) buffer.

(** One turn of flushTicks: look at an entry, take its buffer (splice), or settle the call
    that is awaited. *)
Definition tickFlushStep (flush : TickFlush) (ok : bool) (buffer : JsMap (list NormalizedTick)) (batches : list TickBatch) :
    option TickFlush * JsMap (list NormalizedTick) * list TickBatch :=
  match flush with
  | TF_next i =>
      match buffer !! i with
      | None => (None, buffer, batches)
      | Some None | Some (Some (_, [])) => (Some (TF_next (S i)), buffer, batches)
      | Some (Some (symbol, ticks)) =>
          (Some (TF_await (S i) (length batches)), mapSet symbol [] buffer,
           batches ++ [{| tb_symbol := symbol; tb_ticks := ticks; tb_state := InFlight |}])
      end
  | TF_await i b =>
      (Some (TF_next i), buffer,
       alter (fun batch => {| tb_symbol := tb_symbol batch; tb_ticks := tb_ticks batch; tb_state := Settled ok |}) b batches)
  end.

(** One turn of flushQuotes. *)
Definition quoteFlushStep (flush : QuoteFlush) (ok : bool) (s : LiveState) : option QuoteFlush * LiveState :=
  match flush with
  | QF_next i =>
      match ls_latestQuote s !! i with
      | Some (Some (_, quote)) => (Some (QF_await (S i) quote), s)
      | Some None => (Some (QF_next (S i)), s)
      | None =>
          let rates := mapValues (ls_latestFunding s) in
          (match rates with [] => None | _ => Some (QF_funding rates) end,
           withQuotes (mapClear (ls_latestQuote s)) (mapClear (ls_latestFunding s)) (ls_quoteFlushes s)
             (ls_quotesWritten s) (ls_fundingWritten s) s)
      end
  | QF_await i quote =>
      (Some (QF_next i),
       withQuotes (ls_latestQuote s) (ls_latestFunding s) (ls_quoteFlushes s) (ls_quotesWritten s ++ [(quote, ok)])
         (ls_fundingWritten s) s)
  | QF_funding rates =>
      (None,
       withQuotes (ls_latestQuote s) (ls_latestFunding s) (ls_quoteFlushes s) (ls_quotesWritten s)
         (ls_fundingWritten s ++ [(rates, ok)]) s)
  end.

Definition liveStep (s : LiveState) (e : LiveEvent) : LiveState :=
  match e with
  | E_trade tick => withTicks (onTrade tick (ls_tickBuffer s)) (ls_batches s) (ls_tickFlushes s) s
  | E_quote quote =>
      withQuotes (mapSet (nq_symbol quote) quote (ls_latestQuote s)) (ls_latestFunding s) (ls_quoteFlushes s)
        (ls_quotesWritten s) (ls_fundingWritten s) s
  | E_funding rate =>
      withQuotes (ls_latestQuote s) (mapSet (nf_symbol rate) rate (ls_latestFunding s)) (ls_quoteFlushes s)
        (ls_quotesWritten s) (ls_fundingWritten s) s
  | E_recompute symbol =>
      if bool_decide (symbol ∈ ls_recomputing s) then s else withRecomputing (ls_recomputing s ++ [symbol]) s
  | E_recomputed symbol => withRecomputing (List.filter (fun x => negb (bool_decide (x = symbol))) (ls_recomputing s)) s
  | E_flushTicks => withTicks (ls_tickBuffer s) (ls_batches s) (ls_tickFlushes s ++ [Some (TF_next 0)]) s
  | E_tickFlush i ok =>
      match ls_tickFlushes s !! i with
      | Some (Some flush) =>
          let '(flush, buffer, batches) := tickFlushStep flush ok (ls_tickBuffer s) (ls_batches s) in
          withTicks buffer batches (<[i := flush]> (ls_tickFlushes s)) s
      | _ => s
      end
  | E_flushQuotes =>
      withQuotes (ls_latestQuote s) (ls_latestFunding s) (ls_quoteFlushes s ++ [Some (QF_next 0)]) (ls_quotesWritten s)
        (ls_fundingWritten s) s
  | E_quoteFlush i ok =>
      match ls_quoteFlushes s !! i with
      | Some (Some flush) =>
          let '(flush, s) := quoteFlushStep flush ok s in
          withQuotes (ls_latestQuote s) (ls_latestFunding s) (<[i := flush]> (ls_quoteFlushes s)) (ls_quotesWritten s)
            (ls_fundingWritten s) s
      | _ => s
      end
  end.
