(* ===== verification/LiveFacts.v ===== *)
(** * LiveFacts: the progress of a backfill

    A backfill runs a plan of scopes: each ends as its calls do ([windowEnds], [ends]), adds
    what it wrote to the summary and what it threw to the errors, and goes no further.  Then what the daemon writes: which of
    its calls leave feature rows and reports alone, and the invariant of its tick
    buffers. *)

From S2P Require Import Prelude JsNumber Served JsText JsDecimal Json Effects Signals DecisionFacts MarketState.
From S2P Require Import Features FeatureProps Quality Ingestion Backfill Live.

Local Open Scope string_scope.
Local Open Scope list_scope.
Local Open Scope eff_scope.

#[export] Instance heartbeat_returning {X W} (ops : IngestOps X W) job status detail :
  Returning (heartbeat ops job status detail).
Proof. unfold heartbeat. apply _. Qed.

(** ** The scopes of a backfill *)

(** What a backfill does, one isolated scope after another. *)
Inductive BackfillScope :=
| S_candles (symbol assetType : string) (timeframe : Timeframe)
| S_funding (symbol : string)
| S_openInterest (symbol : string)
| S_longShortRatio (symbol : string)
| S_liquidity (symbol : string)
| S_options (underlying : string).

Definition counterValue (c : Counter) (s : BackfillSummary) : nat :=
  match c with
  | C_candles => bs_candles s | C_funding => bs_funding s | C_oi => bs_oi s | C_lsr => bs_lsr s
  | C_optionContracts => bs_optionContracts s
  end.

#[export] Instance Counter_eq_dec : EqDecision Counter.
Proof. solve_decision. Defined.

(** A scope adds n to one counter, and these reports and errors; nothing else changes. *)
Definition adds (c : option Counter) (n : nat) (reports : list (string * number * DqStatus))
    (errors : list (string * string)) (p p' : Progress) : Prop :=
  (forall c', counterValue c' (pg_summary p') = counterValue c' (pg_summary p) + if decide (c = Some c') then n else 0)
  /\ bs_dqReports (pg_summary p') = bs_dqReports (pg_summary p) ++ reports
  /\ pg_errors p' = pg_errors p ++ errors.

Lemma adds_nothing c p : adds c 0 [] [] p p.
Proof. split_and!; [intros c'; by destruct (decide _); rewrite Nat.add_0_r|by rewrite app_nil_r..]. Qed.

Lemma adds_none n p : adds None n [] [] p p.
Proof. split_and!; [intros c'; by rewrite Nat.add_0_r|by rewrite app_nil_r..]. Qed.

Lemma adds_counted c n p : adds (Some c) n [] [] p (counted c n p).
Proof.
  split_and!; [|simpl; by destruct c; rewrite app_nil_r|by simpl; rewrite app_nil_r].
  intros c'. destruct (decide (Some c = Some c')) as [[= <-]|H]; [by destruct c|].
  rewrite Nat.add_0_r. destruct c, c'; try done.
Qed.

Lemma adds_reported c n p p' scope report :
  adds c n [] [] p p' -> adds c n [(scope, qr_score report, qr_status report)] [] p (reported scope report p').
Proof.
  intros (H1 & H2 & H3). split_and!; [|simpl; by rewrite H2, app_nil_r|done].
  intros c'. rewrite <- H1. by destruct c'.
Qed.

Lemma adds_failed c n reports errors p p' scope error :
  adds c n reports errors p p' -> adds c n reports (errors ++ [(scope, error)]) p (failed scope error p').
Proof. intros (H1 & H2 & H3). split_and!; [done|done|]. simpl. by rewrite H3, app_assoc. Qed.

(** How the work of a scope ends: fetch a value, persist it if there is something to
    persist, and announce what was written. *)
Section work.
Context {X W R : Type}.
Context (fetch : M X W R) (persist : R -> option (M X W nat)) (announce : R -> option (nat -> M X W unit)).

(** From a world, with the number written and the error thrown, to a world. *)
Inductive ends (w : W) : nat -> option X -> W -> Prop :=
| ends_unfetched x w' : fetch w = (inl x, w') -> ends w 0 (Some x) w'
| ends_nothing a w' : fetch w = (inr a, w') -> persist a = None -> ends w 0 None w'
| ends_unsaved a save x w1 w' :
    fetch w = (inr a, w1) -> persist a = Some save -> save w1 = (inl x, w') -> ends w 0 (Some x) w'
| ends_quiet a save n w1 w' :
    fetch w = (inr a, w1) -> persist a = Some save -> save w1 = (inr n, w') -> announce a = None -> ends w n None w'
| ends_announced a save n publish w1 w2 w' :
    fetch w = (inr a, w1) -> persist a = Some save -> save w1 = (inr n, w2) -> announce a = Some publish ->
    publish n w2 = (inr tt, w') -> ends w n None w'
| ends_unannounced a save n publish x w1 w2 w' :
    fetch w = (inr a, w1) -> persist a = Some save -> save w1 = (inr n, w2) -> announce a = Some publish ->
    publish n w2 = (inl x, w') -> ends w n (Some x) w'.
End work.

Section backfill.
Context {X W D : Type} (connector : ExchangeConnector X W) (opts : BackfillOptions) (deps : IngestDeps X W D).

(** The error a scope records. *)
Definition errorsOf (scope : string) (err : option X) : list (string * string) :=
  match err with Some x => [(scope, id_errMsg deps x)] | None => [] end.

(** ** A window of candles *)

(** The feature hook of a window: called when there is one and the window PASSED; what it
    throws is an error of its own scope. *)
Definition hookEnds (scope : string) (window : ValidatedWindow) (w : W) (errors : list (string * string)) (w' : W) : Prop :=
  match id_onCandlesValidated deps with
  | Some hook =>
      if bool_decide (vw_status window = DQ_PASSED) then
        exists r, hook window w = (r, w') /\ errors = errorsOf (scope +:+ ":features") (match r with inl x => Some x | inr _ => None end)
      else errors = [] /\ w' = w
  | None => errors = [] /\ w' = w
  end.

(** The publication of a degraded statistical check. *)
Definition healthEnds (report : QualityReport) (w : W) (err : option X) (w' : W) : Prop :=
  match qr_stageBHealth report with
  | Some detail => exists r, id_publish deps "system.health.degraded" (healthEvent "INFRA" "WARN" detail) w = (r, w')
      /\ err = match r with inl x => Some x | inr _ => None end
  | None => err = None /\ w' = w
  end.

Section window.
Context (symbol assetType : string) (timeframe : Timeframe).

Definition windowRequest : CandleBackfillRequest :=
  {| cb_symbol := symbol; cb_assetType := assetType; cb_timeframe := timeframe; cb_from := bf_from opts; cb_to := bf_to opts |}.

Definition windowReport (candles : list NormalizedCandle) : M X W QualityReport :=
  validateAndReport (id_syntaxError deps) (id_sha256 deps) (id_quality deps) (id_quantBaseUrl deps)
    (windowScope connector opts symbol timeframe) candles.

Definition scopeOf : string := candleScope connector symbol timeframe.

Definition reportLine (report : QualityReport) : string * number * DqStatus := (scopeOf, qr_score report, qr_status report).

(** How a window ends: the candles written, the report and the errors recorded, and what was
    thrown. *)
Inductive windowEnds (w : W) :
    nat -> list (string * number * DqStatus) -> list (string * string) -> option X -> W -> Prop :=
| window_unfetched x w' : ec_fetchCandles connector windowRequest w = (inl x, w') -> windowEnds w 0 [] [] (Some x) w'
| window_unsaved candles x w1 w' :
    ec_fetchCandles connector windowRequest w = (inr candles, w1) ->
    upsertCandles (id_ingest deps) candles w1 = (inl x, w') -> windowEnds w 0 [] [] (Some x) w'
| window_unreported candles n x w1 w2 w' :
    ec_fetchCandles connector windowRequest w = (inr candles, w1) ->
    upsertCandles (id_ingest deps) candles w1 = (inr n, w2) ->
    windowReport candles w2 = (inl x, w') -> windowEnds w n [] [] (Some x) w'
| window_unannounced candles n report x w1 w2 w3 w' :
    ec_fetchCandles connector windowRequest w = (inr candles, w1) ->
    upsertCandles (id_ingest deps) candles w1 = (inr n, w2) ->
    windowReport candles w2 = (inr report, w3) ->
    id_publish deps "data.quality.report" (reportEvent (ec_exchange connector) symbol report) w3 = (inl x, w') ->
    windowEnds w n [reportLine report] [] (Some x) w'
| window_done candles n report errors err w1 w2 w3 w4 w5 w' :
    ec_fetchCandles connector windowRequest w = (inr candles, w1) ->
    upsertCandles (id_ingest deps) candles w1 = (inr n, w2) ->
    windowReport candles w2 = (inr report, w3) ->
    id_publish deps "data.quality.report" (reportEvent (ec_exchange connector) symbol report) w3 = (inr tt, w4) ->
    hookEnds scopeOf {| vw_scope := windowScope connector opts symbol timeframe; vw_candles := candles;
      vw_reportId := qr_id report; vw_score := qr_score report; vw_status := qr_status report |} w4 errors w5 ->
    healthEnds report w5 err w' -> windowEnds w n [reportLine report] errors err w'.

(** The announcement of a rejected secret, which must not throw. *)
Definition authAnnounced (err : option X) (w w' : W) : Prop :=
  match err with
  | Some x => match id_stageBAuth deps x with
      | Some message => id_publish deps "system.health.degraded" (healthEvent "AUTH" "CRITICAL" message) w = (inr tt, w')
      | None => w' = w
      end
  | None => w' = w
  end.
End window.

(** ** Every scope *)

Definition flowRequest (symbol : string) : FlowBackfillRequest :=
  {| fb_symbol := symbol; fb_from := bf_from opts; fb_to := bf_to opts |}.

(** The latest time of the rows is announced, if there is one. *)
Definition announceFlow {R} (kind symbol : string) (ts : R -> Z) (rows : list R) : option (nat -> M X W unit) :=
  match latestTs (List.map ts rows) with
  | Some t => Some (fun _ => id_publish deps "data.flow.ingested" (flowEvent (ec_exchange connector) symbol kind t))
  | None => None
  end.

Definition announceChain (underlying : string) (chain : option NormalizedOptionChain) : option (nat -> M X W unit) :=
  match chain with
  | Some chain => Some (fun n => id_publish deps "data.options.chain.ingested"
      (J_object [("exchange", J_string (ec_exchange connector)); ("underlying", J_string underlying);
                 ("ts", J_string (toISOString (nh_ts chain))); ("contractCount", countJson n)]))
  | None => None
  end.

Definition named (symbol suffix : string) : string := ec_exchange connector +:+ ":" +:+ symbol +:+ ":" +:+ suffix.

Definition scopeName (s : BackfillScope) : string :=
  match s with
  | S_candles symbol _ timeframe => candleScope connector symbol timeframe
  | S_funding symbol => named symbol "funding"
  | S_openInterest symbol => named symbol "oi"
  | S_longShortRatio symbol => named symbol "lsr"
  | S_liquidity symbol => named symbol "liquidity"
  | S_options underlying => named underlying "options"
  end.

(** What a flow scope fetches, writes and announces. *)
Definition flowEnds (s : BackfillScope) (w : W) (n : nat) (err : option X) (w' : W) : Prop :=
  match s with
  | S_candles _ _ _ => False
  | S_funding symbol =>
      ends (ec_fetchFundingRates connector (flowRequest symbol)) (fun rows => Some (upsertFundingRates (id_ingest deps) rows))
        (announceFlow "FUNDING" symbol nf_ts) w n err w'
  | S_openInterest symbol =>
      ends (ec_fetchOpenInterest connector (flowRequest symbol))
        (fun rows => Some (upsertOpenInterest (id_ingest deps) (id_decimal deps) (id_decimalError deps) rows))
        (announceFlow "OPEN_INTEREST" symbol ni_ts) w n err w'
  | S_longShortRatio symbol =>
      ends (ec_fetchLongShortRatios connector (flowRequest symbol)) (fun rows => Some (upsertLongShortRatios (id_ingest deps) rows))
        (announceFlow "LONG_SHORT_RATIO" symbol nr_ts) w n err w'
  | S_liquidity symbol =>
      ends (ec_fetchLiquidity connector symbol) (option_map (upsertLiquidity (id_ingest deps))) (fun _ => None) w n err w'
  | S_options underlying =>
      ends (ec_fetchOptionChain connector underlying) (option_map (upsertOptionChain (id_ingest deps)))
        (announceChain underlying) w n err w'
  end.

(** The counter of the summary a scope adds to; liquidity has none. *)
Definition counterOf (s : BackfillScope) : option Counter :=
  match s with
  | S_candles _ _ _ => Some C_candles | S_funding _ => Some C_funding | S_openInterest _ => Some C_oi
  | S_longShortRatio _ => Some C_lsr | S_liquidity _ => None | S_options _ => Some C_optionContracts
  end.

(** One scope of a backfill, from a progress and a world to the next: what was written is
    counted, and what was thrown is the scope's error. *)
Inductive scopeRuns : BackfillScope -> Progress * W -> Progress * W -> Prop :=
| runs_candles symbol assetType timeframe p w n reports errors err w1 p' w' :
    windowEnds symbol assetType timeframe w n reports errors err w1 -> authAnnounced err w1 w' ->
    adds (Some C_candles) n reports (errors ++ errorsOf (candleScope connector symbol timeframe) err) p p' ->
    scopeRuns (S_candles symbol assetType timeframe) (p, w) (p', w')
| runs_flow s p w n err p' w' :
    flowEnds s w n err w' -> adds (counterOf s) n [] (errorsOf (scopeName s) err) p p' -> scopeRuns s (p, w) (p', w').

(** The scopes of a backfill in their order, as the venue's capabilities allow. *)
Definition candlePlan : list BackfillScope :=
  if cp_candles (ec_capabilities connector) then
    List.flat_map (fun s => List.map (S_candles (fst s) (snd s)) (bf_timeframes opts)) (bf_symbols opts)
  else [].

Definition symbolPlan (symbol : string) : list BackfillScope :=
  let cap := ec_capabilities connector in
  (if cp_funding cap then [S_funding symbol] else []) ++ (if cp_openInterest cap then [S_openInterest symbol] else [])
  ++ (if cp_longShortRatio cap then [S_longShortRatio symbol] else []) ++ (if cp_liquidity cap then [S_liquidity symbol] else []).

Definition chainPlan : list BackfillScope :=
  if cp_optionChain (ec_capabilities connector) then List.map S_options (bf_underlyings opts) else [].

Definition backfillPlan : list BackfillScope :=
  candlePlan ++ List.flat_map (fun s => symbolPlan (fst s)) (bf_symbols opts) ++ chainPlan.

(** A plan runs scope by scope. *)
Inductive planRuns : list BackfillScope -> Progress * W -> Progress * W -> Prop :=
| plan_done s : planRuns [] s s
| plan_next scope plan s s1 s' : scopeRuns scope s s1 -> planRuns plan s1 s' -> planRuns (scope :: plan) s s'.

Lemma planRuns_app plan plan' s s1 s' : planRuns plan s s1 -> planRuns plan' s1 s' -> planRuns (plan ++ plan') s s'.
Proof. intros H H'. induction H as [|scope plan s s1 s2 Hs _ IH]; simpl; [done|]. by eapply plan_next, IH. Qed.

Lemma planRuns_one scope s s' : scopeRuns scope s s' -> planRuns [scope] s s'.
Proof. intros H. eapply plan_next; [exact H|constructor]. Qed.

(** ** The code runs its plan *)

Lemma backfillFlow_ends {R} kind suffix symbol counter fetch (upsert : list R -> M X W nat) ts p w :
  exists n err p' w', backfillFlow connector opts deps kind suffix symbol counter fetch upsert ts (p, w) = (inr tt, (p', w'))
    /\ ends (fetch (flowRequest symbol)) (fun rows => Some (upsert rows)) (announceFlow kind symbol ts) w n err w'
    /\ adds (Some counter) n [] (errorsOf (named symbol suffix) err) p p'.
Proof.
  unfold backfillFlow, isolated. cbv beta iota delta [bind catch onWorld modify ret fst snd]. fold (flowRequest symbol).
  destruct (fetch (flowRequest symbol) w) as [[x|rows] w1] eqn:E1.
  { exists 0, (Some x). eexists _, _. split; [reflexivity|]. split; [by apply ends_unfetched|].
    apply (adds_failed _ _ _ []), adds_nothing. }
  destruct (upsert rows w1) as [[x|n] w2] eqn:E2.
  { exists 0, (Some x). eexists _, _. split; [reflexivity|]. split; [by eapply ends_unsaved|].
    apply (adds_failed _ _ _ []), adds_nothing. }
  assert (announceFlow kind symbol ts rows = announceFlow kind symbol ts rows) as EA by done. revert EA.
  unfold announceFlow at 2. destruct (latestTs (List.map ts rows)) as [t|] eqn:Et; intros EA.
  - destruct (id_publish deps "data.flow.ingested" _ w2) as [[x|[]] w3] eqn:E3.
    + exists n, (Some x). eexists _, _. split; [reflexivity|]. split; [by eapply ends_unannounced|].
      apply (adds_failed _ _ _ []), adds_counted.
    + exists n, None. eexists _, _. split; [reflexivity|]. split; [by eapply ends_announced|apply adds_counted].
  - exists n, None. eexists _, _. split; [reflexivity|]. split; [by eapply ends_quiet|apply adds_counted].
Qed.

Lemma backfillLiquidity_runs symbol p w :
  exists s', backfillLiquidity connector deps symbol (p, w) = (inr tt, s') /\ scopeRuns (S_liquidity symbol) (p, w) s'.
Proof.
  unfold backfillLiquidity, isolated. cbv beta iota delta [bind catch onWorld modify ret fst snd].
  destruct (ec_fetchLiquidity connector symbol w) as [[x|[row|]] w1] eqn:E1.
  - eexists. split; [reflexivity|]. eapply runs_flow; [by apply ends_unfetched|]. apply (adds_failed _ _ _ []), adds_nothing.
  - destruct (upsertLiquidity (id_ingest deps) row w1) as [[x|n] w2] eqn:E2.
    + eexists. split; [reflexivity|]. eapply runs_flow; [by eapply ends_unsaved|]. apply (adds_failed _ _ _ []), adds_nothing.
    + eexists. split; [reflexivity|]. eapply runs_flow; [by eapply ends_quiet|apply adds_none].
  - eexists. split; [reflexivity|]. eapply runs_flow; [by eapply ends_nothing|apply adds_nothing].
Qed.

Lemma backfillChain_runs underlying p w :
  exists s', backfillChain connector deps underlying (p, w) = (inr tt, s') /\ scopeRuns (S_options underlying) (p, w) s'.
Proof.
  unfold backfillChain, isolated. cbv beta iota delta [bind catch onWorld modify ret fst snd].
  destruct (ec_fetchOptionChain connector underlying w) as [[x|[chain|]] w1] eqn:E1.
  - eexists. split; [reflexivity|]. eapply runs_flow; [by apply ends_unfetched|]. apply (adds_failed _ _ _ []), adds_nothing.
  - destruct (upsertOptionChain (id_ingest deps) chain w1) as [[x|n] w2] eqn:E2.
    { eexists. split; [reflexivity|]. eapply runs_flow; [by eapply ends_unsaved|]. apply (adds_failed _ _ _ []), adds_nothing. }
    destruct (id_publish deps "data.options.chain.ingested" _ w2) as [[x|[]] w3] eqn:E3.
    + eexists. split; [reflexivity|]. eapply runs_flow; [by eapply ends_unannounced|]. apply (adds_failed _ _ _ []), adds_counted.
    + eexists. split; [reflexivity|]. eapply runs_flow; [by eapply ends_announced|apply adds_counted].
  - eexists. split; [reflexivity|]. eapply runs_flow; [by eapply ends_nothing|apply adds_nothing].
Qed.

(** The computation runs a plan and returns. *)
Definition runsPlan (plan : list BackfillScope) (m : M X (Progress * W) unit) : Prop :=
  forall p w, exists s', m (p, w) = (inr tt, s') /\ planRuns plan (p, w) s'.

Lemma runsPlan_bind plan plan' m k : runsPlan plan m -> runsPlan plan' k -> runsPlan (plan ++ plan') (bind m (fun _ => k)).
Proof.
  intros Hm Hk p w. destruct (Hm p w) as ([p1 w1] & E1 & H1). destruct (Hk p1 w1) as (s' & E2 & H2).
  exists s'. unfold bind. rewrite E1. split; [done|]. by eapply planRuns_app.
Qed.

Lemma runsPlan_when (b : bool) plan m : runsPlan plan m -> runsPlan (if b then plan else []) (when b m).
Proof. intros H. destruct b; [done|]. intros p w. exists (p, w). split; [reflexivity|constructor]. Qed.

Lemma runsPlan_forEach {A} (f : A -> M X (Progress * W) unit) plan l :
  (forall a, runsPlan (plan a) (f a)) -> runsPlan (List.flat_map plan l) (forEach f l).
Proof.
  intros H. induction l as [|a l IH]; simpl; [|by apply runsPlan_bind].
  intros p w. exists (p, w). split; [reflexivity|constructor].
Qed.

Lemma flow_runsPlan {R} scope kind suffix symbol counter fetch (upsert : list R -> M X W nat) ts :
  (forall w n err w', ends (fetch (flowRequest symbol)) (fun rows => Some (upsert rows)) (announceFlow kind symbol ts) w n err w' ->
     flowEnds scope w n err w') ->
  counterOf scope = Some counter -> scopeName scope = named symbol suffix ->
  runsPlan [scope] (backfillFlow connector opts deps kind suffix symbol counter fetch upsert ts).
Proof.
  intros He Hc Hs p w.
  destruct (backfillFlow_ends kind suffix symbol counter fetch upsert ts p w) as (n & err & p' & w' & E & H & HA).
  eexists. split; [exact E|]. apply planRuns_one. eapply runs_flow; [by apply He|]. by rewrite Hc, Hs.
Qed.

Lemma backfillSymbol_runsPlan symbol : runsPlan (symbolPlan symbol) (backfillSymbol connector opts deps symbol).
Proof.
  unfold symbolPlan, backfillSymbol. repeat (apply runsPlan_bind; [apply runsPlan_when; by eapply flow_runsPlan|]).
  apply runsPlan_when. intros p w. destruct (backfillLiquidity_runs symbol p w) as (s' & E & H).
  exists s'. split; [done|by apply planRuns_one].
Qed.

(** The only throw: the publication that announces a rejected secret. *)
Definition authPublishThrows (x : X) : Prop :=
  exists err message w w', id_stageBAuth deps err = Some message
    /\ id_publish deps "system.health.degraded" (healthEvent "AUTH" "CRITICAL" message) w = (inl x, w').

Lemma featureHook_ends scope window p w :
  exists errors w' p', featureHook deps scope window (p, w) = (inr tt, (p', w'))
    /\ hookEnds scope window w errors w' /\ forall c n reports p0, adds c n reports [] p0 p -> adds c n reports errors p0 p'.
Proof.
  unfold featureHook, hookEnds. destruct (id_onCandlesValidated deps) as [hook|]; [case_bool_decide|];
    [|by exists [], w, p..].
  unfold catch, onWorld. cbn [fst snd]. destruct (hook window w) as [[x|[]] w'].
  - eexists _, w', _. split; [reflexivity|]. split; [by eexists|]. intros c n reports p0. apply (adds_failed _ _ _ []).
  - eexists [], w', p. split; [reflexivity|]. split; [by eexists|done].
Qed.

(** The body of the try of a window, up to its catch. *)
Lemma candleWindow_ends symbol assetType timeframe p w :
  exists n reports errors err r p' w', candleWindow connector opts deps symbol assetType timeframe (p, w) = (r, (p', w'))
    /\ err = match r with inl x => Some x | inr _ => None end
    /\ windowEnds symbol assetType timeframe w n reports errors err w' /\ adds (Some C_candles) n reports errors p p'.
Proof.
  unfold candleWindow. fold (windowRequest symbol assetType timeframe). fold (scopeOf symbol timeframe).
  cbv beta iota delta [bind onWorld modify fst snd].
  destruct (ec_fetchCandles connector (windowRequest symbol assetType timeframe) w) as [[x|candles] w1] eqn:E1.
  { eexists 0, [], [], (Some x), (inl x), p, w1. split_and!; [done..|by apply window_unfetched|apply adds_nothing]. }
  destruct (upsertCandles (id_ingest deps) candles w1) as [[x|n] w2] eqn:E2.
  { eexists 0, [], [], (Some x), (inl x), p, w2. split_and!; [done..|by eapply window_unsaved|apply adds_nothing]. }
  fold (windowReport symbol timeframe candles).
  destruct (windowReport symbol timeframe candles w2) as [[x|report] w3] eqn:E3.
  { eexists n, [], [], (Some x), (inl x), _, w3. split_and!; [done..|by eapply window_unreported|apply adds_counted]. }
  pose proof (adds_reported (Some C_candles) n p _ (scopeOf symbol timeframe) report (adds_counted C_candles n p)) as HA.
  destruct (id_publish deps "data.quality.report" _ w3) as [[x|[]] w4] eqn:E4.
  { eexists n, _, [], (Some x), (inl x), _, w4. split_and!; [done..|by eapply window_unannounced|exact HA]. }
  match goal with |- context [featureHook deps ?scope ?window (?p', w4)] =>
    destruct (featureHook_ends scope window p' w4) as (errors & w5 & p5 & -> & Hh & Hp) end.
  unfold ret. destruct (qr_stageBHealth report) as [detail|] eqn:EH.
  - destruct (id_publish deps "system.health.degraded" (healthEvent "INFRA" "WARN" detail) w5) as [r w6] eqn:E6.
    eexists n, _, errors, _, r, p5, w6. split_and!; [by destruct r as [|[]]|reflexivity| |by apply Hp].
    eapply window_done; [done..|]. unfold healthEnds. rewrite EH. by eexists.
  - eexists n, _, errors, None, (inr tt), p5, w5. split_and!; [done..| |by apply Hp].
    eapply window_done; [done..|]. unfold healthEnds. by rewrite EH.
Qed.

Lemma backfillCandles_runs symbol assetType timeframe p w :
  match backfillCandles connector opts deps symbol assetType timeframe (p, w) with
  | (inr _, s') => planRuns [S_candles symbol assetType timeframe] (p, w) s'
  | (inl x, _) => authPublishThrows x
  end.
Proof.
  destruct (candleWindow_ends symbol assetType timeframe p w) as (n & reports & errors & err & r & p1 & w1 & E & -> & H & HA).
  unfold backfillCandles, catch. rewrite E. destruct r as [x|[]].
  - assert (forall w', authAnnounced (Some x) w1 w' -> planRuns [S_candles symbol assetType timeframe] (p, w)
      (failed (candleScope connector symbol timeframe) (id_errMsg deps x) p1, w')) as K.
    { intros w' Ha. apply planRuns_one. eapply runs_candles; [exact H|exact Ha|by apply adds_failed]. }
    simpl in K. destruct (id_stageBAuth deps x) as [message|] eqn:Ea.
    + unfold bind, onWorld, modify. cbn [fst snd].
      destruct (id_publish deps _ _ w1) as [[y|[]] w'] eqn:E'; [by exists x, message, w1, w'|by apply K].
    + by apply K.
  - apply planRuns_one. eapply runs_candles; [exact H|done|]. by rewrite app_nil_r.
Qed.

(** Runs the plan, or throws what the announcement threw. *)
Definition mayRunPlan (plan : list BackfillScope) (m : M X (Progress * W) unit) : Prop :=
  forall p w, match m (p, w) with (inr _, s') => planRuns plan (p, w) s' | (inl x, _) => authPublishThrows x end.

Lemma mayRunPlan_bind plan plan' m k : mayRunPlan plan m -> mayRunPlan plan' k -> mayRunPlan (plan ++ plan') (bind m (fun _ => k)).
Proof.
  intros Hm Hk p w. specialize (Hm p w). unfold bind. destruct (m (p, w)) as [[x|[]] [p1 w1]]; [done|].
  specialize (Hk p1 w1). destruct (k (p1, w1)) as [[x|u] s']; [done|]. by eapply planRuns_app.
Qed.

Lemma mayRunPlan_when (b : bool) plan m : mayRunPlan plan m -> mayRunPlan (if b then plan else []) (when b m).
Proof. intros H. destruct b; [done|]. intros p w. constructor. Qed.

Lemma mayRunPlan_forEach {A} (f : A -> M X (Progress * W) unit) plan l :
  (forall a, mayRunPlan (plan a) (f a)) -> mayRunPlan (List.flat_map plan l) (forEach f l).
Proof. intros H. induction l as [|a l IH]; simpl; [by constructor|by apply mayRunPlan_bind]. Qed.

Lemma runsPlan_may plan m : runsPlan plan m -> mayRunPlan plan m.
Proof. intros H p w. by destruct (H p w) as (s' & -> & ?). Qed.

Lemma flat_map_single {A B} (f : A -> B) l : List.flat_map (fun a => [f a]) l = List.map f l.
Proof. induction l as [|a l IH]; simpl; [done|]. by f_equal. Qed.

Lemma backfillScopes_runs : mayRunPlan backfillPlan (backfillScopes connector opts deps).
Proof.
  unfold backfillPlan, backfillScopes. apply mayRunPlan_bind; [|apply runsPlan_may, runsPlan_bind].
  - apply mayRunPlan_when, mayRunPlan_forEach. intros [symbol assetType]. rewrite <- flat_map_single.
    apply mayRunPlan_forEach. intros timeframe p w. apply backfillCandles_runs.
  - apply runsPlan_forEach. intros [symbol assetType]. apply backfillSymbol_runsPlan.
  - apply runsPlan_when. rewrite <- flat_map_single. apply runsPlan_forEach. intros underlying p w.
    destruct (backfillChain_runs underlying p w) as (s' & E & H). exists s'. split; [done|by apply planRuns_one].
Qed.

(** ** What a run accounts for *)

Lemma windowEnds_reports symbol assetType timeframe w n reports errors w' :
  windowEnds symbol assetType timeframe w n reports errors None w' ->
  exists report, reports = [reportLine symbol timeframe report].
Proof. intros H. inversion H; subst. by eexists. Qed.

(** A scope of a run: its error is recorded, or it threw nothing; then a window has its
    report. *)
Definition accounted (p : Progress) (s : BackfillScope) : Prop :=
  scopeName s ∈ List.map fst (pg_errors p)
  \/ match s with
     | S_candles _ _ _ => scopeName s ∈ List.map (fun r => fst (fst r)) (bs_dqReports (pg_summary p))
     | _ => exists w n w', flowEnds s w n None w'
     end.

Lemma scopeRuns_grows scope s s' :
  scopeRuns scope s s' -> pg_errors (fst s) `prefix_of` pg_errors (fst s')
    /\ bs_dqReports (pg_summary (fst s)) `prefix_of` bs_dqReports (pg_summary (fst s')).
Proof.
  intros H. destruct H as [? ? ? ? ? ? ? ? ? ? ? ? _ _ (_ & Hr & He)|? ? ? ? ? ? ? _ (_ & Hr & He)]; simpl fst;
    rewrite Hr, He; split; by apply prefix_app_r.
Qed.

Lemma accounted_grows scope s s' t : scopeRuns scope s s' -> accounted (fst s) t -> accounted (fst s') t.
Proof.
  intros [[es He] [rs Hr]]%scopeRuns_grows. unfold accounted. rewrite He, Hr, !List.map_app.
  intros [H|H]; [left; apply elem_of_app; by left|right]. destruct t; try done. apply elem_of_app. by left.
Qed.

Lemma scopeRuns_accounted scope s s' : scopeRuns scope s s' -> accounted (fst s') scope.
Proof.
  intros H. unfold accounted. destruct H as [symbol assetType timeframe p w n reports errors err w1 p' w' Hw _ (_ & Hr & He)
    |s p w n err p' w' Hf (_ & _ & He)]; simpl fst; rewrite He.
  - destruct err as [x|]; [left; simpl; rewrite !List.map_app, !elem_of_app; right; right; apply list_elem_of_here|right].
    destruct (windowEnds_reports _ _ _ _ _ _ _ _ Hw) as [report ->]. rewrite Hr, List.map_app. apply elem_of_app. right.
    apply list_elem_of_here.
  - destruct err as [x|]; [left; rewrite List.map_app, elem_of_app; right; apply list_elem_of_here|right].
    destruct s; [done|..]; by eexists _, _, _.
Qed.

Lemma planRuns_accounted plan s s' : planRuns plan s s' -> Forall (accounted (fst s')) plan.
Proof.
  intros H. assert (forall t, accounted (fst s) t -> accounted (fst s') t) as K; revert H.
  - induction 1 as [|scope plan s s1 s' Hs _ IH]; [done|]. intros t Ht. by eapply IH, accounted_grows.
  - clear K. induction 1 as [|scope plan s s1 s' Hs Hp IH]; constructor; [|done].
    assert (forall t, accounted (fst s1) t -> accounted (fst s') t) as K; [|by eapply K, scopeRuns_accounted].
    clear IH Hs. induction Hp as [|scope' plan' s2 s3 s4 Hs' _ IH]; [done|]. intros t Ht. by eapply IH, accounted_grows.
Qed.
End backfill.

(** * What the ingestion daemon writes

    The rows of the feature table and of the report table are traces of the world: every
    call of the daemon keeps the old rows, and a new feature row names a report that is
    stored and PASSED.  The second part is the buffers of the stream. *)

(** ** Feature rows and reports *)

Section traces.
Context {X W D : Type} (connector : ExchangeConnector X W) (store : CandleStore X W) (deps : IngestDeps X W D).
Context (features : FeatureOps X W) (parseDate : string -> option Z) (sharedSecret : option string).
Context (bridgeError : string -> string -> X).
(** The feature rows upserted and the reports stored so far. *)
Context (written : W -> list SnapshotUpsert) (reports : W -> list (string * ReportRow)).

(** Neither trace changes. *)
Definition quiet (w w' : W) : Prop := written w' = written w /\ reports w' = reports w.

(** Only the two writing calls write. *)
Record tracesLaws : Prop := {
  tl_features : writesOnlyUpserts features written;
  tl_fetch r : Respects (fun w w' => reports w' = reports w) (fo_fetch features r);
  tl_findSet n v : Respects (fun w w' => reports w' = reports w) (fo_findFeatureSet features n v);
  tl_snapshot u : Respects (fun w w' => reports w' = reports w) (fo_upsertSnapshot features u);
  tl_announce p n v : fo_publishEvent features = Some p -> Respects (fun w w' => reports w' = reports w) (p n v);
  tl_stageB candles : Respects quiet (qo_stageB (id_quality deps) candles);
  tl_report row w : match qo_createReport (id_quality deps) row w with
    | (inr id, w') => reports w' = reports w ++ [(id, row)] /\ written w' = written w
    | (inl _, w') => quiet w w'
    end;
  tl_transaction t us : Respects quiet (io_transaction (id_ingest deps) t us);
  tl_upsert t u : Respects quiet (io_upsert (id_ingest deps) t u);
  tl_prior e s ts : Respects quiet (io_priorOpenInterest (id_ingest deps) e s ts);
  tl_ticks ticks : Respects quiet (io_createTicks (id_ingest deps) ticks);
  tl_jobRun r : Respects quiet (io_createJobRun (id_ingest deps) r);
  tl_now : Respects quiet (io_now (id_ingest deps));
  tl_publish name payload : Respects quiet (id_publish deps name payload);
  tl_count e s t : Respects quiet (ce_count store e s t);
  tl_newest e s t n : Respects quiet (ce_findNewest store e s t n);
  tl_candles r : Respects quiet (ec_fetchCandles connector r);
  tl_funding r : Respects quiet (ec_fetchFundingRates connector r);
  tl_openInterest r : Respects quiet (ec_fetchOpenInterest connector r);
  tl_longShort r : Respects quiet (ec_fetchLongShortRatios connector r);
  tl_chain u : Respects quiet (ec_fetchOptionChain connector u);
  tl_liquidity s : Respects quiet (ec_fetchLiquidity connector s)
}.

(** A stored report of a scope, with its status. *)
Definition backed (w : W) (id : string) (status : DqStatus) (exchange symbol timeframe : string) : Prop :=
  exists row, (id, row) ∈ reports w /\ rw_status row = status /\ qc_exchange (rw_scope row) = exchange
    /\ qc_symbol (rw_scope row) = symbol /\ showTimeframe (qc_timeframe (rw_scope row)) = timeframe.

Definition explained (w : W) (u : SnapshotUpsert) : Prop :=
  backed w (su_dqReportId u) DQ_PASSED (su_exchange u) (su_symbol u) (su_timeframe u).

(** Reports are only added, and a new feature row is explained. *)
Definition explains (w w' : W) : Prop :=
  reports w `prefix_of` reports w' /\ forall u, u ∈ written w' -> u ∈ written w \/ explained w' u.

Lemma backed_grows w w' id status e s t : reports w `prefix_of` reports w' -> backed w id status e s t -> backed w' id status e s t.
Proof. intros [rs E] (row & Hin & H). exists row. split; [|done]. rewrite E. apply elem_of_app. by left. Qed.

#[export] Instance quiet_preorder : PreOrder quiet.
Proof. split; [by intros w|]. intros w1 w2 w3 [H1 H2] [H3 H4]. split; congruence. Qed.

#[export] Instance explains_preorder : PreOrder explains.
Proof.
  split; [intros w; split; [done|by left]|]. intros w1 w2 w3 [H1 H2] [H3 H4]. split; [by etrans|]. intros u Hu.
  destruct (H4 u Hu) as [Hu2|He]; [|by right]. destruct (H2 u Hu2) as [?|He]; [by left|right]. by eapply backed_grows.
Qed.

Lemma quiet_explains w w' : quiet w w' -> explains w w'.
Proof. intros [HW HR]. split; [by rewrite HR|]. rewrite HW. by left. Qed.

Lemma respects_quiet {A} (m : M X W A) : Respects quiet m -> Respects explains m.
Proof. intros H s. apply quiet_explains, H. Qed.
End traces.

Section daemon.
Context {X W D : Type} (connector : ExchangeConnector X W) (store : CandleStore X W) (deps : IngestDeps X W D).
Context (features : FeatureOps X W) (parseDate : string -> option Z) (sharedSecret : option string).
Context (bridgeError : string -> string -> X).
Context (written : W -> list SnapshotUpsert) (reports : W -> list (string * ReportRow)).
Context (L : tracesLaws connector store deps features written reports).

#[local] Set Default Proof Using "All".

Abbreviation Quiet := (Respects (quiet written reports)).
Abbreviation Explains := (Respects (explains written reports)).

(** The calls of the world that the laws name. *)
Ltac quiet_call :=
  first [ apply (tl_transaction _ _ _ _ _ _ L) | apply (tl_upsert _ _ _ _ _ _ L) | apply (tl_prior _ _ _ _ _ _ L)
        | apply (tl_ticks _ _ _ _ _ _ L) | apply (tl_jobRun _ _ _ _ _ _ L) | apply (tl_now _ _ _ _ _ _ L)
        | apply (tl_publish _ _ _ _ _ _ L) | apply (tl_count _ _ _ _ _ _ L) | apply (tl_newest _ _ _ _ _ _ L)
        | apply (tl_candles _ _ _ _ _ _ L) | apply (tl_funding _ _ _ _ _ _ L) | apply (tl_openInterest _ _ _ _ _ _ L)
        | apply (tl_longShort _ _ _ _ _ _ L) | apply (tl_chain _ _ _ _ _ _ L) | apply (tl_liquidity _ _ _ _ _ _ L)
        | apply (tl_stageB _ _ _ _ _ _ L) ].
#[local] Hint Extern 1 (Respects (quiet _ _) _) => quiet_call : typeclass_instances.

(** The persistence layer is quiet. *)
#[local] Instance chunked_quiet {A} (l : list A) n : Quiet (chunked (id_ingest deps) l n).
Proof. unfold chunked. apply _. Qed.

#[local] Instance writeBatches_quiet {A} t (upsert : A -> Upsert) bs n : Quiet (writeBatches (id_ingest deps) t upsert bs n).
Proof. revert n. induction bs; intros n; simpl; apply _. Qed.

#[local] Instance writeRows_quiet {A} t size (upsert : A -> Upsert) rows : Quiet (writeRows (id_ingest deps) t size upsert rows).
Proof. unfold writeRows. destruct rows; apply _. Qed.

#[local] Instance insertBatches_quiet bs n : Quiet (insertBatches (id_ingest deps) bs n).
Proof. revert n. induction bs; intros n; simpl; apply _. Qed.

#[local] Instance upsertTicks_quiet ticks : Quiet (upsertTicks (id_ingest deps) ticks).
Proof. unfold upsertTicks. destruct ticks; apply _. Qed.

#[local] Instance upsertOptionChain_quiet chain : Quiet (upsertOptionChain (id_ingest deps) chain).
Proof. unfold upsertOptionChain. apply _. Qed.

#[local] Instance upsertLiquidity_quiet row : Quiet (upsertLiquidity (id_ingest deps) row).
Proof. unfold upsertLiquidity. apply _. Qed.

#[local] Instance heartbeat_quiet job status detail : Quiet (heartbeat (id_ingest deps) job status detail).
Proof. unfold heartbeat. destruct status; apply _. Qed.

#[local] Instance newDecimal_quiet text : Quiet (newDecimal (id_decimal deps) (id_decimalError deps) text : M X W D).
Proof. unfold newDecimal. apply _. Qed.

#[local] Instance prepareRows_quiet prev rows : Quiet (prepareRows (id_decimal deps) (id_decimalError deps) prev rows : M X W _).
Proof. revert prev. induction rows; intros prev; simpl; apply _. Qed.

#[local] Instance prepareGroup_quiet group : Quiet (prepareGroup (id_ingest deps) (id_decimal deps) (id_decimalError deps) group).
Proof. unfold prepareGroup. destruct (sortBy byTs group); apply _. Qed.

#[local] Instance upsertOpenInterest_quiet rows :
  Quiet (upsertOpenInterest (id_ingest deps) (id_decimal deps) (id_decimalError deps) rows).
Proof. unfold upsertOpenInterest. destruct rows; apply _. Qed.

#[local] Instance upsertCandles_quiet candles : Quiet (upsertCandles (id_ingest deps) candles).
Proof. unfold upsertCandles. apply _. Qed.

#[local] Instance upsertFundingRates_quiet rows : Quiet (upsertFundingRates (id_ingest deps) rows).
Proof. unfold upsertFundingRates. apply _. Qed.

#[local] Instance upsertLongShortRatios_quiet rows : Quiet (upsertLongShortRatios (id_ingest deps) rows).
Proof. unfold upsertLongShortRatios. apply _. Qed.

#[local] Instance upsertOrderbook_quiet quotes : Quiet (upsertOrderbookSnapshots (id_ingest deps) quotes).
Proof. unfold upsertOrderbookSnapshots. apply _. Qed.

#[local] Instance quietly {A} (m : M X W A) : Quiet m -> Explains m | 5.
Proof. apply respects_quiet. Qed.

(** *** A report, and the features of a window it backs *)

Lemma validateAndReport_traces url scope candles w :
  wp (validateAndReport (id_syntaxError deps) (id_sha256 deps) (id_quality deps) url scope candles)
    (fun r w' => explains written reports w w' /\ match r with
       | inr report => backed reports w' (qr_id report) (qr_status report) (qc_exchange scope) (qc_symbol scope)
                         (showTimeframe (qc_timeframe scope))
       | inl _ => True
       end) w.
Proof.
  unfold validateAndReport. apply wp_bind.
  assert (Quiet (fetchStageBChecks (id_syntaxError deps) (id_quality deps) url candles)) as HQ.
  { unfold fetchStageBChecks. destruct url as [[|c url]|]; apply _. }
  unfold wp at 1. specialize (HQ w). destruct (fetchStageBChecks _ _ _ _ w) as [[x|stageB] w1]; cbn [fst snd] in *.
  { split; [by apply quiet_explains|done]. }
  destruct (scoreChecks _) as [score status]. apply wp_bind. unfold wp at 1.
  match goal with |- context [qo_createReport ?o ?row w1] => pose proof (tl_report _ _ _ _ _ _ L row w1) as HR end.
  destruct (qo_createReport _ _ w1) as [[x|id] w2]; cbn [fst snd].
  { split; [|done]. apply quiet_explains. by etrans. }
  destruct HR as [HR HW]. destruct HQ as [HQ1 HQ2]. apply wp_ret. split.
  - split; [rewrite HR, HQ2; by apply prefix_app_r|]. rewrite HW, HQ1. by left.
  - eexists. split; [rewrite HR; apply elem_of_app; right; apply list_elem_of_here|done].
Qed.
Abbreviation SameReports := (Respects (fun w w' => reports w' = reports w)).

#[local] Instance sameReports_refl : Reflexive (fun w w' : W => reports w' = reports w).
Proof. by intros w. Qed.
#[local] Instance sameReports_trans : Transitive (fun w w' : W => reports w' = reports w).
Proof. intros w1 w2 w3. congruence. Qed.

#[local] Instance computeFeatures_reports url input : SameReports (computeFeatures (id_syntaxError deps) features url sharedSecret input).
Proof.
  pose proof (tl_fetch _ _ _ _ _ _ L). unfold computeFeatures, raise.
  case_bool_decide; [apply _|]. apply respects_bind; try apply _. intros [m|status body]; apply _.
Qed.

#[local] Instance persistSnapshot_reports input result unknown : SameReports (persistSnapshot parseDate features input result unknown).
Proof.
  pose proof (tl_findSet _ _ _ _ _ _ L). pose proof (tl_snapshot _ _ _ _ _ _ L). pose proof (tl_announce _ _ _ _ _ _ L) as HA.
  unfold persistSnapshot, raise. destruct (fo_publishEvent features) as [publish|]; [|apply _].
  pose proof (fun n v => HA publish n v eq_refl). apply _.
Qed.

Lemma bridgeWindow_explains url exchange symbol timeframe last candles id score featureSet version w :
  backed reports w id DQ_PASSED exchange symbol (showTimeframe timeframe) ->
  wp (bridgeWindow deps features parseDate sharedSecret bridgeError url exchange symbol timeframe last candles id score featureSet version)
    (fun _ w' => explains written reports w w') w.
Proof.
  intros HB. unfold bridgeWindow, computeAndPersistFeatures. cbv zeta. set (input := Build_FeatureBridgeInput _ _ _ _ _ _).
  set (request := bridgeRequest input).
  change (bi_dqScore input) with (fi_dqScore request). change (bi_scope input) with (fi_scope request).
  destruct (nlt (fi_dqScore request) MIN_DATA_QUALITY_SCORE) eqn:E1; [by apply wp_throw|].
  destruct (bool_decide_reflect (sc_exchange (fi_scope request) ∉ EXCHANGES)) as [?|E2]; [by apply wp_throw|apply dec_stable in E2].
  destruct (bool_decide_reflect (sc_timeframe (fi_scope request) ∉ TIMEFRAMES)) as [?|E3]; [by apply wp_throw|apply dec_stable in E3].
  case_bool_decide; [by apply wp_throw|].
  match goal with |- wp ?m _ _ => assert (SameReports m) as HR by apply _ end. specialize (HR w).
  pose proof (computeAndPersist_wp (id_syntaxError deps) parseDate features url sharedSecret written request
    (fun result => bridgeError (mismatchText request result) "FEATURE_CONTRACT_MISMATCH")
    (fun result => bridgeError ("no FeatureSetDefinition for " +:+ fe_featureSet result +:+ " v" +:+ numToString (fe_version result)
                      +:+ " (fail-closed)") "UNKNOWN_FEATURE_SET") w (tl_features _ _ _ _ _ _ L) E1 E2 E3) as HW.
  revert HW HR. unfold wp. match goal with |- context [snd (?m w)] => destruct (m w) as [r w'] end. cbn [fst snd]. intros HW HR.
  assert (forall u, verbatimRow request u -> explained reports w' u) as HE.
  { intros u (_ & _ & _ & raw & body & _ & _ & _ & _ & _ & _ & EX & ES & ET & ED). unfold explained. rewrite EX, ES, ET, ED.
    eapply backed_grows; [|exact HB]. by rewrite HR. }
  split; [by rewrite HR|]. intros u Hu. unfold wroteVerbatim in HW.
  assert (written w' = written w \/ exists u, verbatimRow request u /\ written w' = written w ++ [u]) as HW'.
  { destruct r as [x|p]; [done|]. destruct HW as (u' & HV & HE' & _). by right; exists u'. }
  destruct HW' as [E|(u' & HV & E)]; rewrite E in Hu; [by left|]. apply elem_of_app in Hu as [Hu|Hu]; [by left|right].
  apply list_elem_of_singleton in Hu as ->. by apply HE.
Qed.
(** *** The backfill *)

Abbreviation ExplainsWorld := (Respects (fun s s' : Progress * W => explains written reports (snd s) (snd s'))).

#[local] Instance world_refl : Reflexive (fun s s' : Progress * W => explains written reports (snd s) (snd s')).
Proof. by intros s. Qed.
#[local] Instance world_trans : Transitive (fun s s' : Progress * W => explains written reports (snd s) (snd s')).
Proof. intros s1 s2 s3. by apply transitivity. Qed.

#[local] Instance counted_world c n : ExplainsWorld (modify (X := X) (fun s => (counted c n (fst s), snd s))).
Proof. by intros s. Qed.
#[local] Instance reported_world scope report : ExplainsWorld (modify (X := X) (fun s => (reported scope report (fst s), snd s))).
Proof. by intros s. Qed.
#[local] Instance failed_world scope error : ExplainsWorld (modify (X := X) (fun s => (failed scope error (fst s), snd s))).
Proof. by intros s. Qed.

(** The feature hook only writes features that a report backs. *)
Definition hookLaw : Prop :=
  forall hook window w, id_onCandlesValidated deps = Some hook ->
    backed reports w (vw_reportId window) DQ_PASSED (qc_exchange (vw_scope window)) (qc_symbol (vw_scope window))
      (showTimeframe (qc_timeframe (vw_scope window))) ->
    wp (hook window) (fun _ w' => explains written reports w w') w.

Lemma featureHook_explains scope window s :
  hookLaw ->
  backed reports (snd s) (vw_reportId window) (vw_status window) (qc_exchange (vw_scope window)) (qc_symbol (vw_scope window))
    (showTimeframe (qc_timeframe (vw_scope window))) ->
  wp (featureHook deps scope window) (fun _ s' => explains written reports (snd s) (snd s')) s.
Proof.
  intros HH HB. unfold featureHook. destruct (id_onCandlesValidated deps) as [hook|] eqn:E; [|by apply wp_ret].
  case_bool_decide as ES; [|by apply wp_ret]. rewrite ES in HB. apply wp_catch, wp_onWorld.
  eapply wp_mono; [by eapply HH|]. intros [err|[]] w1 HE; [by apply wp_modify|done].
Qed.

(** Steps of a computation that stay explained. *)
Lemma explains_bind {A B} (m : M X (Progress * W) A) (k : A -> M X (Progress * W) B) (s0 s : Progress * W) :
  explains written reports (snd s0) (snd s) -> ExplainsWorld m ->
  (forall a s', explains written reports (snd s0) (snd s') -> explains written reports (snd s) (snd s') ->
     wp (k a) (fun _ s' => explains written reports (snd s0) (snd s')) s') ->
  wp (bind m k) (fun _ s' => explains written reports (snd s0) (snd s')) s.
Proof.
  intros H0 Hm Hk. apply wp_bind. unfold wp at 1. specialize (Hm s). assert (explains written reports (snd s0) (snd (snd (m s)))) by (by etrans).
  destruct (m s) as [[x|a] s']; [done|]. by apply Hk.
Qed.

Lemma explains_end {A} (m : M X (Progress * W) A) (s0 s : Progress * W) :
  explains written reports (snd s0) (snd s) -> ExplainsWorld m ->
  wp m (fun _ s' => explains written reports (snd s0) (snd s')) s.
Proof. intros H0 Hm. unfold wp. etrans; [exact H0|apply Hm]. Qed.

#[local] Instance backfillCandles_explains opts symbol assetType timeframe :
  hookLaw -> ExplainsWorld (backfillCandles connector opts deps symbol assetType timeframe).
Proof.
  intros HH. unfold backfillCandles. apply respects_catch; [apply _..| |intros err; apply _].
  intros s. change (wp (candleWindow connector opts deps symbol assetType timeframe)
    (fun _ s' => explains written reports (snd s) (snd s')) s). unfold candleWindow.
  do 3 (apply explains_bind; [done|apply _|intros ? ? ? _]).
  apply wp_bind, wp_onWorld. eapply wp_mono; [apply validateAndReport_traces|].
  intros [x|report] w1 [HE HB]; [simpl; by etrans|]. apply wp_bind, wp_modify.
  apply explains_bind; [simpl; by etrans|apply _|]. intros [] s2 E2 [HP _]. simpl in HP.
  apply (backed_grows _ _ _ _ _ _ _ _ HP) in HB. apply wp_bind. eapply wp_mono; [by apply featureHook_explains|].
  intros [x|[]] s3 E3; [by etrans|]. apply explains_end; [by etrans|apply _].
Qed.

#[local] Instance backfillSymbol_explains opts symbol : ExplainsWorld (backfillSymbol connector opts deps symbol).
Proof. unfold backfillSymbol, backfillFlow, backfillLiquidity, isolated. apply _. Qed.

#[local] Instance backfillChain_explains underlying : ExplainsWorld (backfillChain connector deps underlying).
Proof. unfold backfillChain, isolated. apply _. Qed.

Lemma runBackfill_explains opts : hookLaw -> Explains (runBackfill connector opts deps).
Proof.
  intros HH w. unfold runBackfill.
  match goal with |- context [bind ?m0 ?k (noProgress, w)] => assert (ExplainsWorld (bind m0 k)) as HR end.
  { apply respects_bind; try apply _. intros _. apply respects_bind; try apply _.
    unfold backfillScopes. apply respects_bind; try apply _.
    - apply respects_when; try apply _. apply respects_forEach; try apply _. intros [symbol assetType].
      apply respects_forEach; try apply _. intros timeframe. by apply backfillCandles_explains.
    - intros _. apply respects_bind; try apply _. apply respects_forEach; try apply _. intros [symbol assetType]. apply _. }
  specialize (HR (noProgress, w)). by destruct (bind _ _ (noProgress, w)) as [r [p w']].
Qed.

(** *** The daemon *)

#[local] Instance onCandle_explains candle : Explains (onCandle deps candle).
Proof. unfold onCandle. apply _. Qed.

#[local] Instance pollFlow_explains perps underlyings : Explains (pollFlow connector deps perps underlyings).
Proof.
  apply respects_quiet. unfold pollFlow. apply respects_bind; try apply _. intros now. apply respects_bind; try apply _.
  apply respects_forEach; try apply _. intros [symbol assetType]. unfold pollSymbol, skipped. apply _.
Qed.

#[local] Instance ensureWarmupHistory_explains symbol assetType timeframe n :
  Explains (ensureWarmupHistory connector store deps symbol assetType timeframe n).
Proof. unfold ensureWarmupHistory. apply _. Qed.

#[local] Instance materialize_explains exchange symbol timeframe featureSet version window n :
  Explains (materializeFeaturesFromDb store deps features parseDate sharedSecret bridgeError exchange symbol timeframe
    featureSet version window n).
Proof.
  unfold materializeFeaturesFromDb. destruct (id_quantBaseUrl deps) as [url|]; [|apply _].
  apply respects_bind; try apply _. intros rows. apply respects_if; try apply _.
  destruct (rev rows) as [|first candles] eqn:ER; [apply _|]. destruct rows as [|last rows]; [apply _|].
  intros w. match goal with |- explains _ _ _ (snd (?m w)) => change (wp m (fun _ w' => explains written reports w w') w) end.
  apply wp_bind. eapply wp_mono; [apply validateAndReport_traces|]. intros [x|report] w1 [HE HB]; [done|].
  case_bool_decide as ES; [by apply wp_ret|]. rewrite ES in HB. apply wp_bind.
  eapply wp_mono; [by apply bridgeWindow_explains|]. intros [x|p] w2 HE2; [by etrans|]. apply wp_ret. by etrans.
Qed.

#[local] Instance recompute_explains opts symbol :
  Explains (recompute connector store deps features parseDate sharedSecret bridgeError opts symbol).
Proof.
  unfold recompute, skipped. apply respects_catch; try apply _. apply respects_bind; try apply _.
  destruct (List.find _ _) as [[? assetType]|]; apply _.
Qed.
End daemon.

(** *** The bootstrap *)

Section bootstrap.
Context {X W D : Type} (connector : ExchangeConnector X W) (store : CandleStore X W) (deps : IngestDeps X W D).
Context (features : FeatureOps X W) (parseDate : string -> option Z) (sharedSecret : option string).
Context (bridgeError : string -> string -> X).
Context (written : W -> list SnapshotUpsert) (reports : W -> list (string * ReportRow)).

Lemma bootstrap_hookLaw opts :
  tracesLaws connector store deps features written reports ->
  hookLaw (bootstrapDeps deps features parseDate sharedSecret bridgeError opts) written reports.
Proof.
  intros L hook window w. simpl. destruct (id_quantBaseUrl deps) as [url|]; [|done]. intros [= <-] HB. unfold bootstrapHook.
  destruct (List.last _ _) as [last|]; [|by apply wp_ret]. apply wp_bind.
  eapply wp_mono; [by eapply (bridgeWindow_explains connector store); first done|]. by intros [x|p] w1 HE; [|apply wp_ret].
Qed.

Lemma startLive_explains opts :
  tracesLaws connector store deps features written reports ->
  Respects (explains written reports) (startLive connector deps features parseDate sharedSecret bridgeError opts).
Proof.
  intros L. unfold startLive. case_bool_decide; [apply _|].
  assert (tracesLaws connector store (bootstrapDeps deps features parseDate sharedSecret bridgeError opts) features written reports) as L'
    by (destruct L; by constructor).
  apply respects_bind; try apply _.
  - apply respects_quiet. exact (heartbeat_quiet connector store deps features parseDate sharedSecret bridgeError written reports L _ _ _).
  - intros _. unfold bootstrap. apply respects_bind; try apply _.
    apply (runBackfill_explains connector store _ features parseDate sharedSecret bridgeError written reports L'), bootstrap_hookLaw, L.
Qed.
End bootstrap.

(** ** Maps *)

Section jsmap.
Context {V : Type}.

Definition mapKeys (m : JsMap V) : list string := List.flat_map (fun e => match e with Some (k, _) => [k] | None => [] end) m.

Lemma mapGet_set k (v : V) m : mapGet k (mapSet k v m) = Some v.
Proof.
  induction m as [|[[k' v']|] m IH]; simpl; [by rewrite bool_decide_true| |done].
  case_bool_decide; simpl; [by rewrite bool_decide_true|by rewrite bool_decide_false].
Qed.

Lemma mapGet_set_ne k k' (v : V) m : k <> k' -> mapGet k (mapSet k' v m) = mapGet k m.
Proof.
  intros Hk. induction m as [|[[k0 v0]|] m IH]; simpl; [by rewrite bool_decide_false| |done].
  case_bool_decide as E; simpl; [subst; by rewrite !bool_decide_false|by case_bool_decide].
Qed.

Lemma mapKeys_set k (v : V) m :
  mapKeys (mapSet k v m) = if bool_decide (k ∈ mapKeys m) then mapKeys m else mapKeys m ++ [k].
Proof.
  induction m as [|[[k' v']|] m IH]; simpl; [done| |done]. destruct (bool_decide_reflect (k' = k)) as [->|E]; simpl.
  - by rewrite bool_decide_true by apply list_elem_of_here.
  - rewrite IH. destruct (bool_decide_reflect (k ∈ mapKeys m)) as [H|H].
    + by rewrite bool_decide_true by by apply list_elem_of_further.
    + rewrite bool_decide_false; [done|]. intros [->|?]%elem_of_cons; done.
Qed.

Lemma mapKeys_set_NoDup k (v : V) m : NoDup (mapKeys m) -> NoDup (mapKeys (mapSet k v m)).
Proof.
  intros H. rewrite mapKeys_set. case_bool_decide; [done|]. apply NoDup_app. split_and!; [done| |apply NoDup_singleton].
  intros x Hx ->%list_elem_of_singleton. done.
Qed.

Lemma mapGet_lookup i k (v : V) m : NoDup (mapKeys m) -> m !! i = Some (Some (k, v)) -> mapGet k m = Some v.
Proof.
  revert i. induction m as [|e m IH]; intros i HN; [done|]. destruct i as [|i].
  - intros [= ->]. simpl. by rewrite bool_decide_true.
  - intros Hi. destruct e as [[k' v']|]; simpl in *; [|by apply (IH i)].
    apply NoDup_cons in HN as [HN1 HN2]. case_bool_decide as E; [|by apply (IH i)]. exfalso. apply HN1. subst k'.
    unfold mapKeys. apply list_elem_of_In, in_flat_map. exists (Some (k, v)). split; [|by left].
    by apply list_elem_of_In, (list_elem_of_lookup_2 _ i).
Qed.

Lemma mapGet_position k (v : V) m : mapGet k m = Some v -> exists i, m !! i = Some (Some (k, v)).
Proof.
  induction m as [|[[k' v']|] m IH]; simpl; [done| |].
  - case_bool_decide as E; [intros [= ->]; subst; by exists 0|]. intros H. destruct (IH H) as [i Hi]. by exists (S i).
  - intros H. destruct (IH H) as [i Hi]. by exists (S i).
Qed.

(** Setting a present key changes only its entry. *)
Lemma mapSet_lookup i k (v v' : V) m :
  NoDup (mapKeys m) -> m !! i = Some (Some (k, v)) -> mapSet k v' m = <[i := Some (k, v')]> m.
Proof.
  revert i. induction m as [|e m IH]; intros i HN; [done|]. destruct i as [|i].
  - intros [= ->]. simpl. by rewrite bool_decide_true.
  - intros Hi. destruct e as [[k0 v0]|]; simpl in *; [|by rewrite (IH i)].
    apply NoDup_cons in HN as [HN1 HN2]. case_bool_decide as E; [|by rewrite (IH i)]. exfalso. apply HN1. subst k0.
    unfold mapKeys. apply list_elem_of_In, in_flat_map. exists (Some (k, v)). split; [|by left].
    by apply list_elem_of_In, (list_elem_of_lookup_2 _ i).
Qed.
End jsmap.

(** ** The tick buffers *)

(** The ticks of a symbol among events, batches and buffers, in order. *)
Definition tradesOf (symbol : string) (events : list LiveEvent) : list NormalizedTick :=
  List.flat_map (fun e => match e with E_trade t => if bool_decide (nk_symbol t = symbol) then [t] else [] | _ => [] end) events.

Definition takenOf (symbol : string) (batches : list TickBatch) : list NormalizedTick :=
  List.flat_map (fun b => if bool_decide (tb_symbol b = symbol) then tb_ticks b else []) batches.

Definition bufferOf (symbol : string) (buffer : JsMap (list NormalizedTick)) : list NormalizedTick :=
  default [] (mapGet symbol buffer).

(** A running flush awaits a batch. *)
Definition awaits (flushes : list (option TickFlush)) (f b : nat) : Prop := exists i, flushes !! f = Some (Some (TF_await i b)).

Definition inFlight (batches : list TickBatch) (b : nat) : Prop :=
  exists batch, batches !! b = Some batch /\ tb_state batch = InFlight.

Record ticksInv (received : string -> list NormalizedTick) (s : LiveState) : Prop := {
  ti_keys : NoDup (mapKeys (ls_tickBuffer s));
  ti_ticks symbol : received symbol = takenOf symbol (ls_batches s) ++ bufferOf symbol (ls_tickBuffer s);
  ti_inFlight b : inFlight (ls_batches s) b <-> exists f, awaits (ls_tickFlushes s) f b;
  ti_once f f' b : awaits (ls_tickFlushes s) f b -> awaits (ls_tickFlushes s) f' b -> f = f'
}.

Lemma takenOf_app symbol p q : takenOf symbol (p ++ q) = takenOf symbol p ++ takenOf symbol q.
Proof. apply flat_map_app. Qed.

Lemma tradesOf_app symbol p q : tradesOf symbol (p ++ q) = tradesOf symbol p ++ tradesOf symbol q.
Proof. apply flat_map_app. Qed.

Lemma bufferOf_set symbol k v buffer : bufferOf symbol (mapSet k v buffer) = if bool_decide (k = symbol) then v else bufferOf symbol buffer.
Proof.
  unfold bufferOf. case_bool_decide as E; [subst; by rewrite mapGet_set|]. by rewrite mapGet_set_ne by congruence.
Qed.

(** Settling a batch keeps its ticks. *)
Definition settleBatch (ok : bool) (batch : TickBatch) : TickBatch :=
  {| tb_symbol := tb_symbol batch; tb_ticks := tb_ticks batch; tb_state := Settled ok |}.

Lemma takenOf_settle symbol ok b batches : takenOf symbol (alter (settleBatch ok) b batches) = takenOf symbol batches.
Proof.
  revert b. induction batches as [|batch batches IH]; intros b; [done|]. destruct b as [|b]; [done|].
  unfold takenOf in *. simpl. f_equal. exact (IH b).
Qed.

Lemma inFlight_settle ok b b' batches : inFlight (alter (settleBatch ok) b batches) b' <-> inFlight batches b' /\ b' <> b.
Proof.
  unfold inFlight. destruct (decide (b' = b)) as [->|Hb].
  - rewrite list_lookup_alter_eq. split; [|tauto]. intros (batch & H & HS). destruct (batches !! b); [|done]. simpl in H.
    injection H as <-. done.
  - rewrite list_lookup_alter_ne by done. tauto.
Qed.

Lemma inFlight_snoc batches batch b :
  tb_state batch = InFlight -> inFlight (batches ++ [batch]) b <-> inFlight batches b \/ b = length batches.
Proof.
  intros HS. unfold inFlight. split.
  - intros (x & [H|[H1 H2]]%lookup_app_Some & Hx); [by left; exists x|]. right.
    apply list_lookup_singleton_Some in H2 as [H2 _]. lia.
  - intros [(x & H & Hx)| ->].
    + exists x. split; [by apply lookup_app_l_Some|done].
    + exists batch. split; [|done]. by rewrite list_lookup_middle.
Qed.

Lemma awaits_set flushes f flush f' b :
  is_Some (flushes !! f) ->
  awaits (<[f := flush]> flushes) f' b <-> (f' = f /\ exists i, flush = Some (TF_await i b)) \/ (f' <> f /\ awaits flushes f' b).
Proof.
  intros [x Hx]. apply lookup_lt_Some in Hx. unfold awaits. destruct (decide (f' = f)) as [->|Hf].
  - rewrite list_lookup_insert_eq by done. split; [intros [i [= ->]]; left; eauto|intros [[_ [i ->]]|[? _]]; [by exists i|done]].
  - rewrite list_lookup_insert_ne by done. split; [by right|intros [[? _]|[_ ?]]; done].
Qed.

Lemma awaits_start flushes f b : awaits (flushes ++ [Some (TF_next 0)]) f b <-> awaits flushes f b.
Proof.
  unfold awaits. split; intros [i H]; exists i.
  - apply lookup_app_Some in H as [H|[_ H]]; [done|]. apply list_lookup_singleton_Some in H as [_ H]. done.
  - by apply lookup_app_l_Some.
Qed.

(** A flush that goes on without a call. *)
Lemma ticksInv_advance received s f i flush :
  ticksInv received s -> ls_tickFlushes s !! f = Some (Some (TF_next i)) -> (forall j b, flush <> Some (TF_await j b)) ->
  ticksInv received (withTicks (ls_tickBuffer s) (ls_batches s) (<[f := flush]> (ls_tickFlushes s)) s).
Proof.
  intros [H1 H2 H3 H4] Hf Hn. assert (is_Some (ls_tickFlushes s !! f)) as Hs by by eexists.
  assert (forall f' b, awaits (<[f := flush]> (ls_tickFlushes s)) f' b <-> awaits (ls_tickFlushes s) f' b) as HA.
  { intros f' b. rewrite awaits_set by done. split; [|intros HA].
    - intros [[_ [j ->]]|[_ ?]]; [by destruct (Hn j b)|done].
    - right. split; [|done]. intros ->. destruct HA as [j Hj]. congruence. }
  constructor; simpl; [done..| |].
  - intros b. rewrite H3. by setoid_rewrite HA.
  - intros f1 f2 b. rewrite !HA. apply H4.
Qed.

(** A flush that takes a buffer. *)
Lemma ticksInv_take received s f i symbol ticks :
  ticksInv received s -> ls_tickFlushes s !! f = Some (Some (TF_next i)) -> ls_tickBuffer s !! i = Some (Some (symbol, ticks)) ->
  ticksInv received (withTicks (mapSet symbol [] (ls_tickBuffer s))
    (ls_batches s ++ [{| tb_symbol := symbol; tb_ticks := ticks; tb_state := InFlight |}])
    (<[f := Some (TF_await (S i) (length (ls_batches s)))]> (ls_tickFlushes s)) s).
Proof.
  intros [H1 H2 H3 H4] Hf Hi. assert (is_Some (ls_tickFlushes s !! f)) as Hs by by eexists.
  assert (forall f' b, awaits (ls_tickFlushes s) f' b -> f' <> f /\ b < length (ls_batches s)) as HA.
  { intros f' b HA. split.
    - intros ->. destruct HA as [j Hj]. congruence.
    - assert (inFlight (ls_batches s) b) as (batch & Hb & _) by (apply H3; by exists f'). by apply lookup_lt_Some in Hb. }
  constructor; simpl.
  - by apply mapKeys_set_NoDup.
  - intros x. rewrite H2, takenOf_app, bufferOf_set, <- app_assoc. f_equal. unfold takenOf. simpl. rewrite app_nil_r.
    case_bool_decide as E; [|done]. subst x. rewrite app_nil_r. unfold bufferOf. by rewrite (mapGet_lookup i symbol ticks).
  - intros b. rewrite inFlight_snoc, H3 by done. setoid_rewrite awaits_set; [|done]. split.
    + intros [[f' HF]| ->]; [exists f'; right; by split; [apply HA in HF as [? _]|]|]. exists f. left. split; [done|by eexists].
    + intros [f' [[-> [j [= <- <-]]]|[_ HF]]]; [by right|left; by exists f'].
  - intros f1 f2 b. rewrite !awaits_set by done. intros [[-> [j1 E1]]|[N1 A1]] [[-> [j2 E2]]|[N2 A2]]; [done| | |by eapply H4].
    + injection E1 as <- <-. apply HA in A2 as [_ ?]. lia.
    + injection E2 as <- <-. apply HA in A1 as [_ ?]. lia.
Qed.

(** The settlement of an awaited call. *)
Lemma ticksInv_settle received s f i b ok :
  ticksInv received s -> ls_tickFlushes s !! f = Some (Some (TF_await i b)) ->
  ticksInv received (withTicks (ls_tickBuffer s) (alter (settleBatch ok) b (ls_batches s))
    (<[f := Some (TF_next i)]> (ls_tickFlushes s)) s).
Proof.
  intros [H1 H2 H3 H4] Hf. assert (is_Some (ls_tickFlushes s !! f)) as Hs by by eexists.
  assert (awaits (ls_tickFlushes s) f b) as HF by by exists i.
  assert (forall f' b', awaits (<[f := Some (TF_next i)]> (ls_tickFlushes s)) f' b' <-> f' <> f /\ awaits (ls_tickFlushes s) f' b') as HA.
  { intros f' b'. rewrite awaits_set by done. split; [intros [[_ [j ?]]|?]; done|by right]. }
  constructor; simpl; [done|intros x; by rewrite takenOf_settle| |].
  - intros b'. rewrite inFlight_settle, H3. setoid_rewrite HA. split.
    + intros [[f' HF'] Hb]. exists f'. split; [|done]. intros ->. destruct HF as [j1 E1], HF' as [j2 E2]. congruence.
    + intros (f' & Hn & HF'). split; [by exists f'|]. intros ->. by apply Hn, (H4 f' f b).
  - intros f1 f2 b'. rewrite !HA. intros [_ A1] [_ A2]. by eapply H4.
Qed.

(** Events that leave the ticks alone. *)
Lemma ticksInv_other received received' s s' :
  ls_tickBuffer s' = ls_tickBuffer s -> ls_batches s' = ls_batches s -> ls_tickFlushes s' = ls_tickFlushes s ->
  (forall symbol, received' symbol = received symbol) -> ticksInv received s -> ticksInv received' s'.
Proof. intros E1 E2 E3 Hr [H1 H2 H3 H4]. constructor; rewrite ?E1, ?E2, ?E3; try done. intros x. by rewrite Hr. Qed.

Lemma ticksInv_step received s e :
  ticksInv received s -> ticksInv (fun symbol => received symbol ++ tradesOf symbol [e]) (liveStep s e).
Proof.
  intros H. destruct e as [tick|quote|rate|symbol|symbol| |f ok| |f ok].
  - destruct H as [H1 H2 H3 H4]. constructor; simpl; [by apply mapKeys_set_NoDup| |done..].
    intros x. unfold onTrade. rewrite H2, bufferOf_set, app_nil_r, <- app_assoc. f_equal.
    case_bool_decide as E; [|by rewrite app_nil_r]. by subst x.
  - eapply ticksInv_other; [..|exact H]; try done. intros x. apply app_nil_r.
  - eapply ticksInv_other; [..|exact H]; try done. intros x. apply app_nil_r.
  - eapply ticksInv_other; [..|exact H]; try (intros x; apply app_nil_r); simpl; by case_bool_decide.
  - eapply ticksInv_other; [..|exact H]; try done. intros x. apply app_nil_r.
  - destruct H as [H1 H2 H3 H4]. constructor; simpl; [done|intros x; by rewrite app_nil_r, H2| |].
    + intros b. rewrite H3. by setoid_rewrite awaits_start.
    + intros f1 f2 b. rewrite !awaits_start. apply H4.
  - apply (ticksInv_other received _ (liveStep s (E_tickFlush f ok))); [done..|intros x; apply app_nil_r|]. simpl.
    destruct (ls_tickFlushes s !! f) as [[[i|i b]|]|] eqn:Ef; try done.
    + unfold tickFlushStep. destruct (ls_tickBuffer s !! i) as [[[symbol [|t ticks]]|]|] eqn:Ei;
        try (by apply (ticksInv_advance received s f i)). by apply ticksInv_take.
    + by apply ticksInv_settle.
  - eapply ticksInv_other; [..|exact H]; try done. intros x. apply app_nil_r.
  - eapply ticksInv_other; [..|exact H]; try (intros x; apply app_nil_r); simpl;
      destruct (ls_quoteFlushes s !! f) as [[flush|]|]; try done; unfold quoteFlushStep; destruct flush as [i|i q|rates]; try done;
      by destruct (ls_latestQuote s !! i) as [[[? ?]|]|].
Qed.

Lemma ticksInv_run events : ticksInv (fun symbol => tradesOf symbol events) (foldl liveStep liveStart events).
Proof.
  induction events as [|e events IH] using rev_ind.
  - constructor; simpl; [constructor|done| |].
    + intros b. split; [by intros (x & Hx & _)|by intros (f & i & Hi)].
    + by intros f f' b (i & Hi).
  - rewrite foldl_snoc. apply (ticksInv_step _ _ e) in IH. destruct IH as [H1 H2 H3 H4]. constructor; [done| |done..].
    intros x. by rewrite tradesOf_app.
Qed.

(** *** A flush that runs alone *)

Definition emptyBefore (j : nat) (buffer : JsMap (list NormalizedTick)) : Prop :=
  forall i symbol ticks, i < j -> buffer !! i = Some (Some (symbol, ticks)) -> ticks = [].

Definition flushPosition (flush : TickFlush) : nat := match flush with TF_next i => i | TF_await i _ => i end.

(** The turns left to a flush over so many entries. *)
Definition turns (entries : nat) (flush : TickFlush) : nat :=
  match flush with TF_next i => 2 * (entries - i) + 1 | TF_await i _ => 2 * (entries - i) + 2 end.

Definition finished (f : nat) (s : LiveState) : Prop :=
  ls_tickFlushes s !! f = Some None /\ emptyBefore (length (ls_tickBuffer s)) (ls_tickBuffer s).

Lemma finished_stays f oks s : finished f s -> foldl (fun s ok => liveStep s (E_tickFlush f ok)) s oks = s.
Proof. intros [Hf _]. induction oks as [|ok oks IH]; [done|]. simpl. by rewrite Hf. Qed.

Lemma emptyBefore_next j buffer :
  emptyBefore j buffer -> (forall symbol ticks, buffer !! j = Some (Some (symbol, ticks)) -> ticks = []) -> emptyBefore (S j) buffer.
Proof. intros H Hj i symbol ticks Hi. destruct (decide (i = j)) as [->|]; [apply Hj|apply H; lia]. Qed.

(** One turn: the flush is finished, or has one turn less to go. *)
Lemma flush_turn f flush ok s :
  NoDup (mapKeys (ls_tickBuffer s)) -> ls_tickFlushes s !! f = Some (Some flush) ->
  emptyBefore (flushPosition flush) (ls_tickBuffer s) ->
  let s' := liveStep s (E_tickFlush f ok) in
  NoDup (mapKeys (ls_tickBuffer s')) /\ length (ls_tickBuffer s') = length (ls_tickBuffer s)
  /\ (finished f s' \/ exists flush', ls_tickFlushes s' !! f = Some (Some flush')
        /\ emptyBefore (flushPosition flush') (ls_tickBuffer s')
        /\ turns (length (ls_tickBuffer s)) flush' < turns (length (ls_tickBuffer s)) flush).
Proof.
  intros HN Hf HE s'. assert (f < length (ls_tickFlushes s)) as Hlt by by apply lookup_lt_Some in Hf.
  unfold s'. simpl. rewrite Hf. destruct flush as [i|i b]; simpl in HE.
  - simpl. destruct (ls_tickBuffer s !! i) as [e|] eqn:Ei; simpl.
    2:{ split_and!; [done..|]. left. split; [by apply list_lookup_insert_eq|]. simpl. intros j x ticks Hj. apply HE.
        apply lookup_ge_None in Ei. lia. }
    assert (i < length (ls_tickBuffer s)) as Hi by by apply lookup_lt_Some in Ei.
    destruct e as [[symbol [|t ticks]]|]; simpl.
    + split_and!; [done..|]. right. exists (TF_next (S i)). split; [by apply list_lookup_insert_eq|]. split; [|simpl; lia].
      apply emptyBefore_next; [done|]. intros x ticks E. congruence.
    + rewrite (mapSet_lookup i symbol (t :: ticks)) by done. split_and!.
      * rewrite <- (mapSet_lookup i symbol (t :: ticks)) by done. by apply mapKeys_set_NoDup.
      * apply length_insert.
      * right. eexists (TF_await (S i) _). split; [by apply list_lookup_insert_eq|]. split; [|simpl; lia].
        apply emptyBefore_next.
        { intros j x l Hj. unfold JsMap in *. rewrite list_lookup_insert_ne by lia. by apply HE. }
        intros x l. unfold JsMap in *. rewrite list_lookup_insert_eq by done. by intros [= _ <-].
    + split_and!; [done..|]. right. exists (TF_next (S i)). split; [by apply list_lookup_insert_eq|]. split; [|simpl; lia].
      apply emptyBefore_next; [done|]. intros x ticks E. congruence.
  - simpl. split_and!; [done..|]. right. exists (TF_next i). split; [by apply list_lookup_insert_eq|]. split; [done|simpl; lia].
Qed.

Lemma flush_finishes f oks s flush :
  NoDup (mapKeys (ls_tickBuffer s)) -> ls_tickFlushes s !! f = Some (Some flush) ->
  emptyBefore (flushPosition flush) (ls_tickBuffer s) -> turns (length (ls_tickBuffer s)) flush <= length oks ->
  finished f (foldl (fun s ok => liveStep s (E_tickFlush f ok)) s oks).
Proof.
  revert s flush. induction oks as [|ok oks IH]; intros s flush HN Hf HE HT; [destruct flush; simpl in HT; lia|].
  cbn [foldl]. destruct (flush_turn f flush ok s HN Hf HE) as (HN' & HL & [HF|(flush' & Hf' & HE' & HT')]).
  - by rewrite finished_stays.
  - simpl in HT. apply (IH _ flush'); [done..|]. rewrite HL. lia.
Qed.
