(* ===== verification/LiveProps.v ===== *)
(** * LiveProps: what the ingestion daemon promises

    A backfill accounts for every scope; every feature row rests on a stored PASSED report;
    the ticks of the stream are handed to the database once, in order, and a stop leaves
    none behind.  The last part is two runs in which the code does less than it says. *)

From S2P Require Import Prelude JsNumber JsText JsDecimal Json Effects Served Signals MarketState Features FeatureProps.
From S2P Require Import Quality Ingestion Backfill LiveFacts Live.

Local Open Scope string_scope.
Local Open Scope list_scope.
Local Open Scope eff_scope.

(** C33. A backfill isolates its scopes: it runs every window of candles, every flow of every
    symbol and every option chain that the venue's capabilities allow, in this order and
    whatever the ones before did; each ends as its fetch, writes, report, hook and
    publications do, adds exactly what it wrote to its counter and its report to the summary,
    and what was thrown, under its own name, to the errors.  So every scope has its error
    recorded or its work ended without one, a window with a report.  The closing heartbeat
    carries the summary and the errors, and is OK exactly when there is none.  A backfill
    throws only if the publication that announces a rejected secret does. *)
Theorem backfill_isolates {X W D} (connector : ExchangeConnector X W) opts (deps : IngestDeps X W D) w :
  match runBackfill connector opts deps w with
  | (inl x, _) => authPublishThrows deps x
  | (inr summary, w') => exists errors w1 w2,
      let job := "backfill:" +:+ ec_exchange connector in
      let p := {| pg_summary := summary; pg_errors := errors |} in
      heartbeat (id_ingest deps) job JS_RUNNING (startDetail opts) w = (inr tt, w1)
      /\ planRuns connector opts deps (backfillPlan connector opts) (noProgress, w1) (p, w2)
      /\ Forall (accounted connector opts deps p) (backfillPlan connector opts)
      /\ heartbeat (id_ingest deps) job (if bool_decide (errors = []) then JS_OK else JS_FAILED) (finishDetail p) w2 = (inr tt, w')
  end.
Proof.
  unfold runBackfill. cbv beta iota delta [bind ret gets onWorld].
  destruct (heartbeat_returning (id_ingest deps) ("backfill:" +:+ ec_exchange connector) JS_RUNNING (startDetail opts) w) as ([] & w1 & E1).
  cbn [fst snd]. rewrite E1. pose proof (backfillScopes_runs connector opts deps noProgress w1) as HB.
  destruct (backfillScopes connector opts deps (noProgress, w1)) as [[x|[]] [[summary errors] w2]]; cbn [fst snd] in *; [done|].
  match goal with |- context [heartbeat ?ops ?job ?status ?detail w2] =>
    destruct (heartbeat_returning ops job status detail w2) as ([] & w3 & E2) end.
  rewrite E2. exists errors, w1, w2. split_and!; [done|done|by apply planRuns_accounted in HB|exact E2].
Qed.

(** ** Features rest on reports *)

(** What the daemon runs: its start, the handlers of a candle and of a recomputation, the
    poll, and the upserts of the flush loops. *)
Inductive DaemonCall :=
| D_start (opts : LiveIngestionOptions)
| D_candle (candle : NormalizedCandle)
| D_recompute (opts : LiveIngestionOptions) (symbol : string)
| D_poll (perps : list (string * string)) (underlyings : list string)
| D_ticks (batch : list NormalizedTick)
| D_quote (quote : NormalizedQuote)
| D_funding (rates : list NormalizedFundingRate).

Section daemon.
Context {X W D : Type} (connector : ExchangeConnector X W) (store : CandleStore X W) (deps : IngestDeps X W D).
Context (features : FeatureOps X W) (parseDate : string -> option Z) (sharedSecret : option string).
Context (bridgeError : string -> string -> X).
Context (written : W -> list SnapshotUpsert) (reports : W -> list (string * ReportRow)).

(** The world after a call, whether it returned or threw. *)
Definition daemonCall (w : W) (c : DaemonCall) : W :=
  match c with
  | D_start opts => snd (startLive connector deps features parseDate sharedSecret bridgeError opts w)
  | D_candle candle => snd (onCandle deps candle w)
  | D_recompute opts symbol => snd (recompute connector store deps features parseDate sharedSecret bridgeError opts symbol w)
  | D_poll perps underlyings => snd (pollFlow connector deps perps underlyings w)
  | D_ticks batch => snd (upsertTicks (id_ingest deps) batch w)
  | D_quote quote => snd (upsertOrderbookSnapshots (id_ingest deps) [quote] w)
  | D_funding rates => snd (upsertFundingRates (id_ingest deps) rates w)
  end.

(** C34. Whatever the daemon runs, in whatever order and with whatever failures, every feature
    row it added names a report that is stored, PASSED, and of the same exchange, symbol
    and timeframe. *)
Theorem features_rest_on_reports w w' :
  tracesLaws connector store deps features written reports ->
  run daemonCall (fun _ => True) w w' ->
  forall u, u ∈ written w' -> u ∈ written w \/ exists row,
    (su_dqReportId u, row) ∈ reports w' /\ rw_status row = DQ_PASSED /\ qc_exchange (rw_scope row) = su_exchange u
    /\ qc_symbol (rw_scope row) = su_symbol u /\ showTimeframe (qc_timeframe (rw_scope row)) = su_timeframe u.
Proof.
  intros L HR. cut (explains written reports w w'); [intros [_ H]; exact H|]. revert w' HR. apply run_inv; [done|].
  intros s c HI _. etrans; [exact HI|]. destruct c; cbn [daemonCall].
  - by apply (startLive_explains connector store).
  - by apply (onCandle_explains connector store deps features parseDate sharedSecret bridgeError).
  - by apply recompute_explains.
  - by apply (pollFlow_explains connector store deps features parseDate sharedSecret bridgeError).
  - apply quiet_explains, (upsertTicks_quiet connector store deps features parseDate sharedSecret bridgeError written reports L).
  - apply quiet_explains, (upsertOrderbook_quiet connector store deps features parseDate sharedSecret bridgeError written reports L).
  - apply quiet_explains, (upsertFundingRates_quiet connector store deps features parseDate sharedSecret bridgeError written reports L).
Qed.
End daemon.

(** ** The buffers of the stream *)

(** Whatever the order of trades, flushes and settlements, also with overlapping flushes:
    the ticks of a symbol are exactly those of the batches handed to the database, in the
    order received, followed by those still buffered; and the unsettled batches are exactly
    the ones that one running flush each awaits. *)
Theorem ticks_conserved events :
  let s := foldl liveStep liveStart events in
  (forall symbol, tradesOf symbol events = takenOf symbol (ls_batches s) ++ bufferOf symbol (ls_tickBuffer s))
  /\ (forall b, inFlight (ls_batches s) b <-> exists f, awaits (ls_tickFlushes s) f b
        /\ forall f', awaits (ls_tickFlushes s) f' b -> f' = f).
Proof.
  intros s. destruct (ticksInv_run events) as [_ H2 H3 H4]. fold s in H2, H3, H4. split; [exact H2|].
  intros b. rewrite H3. split; [intros [f Hf]; exists f; split; [done|]|intros (f & Hf & _); by exists f].
  intros f' Hf'. by eapply H4.
Qed.

(** C35. The flush a stop starts, with no more trades, terminates, within two turns per buffer
    and one, however its calls settle; and by then every tick that was received has been
    handed to the database in a batch. *)
Theorem stop_drains events oks :
  let s := foldl liveStep liveStart (events ++ [E_flushTicks]) in
  let f := length (ls_tickFlushes s) - 1 in
  2 * length (ls_tickBuffer s) + 1 <= length oks ->
  let s' := foldl (fun s ok => liveStep s (E_tickFlush f ok)) s oks in
  ls_tickFlushes s' !! f = Some None /\ forall symbol, takenOf symbol (ls_batches s') = tradesOf symbol events.
Proof.
  intros s f HT s'. destruct (ticksInv_run (events ++ [E_flushTicks])) as [HN _ _ _]. fold s in HN.
  assert (ls_tickFlushes s !! f = Some (Some (TF_next 0))) as Hf.
  { unfold f, s. rewrite foldl_snoc. simpl. rewrite length_app. simpl. rewrite Nat.add_sub. by rewrite list_lookup_middle. }
  destruct (flush_finishes f oks s (TF_next 0) HN Hf) as [HF HE]; [intros i ? ? Hi; simpl in Hi; lia|unfold turns; rewrite Nat.sub_0_r; exact HT|]. fold s' in HF, HE.
  split; [done|]. intros symbol.
  destruct (ticksInv_run ((events ++ [E_flushTicks]) ++ List.map (E_tickFlush f) oks)) as [_ H2 _ _].
  assert (foldl liveStep liveStart ((events ++ [E_flushTicks]) ++ List.map (E_tickFlush f) oks) = s') as ES.
  { rewrite foldl_app. fold s. unfold s'. clear. generalize s. induction oks as [|ok oks IH]; intros s0; [done|]. apply IH. }
  specialize (H2 symbol). rewrite ES, !tradesOf_app in H2. simpl in H2.
  assert (tradesOf symbol (List.map (E_tickFlush f) oks) = []) as E0 by (clear; by induction oks).
  rewrite E0, !app_nil_r in H2. rewrite H2. unfold bufferOf.
  destruct (mapGet symbol (ls_tickBuffer s')) as [ticks|] eqn:EG; [|by rewrite app_nil_r].
  assert (exists i, ls_tickBuffer s' !! i = Some (Some (symbol, ticks))) as [i Hi] by by apply mapGet_position.
  rewrite (HE i symbol ticks) by (done || by apply lookup_lt_Some in Hi). by rewrite app_nil_r.
Qed.

(** ** Sample runs *)

Module SampleFeed.
(** The feature rows and the reports. *)
Definition World : Type := list SnapshotUpsert * list (string * ReportRow).

Definition candle (ts : Z) : NormalizedCandle :=
  {| nc_exchange := "DERIBIT"; nc_symbol := "BTC-PERP"; nc_assetType := "PERP"; nc_timeframe := M1; nc_ts := ts; nc_open := "10";
     nc_high := "11"; nc_low := "9"; nc_close := "10"; nc_volume := "1"; nc_trades := None |}.

Definition allCapabilities : ConnectorCapabilities :=
  {| cp_candles := true; cp_funding := true; cp_openInterest := true; cp_longShortRatio := true; cp_optionChain := true;
     cp_liquidity := true |}.

Definition connectorOf {X W} (log : string -> M X W unit) : ExchangeConnector X W := {|
  ec_exchange := "DERIBIT"; ec_capabilities := allCapabilities;
  ec_fetchCandles r := (do! log (cb_symbol r) in ret [candle 0; candle 60000; candle 120000])%eff;
  ec_fetchFundingRates _ := ret []; ec_fetchOpenInterest _ := ret []; ec_fetchLongShortRatios _ := ret [];
  ec_fetchOptionChain _ := ret None; ec_fetchLiquidity _ := ret None |}.

Definition ingestOf {X W} (error : string -> X) (log : string -> M X W unit) : IngestOps X W := {|
  io_transaction _ _ := ret tt; io_upsert _ _ := ret tt; io_priorOpenInterest _ _ _ := ret None;
  io_createTicks ticks := ret (length ticks);
  io_createJobRun r := log (match jr_status r with JS_RUNNING => "RUNNING" | JS_OK => "OK" | JS_FAILED => "FAILED" end);
  io_now := ret 0%Z; io_error := error |}.

Definition quietLog {W} (_ : string) : M string W unit := ret tt.

Definition integers : DecimalOps Z := {|
  dm_parse s := match s with "0" => Some 0%Z | _ => None end; dm_minus a b := (a - b)%Z; dm_isZero a := (a =? 0)%Z;
  dm_toFixed a := pretty a; dm_percentOf a b := pretty (a * 100 / b)%Z |}.

Definition deps : IngestDeps string World Z := {|
  id_ingest := ingestOf id quietLog; id_decimal := integers; id_decimalError := id;
  id_quality := {|
    qo_stageB _ := ret (StageBResponse 200 "[]");
    qo_createReport row := fun w => (inr "report-1", (fst w, snd w ++ [("report-1", row)]));
    qo_authError _ := "auth" |};
  id_quantBaseUrl := Some "http://quant"; id_syntaxError := id; id_sha256 := id; id_publish _ _ := ret tt;
  id_onCandlesValidated := None; id_errMsg := id; id_stageBAuth _ := None |}.

Definition store : CandleStore string World := {| ce_count _ _ _ := ret 0; ce_findNewest _ _ _ _ := ret [] |}.

Definition body : string := stringify (J_object [
  ("feature_set", J_string "core-technical"); ("version", J_number (nint 1)); ("as_of_ts", J_string "t");
  ("featureHash", J_string "hash"); ("features", J_object [("ema_20", J_number (nint 130))]) ]).

Definition features : FeatureOps string World := {|
  fo_fetch _ := ret (Answered 200 body);
  fo_findFeatureSet _ _ := ret (Some "fs");
  fo_upsertSnapshot u := fun w => (inr "snapshot-1", (fst w ++ [u], snd w));
  fo_publishEvent := Some (fun _ _ => ret tt);
  fo_error _ := "feature error" |}.

Definition opts : LiveIngestionOptions := {|
  lo_symbols := [("BTC-PERP", "PERP"); ("BTC-USDT", "SPOT")]; lo_liveTimeframe := M1; lo_underlyings := ["BTC"]; lo_backfillFrom := 0;
  lo_backfillTo := 180000; lo_featureSet := "core-technical"; lo_featureVersion := nint 1; lo_featureWindow := None |}.

Definition fed : World :=
  daemonCall (connectorOf quietLog) store deps features (fun _ => Some 0%Z) None (fun m _ => m) ([], []) (D_start opts).

Lemma feed_laws : tracesLaws (connectorOf quietLog) store deps features fst snd.
Proof.
  constructor; simpl; try (by intros ? ? ? [= <-] w); try (by intros; intros w; split); try (by intros; intros w).
  - constructor; simpl; try done. by intros ? ? ? ? [= <-].
  - by intros row w.
Qed.

Definition tick (ts : Z) : NormalizedTick :=
  {| nk_exchange := "DERIBIT"; nk_symbol := "BTC-PERP"; nk_ts := ts; nk_tradeId := "t"; nk_price := "10"; nk_size := "1"; nk_side := MarketState.BUY |}.

Definition quote (ts : Z) : NormalizedQuote :=
  {| nq_exchange := "DERIBIT"; nq_symbol := "BTC-PERP"; nq_ts := ts; nq_bestBid := "9"; nq_bestAsk := "11"; nq_bestBidSize := "1";
     nq_bestAskSize := "1"; nq_markPrice := None; nq_spreadBps := None; nq_bids := None; nq_asks := None |}.
End SampleFeed.

Lemma features_rest_on_reports_witness :
  exists u row, fst SampleFeed.fed = [u] /\ (su_dqReportId u, row) ∈ snd SampleFeed.fed /\ rw_status row = DQ_PASSED.
Proof.
  destruct (fst SampleFeed.fed) as [|u us] eqn:E; [vm_compute in E; discriminate E|].
  destruct us as [|u' us]; [|vm_compute in E; discriminate E].
  assert (u ∈ fst SampleFeed.fed) as Hu by (rewrite E; left).
  pose proof (features_rest_on_reports (SampleFeed.connectorOf SampleFeed.quietLog) SampleFeed.store SampleFeed.deps SampleFeed.features
    (fun _ => Some 0%Z) None (fun m _ => m) fst snd ([], []) SampleFeed.fed SampleFeed.feed_laws
    (run_step _ _ _ _ (D_start SampleFeed.opts) (run_refl _ _ _) I) u Hu) as H.
  destruct H as [H|[row [H1 [H2 _]]]]; [cbn in H; exfalso; exact (not_elem_of_nil _ H)|].
  exists u, row. split; [reflexivity|]. split; [exact H1|exact H2].
Defined.

(** A trade, a flush that takes it, and a trade that arrives meanwhile. *)
Definition sampleTrades : list LiveEvent :=
  [E_trade (SampleFeed.tick 0); E_flushTicks; E_tickFlush 0 true; E_trade (SampleFeed.tick 1)].

Lemma stop_drains_witness :
  let s := foldl liveStep liveStart (sampleTrades ++ [E_flushTicks]) in
  takenOf "BTC-PERP" (ls_batches (foldl (fun s ok => liveStep s (E_tickFlush 1 ok)) s [true; false; true]))
  = [SampleFeed.tick 0; SampleFeed.tick 1].
Proof.
  exact (proj2 (stop_drains sampleTrades [true; false; true] ltac:(vm_compute; lia)) "BTC-PERP").
Defined.

(** ** Where the code does less than it says *)

(** A secret that the statistical service rejects, announced by a publication that throws,
    ends the whole backfill: the second symbol is never fetched, and the job that was
    reported RUNNING gets no closing heartbeat. *)
Example auth_publish_aborts_backfill :
  let log message : M string (list string) unit := fun w => (inr tt, w ++ [message]) in
  let deps : IngestDeps string (list string) Z := {|
    id_ingest := SampleFeed.ingestOf id log; id_decimal := SampleFeed.integers; id_decimalError := id;
    id_quality := {| qo_stageB _ := ret (StageBResponse 401 ""); qo_createReport _ := ret "report"; qo_authError _ := "auth" |};
    id_quantBaseUrl := Some "http://quant"; id_syntaxError := id; id_sha256 := id;
    id_publish name _ := throw ("bus down: " +:+ name); id_onCandlesValidated := None; id_errMsg := id;
    id_stageBAuth x := if bool_decide (x = "auth") then Some "rejected" else None |} in
  runBackfill (SampleFeed.connectorOf log)
    {| bf_symbols := [("BTC-PERP", "PERP"); ("ETH-PERP", "PERP")]; bf_timeframes := [M1]; bf_from := 0; bf_to := 180000;
       bf_underlyings := [] |} deps []
  = (inl "bus down: system.health.degraded", ["RUNNING"; "BTC-PERP"]).
Proof. vm_compute. reflexivity. Qed.

(** A quote that arrives while a flush awaits the previous quote of its symbol is cleared with
    it: no flush ever writes it. *)
Example quote_lost_during_flush :
  let s := foldl liveStep liveStart
    [E_quote (SampleFeed.quote 0); E_flushQuotes; E_quoteFlush 0 true; E_quote (SampleFeed.quote 1); E_quoteFlush 0 true;
     E_quoteFlush 0 true] in
  ls_quoteFlushes s = [None] /\ ls_quotesWritten s = [(SampleFeed.quote 0, true)] /\ mapValues (ls_latestQuote s) = [].
Proof. split_and!; reflexivity. Qed.

(** The batch of a flush whose upsert fails is dropped: a later flush, the draining one of a
    stop included, does not write it again. *)
Example failed_batch_dropped :
  let s := foldl liveStep liveStart
    [E_trade (SampleFeed.tick 0); E_flushTicks; E_tickFlush 0 true; E_tickFlush 0 false; E_tickFlush 0 true;
     E_flushTicks; E_tickFlush 1 true; E_tickFlush 1 true] in
  ls_tickFlushes s = [None; None] /\ List.map tb_state (ls_batches s) = [Settled false] /\ bufferOf "BTC-PERP" (ls_tickBuffer s) = [].
Proof. split_and!; reflexivity. Qed.
