(* ===== verification/Connector.v ===== *)
(** * Connector: what the venue connectors share

    services/ingestion/src/connectors/binance.ts and deribit.ts repeat the same plumbing:
    decimal strings, requests spaced and retried, windows read page by page, and a stream
    that reconnects.  It is modelled once here, from binance.ts; what differs is a
    [RestVenue].  The HTTP client, the clock and the timers are operations over an outside
    world W, and the calls of one connector run one at a time.

    A Date is its time value, and [INVALID_DATE] stands for every invalid one.  A symbol
    that names a member of Object.prototype counts as unmapped.  Log lines are left out. *)

From S2P Require Import Prelude JsNumber JsText JsDecimal Json Effects Served MarketState Quality Ingestion.

Local Open Scope string_scope.
Local Open Scope list_scope.
Local Open Scope eff_scope.

(** ** Errors *)

(** BinanceApiError and DeribitApiError ([rpcCode] is [J_undefined] when there is none); a
    TypeError is what reading a member of null, or iterating what is not iterable, throws,
    and a RangeError what [toISOString] of an invalid Date throws. *)
Inductive ApiError :=
| VenueApiError (message endpoint : string) (httpStatus : option Z) (rpcCode : Json)
| TypeError
| RangeError.

Notation "'let?' x := m 'in' k" := (match m with inl err => inl err | inr x => k end)
  (at level 10, x pattern, m at level 100, k at level 200) : eff_scope.

(** ** Decimal strings *)

(** [s.includes(".")] *)
Fixpoint hasPoint (s : string) : bool :=
  match s with String c s => (code c =? 46)%Z || hasPoint s | _ => false end.

(** [s.replace(/0+$/, "")] *)
Fixpoint dropZeros (s : string) : string :=
  match s with
  | String c s =>
      match dropZeros s with
      | "" => if (code c =? 48)%Z then "" else String c ""
      | rest => String c rest
      end
  | _ => ""
  end.

(** [s.replace(/\.$/, "")] *)
Fixpoint dropPoint (s : string) : string :=
  match s with
  | String c "" => if (code c =? 46)%Z then "" else s
  | String c s => String c (dropPoint s)
  | _ => ""
  end.

Definition trimDecimal (fixed : string) : string :=
  let out := if hasPoint fixed then dropPoint (dropZeros fixed) else fixed in
  if bool_decide (out = "-0") then "0" else out.

(** toDecimalString of a value that reads as n; [shown] is [String(value)]. *)
Definition decimalString (shown : string) (n : number) (dp : nat) : ApiError + string :=
  if isFinite n then inr (trimDecimal (toFixed n dp))
  else inl (VenueApiError ("non-finite numeric value: " +:+ shown) "normalize" None J_undefined).

(** ** Dates *)

Definition MAX_TIME_VALUE : Z := 8640000000000000.
Definition INVALID_DATE : Z := 8640000000000001.

(** [new Date(n)]: the integral part, when it is within range. *)
Definition dateOf (n : number) : Z :=
  if isFinite n then
    let t := Z.quot (sv n) (2 ^ 1074) in
    if (Z.abs t <=? MAX_TIME_VALUE)%Z then t else INVALID_DATE
  else INVALID_DATE.

(** ** Reading JSON of unknown shape *)

(** [v\[k\]] of a member that arrays and strings do not have. *)
Definition member (k : string) (v : Json) : ApiError + Json :=
  match v with J_undefined | J_null => inl TypeError | _ => inr (prop k v) end.

(** The characters of a string, each with its continuation bytes. *)
Fixpoint characters (s : string) : list string :=
  match s with
  | "" => []
  | String c s =>
      match characters s, s with
      | first :: rest, String d _ =>
          if ((128 <=? code d) && (code d <? 192))%Z then String c first :: rest else String c "" :: first :: rest
      | chars, _ => String c "" :: chars
      end
  end.

(** The elements [for (const x of v)] visits. *)
Definition iterate (v : Json) : ApiError + list Json :=
  match v with
  | J_array l => inr l
  | J_string s => inr (List.map J_string (characters s))
  | _ => inl TypeError
  end.

(** [v\[i\]] *)
Definition index (i : nat) (v : Json) : ApiError + Json :=
  match v with
  | J_undefined | J_null => inl TypeError
  | J_array l => inr (nth i l J_undefined)
  | J_string s => inr (nth i (List.map J_string (characters s)) J_undefined)
  | _ => inr (prop (showZ (Z.of_nat i)) v)
  end.

(** [const \[a, b\] = v] *)
Definition pairOf (v : Json) : ApiError + Json * Json :=
  let? l := iterate v in
  inr (nth 0 l J_undefined, nth 1 l J_undefined).

(** [a ?? b] *)
Definition orElseValue (a b : Json) : Json := match a with J_undefined | J_null => b | _ => a end.

(** ** REST plumbing *)

Definition MAX_RETRIES : nat := 3.
Definition RETRY_BASE_DELAY_MS : Z := 500.

(** One request: a failure with its message, or a status and the body (the message of a
    failed read, or the text). *)
Inductive Fetched :=
| Unreachable (message : string)
| Answered (status : Z) (body : string + string).

Record HttpOps (W : Type) := {
  ho_now : W -> Z * W;
  ho_sleep : Z -> W -> W;
  ho_get : string -> W -> Fetched * W
}.
Arguments ho_now {W}.
Arguments ho_sleep {W}.
Arguments ho_get {W}.

(** What an answer is to the request that got it. *)
Inductive Reading :=
| Value (v : Json)
| Fatal (err : ApiError)
| Transient (err : ApiError).

Record RestVenue := {
  rv_interval : Z;
  rv_url : string -> list (string * string) -> string;
  rv_read : string -> Fetched -> Reading
}.

(** application/x-www-form-urlencoded *)
Definition upperHex (d : Z) : Ascii.ascii := if (d <? 10)%Z then digit d else char (Z.to_N (55 + d)).

Definition plainByte (n : Z) : bool :=
  ((48 <=? n) && (n <=? 57) || (65 <=? n) && (n <=? 90) || (97 <=? n) && (n <=? 122)
   || (n =? 42) || (n =? 45) || (n =? 46) || (n =? 95))%Z.

Fixpoint formEncode (s : string) : string :=
  match s with
  | "" => ""
  | String c s =>
      let n := code c in
      if plainByte n then String c (formEncode s)
      else if (n =? 32)%Z then String (char 43) (formEncode s)
      else String (char 37) (String (upperHex (n / 16)) (String (upperHex (n mod 16)) (formEncode s)))
  end.

(** [new URLSearchParams(params).toString()] *)
Definition queryString (params : list (string * string)) : string :=
  join "&" (List.map (fun '(k, v) => formEncode k +:+ "=" +:+ formEncode v) params).

Section rest.
Context {W : Type} (http : HttpOps W) (venue : RestVenue).

(** The state is the field [lastRequestAt] and the world. *)
Definition CM (A : Type) : Type := M ApiError (Z * W) A.

Definition lift {A} (r : ApiError + A) : CM A := match r with inl err => throw err | inr a => ret a end.

Definition now : CM Z := onWorld (total (ho_now http)).
Definition sleep (ms : Z) : CM unit := onWorld (modify (ho_sleep http ms)).

Definition throttle : CM unit :=
  let! at_ := now in
  let! lastRequestAt := gets fst in
  let earliest := (lastRequestAt + rv_interval venue)%Z in
  do! modify (fun s => (Z.max at_ earliest, snd s)) in
  when (0 <? earliest - at_)%Z (sleep (earliest - at_)%Z).

(** The passes of the loop from the given attempt on, n of them left. *)
Fixpoint attempts (path url : string) (n attempt : nat) (lastErr : option ApiError) : CM Json :=
  match n with
  | O => throw (default (VenueApiError "request failed after retries" path None J_undefined) lastErr)
  | S n =>
      do! when (0 <? attempt)%nat (sleep (RETRY_BASE_DELAY_MS * 2 ^ (Z.of_nat attempt - 1))%Z) in
      do! throttle in
      let! res := onWorld (total (ho_get http url)) in
      match rv_read venue path res with
      | Value v => ret v
      | Fatal err => throw err
      | Transient err => attempts path url n (S attempt) (Some err)
      end
  end.

Definition restGet (path : string) (params : list (string * string)) : CM Json :=
  attempts path (rv_url venue path params) (S MAX_RETRIES) 0 None.

(** [res.ok] *)
Definition res_ok (status : Z) : bool := ((200 <=? status) && (status <=? 299))%Z.

(** ** Windows *)

(** [for (let cursor = from; cursor <= to; cursor += step)], at most fuel passes. *)
Fixpoint cursorLoop (fuel : nat) (step to cursor : Z) : list Z :=
  match fuel with
  | O => []
  | S fuel => if (cursor <=? to)%Z then cursor :: cursorLoop fuel step to (cursor + step) else []
  end.

Definition cursors (from to step : Z) : list Z := cursorLoop (Z.to_nat ((to - from) / step + 1)) step to from.

Fixpoint readPages {A} (page : Z -> A -> CM A) (cursors : list Z) (out : A) : CM A :=
  match cursors with
  | [] => ret out
  | cursor :: cursors =>
      let! out := page cursor out in
      readPages page cursors out
  end.
End rest.

(** [out.set(ts, v)] on the entries of a Map: an existing key keeps its place. *)
Fixpoint setEntry {K V} (same : K -> K -> bool) (key : K) (v : V) (l : list (K * V)) : list (K * V) :=
  match l with
  | [] => [(key, v)]
  | (k, w) :: l => if same k key then (k, v) :: l else (k, w) :: setEntry same key v l
  end.

(** The records of a page into the Map: an unusable one throws, one outside the window is
    left out. *)
Fixpoint readRecords {R K V} (same : K -> K -> bool) (read : R -> ApiError + option (K * V)) (rows : list R)
    (out : list (K * V)) : ApiError + list (K * V) :=
  match rows with
  | [] => inr out
  | row :: rows =>
      let? r := read row in
      readRecords same read rows (match r with Some (key, v) => setEntry same key v out | None => out end)
  end.

(** The records pushed, in the order of the rows. *)
Fixpoint collectRecords {V} (read : Json -> ApiError + option V) (rows : list Json) : ApiError + list V :=
  match rows with
  | [] => inr []
  | row :: rows =>
      let? r := read row in
      let? rest := collectRecords read rows in
      inr (match r with Some v => v :: rest | None => rest end)
  end.

(** [ts < fromMs || ts > toMs] *)
Definition outside (from to : Z) (ts : number) : bool := nlt ts (nint from) || ngt ts (nint to).

(** The sign of the difference of two time values; NaN counts as 0. *)
Definition byDate (a b : Z) : comparison :=
  if bool_decide (a = INVALID_DATE) || bool_decide (b = INVALID_DATE) then Eq else (a ?= b)%Z.

(** [\[...out.values()\].sort((a, b) => a.ts.getTime() - b.ts.getTime())] *)
Definition sortedValues {V} (tsOf : V -> Z) (l : list V) : list V := sortBy (fun a b => byDate (tsOf a) (tsOf b)) l.

(** ** The book *)

(** [1 - DEPTH_BAND] and [1 + DEPTH_BAND], with DEPTH_BAND = 0.005 *)
Definition DEPTH_BAND : number := ndec 5 3.
Definition bandLow (mid : number) : number := nmul mid (nsub (nint 1) DEPTH_BAND).
Definition bandHigh (mid : number) : number := nmul mid (nadd (nint 1) DEPTH_BAND).

Definition midOf (bid ask : number) : number := ndiv (nadd bid ask) (nint 2).

Definition spreadBpsOf (bid ask mid : number) : number := nmul (ndiv (nsub ask bid) mid) (nint 10000).

(** ** The handlers of a stream *)

(** Which of the optional handlers the caller gave. *)
Record LiveHandlers := { lh_onCandle : bool; lh_onTrade : bool; lh_onQuote : bool; lh_onFunding : bool }.

(** A call of a handler. *)
Inductive LiveCall :=
| OnCandle (c : NormalizedCandle)
| OnTrade (t : NormalizedTick)
| OnQuote (q : NormalizedQuote)
| OnFunding (r : NormalizedFundingRate).

Record LiveStreamRequest := { lr_symbols : list (string * string); lr_timeframe : Timeframe }.

(** ** The life of a stream *)

Definition WS_RECONNECT_MIN_MS : Z := 1000.
Definition WS_RECONNECT_MAX_MS : Z := 60000.

(** A WebSocket: what it is doing, and whether its close listener is attached. *)
Inductive Phase := Connecting | Open | Shut.

#[export] Instance Phase_eq_dec : EqDecision Phase.
Proof. solve_decision. Defined.

Record Socket := { so_phase : Phase; so_onClose : bool }.

(** The variables of streamLive, with the sockets created so far and the pending timeouts. *)
Record LiveStream := {
  lv_sockets : list Socket;
  lv_ws : option nat;
  lv_closed : bool;
  lv_reconnectDelayMs : Z;
  lv_reconnectTimer : option nat;
  lv_timers : list nat;
  lv_timerCount : nat
}.

(** What the callbacks call. *)
Inductive Reported :=
| R_connected
| R_disconnected (reason : string)
| R_error (message : string)
| R_scheduled (delayMs : Z).

Definition freshStream : LiveStream := {|
  lv_sockets := []; lv_ws := None; lv_closed := false; lv_reconnectDelayMs := WS_RECONNECT_MIN_MS;
  lv_reconnectTimer := None; lv_timers := []; lv_timerCount := 0 |}.

Definition connect (st : LiveStream) : LiveStream :=
  if lv_closed st then st
  else {| lv_sockets := lv_sockets st ++ [{| so_phase := Connecting; so_onClose := true |}];
          lv_ws := Some (length (lv_sockets st)); lv_closed := lv_closed st;
          lv_reconnectDelayMs := lv_reconnectDelayMs st; lv_reconnectTimer := lv_reconnectTimer st;
          lv_timers := lv_timers st; lv_timerCount := lv_timerCount st |}.

Definition scheduleReconnect (st : LiveStream) : LiveStream * list Reported :=
  if lv_closed st then (st, [])
  else ({| lv_sockets := lv_sockets st; lv_ws := lv_ws st; lv_closed := lv_closed st;
           lv_reconnectDelayMs := Z.min (lv_reconnectDelayMs st * 2) WS_RECONNECT_MAX_MS;
           lv_reconnectTimer := Some (lv_timerCount st); lv_timers := lv_timers st ++ [lv_timerCount st];
           lv_timerCount := S (lv_timerCount st) |},
        [R_scheduled (lv_reconnectDelayMs st)]).

(** The sockets, after socket i has moved. *)
Definition setSockets (sockets : list Socket) (st : LiveStream) : LiveStream :=
  {| lv_sockets := sockets; lv_ws := lv_ws st; lv_closed := lv_closed st;
     lv_reconnectDelayMs := lv_reconnectDelayMs st; lv_reconnectTimer := lv_reconnectTimer st;
     lv_timers := lv_timers st; lv_timerCount := lv_timerCount st |}.

Inductive StreamEvent :=
| SocketOpen (i : nat)
| SocketError (i : nat) (message : string)
| SocketClose (i : nat) (code : Z)
| TimerFired (t : nat)
| CloseCalled.

(** [socket.on("open")] *)
Definition onOpen (i : nat) (socket : Socket) (st : LiveStream) : LiveStream * list Reported :=
  ({| lv_sockets := <[i := {| so_phase := Open; so_onClose := so_onClose socket |}]> (lv_sockets st);
      lv_ws := lv_ws st; lv_closed := lv_closed st; lv_reconnectDelayMs := WS_RECONNECT_MIN_MS;
      lv_reconnectTimer := lv_reconnectTimer st; lv_timers := lv_timers st; lv_timerCount := lv_timerCount st |},
   [R_connected]).

(** [socket.on("close")]; a removed listener does nothing. *)
Definition onClose (venueName : string) (i : nat) (socket : Socket) (code : Z) (st : LiveStream) : LiveStream * list Reported :=
  let st := setSockets (<[i := {| so_phase := Shut; so_onClose := so_onClose socket |}]> (lv_sockets st)) st in
  if so_onClose socket then
    let '(st, reports) := scheduleReconnect st in
    (st, R_disconnected (venueName +:+ " ws closed (code=" +:+ showZ code +:+ ")") :: reports)
  else (st, []).

(** The callback of setTimeout. *)
Definition onTimer (t : nat) (st : LiveStream) : LiveStream :=
  connect {| lv_sockets := lv_sockets st; lv_ws := lv_ws st; lv_closed := lv_closed st;
             lv_reconnectDelayMs := lv_reconnectDelayMs st; lv_reconnectTimer := None;
             lv_timers := List.filter (fun u => negb (u =? t)%nat) (lv_timers st); lv_timerCount := lv_timerCount st |}.

(** The subscription's [close()]: a pending timeout is cleared and the close listener of
    [ws] removed; the socket itself shuts later. *)
Definition closeStream (st : LiveStream) : LiveStream :=
  {| lv_sockets :=
       match lv_ws st with
       | Some i => alter (fun s => {| so_phase := so_phase s; so_onClose := false |}) i (lv_sockets st)
       | None => lv_sockets st
       end;
     lv_ws := None; lv_closed := true; lv_reconnectDelayMs := lv_reconnectDelayMs st; lv_reconnectTimer := None;
     lv_timers :=
       match lv_reconnectTimer st with
       | Some t => List.filter (fun u => negb (u =? t)%nat) (lv_timers st)
       | None => lv_timers st
       end;
     lv_timerCount := lv_timerCount st |}.

(** One event; None for one that cannot happen (a socket that is shut emits nothing, a
    timeout that is not pending does not fire). *)
Definition streamStep (venueName : string) (st : LiveStream) (event : StreamEvent) : option (LiveStream * list Reported) :=
  match event with
  | SocketOpen i =>
      match lv_sockets st !! i with
      | Some socket => if bool_decide (so_phase socket = Connecting) then Some (onOpen i socket st) else None
      | None => None
      end
  | SocketError i message =>
      match lv_sockets st !! i with
      | Some socket => if bool_decide (so_phase socket = Shut) then None else Some (st, [R_error message])
      | None => None
      end
  | SocketClose i code =>
      match lv_sockets st !! i with
      | Some socket => if bool_decide (so_phase socket = Shut) then None else Some (onClose venueName i socket code st)
      | None => None
      end
  | TimerFired t => if bool_decide (t ∈ lv_timers st) then Some (onTimer t st, []) else None
  | CloseCalled => Some (closeStream st, [])
  end.
