(* ===== verification/Binance.v ===== *)
(** * Binance: the secondary venue

    services/ingestion/src/connectors/binance.ts: what an answer of the REST API is, the
    windows of candles, funding rates, open interest, long/short ratios and the order book
    it is read into, and the payloads of the combined stream.  The dates of a request are
    valid. *)

From stdpp Require Import gmap.
From S2P Require Import Prelude JsNumber JsText JsDecimal Json Effects Served MarketState Quality Ingestion Backfill Connector.

Local Open Scope string_scope.
Local Open Scope list_scope.
Local Open Scope eff_scope.

Module Binance.

(** ** Constants *)

Definition EXCHANGE : string := "BINANCE".
Definition REST_BASE : string := "https://fapi.binance.com".
Definition WS_BASE : string := "wss://fstream.binance.com/stream".
Definition RATE_LIMIT_INTERVAL_MS : Z := 120.
Definition MAX_BARS_PER_REQUEST : Z := 1500.
Definition FUNDING_PAGE : Z := 1000.
Definition FUNDING_INTERVAL_MS : Z := 28800000.
Definition FLOW_HIST_LIMIT : Z := 500.
Definition DEPTH_LIMIT : Z := 100.
Definition FLOW_PERIOD : string := "1h".

Definition PERP_SYMBOLS (symbol : string) : option string :=
  if bool_decide (symbol = "BTC-PERP") then Some "BTCUSDT"
  else if bool_decide (symbol = "ETH-PERP") then Some "ETHUSDT" else None.

Definition INTERVAL_MAP (t : Timeframe) : string :=
  match t with M1 => "1m" | M5 => "5m" | M15 => "15m" | H1 => "1h" | H4 => "4h" | D1 => "1d" end.

Definition LSR_ENDPOINTS : list (string * string) :=
  [("GLOBAL_ACCOUNTS", "/futures/data/globalLongShortAccountRatio");
   ("TOP_TRADER_ACCOUNTS", "/futures/data/topLongShortAccountRatio");
   ("TOP_TRADER_POSITIONS", "/futures/data/topLongShortPositionRatio")].

(** [this.capabilities] *)
Definition capabilities : ConnectorCapabilities := {|
  cp_candles := true; cp_funding := true; cp_openInterest := true; cp_longShortRatio := true;
  cp_optionChain := false; cp_liquidity := true |}.

(** ** Values *)

Definition apiError (message endpoint : string) (httpStatus : option Z) : ApiError :=
  VenueApiError message endpoint httpStatus J_undefined.

(** A string is converted first. *)
Definition toDecimalString (value : string + number) (dp : nat) : ApiError + string :=
  match value with
  | inl s => decimalString s (stringToNumber s) dp
  | inr n => decimalString (numToString n) n dp
  end.

Definition finiteOrUndefined (value : Json) : option number :=
  match value with
  | J_number n => if isFinite n then Some n else None
  | J_string s => let n := stringToNumber s in if isFinite n then Some n else None
  | _ => None
  end.

Definition finiteNumber (value : Json) : option number :=
  match value with J_number n => if isFinite n then Some n else None | _ => None end.

(** A property given only when its value is finite. *)
Definition decimalIf (value : option number) (dp : nat) : ApiError + option string :=
  match value with
  | Some n => let? s := toDecimalString (inr n) dp in inr (Some s)
  | None => inr None
  end.

(** ** Answers *)

Definition restUrl (path : string) (params : list (string * string)) : string :=
  let qs := queryString params in
  REST_BASE +:+ path +:+ (if bool_decide (qs = "") then "" else "?" +:+ qs).

Section connector.
(** the message of a SyntaxError *)
Context (syntaxError : string -> string).

Definition readAnswer (path : string) (res : Fetched) : Reading :=
  match res with
  | Unreachable message => Transient (apiError ("network/timeout failure: " +:+ message) path None)
  | Answered status body =>
      let text := "HTTP " +:+ showZ status +:+ " from Binance" in
      if ((status =? 429) || (status =? 418) || (500 <=? status))%Z then Transient (apiError text path (Some status))
      else if negb (res_ok status) then
        let detail := match body with inr detail => detail | inl _ => "" end in
        Fatal (apiError (text +:+ (if bool_decide (detail = "") then "" else ": " +:+ detail)) path (Some status))
      else
        match body with
        | inl message => Transient (apiError ("invalid JSON body: " +:+ message) path (Some status))
        | inr body =>
            match JSON_parse body with
            | Some v => Value v
            | None => Transient (apiError ("invalid JSON body: " +:+ syntaxError body) path (Some status))
            end
        end
  end.

Definition venue : RestVenue := {| rv_interval := RATE_LIMIT_INTERVAL_MS; rv_url := restUrl; rv_read := readAnswer |}.

Definition requirePerpSymbol (symbol endpoint : string) : ApiError + string :=
  match PERP_SYMBOLS symbol with
  | Some native => inr native
  | None => inl (apiError ("unsupported symbol for Binance: " +:+ symbol +:+ " (supported: BTC-PERP, ETH-PERP)") endpoint None)
  end.

(** ** Candles *)

(** The five numbers of a bar as decimal strings. *)
Definition candleOf (symbol assetType : string) (timeframe : Timeframe) (ts open high low close volume : number)
    (trades : option number) : ApiError + NormalizedCandle :=
  let? o := toDecimalString (inr open) 8 in
  let? h := toDecimalString (inr high) 8 in
  let? l := toDecimalString (inr low) 8 in
  let? c := toDecimalString (inr close) 8 in
  let? v := toDecimalString (inr volume) 8 in
  inr {| nc_exchange := EXCHANGE; nc_symbol := symbol; nc_assetType := assetType; nc_timeframe := timeframe;
         nc_ts := dateOf ts; nc_open := o; nc_high := h; nc_low := l; nc_close := c; nc_volume := v; nc_trades := trades |}.

Definition readKline (req : CandleBackfillRequest) (row : Json) : ApiError + option (number * NormalizedCandle) :=
  let? rowTs := index 0 row in
  let? rowOpen := index 1 row in
  let? rowHigh := index 2 row in
  let? rowLow := index 3 row in
  let? rowClose := index 4 row in
  let? rowVolume := index 5 row in
  let? rowTrades := index 8 row in
  let trades := match rowTrades with J_number n => Some n | _ => None end in
  match finiteNumber rowTs, finiteOrUndefined rowOpen, finiteOrUndefined rowHigh, finiteOrUndefined rowLow,
        finiteOrUndefined rowClose, finiteOrUndefined rowVolume with
  | Some ts, Some open, Some high, Some low, Some close, Some volume =>
      if outside (cb_from req) (cb_to req) ts then inr None
      else
        let? candle := candleOf (cb_symbol req) (cb_assetType req) (cb_timeframe req) ts open high low close volume trades in
        inr (Some (ts, candle))
  | _, _, _, _, _, _ => inl (apiError "malformed kline row" "/fapi/v1/klines" None)
  end.

Section requests.
Context {W : Type} (http : HttpOps W).

Definition get (path : string) (params : list (string * string)) : CM (W := W) Json := restGet http venue path params.

Definition klineParams (native : string) (timeframe : Timeframe) (cursor chunkEnd : Z) : list (string * string) :=
  [("symbol", native); ("interval", INTERVAL_MAP timeframe); ("startTime", showZ cursor); ("endTime", showZ chunkEnd);
   ("limit", showZ MAX_BARS_PER_REQUEST)].

Definition candleWindow (timeframe : Timeframe) : Z := (MAX_BARS_PER_REQUEST * TIMEFRAME_MS timeframe)%Z.

Definition candlePage (req : CandleBackfillRequest) (native : string) (cursor : Z) (out : list (number * NormalizedCandle)) :
    CM (W := W) (list (number * NormalizedCandle)) :=
  let timeframe := cb_timeframe req in
  let chunkEnd := Z.min (cursor + candleWindow timeframe - TIMEFRAME_MS timeframe) (cb_to req) in
  let! answer := get "/fapi/v1/klines" (klineParams native timeframe cursor chunkEnd) in
  let! rows := lift (iterate answer) in
  lift (readRecords neq (readKline req) rows out).

Definition fetchCandles (req : CandleBackfillRequest) : CM (W := W) (list NormalizedCandle) :=
  if bool_decide (cb_assetType req = "SPOT") then ret []
  else
    let! native := lift (requirePerpSymbol (cb_symbol req) "/fapi/v1/klines") in
    if (cb_to req <? cb_from req)%Z then
      throw (apiError ("invalid candle window: from=" +:+ toISOString (cb_from req) +:+ " to=" +:+ toISOString (cb_to req))
               "/fapi/v1/klines" None)
    else
      let! out := readPages (candlePage req native) (cursors (cb_from req) (cb_to req) (candleWindow (cb_timeframe req))) [] in
      ret (sortedValues nc_ts (List.map snd out)).

(** ** Funding *)

Definition readFunding (req : FlowBackfillRequest) (rec : Json) : ApiError + option (number * NormalizedFundingRate) :=
  let? fundingTime := member "fundingTime" rec in
  let? fundingRate := member "fundingRate" rec in
  match finiteOrUndefined fundingTime, finiteOrUndefined fundingRate with
  | Some ts, Some rate =>
      if outside (fb_from req) (fb_to req) ts then inr None
      else
        let? rate := toDecimalString (inr rate) 10 in
        inr (Some (ts, {| nf_exchange := EXCHANGE; nf_symbol := fb_symbol req; nf_ts := dateOf ts; nf_rate := rate;
                          nf_nextTs := Some (dateOf (nadd ts (nint FUNDING_INTERVAL_MS))) |}))
  | _, _ => inl (apiError "funding row missing fundingTime/fundingRate" "/fapi/v1/fundingRate" None)
  end.

Definition fundingWindow : Z := FUNDING_PAGE * FUNDING_INTERVAL_MS.

Definition fundingPage (req : FlowBackfillRequest) (native : string) (cursor : Z) (out : list (number * NormalizedFundingRate)) :
    CM (W := W) (list (number * NormalizedFundingRate)) :=
  let chunkEnd := Z.min (cursor + fundingWindow) (fb_to req) in
  let! answer := get "/fapi/v1/fundingRate" [("symbol", native); ("startTime", showZ cursor); ("endTime", showZ chunkEnd);
                                             ("limit", showZ FUNDING_PAGE)] in
  let! rows := lift (iterate answer) in
  lift (readRecords neq (readFunding req) rows out).

Definition fetchFundingRates (req : FlowBackfillRequest) : CM (W := W) (list NormalizedFundingRate) :=
  let! native := lift (requirePerpSymbol (fb_symbol req) "/fapi/v1/fundingRate") in
  if (fb_to req <? fb_from req)%Z then throw (apiError "invalid funding window (to < from)" "/fapi/v1/fundingRate" None)
  else
    let! out := readPages (fundingPage req native) (cursors (fb_from req) (fb_to req) fundingWindow) [] in
    ret (sortedValues nf_ts (List.map snd out)).

(** ** Open interest *)

Definition readOpenInterest (req : FlowBackfillRequest) (rec : Json) : ApiError + option NormalizedOpenInterest :=
  let? timestamp := member "timestamp" rec in
  let? sumOpenInterest := member "sumOpenInterest" rec in
  let? sumOpenInterestValue := member "sumOpenInterestValue" rec in
  match finiteOrUndefined timestamp, finiteOrUndefined sumOpenInterest, finiteOrUndefined sumOpenInterestValue with
  | Some ts, Some oiBase, Some oiUsd =>
      if outside (fb_from req) (fb_to req) ts then inr None
      else
        let? openInterest := toDecimalString (inr oiBase) 8 in
        let? openInterestValue := toDecimalString (inr oiUsd) 2 in
        inr (Some {| ni_exchange := EXCHANGE; ni_symbol := fb_symbol req; ni_ts := dateOf ts; ni_openInterest := openInterest;
                     ni_openInterestValue := openInterestValue |})
  | _, _, _ => inr None
  end.

Definition flowParams (native : string) (req : FlowBackfillRequest) : list (string * string) :=
  [("symbol", native); ("period", FLOW_PERIOD); ("limit", showZ FLOW_HIST_LIMIT); ("startTime", showZ (fb_from req));
   ("endTime", showZ (fb_to req))].

Definition fetchOpenInterest (req : FlowBackfillRequest) : CM (W := W) (list NormalizedOpenInterest) :=
  let! native := lift (requirePerpSymbol (fb_symbol req) "/futures/data/openInterestHist") in
  let! answer := get "/futures/data/openInterestHist" (flowParams native req) in
  let! rows := lift (iterate answer) in
  let! out := lift (collectRecords (readOpenInterest req) rows) in
  ret (sortedValues ni_ts out).

(** ** Long/short ratio *)

Definition readLongShort (req : FlowBackfillRequest) (scope : string) (rec : Json) : ApiError + option NormalizedLongShortRatio :=
  let? timestamp := member "timestamp" rec in
  let? longShortRatio := member "longShortRatio" rec in
  match finiteOrUndefined timestamp, finiteOrUndefined longShortRatio with
  | Some ts, Some ratio =>
      if outside (fb_from req) (fb_to req) ts then inr None
      else
        let? ratio := toDecimalString (inr ratio) 6 in
        let? longPct := decimalIf (finiteOrUndefined (orElseValue (prop "longAccount" rec) (prop "longPosition" rec))) 6 in
        let? shortPct := decimalIf (finiteOrUndefined (orElseValue (prop "shortAccount" rec) (prop "shortPosition" rec))) 6 in
        inr (Some {| nr_exchange := EXCHANGE; nr_symbol := fb_symbol req; nr_scope := scope; nr_ts := dateOf ts;
                     nr_ratio := ratio; nr_longPct := longPct; nr_shortPct := shortPct |})
  | _, _ => inr None
  end.

Definition longShortScope (req : FlowBackfillRequest) (native : string) (endpoint : string * string) :
    CM (W := W) (list NormalizedLongShortRatio) :=
  let '(scope, path) := endpoint in
  let! answer := get path (flowParams native req) in
  let! rows := lift (iterate answer) in
  lift (collectRecords (readLongShort req scope) rows).

Definition fetchLongShortRatios (req : FlowBackfillRequest) : CM (W := W) (list NormalizedLongShortRatio) :=
  let! native := lift (requirePerpSymbol (fb_symbol req) "/futures/data/globalLongShortAccountRatio") in
  let! out := mapAll (longShortScope req native) LSR_ENDPOINTS in
  ret (sortedValues nr_ts (concat out)).

Definition fetchOptionChain (underlying : string) : CM (W := W) (option NormalizedOptionChain) := ret None.

(** ** Liquidity *)

(** [side\[0\]?.\[0\]] *)
Definition firstPrice (side : Json) : ApiError + Json :=
  let? level := index 0 side in
  match level with J_undefined | J_null => inr J_undefined | _ => index 0 level end.

(** The notional of the levels within the band, added to acc. *)
Fixpoint depthOf (within : number -> bool) (levels : list Json) (acc : number) : ApiError + number :=
  match levels with
  | [] => inr acc
  | level :: levels =>
      let? (p, q) := pairOf level in
      depthOf within levels
        (match finiteOrUndefined p, finiteOrUndefined q with
         | Some price, Some qty => if within price then nadd acc (nmul price qty) else acc
         | _, _ => acc
         end)
  end.

(** A best bid and ask that make a market. *)
Definition usable (bid ask : number) : bool := ngt bid (nint 0) && ngt ask (nint 0) && negb (nlt ask bid).

Definition liquidityOf (symbol : string) (ts : Z) (book : Json) (bestBid bestAsk : number) : ApiError + NormalizedLiquidity :=
  let mid := midOf bestBid bestAsk in
  let? bids := iterate (prop "bids" book) in
  let? bidDepthUsd := depthOf (fun price => nge price (bandLow mid)) bids (nint 0) in
  let? asks := iterate (prop "asks" book) in
  let? askDepthUsd := depthOf (fun price => nle price (bandHigh mid)) asks (nint 0) in
  let? bidDepth := toDecimalString (inr bidDepthUsd) 2 in
  let? askDepth := toDecimalString (inr askDepthUsd) 2 in
  let? spread := toDecimalString (inr (spreadBpsOf bestBid bestAsk mid)) 4 in
  inr {| nl_exchange := EXCHANGE; nl_symbol := symbol; nl_ts := ts; nl_bidDepthUsd := bidDepth; nl_askDepthUsd := askDepth;
         nl_spreadBps := spread |}.

Definition fetchLiquidity (symbol : string) : CM (W := W) (option NormalizedLiquidity) :=
  match PERP_SYMBOLS symbol with
  | None => ret None
  | Some native =>
      let! book := get "/fapi/v1/depth" [("symbol", native); ("limit", showZ DEPTH_LIMIT)] in
      let! bids := lift (member "bids" book) in
      let! bidPrice := lift (firstPrice bids) in
      let! asks := lift (member "asks" book) in
      let! askPrice := lift (firstPrice asks) in
      let! ts := match finiteOrUndefined (orElseValue (prop "T" book) (prop "E" book)) with
                 | Some tsMs => ret (dateOf tsMs)
                 | None => now http
                 end in
      match finiteOrUndefined bidPrice, finiteOrUndefined askPrice with
      | Some bestBid, Some bestAsk =>
          if usable bestBid bestAsk then
            let! row := lift (liquidityOf symbol ts book bestBid bestAsk) in
            ret (Some row)
          else ret None
      | _, _ => ret None
      end
  end.
(** The connector; its state is [lastRequestAt] and the world. *)
Definition createBinanceConnector : ExchangeConnector ApiError (Z * W) := {|
  ec_exchange := EXCHANGE;
  ec_capabilities := capabilities;
  ec_fetchCandles := fetchCandles;
  ec_fetchFundingRates := fetchFundingRates;
  ec_fetchOpenInterest := fetchOpenInterest;
  ec_fetchLongShortRatios := fetchLongShortRatios;
  ec_fetchOptionChain := fetchOptionChain;
  ec_fetchLiquidity := fetchLiquidity |}.
End requests.
End connector.

(** ** Live streaming *)

(** The streams of one symbol. *)
Definition symbolStreams (handlers : LiveHandlers) (timeframe : Timeframe) (native : string) : list string :=
  let lower := toLowerCase native in
  [lower +:+ "@kline_" +:+ INTERVAL_MAP timeframe]
  ++ (if lh_onTrade handlers then [lower +:+ "@aggTrade"] else [])
  ++ (if lh_onQuote handlers then [lower +:+ "@bookTicker"] else [])
  ++ (if lh_onQuote handlers || lh_onFunding handlers then [lower +:+ "@markPrice@1s"] else []).

(** The perpetuals among the symbols of the request. *)
Definition streamable (s : string * string) : option (string * (string * string)) :=
  let '(symbol, assetType) := s in
  if bool_decide (assetType = "SPOT") then None
  else match PERP_SYMBOLS symbol with Some native => Some (native, (symbol, assetType)) | None => None end.

(** [symbolByNative] and [streams]. *)
Definition subscriptions (req : LiveStreamRequest) (handlers : LiveHandlers) : gmap string (string * string) * list string :=
  let natives := omap streamable (lr_symbols req) in
  (foldl (fun m '(native, meta) => <[native := meta]> m) ∅ natives,
   List.flat_map (fun '(native, _) => symbolStreams handlers (lr_timeframe req) native) natives).

(** The url of the stream, and its first socket. *)
Definition streamLive (req : LiveStreamRequest) (handlers : LiveHandlers) : ApiError + string * LiveStream :=
  match snd (subscriptions req handlers) with
  | [] => inl (apiError "no streamable symbols for binance live stream" "ws" None)
  | streams => inr (WS_BASE +:+ "?streams=" +:+ join "/" streams, connect freshStream)
  end.

Section payloads.
Context (symbolByNative : gmap string (string * string)) (handlers : LiveHandlers) (timeframe : Timeframe).

Definition metaFor (s : Json) : option (string * (string * string)) :=
  match s with
  | J_string native => match symbolByNative !! native with Some meta => Some (native, meta) | None => None end
  | _ => None
  end.

Definition handleKline (d : Json) : ApiError + list LiveCall :=
  match prop "k" d with
  | J_undefined => inr []
  | J_null => inl TypeError
  | k =>
      match prop "x" k, metaFor (prop "s" k) with
      | J_boolean true, Some (_, (symbol, assetType)) =>
          match finiteOrUndefined (prop "t" k), finiteOrUndefined (prop "o" k), finiteOrUndefined (prop "h" k),
                finiteOrUndefined (prop "l" k), finiteOrUndefined (prop "c" k), finiteOrUndefined (prop "v" k) with
          | Some ts, Some open, Some high, Some low, Some close, Some volume =>
              if lh_onCandle handlers then
                let? candle := candleOf symbol assetType timeframe ts open high low close volume
                                 (nround <$> finiteOrUndefined (prop "n" k)) in
                inr [OnCandle candle]
              else inr []
          | _, _, _, _, _, _ => inr []
          end
      | _, _ => inr []
      end
  end.

Definition handleTrade (d : Json) : ApiError + list LiveCall :=
  if negb (lh_onTrade handlers) then inr []
  else
    match metaFor (prop "s" d), finiteOrUndefined (prop "p" d), finiteOrUndefined (prop "q" d), finiteOrUndefined (prop "T" d) with
    | Some (_, (symbol, _)), Some price, Some qty, Some tsMs =>
        if nle price (nint 0) then inr []
        else
          let? priceText := toDecimalString (inr price) 8 in
          let? size := toDecimalString (inr qty) 8 in
          let tradeId := match prop "a" d with J_undefined => numToString tsMs +:+ "-" +:+ priceText | aggId => jsString aggId end in
          inr [OnTrade {| nk_exchange := EXCHANGE; nk_symbol := symbol; nk_ts := dateOf tsMs; nk_tradeId := tradeId;
                          nk_price := priceText; nk_size := size;
                          nk_side := match prop "m" d with J_boolean true => SELL | _ => BUY end |}]
    | _, _, _, _ => inr []
    end.

Definition handleBookTicker (latestMark : gmap string number) (d : Json) : ApiError + list LiveCall :=
  if negb (lh_onQuote handlers) then inr []
  else
    match metaFor (prop "s" d), finiteOrUndefined (orElseValue (prop "T" d) (prop "E" d)), finiteOrUndefined (prop "b" d),
          finiteOrUndefined (prop "a" d) with
    | Some (native, (symbol, _)), Some tsMs, Some bid, Some ask =>
        if negb (usable bid ask) then inr []
        else
          let mid := midOf bid ask in
          let spreadBps := if ngt mid (nint 0) then spreadBpsOf bid ask mid else nint 0 in
          let? bestBid := toDecimalString (inr bid) 8 in
          let? bestAsk := toDecimalString (inr ask) 8 in
          let? bestBidSize := toDecimalString (inr (default (nint 0) (finiteOrUndefined (prop "B" d)))) 8 in
          let? bestAskSize := toDecimalString (inr (default (nint 0) (finiteOrUndefined (prop "A" d)))) 8 in
          let? markPrice := decimalIf (latestMark !! native) 8 in
          let? spread := toDecimalString (inr spreadBps) 4 in
          inr [OnQuote {| nq_exchange := EXCHANGE; nq_symbol := symbol; nq_ts := dateOf tsMs; nq_bestBid := bestBid;
                          nq_bestAsk := bestAsk; nq_bestBidSize := bestBidSize; nq_bestAskSize := bestAskSize;
                          nq_markPrice := markPrice; nq_spreadBps := Some spread; nq_bids := None; nq_asks := None |}]
    | _, _, _, _ => inr []
    end.

Definition handleMarkPrice (latestMark : gmap string number) (d : Json) : ApiError + gmap string number * list LiveCall :=
  match metaFor (prop "s" d) with
  | None => inr (latestMark, [])
  | Some (native, (symbol, _)) =>
      let latestMark := match finiteOrUndefined (prop "p" d) with Some mark => <[native := mark]> latestMark | None => latestMark end in
      match lh_onFunding handlers, finiteOrUndefined (prop "r" d), finiteOrUndefined (prop "E" d) with
      | true, Some funding, Some tsMs =>
          let? rate := toDecimalString (inr funding) 10 in
          inr (latestMark, [OnFunding {| nf_exchange := EXCHANGE; nf_symbol := symbol; nf_ts := dateOf tsMs; nf_rate := rate;
                                         nf_nextTs := dateOf <$> finiteOrUndefined (prop "T" d) |}])
      | _, _, _ => inr (latestMark, [])
      end
  end.

(** The marks after a payload, and the handlers it calls. *)
Definition handlePayload (latestMark : gmap string number) (d : Json) : ApiError + gmap string number * list LiveCall :=
  let keep (r : ApiError + list LiveCall) := let? calls := r in inr (latestMark, calls) in
  match prop "e" d with
  | J_string eventType =>
      if bool_decide (eventType = "kline") then keep (handleKline d)
      else if bool_decide (eventType = "aggTrade") then keep (handleTrade d)
      else if bool_decide (eventType = "bookTicker") then keep (handleBookTicker latestMark d)
      else if bool_decide (eventType = "markPriceUpdate") then handleMarkPrice latestMark d
      else inr (latestMark, [])
  | _ => inr (latestMark, [])
  end.

(** A message: the marks, the calls, and the error given to onError. *)
Definition handleMessage (latestMark : gmap string number) (raw : string) :
    gmap string number * list LiveCall * option ApiError :=
  match JSON_parse raw with
  | None => (latestMark, [], None)
  | Some msg =>
      match member "data" msg with
      | inl err => (latestMark, [], Some err)
      | inr data =>
          match data with
          | J_object _ | J_array _ =>
              match handlePayload latestMark data with
              | inl err => (latestMark, [], Some err)
              | inr (latestMark, calls) => (latestMark, calls, None)
              end
          | _ => (latestMark, [], None)
          end
      end
  end.
End payloads.

End Binance.
