(* ===== verification/Deribit.v ===== *)
(** * Deribit: the primary venue

    services/ingestion/src/connectors/deribit.ts: the JSON-RPC envelope, windows of candles
    and funding rates, the open interest snapshot, option instruments and their Black-76
    greeks, the option chain with its term structure, the order book, and the messages of
    the stream.  The dates of a request are valid.  Math.log, Math.exp and Math.sqrt, which
    the language leaves to the implementation, and the parsing of a date text are
    parameters.  The column of bar times in the chart data is an array, a string or absent. *)

From stdpp Require Import gmap.
From S2P Require Import Prelude JsNumber JsText JsDecimal Json Effects Served MarketState Quality Ingestion Backfill.
From S2P Require Import Connector Binance.

Local Open Scope string_scope.
Local Open Scope list_scope.
Local Open Scope eff_scope.

Module Deribit.

(** ** Constants *)

Definition EXCHANGE : string := "DERIBIT".
Definition REST_BASE : string := "https://www.deribit.com/api/v2".
Definition RATE_LIMIT_INTERVAL_MS : Z := 100.
Definition MAX_BARS_PER_REQUEST : Z := 5000.
Definition FUNDING_WINDOW_MS : Z := 2592000000.
Definition FUNDING_INTERVAL_MS : Z := 28800000.
Definition DAY_MS : number := nint 86400000.
Definition YEAR_MS : number := nint 31536000000.
Definition OI_SNAPSHOT_GRID_MS : number := nint 3600000.
Definition WS_HEARTBEAT_INTERVAL_S : Z := 30.
Definition EXPIRY_HOUR_UTC : Z := 8.

Definition PERP_INSTRUMENTS (symbol : string) : option string :=
  if bool_decide (symbol = "BTC-PERP") then Some "BTC-PERPETUAL"
  else if bool_decide (symbol = "ETH-PERP") then Some "ETH-PERPETUAL" else None.

Definition OPTION_UNDERLYINGS : list string := ["BTC"; "ETH"].

Definition RESOLUTION_MAP (t : Timeframe) : string :=
  match t with M1 => "1" | M5 => "5" | M15 => "15" | H1 => "60" | H4 => "240" | D1 => "1D" end.

(** The month of a name, from 0. *)
Definition MONTHS : list (string * Z) :=
  [("JAN", 0); ("FEB", 1); ("MAR", 2); ("APR", 3); ("MAY", 4); ("JUN", 5);
   ("JUL", 6); ("AUG", 7); ("SEP", 8); ("OCT", 9); ("NOV", 10); ("DEC", 11)]%Z.

(** [this.capabilities] *)
Definition capabilities : ConnectorCapabilities := {|
  cp_candles := true; cp_funding := true; cp_openInterest := true; cp_longShortRatio := false;
  cp_optionChain := true; cp_liquidity := true |}.

(** ** Values *)

Definition apiError (message endpoint : string) (httpStatus : option Z) (rpcCode : Json) : ApiError :=
  VenueApiError message endpoint httpStatus rpcCode.

Definition finiteOrUndefined (value : Json) : option number :=
  match value with J_number n => if isFinite n then Some n else None | _ => None end.

(** Anything but a finite Number is refused. *)
Definition toDecimalString (value : Json) (dp : nat) : ApiError + string :=
  decimalString (jsString value) (match value with J_number n => n | _ => NaN end) dp.

Definition decimalOf (n : number) (dp : nat) : ApiError + string := toDecimalString (J_number n) dp.

(** A property given only when its value is finite. *)
Definition decimalIf (value : option number) (dp : nat) : ApiError + option string :=
  match value with
  | Some n => let? s := decimalOf n dp in inr (Some s)
  | None => inr None
  end.

(** ToNumber. *)
Definition toNumber (v : Json) : number :=
  match v with
  | J_undefined | J_object _ => NaN
  | J_null => nint 0
  | J_boolean b => nint (if b then 1 else 0)
  | J_number n => n
  | J_string s => stringToNumber s
  | J_array _ => stringToNumber (jsString v)
  end.

(** [a + b] *)
Definition plus (a b : Json) : Json :=
  match a, b with
  | (J_string _ | J_array _ | J_object _), _ | _, (J_string _ | J_array _ | J_object _) => J_string (jsString a +:+ jsString b)
  | _, _ => J_number (nadd (toNumber a) (toNumber b))
  end.

(** The equality of the keys of a Map; two objects read at different places differ. *)
Definition sameValueZero (a b : Json) : bool :=
  match a, b with
  | J_undefined, J_undefined | J_null, J_null => true
  | J_boolean x, J_boolean y => Bool.eqb x y
  | J_number x, J_number y => neq x y || isNaN x && isNaN y
  | J_string x, J_string y => bool_decide (x = y)
  | _, _ => false
  end.

(** ** Option instruments *)

(** The characters at the start of s that satisfy p, and the rest. *)
Fixpoint span (p : Ascii.ascii -> bool) (s : string) : string * string :=
  match s with
  | String c t => if p c then let '(a, b) := span p t in (String c a, b) else ("", s)
  | _ => ("", s)
  end.

Definition isUpper (c : Ascii.ascii) : bool := ((65 <=? code c) && (code c <=? 90))%Z.

Record ParsedName := {
  pm_underlying : string; pm_day : string; pm_month : string; pm_year : string; pm_strike : string; pm_call : bool
}.

(** The digits of a strike, with an optional fraction after a d. *)
Definition strikeText (s : string) : option (string * string) :=
  match span isDigit s with
  | ("", _) => None
  | (whole, rest) =>
      match strip "d" rest with
      | Some t => match span isDigit t with
                  | ("", _) => None
                  | (fraction, rest) => Some (whole +:+ "." +:+ fraction, rest)
                  end
      | None => Some (whole, rest)
      end
  end.

(** OPTION_NAME_RE, the d of the strike already replaced by a point. *)
Definition parseName (name : string) : option ParsedName :=
  let '(underlying, s) := span isUpper name in
  match strip "-" s with
  | None => None
  | Some s =>
      let '(day, s) := span isDigit s in
      let '(month, s) := span isUpper s in
      let '(year, s) := span isDigit s in
      if (1 <=? String.length underlying)%nat && (1 <=? String.length day)%nat && (String.length day <=? 2)%nat
         && (String.length month =? 3)%nat && (String.length year =? 2)%nat
      then
        match strip "-" s with
        | None => None
        | Some s =>
            match strikeText s with
            | None => None
            | Some (strike, rest) =>
                let parsed call := Some {| pm_underlying := underlying; pm_day := day; pm_month := month; pm_year := year;
                                           pm_strike := strike; pm_call := call |} in
                if bool_decide (rest = "-C") then parsed true
                else if bool_decide (rest = "-P") then parsed false else None
            end
        end
      else None
  end.

(** Days from 1970-01-01 to the day of a month counted from 1 (proleptic Gregorian). *)
Definition daysFromCivil (year month day : Z) : Z :=
  let y := (if month <=? 2 then year - 1 else year)%Z in
  let era := (y / 400)%Z in
  let yoe := (y - era * 400)%Z in
  let doy := ((153 * (if month >? 2 then month - 3 else month + 9) + 2) / 5)%Z in
  (era * 146097 + (yoe * 365 + yoe / 4 - yoe / 100 + doy) - 719468 + (day - 1))%Z.

(** [Date.UTC(year, month, day, EXPIRY_HOUR_UTC, 0, 0, 0)]; a day past the end of its month
    rolls over. *)
Definition expiryOf (year month day : Z) : Z := (daysFromCivil year (month + 1) day * 86400000 + EXPIRY_HOUR_UTC * 3600000)%Z.

Record ParsedOptionInstrument := {
  pi_underlying : string;
  pi_expiry : Z;
  pi_strike : string;
  pi_strikeNum : number;
  pi_call : bool
}.

(** The value of a run of digits. *)
Definition digitsValue (s : string) : Z := let '(v, _, _) := takeDigits 0 0 s in v.

Definition parseOptionInstrument (name : string) : option ParsedOptionInstrument :=
  match parseName name with
  | None => None
  | Some m =>
      match List.find (fun e => bool_decide (fst e = pm_month m)) MONTHS with
      | None => None
      | Some (_, month) =>
          let day := digitsValue (pm_day m) in
          let expiry := expiryOf (2000 + digitsValue (pm_year m)) month day in
          let '(_, expiryMonth, expiryDay) := civil (expiry / 86400000) in
          if negb (expiryDay =? day)%Z || negb (expiryMonth - 1 =? month)%Z then None
          else
            let strikeNum := stringToNumber (pm_strike m) in
            if negb (isFinite strikeNum) || nle strikeNum (nint 0) then None
            else Some {| pi_underlying := pm_underlying m; pi_expiry := expiry; pi_strike := pm_strike m;
                         pi_strikeNum := strikeNum; pi_call := pm_call m |}
      end
  end.

(** ** Small math helpers *)

Definition median (values : list number) : option number :=
  match values with
  | [] => None
  | _ =>
      let sorted := sortBy compareNumbers values in
      let mid := (length sorted / 2)%nat in
      if (length sorted mod 2 =? 1)%nat then sorted !! mid
      else match sorted !! (mid - 1)%nat, sorted !! mid with
           | Some lo, Some hi => Some (ndiv (nadd lo hi) (nint 2))
           | _, _ => None
           end
  end.

(** The pass over the neighbours of the curve: points are (days, iv). *)
Fixpoint interpolateBetween (targetDays : number) (points : list (number * number)) : option number :=
  match points with
  | a :: ((b :: _) as points) =>
      if nge targetDays (fst a) && nle targetDays (fst b) then
        if neq (fst b) (fst a) then Some (snd a)
        else
          let w := ndiv (nsub targetDays (fst a)) (nsub (fst b) (fst a)) in
          Some (nadd (snd a) (nmul w (nsub (snd b) (snd a))))
      else interpolateBetween targetDays points
  | _ => None
  end.

Definition interpolateIv (points : list (number * number)) (targetDays : number) : option number :=
  let sorted := sortBy (fun a b => compareNumbers (fst a) (fst b)) points in
  match sorted, List.last (List.map Some sorted) None with
  | first :: _ :: _, Some last =>
      if nle targetDays (fst first) then Some (snd first)
      else if nge targetDays (fst last) then Some (snd last)
      else interpolateBetween targetDays sorted
  | _, _ => None
  end.

(** ** Answers *)

Definition restUrl (path : string) (params : list (string * string)) : string :=
  REST_BASE +:+ path +:+ "?" +:+ queryString params.

Section connector.
Context (syntaxError : string -> string) (parseDate : string -> option Z).
Context (log_ exp_ sqrt_ : number -> number).

(** The result of an envelope, or the error. *)
Definition readEnvelope (path : string) (status : Z) (envelope : Json) : Reading :=
  let fail text := Fatal (apiError text path (Some status) J_undefined) in
  match member "error" envelope with
  | inl err => Fatal err
  | inr J_undefined =>
      if negb (res_ok status) then fail ("HTTP " +:+ showZ status +:+ " from Deribit")
      else match prop "result" envelope with
           | J_undefined => fail "missing result in Deribit response"
           | result => Value result
           end
  | inr J_null => Fatal TypeError
  | inr error =>
      let rpcCode := prop "code" error in
      Fatal (apiError ("Deribit RPC error " +:+ jsString rpcCode +:+ ": " +:+ jsString (prop "message" error)) path (Some status)
               rpcCode)
  end.

Definition readAnswer (path : string) (res : Fetched) : Reading :=
  let transient text status := Transient (apiError text path status J_undefined) in
  match res with
  | Unreachable message => transient ("network/timeout failure: " +:+ message) None
  | Answered status body =>
      if ((status =? 429) || (500 <=? status))%Z then transient ("HTTP " +:+ showZ status +:+ " from Deribit") (Some status)
      else
        match body with
        | inl message => transient ("invalid JSON body: " +:+ message) (Some status)
        | inr text =>
            match JSON_parse text with
            | Some envelope => readEnvelope path status envelope
            | None => transient ("invalid JSON body: " +:+ syntaxError text) (Some status)
            end
        end
  end.

Definition venue : RestVenue := {| rv_interval := RATE_LIMIT_INTERVAL_MS; rv_url := restUrl; rv_read := readAnswer |}.

Definition requirePerpInstrument (symbol endpoint : string) : ApiError + string :=
  match PERP_INSTRUMENTS symbol with
  | Some instrument => inr instrument
  | None => inl (apiError ("unsupported symbol for Deribit: " +:+ symbol +:+ " (supported: BTC-PERP, ETH-PERP)") endpoint None J_undefined)
  end.
(** ** Candles *)

(** [new Date(v)] *)
Definition dateOfValue (v : Json) : Z :=
  match v with
  | J_number _ | J_null | J_boolean _ => dateOf (toNumber v)
  | J_undefined => INVALID_DATE
  | _ => default INVALID_DATE (parseDate (jsString v))
  end.

(** The elements a loop up to [v.length] reads. *)
Definition elements (v : Json) : ApiError + list Json :=
  match v with
  | J_undefined | J_null => inl TypeError
  | J_array l => inr l
  | J_string s => inr (List.map J_string (characters s))
  | _ => inr []
  end.

Definition isUndefined (v : Json) : bool := match v with J_undefined => true | _ => false end.

(** [outside] of any value. *)
Definition outsideWindow (req : CandleBackfillRequest) (ts : Json) : bool := outside (cb_from req) (cb_to req) (toNumber ts).

(** The columns of a candle as decimal strings. *)
Definition candleOf (symbol assetType : string) (timeframe : Timeframe) (ts : Z) (open high low close volume : Json) :
    ApiError + NormalizedCandle :=
  let? o := toDecimalString open 8 in
  let? h := toDecimalString high 8 in
  let? l := toDecimalString low 8 in
  let? c := toDecimalString close 8 in
  let? v := toDecimalString volume 8 in
  inr {| nc_exchange := EXCHANGE; nc_symbol := symbol; nc_assetType := assetType; nc_timeframe := timeframe;
         nc_ts := ts; nc_open := o; nc_high := h; nc_low := l; nc_close := c; nc_volume := v; nc_trades := None |}.

(** The i-th bar of the columns. *)
Definition readBar (req : CandleBackfillRequest) (result : Json) (bar : nat * Json) : ApiError + option (Json * NormalizedCandle) :=
  let '(i, ts) := bar in
  let? open := index i (prop "open" result) in
  let? high := index i (prop "high" result) in
  let? low := index i (prop "low" result) in
  let? close := index i (prop "close" result) in
  let? volume := index i (prop "volume" result) in
  if isUndefined ts || isUndefined open || isUndefined high || isUndefined low || isUndefined close || isUndefined volume then
    inl (apiError "ragged chart data arrays" "/public/get_tradingview_chart_data" None J_undefined)
  else if outsideWindow req ts then inr None
  else
    let? candle := candleOf (cb_symbol req) (cb_assetType req) (cb_timeframe req) (dateOfValue ts) open high low close volume in
    inr (Some (ts, candle)).

(** One page of chart data into the Map. *)
Definition readChart (req : CandleBackfillRequest) (result : Json) (out : list (Json * NormalizedCandle)) :
    ApiError + list (Json * NormalizedCandle) :=
  let? status := member "status" result in
  match status with
  | J_string "no_data" => inr out
  | J_string "ok" =>
      let? ticks := elements (prop "ticks" result) in
      readRecords sameValueZero (readBar req result) (imap pair ticks) out
  | _ => inl (apiError ("chart data status " +:+ quoted (jsString status)) "/public/get_tradingview_chart_data" None J_undefined)
  end.

Section requests.
Context {W : Type} (http : HttpOps W).

Definition get (path : string) (params : list (string * string)) : CM (W := W) Json := restGet http venue path params.

Definition candleWindow (timeframe : Timeframe) : Z := (MAX_BARS_PER_REQUEST * TIMEFRAME_MS timeframe)%Z.

Definition candlePage (req : CandleBackfillRequest) (instrument : string) (cursor : Z) (out : list (Json * NormalizedCandle)) :
    CM (W := W) (list (Json * NormalizedCandle)) :=
  let timeframe := cb_timeframe req in
  let chunkEnd := Z.min (cursor + candleWindow timeframe - TIMEFRAME_MS timeframe) (cb_to req) in
  let! result := get "/public/get_tradingview_chart_data"
                   [("instrument_name", instrument); ("resolution", RESOLUTION_MAP timeframe);
                    ("start_timestamp", showZ cursor); ("end_timestamp", showZ chunkEnd)] in
  lift (readChart req result out).

Definition fetchCandles (req : CandleBackfillRequest) : CM (W := W) (list NormalizedCandle) :=
  if bool_decide (cb_assetType req = "SPOT") then ret []
  else
    let! instrument := lift (requirePerpInstrument (cb_symbol req) "/public/get_tradingview_chart_data") in
    if (cb_to req <? cb_from req)%Z then
      throw (apiError ("invalid candle window: from=" +:+ toISOString (cb_from req) +:+ " to=" +:+ toISOString (cb_to req))
               "/public/get_tradingview_chart_data" None J_undefined)
    else
      let! out := readPages (candlePage req instrument) (cursors (cb_from req) (cb_to req) (candleWindow (cb_timeframe req))) [] in
      ret (sortedValues nc_ts (List.map snd out)).

(** ** Funding *)

Definition readFunding (req : FlowBackfillRequest) (rec : Json) : ApiError + option (number * NormalizedFundingRate) :=
  let? timestamp := member "timestamp" rec in
  let? interest := member "interest_8h" rec in
  match finiteOrUndefined timestamp, finiteOrUndefined interest with
  | Some ts, Some rate =>
      if outside (fb_from req) (fb_to req) ts then inr None
      else
        let? rate := decimalOf rate 10 in
        inr (Some (ts, {| nf_exchange := EXCHANGE; nf_symbol := fb_symbol req; nf_ts := dateOf ts; nf_rate := rate;
                          nf_nextTs := Some (dateOf (nadd ts (nint FUNDING_INTERVAL_MS))) |}))
  | _, _ => inl (apiError "funding record missing timestamp/interest_8h" "/public/get_funding_rate_history" None J_undefined)
  end.

Definition fundingPage (req : FlowBackfillRequest) (instrument : string) (cursor : Z) (out : list (number * NormalizedFundingRate)) :
    CM (W := W) (list (number * NormalizedFundingRate)) :=
  let chunkEnd := Z.min (cursor + FUNDING_WINDOW_MS) (fb_to req) in
  let! answer := get "/public/get_funding_rate_history"
                   [("instrument_name", instrument); ("start_timestamp", showZ cursor); ("end_timestamp", showZ chunkEnd)] in
  let! records := lift (iterate answer) in
  lift (readRecords neq (readFunding req) records out).

Definition fetchFundingRates (req : FlowBackfillRequest) : CM (W := W) (list NormalizedFundingRate) :=
  let! instrument := lift (requirePerpInstrument (fb_symbol req) "/public/get_funding_rate_history") in
  if (fb_to req <? fb_from req)%Z then
    throw (apiError "invalid funding window (to < from)" "/public/get_funding_rate_history" None J_undefined)
  else
    let! out := readPages (fundingPage req instrument) (cursors (fb_from req) (fb_to req) FUNDING_WINDOW_MS) [] in
    ret (sortedValues nf_ts (List.map snd out)).

(** ** Open interest *)

(** The snapshot of a ticker; the log line prints its time. *)
Definition openInterestOf (symbol : string) (ticker : Json) : ApiError + NormalizedOpenInterest :=
  let? open_interest := member "open_interest" ticker in
  match finiteOrUndefined open_interest, finiteOrUndefined (prop "index_price" ticker), finiteOrUndefined (prop "timestamp" ticker) with
  | Some oiUsd, Some indexPrice, Some tsMs =>
      if nle indexPrice (nint 0) then
        inl (apiError "ticker missing open_interest/index_price/timestamp — cannot derive OI snapshot" "/public/ticker" None J_undefined)
      else
        let snapshot := dateOf (nmul (nfloor (ndiv tsMs OI_SNAPSHOT_GRID_MS)) OI_SNAPSHOT_GRID_MS) in
        if bool_decide (snapshot = INVALID_DATE) then inl RangeError
        else
          let? openInterest := decimalOf (ndiv oiUsd indexPrice) 8 in
          let? openInterestValue := decimalOf oiUsd 2 in
          inr {| ni_exchange := EXCHANGE; ni_symbol := symbol; ni_ts := snapshot; ni_openInterest := openInterest;
                 ni_openInterestValue := openInterestValue |}
  | _, _, _ =>
      inl (apiError "ticker missing open_interest/index_price/timestamp — cannot derive OI snapshot" "/public/ticker" None J_undefined)
  end.

Definition fetchOpenInterest (req : FlowBackfillRequest) : CM (W := W) (list NormalizedOpenInterest) :=
  let! instrument := lift (requirePerpInstrument (fb_symbol req) "/public/ticker") in
  let! ticker := get "/public/ticker" [("instrument_name", instrument)] in
  let! row := lift (openInterestOf (fb_symbol req) ticker) in
  ret [row].

Definition fetchLongShortRatios (req : FlowBackfillRequest) : CM (W := W) (list NormalizedLongShortRatio) := ret [].

(** ** Liquidity *)

(** The amounts of the levels within the band, added to acc. *)
Fixpoint depthOf (within : number -> bool) (levels : list Json) (acc : Json) : ApiError + Json :=
  match levels with
  | [] => inr acc
  | level :: levels =>
      let? (price, amount) := pairOf level in
      depthOf within levels
        (if isUndefined price || isUndefined amount then acc
         else if within (toNumber price) then plus acc amount else acc)
  end.

Definition usable (bid ask : number) : bool := ngt bid (nint 0) && ngt ask (nint 0) && negb (nlt ask bid).

Definition liquidityOf (symbol : string) (tsMs : number) (book : Json) (bestBid bestAsk : number) : ApiError + NormalizedLiquidity :=
  let mid := midOf bestBid bestAsk in
  let? bids := iterate (prop "bids" book) in
  let? bidDepthUsd := depthOf (fun price => nge price (bandLow mid)) bids (J_number (nint 0)) in
  let? asks := iterate (prop "asks" book) in
  let? askDepthUsd := depthOf (fun price => nle price (bandHigh mid)) asks (J_number (nint 0)) in
  let? bidDepth := toDecimalString bidDepthUsd 2 in
  let? askDepth := toDecimalString askDepthUsd 2 in
  let? spread := decimalOf (spreadBpsOf bestBid bestAsk mid) 4 in
  inr {| nl_exchange := EXCHANGE; nl_symbol := symbol; nl_ts := dateOf tsMs; nl_bidDepthUsd := bidDepth;
         nl_askDepthUsd := askDepth; nl_spreadBps := spread |}.

Definition fetchLiquidity (symbol : string) : CM (W := W) (option NormalizedLiquidity) :=
  match PERP_INSTRUMENTS symbol with
  | None => ret None
  | Some instrument =>
      let! book := get "/public/get_order_book" [("instrument_name", instrument); ("depth", "50")] in
      let! bestBid := lift (member "best_bid_price" book) in
      match finiteOrUndefined bestBid, finiteOrUndefined (prop "best_ask_price" book), finiteOrUndefined (prop "timestamp" book) with
      | Some bestBid, Some bestAsk, Some tsMs =>
          if usable bestBid bestAsk then
            let! row := lift (liquidityOf symbol tsMs book bestBid bestAsk) in
            ret (Some row)
          else ret None
      | _, _, _ => ret None
      end
  end.
End requests.
(** ** Black-76 greeks *)

(** Math.PI *)
Definition PI : number := ndec 3141592653589793 15.

Definition normPdf (x : number) : number :=
  ndiv (exp_ (nmul (nmul (ndec (-5) 1) x) x)) (sqrt_ (nmul (nint 2) PI)).

Definition normCdf (x : number) : number :=
  let t := ndiv (nint 1) (nadd (nint 1) (nmul (ndec 2316419 7) (nabs x))) in
  let poly :=
    nmul t (nadd (ndec 319381530 9)
      (nmul t (nadd (ndec (-356563782) 9)
        (nmul t (nadd (ndec 1781477937 9)
          (nmul t (nadd (ndec (-1821255978) 9) (nmul t (ndec 1330274429 9))))))))) in
  let tail := nmul (normPdf (nabs x)) poly in
  if nge x (nint 0) then nsub (nint 1) tail else tail.

Record Black76GreeksResult := { gr_delta : number; gr_gamma : number; gr_thetaPerDay : number; gr_vega : number }.

Definition black76Greeks (call : bool) (forward strike iv ttYears : number) : option Black76GreeksResult :=
  if negb (isFinite forward) || negb (isFinite strike) || negb (isFinite iv) || negb (isFinite ttYears)
     || nle forward (nint 0) || nle strike (nint 0) || nle iv (nint 0) || nle ttYears (nint 0)
  then None
  else
    let sqrtT := sqrt_ ttYears in
    let d1 := ndiv (nadd (log_ (ndiv forward strike)) (nmul (nmul (nmul (ndec 5 1) iv) iv) ttYears)) (nmul iv sqrtT) in
    let pdfD1 := normPdf d1 in
    Some {| gr_delta := if call then normCdf d1 else nsub (normCdf d1) (nint 1);
            gr_gamma := ndiv pdfD1 (nmul (nmul forward iv) sqrtT);
            gr_thetaPerDay := ndiv (nneg (ndiv (nmul (nmul forward pdfD1) iv) (nmul (nint 2) sqrtT))) (nint 365);
            gr_vega := ndiv (nmul (nmul forward pdfD1) sqrtT) (nint 100) |}.

(** ** Option chain *)

(** The locals of the loop; an ATM candidate is its expiry, strike and volatility. *)
Record ChainState := {
  ch_contracts : list NormalizedOptionContract;
  ch_underlyingPrices : list number;
  ch_atmCandidates : list (Z * number * number);
  ch_callOi : number;
  ch_putOi : number
}.

Definition emptyChain : ChainState :=
  {| ch_contracts := []; ch_underlyingPrices := []; ch_atmCandidates := []; ch_callOi := nint 0; ch_putOi := nint 0 |}.

(** [new Date()] as a Number. *)
Definition timeToYears (expiry now : Z) : number := ndiv (nint (expiry - now)) YEAR_MS.

Definition positive (o : option number) : option number :=
  match o with Some n => if ngt n (nint 0) then Some n else None | None => None end.

(** The volatility of an entry, from percent. *)
Definition entryIv (entry : Json) : option number :=
  (fun pct => ndiv pct (nint 100)) <$> finiteOrUndefined (prop "mark_iv" entry).

Definition entryGreeks (parsed : ParsedOptionInstrument) (entry : Json) (now : Z) : option Black76GreeksResult :=
  match entryIv entry, positive (finiteOrUndefined (prop "underlying_price" entry)) with
  | Some iv, Some forward => black76Greeks (pi_call parsed) forward (pi_strikeNum parsed) iv (timeToYears (pi_expiry parsed) now)
  | _, _ => None
  end.

Definition contractOf (u : string) (now : Z) (parsed : ParsedOptionInstrument) (entry : Json) : ApiError + NormalizedOptionContract :=
  let greeks := entryGreeks parsed entry now in
  let column k := finiteOrUndefined (prop k entry) in
  let? iv := decimalIf (entryIv entry) 6 in
  let? delta := decimalIf (gr_delta <$> greeks) 6 in
  let? gamma := decimalIf (gr_gamma <$> greeks) 10 in
  let? theta := decimalIf (gr_thetaPerDay <$> greeks) 6 in
  let? vega := decimalIf (gr_vega <$> greeks) 6 in
  let? openInterest := decimalIf (column "open_interest") 8 in
  let? volume := decimalIf (column "volume") 8 in
  let? bid := decimalIf (column "bid_price") 8 in
  let? ask := decimalIf (column "ask_price") 8 in
  let? markPrice := decimalIf (column "mark_price") 8 in
  inr {| no_exchange := EXCHANGE; no_underlying := u; no_ts := now; no_expiry := pi_expiry parsed; no_strike := pi_strike parsed;
         no_optionType := if pi_call parsed then "CALL" else "PUT"; no_iv := iv; no_delta := delta; no_gamma := gamma;
         no_theta := theta; no_vega := vega; no_openInterest := openInterest; no_volume := volume; no_bid := bid;
         no_ask := ask; no_markPrice := markPrice |}.

(** What an entry adds to the sums, before its contract is pushed. *)
Definition countEntry (parsed : ParsedOptionInstrument) (entry : Json) (st : ChainState) : ChainState :=
  let add sum := match finiteOrUndefined (prop "open_interest" entry) with Some oi => nadd sum oi | None => sum end in
  {| ch_contracts := ch_contracts st;
     ch_underlyingPrices :=
       ch_underlyingPrices st ++ match positive (finiteOrUndefined (prop "underlying_price" entry)) with Some p => [p] | None => [] end;
     ch_atmCandidates :=
       ch_atmCandidates st ++ match positive (entryIv entry) with Some iv => [(pi_expiry parsed, pi_strikeNum parsed, iv)] | None => [] end;
     ch_callOi := if pi_call parsed then add (ch_callOi st) else ch_callOi st;
     ch_putOi := if pi_call parsed then ch_putOi st else add (ch_putOi st) |}.

Fixpoint readEntries (u : string) (now : Z) (entries : list Json) (st : ChainState) : ApiError + ChainState :=
  match entries with
  | [] => inr st
  | entry :: entries =>
      let? name := member "instrument_name" entry in
      match parseOptionInstrument (jsString name) with
      | Some parsed =>
          if bool_decide (pi_underlying parsed = u) then
            let? contract := contractOf u now parsed entry in
            let st := countEntry parsed entry st in
            readEntries u now entries
              {| ch_contracts := ch_contracts st ++ [contract]; ch_underlyingPrices := ch_underlyingPrices st;
                 ch_atmCandidates := ch_atmCandidates st; ch_callOi := ch_callOi st; ch_putOi := ch_putOi st |}
          else readEntries u now entries st
      | None => readEntries u now entries st
      end
  end.

(** The nearest strike of each expiry: (distance, volatility) by expiry. *)
Definition nearestStrike (spot : number) (byExpiry : list (Z * (number * number))) (c : Z * number * number) :
    list (Z * (number * number)) :=
  let '(expiry, strike, iv) := c in
  let dist := nabs (nsub strike spot) in
  match List.find (fun e => (fst e =? expiry)%Z) byExpiry with
  | Some (_, (curDist, _)) => if nlt dist curDist then setEntry Z.eqb expiry (dist, iv) byExpiry else byExpiry
  | None => setEntry Z.eqb expiry (dist, iv) byExpiry
  end.

(** (expiry, volatility), by expiry. *)
Definition termPoints (spot : number) (candidates : list (Z * number * number)) : list (Z * number) :=
  List.map (fun '(expiry, (_, iv)) => (expiry, iv))
    (sortBy (fun a b => (fst a ?= fst b)%Z) (foldl (nearestStrike spot) [] candidates)).

Definition termRow (p : Z * number) : ApiError + string * string :=
  let? atmIv := decimalOf (snd p) 6 in
  inr (toISOString (fst p), atmIv).

Fixpoint termRows (points : list (Z * number)) : ApiError + list (string * string) :=
  match points with
  | [] => inr []
  | p :: points => let? row := termRow p in let? rows := termRows points in inr (row :: rows)
  end.

(** The chain of the entries read, or none when it cannot be priced. *)
Definition chainOf (u : string) (now : Z) (st : ChainState) : ApiError + option NormalizedOptionChain :=
  match ch_contracts st, median (ch_underlyingPrices st) with
  | _ :: _, Some spotNum =>
      let points := termPoints spotNum (ch_atmCandidates st) in
      let? termStructure := termRows points in
      let ivAtm30 := interpolateIv (List.map (fun '(expiry, iv) => (ndiv (nint (expiry - now)) DAY_MS, iv)) points) (nint 30) in
      let ratio := if ngt (ch_callOi st) (nint 0) then Some (ndiv (ch_putOi st) (ch_callOi st)) else None in
      let? spot := decimalOf spotNum 8 in
      let? putCallRatio := decimalIf ratio 4 in
      let? ivAtm30d := decimalIf ivAtm30 6 in
      inr (Some {| nh_exchange := EXCHANGE; nh_underlying := u; nh_ts := now; nh_spot := spot; nh_ivAtm30d := ivAtm30d;
                   nh_skew25d := None; nh_putCallRatio := putCallRatio; nh_totalGammaExposure := None;
                   nh_termStructure := match termStructure with [] => None | _ => Some termStructure end;
                   nh_contracts := ch_contracts st |})
  | _, _ => inr None
  end.

Definition fetchOptionChain {W} (http : HttpOps W) (underlying : string) : CM (W := W) (option NormalizedOptionChain) :=
  let u := toUpperCase underlying in
  if bool_decide (u ∉ OPTION_UNDERLYINGS) then ret None
  else
    let! summaries := get http "/public/get_book_summary_by_currency" [("currency", u); ("kind", "option")] in
    let! now := now http in
    let! entries := lift (iterate summaries) in
    let! st := lift (readEntries u now entries emptyChain) in
    lift (chainOf u now st).
(** The connector; its state is [lastRequestAt] and the world. *)
Definition createDeribitConnector {W} (http : HttpOps W) : ExchangeConnector ApiError (Z * W) := {|
  ec_exchange := EXCHANGE;
  ec_capabilities := capabilities;
  ec_fetchCandles := fetchCandles http;
  ec_fetchFundingRates := fetchFundingRates http;
  ec_fetchOpenInterest := fetchOpenInterest http;
  ec_fetchLongShortRatios := fetchLongShortRatios;
  ec_fetchOptionChain := fetchOptionChain http;
  ec_fetchLiquidity := fetchLiquidity http |}.
End connector.

(** ** Live streaming *)

Inductive ChannelKind := K_candle | K_ticker | K_trades.

Record ChannelInfo := { ci_symbol : string; ci_assetType : string; ci_kind : ChannelKind }.

Definition TICK_INTERVAL : string := "100ms".

(** The channels of one symbol, in the order they are set. *)
Definition symbolChannels (handlers : LiveHandlers) (timeframe : Timeframe) (s : string * string) : list (string * ChannelInfo) :=
  let '(symbol, assetType) := s in
  if bool_decide (assetType = "SPOT") then []
  else
    match PERP_INSTRUMENTS symbol with
    | None => []
    | Some instrument =>
        let info kind := {| ci_symbol := symbol; ci_assetType := assetType; ci_kind := kind |} in
        [("chart.trades." +:+ instrument +:+ "." +:+ RESOLUTION_MAP timeframe, info K_candle)]
        ++ (if lh_onQuote handlers || lh_onFunding handlers then [("ticker." +:+ instrument +:+ "." +:+ TICK_INTERVAL, info K_ticker)] else [])
        ++ (if lh_onTrade handlers then [("trades." +:+ instrument +:+ "." +:+ TICK_INTERVAL, info K_trades)] else [])
    end.

Definition sameChannel (a b : string) : bool := bool_decide (a = b).

(** channelMeta, as the entries of the Map. *)
Definition channelMeta (req : LiveStreamRequest) (handlers : LiveHandlers) : list (string * ChannelInfo) :=
  foldl (fun m e => setEntry sameChannel (fst e) (snd e) m) []
    (List.flat_map (symbolChannels handlers (lr_timeframe req)) (lr_symbols req)).

(** The channels, and the first socket. *)
Definition streamLive (req : LiveStreamRequest) (handlers : LiveHandlers) : ApiError + list string * LiveStream :=
  match channelMeta req handlers with
  | [] => inl (apiError "no streamable symbols for deribit live stream" "ws" None J_undefined)
  | meta => inr (List.map fst meta, connect freshStream)
  end.

(** [send] on a socket that is open or not: the request counter and the texts sent. *)
Definition send (isOpen : bool) (rpcId : nat) (method : string) (params : list (string * Json)) : nat * list string :=
  if isOpen then
    (S rpcId, [stringify (J_object [("jsonrpc", J_string "2.0"); ("id", J_number (nint (Z.of_nat rpcId)));
                                    ("method", J_string method); ("params", J_object params)])])
  else (rpcId, []).

(** What a (re)connected socket is sent. *)
Definition subscribe (isOpen : bool) (rpcId : nat) (channels : list string) : nat * list string :=
  let '(rpcId, first) := send isOpen rpcId "public/set_heartbeat" [("interval", J_number (nint WS_HEARTBEAT_INTERVAL_S))] in
  let '(rpcId, second) := send isOpen rpcId "public/subscribe" [("channels", J_array (List.map J_string channels))] in
  (rpcId, first ++ second).

Section payloads.
Context (handlers : LiveHandlers) (timeframe : Timeframe).

Definition handleCandleData (meta : ChannelInfo) (data : Json) : ApiError + list LiveCall :=
  let? tick := member "tick" data in
  match finiteOrUndefined tick, finiteOrUndefined (prop "open" data), finiteOrUndefined (prop "high" data),
        finiteOrUndefined (prop "low" data), finiteOrUndefined (prop "close" data), finiteOrUndefined (prop "volume" data) with
  | Some tick, Some open, Some high, Some low, Some close, Some volume =>
      if lh_onCandle handlers then
        let? candle := candleOf (ci_symbol meta) (ci_assetType meta) timeframe (dateOf tick) (J_number open) (J_number high)
                         (J_number low) (J_number close) (J_number volume) in
        inr [OnCandle candle]
      else inr []
  | _, _, _, _, _, _ => inr []
  end.

(** A size in base units, from a notional in USD. *)
Definition baseSize (amountUsd : option number) (price : number) : ApiError + string :=
  decimalOf (match amountUsd with Some amount => ndiv amount price | None => nint 0 end) 8.

Definition tickerQuote (meta : ChannelInfo) (ts : Z) (data : Json) (bid ask : number) : ApiError + LiveCall :=
  let mid := midOf bid ask in
  let spreadBps := if ngt mid (nint 0) then spreadBpsOf bid ask mid else nint 0 in
  let? bestBid := decimalOf bid 8 in
  let? bestAsk := decimalOf ask 8 in
  let? bestBidSize := baseSize (finiteOrUndefined (prop "best_bid_amount" data)) bid in
  let? bestAskSize := baseSize (finiteOrUndefined (prop "best_ask_amount" data)) ask in
  let? markPrice := decimalIf (finiteOrUndefined (prop "mark_price" data)) 8 in
  let? spread := decimalOf spreadBps 4 in
  inr (OnQuote {| nq_exchange := EXCHANGE; nq_symbol := ci_symbol meta; nq_ts := ts; nq_bestBid := bestBid; nq_bestAsk := bestAsk;
                  nq_bestBidSize := bestBidSize; nq_bestAskSize := bestAskSize; nq_markPrice := markPrice;
                  nq_spreadBps := Some spread; nq_bids := None; nq_asks := None |}).

(** The funding update of a ticker. *)
Definition tickerFunding (meta : ChannelInfo) (ts : Z) (data : Json) : ApiError + list LiveCall :=
  match lh_onFunding handlers, finiteOrUndefined (prop "funding_8h" data) with
  | true, Some funding8h =>
      let? rate := decimalOf funding8h 10 in
      inr [OnFunding {| nf_exchange := EXCHANGE; nf_symbol := ci_symbol meta; nf_ts := ts; nf_rate := rate; nf_nextTs := None |}]
  | _, _ => inr []
  end.

(** Funding is a finite rate, so only the quote can throw, and nothing was called before. *)
Definition handleTickerData (meta : ChannelInfo) (data : Json) : ApiError + list LiveCall :=
  let? timestamp := member "timestamp" data in
  match finiteOrUndefined timestamp with
  | None => inr []
  | Some tsMs =>
      let ts := dateOf tsMs in
      let? quotes :=
        match lh_onQuote handlers, positive (finiteOrUndefined (prop "best_bid_price" data)),
              positive (finiteOrUndefined (prop "best_ask_price" data)) with
        | true, Some bid, Some ask => let? quote := tickerQuote meta ts data bid ask in inr [quote]
        | _, _, _ => inr []
        end in
      let? funding := tickerFunding meta ts data in
      inr (quotes ++ funding)
  end.

(** One print of a batch; None for one that is skipped. *)
Definition readTrade (meta : ChannelInfo) (entry : Json) : ApiError + option LiveCall :=
  let? price := member "price" entry in
  match positive (finiteOrUndefined price), finiteOrUndefined (prop "amount" entry), finiteOrUndefined (prop "timestamp" entry) with
  | Some price, Some amountUsd, Some tsMs =>
      let? priceText := decimalOf price 8 in
      let tradeId := match prop "trade_id" entry with
                     | J_undefined => numToString tsMs +:+ "-" +:+ priceText
                     | id => jsString id
                     end in
      let? size := decimalOf (ndiv amountUsd price) 8 in
      inr (Some (OnTrade {| nk_exchange := EXCHANGE; nk_symbol := ci_symbol meta; nk_ts := dateOf tsMs; nk_tradeId := tradeId;
                            nk_price := priceText; nk_size := size;
                            nk_side := match prop "direction" entry with
                                       | J_string d => if bool_decide (d = "sell") then SELL else BUY
                                       | _ => BUY
                                       end |}))
  | _, _, _ => inr None
  end.

(** The calls of a batch up to the print that throws, if one does. *)
Fixpoint readTrades (meta : ChannelInfo) (entries : list Json) : list LiveCall * option ApiError :=
  match entries with
  | [] => ([], None)
  | entry :: entries =>
      match readTrade meta entry with
      | inl err => ([], Some err)
      | inr call =>
          let '(calls, err) := readTrades meta entries in
          (match call with Some call => call :: calls | None => calls end, err)
      end
  end.

Definition handleTradesData (meta : ChannelInfo) (data : Json) : list LiveCall * option ApiError :=
  match lh_onTrade handlers, data with
  | true, J_array entries => readTrades meta entries
  | _, _ => ([], None)
  end.

(** What a message leads to: the texts sent, the calls, and the error given to onError. *)
Record Handled := { hd_rpcId : nat; hd_sent : list string; hd_calls : list LiveCall; hd_error : option ApiError }.

Definition called (rpcId : nat) (r : ApiError + list LiveCall) : Handled :=
  match r with
  | inl err => {| hd_rpcId := rpcId; hd_sent := []; hd_calls := []; hd_error := Some err |}
  | inr calls => {| hd_rpcId := rpcId; hd_sent := []; hd_calls := calls; hd_error := None |}
  end.

(** A payload of a subscribed channel. *)
Definition handleChannel (rpcId : nat) (meta : ChannelInfo) (data : Json) : Handled :=
  match ci_kind meta with
  | K_candle => called rpcId (handleCandleData meta data)
  | K_ticker => called rpcId (handleTickerData meta data)
  | K_trades => let '(calls, err) := handleTradesData meta data in
                {| hd_rpcId := rpcId; hd_sent := []; hd_calls := calls; hd_error := err |}
  end.

Definition hasMethod (msg : Json) (method : string) : bool :=
  match prop "method" msg with J_string m => bool_decide (m = method) | _ => false end.

(** [msg.error !== undefined] *)
Definition rpcError (msg : Json) : option ApiError :=
  match prop "error" msg with
  | J_undefined => None
  | J_null => Some TypeError
  | error => Some (apiError ("ws RPC error " +:+ jsString (prop "code" error) +:+ ": " +:+ jsString (prop "message" error)) "ws" None
                     (prop "code" error))
  end.

Definition handleMessage (channels : list (string * ChannelInfo)) (isOpen : bool) (rpcId : nat) (raw : string) : Handled :=
  let nothing := called rpcId (inr []) in
  match JSON_parse raw with
  | None => nothing
  | Some J_null => called rpcId (inl TypeError)
  | Some msg =>
      let params := prop "params" msg in
      if hasMethod msg "heartbeat" then
        match prop "type" params with
        | J_string "test_request" =>
            let '(rpcId, sent) := send isOpen rpcId "public/test" [] in
            {| hd_rpcId := rpcId; hd_sent := sent; hd_calls := []; hd_error := None |}
        | _ => nothing
        end
      else if hasMethod msg "subscription" then
        match prop "channel" params, prop "data" params with
        | J_string _, J_undefined => nothing
        | J_string channel, data =>
            match List.find (fun e => sameChannel (fst e) channel) channels with
            | Some (_, meta) => handleChannel rpcId meta data
            | None => nothing
            end
        | _, _ => nothing
        end
      else match rpcError msg with Some err => called rpcId (inl err) | None => nothing end
  end.
End payloads.

End Deribit.

(** ** connectors/index.ts *)

Section registry.
Context {W : Type} (http : HttpOps W) (syntaxError : string -> string) (parseDate : string -> option Z).
Context (log_ exp_ sqrt_ : number -> number).

(** The connector of an exchange, or the message of the error. *)
Definition resolveConnector (exchange : string) : string + ExchangeConnector ApiError (Z * W) :=
  if bool_decide (exchange = "DERIBIT") then inr (Deribit.createDeribitConnector syntaxError parseDate log_ exp_ sqrt_ http)
  else if bool_decide (exchange = "BINANCE") then inr (Binance.createBinanceConnector syntaxError http)
  else if bool_decide (exchange = "DEMO") then
    inl "the synthetic DEMO venue has been removed from the runtime — configure a real venue (DERIBIT, BINANCE)"
  else if bool_decide (exchange = "BYBIT") then inl "BYBIT connector is not implemented yet (fail-closed)"
  else inl ("unknown exchange: " +:+ exchange).
End registry.
