(* ===== verification/ConnectorFacts.v ===== *)
(** * ConnectorFacts: lemmas of the venue connectors

    Trimming the zeros of a decimal keeps its value; what a request that is retried ends
    with; the cursors of a window; Maps keyed by time; and the life of a stream. *)

From stdpp Require Import gmap.
From S2P Require Import Prelude JsNumber JsNumberFacts JsText JsDecimal JsDecimalFacts Json Effects Served MarketState.
From S2P Require Import Quality Ingestion Backfill Connector Binance Deribit.

Local Open Scope string_scope.
Local Open Scope list_scope.

(** ** Trimmed decimals *)

Lemma rnd_eq neg a b a' b' e :
  (0 <= a -> 0 <= a' -> 0 < b -> 0 < b' -> 0 <= e -> a * b' = a' * b -> rnd neg a b e = rnd neg a' b' e)%Z.
Proof.
  intros Ha Ha' Hb Hb' He E. destruct (Z.eq_dec a 0) as [->|Hna].
  { assert (a' = 0)%Z as -> by nia. done. }
  assert (0 < a')%Z by nia. pose proof (pow2_pos e He).
  rewrite !rnd_unfold by lia. assert (grid (2 ^ e * a) b = grid (2 ^ e * a') b') as Eg.
  { apply Z.le_antisymm; apply grid_mono; nia. }
  rewrite Eg. f_equal. unfold sig. rewrite Eg. pose proof (pow2_pos _ (grid_nonneg (2 ^ e * a') b')).
  apply rne_eq; nia.
Qed.

Lemma dropZeros_snoc s c : dropZeros (s +:+ String c "") = if (code c =? 48)%Z then dropZeros s else s +:+ String c "".
Proof.
  induction s as [|a s IH]; simpl; [by case_match|]. rewrite IH. destruct (code c =? 48)%Z; [done|].
  by destruct s.
Qed.

Lemma dropPoint_snoc s c : dropPoint (s +:+ String c "") = if (code c =? 46)%Z then s else s +:+ String c "".
Proof.
  induction s as [|a s IH]; [simpl; by case_match|].
  change (String a s +:+ String c "") with (String a (s +:+ String c "")).
  assert (dropPoint (String a (s +:+ String c "")) = String a (dropPoint (s +:+ String c ""))) as ->.
  { destruct s; done. }
  rewrite IH. by destruct (code c =? 46)%Z.
Qed.

Lemma hasPoint_app p e : hasPoint (p +:+ "." +:+ e) = true.
Proof. generalize ("." +:+ e) (eq_refl : hasPoint ("." +:+ e) = true). intros t Ht. induction p as [|c p IH]; [done|]. simpl. by rewrite IH, orb_true_r. Qed.

(** The zeros after the last significant digit of a fraction go. *)
Lemma dropZeros_fraction p w k e :
  digits_of w k e -> exists w' k' j e',
    dropZeros (p +:+ "." +:+ e) = p +:+ "." +:+ e' /\ digits_of w' k' e' /\ (k = k' + j)%nat
    /\ (w = w' * 10 ^ Z.of_nat j)%Z /\ (k' = 0%nat \/ w' <> 0%Z).
Proof.
  induction 1 as [|z n d c Hd (w' & k' & j & e' & E & He' & -> & -> & Hz) Hc].
  - exists 0%Z, 0%nat, 0%nat, "". split_and!; [|constructor|done|done|by left].
    exact (dropZeros_snoc p (Ascii.ascii_of_N 46)).
  - assert (p +:+ "." +:+ d +:+ String c "" = (p +:+ "." +:+ d) +:+ String c "") as Ea.
    { by rewrite !string_app_assoc. }
    rewrite Ea, dropZeros_snoc. destruct (Z.eqb_spec (code c) 48) as [E0|E0].
    + exists w', k', (S j), e'. rewrite E. split_and!; [done|done|lia| |done].
      unfold digitValue. rewrite E0, Nat2Z.inj_succ, Z.pow_succ_r by lia. lia.
    + eexists _, _, 0%nat, _. rewrite <- Ea. split_and!; [done|by apply digits_snoc|lia|lia|right].
      apply digits_of_bounds in Hd. apply isDigit_digitValue in Hc as ?. unfold digitValue in *. lia.
Qed.

Lemma trim_run z n d : digits_of z (S n) d -> trim d = d.
Proof.
  intros H. remember (S n) as m eqn:E. destruct H as [|z k d c H Hc]; [done|]. apply isDigit_solid in Hc.
  destruct d as [|a d].
  - change ("" +:+ String c "") with (String c ""). unfold trim. rewrite trimStart_solid by done.
    exact (trimEnd_snoc_solid "" c Hc).
  - apply (trim_solid a d c); [|done]. apply isDigit_solid. apply digits_of_all in H. simpl in H. by bool_hyps.
Qed.

(** Reading digits with a fraction that may be empty, and then has no point. *)
Definition fractionText (e : string) : string := match e with "" => "" | _ => "." +:+ e end.

Lemma unsignedDecimal_fraction neg z n d w k e :
  digits_of z (S n) d -> digits_of w k e ->
  unsignedDecimal neg (d +:+ fractionText e) = decimal neg (z * 10 ^ Z.of_nat k + w) (- Z.of_nat k).
Proof.
  intros Hd He. destruct e as [|c t]; [|by apply (unsignedDecimal_fixed neg z n)].
  assert (k = 0%nat /\ w = 0%Z) as [-> ->].
  { apply digits_of_length in He as Hk. simpl in Hk. subst k. apply digits_of_bounds in He. simpl in He. lia. }
  unfold unsignedDecimal. simpl. rewrite (takeDigits_exact _ _ _ 0 0 "" Hd eq_refl). simpl. f_equal. lia.
Qed.

Lemma trim_fraction z n d w k e p :
  digits_of z (S n) d -> digits_of w k e -> p = "" \/ p = "-" -> trim (p +:+ d +:+ fractionText e) = p +:+ d +:+ fractionText e.
Proof.
  intros Hd He Hp. destruct e as [|c t] eqn:Ee.
  - simpl. rewrite string_app_nil_r. destruct Hp as [-> | ->]; [by apply (trim_run z n)|].
    by refine (trim_digits _ "" z n d _ Hd).
  - rewrite <- Ee in *. destruct k as [|k]; [by inversion He; subst|].
    assert (fractionText e = "." +:+ e) as -> by by rewrite Ee.
    destruct Hp as [-> | ->]; [exact (trim_digits_only z n d "." w k e Hd He)|].
    rewrite <- (string_app_assoc d). by refine (trim_digits _ (d +:+ ".") _ _ e _ He).
Qed.

Lemma stringToNumber_fraction (neg : bool) z n d w k e :
  digits_of z (S n) d -> digits_of w k e ->
  stringToNumber ((if neg then "-" else "") +:+ d +:+ fractionText e) = decimal neg (z * 10 ^ Z.of_nat k + w) (- Z.of_nat k).
Proof.
  intros Hd He. pose proof (trim_fraction z n d w k e (if neg then "-" else "") Hd He) as Ht.
  rewrite <- (unsignedDecimal_fraction neg z n d w k e Hd He). destruct neg.
  - eapply stringToNumber_negative; [exact Hd|]. apply Ht. by right.
  - change ("" +:+ d +:+ fractionText e) with (d +:+ fractionText e) in *. eapply stringToNumber_digits; [exact Hd| |by apply Ht; left].
    intros c u. by destruct e; [|intros [= <- _]].
Qed.

(** What trimming leaves of a fixed-point text. *)
Lemma trimDecimal_text p d w k e :
  digits_of w k e -> exists w' k' j e',
    trimDecimal (p +:+ d +:+ "." +:+ e)
    = (if bool_decide (p +:+ d +:+ fractionText e' = "-0") then "0" else p +:+ d +:+ fractionText e')
    /\ digits_of w' k' e' /\ (k = k' + j)%nat /\ (w = w' * 10 ^ Z.of_nat j)%Z /\ (k' = 0%nat \/ w' <> 0%Z).
Proof.
  intros He. destruct (dropZeros_fraction (p +:+ d) w k e He) as (w' & k' & j & e' & E & He' & Hk & Hw & Hz).
  exists w', k', j, e'. split; [|done]. unfold trimDecimal. rewrite <- (string_app_assoc p d), hasPoint_app, E.
  assert (dropPoint ((p +:+ d) +:+ "." +:+ e') = p +:+ d +:+ fractionText e') as ->; [|done].
  destruct He' as [|z m d' c Hd' Hc].
  - change ("." +:+ "") with (String (Ascii.ascii_of_N 46) ""). rewrite dropPoint_snoc. simpl. by rewrite string_app_nil_r.
  - assert (fractionText (d' +:+ String c "") = "." +:+ d' +:+ String c "") as -> by by destruct d'.
    rewrite <- !string_app_assoc, dropPoint_snoc, !string_app_assoc.
    destruct (digit_not_sign c Hc) as (_ & _ & -> & _). done.
Qed.

(** A trimmed decimal reads as the Number rounded to its places. *)
Lemma trimDecimal_value x dp :
  (S dp <= 15)%nat -> isFinite x = true -> fixedRange x = true ->
  stringToNumber (trimDecimal (toFixed x (S dp))) = rounded x (S dp).
Proof.
  intros Hdp Hf Hr. destruct x as [| |s m k]; [done..|]. simpl in Hr. assert (mag m k < fixed_limit)%Z as Hl by lia.
  set (f := fixed_int m k (Z.of_nat (S dp))). set (P := (10 ^ Z.of_nat (S dp))%Z).
  assert (0 < P)%Z as HP by (apply Z.pow_pos_nonneg; lia).
  assert (0 <= f)%Z as Hf0 by (unfold f; rewrite fixed_int_fx; apply fx_nonneg; [lia|apply mag_nonneg]).
  set (neg := s && negb (m =? 0)%N). destruct (showZ_digits (f / P)) as [n Hd]; [by apply Z.div_pos|].
  assert (toFixed (Num s m k) (S dp) = (if neg then "-" else "") +:+ showZ (f / P) +:+ "." +:+ pad (S dp) f) as ->.
  { unfold toFixed. by rewrite Hr. }
  destruct (trimDecimal_text (if neg then "-" else "") (showZ (f / P)) _ _ _ (pad_digits (S dp) f)) as (w & k' & j & e & -> & He & Hj & Hw & Hz).
  pose proof (stringToNumber_fraction neg _ n _ _ _ _ Hd He) as Hread.
  assert (toFixedNumber (Num s m k) (Z.of_nat (S dp)) = rnd neg f P 1074) as ET by (unfold toFixedNumber; by rewrite Hr).
  assert (decimal neg (f / P * 10 ^ Z.of_nat k' + w) (- Z.of_nat k') = rnd neg f P 1074) as ED.
  { unfold decimal. rewrite Z.max_l, Z.max_r, Z.opp_involutive, Z.mul_1_r by lia. apply digits_of_bounds in He as ?.
    pose proof (Z.pow_pos_nonneg 10 (Z.of_nat k') ltac:(lia) ltac:(lia)). pose proof (Z.div_pos f P Hf0 HP).
    apply rnd_eq; [nia|lia|lia|lia|lia|]. pose proof (Z.div_mod f P ltac:(lia)) as Hdm. fold P in Hw.
    assert (P = 10 ^ Z.of_nat k' * 10 ^ Z.of_nat j)%Z as EP.
    { unfold P. rewrite Hj, Nat2Z.inj_add, Z.pow_add_r by lia. done. }
    rewrite Hdm at 2. rewrite Hw, EP. ring. }
  rewrite ED in Hread. unfold rounded. cbn [isFinite]. rewrite ET. case_bool_decide as E.
  - rewrite E in Hread. change (stringToNumber "-0") with (Num true 0 0) in Hread. by rewrite <- Hread.
  - rewrite Hread. destruct (isNegZero (rnd neg f P 1074)) eqn:E0; [|done]. exfalso. rewrite <- ET in E0.
    destruct (Z.eq_dec f 0) as [F0|F0].
    2:{ by destruct (toFixed_nonzero s m k (S dp) Hdp Hl F0), (isNegZero_sv _ E0). }
    assert (w = 0)%Z as -> by (pose proof (Z.pow_pos_nonneg 10 (Z.of_nat j)); rewrite F0, Z.mod_0_l in Hw; nia).
    destruct Hz as [-> |]; [|done]. inversion He; subst. pose proof (toFixed_sign s m k (S dp) Hl) as Hs.
    destruct (toFixedNumber (Num s m k) (Z.of_nat (S dp))) as [| |t a b]; [done..|]. simpl in E0, Hs. destruct t; [|done].
    apply E. unfold neg. rewrite <- Hs, F0. by rewrite Z.div_0_l by lia.
Qed.

(** ** Requests *)

Local Open Scope eff_scope.

(** The same operations, with a trace of the requests and their answers. *)
Definition recorded {W} (http : HttpOps W) : HttpOps (W * list (string * Fetched)) := {|
  ho_now := fun s => let '(t, w) := ho_now http (fst s) in (t, (w, snd s));
  ho_sleep := fun ms s => (ho_sleep http ms (fst s), snd s);
  ho_get := fun url s => let '(a, w) := ho_get http url (fst s) in (a, (w, snd s ++ [(url, a)])) |}.

(** What a series of answers to one request amounts to, when n requests may be made: the
    first that is not transient decides, and the last is reported if all are. *)
Fixpoint settles (venue : RestVenue) (path : string) (n : nat) (answers : list Fetched) (r : ApiError + Json) : Prop :=
  match n, answers with
  | S n, a :: answers =>
      match rv_read venue path a with
      | Value v => answers = [] /\ r = inr v
      | Fatal err => answers = [] /\ r = inl err
      | Transient err => match n with O => answers = [] /\ r = inl err | S _ => settles venue path n answers r end
      end
  | _, _ => False
  end.

Lemma settles_length venue path n answers r : settles venue path n answers r -> (1 <= length answers <= n)%nat.
Proof.
  revert answers. induction n as [|n IH]; intros [|a answers]; simpl; try done.
  destruct (rv_read venue path a); try (intros [-> _]; simpl; lia).
  destruct n; [intros [-> _]; simpl; lia|]. intros H%IH. lia.
Qed.

Section requests.
Context {W : Type} (http : HttpOps W) (venue : RestVenue).

(** The clock of the operations: reading it, sleeping and fetching let time pass. *)
Class ClockLaws (clock : W -> Z) : Prop := {
  clock_now w : (clock w <= fst (ho_now http w) <= clock (snd (ho_now http w)))%Z;
  clock_sleep ms w : (0 <= ms -> clock w + ms <= clock (ho_sleep http ms w))%Z;
  clock_get url w : (clock w <= clock (snd (ho_get http url w)))%Z
}.

Definition Traced : Type := Z * (W * list (string * Fetched)).

(** What waiting for a slot does: it returns, and requests nothing. *)
Lemma sleep_run ms (s : Traced) :
  sleep (recorded http) ms s = (inr tt, (fst s, (ho_sleep http ms (fst (snd s)), snd (snd s)))).
Proof. done. Qed.

Lemma throttle_run (s : Traced) : exists w,
  throttle (recorded http) venue s = (inr tt, (Z.max (fst (ho_now http (fst (snd s)))) (fst s + rv_interval venue), (w, snd (snd s))))
  /\ forall clock, ClockLaws clock -> (0 <= rv_interval venue)%Z ->
       (clock (fst (snd s)) <= clock w /\ Z.max (fst (ho_now http (fst (snd s)))) (fst s + rv_interval venue) <= clock w)%Z.
Proof.
  destruct s as [lst [w tr]]. unfold throttle, bind, now, onWorld, total, gets, modify, when. cbn [fst snd recorded ho_now].
  destruct (ho_now http w) as [t w1] eqn:E. cbn [fst snd].
  set (e := (lst + rv_interval venue)%Z). destruct (0 <? e - t)%Z eqn:Ew.
  - rewrite sleep_run. cbn [fst snd]. eexists. split; [done|]. intros clock HC Hi.
    pose proof (clock_now w) as Hn. rewrite E in Hn. simpl in Hn. pose proof (clock_sleep (e - t) w1 ltac:(lia)). lia.
  - exists w1. split; [done|]. intros clock HC Hi. pose proof (clock_now w) as Hn. rewrite E in Hn. simpl in Hn. lia.
Qed.

(** One pass of the loop: at most two waits, then one request. *)
Lemma attempts_pass path url n attempt lastErr (s : Traced) : exists lst w a w',
  ho_get http url w = (a, w')
  /\ attempts (recorded http) venue path url (S n) attempt lastErr s
     = match rv_read venue path a with
       | Value v => (inr v, (lst, (w', snd (snd s) ++ [(url, a)])))
       | Fatal err => (inl err, (lst, (w', snd (snd s) ++ [(url, a)])))
       | Transient err => attempts (recorded http) venue path url n (S attempt) (Some err) (lst, (w', snd (snd s) ++ [(url, a)]))
       end
  /\ forall clock, ClockLaws clock -> (0 <= rv_interval venue)%Z ->
       (clock (fst (snd s)) <= clock w /\ fst s + rv_interval venue <= lst <= clock w)%Z.
Proof.
  assert (exists w1, when (0 <? attempt)%nat (sleep (recorded http) (RETRY_BASE_DELAY_MS * 2 ^ (Z.of_nat attempt - 1))) s
      = (inr tt, (fst s, (w1, snd (snd s)))) /\ forall clock, ClockLaws clock -> (clock (fst (snd s)) <= clock w1)%Z) as (w1 & E1 & C1).
  { destruct s as [lst [w tr]]. destruct attempt as [|k]; simpl; eexists; (split; [done|]); intros clock HC; [done|].
    pose proof (clock_sleep (RETRY_BASE_DELAY_MS * 2 ^ (Z.of_nat (S k) - 1)) w) as H.
    pose proof (Z.pow_nonneg 2 (Z.of_nat (S k) - 1) ltac:(lia)). unfold RETRY_BASE_DELAY_MS in *. simpl in *. lia. }
  destruct (throttle_run (fst s, (w1, snd (snd s)))) as (w2 & E2 & C2). cbn [fst snd] in *.
  destruct (ho_get http url w2) as [a w3] eqn:E3.
  eexists _, w2, a, w3. split; [done|]. split.
  - cbn [attempts]. unfold bind at 1. rewrite E1. unfold bind at 1. rewrite E2.
    unfold bind at 1, onWorld at 1, total. cbn [fst snd recorded ho_get]. rewrite E3. cbn [fst snd]. by destruct (rv_read venue path a).
  - intros clock HC Hi. specialize (C1 clock HC). specialize (C2 clock HC Hi). lia.
Qed.

(** The requests of the loop, and how it ends. *)
Lemma attempts_settle path url n attempt lastErr (s : Traced) :
  n <> O -> exists answers,
    snd (snd (snd (attempts (recorded http) venue path url n attempt lastErr s))) = snd (snd s) ++ List.map (pair url) answers
    /\ settles venue path n answers (fst (attempts (recorded http) venue path url n attempt lastErr s)).
Proof.
  revert attempt lastErr s. induction n as [|n IH]; intros attempt lastErr s Hn; [done|].
  destruct (attempts_pass path url n attempt lastErr s) as (lst & w & a & w' & _ & -> & _).
  destruct (rv_read venue path a) as [v|err|err] eqn:Er; [exists [a]; simpl; by rewrite Er..|].
  destruct n as [|n]; [exists [a]; simpl; by rewrite Er|].
  destruct (IH (S attempt) (Some err) (lst, (w', snd (snd s) ++ [(url, a)])) ltac:(lia)) as (answers & Et & Hs).
  exists (a :: answers). split; [rewrite Et; cbn [fst snd]; by rewrite <- app_assoc|]. cbn [settles]. by rewrite Er.
Qed.

(** Time passes, and every request waits for a slot of its own. *)
Definition Paced (clock : W -> Z) (s s' : Traced) : Prop :=
  let n := (length (snd (snd s')) - length (snd (snd s)))%nat in
  (length (snd (snd s)) <= length (snd (snd s')))%nat
  /\ (clock (fst (snd s)) <= clock (fst (snd s')))%Z
  /\ (fst s + rv_interval venue * Z.of_nat n <= fst s')%Z
  /\ (fst s' = fst s \/ fst s' <= clock (fst (snd s')))%Z.

#[export] Instance Paced_refl clock : Reflexive (Paced clock).
Proof. intros s. unfold Paced. rewrite Nat.sub_diag. split_and!; try lia. Qed.

#[export] Instance Paced_trans clock : Transitive (Paced clock).
Proof.
  intros [l1 [w1 t1]] [l2 [w2 t2]] [l3 [w3 t3]]. unfold Paced. cbn [fst snd].
  intros (L1 & C1 & I1 & F1) (L2 & C2 & I2 & F2). split_and!; [lia|lia| |lia].
  replace (length t3 - length t1)%nat with (length t2 - length t1 + (length t3 - length t2))%nat by lia.
  rewrite Nat2Z.inj_add. lia.
Qed.

Lemma attempts_paced clock path url n attempt lastErr :
  ClockLaws clock -> (0 <= rv_interval venue)%Z ->
  Respects (Paced clock) (attempts (recorded http) venue path url n attempt lastErr).
Proof.
  intros HC Hi. revert attempt lastErr. induction n as [|n IH]; intros attempt lastErr s; [apply Paced_refl|].
  destruct (attempts_pass path url n attempt lastErr s) as (lst & w & a & w' & Eg & -> & Hp).
  specialize (Hp clock HC Hi). pose proof (clock_get url w) as Hg. rewrite Eg in Hg. simpl in Hg.
  assert (Paced clock s (lst, (w', snd (snd s) ++ [(url, a)]))) as H1.
  { unfold Paced. cbn [fst snd]. rewrite length_app. simpl.
    replace (length (snd (snd s)) + 1 - length (snd (snd s)))%nat with 1%nat by lia. split_and!; lia. }
  destruct (rv_read venue path a) as [v|err|err]; [exact H1..|]. etransitivity; [exact H1|apply IH].
Qed.

#[export] Instance now_paced clock : ClockLaws clock -> Respects (Paced clock) (now (recorded http)).
Proof.
  intros HC [l [w t]]. unfold now, onWorld, total, Paced. cbn [fst snd recorded ho_now].
  pose proof (clock_now w). destruct (ho_now http w) as [z w']. cbn [fst snd] in *. rewrite Nat.sub_diag. split_and!; lia.
Qed.
End requests.

#[export] Instance lift_respects {W A} (R : Z * W -> Z * W -> Prop) `{!Reflexive R} (r : ApiError + A) : Respects R (lift (W := W) r).
Proof. destruct r; intros s; exact (reflexivity s). Qed.

#[export] Instance readPages_respects {W A} (R : Z * W -> Z * W -> Prop) `{!Reflexive R, !Transitive R} (page : Z -> A -> CM (W := W) A) cs out :
  (forall c a, Respects R (page c a)) -> Respects R (readPages page cs out).
Proof. intros H. revert out. induction cs as [|c cs IH]; intros out; simpl; apply _. Qed.

(** ** Windows *)

(** The pages of a window, with an invariant at each cursor. *)
Lemma readPages_inv {W A} (page : Z -> A -> CM (W := W) A) (I : Z -> A -> Prop) (E : ApiError -> Prop) step to fuel cursor out s :
  (0 < step -> to < cursor + step * Z.of_nat fuel)%Z -> (0 < step)%Z -> I cursor out ->
  (forall c a s, c ∈ cursorLoop fuel step to cursor -> I c a ->
     wp (page c a) (fun r _ => match r with inr b => I (c + step)%Z b | inl e => E e end) s) ->
  wp (readPages page (cursorLoop fuel step to cursor) out)
    (fun r _ => match r with inr b => exists c, (to < c)%Z /\ I c b | inl e => E e end) s.
Proof.
  intros Hf Hs. revert cursor out s Hf. induction fuel as [|fuel IH]; intros cursor out s Hf HI Hp; simpl.
  { apply wp_ret. exists cursor. split; [|done]. specialize (Hf Hs). lia. }
  simpl in Hp. destruct (Z.leb_spec cursor to) as [Hc|Hc]; [|apply wp_ret; by exists cursor].
  apply wp_bind. eapply wp_mono; [apply Hp; [left|done]|]. intros [e|b] s' H; [done|].
  apply IH; [intros _; specialize (Hf Hs); lia|done|]. intros c a s1 Hin. apply Hp. by right.
Qed.

Lemma cursors_fuel from to step : (0 < step)%Z -> (to < from + step * Z.of_nat (Z.to_nat ((to - from) / step + 1)))%Z.
Proof.
  intros Hs. pose proof (Z.div_mod (to - from) step ltac:(lia)). pose proof (Z.mod_pos_bound (to - from) step Hs).
  destruct (Z.le_gt_cases 0 ((to - from) / step + 1)); [rewrite Z2Nat.id by done; nia|].
  assert ((to - from) / step < -1)%Z by lia. replace (Z.to_nat _) with 0%nat by lia. nia.
Qed.

(** Cursors start pages: they lie in the window, whole steps from its start. *)
Lemma cursorLoop_elem fuel step to cursor c :
  (0 < step)%Z -> c ∈ cursorLoop fuel step to cursor -> (cursor <= c <= to)%Z /\ (step | c - cursor)%Z.
Proof.
  intros Hs. revert cursor. induction fuel as [|fuel IH]; intros cursor; simpl; [by intros ?%not_elem_of_nil|].
  destruct (Z.leb_spec cursor to); [|by intros ?%not_elem_of_nil]. intros [->|H1]%elem_of_cons.
  - split; [lia|]. rewrite Z.sub_diag. apply Z.divide_0_r.
  - destruct (IH _ H1) as [? [q Hq]]. split; [lia|]. exists (q + 1)%Z. lia.
Qed.

(** ** Records by time *)

Section entries.
Context {R K V : Type} (same : K -> K -> bool) (read : R -> ApiError + option (K * V)).

Lemma setEntry_new (k : K) (v : V) l : Forall (fun e => same (fst e) k = false) l -> setEntry same k v l = l ++ [(k, v)].
Proof. induction 1 as [|[k' w] l H _ IH]; simpl in *; [done|]. by rewrite H, IH. Qed.

(** Records under keys of their own are added in order. *)
Lemma readRecords_new rows kvs out :
  Forall2 (fun r kv => read r = inr (Some kv)) rows kvs ->
  ForallOrdPairs (fun a b => same (fst a) (fst b) = false) (out ++ kvs) ->
  readRecords same read rows out = inr (out ++ kvs).
Proof.
  intros H. revert out. induction H as [|r [k v] rows kvs Hr _ IH]; intros out Hn; simpl; [by rewrite app_nil_r|].
  rewrite Hr. rewrite setEntry_new.
  - rewrite IH; by rewrite <- app_assoc.
  - clear IH Hr. induction out as [|e out IHo]; [constructor|]. simpl in Hn. inversion Hn as [|? ? He Ho]; subst.
    constructor; [|by apply IHo]. rewrite Forall_app, Forall_cons in He. tauto.
Qed.
End entries.

(** Times as Numbers. *)
Definition timeRange (t : Z) : Prop := (0 <= t <= MAX_TIME_VALUE)%Z.

Lemma nint_time t : timeRange t -> isFinite (nint t) = true /\ sv (nint t) = (2 ^ 1074 * t)%Z.
Proof. intros Ht. apply nint_sv. unfold timeRange, MAX_TIME_VALUE in Ht. change (2 ^ 53)%Z with 9007199254740992%Z. lia. Qed.

Lemma scale_pos : (0 < 2 ^ 1074)%Z.
Proof. by apply pow2_pos. Qed.

Lemma dateOf_nint t : timeRange t -> dateOf (nint t) = t.
Proof.
  intros Ht. destruct (nint_time t Ht) as [Hf Hs]. unfold dateOf. rewrite Hf, Hs. pose proof scale_pos.
  rewrite Z.mul_comm, Z.quot_mul by lia. unfold timeRange in Ht. by rewrite (proj2 (Z.leb_le _ _)) by lia.
Qed.

Lemma nlt_times a b : timeRange a -> timeRange b -> nlt (nint a) (nint b) = (a <? b)%Z.
Proof.
  intros Ha Hb. destruct (nint_time a Ha) as [Fa Sa], (nint_time b Hb) as [Fb Sb]. rewrite nlt_sv by done.
  rewrite Sa, Sb. pose proof scale_pos. apply eq_true_iff_eq. rewrite !Z.ltb_lt. nia.
Qed.

Lemma neq_times a b : timeRange a -> timeRange b -> neq (nint a) (nint b) = (a =? b)%Z.
Proof.
  intros Ha Hb. destruct (nint_time a Ha) as [Fa Sa], (nint_time b Hb) as [Fb Sb]. rewrite neq_sv by done.
  rewrite Sa, Sb. pose proof scale_pos. apply eq_true_iff_eq. rewrite !Z.eqb_eq. nia.
Qed.

Lemma outside_times from to t : timeRange from -> timeRange to -> timeRange t ->
  outside from to (nint t) = negb ((from <=? t) && (t <=? to))%Z.
Proof. intros. unfold outside, ngt. rewrite !nlt_times by done. apply eq_true_iff_eq. rewrite orb_true_iff, negb_true_iff, andb_false_iff. lia. Qed.

(** Strictly increasing times are sorted as they are. *)
Lemma sortBy_id {A} (compare : A -> A -> comparison) l :
  StronglySorted (fun a b => compare a b <> Gt) l -> sortBy compare l = l.
Proof.
  induction 1 as [|a l Hs IH Ha]; [done|]. simpl. change (foldr (insertBy compare) [] l) with (sortBy compare l). rewrite IH.
  destruct l as [|b l]; [done|]. simpl. apply Forall_inv in Ha. by destruct (compare a b).
Qed.

Lemma sortedValues_id {V} (tsOf : V -> Z) l : StronglySorted Z.lt (List.map tsOf l) -> sortedValues tsOf l = l.
Proof.
  intros H. apply sortBy_id. induction l as [|a l IH]; [constructor|]. inversion H as [|? ? Hs Ha]; subst. constructor; [by apply IH|].
  rewrite Forall_map in Ha. eapply Forall_impl; [exact Ha|]. simpl. intros b Hb. unfold byDate. case_match; [done|].
  by rewrite (proj2 (Z.compare_lt_iff _ _) Hb).
Qed.

(** ** Bars of a grid *)

Section bars.
Context {R : Type}.

(** The bars whose times lie in a range. *)
Definition barsIn (from to : Z) (history : list (Z * R)) : list (Z * R) :=
  List.filter (fun bar => (from <=? fst bar) && (fst bar <=? to))%Z history.

Lemma barsIn_elem from to history bar : bar ∈ barsIn from to history <-> bar ∈ history /\ (from <= fst bar <= to)%Z.
Proof. unfold barsIn. rewrite !list_elem_of_In, filter_In. split; intros [? ?]; (split; [done|lia]). Qed.

(** Adjacent ranges of an increasing history. *)
Lemma barsIn_app from mid to history :
  StronglySorted Z.lt (List.map fst history) -> (from <= mid + 1)%Z -> (mid <= to)%Z ->
  barsIn from mid history ++ barsIn (mid + 1) to history = barsIn from to history.
Proof.
  intros Hs Hf Ht. unfold barsIn. induction history as [|[t r] l IH]; [done|]. inversion Hs as [|? ? Hl Ha]; subst. simpl.
  specialize (IH Hl). destruct (Z.leb_spec from t), (Z.leb_spec t mid), (Z.leb_spec (mid + 1) t), (Z.leb_spec t to);
    simpl; try lia; try (by rewrite <- IH); try done.
  rewrite <- IH. assert (List.filter (fun bar => (from <=? fst bar) && (fst bar <=? mid))%Z l = []) as ->; [|done].
  rewrite Forall_map in Ha. clear -Ha H1. induction Ha as [|[u q] l Hu _ IHl]; [done|]. simpl in *.
  rewrite (proj2 (Z.leb_gt u mid)) by lia. by rewrite andb_false_r.
Qed.

Lemma barsIn_mono from to to' history : (to <= to')%Z -> (length (barsIn from to history) <= length (barsIn from to' history))%nat.
Proof.
  intros Ht. unfold barsIn. induction history as [|[t r] l IH]; simpl; [done|].
  destruct (Z.leb_spec from t), (Z.leb_spec t to), (Z.leb_spec t to'); simpl; lia.
Qed.

Lemma barsIn_nil from to history : (to < from)%Z -> barsIn from to history = [].
Proof.
  intros Ht. unfold barsIn. induction history as [|[t r] l IH]; simpl; [done|].
  destruct (Z.leb_spec from t), (Z.leb_spec t to); simpl; (done || lia).
Qed.

(** Two ranges with the same bars of a history. *)
Lemma barsIn_ext from to to' history :
  Forall (fun bar => (from <= fst bar)%Z -> (fst bar <= to <-> fst bar <= to')%Z) history -> barsIn from to history = barsIn from to' history.
Proof.
  induction 1 as [|[t r] l H _ IH]; [done|]. unfold barsIn in *. simpl in *. rewrite IH.
  destruct (Z.leb_spec from t); simpl; [|done]. specialize (H ltac:(done)).
  destruct (Z.leb_spec t to), (Z.leb_spec t to'); try done; lia.
Qed.

(** At most n bars of a grid of width g lie in a range shorter than n grid steps. *)
Lemma barsIn_length g (n : nat) from history :
  (0 < g)%Z -> (g | from)%Z -> StronglySorted Z.lt (List.map fst history) -> Forall (fun bar => (g | fst bar)%Z) history ->
  (length (barsIn from (from + g * Z.of_nat n - g) history) <= n)%nat.
Proof.
  intros Hg [q Hq] Hs Ha. set (slot := fun bar : Z * R => Z.to_nat (fst bar / g - q)).
  assert (NoDup (List.map slot (barsIn from (from + g * Z.of_nat n - g) history))) as Hn.
  { unfold barsIn. induction history as [|[t r] l IH]; [constructor|]. inversion Hs as [|? ? Hl Hlt]; subst.
    apply Forall_cons in Ha as [Hd Ha]. specialize (IH Hl Ha). simpl. destruct (_ && _) eqn:E; [|done]. simpl. constructor; [|done].
    bool_hyps. intros (y & Ey & Hy)%list_elem_of_fmap. rewrite list_elem_of_In, filter_In in Hy. destruct Hy as [Hy Hr].
    rewrite Forall_map, Forall_forall in Hlt. rewrite Forall_forall in Ha.
    specialize (Hlt y ltac:(by apply list_elem_of_In)). specialize (Ha y ltac:(by apply list_elem_of_In)). simpl in *.
    destruct Hd as [a ->], Ha as [b Eb]. unfold slot in Ey. simpl in Ey. rewrite Eb, !Z.div_mul in Ey by lia. rewrite Eb in *. nia. }
  rewrite <- (length_map slot). transitivity (length (seq 0 n)); [|by rewrite length_seq].
  apply NoDup_incl_length; [exact (proj1 (NoDup_ListNoDup _) Hn)|].
  intros x (bar & <- & Hb)%in_map_iff. apply in_seq. apply list_elem_of_In, barsIn_elem in Hb as [Hb Hr].
  rewrite Forall_forall in Ha. destruct (Ha bar Hb) as [a Ea]. unfold slot. rewrite Ea, Z.div_mul by lia. rewrite Ea in Hr. nia.
Qed.
End bars.

(** ** The Binance candles *)

Section binance.
Context {W : Type} (http : HttpOps W) (syntaxError : string -> string).

(** A row of klines: its open time, then five numbers, then columns that are not checked. *)
Definition klineRow (t : Z) (row : Json) : bool :=
  match row with
  | J_array (J_number n :: columns) =>
      bool_decide (n = nint t) && (5 <=? length columns)%nat
      && forallb (fun v => match Binance.finiteOrUndefined v with Some _ => true | None => false end) (take 5 columns)
  | _ => false
  end.

(** The venue's bars of one instrument: rows at increasing times of the grid. *)
Definition KlineHistory (timeframe : Timeframe) (history : list (Z * Json)) : Prop :=
  StronglySorted Z.lt (List.map fst history)
  /\ Forall (fun bar => timeRange (fst bar) /\ (TIMEFRAME_MS timeframe | fst bar)%Z /\ klineRow (fst bar) (snd bar) = true) history.

(** What Binance documents for klines: from startTime to endTime, oldest first, at most so
    many rows. *)
Definition klinePage (history : list (Z * Json)) (startTime endTime : Z) : Json :=
  J_array (List.map snd (take (Z.to_nat Binance.MAX_BARS_PER_REQUEST) (barsIn startTime endTime history))).

Definition klineUrl (native : string) (timeframe : Timeframe) (cursor chunkEnd : Z) : string :=
  Binance.restUrl "/fapi/v1/klines" (Binance.klineParams native timeframe cursor chunkEnd).

Definition chunkEnd (req : CandleBackfillRequest) (cursor : Z) : Z :=
  Z.min (cursor + Binance.candleWindow (cb_timeframe req) - TIMEFRAME_MS (cb_timeframe req)) (cb_to req).

(** An answer to the request of a page. *)
Definition pageReading (req : CandleBackfillRequest) (native : string) (cursor : Z) (w : W) : Reading :=
  Binance.readAnswer syntaxError "/fapi/v1/klines"
    (fst (ho_get http (klineUrl native (cb_timeframe req) cursor (chunkEnd req cursor)) w)).

(** A row read for a request. *)
Definition barCandle (req : CandleBackfillRequest) (bar : Z * Json) (c : NormalizedCandle) : Prop :=
  Binance.readKline req (snd bar) = inr (Some (nint (fst bar), c)) /\ nc_ts c = fst bar.

Lemma finite_decimal n dp : isFinite n = true -> exists t, Binance.toDecimalString (inr n) dp = inr t.
Proof. intros H. unfold Binance.toDecimalString, decimalString. rewrite H. by eexists. Qed.

Lemma finiteOrUndefined_finite v x : Binance.finiteOrUndefined v = Some x -> isFinite x = true.
Proof. destruct v; simpl; try done; cbv zeta; case_match eqn:E; congruence. Qed.

Lemma candleOf_finite symbol assetType timeframe ts o h l c v trades :
  isFinite o = true -> isFinite h = true -> isFinite l = true -> isFinite c = true -> isFinite v = true ->
  exists candle, Binance.candleOf symbol assetType timeframe ts o h l c v trades = inr candle /\ nc_ts candle = dateOf ts.
Proof.
  intros Ho Hh Hl Hc Hv. unfold Binance.candleOf.
  destruct (finite_decimal o 8 Ho) as [? ->], (finite_decimal h 8 Hh) as [? ->], (finite_decimal l 8 Hl) as [? ->],
    (finite_decimal c 8 Hc) as [? ->], (finite_decimal v 8 Hv) as [? ->]. by eexists.
Qed.

Lemma readKline_row req t row :
  timeRange t -> timeRange (cb_from req) -> timeRange (cb_to req) -> klineRow t row = true -> (cb_from req <= t <= cb_to req)%Z ->
  exists c, barCandle req (t, row) c.
Proof.
  intros Ht Hf Hto Hr Hw. destruct row as [| | | | |[|[| | |n| | |] columns]|]; try done. simpl in Hr. bool_hyps. subst.
  do 5 (destruct columns as [|? columns]; [done|]). simpl in *. bool_hyps.
  unfold barCandle, Binance.readKline. cbn [fst snd index nth]. unfold Binance.finiteNumber.
  destruct (nint_time t Ht) as [Ft _]. rewrite Ft.
  repeat match goal with H : match Binance.finiteOrUndefined ?v with _ => _ end = true |- _ =>
    destruct (Binance.finiteOrUndefined v) as [?x|] eqn:?; [|done]; clear H end.
  repeat match goal with H : Binance.finiteOrUndefined _ = Some _ |- _ => apply finiteOrUndefined_finite in H end.
  rewrite outside_times by done. rewrite (proj2 (andb_true_iff _ _)) by lia. cbn [negb].
  edestruct candleOf_finite as (c & -> & Hc); [done..|]. exists c. split; [done|]. by rewrite Hc, dateOf_nint.
Qed.

(** The keys of rows at increasing times differ. *)
Lemma keys_new (l : list (Z * Json)) (kvs : list (number * NormalizedCandle)) req :
  StronglySorted Z.lt (List.map fst l) -> Forall (fun bar => timeRange (fst bar)) l ->
  Forall2 (fun bar kv => fst kv = nint (fst bar) /\ barCandle req bar (snd kv)) l kvs ->
  ForallOrdPairs (fun a b => neq (fst a) (fst b) = false) kvs.
Proof.
  intros Hs Ht H. revert Hs Ht. induction H as [|bar kv l kvs [Hk _] H IH]; intros Hs Ht; [constructor|].
  inversion Hs as [|? ? Hl Ha]; subst. apply Forall_cons in Ht as [Hb Ht]. constructor; [|by apply IH].
  rewrite Forall_map in Ha. clear IH Hl Hs. induction H as [|bar' kv' l kvs [Hk' _] H IH]; [constructor|].
  apply Forall_cons in Ha as [Hlt Ha]. apply Forall_cons in Ht as [Hb' Ht]. constructor; [|by apply IH].
  rewrite Hk, Hk', neq_times by done. apply Z.eqb_neq. lia.
Qed.

(** Requests fail only as their answers say. *)
Lemma attempts_reading (venue : RestVenue) path url n attempt lastErr s :
  (n <> O \/ exists err w, lastErr = Some err /\ rv_read venue path (fst (ho_get http url w)) = Transient err) ->
  wp (attempts http venue path url n attempt lastErr)
    (fun r _ => exists w, match r with
                          | inr v => rv_read venue path (fst (ho_get http url w)) = Value v
                          | inl err => rv_read venue path (fst (ho_get http url w)) = Fatal err
                                       \/ rv_read venue path (fst (ho_get http url w)) = Transient err
                          end) s.
Proof.
  revert attempt lastErr s. induction n as [|n IH]; intros attempt lastErr s Hn; simpl.
  - destruct Hn as [|(err & w & -> & Hr)]; [done|]. apply wp_throw. exists w. by right.
  - clear Hn. apply wp_bind. unfold wp at 1. assert (exists s1, when (0 <? attempt)%nat (sleep http (RETRY_BASE_DELAY_MS * 2 ^ (Z.of_nat attempt - 1))) s = (inr tt, s1)) as [s1 ->].
    { destruct (0 <? attempt)%nat; by eexists. }
    cbn [fst snd]. apply wp_bind. unfold wp at 1.
    assert (exists s2, throttle http venue s1 = (inr tt, s2)) as [s2 ->].
    { unfold throttle, bind, now, onWorld, total, gets, modify, when. cbn [fst snd]. case_match; by eexists. }
    cbn [fst snd]. apply wp_bind. unfold wp at 1, onWorld, total. cbn [fst snd].
    destruct (rv_read venue path (fst (ho_get http url (snd s2)))) as [v|err|err] eqn:E.
    + apply wp_ret. exists (snd s2). exact E.
    + apply wp_throw. exists (snd s2). by left.
    + apply IH. right. by exists err, (snd s2).
Qed.

Context (req : CandleBackfillRequest) (native : string) (history : list (Z * Json)).
Context (Hfrom : timeRange (cb_from req)) (Hto : timeRange (cb_to req)).
Context (Hhistory : KlineHistory (cb_timeframe req) history).
Context (Hgrid : (TIMEFRAME_MS (cb_timeframe req) | cb_from req)%Z).

(** What the Map holds before the page at a cursor. *)
Definition collected (cursor : Z) (out : list (number * NormalizedCandle)) : Prop :=
  (cb_from req <= cursor)%Z /\ (TIMEFRAME_MS (cb_timeframe req) | cursor)%Z
  /\ Forall2 (fun bar kv => fst kv = nint (fst bar) /\ barCandle req bar (snd kv))
      (barsIn (cb_from req) (Z.min (cursor - 1) (cb_to req)) history) out.
Definition serves (cursor : Z) : Prop :=
  forall w v, pageReading req native cursor w = Value v -> v = klinePage history cursor (chunkEnd req cursor).

(** The bars a page asks for are those up to the next cursor. *)
Lemma page_bars cursor :
  (TIMEFRAME_MS (cb_timeframe req) | cursor)%Z ->
  barsIn cursor (chunkEnd req cursor) history
  = barsIn cursor (Z.min (cursor + Binance.candleWindow (cb_timeframe req) - 1) (cb_to req)) history.
Proof using Hhistory.
  intros [q Hq]. pose proof (TIMEFRAME_MS_pos (cb_timeframe req)) as Hp. apply barsIn_ext.
  eapply Forall_impl; [exact (proj2 Hhistory)|]. intros [t row] (_ & [a Ha] & _) _. simpl in *.
  unfold chunkEnd, Binance.candleWindow, Binance.MAX_BARS_PER_REQUEST. split; [lia|]. intros Ht.
  assert (a < q + 1500)%Z by nia. nia.
Qed.

Lemma page_complete cursor :
  (TIMEFRAME_MS (cb_timeframe req) | cursor)%Z ->
  klinePage history cursor (chunkEnd req cursor) = J_array (List.map snd (barsIn cursor (chunkEnd req cursor) history)).
Proof using Hhistory.
  intros Hd. unfold klinePage. rewrite take_ge; [done|]. etransitivity; [apply (barsIn_mono _ _ (cursor + TIMEFRAME_MS (cb_timeframe req) * Z.of_nat (Z.to_nat Binance.MAX_BARS_PER_REQUEST) - TIMEFRAME_MS (cb_timeframe req)))|].
  - unfold chunkEnd, Binance.candleWindow, Binance.MAX_BARS_PER_REQUEST. lia.
  - apply barsIn_length; [apply TIMEFRAME_MS_pos|done|apply Hhistory|].
    eapply Forall_impl; [exact (proj2 Hhistory)|]. by intros bar (_ & ? & _).
Qed.

(** Every bar of a range within the window is read. *)
Lemma bars_read from to :
  (cb_from req <= from)%Z -> (to <= cb_to req)%Z ->
  exists kvs, Forall2 (fun bar kv => fst kv = nint (fst bar) /\ barCandle req bar (snd kv)) (barsIn from to history) kvs.
Proof using Hfrom Hto Hhistory.
  intros Hf Ht. destruct Hhistory as [_ Hall]. rewrite Forall_forall in Hall.
  assert (Forall (fun bar => exists kv, fst kv = nint (fst bar) /\ barCandle req bar (snd kv)) (barsIn from to history)) as H.
  { apply Forall_forall. intros [t row] [Hin Hr]%barsIn_elem. destruct (Hall _ Hin) as (Htr & _ & Hrow). simpl in *.
    destruct (readKline_row req t row Htr Hfrom Hto Hrow ltac:(lia)) as [c Hc]. by exists (nint t, c). }
  induction H as [|bar l [kv Hkv] _ [kvs IH]]; [by exists []|]. exists (kv :: kvs). by constructor.
Qed.

Lemma barsIn_sorted {R} from to (l : list (Z * R)) : StronglySorted Z.lt (List.map fst l) -> StronglySorted Z.lt (List.map fst (barsIn from to l)).
Proof.
  unfold barsIn. induction l as [|bar l IH]; intros Hs; simpl; [constructor|]. inversion Hs as [|? ? Hl Ha]; subst.
  case_match; [|by apply IH]. simpl. constructor; [by apply IH|]. rewrite Forall_map, Forall_forall in *.
  intros x [Hx _]%barsIn_elem. by apply Ha.
Qed.

Lemma collected_times from to (out : list (number * NormalizedCandle)) :
  Forall2 (fun bar kv => fst kv = nint (fst bar) /\ barCandle req bar (snd kv)) (barsIn from to history) out ->
  StronglySorted Z.lt (List.map nc_ts (List.map snd out)).
Proof using Hhistory.
  intros H. pose proof (barsIn_sorted from to history (proj1 Hhistory)) as Hs.
  assert (List.map nc_ts (List.map snd out) = List.map fst (barsIn from to history)) as ->; [|done].
  clear Hs. induction H as [|bar kv l out [_ [_ Hts]] _ IH]; [done|]. simpl. by rewrite Hts, IH.
Qed.

Lemma candlePage_step cursor out s :
  (cursor <= cb_to req)%Z -> serves cursor -> collected cursor out ->
  wp (Binance.candlePage syntaxError http req native cursor out)
    (fun r _ => match r with
                | inr out' => collected (cursor + Binance.candleWindow (cb_timeframe req)) out'
                | inl err => exists w, pageReading req native cursor w = Fatal err \/ pageReading req native cursor w = Transient err
                end) s.
Proof using Hfrom Hto Hhistory.
  intros Hc Hserves (Hcf & Hd & Hout). unfold Binance.candlePage, Binance.get, restGet. apply wp_bind.
  eapply wp_mono; [apply attempts_reading; by left|]. intros [err|v] s' [w Hw]; [by exists w|].
  specialize (Hserves w v Hw). rewrite page_complete in Hserves by done. subst v. cbn [iterate lift]. apply wp_bind, wp_ret.
  rewrite page_bars by done. set (e := Z.min (cursor + Binance.candleWindow (cb_timeframe req) - 1) (cb_to req)).
  destruct (bars_read cursor e) as [kvs Hkvs]; [lia|lia|]. rewrite Z.min_l in Hout by lia.
  pose proof (Forall2_app Hout Hkvs) as Hall. destruct Hhistory as [Hs Hrows].
  pose proof (barsIn_app (cb_from req) (cursor - 1) e history Hs ltac:(lia)) as Happ.
  replace (cursor - 1 + 1)%Z with cursor in Happ by lia.
  pose proof (TIMEFRAME_MS_pos (cb_timeframe req)) as Hp.
  assert (cursor - 1 <= e)%Z as He.
  { unfold e, Binance.candleWindow, Binance.MAX_BARS_PER_REQUEST. lia. }
  rewrite Happ in Hall by done. rewrite (readRecords_new neq (Binance.readKline req) _ kvs).
  - apply wp_ret. split_and!; [unfold Binance.candleWindow, Binance.MAX_BARS_PER_REQUEST; lia| |exact Hall].
    apply Z.divide_add_r; [done|]. unfold Binance.candleWindow. apply Z.divide_factor_r.
  - apply Forall2_fmap_l. eapply Forall2_impl; [exact Hkvs|]. intros bar [k c] [Hk [Hc' _]]. simpl in *. by rewrite Hc', Hk.
  - eapply keys_new; [| |exact Hall]; [by apply barsIn_sorted|]. apply Forall_forall. intros bar [Hin _]%barsIn_elem.
    rewrite Forall_forall in Hrows. by destruct (Hrows bar Hin).
Qed.
End binance.

(** ** The life of a stream *)

Definition shut (s : Socket) : Prop := so_phase s = Shut.

(** A socket whose closing would still be noticed. *)
Definition listening (s : Socket) : bool := negb (bool_decide (so_phase s = Shut)) && so_onClose s.

(** While the subscription is open, its newest socket is alive or a reconnection is pending,
    and every older socket is shut; once closed, nothing is pending. *)
Definition StreamOpen (st : LiveStream) : Prop :=
  exists pre s, lv_sockets st = pre ++ [s] /\ Forall shut pre /\ so_onClose s = true /\ lv_ws st = Some (length pre)
    /\ (~ shut s /\ lv_timers st = [] /\ lv_reconnectTimer st = None
        \/ shut s /\ exists t, lv_timers st = [t] /\ lv_reconnectTimer st = Some t).

Definition StreamClosed (st : LiveStream) : Prop :=
  lv_timers st = [] /\ lv_ws st = None /\ Forall (fun s => listening s = false) (lv_sockets st).

Definition StreamInv (st : LiveStream) : Prop :=
  (WS_RECONNECT_MIN_MS <= lv_reconnectDelayMs st <= WS_RECONNECT_MAX_MS)%Z
  /\ if lv_closed st then StreamClosed st else StreamOpen st.

(** In an open stream, a socket that is not shut is the newest one. *)
Lemma newest pre (s socket : Socket) i :
  Forall shut pre -> (pre ++ [s]) !! i = Some socket -> ~ shut socket -> i = length pre /\ socket = s.
Proof.
  intros Hpre Hi Hs. apply lookup_app_Some in Hi as [Hi|[Hle Hi]].
  - rewrite Forall_lookup in Hpre. by destruct (Hs (Hpre i socket Hi)).
  - destruct (i - length pre)%nat eqn:E; simpl in Hi; [|done]. injection Hi as ->. split; [lia|done].
Qed.

Lemma insert_newest pre (s s' : Socket) : <[length pre := s']> (pre ++ [s]) = pre ++ [s'].
Proof. rewrite insert_app_r_alt by done. by rewrite Nat.sub_diag. Qed.

Lemma listening_insert i s sockets :
  listening s = false -> Forall (fun s => listening s = false) sockets -> Forall (fun s => listening s = false) (<[i := s]> sockets).
Proof. intros. by apply Forall_insert. Qed.

Lemma filter_only t : List.filter (fun u => negb (u =? t)%nat) [t] = [].
Proof. simpl. by rewrite Nat.eqb_refl. Qed.

Lemma onOpen_inv i socket st :
  StreamInv st -> lv_sockets st !! i = Some socket -> so_phase socket = Connecting -> StreamInv (fst (onOpen i socket st)).
Proof.
  intros [_ H] Hi Hp. split; [by unfold WS_RECONNECT_MIN_MS, WS_RECONNECT_MAX_MS; simpl|]. simpl. destruct (lv_closed st).
  - destruct H as (Ht & Hw & Hall). split_and!; [done|done|]. apply listening_insert; [|done].
    rewrite Forall_lookup in Hall. specialize (Hall i socket Hi). unfold listening in *. by rewrite Hp in Hall.
  - destruct H as (pre & s & Es & Hpre & Hc & Hw & Hcase). rewrite Es in Hi.
    assert (~ shut socket) as Hns by (unfold shut; by rewrite Hp).
    destruct (newest _ _ _ _ Hpre Hi Hns) as [-> ->]. exists pre, {| so_phase := Open; so_onClose := so_onClose s |}.
    simpl. rewrite Es, insert_newest. split_and!; try done. left. split; [done|]. destruct Hcase as [[_ Ht]|[Hs _]]; [exact Ht|done].
Qed.

Lemma onClose_inv name i socket code st :
  StreamInv st -> lv_sockets st !! i = Some socket -> so_phase socket <> Shut -> StreamInv (fst (onClose name i socket code st)).
Proof.
  intros [Hd H] Hi Hp. unfold onClose, scheduleReconnect. cbn [lv_closed setSockets]. destruct (lv_closed st) eqn:Ec.
  - destruct H as (Ht & Hw & Hall). assert (so_onClose socket = false) as ->.
    { rewrite Forall_lookup in Hall. specialize (Hall i socket Hi). unfold listening in Hall. by rewrite bool_decide_false in Hall. }
    split; [exact Hd|]. simpl. rewrite Ec. split_and!; [done|done|]. by apply listening_insert.
  - destruct H as (pre & s & Es & Hpre & Hc & Hw & Hcase). rewrite Es in Hi. destruct (newest _ _ _ _ Hpre Hi Hp) as [-> ->].
    rewrite Hc. simpl. split; [unfold WS_RECONNECT_MIN_MS, WS_RECONNECT_MAX_MS in *; simpl; lia|]. simpl.
    exists pre, {| so_phase := Shut; so_onClose := true |}. simpl. rewrite Es, insert_newest. split_and!; try done.
    right. split; [done|]. exists (lv_timerCount st). split; [|done]. destruct Hcase as [(_ & -> & _)|[Hs _]]; done.
Qed.

Lemma onTimer_inv t st : StreamInv st -> t ∈ lv_timers st -> StreamInv (onTimer t st).
Proof.
  intros [Hd H] Ht. unfold onTimer, connect. simpl. destruct (lv_closed st) eqn:Ec.
  - destruct H as (Hn & _). rewrite Hn in Ht. by apply not_elem_of_nil in Ht.
  - destruct H as (pre & s & Es & Hpre & Hc & Hw & [(_ & Hn & _)|(Hs & u & Hu & _)]); [rewrite Hn in Ht; by apply not_elem_of_nil in Ht|].
    rewrite Hu in *. apply list_elem_of_singleton in Ht as ->. split; [exact Hd|]. simpl.
    exists (lv_sockets st), {| so_phase := Connecting; so_onClose := true |}. split_and!; try done.
    + rewrite Es. apply Forall_app. by split; [|constructor].
    + left. split; [done|]. split; [apply filter_only|done].
Qed.

Lemma closeStream_inv st : StreamInv st -> StreamInv (closeStream st).
Proof.
  intros [Hd H]. split; [exact Hd|]. simpl. unfold closeStream, StreamClosed. simpl. destruct (lv_closed st).
  - destruct H as (-> & -> & Hall). split_and!; [by case_match|done|done].
  - destruct H as (pre & s & Es & Hpre & Hc & -> & Hcase). split_and!; [|done|].
    + destruct Hcase as [(_ & -> & ->)|(_ & t & -> & ->)]; [done|apply filter_only].
    + rewrite Es. rewrite alter_app_r_alt by done. apply Forall_app. split.
      * eapply Forall_impl; [exact Hpre|]. intros s' Hs'. unfold listening. by rewrite Hs'.
      * rewrite Nat.sub_diag. simpl. constructor; [|done]. unfold listening. simpl. by rewrite andb_false_r.
Qed.

Lemma streamStep_inv name st event st' reports :
  StreamInv st -> streamStep name st event = Some (st', reports) -> StreamInv st'.
Proof.
  intros H E. destruct event as [i|i message|i code|t|]; simpl in E.
  - destruct (lv_sockets st !! i) as [socket|] eqn:Hi; [|done]. case_bool_decide; [|done]. injection E as <- _. by apply (onOpen_inv i socket).
  - destruct (lv_sockets st !! i) as [socket|] eqn:Hi; [|done]. case_bool_decide; [done|]. by injection E as <- _.
  - destruct (lv_sockets st !! i) as [socket|] eqn:Hi; [|done]. case_bool_decide; [done|]. injection E as E.
    pose proof (onClose_inv name i socket code st H Hi ltac:(done)) as Hc. by rewrite E in Hc.
  - case_bool_decide; [|done]. injection E as <- _. by apply onTimer_inv.
  - injection E as <- _. by apply closeStream_inv.
Qed.

Lemma stream_starts : StreamInv (connect freshStream).
Proof. split; [by simpl|]. exists [], {| so_phase := Connecting; so_onClose := true |}. split_and!; try done. by left. Qed.

(** A closed stream opens no socket. *)
Lemma closed_step name st event st' reports :
  StreamInv st -> lv_closed st = true -> streamStep name st event = Some (st', reports) ->
  lv_closed st' = true /\ length (lv_sockets st') = length (lv_sockets st).
Proof.
  intros [_ H] Hc E. rewrite Hc in H. destruct H as (Hn & _).
  destruct event as [i|i message|i code|t|]; simpl in E.
  - repeat case_match; try done. injection E as <- _. simpl. by rewrite length_insert.
  - repeat case_match; try done. by injection E as <- _.
  - repeat case_match; try done. unfold onClose, scheduleReconnect in E. simpl in E. rewrite Hc in E.
    repeat case_match; simplify_eq; simpl; by rewrite length_insert.
  - case_bool_decide as Ht; [|done]. rewrite Hn in Ht. by apply not_elem_of_nil in Ht.
  - injection E as <- _. simpl. split; [done|]. case_match; [by rewrite length_alter|done].
Qed.

(** ** Names of option instruments *)

Fixpoint allChars (p : Ascii.ascii -> bool) (s : string) : bool :=
  match s with String c s => p c && allChars p s | _ => true end.

Definition startsWith (p : Ascii.ascii -> bool) (s : string) : bool :=
  match s with String c _ => p c | _ => false end.

Lemma span_run p s t : allChars p s = true -> startsWith p t = false -> Deribit.span p (s +:+ t) = (s, t).
Proof.
  intros Hs Ht. induction s as [|c s IH].
  - change ("" +:+ t) with t. destruct t as [|c t]; simpl in *; [done|by rewrite Ht].
  - simpl in Hs. bool_hyps. change (String c s +:+ t) with (String c (s +:+ t)). cbn [Deribit.span]. by rewrite H, IH.
Qed.

Lemma strip_app_dash t : strip "-" ("-" +:+ t) = Some t.
Proof. reflexivity. Qed.

Lemma startsWith_app p s t : s <> "" -> startsWith p (s +:+ t) = startsWith p s.
Proof. by destruct s. Qed.

Lemma allChars_starts p q s : s <> "" -> allChars q s = true -> (forall c, q c = true -> p c = false) -> startsWith p s = false.
Proof. destruct s as [|c s]; [done|]. simpl. intros _ H Hpq. bool_hyps. by apply Hpq. Qed.

Lemma upper_not_digit c : Deribit.isUpper c = true -> isDigit c = false.
Proof. unfold Deribit.isUpper, isDigit. intros. bool_hyps. apply andb_false_iff. lia. Qed.

Lemma digit_not_upper c : isDigit c = true -> Deribit.isUpper c = false.
Proof. unfold Deribit.isUpper, isDigit. intros. bool_hyps. apply andb_false_iff. lia. Qed.

(** How a strike is written: a d in place of the point. *)
Definition strikeName (whole : string) (fraction : option string) : string :=
  whole +:+ match fraction with Some f => "d" +:+ f | None => "" end.

Definition strikeDecimal (whole : string) (fraction : option string) : string :=
  whole +:+ match fraction with Some f => "." +:+ f | None => "" end.

Definition digitsText (s : string) : Prop := s <> "" /\ allChars isDigit s = true.

Lemma strikeText_name whole fraction rest :
  digitsText whole -> (forall f, fraction = Some f -> digitsText f) -> startsWith isDigit rest = false -> strip "d" rest = None ->
  Deribit.strikeText (strikeName whole fraction +:+ rest) = Some (strikeDecimal whole fraction, rest).
Proof.
  intros [Hw Hwd] Hf Hr Hd. unfold Deribit.strikeText, strikeName, strikeDecimal. rewrite string_app_assoc. destruct fraction as [f|].
  - destruct (Hf f eq_refl) as [Hf0 Hfd]. rewrite string_app_assoc, span_run by done. destruct whole as [|c w] eqn:Ew; [done|].
    change (strip "d" ("d" +:+ f +:+ rest)) with (Some (f +:+ rest)). cbv beta iota. rewrite span_run by done. by destruct f.
  - change ("" +:+ rest) with rest. rewrite span_run by done. destruct whole as [|c w] eqn:Ew; [done|]. by rewrite Hd, string_app_nil_r.
Qed.

(** The name of an instrument, and what its parts say. *)
Definition optionName (underlying day month year whole : string) (fraction : option string) (call : bool) : string :=
  underlying +:+ "-" +:+ day +:+ month +:+ year +:+ "-" +:+ strikeName whole fraction +:+ (if call then "-C" else "-P").

Lemma parseName_name underlying day month year whole fraction call :
  underlying <> "" -> allChars Deribit.isUpper underlying = true ->
  digitsText day -> (String.length day <= 2)%nat -> month <> "" -> allChars Deribit.isUpper month = true -> String.length month = 3%nat ->
  digitsText year -> String.length year = 2%nat -> digitsText whole -> (forall f, fraction = Some f -> digitsText f) ->
  Deribit.parseName (optionName underlying day month year whole fraction call)
  = Some {| Deribit.pm_underlying := underlying; Deribit.pm_day := day; Deribit.pm_month := month; Deribit.pm_year := year;
            Deribit.pm_strike := strikeDecimal whole fraction; Deribit.pm_call := call |}.
Proof.
  intros Hu Hud [Hd Hdd] Hdl Hm Hmd Hml [Hy Hyd] Hyl Hw Hf. unfold Deribit.parseName, optionName.
  rewrite span_run by done. rewrite strip_app_dash. rewrite span_run; [|done|].
  2:{ rewrite startsWith_app by done. by eapply allChars_starts; [| |apply upper_not_digit]. }
  rewrite span_run; [|done|].
  2:{ rewrite startsWith_app by done. by eapply allChars_starts; [| |apply digit_not_upper]. }
  rewrite span_run by done. rewrite Hml, Hyl.
  assert ((1 <=? String.length underlying)%nat = true) as -> by by destruct underlying.
  assert ((1 <=? String.length day)%nat = true) as -> by by destruct day.
  rewrite (proj2 (Nat.leb_le _ _) Hdl). cbn [andb Nat.eqb]. rewrite strip_app_dash, strikeText_name; [by destruct call|done|done|by destruct call..].
Qed.

(** *** The calendar *)

Definition leapYear (year : Z) : bool := ((year mod 4 =? 0) && (negb (year mod 100 =? 0) || (year mod 400 =? 0)))%Z.

Definition daysInMonth (year month : Z) : Z :=
  (if month =? 1 then if leapYear year then 29 else 28
   else if (month =? 3) || (month =? 5) || (month =? 8) || (month =? 10) then 30 else 31)%Z.

(** The expiry of a real date is 08:00 of that day; any other day number ends up elsewhere. *)
Definition calendarOk (year month day : Z) : bool :=
  let expiry := Deribit.expiryOf year month day in
  let '(y, m, d) := civil (expiry / 86400000) in
  (if day <=? daysInMonth year month then (y =? year) && (m =? month + 1) && (d =? day) && (expiry mod 86400000 =? 28800000)
   else negb (d =? day) || negb (m - 1 =? month))%Z.

Definition upTo (n : nat) : list Z := List.map Z.of_nat (List.seq 0 n).

Lemma upTo_elem n z : (0 <= z < Z.of_nat n)%Z -> In z (upTo n).
Proof. intros Hz. apply in_map_iff. exists (Z.to_nat z). split; [lia|]. apply in_seq. lia. Qed.

Lemma calendar year month day :
  (2000 <= year < 2100)%Z -> (0 <= month < 12)%Z -> (1 <= day <= 31)%Z -> calendarOk year month day = true.
Proof.
  intros Hy Hm Hd.
  assert (forallb (fun y => forallb (fun m => forallb (fun d => calendarOk (2000 + y) m (1 + d)) (upTo 31)) (upTo 12)) (upTo 100) = true)%Z
    as H by evaluate.
  rewrite forallb_forall in H. specialize (H (year - 2000)%Z (upTo_elem 100 (year - 2000) ltac:(lia))). cbv beta in H.
  rewrite forallb_forall in H. specialize (H month (upTo_elem 12 month ltac:(lia))). cbv beta in H.
  rewrite forallb_forall in H. specialize (H (day - 1)%Z (upTo_elem 31 (day - 1) ltac:(lia))).
  replace (2000 + (year - 2000))%Z with year in H by lia. by replace (1 + (day - 1))%Z with day in H by lia.
Qed.

(** The texts of a date. *)
Definition monthName (month : Z) : string := fst (nth (Z.to_nat month) Deribit.MONTHS ("", 0%Z)).

Definition dayTextOk (day : Z) : bool :=
  negb (bool_decide (showZ day = "")) && allChars isDigit (showZ day) && (String.length (showZ day) <=? 2)%nat
  && (Deribit.digitsValue (showZ day) =? day)%Z.

Lemma dayText day : (1 <= day <= 31)%Z ->
  digitsText (showZ day) /\ (String.length (showZ day) <= 2)%nat /\ Deribit.digitsValue (showZ day) = day.
Proof.
  intros Hd. assert (forallb (fun d => dayTextOk (1 + d)) (upTo 31) = true)%Z as H by evaluate.
  rewrite forallb_forall in H. specialize (H (day - 1)%Z (upTo_elem 31 (day - 1) ltac:(lia))).
  replace (1 + (day - 1))%Z with day in H by lia. unfold dayTextOk in H. bool_hyps. split_and!; [by split|by apply Nat.leb_le|lia].
Qed.

Definition yearTextOk (year : Z) : bool :=
  negb (bool_decide (pad 2 year = "")) && allChars isDigit (pad 2 year) && (String.length (pad 2 year) =? 2)%nat
  && (Deribit.digitsValue (pad 2 year) =? year)%Z.

Lemma yearText year : (0 <= year < 100)%Z ->
  digitsText (pad 2 year) /\ String.length (pad 2 year) = 2%nat /\ Deribit.digitsValue (pad 2 year) = year.
Proof.
  intros Hd. assert (forallb yearTextOk (upTo 100) = true)%Z as H by evaluate.
  rewrite forallb_forall in H. specialize (H year (upTo_elem 100 year ltac:(lia))).
  unfold yearTextOk in H. bool_hyps. split_and!; [by split|by apply Nat.eqb_eq|lia].
Qed.

Definition monthTextOk (month : Z) : bool :=
  negb (bool_decide (monthName month = "")) && allChars Deribit.isUpper (monthName month) && (String.length (monthName month) =? 3)%nat
  && match List.find (fun e => bool_decide (fst e = monthName month)) Deribit.MONTHS with Some (_, m) => (m =? month)%Z | None => false end.

Lemma monthText month : (0 <= month < 12)%Z ->
  monthName month <> "" /\ allChars Deribit.isUpper (monthName month) = true /\ String.length (monthName month) = 3%nat
  /\ exists name, List.find (fun e => bool_decide (fst e = monthName month)) Deribit.MONTHS = Some (name, month).
Proof.
  intros Hd. assert (forallb monthTextOk (upTo 12) = true)%Z as H by evaluate.
  rewrite forallb_forall in H. specialize (H month (upTo_elem 12 month ltac:(lia))).
  unfold monthTextOk in H. bool_hyps. split_and!; [done|done|by apply Nat.eqb_eq|].
  destruct (List.find _ _) as [[name m]|]; [|done]. exists name. repeat f_equal. lia.
Qed.
