(* ===== verification/ConnectorProps.v ===== *)
(** * ConnectorProps: what the venue connectors promise

    A request that is retried, its pacing, decimal strings, the completeness of a window of
    candles, the life of a stream, and the names of option instruments; with sample venues,
    and the windows and payloads that show where a promise ends. *)

From stdpp Require Import gmap.
From S2P Require Import Prelude JsNumber JsNumberFacts JsText JsDecimal JsDecimalFacts Json Effects Served MarketState.
From S2P Require Import Quality Ingestion Backfill Connector Binance Deribit ConnectorFacts.

Local Open Scope string_scope.
Local Open Scope list_scope.
Local Open Scope eff_scope.

(** ** A sample venue *)

Section sample.
(** The answers by url; any other request gets a 404.  The state is the clock. *)
Context (answers : list (string * Fetched)).

Definition sampleGet (url : string) (w : Z) : Fetched * Z :=
  match List.find (fun e => bool_decide (fst e = url)) answers with
  | Some (_, answer) => (answer, w + 5)%Z
  | None => (Answered 404 (inr ""), w + 5)%Z
  end.

Definition sampleHttp : HttpOps Z := {|
  ho_now := fun w => (w, w); ho_sleep := fun ms w => (w + ms)%Z; ho_get := sampleGet |}.

#[export] Instance sampleClock : ClockLaws sampleHttp id.
Proof. split; simpl; unfold id; intros; [lia|lia|]. unfold sampleGet. repeat case_match; simpl; lia. Qed.
End sample.

Definition sampleSyntaxError (_ : string) : string := "Unexpected token".

(** ** Requests *)

(** C38. A request is answered by at most four attempts: the first answer that is not transient
    decides, as a value or as the error it stands for, and four transient answers end in the
    error of the last; every attempt asks for the same url. *)
Theorem request_settles {W} (http : HttpOps W) (venue : RestVenue) path params (s : Z * (W * list (string * Fetched))) :
  exists answers,
    snd (snd (snd (restGet (recorded http) venue path params s)))
    = snd (snd s) ++ List.map (pair (rv_url venue path params)) answers
    /\ settles venue path (S MAX_RETRIES) answers (fst (restGet (recorded http) venue path params s))
    /\ (1 <= length answers <= 4)%nat.
Proof.
  destruct (attempts_settle http venue path (rv_url venue path params) (S MAX_RETRIES) 0 None s ltac:(done)) as (answers & Ht & Hs).
  exists answers. split; [exact Ht|]. split; [exact Hs|]. exact (settles_length _ _ _ _ _ Hs).
Qed.

(** Whatever is fetched from Binance, its requests keep to their slots: after n requests the
    last slot is n intervals past the one before them, and no request left before its slot. *)
Theorem requests_paced {W} (http : HttpOps W) (clock : W -> Z) syntaxError candles flow symbol :
  ClockLaws http clock ->
  Respects (Paced (Binance.venue syntaxError) clock) (Binance.fetchCandles syntaxError (recorded http) candles)
  /\ Respects (Paced (Binance.venue syntaxError) clock) (Binance.fetchFundingRates syntaxError (recorded http) flow)
  /\ Respects (Paced (Binance.venue syntaxError) clock) (Binance.fetchOpenInterest syntaxError (recorded http) flow)
  /\ Respects (Paced (Binance.venue syntaxError) clock) (Binance.fetchLongShortRatios syntaxError (recorded http) flow)
  /\ Respects (Paced (Binance.venue syntaxError) clock) (Binance.fetchLiquidity syntaxError (recorded http) symbol).
Proof.
  intros HC. assert (forall path params, Respects (Paced (Binance.venue syntaxError) clock)
    (Binance.get syntaxError (recorded http) path params)) as Hget.
  { intros path params. by apply attempts_paced. }
  pose proof (Paced_refl (Binance.venue syntaxError) clock). pose proof (Paced_trans (Binance.venue syntaxError) clock).
  split_and!.
  - unfold Binance.fetchCandles, Binance.candlePage. apply _.
  - unfold Binance.fetchFundingRates, Binance.fundingPage. apply _.
  - unfold Binance.fetchOpenInterest. apply _.
  - assert (forall native endpoint, Respects (Paced (Binance.venue syntaxError) clock)
      (Binance.longShortScope syntaxError (recorded http) flow native endpoint)) by (intros native [scope path]; simpl; apply _).
    unfold Binance.fetchLongShortRatios. apply _.
  - unfold Binance.fetchLiquidity. apply _.
Qed.

(** ** Decimal strings *)

(** C40. The text of a finite Number below 10^21 reads as the Number rounded to its places:
    trimming zeros loses nothing. *)
Theorem decimal_text_reads_back shown n dp :
  (S dp <= 15)%nat -> isFinite n = true -> fixedRange n = true ->
  exists text, decimalString shown n (S dp) = inr text /\ stringToNumber text = rounded n (S dp).
Proof.
  intros Hdp Hf Hr. unfold decimalString. rewrite Hf. eexists. split; [done|]. by apply trimDecimal_value.
Qed.

Lemma decimal_text_reads_back_witness :
  let n := ndec 1234500 4 in
  isFinite n = true /\ fixedRange n = true
  /\ exists text, decimalString "" n 8 = inr text /\ stringToNumber text = rounded n 8.
Proof. split; [vm_compute; reflexivity|]. split; [vm_compute; reflexivity|]. apply (decimal_text_reads_back "" _ 7); [lia|vm_compute; reflexivity..]. Defined.

(** From 10^21 on the text has an exponent, and trimming drops a zero of it: 1.5e30 becomes
    1500. *)
Example large_decimal_loses_exponent :
  decimalString "1.5e+30" (decimal false 15 29) 8 = inr "1.5e+3".
Proof. evaluate. Qed.

(** ** Candles *)

(** C36. A window of candles is complete or an error: over a venue that answers a page of klines
    with its bars in order, at most 1500 of them, fetchCandles of an aligned window returns
    every bar of the window, once, in order, read from its row; or it throws, and then what
    the venue answered to the request of some page. *)
Theorem candles_complete {W} (http : HttpOps W) syntaxError req native history s :
  timeRange (cb_from req) -> timeRange (cb_to req) -> (cb_from req <= cb_to req)%Z ->
  (TIMEFRAME_MS (cb_timeframe req) | cb_from req)%Z ->
  cb_assetType req <> "SPOT" -> Binance.PERP_SYMBOLS (cb_symbol req) = Some native ->
  KlineHistory (cb_timeframe req) history ->
  (forall cursor, cursor ∈ cursors (cb_from req) (cb_to req) (Binance.candleWindow (cb_timeframe req)) ->
     serves http syntaxError req native history cursor) ->
  match fst (Binance.fetchCandles syntaxError http req s) with
  | inr candles => Forall2 (barCandle req) (barsIn (cb_from req) (cb_to req) history) candles
  | inl err => exists cursor w,
      cursor ∈ cursors (cb_from req) (cb_to req) (Binance.candleWindow (cb_timeframe req))
      /\ (pageReading http syntaxError req native cursor w = Fatal err
          \/ pageReading http syntaxError req native cursor w = Transient err)
  end.
Proof.
  intros Hf Ht Hft Hg Hspot Hperp Hh Hserves.
  set (E := fun err => exists cursor w,
    cursor ∈ cursors (cb_from req) (cb_to req) (Binance.candleWindow (cb_timeframe req))
    /\ (pageReading http syntaxError req native cursor w = Fatal err
        \/ pageReading http syntaxError req native cursor w = Transient err)).
  cut (wp (Binance.fetchCandles syntaxError http req) (fun r _ => match r with
    | inr candles => Forall2 (barCandle req) (barsIn (cb_from req) (cb_to req) history) candles
    | inl err => E err end) s); [exact id|].
  unfold Binance.fetchCandles. rewrite bool_decide_false by done. unfold Binance.requirePerpSymbol. rewrite Hperp.
  cbn [lift]. apply wp_bind, wp_ret. rewrite (proj2 (Z.ltb_ge _ _)) by done. apply wp_bind.
  assert (0 < Binance.candleWindow (cb_timeframe req))%Z as Hw.
  { pose proof (TIMEFRAME_MS_pos (cb_timeframe req)). unfold Binance.candleWindow, Binance.MAX_BARS_PER_REQUEST. lia. }
  eapply wp_mono.
  - apply (readPages_inv (Binance.candlePage syntaxError http req native) (collected req history) E); [|done| |].
    + intros _. by apply cursors_fuel.
    + split; [done|]. split; [done|]. rewrite barsIn_nil by lia. constructor.
    + intros cursor out s1 Hin Hc. destruct (cursorLoop_elem _ _ _ _ _ Hw Hin) as [Hr _].
      eapply wp_mono; [apply candlePage_step; try done; [lia|by apply Hserves]|].
      intros [err|out'] s2; [|done]. intros [w Hr2]. by exists cursor, w.
  - intros [err|out] s1; [done|]. intros (c & Hc & _ & _ & Hout). apply wp_ret. rewrite Z.min_r in Hout by lia.
    rewrite sortedValues_id; [|by eapply collected_times].
    apply Forall2_fmap_r. eapply Forall2_impl; [exact Hout|]. by intros bar kv [_ ?].
Qed.

(** Three bars of a venue, the last a page after the first. *)
Definition sampleKline (t : Z) (close : string) : Json :=
  J_array [J_number (nint t); J_string "100"; J_string "101.50"; J_string "99"; J_string close; J_string "12.25";
           J_number (nint (t + 59999)); J_string "1225"; J_number (nint 7)].

Definition sampleHistory : list (Z * Json) :=
  [(60000, sampleKline 60000 "100.5"); (90000000, sampleKline 90000000 "100.25"); (90060000, sampleKline 90060000 "99.75")]%Z.

Definition sampleRequest (from to : Z) : CandleBackfillRequest :=
  {| cb_symbol := "BTC-PERP"; cb_assetType := "PERP"; cb_timeframe := M1; cb_from := from; cb_to := to |}.

(** The venue's answers to the pages of a request. *)
Definition sampleAnswers (req : CandleBackfillRequest) : list (string * Fetched) :=
  List.map (fun cursor => (klineUrl "BTCUSDT" (cb_timeframe req) cursor (chunkEnd req cursor),
                           Answered 200 (inr (stringify (klinePage sampleHistory cursor (chunkEnd req cursor))))))
    (cursors (cb_from req) (cb_to req) (Binance.candleWindow (cb_timeframe req))).

Definition sampleFetch (req : CandleBackfillRequest) : ApiError + list NormalizedCandle :=
  fst (Binance.fetchCandles sampleSyntaxError (sampleHttp (sampleAnswers req)) req (0, 0)%Z).

(** The sample venue serves every page of the request from 0. *)
Lemma sample_serves cursor :
  cursor ∈ cursors 0 90100000 (Binance.candleWindow M1) ->
  serves (sampleHttp (sampleAnswers (sampleRequest 0 90100000))) sampleSyntaxError (sampleRequest 0 90100000) "BTCUSDT" sampleHistory cursor.
Proof.
  assert (cursors 0 90100000 (Binance.candleWindow M1) = [0; 90000000]%Z) as -> by evaluate.
  intros [-> | [-> | []%not_elem_of_nil]%elem_of_cons]%elem_of_cons w v; vm_compute; intros [= <-]; reflexivity.
Qed.

Lemma sample_history : KlineHistory M1 sampleHistory.
Proof.
  split.
  - repeat constructor.
  - repeat (apply Forall_cons; split; [split; [by split|]; split; [|evaluate]|]); [| | |constructor].
    + by exists 1%Z.
    + by exists 1500%Z.
    + by exists 1501%Z.
Qed.

Lemma candles_complete_witness :
  let req := sampleRequest 0 90100000 in
  timeRange (cb_from req) /\ (TIMEFRAME_MS (cb_timeframe req) | cb_from req)%Z
  /\ match sampleFetch req with
     | inr candles => Forall2 (barCandle req) (barsIn 0 90100000 sampleHistory) candles
     | inl err => exists cursor w,
         cursor ∈ cursors 0 90100000 (Binance.candleWindow M1)
         /\ (pageReading (sampleHttp (sampleAnswers req)) sampleSyntaxError req "BTCUSDT" cursor w = Fatal err
             \/ pageReading (sampleHttp (sampleAnswers req)) sampleSyntaxError req "BTCUSDT" cursor w = Transient err)
     end.
Proof.
  intros req. split; [by split|]. split; [by exists 0%Z|].
  apply (candles_complete (sampleHttp (sampleAnswers req)) sampleSyntaxError req "BTCUSDT" sampleHistory (0, 0)%Z).
  - by split.
  - by split.
  - by apply Z.leb_le.
  - by exists 0%Z.
  - discriminate.
  - reflexivity.
  - exact sample_history.
  - exact sample_serves.
Defined.

(** That window is answered: all three bars. *)
Example aligned_window_complete :
  match sampleFetch (sampleRequest 0 90100000) with
  | inr candles => List.map nc_ts candles = [60000; 90000000; 90060000]%Z
  | inl _ => False
  end.
Proof. evaluate. Qed.

(** A window that does not start on the grid loses the bar between two pages: the first page
    ends one bar before the next one starts, wherever that is, and the daemon's window starts
    at the time of its start. *)
Example unaligned_window_loses_bar :
  match sampleFetch (sampleRequest 30000 90100000) with
  | inr candles => List.map nc_ts candles = [60000; 90060000]%Z
                   /\ List.map fst (barsIn 30000 90100000 sampleHistory) = [60000; 90000000; 90060000]%Z
  | inl _ => False
  end.
Proof. vm_compute. split; reflexivity. Qed.

(** ** The life of a stream *)

(** The state after an event; an event that cannot happen changes nothing. *)
Definition streamNext (name : string) (st : LiveStream) (event : StreamEvent) : LiveStream :=
  default st (fst <$> streamStep name st event).

Definition aliveSockets (st : LiveStream) : nat :=
  length (List.filter (fun s => negb (bool_decide (so_phase s = Shut))) (lv_sockets st)).

Lemma stream_reachable name st : run (streamNext name) (fun _ => True) (connect freshStream) st -> StreamInv st.
Proof.
  apply run_inv; [exact stream_starts|]. intros st' event H _. unfold streamNext.
  destruct (streamStep name st' event) as [[st1 reports]|] eqn:E; [|done]. simpl. by eapply streamStep_inv.
Qed.

(** C37. Whatever the sockets and timers do, a subscription that was not closed has exactly one
    socket alive or one reconnection pending, never both and never two, with a delay of 1 to
    60 seconds; once closed, nothing is pending and no event opens a socket again. *)
Theorem stream_never_orphaned name st :
  run (streamNext name) (fun _ => True) (connect freshStream) st ->
  (1000 <= lv_reconnectDelayMs st <= 60000)%Z
  /\ (lv_closed st = false -> aliveSockets st + length (lv_timers st) = 1)%nat
  /\ (lv_closed st = true -> lv_timers st = []
      /\ forall event, length (lv_sockets (streamNext name st event)) = length (lv_sockets st)
                       /\ lv_closed (streamNext name st event) = true).
Proof.
  intros H%stream_reachable. pose proof H as [Hd Hinv]. split; [exact Hd|]. split; intros Hc; rewrite Hc in Hinv.
  - destruct Hinv as (pre & s & Es & Hpre & _ & _ & Hcase). unfold aliveSockets. rewrite Es, List.filter_app, length_app.
    assert (List.filter (fun s => negb (bool_decide (so_phase s = Shut))) pre = []) as ->.
    { clear Es. induction Hpre as [|s' l Hs' _ IH]; [done|]. simpl. unfold shut in Hs'. rewrite Hs'. exact IH. }
    destruct Hcase as [(Hs & -> & _)|(Hs & t & -> & _)]; simpl; [by rewrite (bool_decide_false _ Hs)|by rewrite (bool_decide_true _ Hs)].
  - split; [by destruct Hinv|]. intros event. unfold streamNext. destruct (streamStep name st event) as [[st' reports]|] eqn:E; [|done].
    simpl. destruct (closed_step name st event st' reports H Hc E). done.
Qed.

Lemma stream_never_orphaned_witness :
  let st := foldl (streamNext "binance") (connect freshStream) [SocketClose 0 1006; TimerFired 0; SocketOpen 1; SocketClose 1 1006] in
  lv_closed st = false
  /\ (1000 <= lv_reconnectDelayMs st <= 60000)%Z
  /\ (lv_closed st = false -> aliveSockets st + length (lv_timers st) = 1)%nat
  /\ (lv_closed st = true -> lv_timers st = []
      /\ forall event, length (lv_sockets (streamNext "binance" st event)) = length (lv_sockets st)
                       /\ lv_closed (streamNext "binance" st event) = true).
Proof.
  intros st. split; [reflexivity|]. apply (stream_never_orphaned "binance" st).
  apply run_fold. repeat constructor.
Defined.

(** The delays of eight failures in a row: doubled from a second up to a minute. *)
Fixpoint failing (n i : nat) (st : LiveStream) : list Reported :=
  match n with
  | O => []
  | S n =>
      match streamStep "binance" st (SocketClose i 1006) with
      | Some (st, reports) => List.filter (fun r => match r with R_scheduled _ => true | _ => false end) reports
                              ++ failing n (S i) (streamNext "binance" st (TimerFired i))
      | None => []
      end
  end.

Example backoff_delays :
  failing 8 0 (connect freshStream)
  = [R_scheduled 1000; R_scheduled 2000; R_scheduled 4000; R_scheduled 8000; R_scheduled 16000; R_scheduled 32000;
     R_scheduled 60000; R_scheduled 60000].
Proof. evaluate. Qed.

(** ** Option instruments *)

(** C39. The name of an instrument is read back: any underlying, any strike that is a positive
    Number, a call or a put, and any date of this century in the name parse to exactly these
    parts with the expiry at 08:00 of that day, and a day its month does not have is
    refused. *)
Theorem option_name_exact underlying year month day whole fraction call :
  underlying <> "" -> allChars Deribit.isUpper underlying = true ->
  (2000 <= year < 2100)%Z -> (0 <= month < 12)%Z -> (1 <= day <= 31)%Z ->
  digitsText whole -> (forall f, fraction = Some f -> digitsText f) ->
  let strikeNum := stringToNumber (strikeDecimal whole fraction) in
  isFinite strikeNum = true -> nle strikeNum (nint 0) = false ->
  let name := optionName underlying (showZ day) (monthName month) (pad 2 (year - 2000)) whole fraction call in
  let expiry := Deribit.expiryOf year month day in
  Deribit.parseOptionInstrument name
  = (if (day <=? daysInMonth year month)%Z
     then Some {| Deribit.pi_underlying := underlying; Deribit.pi_expiry := expiry; Deribit.pi_strike := strikeDecimal whole fraction;
                  Deribit.pi_strikeNum := strikeNum; Deribit.pi_call := call |}
     else None)
  /\ ((day <= daysInMonth year month)%Z -> civil (expiry / 86400000) = (year, month + 1, day)%Z /\ (expiry mod 86400000 = 8 * 3600000)%Z).
Proof.
  intros Hu Hud Hy Hm Hd Hw Hf strikeNum Hfin Hpos name expiry.
  destruct (dayText day Hd) as (Hdt & Hdl & Hdv), (yearText (year - 2000) ltac:(lia)) as (Hyt & Hyl & Hyv),
    (monthText month Hm) as (Hmt & Hmu & Hml & mname & Hfind).
  pose proof (calendar year month day Hy Hm Hd) as Hcal. unfold calendarOk in Hcal. cbv zeta in Hcal. fold expiry in Hcal.
  unfold Deribit.parseOptionInstrument, name. rewrite parseName_name by done. cbn [Deribit.pm_month Deribit.pm_day Deribit.pm_year].
  rewrite Hfind, Hdv, Hyv. replace (2000 + (year - 2000))%Z with year by lia. cbv zeta. fold expiry.
  destruct (civil (expiry / 86400000)) as [[y m] d]. cbn [Deribit.pm_strike Deribit.pm_underlying Deribit.pm_call]. fold strikeNum.
  destruct (Z.leb_spec day (daysInMonth year month)); bool_hyps.
  - assert (y = year /\ m = month + 1 /\ d = day)%Z as (-> & -> & ->) by lia. split; [|intros _; split; [done|lia]].
    rewrite Z.eqb_refl. replace (month + 1 - 1 =? month)%Z with true by lia. by rewrite Hfin, Hpos.
  - split; [|lia]. by rewrite Hcal.
Qed.

Lemma option_name_exact_witness :
  let name := optionName "BTC" (showZ 29) (monthName 1) (pad 2 (2028 - 2000)) "100000" (Some "5") true in
  name = "BTC-29FEB28-100000d5-C"
  /\ Deribit.parseOptionInstrument name
     = Some {| Deribit.pi_underlying := "BTC"; Deribit.pi_expiry := Deribit.expiryOf 2028 1 29; Deribit.pi_strike := "100000.5";
               Deribit.pi_strikeNum := stringToNumber "100000.5"; Deribit.pi_call := true |}.
Proof.
  split; [reflexivity|].
  refine (proj1 (option_name_exact "BTC" 2028 1 29 "100000" (Some "5") true _ _ _ _ _ _ _ _ _)).
  - discriminate.
  - reflexivity.
  - by split.
  - by split.
  - by split.
  - by split.
  - intros f [= <-]. by split.
  - vm_compute. reflexivity.
  - vm_compute. reflexivity.
Defined.

(** ** The streams of Deribit *)

(** The ticker's quote is not checked to be uncrossed, as the order book is. *)
Definition sampleTicker : string :=
  stringify (J_object [("method", J_string "subscription");
    ("params", J_object [("channel", J_string "ticker.BTC-PERPETUAL.100ms");
      ("data", J_object [("timestamp", J_number (nint 60000)); ("best_bid_price", J_number (nint 101)); ("best_ask_price", J_number (nint 100))])])]).

Definition everyHandler : LiveHandlers := {| lh_onCandle := true; lh_onTrade := true; lh_onQuote := true; lh_onFunding := true |}.

Definition sampleStream : LiveStreamRequest := {| lr_symbols := [("BTC-PERP", "PERP")]; lr_timeframe := M1 |}.

Example crossed_quote_passes :
  match Deribit.hd_calls (Deribit.handleMessage everyHandler M1 (Deribit.channelMeta sampleStream everyHandler) true 1 sampleTicker) with
  | [OnQuote q] => nq_bestBid q = "101" /\ nq_bestAsk q = "100" /\ nq_spreadBps q = Some "-99.5025"
  | _ => False
  end.
Proof. vm_compute. repeat split. Qed.

(** A null among the prints of a batch ends the batch: the print after it is not handed on. *)
Definition samplePrint (id : string) : Json :=
  J_object [("trade_id", J_string id); ("price", J_number (nint 100)); ("amount", J_number (nint 50)); ("timestamp", J_number (nint 60000));
            ("direction", J_string "sell")].

Example malformed_print_ends_batch :
  let batch := Deribit.handleTradesData everyHandler {| Deribit.ci_symbol := "BTC-PERP"; Deribit.ci_assetType := "PERP"; Deribit.ci_kind := Deribit.K_trades |}
                 (J_array [samplePrint "1"; J_null; samplePrint "2"]) in
  List.map (fun call => match call with OnTrade t => nk_tradeId t | _ => "" end) (fst batch) = ["1"] /\ snd batch = Some TypeError.
Proof. vm_compute. split; reflexivity. Qed.
