(* ===== verification/MarketOrder.v ===== *)
(** * MarketOrder: orders, their lifecycle and the brokers

    services/workers/src/market: the order types of types.ts, order.ts (deriveOrder and
    the state machine reduceOrder, which throws a message) and broker.ts. *)

From S2P Require Import Prelude JsNumber JsText JsDecimal Json StageTypes MarketState Portfolio.

Local Open Scope string_scope.
Local Open Scope list_scope.

(** ** types.ts *)

Inductive OrderState :=
| OR_REQUESTED | OR_SUBMITTED | OR_ACCEPTED | OR_PARTIALLY_FILLED | OR_FILLED | OR_CANCELLED | OR_REJECTED.

#[export] Instance OrderState_eq_dec : EqDecision OrderState.
Proof. solve_decision. Defined.

Definition showOrderState (s : OrderState) : string :=
  match s with
  | OR_REQUESTED => "REQUESTED" | OR_SUBMITTED => "SUBMITTED" | OR_ACCEPTED => "ACCEPTED"
  | OR_PARTIALLY_FILLED => "PARTIALLY_FILLED" | OR_FILLED => "FILLED" | OR_CANCELLED => "CANCELLED"
  | OR_REJECTED => "REJECTED"
  end.

Record OrderFillData := { fd_fillQty : string; fd_fillPrice : string; fd_cumQty : string }.

(** The seven kinds, with what each adds to the base fields. *)
Inductive OrderEventKind :=
| ORDER_REQUESTED | ORDER_SUBMITTED | ORDER_ACCEPTED
| ORDER_PARTIALLY_FILLED (data : OrderFillData) | ORDER_FILLED (data : OrderFillData)
| ORDER_CANCELLED (reason : string) | ORDER_REJECTED (reason : string).

Record OrderEvent := {
  oe_kind : OrderEventKind;
  oe_seq : number;
  oe_orderId : string;
  oe_intentId : string;
  oe_symbol : string;
  oe_side : OrderSide;
  oe_brokerId : string;
  oe_lineage : ExecutionLineage
}.

Record OrderSnapshot := {
  os_orderId : string;
  os_symbol : string;
  os_side : OrderSide;
  os_orderedQty : string;
  os_state : OrderState;
  os_filledQty : string;
  os_avgFillPrice : string;
  os_fills : list Fill;
  os_events : list OrderEvent
}.

(** ** order.ts *)

Section derive.
Context (sha256_16 : string -> string).

Definition deriveOrder (intentId symbol : string) (side : OrderSide) (qty price : number)
    (brokerId : string) (lineage : ExecutionLineage) : Order :=
  let qty := quantizeQty qty in
  let price := quantizePrice price in
  let orderId := deterministicId sha256_16 [
    ("intentId", J_string intentId);
    ("symbol", J_string symbol);
    ("side", J_string (showOrderSide side));
    ("qty", J_string qty);
    ("price", J_string price);
    ("brokerId", J_string brokerId)
  ] in
  {|
    or_orderId := orderId; or_intentId := intentId; or_symbol := symbol; or_side := side;
    or_qty := qty; or_price := price; or_brokerId := brokerId; or_lineage := lineage
  |}.
End derive.

Definition showKind (k : OrderEventKind) : string :=
  match k with
  | ORDER_REQUESTED => "ORDER_REQUESTED" | ORDER_SUBMITTED => "ORDER_SUBMITTED" | ORDER_ACCEPTED => "ORDER_ACCEPTED"
  | ORDER_PARTIALLY_FILLED _ => "ORDER_PARTIALLY_FILLED" | ORDER_FILLED _ => "ORDER_FILLED"
  | ORDER_CANCELLED _ => "ORDER_CANCELLED" | ORDER_REJECTED _ => "ORDER_REJECTED"
  end.

Definition STATE_OF (k : OrderEventKind) : OrderState :=
  match k with
  | ORDER_REQUESTED => OR_REQUESTED | ORDER_SUBMITTED => OR_SUBMITTED | ORDER_ACCEPTED => OR_ACCEPTED
  | ORDER_PARTIALLY_FILLED _ => OR_PARTIALLY_FILLED | ORDER_FILLED _ => OR_FILLED
  | ORDER_CANCELLED _ => OR_CANCELLED | ORDER_REJECTED _ => OR_REJECTED
  end.

(** A state before a transition; [None] is START. *)
Definition ReducerState : Type := option OrderState.

Definition showReducerState (s : ReducerState) : string :=
  match s with Some s => showOrderState s | None => "START" end.

Definition LEGAL_FROM (s : OrderState) : list ReducerState :=
  match s with
  | OR_REQUESTED => [None]
  | OR_SUBMITTED => [Some OR_REQUESTED]
  | OR_ACCEPTED => [Some OR_SUBMITTED]
  | OR_PARTIALLY_FILLED => [Some OR_ACCEPTED; Some OR_PARTIALLY_FILLED]
  | OR_FILLED => [Some OR_ACCEPTED; Some OR_PARTIALLY_FILLED]
  | OR_CANCELLED => [Some OR_REQUESTED; Some OR_SUBMITTED; Some OR_ACCEPTED; Some OR_PARTIALLY_FILLED]
  | OR_REJECTED => [Some OR_REQUESTED; Some OR_SUBMITTED; Some OR_ACCEPTED]
  end.

Definition TERMINAL (s : ReducerState) : bool :=
  match s with Some OR_FILLED | Some OR_CANCELLED | Some OR_REJECTED => true | _ => false end.

(** isFillEvent, with the fill's economics. *)
Definition fillData (e : OrderEvent) : option OrderFillData :=
  match oe_kind e with
  | ORDER_PARTIALLY_FILLED data | ORDER_FILLED data => Some data
  | _ => None
  end.

Definition fillOf (e : OrderEvent) (data : OrderFillData) : Fill := {|
  fl_orderId := oe_orderId e;
  fl_intentId := oe_intentId e;
  fl_symbol := oe_symbol e;
  fl_side := oe_side e;
  fl_qty := fd_fillQty data;
  fl_price := fd_fillPrice data;
  fl_lineage := oe_lineage e
|}.

(** 1e-9 *)
Definition FILL_EPSILON : number := ndec 1 9.

(** What the loop carries: the state, the filled quantity and the fills. *)
Record OrderFold := { of_state : ReducerState; of_filled : number; of_fills : list Fill }.

Definition foldStart : OrderFold := {| of_state := None; of_filled := nint 0; of_fills := [] |}.

Section reduce.
Context (order : Order).

Definition orderedQty : number := parseDecimal (or_qty order).

(** The start of every message. *)
Definition orderError (text : string) : string := "order " +:+ or_orderId order +:+ ": " +:+ text.

(** The checks of a fill: why it is refused, or nothing. *)
Definition fillError (filled : number) (e : OrderEvent) (data : OrderFillData) : option string :=
  let fq := parseDecimal (fd_fillQty data) in
  let cum := parseDecimal (fd_cumQty data) in
  let expectedCum := quantizeQty (nadd filled fq) in
  let complete := nle (nabs (nsub cum orderedQty)) FILL_EPSILON in
  if negb (ngt fq (nint 0)) then Some (orderError ("non-positive fillQty " +:+ fd_fillQty data))
  else if negb (bool_decide (quantizeQty cum = expectedCum)) then
    Some (orderError ("cumQty " +:+ fd_cumQty data +:+ " != running " +:+ expectedCum))
  else if ngt cum (nadd orderedQty FILL_EPSILON) then
    Some (orderError ("cumQty " +:+ fd_cumQty data +:+ " exceeds ordered " +:+ or_qty order +:+ " (overfill)"))
  else match oe_kind e with
  | ORDER_FILLED _ =>
      if negb complete then
        Some (orderError ("ORDER_FILLED at cumQty " +:+ fd_cumQty data +:+ " != ordered " +:+ or_qty order))
      else None
  | _ =>
      if complete then Some (orderError "ORDER_PARTIALLY_FILLED completes the order (use ORDER_FILLED)")
      else None
  end.

(** The checks of every event, in their order. *)
Definition eventError (i : nat) (state : ReducerState) (e : OrderEvent) : option string :=
  let at_ := "event " +:+ showZ (Z.of_nat i) in
  let next := STATE_OF (oe_kind e) in
  if negb (neq (oe_seq e) (nint (Z.of_nat i))) then
    Some (orderError (at_ +:+ " has seq " +:+ numToString (oe_seq e) +:+ " (expected " +:+ showZ (Z.of_nat i)
      +:+ ") — non-monotonic stream"))
  else if negb (bool_decide (oe_orderId e = or_orderId order)) then
    Some (orderError (at_ +:+ " belongs to order " +:+ oe_orderId e))
  else if TERMINAL state then
    Some (orderError ("event " +:+ showKind (oe_kind e) +:+ " after terminal state " +:+ showReducerState state))
  else if negb (bool_decide (state ∈ LEGAL_FROM next)) then
    Some (orderError ("illegal transition " +:+ showReducerState state +:+ " -> " +:+ showOrderState next
      +:+ " (" +:+ showKind (oe_kind e) +:+ ")"))
  else None.

Definition reduceEvent (i : nat) (st : OrderFold) (e : OrderEvent) : string + OrderFold :=
  match eventError i (of_state st) e with
  | Some message => inl message
  | None =>
      let next := Some (STATE_OF (oe_kind e)) in
      match fillData e with
      | None => inr {| of_state := next; of_filled := of_filled st; of_fills := of_fills st |}
      | Some data =>
          match fillError (of_filled st) e data with
          | Some message => inl message
          | None => inr {|
              of_state := next;
              of_filled := nadd (of_filled st) (parseDecimal (fd_fillQty data));
              of_fills := of_fills st ++ [fillOf e data] |}
          end
      end
  end.

Fixpoint reduceEvents (i : nat) (st : OrderFold) (events : list OrderEvent) : string + OrderFold :=
  match events with
  | [] => inr st
  | e :: events =>
      match reduceEvent i st e with
      | inl message => inl message
      | inr st => reduceEvents (S i) st events
      end
  end.

Definition reduceOrder (events : list OrderEvent) : string + OrderSnapshot :=
  match reduceEvents 0 foldStart events with
  | inl message => inl message
  | inr st =>
      match of_state st with
      | None => inl (orderError "empty event stream")
      | Some state =>
          let notional :=
            foldl (fun acc f => nadd acc (nmul (parseDecimal (fl_qty f)) (parseDecimal (fl_price f)))) (nint 0) (of_fills st) in
          inr {|
            os_orderId := or_orderId order;
            os_symbol := or_symbol order;
            os_side := or_side order;
            os_orderedQty := quantizeQty orderedQty;
            os_state := state;
            os_filledQty := quantizeQty (of_filled st);
            os_avgFillPrice :=
              if ngt (of_filled st) (nint 0) then quantizePrice (ndiv notional (of_filled st)) else quantizePrice (nint 0);
            os_fills := of_fills st;
            os_events := events
          |}
      end
  end.
End reduce.

(** ** broker.ts *)

Definition floor8 (n : number) : number := ndiv (nfloor (nmul n (nint 100000000))) (nint 100000000).

Definition baseEvent (order : Order) (kind : OrderEventKind) (seq : nat) : OrderEvent := {|
  oe_kind := kind;
  oe_seq := nint (Z.of_nat seq);
  oe_orderId := or_orderId order;
  oe_intentId := or_intentId order;
  oe_symbol := or_symbol order;
  oe_side := or_side order;
  oe_brokerId := or_brokerId order;
  oe_lineage := or_lineage order
|}.

Definition slippedPrice (price : number) (side : OrderSide) (bps : Z) : number :=
  let slip := ndiv (nint bps) (nint 10000) in
  let factor := match side with BUY => nadd (nint 1) slip | SELL => nsub (nint 1) slip end in
  nmul price factor.

(** A broker's place is a message it throws or the stream. *)
Definition PaperBroker (order : Order) : string + list OrderEvent :=
  inr [
    baseEvent order ORDER_REQUESTED 0;
    baseEvent order ORDER_SUBMITTED 1;
    baseEvent order ORDER_ACCEPTED 2;
    baseEvent order (ORDER_FILLED {| fd_fillQty := or_qty order; fd_fillPrice := or_price order; fd_cumQty := or_qty order |}) 3
  ].

(** The fills of the schedule: [todo] more after the i-th, with cum filled so far. *)
Fixpoint simulatedFills (order : Order) (qty price chunk : number) (todo i : nat) (cum : number) (seq : nat) : list OrderEvent :=
  let last := match todo with O => true | S _ => false end in
  let fq := if last then nsub qty cum else chunk in
  let bps := (hash32 (or_orderId order +:+ ":slip:" +:+ showZ (Z.of_nat i)) mod 25)%Z in
  let fillPrice := quantizePrice (slippedPrice price (or_side order) bps) in
  let cum := nadd cum fq in
  let data := {| fd_fillQty := quantizeQty fq; fd_fillPrice := fillPrice; fd_cumQty := quantizeQty cum |} in
  match todo with
  | O => [baseEvent order (ORDER_FILLED data) seq]
  | S todo =>
      baseEvent order (ORDER_PARTIALLY_FILLED data) seq
      :: simulatedFills order qty price chunk todo (S i) cum (S seq)
  end.

Definition SimulatedBroker (order : Order) : string + list OrderEvent :=
  let requested := baseEvent order ORDER_REQUESTED 0 in
  let submitted := baseEvent order ORDER_SUBMITTED 1 in
  if (Z.land (hash32 (or_orderId order +:+ ":reject")) 63 =? 0)%Z then
    inr [requested; submitted; baseEvent order (ORDER_REJECTED "simulated venue reject") 2]
  else
    let accepted := baseEvent order ORDER_ACCEPTED 2 in
    let qty := parseDecimal (or_qty order) in
    let price := parseDecimal (or_price order) in
    let parts := (1 + hash32 (or_orderId order +:+ ":parts") mod 3)%Z in
    let chunk := floor8 (ndiv qty (nint parts)) in
    let parts := if (1 <? parts)%Z && negb (ngt chunk (nint 0)) then 1%Z else parts in
    inr ([requested; submitted; accepted]
         ++ simulatedFills order qty price chunk (Z.to_nat (parts - 1)) 0 (nint 0) 3).

Definition RealBroker (order : Order) : string + list OrderEvent :=
  inl "RealBroker is interface-only — no live venue transport is wired (use createRealBroker)".

(** resolveBroker: the id of the broker and its place. *)
Definition resolveBroker (id : string) : string * (Order -> string + list OrderEvent) :=
  if bool_decide (id = "simulated") then ("simulated", SimulatedBroker)
  else if bool_decide (id = "real") then ("real", RealBroker)
  else ("paper", PaperBroker).
