(* ===== verification/MarketStage.v ===== *)
(** * MarketStage: the market execution adapter

    services/workers/src/market: market-data.ts (the quote providers), reconcile.ts and
    stage.ts (MarketExecutionAdapter.execute).  The adapter's fields that change are the
    first component of the state; the providers, the broker, the bus and the journal are
    operations over an outside world W, and each may throw. *)

From stdpp Require Import gmap.
From S2P Require Import Prelude JsNumber JsText JsDecimal Json Effects StageTypes MarketState Portfolio MarketOrder.

Local Open Scope string_scope.
Local Open Scope list_scope.
Local Open Scope eff_scope.

(** ** market-data.ts *)

Definition normalize (q : Quote) : Quote :=
  {| qt_symbol := qt_symbol q; qt_ts := qt_ts q; qt_price := quantizePrice (stringToNumber (qt_price q)) |}.

Section data.
Context (localeCompare : string -> string -> comparison).

Definition compareQuotes (a b : Quote) : comparison :=
  orElse (localeCompare (qt_ts a) (qt_ts b)) (localeCompare (qt_price a) (qt_price b)).

Definition buildStore (quotes : list Quote) : gmap string (list Quote) :=
  sortBy compareQuotes <$>
    foldl (fun (bySymbol : gmap string (list Quote)) raw =>
      let q := normalize raw in
      <[qt_symbol q := default [] (bySymbol !! qt_symbol q) ++ [q]]> bySymbol) ∅ quotes.

(** The last quote at or before asOf, scanning from the end. *)
Definition asOfLookup (store : gmap string (list Quote)) (symbol : string) (asOf : option string) : option Quote :=
  match store !! symbol with
  | None => None
  | Some list =>
      match asOf with
      | None => last list
      | Some asOf => List.find (fun q => strLeb (qt_ts q) asOf) (rev list)
      end
  end.

(** A provider's quote: a message it throws, or the quote if it has one. *)
Definition HistoricalProvider (quotes : list Quote) (symbol : string) (asOf : option string) : string + option Quote :=
  inr (asOfLookup (buildStore quotes) symbol asOf).

Definition ReplayProvider (recordedLog : list Quote) (symbol : string) (asOf : option string) : string + option Quote :=
  inr (asOfLookup (buildStore recordedLog) symbol asOf).
End data.

Definition RealtimeProvider (transport : option (string -> option Quote)) (symbol : string) (asOf : option string) :
    string + option Quote :=
  match transport with
  | None => inl "RealtimeProvider is interface-only — no live market-data feed transport is wired"
  | Some latest => inr (normalize <$> latest symbol)
  end.

(** ** reconcile.ts *)

Record ReconciliationMismatch := {
  rm_symbol : string;
  rm_brokerNotional : string;
  rm_brokerSide : PositionSide;
  rm_portfolioNotional : string;
  rm_portfolioSide : PositionSide;
  rm_detail : string
}.

Inductive ReconciliationVerdict :=
| Reconciled (checked : nat)
| Mismatched (checked : nat) (mismatches : list ReconciliationMismatch) (detail : string).

(** 0.01 *)
Definition DEFAULT_RECONCILIATION_TOLERANCE : number := ndec 1 2.

Definition sideOfExecution (s : ExecutionSide) : PositionSide := match s with LONG => PS_LONG | SHORT => PS_SHORT end.

(** The check of one symbol. *)
Definition reconcileSymbol (broker : MarketState) (portfolio : PortfolioState) (tolerance : number) (symbol : string) :
    option ReconciliationMismatch :=
  let bPos := ms_positions broker !! symbol in
  let pPos := ps_positions portfolio !! symbol in
  let bNotional := match bPos with Some p => positionNotional p | None => nint 0 end in
  let pNotional := match pPos with Some p => parseDecimal (pp_notional p) | None => nint 0 end in
  let bFlat := nle bNotional tolerance in
  let pFlat := nle pNotional tolerance in
  let bSide := match bPos with Some p => if bFlat then PS_FLAT else positionSide p | None => PS_FLAT end in
  let pSide := match pPos with Some p => if pFlat then PS_FLAT else sideOfExecution (pp_side p) | None => PS_FLAT end in
  let notionalGap := nabs (nsub bNotional pNotional) in
  let sideMismatch := negb bFlat && negb pFlat && negb (bool_decide (bSide = pSide)) in
  if ngt notionalGap tolerance || sideMismatch then Some {|
    rm_symbol := symbol;
    rm_brokerNotional := quantizeNotional bNotional;
    rm_brokerSide := bSide;
    rm_portfolioNotional := quantizeNotional pNotional;
    rm_portfolioSide := pSide;
    rm_detail :=
      if sideMismatch then "side " +:+ showPositionSide bSide +:+ " (broker) != " +:+ showPositionSide pSide +:+ " (portfolio)"
      else "notional gap " +:+ toFixed notionalGap 2 +:+ " > tolerance " +:+ numToString tolerance |}
  else None.

(** The symbols of either side, sorted. *)
Definition reconcileSymbols (broker : MarketState) (portfolio : PortfolioState) : list string :=
  sortStrings (elements (dom (ms_positions broker) ∪ dom (ps_positions portfolio) : gset string)).

Definition reconcile (broker : MarketState) (portfolio : PortfolioState) (tolerance : number) : ReconciliationVerdict :=
  let symbols := reconcileSymbols broker portfolio in
  match omap (reconcileSymbol broker portfolio tolerance) symbols with
  | [] => Reconciled (length symbols)
  | mismatches => Mismatched (length symbols) mismatches
      (showZ (Z.of_nat (length mismatches)) +:+ " symbol(s) failed broker<->portfolio reconciliation")
  end.

(** ** The journal's record (event-store.ts) and the bus's event (types.ts) *)

Record MarketJournalInput := {
  mj_intentId : string;
  mj_symbol : string;
  mj_orderEvents : list OrderEvent;
  mj_result : ExecutionResult;
  mj_position : Position;
  mj_account : Account
}.

Record MarketJournalRecord := { mr_input : MarketJournalInput; mr_seq : nat }.

Inductive MarketStageEvent :=
| MARKET_DATA (quote : Quote) (providerMode : ProviderMode)
| ORDER (event : OrderEvent)
| POSITION_UPDATED (position : Position) (lineage : ExecutionLineage)
| ACCOUNT_UPDATED (valuation : AccountValuation)
| RECONCILIATION_FAILED (verdict : ReconciliationVerdict).

(** ** stage.ts *)

Record MarketOps (X W : Type) := {
  mo_brokerId : string;
  mo_place : Order -> M X W (list OrderEvent);
  mo_mode : ProviderMode;
  mo_quote : string -> M X W (option Quote);
  mo_publish : MarketStageEvent -> M X W unit;
  mo_eventStore : option (MarketJournalInput -> M X W MarketJournalRecord)
}.
Arguments mo_brokerId {X W}.
Arguments mo_place {X W}.
Arguments mo_mode {X W}.
Arguments mo_quote {X W}.
Arguments mo_publish {X W}.
Arguments mo_eventStore {X W}.

(** The fields of the adapter that execute changes. *)
Record AdapterState := { as_marketState : MarketState; as_portfolioMirror : PortfolioState }.

Definition showOrderStateLower (s : OrderState) : string :=
  match s with
  | OR_REQUESTED => "requested" | OR_SUBMITTED => "submitted" | OR_ACCEPTED => "accepted"
  | OR_PARTIALLY_FILLED => "partially_filled" | OR_FILLED => "filled" | OR_CANCELLED => "cancelled"
  | OR_REJECTED => "rejected"
  end.

Section stage.
Context {X W : Type} (errMsg : X -> string) (sha256_16 : string -> string).
Context (ops : MarketOps X W) (accountConfig : AccountConfig) (tolerance : number).

Definition adapterId : string := "market:" +:+ mo_brokerId ops.

(** A rejected result. *)
Definition reject (intent : ExecutionIntent) (detail : string) : ExecutionResult := {|
  xr_intentId := xi_intentId intent;
  xr_symbol := xi_symbol intent;
  xr_side := xi_side intent;
  xr_status := REJECTED;
  xr_adapterId := adapterId;
  xr_filledNotional := "0.00";
  xr_detail := detail;
  xr_lineage := xi_lineage intent
|}.

(** A filled result at a position: its side (the intent's when flat) and its notional. *)
Definition filledAt (intent : ExecutionIntent) (position : Position) (detail : string) : ExecutionResult := {|
  xr_intentId := xi_intentId intent;
  xr_symbol := xi_symbol intent;
  xr_side := match positionSide position with PS_FLAT => xi_side intent | PS_SHORT => SHORT | PS_LONG => LONG end;
  xr_status := FILLED;
  xr_adapterId := adapterId;
  xr_filledNotional := positionNotionalString position;
  xr_detail := detail;
  xr_lineage := xi_lineage intent
|}.

(** Step 1: the reference price and the time of its quote, or why there is none. *)
Definition referencePrice (intent : ExecutionIntent) : M X W (string + number * string) :=
  catch
    (let! quote := mo_quote ops (xi_symbol intent) in
     match quote with
     | None => ret (inl "no market data — no price, no execution")
     | Some quote =>
         let price := parseDecimal (qt_price quote) in
         if negb (ngt price (nint 0)) then ret (inl ("invalid reference price " +:+ qt_price quote))
         else
           do! mo_publish ops (MARKET_DATA quote (mo_mode ops)) in
           ret (inr (price, qt_ts quote))
     end)
    (fun err => ret (inl ("market data error: " +:+ errMsg err))).

Definition priorPosition (state : AdapterState) (intent : ExecutionIntent) : Position :=
  default (flatPosition (xi_symbol intent)) (ms_positions (as_marketState state) !! xi_symbol intent).

(** Step 2: the signed quantity that moves a position to the intent's target at a price. *)
Definition deltaSignedQty (prior : Position) (intent : ExecutionIntent) (price : number) : number :=
  let target := parseDecimal (xi_targetNotional intent) in
  let targetSignedQty := nmul (signOf (xi_side intent)) (ndiv target price) in
  nsub targetSignedQty (parseDecimal (mp_netQty prior)).

Definition orderFor (intent : ExecutionIntent) (delta price : number) : Order :=
  deriveOrder sha256_16 (xi_intentId intent) (xi_symbol intent)
    (if nge delta (nint 0) then BUY else SELL) (nabs delta) price (mo_brokerId ops) (xi_lineage intent).

(** Step 7b: append to the journal, if there is one; the message of a failed append. *)
Definition journal (input : MarketJournalInput) : M X W (option string) :=
  match mo_eventStore ops with
  | None => ret None
  | Some append =>
      catch (let! _ := append input in ret None)
        (fun err => ret (Some ("durable journal write failed: " +:+ errMsg err)))
  end.

(** Steps 5 to 8: the candidate state, reconciliation, the journal and the commit. *)
Definition settle (intent : ExecutionIntent) (events : list OrderEvent) (snapshot : OrderSnapshot) (prior : Position) :
    M X (AdapterState * W) ExecutionResult :=
  let! state := gets fst in
  let candidate := foldl applyFillToMarketState (as_marketState state) (os_fills snapshot) in
  match os_fills snapshot with
  | [] => ret (reject intent ("order " +:+ showOrderStateLower (os_state snapshot) +:+ " with no fills via "
            +:+ mo_brokerId ops))
  | _ =>
      let candidatePos := default prior (ms_positions candidate !! xi_symbol intent) in
      let result := filledAt intent candidatePos
        (showOrderState (os_state snapshot) +:+ " via " +:+ mo_brokerId ops +:+ " ("
         +:+ showZ (Z.of_nat (length (os_fills snapshot))) +:+ " fill(s), avg " +:+ os_avgFillPrice snapshot +:+ ")") in
      let candidateMirror := applyResult (as_portfolioMirror state) result in
      match reconcile candidate candidateMirror tolerance with
      | Mismatched checked mismatches detail =>
          do! onWorld (mo_publish ops (RECONCILIATION_FAILED (Mismatched checked mismatches detail))) in
          ret (reject intent ("reconciliation failed: " +:+ detail))
      | Reconciled _ =>
          let! failed := onWorld (journal {|
            mj_intentId := xi_intentId intent;
            mj_symbol := xi_symbol intent;
            mj_orderEvents := events;
            mj_result := result;
            mj_position := candidatePos;
            mj_account := ms_account candidate |}) in
          match failed with
          | Some detail => ret (reject intent detail)
          | None =>
              do! modify (fun s => ({| as_marketState := candidate; as_portfolioMirror := candidateMirror |}, snd s)) in
              do! onWorld (mo_publish ops (POSITION_UPDATED candidatePos (xi_lineage intent))) in
              do! onWorld (mo_publish ops (ACCOUNT_UPDATED
                    (valuateAccount (ms_account candidate) (ms_positions candidate) accountConfig))) in
              ret result
          end
      end
  end.

(** Steps 3 and 4: the broker's stream, through the state machine. *)
Definition placeOrder (intent : ExecutionIntent) (order : Order) (prior : Position) :
    M X (AdapterState * W) ExecutionResult :=
  let! placed := onWorld (catch (let! events := mo_place ops order in ret (inr events))
                    (fun err => ret (inl ("broker error: " +:+ errMsg err)))) in
  match placed with
  | inl detail => ret (reject intent detail)
  | inr events =>
      match reduceOrder order events with
      | inl message => ret (reject intent ("order lifecycle error: " +:+ message))
      | inr snapshot =>
          do! onWorld (forEach (fun event => mo_publish ops (ORDER event)) events) in
          settle intent events snapshot prior
      end
  end.

Definition execute (intent : ExecutionIntent) : M X (AdapterState * W) ExecutionResult :=
  let! reference := onWorld (referencePrice intent) in
  match reference with
  | inl detail => ret (reject intent detail)
  | inr (price, quoteTs) =>
      let! state := gets fst in
      let prior := priorPosition state intent in
      let delta := deltaSignedQty prior intent price in
      if bool_decide (quantizeQty (nabs delta) = quantizeQty (nint 0)) then
        let result := filledAt intent prior ("already at target net (no-op) at " +:+ quoteTs) in
        do! modify (fun s => ({| as_marketState := as_marketState (fst s);
                                 as_portfolioMirror := applyResult (as_portfolioMirror (fst s)) result |}, snd s)) in
        ret result
      else placeOrder intent (orderFor intent delta price) prior
  end.

Definition accountValuation (state : AdapterState) : AccountValuation :=
  valuateAccount (ms_account (as_marketState state)) (ms_positions (as_marketState state)) accountConfig.

Definition reconcileWith (state : AdapterState) (portfolio : PortfolioState) : ReconciliationVerdict :=
  reconcile (as_marketState state) portfolio tolerance.
End stage.
