(* ===== verification/MarketJournal.v ===== *)
(** * MarketJournal: the market journal and recovery

    services/workers/src/market: event-store.ts (admission of a parsed record, the
    in-memory and the file store) and recovery.ts; then the outside world of an adapter
    that journals to such a store. *)

From stdpp Require Import gmap.
From S2P Require Import Prelude JsNumber JsText JsDecimal Json Effects Journal StageTypes MarketState Portfolio.
From S2P Require Import RiskModel RiskJournal MarketOrder MarketStage.

Local Open Scope string_scope.
Local Open Scope list_scope.
Local Open Scope eff_scope.

(** ** The JSON of a record *)

Definition fillDataJson (d : OrderFillData) : list (string * Json) := [
  ("fillQty", J_string (fd_fillQty d));
  ("fillPrice", J_string (fd_fillPrice d));
  ("cumQty", J_string (fd_cumQty d))
].

Definition orderEventJson (e : OrderEvent) : Json :=
  J_object ([
    ("kind", J_string (showKind (oe_kind e)));
    ("seq", J_number (oe_seq e));
    ("orderId", J_string (oe_orderId e));
    ("intentId", J_string (oe_intentId e));
    ("symbol", J_string (oe_symbol e));
    ("side", J_string (showOrderSide (oe_side e)));
    ("brokerId", J_string (oe_brokerId e));
    ("lineage", lineageJson (oe_lineage e))
  ] ++ match oe_kind e with
    | ORDER_PARTIALLY_FILLED d | ORDER_FILLED d => fillDataJson d
    | ORDER_CANCELLED reason | ORDER_REJECTED reason => [("reason", J_string reason)]
    | _ => []
    end).

Definition positionJson (p : Position) : Json := J_object [
  ("symbol", J_string (mp_symbol p));
  ("netQty", J_string (mp_netQty p));
  ("avgEntryPrice", J_string (mp_avgEntryPrice p));
  ("realizedPnl", J_string (mp_realizedPnl p));
  ("markPrice", J_string (mp_markPrice p))
].

Definition accountJson (a : Account) : Json := J_object [
  ("cashBalance", J_string (ac_cashBalance a));
  ("realizedPnl", J_string (ac_realizedPnl a))
].

(** [{ ...input, seq }] *)
Definition marketRecordJson (r : MarketJournalRecord) : Json :=
  let i := mr_input r in
  J_object [
    ("intentId", J_string (mj_intentId i));
    ("symbol", J_string (mj_symbol i));
    ("orderEvents", J_array (List.map orderEventJson (mj_orderEvents i)));
    ("result", resultJson (mj_result i));
    ("position", positionJson (mj_position i));
    ("account", accountJson (mj_account i));
    ("seq", J_number (nint (Z.of_nat (mr_seq r))))
  ].

(** ** Admission *)

Definition isNonEmptyString (v : Json) : bool := match v with J_string s => negb (bool_decide (s = "")) | _ => false end.

Definition ORDER_EVENT_KINDS : list string := [
  "ORDER_REQUESTED"; "ORDER_SUBMITTED"; "ORDER_ACCEPTED"; "ORDER_PARTIALLY_FILLED"; "ORDER_FILLED";
  "ORDER_CANCELLED"; "ORDER_REJECTED"
].

(** A check that a value is a non-empty string, a canonical decimal, an object. *)
Definition needText (name : string) (v : Json) : bool * string :=
  (negb (isNonEmptyString v), name +:+ " missing or empty").
Definition needDecimal (name : string) (dp : nat) (v : Json) : bool * string :=
  (negb (isCanonicalDecimal v dp), name +:+ " is not a canonical " +:+ showZ (Z.of_nat dp) +:+ "dp decimal string").
Definition needObject (name : string) (v : Json) : bool * string :=
  (negb (isPlainObject v), name +:+ " is not a JSON object").

(** The checks of the j-th order event. *)
Definition eventTests (j : nat) (e : Json) : list (bool * string) :=
  let at_ := "orderEvents[" +:+ showZ (Z.of_nat j) +:+ "]" in
  let kind := prop "kind" e in
  [needObject at_ e;
   (negb (isOneOf ORDER_EVENT_KINDS kind), at_ +:+ ".kind " +:+ quoted (jsString kind) +:+ " is not a known order event kind")]
  ++ if isOneOf ["ORDER_PARTIALLY_FILLED"; "ORDER_FILLED"] kind then [
       needText (at_ +:+ ".orderId") (prop "orderId" e);
       needText (at_ +:+ ".intentId") (prop "intentId" e);
       needText (at_ +:+ ".symbol") (prop "symbol" e);
       (negb (isOneOf ["BUY"; "SELL"] (prop "side" e)), at_ +:+ ".side " +:+ quoted (jsString (prop "side" e)) +:+ " is not BUY|SELL");
       needDecimal (at_ +:+ ".fillQty") QTY_DP (prop "fillQty" e);
       needDecimal (at_ +:+ ".fillPrice") PRICE_DP (prop "fillPrice" e);
       needObject (at_ +:+ ".lineage") (prop "lineage" e)
     ] else [].

Fixpoint eventsTests (j : nat) (events : list Json) : list (bool * string) :=
  match events with
  | [] => []
  | e :: events => eventTests j e ++ eventsTests (S j) events
  end.

Definition resultTests (result : Json) : list (bool * string) :=
  let lineage := prop "lineage" result in [
    needObject "result" result;
    (negb (isOneOf ["FILLED"; "REJECTED"] (prop "status" result)),
       "result.status " +:+ quoted (jsString (prop "status" result)) +:+ " is not FILLED|REJECTED");
    needText "result.symbol" (prop "symbol" result);
    (negb (isOneOf ["LONG"; "SHORT"] (prop "side" result)),
       "result.side " +:+ quoted (jsString (prop "side" result)) +:+ " is not LONG|SHORT");
    needDecimal "result.filledNotional" NOTIONAL_DP (prop "filledNotional" result);
    needObject "result.lineage" lineage;
    needText "result.lineage.executionStrategyId" (prop "executionStrategyId" lineage)
  ].

Definition positionTests (position : Json) : list (bool * string) := [
  needObject "position" position;
  needText "position.symbol" (prop "symbol" position);
  needDecimal "position.netQty" QTY_DP (prop "netQty" position);
  needDecimal "position.avgEntryPrice" PRICE_DP (prop "avgEntryPrice" position);
  needDecimal "position.realizedPnl" NOTIONAL_DP (prop "realizedPnl" position);
  needDecimal "position.markPrice" PRICE_DP (prop "markPrice" position)
].

Definition accountTests (account : Json) : list (bool * string) := [
  needObject "account" account;
  needDecimal "account.cashBalance" NOTIONAL_DP (prop "cashBalance" account);
  needDecimal "account.realizedPnl" NOTIONAL_DP (prop "realizedPnl" account)
].

(** assertValidMarketJournalRecord: the detail of the rejection, or None for an admitted
    record. *)
Definition assertValidMarketJournalRecord (v : Json) : option string :=
  let seq := prop "seq" v in
  let events := prop "orderEvents" v in
  firstRejection ([
    (negb (isPlainObject v), "record is not a JSON object");
    (negb (match seq with J_number n => isInteger n && negb (nlt n (nint 0)) | _ => false end),
       "seq is not a non-negative integer");
    needText "intentId" (prop "intentId" v);
    needText "symbol" (prop "symbol" v);
    (match events with J_array _ => false | _ => true end, "orderEvents is not an array")
  ] ++ eventsTests 0 (match events with J_array l => l | _ => [] end)
    ++ resultTests (prop "result" v) ++ positionTests (prop "position" v) ++ accountTests (prop "account" v)).

(** ** An admitted value as a record (the cast of the assertion) *)

Definition numberOf (v : Json) : number := match v with J_number n => n | _ => NaN end.
Definition arrayOf (v : Json) : list Json := match v with J_array l => l | _ => [] end.

Definition executionSideOf (v : Json) : ExecutionSide := if bool_decide (stringOf v = "SHORT") then SHORT else LONG.
Definition orderSideOf (v : Json) : OrderSide := if bool_decide (stringOf v = "SELL") then SELL else BUY.

Definition contributionOfJson (v : Json) : DecisionContribution := {|
  dc_strategyVersionId := stringOf (prop "strategyVersionId" v);
  dc_executionStrategyId := stringOf (prop "executionStrategyId" v);
  dc_executionStrategyVersion := numberOf (prop "executionStrategyVersion" v);
  dc_featureSnapshotId := stringOf (prop "featureSnapshotId" v);
  dc_dqReportId := stringOf (prop "dqReportId" v);
  dc_datasetHash := stringOf (prop "datasetHash" v);
  dc_featureHash := stringOf (prop "featureHash" v);
  dc_side := executionSideOf (prop "side" v);
  dc_confidence := stringOf (prop "confidence" v);
  dc_weightedNotional := stringOf (prop "weightedNotional" v)
|}.

Definition lineageOfJson (v : Json) : ExecutionLineage := {|
  xl_tickId := match prop "tickId" v with J_string t => Some t | _ => None end;
  xl_strategyVersionId := stringOf (prop "strategyVersionId" v);
  xl_featureSnapshotId := stringOf (prop "featureSnapshotId" v);
  xl_dqReportId := stringOf (prop "dqReportId" v);
  xl_datasetHash := stringOf (prop "datasetHash" v);
  xl_featureHash := stringOf (prop "featureHash" v);
  xl_executionStrategyId := stringOf (prop "executionStrategyId" v);
  xl_executionStrategyVersion := numberOf (prop "executionStrategyVersion" v);
  xl_intentId := stringOf (prop "intentId" v);
  xl_netScore := stringOf (prop "netScore" v);
  xl_contributions := List.map contributionOfJson (arrayOf (prop "contributions" v))
|}.

Definition fillDataOf (v : Json) : OrderFillData := {|
  fd_fillQty := stringOf (prop "fillQty" v);
  fd_fillPrice := stringOf (prop "fillPrice" v);
  fd_cumQty := stringOf (prop "cumQty" v)
|}.

Definition kindOf (v : Json) : OrderEventKind :=
  let kind := stringOf (prop "kind" v) in
  if bool_decide (kind = "ORDER_PARTIALLY_FILLED") then ORDER_PARTIALLY_FILLED (fillDataOf v)
  else if bool_decide (kind = "ORDER_FILLED") then ORDER_FILLED (fillDataOf v)
  else if bool_decide (kind = "ORDER_CANCELLED") then ORDER_CANCELLED (stringOf (prop "reason" v))
  else if bool_decide (kind = "ORDER_REJECTED") then ORDER_REJECTED (stringOf (prop "reason" v))
  else if bool_decide (kind = "ORDER_ACCEPTED") then ORDER_ACCEPTED
  else if bool_decide (kind = "ORDER_SUBMITTED") then ORDER_SUBMITTED
  else ORDER_REQUESTED.

Definition orderEventOf (v : Json) : OrderEvent := {|
  oe_kind := kindOf v;
  oe_seq := numberOf (prop "seq" v);
  oe_orderId := stringOf (prop "orderId" v);
  oe_intentId := stringOf (prop "intentId" v);
  oe_symbol := stringOf (prop "symbol" v);
  oe_side := orderSideOf (prop "side" v);
  oe_brokerId := stringOf (prop "brokerId" v);
  oe_lineage := lineageOfJson (prop "lineage" v)
|}.

Definition resultOf (v : Json) : ExecutionResult := {|
  xr_intentId := stringOf (prop "intentId" v);
  xr_symbol := stringOf (prop "symbol" v);
  xr_side := executionSideOf (prop "side" v);
  xr_status := if bool_decide (stringOf (prop "status" v) = "FILLED") then FILLED else REJECTED;
  xr_adapterId := stringOf (prop "adapterId" v);
  xr_filledNotional := stringOf (prop "filledNotional" v);
  xr_detail := stringOf (prop "detail" v);
  xr_lineage := lineageOfJson (prop "lineage" v)
|}.

Definition positionOf (v : Json) : Position := {|
  mp_symbol := stringOf (prop "symbol" v);
  mp_netQty := stringOf (prop "netQty" v);
  mp_avgEntryPrice := stringOf (prop "avgEntryPrice" v);
  mp_realizedPnl := stringOf (prop "realizedPnl" v);
  mp_markPrice := stringOf (prop "markPrice" v)
|}.

Definition accountOf (v : Json) : Account := {|
  ac_cashBalance := stringOf (prop "cashBalance" v);
  ac_realizedPnl := stringOf (prop "realizedPnl" v)
|}.

Definition marketRecordOf (v : Json) : MarketJournalRecord := {|
  mr_input := {|
    mj_intentId := stringOf (prop "intentId" v);
    mj_symbol := stringOf (prop "symbol" v);
    mj_orderEvents := List.map orderEventOf (arrayOf (prop "orderEvents" v));
    mj_result := resultOf (prop "result" v);
    mj_position := positionOf (prop "position" v);
    mj_account := accountOf (prop "account" v)
  |};
  mr_seq := natOf (prop "seq" v)
|}.

(** ** Stores *)

Class MarketEventStore (S : Type) := {
  appendExecution : MarketJournalInput -> M JournalExn S MarketJournalRecord;
  readExecutions : M JournalExn S (list MarketJournalRecord)
}.

Definition InMemoryMarketEventStore : Type := list MarketJournalRecord.

#[export] Instance InMemory_market : MarketEventStore InMemoryMarketEventStore := {|
  appendExecution input :=
    let! records := gets id in
    let record := {| mr_input := input; mr_seq := length records |} in
    do! modify (fun rs => rs ++ [record]) in
    ret record;
  readExecutions := gets id
|}.

Definition FileMarketEventStore (path : string) (syntaxError : string -> string) : MarketEventStore FileState := {|
  appendExecution input :=
    let! seq := appendJson path syntaxError assertValidMarketJournalRecord
                  (fun seq => marketRecordJson {| mr_input := input; mr_seq := seq |}) in
    ret {| mr_input := input; mr_seq := seq |};
  readExecutions :=
    let! parsed := readAllJson path syntaxError assertValidMarketJournalRecord in
    ret (List.map marketRecordOf parsed)
|}.

(** ** recovery.ts *)

Inductive RecoveryExn :=
| JournalUnreadable (e : JournalExn)
| MarketRecoveryError (message : string).

Record RecoveredMarketState := {
  rv_marketState : MarketState;
  rv_portfolioState : PortfolioState;
  rv_recordsReplayed : nat;
  rv_fillsReplayed : nat
}.

(** The fills of a stream. *)
Definition fillsFrom (events : list OrderEvent) : list Fill :=
  omap (fun e => match fillData e with Some data => Some (fillOf e data) | None => None end) events.

Definition samePosition (a b : Position) : bool :=
  bool_decide (mp_symbol a = mp_symbol b) && bool_decide (mp_netQty a = mp_netQty b)
  && bool_decide (mp_avgEntryPrice a = mp_avgEntryPrice b) && bool_decide (mp_realizedPnl a = mp_realizedPnl b)
  && bool_decide (mp_markPrice a = mp_markPrice b).

Definition sameAccount (a b : Account) : bool :=
  bool_decide (ac_cashBalance a = ac_cashBalance b) && bool_decide (ac_realizedPnl a = ac_realizedPnl b).

(** The last recorded position of every symbol, in the order the symbols first appear. *)
Definition lastPositionBySymbol (records : list MarketJournalRecord) : list (string * Position) :=
  foldl (fun m r =>
    let symbol := mj_symbol (mr_input r) in
    let position := mj_position (mr_input r) in
    if existsb (fun e => bool_decide (fst e = symbol)) m
    then List.map (fun e => if bool_decide (fst e = symbol) then (symbol, position) else e) m
    else m ++ [(symbol, position)]) [] records.

Definition accountMismatch (recomputed recorded : Account) : string :=
  "account integrity mismatch: fold recomputed cash " +:+ ac_cashBalance recomputed +:+ "/realized "
  +:+ ac_realizedPnl recomputed +:+ " != journaled cash " +:+ ac_cashBalance recorded +:+ "/realized "
  +:+ ac_realizedPnl recorded.

Definition positionMismatch (symbol : string) (got : option Position) (recorded : Position) : string :=
  "position integrity mismatch for " +:+ symbol +:+ ": fold recomputed "
  +:+ (match got with Some p => stringify (positionJson p) | None => "<missing>" end)
  +:+ " != journaled " +:+ stringify (positionJson recorded).

(** The first recorded position that the fold does not reproduce. *)
Fixpoint checkPositions (recomputed : MarketState) (recorded : list (string * Position)) : option string :=
  match recorded with
  | [] => None
  | (symbol, p) :: recorded =>
      let got := ms_positions recomputed !! symbol in
      match got with
      | Some q => if samePosition q p then checkPositions recomputed recorded else Some (positionMismatch symbol got p)
      | None => Some (positionMismatch symbol got p)
      end
  end.

(** verifyAgainstSnapshots: the message it throws, or nothing. *)
Definition verifyAgainstSnapshots (records : list MarketJournalRecord) (recomputed : MarketState) : option string :=
  match last records with
  | None => None
  | Some final =>
      let recordedAccount := mj_account (mr_input final) in
      if negb (sameAccount (ms_account recomputed) recordedAccount)
      then Some (accountMismatch (ms_account recomputed) recordedAccount)
      else checkPositions recomputed (lastPositionBySymbol records)
  end.

Definition recordFills (records : list MarketJournalRecord) : list Fill :=
  concat (List.map (fun r => fillsFrom (mj_orderEvents (mr_input r))) records).

Definition recordResults (records : list MarketJournalRecord) : list ExecutionResult :=
  List.map (fun r => mj_result (mr_input r)) records.

(** What recovery makes of the records it read. *)
Definition recoverRecords (accountConfig : AccountConfig) (tolerance : number) (records : list MarketJournalRecord) :
    string + RecoveredMarketState :=
  let fills := recordFills records in
  let marketState := reconstructMarketState fills accountConfig in
  let portfolioState := reconstructPortfolioState (recordResults records) emptyPortfolioState in
  match verifyAgainstSnapshots records marketState with
  | Some message => inl message
  | None =>
      match reconcile marketState portfolioState tolerance with
      | Mismatched _ _ detail => inl ("recovered broker<->portfolio reconciliation failed: " +:+ detail)
      | Reconciled _ => inr {|
          rv_marketState := marketState;
          rv_portfolioState := portfolioState;
          rv_recordsReplayed := length records;
          rv_fillsReplayed := length fills |}
      end
  end.

Definition recoverMarketState {S} `{!MarketEventStore S} (accountConfig : AccountConfig) (tolerance : number) :
    M RecoveryExn S RecoveredMarketState := fun s =>
  match readExecutions s with
  | (inl e, s') => (inl (JournalUnreadable e), s')
  | (inr records, s') =>
      (match recoverRecords accountConfig tolerance records with
       | inl message => inl (MarketRecoveryError message)
       | inr r => inr r
       end, s')
  end.

(** ** An adapter with a store

    The broker, the providers and the bus act on a world E of their own; the journal is a
    store beside it, whose errors the adapter catches as it catches theirs. *)

Section journaled.
Context {X E S : Type} `{!MarketEventStore S} (fromJournal : JournalExn -> X).

Definition onOutside {A} (m : M X E A) : M X (E * S) A :=
  fun s => let '(r, e) := m (fst s) in (r, (e, snd s)).

Definition onStore {A} (m : M JournalExn S A) : M X (E * S) A := fun s =>
  match m (snd s) with
  | (inr a, w) => (inr a, (fst s, w))
  | (inl x, w) => (inl (fromJournal x), (fst s, w))
  end.

Definition journaledOps (o : MarketOps X E) : MarketOps X (E * S) := {|
  mo_brokerId := mo_brokerId o;
  mo_place order := onOutside (mo_place o order);
  mo_mode := mo_mode o;
  mo_quote symbol := onOutside (mo_quote o symbol);
  mo_publish event := onOutside (mo_publish o event);
  mo_eventStore := Some (fun input => onStore (appendExecution input))
|}.
End journaled.
