(* ===== verification/MarketFacts.v ===== *)
(** * MarketFacts: what the order state machine guarantees

    Every stream it accepts follows the transition table, belongs to its order, never
    fills more than was ordered, and is FILLED exactly when it is complete.  Then the state
    a journal describes, and the outcomes of an execution of the market adapter. *)

From stdpp Require Import gmap.
From S2P Require Import Prelude JsNumber JsNumberFacts JsText JsDecimal Json Effects StageTypes MarketState Portfolio.
From S2P Require Import JsonFacts Journal JournalFacts RiskModel RiskJournal RiskFacts MarketOrder MarketStage MarketJournal.

Local Open Scope string_scope.
Local Open Scope list_scope.

(** ** Accepted streams *)

(** A path of the transition table from a state. *)
Fixpoint legalPath (from : ReducerState) (path : list OrderState) : Prop :=
  match path with
  | [] => True
  | s :: path => from ∈ LEGAL_FROM s /\ TERMINAL from = false /\ legalPath (Some s) path
  end.

Definition lastState (from : ReducerState) (path : list OrderState) : ReducerState :=
  match last path with Some s => Some s | None => from end.

Section order.
Context (order : Order).

(** A fill event that is consistent with the quantity filled before it. *)
Definition fillAccepted (filled : number) (e : OrderEvent) (data : OrderFillData) : Prop :=
  let fq := parseDecimal (fd_fillQty data) in
  let cum := parseDecimal (fd_cumQty data) in
  let gap := nabs (nsub cum (orderedQty order)) in
  ngt fq (nint 0) = true /\ quantizeQty cum = quantizeQty (nadd filled fq)
  /\ ngt cum (nadd (orderedQty order) FILL_EPSILON) = false
  /\ (nle gap FILL_EPSILON = true <-> STATE_OF (oe_kind e) = OR_FILLED).

(** The quantity filled by a stream, added up in its order. *)
Definition filledBy (filled : number) (events : list OrderEvent) : number :=
  foldl (fun acc e => match fillData e with Some d => nadd acc (parseDecimal (fd_fillQty d)) | None => acc end) filled events.

Definition fillsOf (events : list OrderEvent) : list Fill :=
  omap (fun e => match fillData e with Some data => Some (fillOf e data) | None => None end) events.

Lemma fillError_None filled e data :
  fillData e = Some data -> fillError order filled e data = None <-> fillAccepted filled e data.
Proof.
  intros Hd. unfold fillError, fillAccepted. cbv zeta.
  destruct (ngt (parseDecimal (fd_fillQty data)) (nint 0)); [|split; [done|by intros [? _]]]. simpl negb. cbv iota.
  case_bool_decide as Hc; [|split; [done|by intros (_ & ? & _)]]. simpl negb. cbv iota.
  destruct (ngt _ _); [split; [done|by intros (_ & _ & ? & _)]|].
  unfold fillData in Hd. destruct (oe_kind e); try done; simpl STATE_OF; destruct (nle _ _); simpl; intuition congruence.
Qed.

Lemma eventError_None i state e :
  eventError order i state e = None <->
  neq (oe_seq e) (nint (Z.of_nat i)) = true /\ oe_orderId e = or_orderId order
  /\ TERMINAL state = false /\ state ∈ LEGAL_FROM (STATE_OF (oe_kind e)).
Proof.
  unfold eventError. cbv zeta. destruct (neq _ _); [|split; [done|by intros [? _]]]. simpl negb. cbv iota.
  case_bool_decide; [|split; [done|by intros (_ & ? & _)]]. simpl negb. cbv iota.
  destruct (TERMINAL state); [split; [done|by intros (_ & _ & ? & _)]|].
  case_bool_decide; simpl; intuition congruence.
Qed.

(** The accepted streams from a state, a position and a filled quantity. *)
Fixpoint accepted (i : nat) (state : ReducerState) (filled : number) (events : list OrderEvent) : Prop :=
  match events with
  | [] => True
  | e :: events =>
      (neq (oe_seq e) (nint (Z.of_nat i)) = true /\ oe_orderId e = or_orderId order
       /\ TERMINAL state = false /\ state ∈ LEGAL_FROM (STATE_OF (oe_kind e)))
      /\ match fillData e with Some data => fillAccepted filled e data | None => True end
      /\ accepted (S i) (Some (STATE_OF (oe_kind e))) (filledBy filled [e]) events
  end.

(** The states a stream goes through. *)
Definition pathOf (events : list OrderEvent) : list OrderState := List.map (fun e => STATE_OF (oe_kind e)) events.

Lemma reduceEvents_accepted i st events st' :
  reduceEvents order i st events = inr st' <->
  accepted i (of_state st) (of_filled st) events
  /\ st' = {| of_state := lastState (of_state st) (pathOf events);
             of_filled := filledBy (of_filled st) events;
             of_fills := of_fills st ++ fillsOf events |}.
Proof.
  revert i st. induction events as [|e events IH]; intros i st; simpl.
  { unfold lastState. simpl. rewrite app_nil_r. destruct st. simpl. split; [intros [= <-]; by split|by intros [_ ->]]. }
  assert (forall s, lastState (Some s) (pathOf events) = lastState (of_state st) (s :: pathOf events)) as Hl.
  { intros s. unfold lastState. rewrite last_cons. by destruct (last (pathOf events)). }
  unfold reduceEvent. destruct (eventError order i (of_state st) e) eqn:E.
  { split; [done|]. intros [(H & _) _]. apply eventError_None in H. congruence. }
  pose proof (proj1 (eventError_None _ _ _) E) as He.
  destruct (fillData e) as [data|] eqn:Ed; simpl.
  - destruct (fillError order (of_filled st) e data) eqn:Ef.
    { split; [done|]. intros [(_ & H & _) _]. apply fillError_None in H; [congruence|done]. }
    pose proof (proj1 (fillError_None _ _ _ Ed) Ef) as Hf. rewrite IH. simpl. rewrite Hl, <- app_assoc. tauto.
  - rewrite IH. simpl. rewrite Hl. tauto.
Qed.

Lemma accepted_path i state filled events : accepted i state filled events -> legalPath state (pathOf events).
Proof.
  revert i state filled. induction events as [|e events IH]; intros i state filled; simpl; [done|].
  intros ((_ & _ & ? & ?) & _ & Hacc). split_and!; [done|done|]. by eapply IH.
Qed.

Lemma accepted_lookup i state filled events j e :
  accepted i state filled events -> events !! j = Some e ->
  neq (oe_seq e) (nint (Z.of_nat (i + j))) = true /\ oe_orderId e = or_orderId order
  /\ match fillData e with Some data => fillAccepted (filledBy filled (take j events)) e data | None => True end.
Proof.
  revert i state filled j. induction events as [|e' events IH]; intros i state filled j; simpl; [done|].
  intros ((Hs & Ho & _) & Hf & Hacc). destruct j as [|j]; simpl; [intros [= <-]; rewrite Nat.add_0_r; by split_and!|].
  intros Hj. destruct (IH _ _ _ _ Hacc Hj) as (? & ? & ?). by rewrite <- Nat.add_succ_comm.
Qed.

(** A path that has reached a terminal state has ended. *)
Lemma legalPath_terminal from path j s : legalPath from path -> path !! j = Some s -> TERMINAL (Some s) = true -> S j = length path.
Proof.
  revert from j. induction path as [|s' path IH]; intros from j; [done|]. simpl. intros (_ & _ & H) Hj Ht.
  destruct j as [|j]; simpl in Hj.
  - injection Hj as ->. destruct path as [|s'' path]; [done|]. simpl in H. destruct H as (_ & H & _). congruence.
  - f_equal. by eapply IH.
Qed.
End order.

(** * The journal and the live state of the market adapter

    What an execution does to the adapter and the journal, whatever the providers, the
    broker and the bus do; and the invariant that ties the journal to the live state, from
    which recovery returns exactly the live market state. *)

(** ** Fills of one symbol *)

Lemma applyFill_other st f s : s <> fl_symbol f -> ms_positions (applyFillToMarketState st f) !! s = ms_positions st !! s.
Proof. intros H. simpl. by rewrite lookup_insert_ne. Qed.

Lemma applyFills_other fills st s :
  Forall (fun f => fl_symbol f <> s) fills ->
  ms_positions (foldl applyFillToMarketState st fills) !! s = ms_positions st !! s.
Proof.
  intros H. revert st. induction H as [|f fills Hf _ IH]; intros st; [done|]. simpl foldl. rewrite IH.
  by apply applyFill_other.
Qed.

Lemma applyFills_own fills st s :
  Forall (fun f => fl_symbol f = s) fills -> fills <> [] ->
  is_Some (ms_positions (foldl applyFillToMarketState st fills) !! s).
Proof.
  intros H. revert st. induction H as [|f fills Hf H IH]; intros st Hn; [done|]. simpl foldl.
  destruct fills as [|f' fills]; [|by apply IH]. simpl. rewrite Hf, lookup_insert_eq. by eexists.
Qed.

(** ** Snapshots *)

Lemma samePosition_refl p : samePosition p p = true.
Proof. unfold samePosition. by rewrite !bool_decide_true. Qed.

Lemma sameAccount_refl a : sameAccount a a = true.
Proof. unfold sameAccount. by rewrite !bool_decide_true. Qed.

(** The recorded positions agree with a state. *)
Definition positionsAgree (state : MarketState) (recorded : list (string * Position)) : Prop :=
  Forall (fun e => ms_positions state !! fst e = Some (snd e)) recorded.

Lemma checkPositions_agree state recorded : positionsAgree state recorded -> checkPositions state recorded = None.
Proof.
  induction 1 as [|[s p] recorded H _ IH]; [done|]. simpl in *. rewrite H. by rewrite samePosition_refl.
Qed.

Lemma lastPosition_snoc state state' rs r :
  positionsAgree state (lastPositionBySymbol rs) ->
  (forall s, s <> mj_symbol (mr_input r) -> ms_positions state' !! s = ms_positions state !! s) ->
  ms_positions state' !! mj_symbol (mr_input r) = Some (mj_position (mr_input r)) ->
  positionsAgree state' (lastPositionBySymbol (rs ++ [r])).
Proof.
  intros H Ho Hs. unfold lastPositionBySymbol. rewrite foldl_app. simpl.
  fold (lastPositionBySymbol rs). destruct (existsb _ _) eqn:E.
  - apply Forall_map. eapply Forall_impl; [exact H|]. intros [s p] Hp. simpl in *. case_bool_decide; simpl; [done|].
    by rewrite Ho.
  - apply Forall_app. split; [|by apply Forall_cons; split]. apply Forall_forall. intros [s p] Hin.
    pose proof (proj1 (Forall_forall _ _) H _ Hin) as Hp. simpl in *. rewrite Ho; [done|]. intros ->. clear H Hp.
    assert (existsb (fun e => bool_decide (fst e = mj_symbol (mr_input r))) (lastPositionBySymbol rs) = true) as E'.
    { apply existsb_exists. exists (mj_symbol (mr_input r), p). split; [by apply list_elem_of_In|]. by apply bool_decide_eq_true. }
    congruence.
Qed.

(** ** Reconciliation *)

Lemma sortStrings_elem s ks : s ∈ sortStrings ks <-> s ∈ ks.
Proof.
  assert (forall k l, s ∈ insertSorted k l <-> s = k \/ s ∈ l) as K.
  { intros k l. induction l as [|k' l IH]; simpl; [by rewrite elem_of_cons|].
    destruct (strLeb k k'); rewrite !elem_of_cons, ?IH; tauto. }
  induction ks as [|k ks IH]; simpl; [done|]. by rewrite K, IH, elem_of_cons.
Qed.

Lemma reconcileSymbols_elem broker portfolio s :
  s ∈ reconcileSymbols broker portfolio <->
  is_Some (ms_positions broker !! s) \/ is_Some (ps_positions portfolio !! s).
Proof.
  unfold reconcileSymbols. by rewrite sortStrings_elem, elem_of_elements, elem_of_union, !elem_of_dom.
Qed.

Lemma omap_None_iff {A B} (f : A -> option B) l : omap f l = [] <-> forall a, a ∈ l -> f a = None.
Proof.
  induction l as [|a l IH]; simpl; [split; [by intros _ a ?%elem_of_nil|done]|].
  destruct (f a) eqn:E.
  - split; [done|]. intros H. specialize (H a ltac:(apply list_elem_of_here)). congruence.
  - rewrite IH. split; intros H b; [rewrite elem_of_cons; intros [->|?]; auto|]. intros ?. apply H. by apply list_elem_of_further.
Qed.

Lemma reconcile_ok broker portfolio tolerance :
  (exists n, reconcile broker portfolio tolerance = Reconciled n) <->
  forall s, s ∈ reconcileSymbols broker portfolio -> reconcileSymbol broker portfolio tolerance s = None.
Proof.
  rewrite <- omap_None_iff. unfold reconcile. cbv zeta.
  destruct (omap _ _); [split; [done|by eexists]|split; [by intros [? ?]|done]].
Qed.

Lemma reconcileSymbol_lookup b b' p p' tolerance s :
  ms_positions b !! s = ms_positions b' !! s -> ps_positions p !! s = ps_positions p' !! s ->
  reconcileSymbol b p tolerance s = reconcileSymbol b' p' tolerance s.
Proof. intros E1 E2. unfold reconcileSymbol. by rewrite E1, E2. Qed.

Lemma applyResult_positions state r :
  xr_status r = FILLED ->
  ps_positions (applyResult state r) = <[xr_symbol r := {|
    pp_symbol := xr_symbol r; pp_side := xr_side r; pp_notional := xr_filledNotional r;
    pp_strategyId := xl_executionStrategyId (xr_lineage r) |}]> (ps_positions state).
Proof. intros E. unfold applyResult. rewrite E. unfold deriveAggregates. by destruct (exposureTotals _). Qed.

(** ** The state the journal describes *)

Definition recoveredPortfolio (rs : list MarketJournalRecord) : PortfolioState :=
  reconstructPortfolioState (recordResults rs) emptyPortfolioState.

(** The live market state is the fold of the journaled fills, and recovery would accept the
    journal. *)
Record journalDescribes (config : AccountConfig) (tolerance : number) (state : MarketState)
    (rs : list MarketJournalRecord) : Prop := {
  jd_fold : state = reconstructMarketState (recordFills rs) config;
  jd_account : match last rs with Some r => ms_account state = mj_account (mr_input r) | None => True end;
  jd_positions : positionsAgree state (lastPositionBySymbol rs);
  jd_reconciled : forall s, reconcileSymbol state (recoveredPortfolio rs) tolerance s = None
}.

Lemma describes_recovery config tolerance state rs :
  journalDescribes config tolerance state rs ->
  recoverRecords config tolerance rs = inr {|
    rv_marketState := state; rv_portfolioState := recoveredPortfolio rs;
    rv_recordsReplayed := length rs; rv_fillsReplayed := length (recordFills rs) |}.
Proof.
  intros [Hf Ha Hp Hr]. unfold recoverRecords. cbv zeta. rewrite <- Hf. fold (recoveredPortfolio rs).
  assert (verifyAgainstSnapshots rs state = None) as ->.
  { unfold verifyAgainstSnapshots. destruct (last rs); [|done]. cbv zeta. rewrite Ha, sameAccount_refl. simpl.
    by apply checkPositions_agree. }
  assert (exists n, reconcile state (recoveredPortfolio rs) tolerance = Reconciled n) as [n ->] by (apply reconcile_ok; auto).
  done.
Qed.

Lemma recordFills_snoc rs r : recordFills (rs ++ [r]) = recordFills rs ++ fillsFrom (mj_orderEvents (mr_input r)).
Proof. unfold recordFills. by rewrite List.map_app, concat_app, (app_nil_r (fillsFrom _) : concat (List.map _ [r]) = _). Qed.

(** A committed execution, all of whose fills are of its symbol, keeps the description. *)
Lemma describes_commit config tolerance state mirror rs r :
  let i := mr_input r in
  let candidate := foldl applyFillToMarketState state (fillsFrom (mj_orderEvents i)) in
  journalDescribes config tolerance state rs ->
  Forall (fun f => fl_symbol f = mj_symbol i) (fillsFrom (mj_orderEvents i)) ->
  ms_positions candidate !! mj_symbol i = Some (mj_position i) -> ms_account candidate = mj_account i ->
  xr_status (mj_result i) = FILLED -> xr_symbol (mj_result i) = mj_symbol i ->
  (exists n, reconcile candidate (applyResult mirror (mj_result i)) tolerance = Reconciled n) ->
  journalDescribes config tolerance candidate (rs ++ [r]).
Proof.
  intros i candidate [Hf Ha Hp Hr] Hsym Hpos Hacc Hst Hrs Hrec.
  assert (forall s, s <> mj_symbol i -> ms_positions candidate !! s = ms_positions state !! s) as Ho.
  { intros s Hs. apply applyFills_other. eapply Forall_impl; [exact Hsym|]. by intros f ->. }
  split.
  - rewrite recordFills_snoc. unfold reconstructMarketState. rewrite foldl_app. unfold candidate. by rewrite Hf at 1.
  - rewrite last_snoc. exact Hacc.
  - by eapply lastPosition_snoc.
  - intros s. unfold recoveredPortfolio, recordResults, reconstructPortfolioState.
    rewrite List.map_app, foldl_app. simpl foldl. fold i.
    destruct (decide (s = mj_symbol i)) as [->|Hs].
    + rewrite reconcile_ok in Hrec.
      rewrite (reconcileSymbol_lookup candidate candidate _ (applyResult mirror (mj_result i))); [|done|].
      { apply Hrec, reconcileSymbols_elem. left. by eexists. }
      rewrite !applyResult_positions by done. by rewrite Hrs, !lookup_insert_eq.
    + rewrite <- (Hr s). apply reconcileSymbol_lookup; [by apply Ho|].
      rewrite applyResult_positions by done. rewrite lookup_insert_ne by congruence. done.
Qed.

(** The empty journal describes the opening state. *)
Lemma describes_empty config tolerance :
  (0 <= sv tolerance)%Z -> isFinite tolerance = true -> journalDescribes config tolerance (emptyMarketState config) [].
Proof.
  intros Ht Hf. split; [done|done|constructor|]. intros s. unfold reconcileSymbol. simpl. rewrite !lookup_empty. cbv zeta.
  assert (ngt (nabs (nsub (nint 0) (nint 0))) tolerance = false) as ->.
  { unfold ngt. replace (nabs (nsub (nint 0) (nint 0))) with (nint 0) by evaluate.
    rewrite nlt_sv by done. apply Z.ltb_ge. done. }
  assert (nle (nint 0) tolerance = true) as ->; [|done]. rewrite nle_sv by done. by apply Z.leb_le.
Qed.

(** * The journal file

    A record survives the trip through its JSON; over writes that fail before they write,
    the file holds the appended records and reading gives them back. *)

(** An input whose record the file gives back: its numbers read back from their text, and
    the amounts of its result, position and account pass the admission check. *)
Definition recordableExecution (i : MarketJournalInput) : bool :=
  let v := marketRecordJson {| mr_input := i; mr_seq := 0 |} in
  printable v && bool_decide (assertValidMarketJournalRecord v = None).

Lemma contributionOf_json c : contributionOfJson (contributionJson c) = c.
Proof. by destruct c as [? ? ? ? ? ? ? [] ? ?]. Qed.

Lemma map_back {A B} (f : A -> B) (g : B -> A) l : (forall a, g (f a) = a) -> List.map g (List.map f l) = l.
Proof. intros H. rewrite List.map_map, <- List.map_id. apply List.map_ext, H. Qed.

Lemma lineageOf_json l : lineageOfJson (lineageJson l) = l.
Proof.
  destruct l as [tick ? ? ? ? ? ? ? ? ? cs]. unfold lineageOfJson.
  destruct tick; f_equal; exact (map_back _ _ cs contributionOf_json).
Qed.

Lemma orderEventOf_json e : orderEventOf (orderEventJson e) = e.
Proof.
  destruct e as [kind ? ? ? ? side ? lin]. unfold orderEventOf.
  destruct kind as [| | |[]|[]|reason|reason], side; f_equal; exact (lineageOf_json lin).
Qed.

Lemma resultOf_json r : resultOf (resultJson r) = r.
Proof.
  destruct r as [? ? side status ? ? ? lin]. unfold resultOf.
  destruct side, status; f_equal; exact (lineageOf_json lin).
Qed.

Lemma marketRecordOf_json r : hasRoom (mr_seq r) -> marketRecordOf (marketRecordJson r) = r.
Proof.
  intros H. destruct r as [[? ? events result [] []] seq]. unfold marketRecordOf. f_equal; [f_equal|].
  - exact (map_back _ _ events orderEventOf_json).
  - exact (resultOf_json result).
  - by apply natOf_nint.
Qed.

(** Only the number of a record depends on its position. *)
Lemma recordable_wellFormed i n :
  recordableExecution i = true -> hasRoom n ->
  wellFormed assertValidMarketJournalRecord n (marketRecordJson {| mr_input := i; mr_seq := n |}).
Proof.
  unfold recordableExecution. intros [Hp Ha%bool_decide_eq_true]%andb_true_iff Hn. split_and!.
  - unfold marketRecordJson in Hp |- *. cbn [printable List.forallb mr_input mr_seq] in Hp |- *.
    rewrite readsBack_nint by (unfold hasRoom in Hn; lia). by rewrite readsBack_nint in Hp by lia.
  - unfold assertValidMarketJournalRecord in Ha |- *. cbv zeta in Ha |- *. rewrite firstRejection_none in Ha |- *.
    apply Forall_app in Ha as [H1 H2]. apply Forall_app. split; [|exact H2].
    repeat apply Forall_cons in H1 as [? H1]. repeat (apply Forall_cons; split); try done.
    simpl. apply negb_false_iff. by apply isInteger_nint.
  - by eexists.
Qed.

(** The records of inputs appended from position n. *)
Fixpoint executionsFrom (n : nat) (inputs : list MarketJournalInput) : list MarketJournalRecord :=
  match inputs with [] => [] | i :: inputs => {| mr_input := i; mr_seq := n |} :: executionsFrom (S n) inputs end.

Lemma executionsFrom_app n l l' : executionsFrom n (l ++ l') = executionsFrom n l ++ executionsFrom (n + length l) l'.
Proof.
  revert n. induction l as [|i l IH]; intros n; simpl; [by rewrite Nat.add_0_r|]. by rewrite IH, Nat.add_succ_r.
Qed.

Lemma executionsFrom_length n l : length (executionsFrom n l) = length l.
Proof. revert n. induction l as [|i l IH]; intros n; simpl; [done|]. by rewrite IH. Qed.

Section file.
Context (path : string) (syntaxError : string -> string).
#[local] Instance marketFile : MarketEventStore FileState := FileMarketEventStore path syntaxError.

(** The file holds exactly these records, each with its position's number, and the coming
    writes fail, if they fail, before they write ([atomicFault]). *)
Definition marketFileHolds (rs : list MarketJournalRecord) (s : FileState) : Prop :=
  Forall (fun r => hasRoom (mr_seq r)) rs
  /\ fileHolds assertValidMarketJournalRecord (List.map marketRecordJson rs) s.

Lemma marketFile_append rs i s :
  marketFileHolds rs s ->
  wp (appendExecution i) (fun r s' => match r with
    | inr record => record = {| mr_input := i; mr_seq := length rs |}
        /\ (recordableExecution i = true -> hasRoom (length rs) -> marketFileHolds (rs ++ [record]) s')
    | inl _ => marketFileHolds rs s' end) s.
Proof.
  intros [Hn Hf]. simpl appendExecution. apply wp_bind. eapply wp_mono.
  { by apply (appendJson_law _ path syntaxError (List.map marketRecordJson rs)). }
  intros [e|seq] s' [_ Hq]; [by split; [|apply Hq]|]. rewrite length_map in Hq. destruct Hq as [-> Hf'].
  apply wp_ret. split; [done|]. intros Hi Hr. split; [by apply Forall_app; split; [|constructor]|].
  rewrite List.map_app. by apply Hf', recordable_wellFormed.
Qed.

Lemma marketFile_restart rs s : marketFileHolds rs s -> marketFileHolds rs (restart s).
Proof. intros [Hn Hf]. split; [done|by apply restart_holds]. Qed.

Lemma marketFile_read rs s :
  marketFileHolds rs s ->
  wp readExecutions (fun r s' => match r with inr records => records = rs | inl _ => fs_faults s <> [] end) s.
Proof.
  intros [Hn Hf]. simpl readExecutions. apply wp_bind. eapply wp_mono; [by apply readAllJson_law|].
  intros [e|parsed] s' [-> Hp]; [done|]. apply wp_ret. subst parsed. rewrite List.map_map.
  rewrite <- (List.map_id rs) at 2. apply List.map_ext_in. intros r Hin. apply marketRecordOf_json.
  rewrite Forall_forall in Hn. by apply Hn, list_elem_of_In.
Qed.
End file.

(** * The executions of the market adapter

    The outcome of one execution, returned or thrown, whatever the broker, the providers,
    the subscribers and the store do: nothing is committed, or one input is, and its append
    returned.  Then any sequence of executions. *)

Lemma reduceOrder_fills order events snapshot :
  reduceOrder order events = inr snapshot -> os_fills snapshot = fillsFrom events.
Proof.
  unfold reduceOrder. destruct (reduceEvents order 0 foldStart events) as [m|st] eqn:E; [done|].
  apply reduceEvents_accepted in E as [_ ->]. simpl.
  by destruct (lastState None (pathOf events)); [intros [= <-]|].
Qed.

Section stage.
Set Default Proof Using "Type*".
Context {X E S : Type} `{!MarketEventStore S} (errMsg : X -> string) (sha256_16 : string -> string).
Context (fromJournal : JournalExn -> X) (outside : MarketOps X E) (accountConfig : AccountConfig) (tolerance : number).

Abbreviation ops := (journaledOps fromJournal outside).

(** What an append that throws leaves. *)
Definition undone (w w' : S) : Prop := w' = w \/ exists input x, appendExecution input w = (inl x, w').

(** What an execution left, compared with the state before it. *)
Inductive outcome (intent : ExecutionIntent) (s : AdapterState * (E * S)) :
    X + ExecutionResult -> AdapterState * (E * S) -> Prop :=
| nothing r s' :
    fst s' = fst s -> undone (snd (snd s)) (snd (snd s')) ->
    match r with inr result => xr_status result = REJECTED | inl _ => True end ->
    outcome intent s r s'
| atTarget result s' :
    as_marketState (fst s') = as_marketState (fst s) -> snd (snd s') = snd (snd s) ->
    as_portfolioMirror (fst s') = applyResult (as_portfolioMirror (fst s)) result ->
    xr_filledNotional result = positionNotionalString (priorPosition (fst s) intent) ->
    outcome intent s (inr result) s'
| committed order i record r s' :
    let candidate := foldl applyFillToMarketState (as_marketState (fst s)) (fillsFrom (mj_orderEvents i)) in
    or_symbol order = xi_symbol intent ->
    (exists e e', mo_place outside order e = (inr (mj_orderEvents i), e')) ->
    (exists snapshot, reduceOrder order (mj_orderEvents i) = inr snapshot) ->
    fillsFrom (mj_orderEvents i) <> [] ->
    appendExecution i (snd (snd s)) = (inr record, snd (snd s')) ->
    as_marketState (fst s') = candidate ->
    as_portfolioMirror (fst s') = applyResult (as_portfolioMirror (fst s)) (mj_result i) ->
    (exists n, reconcile candidate (applyResult (as_portfolioMirror (fst s)) (mj_result i)) tolerance = Reconciled n) ->
    mj_symbol i = xi_symbol intent -> xr_symbol (mj_result i) = xi_symbol intent -> xr_status (mj_result i) = FILLED ->
    mj_account i = ms_account candidate ->
    mj_position i = default (priorPosition (fst s) intent) (ms_positions candidate !! xi_symbol intent) ->
    match r with inr result => result = mj_result i | inl _ => True end ->
    outcome intent s r s'.

(** A computation on the outside world leaves the store. *)
Definition keeps {A} (m : M X (E * S) A) : Prop := forall w, snd (snd (m w)) = snd w.

Lemma keeps_bind {A B} (m : M X (E * S) A) (k : A -> M X (E * S) B) : keeps m -> (forall a, keeps (k a)) -> keeps (bind m k).
Proof. intros Hm Hk w. unfold bind. pose proof (Hm w) as H. destruct (m w) as [[x|a] w1]; simpl in *; [done|]. by rewrite Hk. Qed.

Lemma keeps_catch {A} (m : M X (E * S) A) h : keeps m -> (forall x, keeps (h x)) -> keeps (catch m h).
Proof. intros Hm Hh w. unfold catch. pose proof (Hm w) as H. destruct (m w) as [[x|a] w1]; simpl in *; [|done]. by rewrite Hh. Qed.

Lemma keeps_ret {A} (a : A) : keeps (ret a).
Proof. by intros w. Qed.

Lemma keeps_outside {A} (m : M X E A) : keeps (onOutside m).
Proof. intros w. unfold onOutside. by destruct (m (fst w)). Qed.

Lemma keeps_forEach {A} (f : A -> M X (E * S) unit) l : (forall a, keeps (f a)) -> keeps (forEach f l).
Proof. intros H. induction l; simpl; [apply keeps_ret|]. by apply keeps_bind. Qed.

Lemma referencePrice_keeps intent : keeps (referencePrice errMsg ops intent).
Proof.
  unfold referencePrice. apply keeps_catch; [|intros; apply keeps_ret]. apply keeps_bind; [apply keeps_outside|].
  intros [quote|]; [|apply keeps_ret]. cbv zeta. destruct (negb _); [apply keeps_ret|].
  apply keeps_bind; [apply keeps_outside|intros; apply keeps_ret].
Qed.

Lemma wp_keeps {A} (m : M X (E * S) A) w : keeps m -> wp m (fun _ w' => snd w' = snd w) w.
Proof. intros H. apply H. Qed.

(** A step on the world that keeps the store, before the rest. *)
Lemma outcome_bind {A} intent (m : M X (E * S) A) (k : A -> M X (AdapterState * (E * S)) ExecutionResult) s :
  keeps m -> (forall a w, snd w = snd (snd s) -> wp (k a) (outcome intent s) (fst s, w)) ->
  wp (bind (onWorld m) k) (outcome intent s) s.
Proof.
  intros Hm Hk. apply wp_bind, wp_onWorld. eapply wp_mono; [by apply wp_keeps|].
  intros [x|a] w Hw; [by apply nothing; [|left|]|by apply Hk].
Qed.

Lemma outcome_reject intent s w detail :
  undone (snd (snd s)) (snd w) -> wp (ret (reject ops intent detail)) (outcome intent s) (fst s, w).
Proof. intros H. apply wp_ret. by apply nothing. Qed.

Lemma journal_wp input w :
  wp (journal errMsg ops input) (fun r w' => match r with
    | inr None => exists record, appendExecution input (snd w) = (inr record, snd w')
    | inr (Some _) => exists x, appendExecution input (snd w) = (inl x, snd w')
    | inl _ => False end) w.
Proof.
  unfold journal. simpl mo_eventStore. cbv iota. apply wp_catch, wp_bind. unfold wp, onStore.
  destruct (appendExecution input (snd w)) as [[x|r] w1]; simpl; by eexists.
Qed.

Lemma settle_outcome intent order events snapshot prior s w :
  snd w = snd (snd s) -> prior = priorPosition (fst s) intent -> or_symbol order = xi_symbol intent ->
  (exists e e', mo_place outside order e = (inr events, e')) -> reduceOrder order events = inr snapshot ->
  wp (settle errMsg ops accountConfig tolerance intent events snapshot prior) (outcome intent s) (fst s, w).
Proof.
  intros Hw Hprior Hos Hpl Hred. pose proof (reduceOrder_fills _ _ _ Hred) as Hfills.
  unfold settle. apply wp_bind, wp_gets. simpl fst. rewrite Hfills. cbv zeta.
  destruct (fillsFrom events) as [|f fills] eqn:Hf; [by apply outcome_reject; left|]. rewrite <- Hf.
  set (candidate := foldl applyFillToMarketState (as_marketState (fst s)) (fillsFrom events)).
  set (result := filledAt _ _ _ _). destruct (reconcile candidate _ tolerance) as [n|n ms detail] eqn:Hrec.
  2:{ apply wp_bind, wp_onWorld. eapply wp_mono; [apply wp_keeps, keeps_outside|].
      intros [x|[]] w1 H1; (apply nothing; [done|left; simpl in *; congruence|done]). }
  set (input := {| mj_intentId := _ |}). apply wp_bind, wp_onWorld. eapply wp_mono; [apply journal_wp|].
  intros [x|[detail|]] w1 Hl; [done|..]; change (snd (fst s, w)) with w in Hl; rewrite Hw in Hl; destruct Hl as [record Hl]; simpl fst in *; simpl snd in *.
  { apply wp_ret. apply nothing; [done|right; simpl; by eexists _, _|done]. }
  assert (forall r' w', snd w' = snd w1 -> match r' with inr result' => result' = result | inl _ => True end ->
    outcome intent s r' ({| as_marketState := candidate; as_portfolioMirror := applyResult (as_portfolioMirror (fst s)) result |}, w')) as K.
  { intros r' w' Hw' Hr'. apply (committed intent s order input record); simpl; try done.
    - by eexists.
    - by rewrite Hf.
    - by rewrite Hw'.
    - by eexists.
    - by rewrite Hprior. }
  apply wp_bind, wp_modify. simpl. apply wp_bind, wp_onWorld. eapply wp_mono; [apply wp_keeps, keeps_outside|].
  intros [x|[]] w2 H2; [by apply K|]. apply wp_bind, wp_onWorld. eapply wp_mono; [apply wp_keeps, keeps_outside|].
  intros [x|[]] w3 H3; (apply K; [simpl in *; congruence|done]).
Qed.

Lemma place_wp order w :
  wp (catch (bind (mo_place ops order) (fun events => ret (inr events)))
       (fun err => ret (inl ("broker error: " +:+ errMsg err)))) (fun r w' => match r with
    | inr (inr events) => snd w' = snd w /\ exists e e', mo_place outside order e = (inr events, e')
    | inr (inl _) => snd w' = snd w
    | inl _ => False end) w.
Proof.
  apply wp_catch, wp_bind. unfold wp. simpl. unfold onOutside.
  destruct (mo_place outside order (fst w)) as [[x|events] e] eqn:Ee; simpl; [done|]. split; [done|]. by eexists _, _.
Qed.

Lemma execute_outcome intent s :
  wp (execute errMsg sha256_16 ops accountConfig tolerance intent) (outcome intent s) s.
Proof.
  unfold execute. apply outcome_bind; [apply referencePrice_keeps|].
  intros [detail|[price ts]] w Hw; [by apply outcome_reject; left|].
  apply wp_bind, wp_gets. simpl fst. cbv zeta. case_bool_decide.
  { apply wp_bind, wp_modify, wp_ret. by apply atTarget. }
  unfold placeOrder. set (order := orderFor _ _ _ _ _).
  apply wp_bind, wp_onWorld. eapply wp_mono; [apply (place_wp order)|].
  intros [x|[detail|events]] w1 Hp; [done|apply wp_ret; apply nothing; [done|left; simpl in *; congruence|done]|].
  destruct Hp as [Hj Hpl]. simpl fst in *. simpl snd in *.
  destruct (reduceOrder order events) as [m|snapshot] eqn:Hred;
    [apply wp_ret; apply nothing; [done|left; simpl; congruence|done]|].
  apply wp_bind, wp_onWorld. eapply wp_mono; [apply wp_keeps, keeps_forEach; intros e; apply keeps_outside|].
  intros [x|[]] w2 Hj2; simpl in *; [apply nothing; [done|left; simpl; congruence|done]|].
  refine (settle_outcome intent order events snapshot _ s w2 _ eq_refl eq_refl Hpl Hred). congruence.
Qed.

(** ** Sequences of executions *)

(** The state after an execution, whatever it returned or threw. *)
Definition executionStep (s : AdapterState * (E * S)) (intent : ExecutionIntent) : AdapterState * (E * S) :=
  snd (execute errMsg sha256_16 ops accountConfig tolerance intent s).

(** A broker that fills an order in the order's symbol. *)
Definition ownSymbol : Prop :=
  forall order events e e', mo_place outside order e = (inr events, e') ->
    Forall (fun f => fl_symbol f = or_symbol order) (fillsFrom events).

(** The market state after the fills of the committed inputs. *)
Definition afterFills (state : MarketState) (inputs : list MarketJournalInput) : MarketState :=
  foldl applyFillToMarketState state (concat (List.map (fun i => fillsFrom (mj_orderEvents i)) inputs)).

(** The store went from one state to another by appends, of which those of these inputs
    returned, in this order, and the others threw. *)
Inductive appended : S -> S -> list MarketJournalInput -> Prop :=
| appended_none w : appended w w []
| appended_failed i x w w' w'' l :
    appendExecution i w = (inl x, w') -> appended w' w'' l -> appended w w'' l
| appended_one i r w w' w'' l :
    appendExecution i w = (inr r, w') -> appended w' w'' l -> appended w w'' (i :: l).

Lemma appended_app w w' w'' l l' : appended w w' l -> appended w' w'' l' -> appended w w'' (l ++ l').
Proof. intros H H'. induction H as [w|i x w w1 w2 l Hi _ IH|i r w w1 w2 l Hi _ IH]; simpl; [done|by eapply appended_failed, IH|by eapply appended_one, IH]. Qed.

(** A store in which a record is appended to those it holds, or nothing is. *)
Context (holds : list MarketJournalRecord -> S -> Prop).
Context (Happend : forall rs i s, holds rs s ->
  wp (appendExecution i) (fun r s' => match r with
    | inr record => record = {| mr_input := i; mr_seq := length rs |}
        /\ (recordableExecution i = true -> hasRoom (length rs) -> holds (rs ++ [record]) s')
    | inl _ => holds rs s' end) s).

(** The executions from s to s' committed these inputs, in this order. *)
Record commits (s s' : AdapterState * (E * S)) (inputs : list MarketJournalInput) : Prop := {
  commits_live : as_marketState (fst s') = afterFills (as_marketState (fst s)) inputs;
  commits_appended : appended (snd (snd s)) (snd (snd s')) inputs;
  commits_store rs :
    holds rs (snd (snd s)) -> Forall (fun i => recordableExecution i = true) inputs ->
    hasRoom (length rs + length inputs) -> holds (rs ++ executionsFrom (length rs) inputs) (snd (snd s'));
  commits_described rs :
    ownSymbol -> journalDescribes accountConfig tolerance (as_marketState (fst s)) rs ->
    journalDescribes accountConfig tolerance (as_marketState (fst s')) (rs ++ executionsFrom (length rs) inputs)
}.

Lemma commits_nothing s s' :
  as_marketState (fst s') = as_marketState (fst s) -> undone (snd (snd s)) (snd (snd s')) -> commits s s' [].
Proof.
  intros Hm Hu. split.
  - done.
  - destruct Hu as [-> |(i & x & Ei)]; [constructor|]. econstructor; [done|constructor].
  - intros rs Hh _ _. simpl. rewrite app_nil_r. destruct Hu as [-> |(i & x & Ei)]; [done|].
    pose proof (Happend rs i _ Hh) as W. unfold wp in W. by rewrite Ei in W.
  - intros rs _ H. simpl. by rewrite app_nil_r, Hm.
Qed.

Lemma executionStep_commits intent s :
  exists inputs, commits s (executionStep s intent) inputs /\ (length inputs <= 1)%nat.
Proof.
  pose proof (execute_outcome intent s) as Ho. unfold wp in Ho. unfold executionStep.
  destruct Ho as [r s' Hs Hj _|result s' Hs Hj _ _
    |order i record r s' candidate Hsym (e & e' & Hpl) _ Hne Hj Hm _ Hrec Hms Hrs Hst Ha Hp _].
  - exists []. split; [by apply commits_nothing; [rewrite Hs|]|simpl; lia].
  - exists []. split; [by apply commits_nothing; [|left]|simpl; lia].
  - exists [i]. split; [|simpl; lia]. split.
    + unfold afterFills. simpl. by rewrite app_nil_r.
    + econstructor; [done|constructor].
    + intros rs Hh [Hi _]%Forall_cons Hr. pose proof (Happend rs i _ Hh) as W. unfold wp in W. rewrite Hj in W.
      destruct W as [-> W]. apply W; [done|]. unfold hasRoom in *. lia.
    + intros rs Hown H. pose proof (Hown _ _ _ _ Hpl) as Hf. rewrite Hsym in Hf. rewrite Hm. unfold candidate in *.
      destruct (applyFills_own _ (as_marketState (fst s)) _ Hf Hne) as [p Hp'].
      apply (describes_commit accountConfig tolerance _ (as_portfolioMirror (fst s)) rs
        {| mr_input := i; mr_seq := length rs |}); simpl; rewrite ?Hms; try done.
      by rewrite Hp, Hp'.
Qed.

Lemma commits_trans s s1 s2 l1 l2 : commits s s1 l1 -> commits s1 s2 l2 -> commits s s2 (l1 ++ l2).
Proof.
  intros [A1 D1 B1 C1] [A2 D2 B2 C2]. split.
  - unfold afterFills in *. by rewrite List.map_app, concat_app, foldl_app, <- A1.
  - by eapply appended_app.
  - intros rs Hh [H1 H2]%Forall_app Hr. rewrite length_app in Hr. rewrite executionsFrom_app, app_assoc.
    replace (length rs + length l1)%nat with (length (rs ++ executionsFrom (length rs) l1))
      by (rewrite length_app, executionsFrom_length; done).
    apply B2; [apply B1; [done|done|unfold hasRoom in *; lia]|done|].
    rewrite length_app, executionsFrom_length. unfold hasRoom in *. lia.
  - intros rs Hown H. rewrite executionsFrom_app, app_assoc.
    replace (length rs + length l1)%nat with (length (rs ++ executionsFrom (length rs) l1))
      by (rewrite length_app, executionsFrom_length; done).
    by apply C2, C1.
Qed.

Lemma executions_commit intents s :
  exists inputs, commits s (foldl executionStep s intents) inputs /\ (length inputs <= length intents)%nat.
Proof.
  revert s. induction intents as [|intent intents IH]; intros s; simpl.
  { exists []. split; [by apply commits_nothing; [|left]|simpl; lia]. }
  destruct (executionStep_commits intent s) as (l1 & H1 & L1).
  destruct (IH (executionStep s intent)) as (l2 & H2 & L2).
  exists (l1 ++ l2). split; [by eapply commits_trans|]. rewrite length_app. lia.
Qed.
End stage.

(** The streams of the brokers the registry resolves, and of the venue, are in the symbol of
    their order: each event is made by [baseEvent]. *)
Lemma fillsFrom_own order events :
  Forall (fun e => oe_symbol e = or_symbol order) events ->
  Forall (fun f => fl_symbol f = or_symbol order) (fillsFrom events).
Proof.
  induction 1 as [|e events He _ IH]; [constructor|]. unfold fillsFrom in *. simpl.
  destruct (fillData e); [by constructor|done].
Qed.

Lemma simulatedFills_own order qty price chunk todo i cum seq :
  Forall (fun e => oe_symbol e = or_symbol order) (simulatedFills order qty price chunk todo i cum seq).
Proof. revert i cum seq. induction todo as [|todo IH]; intros i cum seq; simpl; repeat constructor. apply IH. Qed.

Lemma resolveBroker_own id order events :
  snd (resolveBroker id) order = inr events -> Forall (fun f => fl_symbol f = or_symbol order) (fillsFrom events).
Proof.
  unfold resolveBroker. intros H. apply fillsFrom_own.
  destruct (bool_decide (id = "simulated")); [|destruct (bool_decide (id = "real")); [done|]]; simpl in H.
  - unfold SimulatedBroker in H. destruct (_ =? 0)%Z; injection H as <-; repeat constructor. apply simulatedFills_own.
  - injection H as <-. repeat constructor.
Qed.
