(* ===== verification/StageProps.v ===== *)
(** * StageProps: the properties of orders, the execution stage and the market adapter

    The properties of the worker execution and market layers, with two counterexamples: a simulated stream that the order
    state machine refuses, and a fill on the wrong side that it accepts. *)

From stdpp Require Import gmap.
From S2P Require Import Prelude JsNumber JsNumberFacts JsText JsDecimal Json Effects Served StageTypes MarketState Portfolio.
From S2P Require Import Journal JournalFacts RiskModel RiskJournal ExecStage StageFacts MarketOrder MarketStage MarketJournal MarketFacts.

Local Open Scope string_scope.
Local Open Scope list_scope.

(** ** Samples *)

Definition sampleLineage : ExecutionLineage := {|
  xl_tickId := None; xl_strategyVersionId := "v"; xl_featureSnapshotId := "f"; xl_dqReportId := "d";
  xl_datasetHash := "h"; xl_featureHash := "g"; xl_executionStrategyId := "s"; xl_executionStrategyVersion := nint 1;
  xl_intentId := "i"; xl_netScore := "5000.00"; xl_contributions := [] |}.

Definition sampleOrderOf (id qty : string) : Order := {|
  or_orderId := id; or_intentId := "i"; or_symbol := "BTC"; or_side := BUY; or_qty := qty;
  or_price := "50000.00000000"; or_brokerId := "paper"; or_lineage := sampleLineage |}.

Definition streamOf (r : string + list OrderEvent) : list OrderEvent := match r with inr events => events | inl _ => [] end.

(** ** Orders *)

(** C18. Every stream the order state machine accepts is a path of its transition table
    that ends in the snapshot's state and stops at a terminal state; its events carry the
    order's id and consecutive numbers; and every fill has a positive quantity, agrees
    with the running total, stays within the ordered quantity (plus 1e-9), and is
    ORDER_FILLED exactly when it completes the order. *)
Theorem order_reducer_sound order events snapshot :
  reduceOrder order events = inr snapshot ->
  legalPath None (pathOf events) /\ lastState None (pathOf events) = Some (os_state snapshot)
  /\ (forall j e, events !! j = Some e ->
        neq (oe_seq e) (nint (Z.of_nat j)) = true /\ oe_orderId e = or_orderId order
        /\ (TERMINAL (Some (STATE_OF (oe_kind e))) = true -> S j = length events)
        /\ match fillData e with
           | Some data => fillAccepted order (filledBy (nint 0) (take j events)) e data
           | None => True end)
  /\ os_fills snapshot = fillsOf events /\ os_filledQty snapshot = quantizeQty (filledBy (nint 0) events).
Proof.
  unfold reduceOrder. destruct (reduceEvents order 0 foldStart events) as [m|st] eqn:E; [done|].
  apply reduceEvents_accepted in E as [Ha ->]. simpl of_state in *. simpl of_filled in *. simpl of_fills.
  pose proof (accepted_path _ _ _ _ _ Ha) as Hp.
  destruct (lastState None (pathOf events)) as [state|] eqn:El; [|done]. cbv zeta. intros [= <-]. simpl.
  split_and!; [done|done| |done|done]. intros j e Hj.
  destruct (accepted_lookup _ _ _ _ _ _ _ Ha Hj) as (Hs & Ho & Hf). split_and!; [done|done| |done].
  intros Ht. replace (length events) with (length (pathOf events)) by apply length_map.
  apply (legalPath_terminal None _ j (STATE_OF (oe_kind e))); [done| |done].
  unfold pathOf. rewrite list_lookup_fmap. by rewrite Hj.
Qed.

Definition paperOrder : Order := sampleOrderOf "0000000000000000" "0.10000000".

Lemma order_reducer_sound_witness :
  exists snapshot, reduceOrder paperOrder (streamOf (PaperBroker paperOrder)) = inr snapshot
    /\ os_state snapshot = OR_FILLED /\ legalPath None (pathOf (streamOf (PaperBroker paperOrder))).
Proof.
  destruct (reduceOrder paperOrder (streamOf (PaperBroker paperOrder))) as [m|snapshot] eqn:E; [vm_compute in E; discriminate|].
  exists snapshot. split; [reflexivity|].
  destruct (order_reducer_sound paperOrder (streamOf (PaperBroker paperOrder)) snapshot E) as (Hp & Hl & _).
  split; [|exact Hp]. injection Hl as Hl. rewrite <- Hl. reflexivity.
Defined.

(** The simulated broker adds its fills up in binary: this stream is refused, because the
    running total of the quantized fills is one unit of the eighth decimal off. *)
Definition unluckyOrder : Order := sampleOrderOf "0000000000000001" "40568963.89570581".

Example simulated_stream_refused :
  reduceOrder unluckyOrder (streamOf (SimulatedBroker unluckyOrder))
  = inl "order 0000000000000001: cumQty 40568963.89570581 != running 40568963.89570580".
Proof. evaluate. Qed.

(** The state machine does not look at the side or the symbol of a fill. *)
Definition wrongSide (e : OrderEvent) : OrderEvent := {|
  oe_kind := oe_kind e; oe_seq := oe_seq e; oe_orderId := oe_orderId e; oe_intentId := oe_intentId e;
  oe_symbol := oe_symbol e; oe_side := SELL; oe_brokerId := oe_brokerId e; oe_lineage := oe_lineage e |}.

Example wrong_side_accepted :
  match reduceOrder paperOrder (List.map wrongSide (streamOf (PaperBroker paperOrder))) with
  | inr snapshot => os_side snapshot = BUY /\ List.map fl_side (os_fills snapshot) = [SELL]
  | inl _ => False end.
Proof. vm_compute. by split. Qed.

(** ** The execution stage *)

Section stage.
Context {X W : Type} (errMsg : X -> string) (typeError : string -> X).
Context (localeCompare : string -> string -> comparison) (sha256_16 : string -> string).
Context (ops : StageOps X W) (config : StageConfig).

(** C19. The adapter and the INTENT_EMITTED event only ever see intents of proposals that
    both the risk hook and the limits approved: any invariant of the outside world that
    the hook, the bus and the adapter keep under that condition is kept by a whole run,
    returned or thrown.  A run that returns accounts for every proposal: each was blocked,
    or was approved in the portfolio its predecessors left and has exactly one result; and
    the portfolio it returns is the fold of those results. *)
Theorem stage_executes_only_approved (I : W -> Prop) decisions state tickId w :
  (forall gate p st w, so_riskGate ops = Some gate -> I w -> I (snd (gate p st w))) ->
  (forall event w, emittableEvent errMsg sha256_16 ops config tickId event -> I w -> I (snd (so_publish ops event w))) ->
  (forall intent w, emittable errMsg sha256_16 ops config tickId intent -> I w -> I (snd (so_execute ops intent w))) ->
  I w ->
  wp (runExecutionStage errMsg typeError localeCompare sha256_16 ops config decisions state tickId)
    (fun r w' => I w' /\ match r with
      | inl _ => True
      | inr result => exists proposals,
          aggregateDecisions localeCompare decisions (sg_portfolioConfig config) = Some proposals
          /\ stageTrace errMsg sha256_16 ops config tickId state proposals (sr_results result) (sr_blocked result)
               (sr_portfolioState result)
          /\ sr_portfolioState result = reconstructPortfolioState (sr_results result) state
          /\ sr_proposed result = length proposals
          /\ sr_intentsEmitted result = length (sr_results result)
          /\ sr_proposed result = (sr_intentsEmitted result + sr_blocked result)%nat
          /\ sr_filled result = length (List.filter (fun r => bool_decide (xr_status r = FILLED)) (sr_results result))
          /\ sr_intentsEmitted result = (sr_filled result + sr_rejected result)%nat
      end) w.
Proof.
  intros Hg Hp He Hw. unfold runExecutionStage.
  destruct (aggregateDecisions _ _ _) as [proposals|]; [|by apply wp_throw].
  eapply wp_mono; [by apply (runProposals_wp errMsg sha256_16 ops config tickId I Hg Hp He)|].
  intros [x|result] w' [Hw' H]; [done|]. split; [done|]. exists proposals. split; [done|].
  destruct H as (rs & n & Ht & Hpr & Hr & Hb & Hi & Hf & Hs). simpl in *. rewrite Hr, Hb.
  pose proof (stageTrace_fold _ _ _ _ _ _ _ _ _ _ Ht) as [Hfold Hlen].
  split_and!; (done || lia).
Qed.
End stage.

Definition byCompare (a b : string) : comparison := String.compare a b.
Definition sampleHash (s : string) : string := "0123456789abcdef".

Definition sampleSignal : GeneratedSignal := {|
  gs_symbol := "BTC"; gs_side := Served.LONG; gs_decision := Served.LONG; gs_confidence := "0.5000";
  gs_strategyVersionId := "v"; gs_strategyParams := J_null; gs_featureSnapshotId := "f"; gs_dqReportId := "d";
  gs_datasetHash := "h"; gs_featureHash := "g" |}.

Definition enterStrategy : Strategy := {|
  sy_id := "s"; sy_version := nint 1;
  sy_decide := fun o _ => {| di_action := DA_ENTER; di_side := gs_side o; di_confidence := gs_confidence o; di_rationale := "" |} |}.

(** The stage over a world that is the list of published events, with the paper adapter. *)
Definition loggedOps : StageOps string (list ExecutionStageEvent) := {|
  so_adapterId := "paper";
  so_execute := fun intent w => (PaperExecutionAdapter intent, w);
  so_riskGate := None;
  so_publish := fun event w => (inr tt, w ++ [event]) |}.

Definition sampleStage : StageConfig := {|
  sg_limits := DEFAULT_STAGE_LIMITS; sg_killSwitch := NORMAL; sg_portfolioConfig := DEFAULT_PORTFOLIO_CONFIG |}.

Definition sampleRun : M string (list ExecutionStageEvent) ExecutionStageResult :=
  runExecutionStage id id byCompare sampleHash loggedOps sampleStage
    [deriveDecisionEvent sampleSignal enterStrategy None] emptyPortfolioState None.

Lemma stage_executes_only_approved_witness :
  (exists result, fst (sampleRun []) = inr result /\ sr_filled result = 1)
  /\ Forall (emittableEvent id sampleHash loggedOps sampleStage None) (snd (sampleRun [])).
Proof.
  split; [eexists; split; [vm_compute; reflexivity|reflexivity]|].
  assert (forall event w, emittableEvent id sampleHash loggedOps sampleStage None event ->
    Forall (emittableEvent id sampleHash loggedOps sampleStage None) w ->
    Forall (emittableEvent id sampleHash loggedOps sampleStage None) (w ++ [event])) as Hp.
  { intros event w He Hw. apply Forall_app. split; [exact Hw|]. constructor; [exact He|constructor]. }
  assert (forall gate p st w, so_riskGate loggedOps = Some gate ->
    Forall (emittableEvent id sampleHash loggedOps sampleStage None) w ->
    Forall (emittableEvent id sampleHash loggedOps sampleStage None) (snd (gate p st w))) as Hg.
  { intros gate p st w E. discriminate E. }
  pose proof (stage_executes_only_approved id id byCompare sampleHash loggedOps sampleStage
    (Forall (emittableEvent id sampleHash loggedOps sampleStage None))
    [deriveDecisionEvent sampleSignal enterStrategy None] emptyPortfolioState None []
    Hg Hp (fun _ w _ H => H) (Forall_nil_2 _)) as H.
  unfold wp in H. destruct H as [H _]. exact H.
Defined.

(** ** The market adapter *)

Section market.
Context {X E : Type} (errMsg : X -> string) (sha256_16 : string -> string) (fromJournal : JournalExn -> X).
Context (outside : MarketOps X E) (accountConfig : AccountConfig) (tolerance : number).
Context (path : string) (syntaxError : string -> string).
#[local] Instance journalFile : MarketEventStore FileState := FileMarketEventStore path syntaxError.

(** C20. The journal file and the live state never part: over a broker that fills an order in
    its own symbol (those of the registry and the venue transport do: [resolveBroker_own],
    [place_own]) and a file system whose writes fail, if they fail, before they write, any
    sequence of executions commits some inputs, in this order: the appends that returned.
    Whatever the executions returned or threw (missing quotes, broker errors, refused
    streams, failed reconciliations, failed appends, throwing subscribers), the live state is
    the start and the fills of those inputs; and if the file can give each back (its numbers
    read back and its amounts are canonical), the file holds exactly them after the records
    it held, and a restart either cannot read the file, when a fault was coming, or rebuilds
    the live positions and account, and the portfolio of the journaled results. *)
Theorem recovery_reproduces_live s rs intents :
  ownSymbol outside -> marketFileHolds rs (snd (snd s)) -> hasRoom (length rs + length intents) ->
  journalDescribes accountConfig tolerance (as_marketState (fst s)) rs ->
  let s' := foldl (executionStep errMsg sha256_16 fromJournal outside accountConfig tolerance) s intents in
  exists inputs,
    appended (snd (snd s)) (snd (snd s')) inputs /\ (length inputs <= length intents)%nat
    /\ as_marketState (fst s') = afterFills (as_marketState (fst s)) inputs
    /\ (Forall (fun i => recordableExecution i = true) inputs ->
        let records := rs ++ executionsFrom (length rs) inputs in
        marketFileHolds records (snd (snd s'))
        /\ exists r w, recoverMarketState accountConfig tolerance (restart (snd (snd s'))) = (r, w)
           /\ match r with
              | inr recovered =>
                  rv_marketState recovered = as_marketState (fst s')
                  /\ rv_portfolioState recovered = reconstructPortfolioState (recordResults records) emptyPortfolioState
                  /\ rv_recordsReplayed recovered = length records
              | inl (JournalUnreadable _) => fs_faults (snd (snd s')) <> []
              | inl (MarketRecoveryError _) => False
              end).
Proof.
  intros Hown Hh Hr Hd s'.
  destruct (executions_commit errMsg sha256_16 fromJournal outside accountConfig tolerance marketFileHolds
    (marketFile_append path syntaxError) intents s) as (inputs & [Hlive Happ Hst Hdesc] & Hlen). fold s' in Hlive, Happ, Hst, Hdesc.
  exists inputs. split_and!; [done|done|done|]. intros Hrec records.
  assert (marketFileHolds records (snd (snd s'))) as Hh'.
  { apply Hst; [done|done|unfold hasRoom in *; lia]. }
  split; [done|]. eexists _, _. split; [apply surjective_pairing|].
  pose proof (marketFile_read path syntaxError records _ (marketFile_restart _ _ Hh')) as W.
  unfold wp in W. unfold recoverMarketState.
  change (marketFile path syntaxError) with journalFile in W.
  destruct (readExecutions (restart (snd (snd s')))) as [[e|l] w]; [exact W|]. simpl in W. subst l.
  unfold records. rewrite (describes_recovery _ _ _ _ (Hdesc rs Hown Hd)). done.
Qed.
End market.

(** The adapter with the paper broker, fixed quotes and subscribers that do nothing. *)
Definition paperOutside : MarketOps string unit := {|
  mo_brokerId := "paper";
  mo_place := fun order w => (PaperBroker order, w);
  mo_mode := historical;
  mo_quote := fun symbol w => (inr (Some {| qt_symbol := symbol; qt_ts := "t"; qt_price := "50000.00000000" |}), w);
  mo_publish := fun _ w => (inr tt, w);
  mo_eventStore := None |}.

Lemma paperOutside_ownSymbol : ownSymbol paperOutside.
Proof. intros order events e e' H. injection H as H _. by apply (resolveBroker_own "paper"), (f_equal inr). Qed.

Definition sampleIntent (side : ExecutionSide) (notional : string) : ExecutionIntent := {|
  xi_intentId := "i"; xi_symbol := "BTC"; xi_side := side; xi_targetNotional := notional;
  xi_adapterId := "market:paper"; xi_lineage := sampleLineage; xi_rationale := "" |}.

(** A fresh adapter over a fresh file, whose third call fails. *)
Definition sampleAdapter : AdapterState * (unit * FileState) :=
  ({| as_marketState := emptyMarketState DEFAULT_ACCOUNT_CONFIG; as_portfolioMirror := emptyPortfolioState |},
   (tt, {| fs_text := None; fs_nextSeq := None; fs_faults := [NoFault; NoFault; WriteFault 0 "ENOSPC"] |})).

(** A long position is opened, kept (a no-op), turned into a short one, which the journal
    refuses, and turned again. *)
Definition sampleIntents : list ExecutionIntent :=
  [sampleIntent LONG "5000.00"; sampleIntent LONG "5000.00"; sampleIntent SHORT "2500.00"; sampleIntent SHORT "2500.00"].

Definition sampleMessage (text : string) : string := "Unexpected token".
Definition sampleJournal : MarketEventStore FileState := FileMarketEventStore "market.jsonl" sampleMessage.

Definition sampleEnd : AdapterState * (unit * FileState) :=
  foldl (@executionStep string unit FileState sampleJournal id sampleHash journalMessage paperOutside
           DEFAULT_ACCOUNT_CONFIG DEFAULT_RECONCILIATION_TOLERANCE)
    sampleAdapter sampleIntents.

Lemma sampleAdapter_describes :
  journalDescribes DEFAULT_ACCOUNT_CONFIG DEFAULT_RECONCILIATION_TOLERANCE (as_marketState (fst sampleAdapter)) [].
Proof. apply describes_empty; [apply Z.leb_le|]; evaluate. Qed.

Lemma recovery_reproduces_live_witness :
  exists inputs, as_marketState (fst sampleEnd) = afterFills (as_marketState (fst sampleAdapter)) inputs
  /\ exists recovered, fst (@recoverMarketState _ sampleJournal DEFAULT_ACCOUNT_CONFIG DEFAULT_RECONCILIATION_TOLERANCE
         (restart (snd (snd sampleEnd)))) = inr recovered
     /\ rv_marketState recovered = as_marketState (fst sampleEnd) /\ rv_recordsReplayed recovered = 2.
Proof.
  destruct (recovery_reproduces_live id sampleHash journalMessage paperOutside DEFAULT_ACCOUNT_CONFIG
    DEFAULT_RECONCILIATION_TOLERANCE "market.jsonl" sampleMessage sampleAdapter [] sampleIntents
    paperOutside_ownSymbol ltac:(repeat split; [constructor|by left])
    ltac:(apply Z.ltb_lt; evaluate) sampleAdapter_describes) as (inputs & _ & _ & Hlive & _).
  exists inputs. split; [exact Hlive|]. eexists. split; [vm_compute; reflexivity|]. split; vm_compute; reflexivity.
Defined.
