(* ===== verification/Venue.v ===== *)
(** * Venue: the live order transport

    services/workers/src/market/deribit-order-transport.ts: the JSON-RPC plumbing, the
    access token, instrument metadata, the reading of the venue's outcome, the event stream
    built from it, the recovery by label and [place].  The HTTP exchange and the clock are
    operations over an outside world W; what the transport keeps (token, request counter,
    instrument cache) is threaded with it.  A value of a JSON answer is read with [prop],
    which is [asRecord(v)?.\[k\]].  Log lines are left out. *)

From stdpp Require Import gmap.
From S2P Require Import Prelude JsNumber JsText JsDecimal Json Effects ExecTypes StageTypes MarketState Portfolio MarketOrder.

Local Open Scope string_scope.
Local Open Scope list_scope.
Local Open Scope eff_scope.

(** ** Errors and configuration *)

(** [rpcCode] is [J_undefined] when the error carries none.  A TypeError is what
    destructuring a null [error] throws. *)
Inductive VenueError :=
| DeribitOrderError (message endpoint : string) (rpcCode : Json)
| TypeError.

Definition rpcCodeOf (err : VenueError) : Json :=
  match err with DeribitOrderError _ _ code => code | TypeError => J_undefined end.

(** [err.rpcCode !== undefined] *)
Definition definitive (err : VenueError) : bool := match rpcCodeOf err with J_undefined => false | _ => true end.

Inductive DeribitVenueEnv := VE_live | VE_test.

#[export] Instance DeribitVenueEnv_eq_dec : EqDecision DeribitVenueEnv.
Proof. solve_decision. Defined.

Definition BASE_URL (env : DeribitVenueEnv) : string :=
  match env with VE_live => "https://www.deribit.com/api/v2" | VE_test => "https://test.deribit.com/api/v2" end.

Definition DEFAULT_DERIBIT_INSTRUMENT_MAP : list (string * string) :=
  [("BTC-PERP", "BTC_USDC-PERPETUAL"); ("ETH-PERP", "ETH_USDC-PERPETUAL")].

Definition TOKEN_REFRESH_MARGIN_MS : number := nint 60000.
Definition RPC_UNAUTHORIZED : number := nint 13009.
(** 1e-9 *)
Definition QTY_EPS : number := ndec 1 9.

Record DeribitOrderTransportConfig := {
  dc_clientId : string;
  dc_clientSecret : string;
  dc_env : option DeribitVenueEnv;
  dc_instrumentMap : option (list (string * string))
}.

(** What the constructor fixes. *)
Record DeribitOrderTransport := {
  dt_env : DeribitVenueEnv;
  dt_clientId : string;
  dt_clientSecret : string;
  dt_baseUrl : string;
  dt_instrumentMap : gmap string string
}.

(** The constructor; entries of the given map override the defaults. *)
Definition constructTransport (config : DeribitOrderTransportConfig) : VenueError + DeribitOrderTransport :=
  let clientId := trim (dc_clientId config) in
  let clientSecret := trim (dc_clientSecret config) in
  if bool_decide (clientId = "") || bool_decide (clientSecret = "") then
    inl (DeribitOrderError "Deribit credentials missing — refusing to construct a live order transport (fail-closed)" "config"
           J_undefined)
  else
    let env := default VE_test (dc_env config) in
    inr {|
      dt_env := env;
      dt_clientId := clientId;
      dt_clientSecret := clientSecret;
      dt_baseUrl := BASE_URL env;
      dt_instrumentMap := list_to_map (default [] (dc_instrumentMap config)) ∪ list_to_map DEFAULT_DERIBIT_INSTRUMENT_MAP |}.

(** ** Venue payloads *)

Record VenueInstrument := {
  vi_instrumentName : string;
  vi_contractSize : number;
  vi_minTradeAmount : number;
  vi_settlementCurrency : string
}.

Record VenueTrade := { vt_amount : number; vt_price : number; vt_seq : number }.

Record VenueOrderOutcome := { vo_orderState : string; vo_venueOrderId : string; vo_trades : list VenueTrade }.

Definition finitePositive (v : Json) : option number :=
  match v with J_number n => if isFinite n && ngt n (nint 0) then Some n else None | _ => None end.

Definition parseTrade (endpoint : string) (i : nat) (t : Json) : VenueError + VenueTrade :=
  match finitePositive (prop "amount" t), finitePositive (prop "price" t) with
  | Some amount, Some price =>
      let seq := match prop "trade_seq" t with
                 | J_number n => if isFinite n then n else nint (Z.of_nat i)
                 | _ => nint (Z.of_nat i)
                 end in
      inr {| vt_amount := amount; vt_price := price; vt_seq := seq |}
  | _, _ =>
      inl (DeribitOrderError ("trade " +:+ showZ (Z.of_nat i) +:+ ": malformed venue fill (amount=" +:+ jsString (prop "amount" t)
             +:+ ", price=" +:+ jsString (prop "price" t) +:+ ") — fail-closed") endpoint J_undefined)
  end.

(** [raw.map(...)], from the i-th element on. *)
Fixpoint mapTrades (endpoint : string) (i : nat) (l : list Json) : VenueError + list VenueTrade :=
  match l with
  | [] => inr []
  | t :: l =>
      match parseTrade endpoint i t with
      | inl err => inl err
      | inr trade => match mapTrades endpoint (S i) l with inl err => inl err | inr trades => inr (trade :: trades) end
      end
  end.

Definition bySeq (a b : VenueTrade) : comparison := compareNumbers (vt_seq a) (vt_seq b).

Definition parseTrades (raw : Json) (endpoint : string) : VenueError + list VenueTrade :=
  match raw with
  | J_array l => match mapTrades endpoint 0 l with inl err => inl err | inr trades => inr (sortBy bySeq trades) end
  | _ => inr []
  end.

(** The state and the id of an order record. *)
Definition orderFields (orderRec : Json) : string * string :=
  (stringOf (prop "order_state" orderRec), stringOf (prop "order_id" orderRec)).

Definition parseOrderOutcome (raw : Json) (endpoint : string) : VenueError + VenueOrderOutcome :=
  let '(orderState, venueOrderId) := orderFields (prop "order" raw) in
  if bool_decide (orderState = "") || bool_decide (venueOrderId = "") then
    inl (DeribitOrderError ("malformed venue order payload from " +:+ endpoint +:+ " (fail-closed)") endpoint J_undefined)
  else
    match parseTrades (prop "trades" raw) endpoint with
    | inl err => inl err
    | inr trades => inr {| vo_orderState := orderState; vo_venueOrderId := venueOrderId; vo_trades := trades |}
    end.

(** ** Event-stream construction *)

Definition within (cum ordered : number) : bool := nle (nabs (nsub cum ordered)) QTY_EPS.

(** The fill events of the trades and the quantity they add up to. *)
Fixpoint fillEvents (order : Order) (cum : number) (seq : nat) (trades : list VenueTrade) :
    VenueError + list OrderEvent * number :=
  let orderedQty := parseDecimal (or_qty order) in
  match trades with
  | [] => inr ([], cum)
  | t :: trades =>
      let next := nadd cum (vt_amount t) in
      if ngt next (nadd orderedQty QTY_EPS) then
        inl (DeribitOrderError ("venue overfill on order " +:+ or_orderId order +:+ ": cumulative " +:+ numToString next
               +:+ " exceeds ordered " +:+ or_qty order +:+ " — manual reconciliation required") "fills" J_undefined)
      else
        let isLast := match trades with [] => true | _ => false end in
        let data := {| fd_fillQty := quantizeQty (vt_amount t); fd_fillPrice := quantizePrice (vt_price t);
                       fd_cumQty := quantizeQty next |} in
        let kind := if within next orderedQty && isLast then ORDER_FILLED data else ORDER_PARTIALLY_FILLED data in
        match fillEvents order next (S seq) trades with
        | inl err => inl err
        | inr (events, cum) => inr (baseEvent order kind seq :: events, cum)
        end
  end.

Definition buildEvents (order : Order) (outcome : VenueOrderOutcome) : VenueError + list OrderEvent :=
  let requested := [baseEvent order ORDER_REQUESTED 0; baseEvent order ORDER_SUBMITTED 1] in
  if bool_decide (vo_orderState outcome = "rejected") then
    inr (requested ++ [baseEvent order (ORDER_REJECTED ("venue rejected order " +:+ vo_venueOrderId outcome)) 2])
  else
    let orderedQty := parseDecimal (or_qty order) in
    match fillEvents order (nint 0) 3 (vo_trades outcome) with
    | inl err => inl err
    | inr (fills, cum) =>
        inr (requested ++ [baseEvent order ORDER_ACCEPTED 2] ++ fills
             ++ (if within cum orderedQty then []
                 else [baseEvent order (ORDER_CANCELLED ("venue " +:+ vo_orderState outcome +:+ ": executed " +:+ quantizeQty cum
                         +:+ " of ordered " +:+ or_qty order +:+ " (immediate-or-cancel remainder cancelled by venue; venue order "
                         +:+ vo_venueOrderId outcome +:+ ")")) (3 + length (vo_trades outcome))]))
    end.

(** The venue's label of an order. *)
Definition venueLabel (orderId : string) : string := "nx-" +:+ orderId.

(** ** The outside world *)

(** One POST: the token of its authorization header and the members of its body. *)
Record VenueRequest := {
  vq_url : string;
  vq_token : option string;
  vq_id : number;
  vq_method : string;
  vq_params : list (string * Json)
}.

Definition requestHeaders (q : VenueRequest) : list (string * string) :=
  ("content-type", "application/json") :: match vq_token q with Some t => [("authorization", "Bearer " +:+ t)] | None => [] end.

Definition requestBody (q : VenueRequest) : string :=
  stringify (J_object [("jsonrpc", J_string "2.0"); ("id", J_number (vq_id q)); ("method", J_string (vq_method q));
                       ("params", J_object (vq_params q))]).

(** What [fetch] and [res.json()] give: a failure with its message, or the HTTP status and
    the bytes of the answer. *)
Inductive VenueAnswer := V_unreachable (message : string) | V_answered (status : Z) (body : string).

Record VenueOps (W : Type) := {
  vo_fetch : VenueRequest -> W -> VenueAnswer * W;
  vo_now : W -> number * W
}.
Arguments vo_fetch {W}.
Arguments vo_now {W}.

(** What the transport keeps between calls. *)
Record TransportState := {
  ts_accessToken : option string;
  ts_tokenExpiresAt : number;
  ts_rpcId : nat;
  ts_instrumentCache : gmap string VenueInstrument
}.

Definition freshTransport : TransportState :=
  {| ts_accessToken := None; ts_tokenExpiresAt := nint 0; ts_rpcId := 0; ts_instrumentCache := ∅ |}.

(** [res.ok] *)
Definition okStatus (status : Z) : bool := ((200 <=? status) && (status <=? 299))%Z.

(** [code ?? "?"] *)
Definition textOr (v : Json) (fallback : string) : string := match v with J_undefined | J_null => fallback | _ => jsString v end.

(** The envelope of an answer: its result, or the error it is turned into. *)
Definition readEnvelope (method : string) (answer : VenueAnswer) : VenueError + Json :=
  let fail text := inl (DeribitOrderError text method J_undefined) in
  match answer with
  | V_unreachable message => fail ("transport failure calling " +:+ method +:+ ": " +:+ message)
  | V_answered status body =>
      match JSON_parse body with
      | None => fail ("non-JSON response (HTTP " +:+ showZ status +:+ ") from " +:+ method)
      | Some payload =>
          match prop "error" payload with
          | J_undefined =>
              match prop "result" payload with
              | J_undefined => fail ("malformed response (HTTP " +:+ showZ status +:+ ") from " +:+ method)
              | result => if okStatus status then inr result
                          else fail ("malformed response (HTTP " +:+ showZ status +:+ ") from " +:+ method)
              end
          | J_null => inl TypeError
          | e =>
              let code := prop "code" e in
              inl (DeribitOrderError ("venue error " +:+ textOr code "?" +:+ " on " +:+ method +:+ ": "
                     +:+ textOr (prop "message" e) "unknown") method code)
          end
      end
  end.

(** ** Requests *)

Section transport.
Context {W : Type} (ops : VenueOps W) (self : DeribitOrderTransport).

Definition VM (A : Type) : Type := M VenueError (TransportState * W) A.

Definition onState (f : TransportState -> TransportState) : VM unit := modify (fun s => (f (fst s), snd s)).

Definition lift {A} (r : VenueError + A) : VM A := match r with inl err => throw err | inr a => ret a end.

Definition now : VM number := onWorld (total (vo_now ops)).

Definition rpc (method : string) (params : list (string * Json)) (token : option string) : VM Json :=
  do! onState (fun t => {| ts_accessToken := ts_accessToken t; ts_tokenExpiresAt := ts_tokenExpiresAt t;
                           ts_rpcId := S (ts_rpcId t); ts_instrumentCache := ts_instrumentCache t |}) in
  let! id := gets (fun s => ts_rpcId (fst s)) in
  let! answer := onWorld (total (vo_fetch ops {| vq_url := dt_baseUrl self; vq_token := token; vq_id := nint (Z.of_nat id);
                                                 vq_method := method; vq_params := params |})) in
  lift (readEnvelope method answer).

(** A new token, cached until its expiry. *)
Definition authenticate : VM string :=
  let! result := rpc "public/auth" [("grant_type", J_string "client_credentials"); ("client_id", J_string (dt_clientId self));
                                    ("client_secret", J_string (dt_clientSecret self))] None in
  match stringOf (prop "access_token" result), finitePositive (prop "expires_in" result) with
  | String _ _ as token, Some expiresIn =>
      let! at_ := now in
      do! onState (fun t => {| ts_accessToken := Some token; ts_tokenExpiresAt := nadd at_ (nmul expiresIn (nint 1000));
                               ts_rpcId := ts_rpcId t; ts_instrumentCache := ts_instrumentCache t |}) in
      ret token
  | _, _ => throw (DeribitOrderError "auth succeeded but returned no usable token (fail-closed)" "public/auth" J_undefined)
  end.

Definition token : VM string :=
  let! state := gets fst in
  match ts_accessToken state with
  | Some cached =>
      let! at_ := now in
      if nlt at_ (nsub (ts_tokenExpiresAt state) TOKEN_REFRESH_MARGIN_MS) then ret cached else authenticate
  | None => authenticate
  end.

Definition unauthorized (err : VenueError) : bool :=
  match rpcCodeOf err with J_number code => neq code RPC_UNAUTHORIZED | _ => false end.

Definition privateRpc (method : string) (params : list (string * Json)) : VM Json :=
  catch (let! t := token in rpc method params (Some t))
    (fun err =>
       if unauthorized err then
         do! onState (fun t => {| ts_accessToken := None; ts_tokenExpiresAt := ts_tokenExpiresAt t; ts_rpcId := ts_rpcId t;
                                  ts_instrumentCache := ts_instrumentCache t |}) in
         let! t := token in
         rpc method params (Some t)
       else throw err).

(** ** Instruments *)

Definition mapSymbol (symbol : string) : VenueError + string :=
  match dt_instrumentMap self !! symbol with
  | Some (String _ _ as instrument) => inr instrument
  | _ => inl (DeribitOrderError ("no Deribit instrument mapped for canonical symbol " +:+ symbol
                +:+ " — refusing to route (fail-closed)") "instrument-map" J_undefined)
  end.

(** The metadata of an instrument: complete, active and linear, or the error. *)
Definition readInstrument (name : string) (raw : Json) : VenueError + VenueInstrument :=
  let fail text := inl (DeribitOrderError text "public/get_instrument" J_undefined) in
  let quote := stringOf (prop "quote_currency" raw) in
  let settlement := stringOf (prop "settlement_currency" raw) in
  let active := match prop "is_active" raw with J_boolean b => b | _ => false end in
  match finitePositive (prop "contract_size" raw), finitePositive (prop "min_trade_amount" raw) with
  | Some contractSize, Some minTradeAmount =>
      if bool_decide (quote = "") || bool_decide (settlement = "") then
        fail ("instrument " +:+ name +:+ ": malformed venue metadata (fail-closed)")
      else if negb active then fail ("instrument " +:+ name +:+ " is not active on the venue (fail-closed)")
      else if negb (bool_decide (settlement = quote)) then
        fail ("instrument " +:+ name +:+ " is not a linear contract (settlement " +:+ settlement +:+ " != quote " +:+ quote
              +:+ "); its amount unit would misstate base exposure — refusing to route (fail-closed)")
      else inr {| vi_instrumentName := name; vi_contractSize := contractSize; vi_minTradeAmount := minTradeAmount;
                  vi_settlementCurrency := settlement |}
  | _, _ => fail ("instrument " +:+ name +:+ ": malformed venue metadata (fail-closed)")
  end.

Definition instrument (name : string) : VM VenueInstrument :=
  let! state := gets fst in
  match ts_instrumentCache state !! name with
  | Some cached => ret cached
  | None =>
      let! raw := rpc "public/get_instrument" [("instrument_name", J_string name)] None in
      let! resolved := lift (readInstrument name raw) in
      do! onState (fun t => {| ts_accessToken := ts_accessToken t; ts_tokenExpiresAt := ts_tokenExpiresAt t; ts_rpcId := ts_rpcId t;
                               ts_instrumentCache := <[name := resolved]> (ts_instrumentCache t) |}) in
      ret resolved
  end.

(** ** Placement *)

(** The outcome the venue has under the label of an order, if it has the order. *)
Definition recoverByLabel (order : Order) (inst : VenueInstrument) : VM (option VenueOrderOutcome) :=
  let! result := privateRpc "private/get_order_state_by_label"
    [("currency", J_string (vi_settlementCurrency inst)); ("label", J_string (venueLabel (or_orderId order)))] in
  match result with
  | J_array (first :: _) =>
      let '(orderState, venueOrderId) := orderFields first in
      if bool_decide (orderState = "") || bool_decide (venueOrderId = "") then
        throw (DeribitOrderError "recovery lookup returned a malformed order payload (fail-closed)"
                 "private/get_order_state_by_label" J_undefined)
      else
        let! tradesRaw := privateRpc "private/get_user_trades_by_order"
          [("order_id", J_string venueOrderId); ("sorting", J_string "asc")] in
        let! trades := lift (parseTrades tradesRaw "private/get_user_trades_by_order") in
        ret (Some {| vo_orderState := orderState; vo_venueOrderId := venueOrderId; vo_trades := trades |})
  | _ => ret None
  end.

(** The amount of the request: whole lots, never more than the ordered quantity. *)
Definition venueAmount (order : Order) (inst : VenueInstrument) : number :=
  let lots := nfloor (ndiv (nadd (parseDecimal (or_qty order)) QTY_EPS) (vi_contractSize inst)) in
  stringToNumber (toFixed (nmul lots (vi_contractSize inst)) 10).

Definition routable (amount : number) (inst : VenueInstrument) : bool :=
  ngt amount (nint 0) && negb (nlt (nadd amount QTY_EPS) (vi_minTradeAmount inst)).

Definition orderMethod (order : Order) : string := match or_side order with BUY => "private/buy" | SELL => "private/sell" end.

Definition orderParams (order : Order) (instrumentName : string) (amount : number) : list (string * Json) :=
  [("instrument_name", J_string instrumentName); ("amount", J_number amount); ("type", J_string "market");
   ("time_in_force", J_string "immediate_or_cancel"); ("label", J_string (venueLabel (or_orderId order)))].

(** The order request, and the recovery of an ambiguous failure. *)
Definition submitOrder (order : Order) (inst : VenueInstrument) (amount : number) (instrumentName : string) : VM VenueOrderOutcome :=
  catch
    (let! result := privateRpc (orderMethod order) (orderParams order instrumentName amount) in
     lift (parseOrderOutcome result (orderMethod order)))
    (fun err =>
       if definitive err then throw err
       else
         let! recovered := catch (recoverByLabel order inst) (fun _ => throw err) in
         match recovered with None => throw err | Some outcome => ret outcome end).

Definition place (order : Order) : VM (list OrderEvent) :=
  let! instrumentName := lift (mapSymbol (or_symbol order)) in
  let! inst := instrument instrumentName in
  let amount := venueAmount order inst in
  if negb (routable amount inst) then
    throw (DeribitOrderError ("order qty " +:+ or_qty order +:+ " rounds to " +:+ numToString amount +:+ " " +:+ instrumentName
             +:+ " (step " +:+ numToString (vi_contractSize inst) +:+ "), below venue minimum " +:+ numToString (vi_minTradeAmount inst)
             +:+ " — refusing to route (fail-closed)") "sizing" J_undefined)
  else
    let! outcome := submitOrder order inst amount instrumentName in
    let! outcome :=
      if bool_decide (vo_orderState outcome = "open") then
        let! _ := privateRpc "private/cancel" [("order_id", J_string (vo_venueOrderId outcome))] in
        ret {| vo_orderState := "cancelled"; vo_venueOrderId := vo_venueOrderId outcome; vo_trades := vo_trades outcome |}
      else ret outcome in
    lift (buildEvents order outcome).
End transport.

(** broker.ts: a broker that delegates to a transport. *)
Definition createRealBroker {X S} (transport : Order -> M X S (list OrderEvent)) : string * (Order -> M X S (list OrderEvent)) :=
  ("real", transport).

(** ** Environment *)

Record DeribitEnvConfig := {
  ec_clientId : string;
  ec_clientSecret : string;
  ec_env : DeribitVenueEnv;
  ec_instrumentMap : option (list (string * Json))
}.

Definition nonEmptyString (v : Json) : bool := match v with J_string (String _ _) => true | _ => false end.

(** The instrument map of the environment: [None] when it is not set, or its value or why
    it is refused. *)
Definition readInstrumentMap (raw : string) : option (string + list (string * Json)) :=
  match raw with
  | "" => None
  | _ => Some match JSON_parse raw with
              | None => inl "DERIBIT_INSTRUMENT_MAP (invalid JSON)"
              | Some (J_object fields) =>
                  if forallb (fun kv => nonEmptyString (snd kv)) fields then inr fields
                  else inl "DERIBIT_INSTRUMENT_MAP (must be a JSON object of non-empty strings)"
              | Some _ => inl "DERIBIT_INSTRUMENT_MAP (must be a JSON object of non-empty strings)"
              end
  end.

Definition readDeribitEnvConfig (env : string -> option string) : list string + DeribitEnvConfig :=
  let read key := trim (default "" (env key)) in
  let clientId := read "DERIBIT_CLIENT_ID" in
  let clientSecret := read "DERIBIT_CLIENT_SECRET" in
  let rawEnv := toLowerCase (trim (default "test" (env "DERIBIT_ENV"))) in
  let venue := if bool_decide (rawEnv = "live") then Some VE_live
               else if bool_decide (rawEnv = "test") then Some VE_test else None in
  let map := readInstrumentMap (read "DERIBIT_INSTRUMENT_MAP") in
  let missing :=
    (if bool_decide (clientId = "") then ["DERIBIT_CLIENT_ID"] else [])
    ++ (if bool_decide (clientSecret = "") then ["DERIBIT_CLIENT_SECRET"] else [])
    ++ match venue with None => ["DERIBIT_ENV (must be live|test)"] | Some _ => [] end
    ++ match map with Some (inl why) => [why] | _ => [] end in
  match missing, venue with
  | [], Some venue =>
      inr {| ec_clientId := clientId; ec_clientSecret := clientSecret; ec_env := venue;
             ec_instrumentMap := match map with Some (inr fields) => Some fields | _ => None end |}
  | missing, _ => inl missing
  end.
