(* ===== verification/MarketEdge.v ===== *)
(** * MarketEdge: the quotes from the database and the portfolio ledger

    services/workers/src/market: db-quote-transport.ts (the marks polled from the rows the
    ingestion daemon persists) and portfolio-ledger.ts (the persisted equity series).  The
    Prisma client is a record of operations over an outside world, which may throw; a
    Decimal column that is only read through [Number(...)] is its Number.  A Date is its
    time value.  Log lines are left out. *)

From stdpp Require Import gmap.
From S2P Require Import Prelude JsNumber JsText JsDecimal Effects StageTypes MarketState.

Local Open Scope string_scope.
Local Open Scope list_scope.
Local Open Scope eff_scope.

(** ** db-quote-transport.ts *)

Record OrderbookRow := {
  ob_exchange : string; ob_symbol : string; ob_ts : Z; ob_bestBid : number; ob_bestAsk : number; ob_markPrice : option number }.

(** A market tick with its price, or a market candle with its close. *)
Record PriceRow := { pw_exchange : string; pw_symbol : string; pw_ts : Z; pw_price : number }.

Definition DEFAULT_SYMBOLS : list string := ["BTC-PERP"; "ETH-PERP"].
Definition DEFAULT_MAX_AGE_MS : number := nint 60000.

(** [where: { symbol, exchange: { not } }, orderBy: { ts: "desc" }] *)
Record MarkQuery := { mq_symbol : string; mq_exchangeNot : string }.

Definition markQuery (symbol : string) : MarkQuery := {| mq_symbol := symbol; mq_exchangeNot := "DEMO" |}.

Record FeedOps (X W : Type) := {
  fo_now : W -> Z * W;
  fo_orderbookSnapshot : MarkQuery -> M X W (option OrderbookRow);
  fo_marketTick : MarkQuery -> M X W (option PriceRow);
  fo_marketCandle : MarkQuery -> M X W (option PriceRow)
}.
Arguments fo_now {X W}.
Arguments fo_orderbookSnapshot {X W}.
Arguments fo_marketTick {X W}.
Arguments fo_marketCandle {X W}.

Record DbQuoteTransport := { dq_cache : gmap string Quote; dq_polling : bool }.

Definition latest (t : DbQuoteTransport) (symbol : string) : option Quote := dq_cache t !! symbol.

(** [set(symbol, quote)], or [delete(symbol)]. *)
Definition cacheMark (symbol : string) (quote : option Quote) (t : DbQuoteTransport) : DbQuoteTransport :=
  {| dq_cache := partial_alter (fun _ => quote) symbol (dq_cache t); dq_polling := dq_polling t |}.

(** The mark of an order book: its mark price, or the middle of its best prices. *)
Definition bookMark (ob : OrderbookRow) : number :=
  match ob_markPrice ob with Some mark => mark | None => ndiv (nadd (ob_bestBid ob) (ob_bestAsk ob)) (nint 2) end.

Definition usable (mark : number) : bool := isFinite mark && ngt mark (nint 0).

(** [now - ts.getTime() <= this.maxAgeMs] *)
Definition freshAt (maxAgeMs : number) (now ts : Z) : bool := nle (nint (now - ts)) maxAgeMs.

Definition markQuote (symbol : string) (ts : Z) (mark : number) : Quote :=
  {| qt_symbol := symbol; qt_ts := toISOString ts; qt_price := quantizePrice mark |}.

Section feed.
Context {X W : Type} (ops : FeedOps X W) (maxAgeMs : number).

(** The quote of a row that is there, fresh and usable. *)
Definition quoteOf (now : Z) (symbol : string) (source : option (Z * number)) : option Quote :=
  match source with
  | Some (ts, mark) => if freshAt maxAgeMs now ts && usable mark then Some (markQuote symbol ts mark) else None
  | None => None
  end.

Definition orElseM {A} (first : option A) (next : M X W (option A)) : M X W (option A) :=
  match first with Some a => ret (Some a) | None => next end.

Definition priceSource (row : option PriceRow) : option (Z * number) := (fun r => (pw_ts r, pw_price r)) <$> row.

Definition markFor (symbol : string) : M X W (option Quote) :=
  let! now := total (fo_now ops) in
  let! ob := fo_orderbookSnapshot ops (markQuery symbol) in
  orElseM (quoteOf now symbol ((fun r => (ob_ts r, bookMark r)) <$> ob))
    (let! tick := fo_marketTick ops (markQuery symbol) in
     orElseM (quoteOf now symbol (priceSource tick))
       (let! candle := fo_marketCandle ops (markQuery symbol) in
        ret (quoteOf now symbol (priceSource candle)))).

Definition refreshSymbol (symbol : string) : M X (DbQuoteTransport * W) unit :=
  let! quote := onWorld (markFor symbol) in
  modify (fun s => (cacheMark symbol quote (fst s), snd s)).

Definition refresh (symbols : list string) : M X (DbQuoteTransport * W) unit := forEach refreshSymbol symbols.

(** One poll: [this.refresh().catch(() => undefined)] *)
Definition poll (symbols : list string) : M X (DbQuoteTransport * W) unit := catch (refresh symbols) (fun _ => ret tt).

(** Begin polling, with one poll at once; nothing when it has begun. *)
Definition start (symbols : list string) : M X (DbQuoteTransport * W) unit :=
  let! t := gets fst in
  if dq_polling t then ret tt
  else
    do! modify (fun s => ({| dq_cache := dq_cache (fst s); dq_polling := true |}, snd s)) in
    poll symbols.

Definition stop : M X (DbQuoteTransport * W) unit :=
  modify (fun s => ({| dq_cache := dq_cache (fst s); dq_polling := false |}, snd s)).
End feed.

(** ** portfolio-ledger.ts *)

Record PortfolioLedgerConfig := { lc_name : string; lc_baseCurrency : string; lc_initialValue : number }.

Record EquityRow := {
  sn_equity : string;
  sn_exposure : string;
  sn_drawdown : string;
  sn_positions : gmap string Position
}.

(** [portfolio.findFirst] and [create] give the id of the row; [aggregate] the Number of
    the greatest equity of its snapshots; [upsert] creates and updates the same columns. *)
Record LedgerOps (X W : Type) := {
  lo_findPortfolio : string -> M X W (option string);
  lo_createPortfolio : string -> string -> string -> M X W string;
  lo_maxEquity : string -> M X W (option number);
  lo_upsertSnapshot : string -> Z -> EquityRow -> M X W unit
}.
Arguments lo_findPortfolio {X W}.
Arguments lo_createPortfolio {X W}.
Arguments lo_maxEquity {X W}.
Arguments lo_upsertSnapshot {X W}.

(** At most 1, at least 0, four decimals. *)
Definition quantizeDrawdown (n : number) : string :=
  let v := if isFinite n && ngt n (nint 0) then n else nint 0 in
  toFixed (nmin v (nint 1)) 4.

Record PortfolioLedger := { pl_portfolioId : option string; pl_peakEquity : number }.

Definition newLedger : PortfolioLedger := {| pl_portfolioId := None; pl_peakEquity := nint 0 |}.

(** The running peak recovered from the greatest persisted equity. *)
Definition recoverPeak (maxEquity : option number) (initialValue : number) : number :=
  let rawPeak := default (nint 0) maxEquity in
  nmax (if isFinite rawPeak then rawPeak else nint 0) initialValue.

Definition drawdownOf (peak equity : number) : number :=
  if ngt peak (nint 0) then ndiv (nsub peak equity) peak else nint 0.

(** The row of a valuation, measured against a peak. *)
Definition snapshotRow (peak : number) (valuation : AccountValuation) (positions : gmap string Position) : EquityRow := {|
  sn_equity := av_equity valuation;
  sn_exposure := av_grossExposure valuation;
  sn_drawdown := quantizeDrawdown (drawdownOf peak (parseDecimal (av_equity valuation)));
  sn_positions := positions |}.

Section ledger.
Context {X W : Type} (error : string -> X) (ops : LedgerOps X W) (config : PortfolioLedgerConfig).

Definition init : M X (PortfolioLedger * W) unit :=
  let! existing := onWorld (lo_findPortfolio ops (lc_name config)) in
  let! id := match existing with
             | Some id => ret id
             | None => onWorld (lo_createPortfolio ops (lc_name config) (lc_baseCurrency config) (quantizePnl (lc_initialValue config)))
             end in
  do! modify (fun s => ({| pl_portfolioId := Some id; pl_peakEquity := pl_peakEquity (fst s) |}, snd s)) in
  let! maxEquity := onWorld (lo_maxEquity ops id) in
  modify (fun s => ({| pl_portfolioId := pl_portfolioId (fst s);
                       pl_peakEquity := recoverPeak maxEquity (lc_initialValue config) |}, snd s)).

Definition record (valuation : AccountValuation) (positions : gmap string Position) (at_ : Z) : M X (PortfolioLedger * W) unit :=
  let! self := gets fst in
  match pl_portfolioId self with
  | None => throw (error "portfolio ledger not initialized — refusing to record (fail-closed)")
  | Some id =>
      let peak := nmax (pl_peakEquity self) (parseDecimal (av_equity valuation)) in
      do! modify (fun s => ({| pl_portfolioId := pl_portfolioId (fst s); pl_peakEquity := peak |}, snd s)) in
      onWorld (lo_upsertSnapshot ops id at_ (snapshotRow peak valuation positions))
  end.
End ledger.

(** [PORTFOLIO_LEDGER=on] *)
Definition readPortfolioLedgerEnabled (env : string -> option string) : bool := bool_decide (env "PORTFOLIO_LEDGER" = Some "on").

(** The name and the base currency of the portfolio. *)
Definition readPortfolioLedgerIdentity (env : string -> option string) : string * string :=
  let read key fallback := match trim (default "" (env key)) with "" => fallback | text => text end in
  (read "PORTFOLIO_NAME" "production", read "PORTFOLIO_BASE_CURRENCY" "USDT").
