(* ===== verification/VenueFacts.v ===== *)
(** * VenueFacts: the lemmas on the venue transports and the ledger

    The event stream of an outcome; what a call of the transport sends, over a world that
    records every request with its answer; the marks of the feed; and the laws of the
    ledger's database with the invariant of its peak. *)

From stdpp Require Import gmap.
From S2P Require Import Prelude JsNumber JsNumberFacts JsText JsDecimal JsDecimalFacts Json Effects StageTypes MarketState Portfolio.
From S2P Require Import MarketOrder MarketJournal MarketFacts Venue MarketEdge.

Local Open Scope string_scope.
Local Open Scope list_scope.
Local Open Scope eff_scope.

(** ** The stream of an outcome *)

(** The quantity filled after each trade. *)
Fixpoint runningTotals (cum : number) (trades : list VenueTrade) : list number :=
  match trades with
  | [] => []
  | t :: trades => let next := nadd cum (vt_amount t) in next :: runningTotals next trades
  end.

Definition totalOf (cum : number) (trades : list VenueTrade) : number := default cum (last (runningTotals cum trades)).

(** The data of a fill: the trade's amount and price, and the total after it. *)
Definition tradeData (t : VenueTrade) (total : number) : OrderFillData :=
  {| fd_fillQty := quantizeQty (vt_amount t); fd_fillPrice := quantizePrice (vt_price t); fd_cumQty := quantizeQty total |}.

Section order.
Context (order : Order).
Let ordered := parseDecimal (or_qty order).

Definition overfills (total : number) : bool := ngt total (nadd (parseDecimal (or_qty order)) QTY_EPS).

(** The events from the seq-th on are the order's, numbered from seq. *)
Fixpoint numberedFrom (seq : nat) (events : list OrderEvent) : Prop :=
  match events with
  | [] => True
  | e :: events => e = baseEvent order (oe_kind e) seq /\ numberedFrom (S seq) events
  end.

Lemma numberedFrom_app seq l l' : numberedFrom seq (l ++ l') <-> numberedFrom seq l /\ numberedFrom (seq + length l) l'.
Proof.
  revert seq. induction l as [|e l IH]; intros seq; simpl; [rewrite Nat.add_0_r; tauto|].
  rewrite IH, Nat.add_succ_comm. tauto.
Qed.

Lemma totalOf_cons cum t trades : totalOf cum (t :: trades) = totalOf (nadd cum (vt_amount t)) trades.
Proof. unfold totalOf. simpl. rewrite last_cons. by destruct (last (runningTotals _ trades)). Qed.

(** The fill events: they exist unless a total overfills, they are numbered, they carry the
    trades, and only the last of them can be FILLED. *)
Lemma fillEvents_spec trades cum seq :
  match fillEvents order cum seq trades with
  | inl _ => Exists (fun x => overfills x = true) (runningTotals cum trades)
  | inr (events, total) =>
      Forall (fun x => overfills x = false) (runningTotals cum trades)
      /\ total = totalOf cum trades /\ numberedFrom seq events
      /\ omap fillData events = zip_with tradeData trades (runningTotals cum trades)
      /\ length events = length trades
      /\ pathOf events = match trades with
                         | [] => []
                         | _ => replicate (pred (length trades)) OR_PARTIALLY_FILLED
                                ++ [if within (totalOf cum trades) ordered then OR_FILLED else OR_PARTIALLY_FILLED]
                         end
  end.
Proof.
  revert cum seq. induction trades as [|t trades IH]; intros cum seq; simpl; [by split_and!|].
  set (next := nadd cum (vt_amount t)). change (ngt next (nadd (parseDecimal (or_qty order)) QTY_EPS)) with (overfills next).
  destruct (overfills next) eqn:EO; [by left|].
  specialize (IH next (S seq)). destruct (fillEvents order next (S seq) trades) as [err|[events total]]; [by right|].
  destruct IH as (HF & HT & HN & HD & HL & HP). rewrite totalOf_cons. fold next. split_and!.
  - by constructor.
  - exact HT.
  - simpl. by split.
  - simpl. destruct (within next _ && _); simpl; f_equal; exact HD.
  - simpl. by rewrite HL.
  - simpl. rewrite HP. destruct trades as [|t' trades]; simpl.
    + rewrite andb_true_r. change (totalOf next []) with next. unfold ordered. by destruct (within next _).
    + by rewrite andb_false_r.
Qed.
End order.

Lemma legalPath_fills state n s path :
  state ∈ [Some OR_ACCEPTED; Some OR_PARTIALLY_FILLED] -> s ∈ [OR_FILLED; OR_PARTIALLY_FILLED] ->
  legalPath (Some s) path -> legalPath state (replicate n OR_PARTIALLY_FILLED ++ s :: path).
Proof.
  intros Hst Hs HP. assert (TERMINAL state = false) as HT by (by repeat (apply elem_of_cons in Hst as [->|Hst]; [done|]); inversion Hst).
  revert state Hst HT. induction n as [|n IH]; intros state Hst HT; simpl.
  - split_and!; [|done|done]. by repeat (apply elem_of_cons in Hs as [->|Hs]; [exact Hst|]); inversion Hs.
  - split_and!; [exact Hst|done|]. apply IH; [right; left|done].
Qed.

(** ** What a call sends *)

Definition Exchange : Type := VenueRequest * VenueAnswer.

(** The world that records every request with its answer. *)
Definition recording {W} (ops : VenueOps W) : VenueOps (W * list Exchange) := {|
  vo_fetch q w := let '(a, w') := vo_fetch ops q (fst w) in (a, (w', snd w ++ [(q, a)]));
  vo_now w := let '(n, w') := vo_now ops (fst w) in (n, (w', snd w)) |}.

Definition callsTo (method : string) (l : list Exchange) : list Exchange :=
  List.filter (fun x => bool_decide (vq_method (fst x) = method)) l.

(** What the answer of a call is read as. *)
Definition reading (x : Exchange) : VenueError + Json := readEnvelope (vq_method (fst x)) (snd x).

(** An answer that says the token is not valid. *)
Definition refusedToken (r : VenueError + Json) : Prop := exists err, r = inl err /\ unauthorized err = true.

Section sends.
Context {W : Type} (ops : VenueOps W) (self : DeribitOrderTransport).
Let rec := recording ops.

(** From any state, a call only adds to the record, and what it adds is related to its
    result. *)
Definition sends {A} (m : VM (W := W * list Exchange) A) (P : list Exchange -> VenueError + A -> Prop) : Prop :=
  forall t w l, exists new t' w' r, m (t, (w, l)) = (r, (t', (w', l ++ new))) /\ P new r.

Lemma sends_mono {A} (m : VM A) (P Q : list Exchange -> VenueError + A -> Prop) :
  sends m P -> (forall new r, P new r -> Q new r) -> sends m Q.
Proof. intros H HPQ t w l. destruct (H t w l) as (new & t' & w' & r & E & HP). exists new, t', w', r. auto. Qed.

Lemma sends_pure {A} (m : VM A) r : (forall s, m s = (r, s)) -> sends m (fun new r' => new = [] /\ r' = r).
Proof. intros H t w l. exists [], t, w, r. by rewrite H, app_nil_r. Qed.

Lemma sends_ret {A} (a : A) : sends (ret a) (fun new r => new = [] /\ r = inr a).
Proof. by apply sends_pure. Qed.

Lemma sends_throw {A} err : sends (A := A) (throw err) (fun new r => new = [] /\ r = inl err).
Proof. by apply sends_pure. Qed.

Lemma sends_lift {A} (v : VenueError + A) : sends (lift v) (fun new r => new = [] /\ r = v).
Proof. destruct v; [apply sends_throw|apply sends_ret]. Qed.

Lemma sends_onState f : sends (onState f) (fun new r => new = [] /\ r = inr tt).
Proof. intros t w l. exists [], (f t), w, (inr tt). by rewrite app_nil_r. Qed.

(** Reading the state sends nothing. *)
Lemma sends_gets {A B} (f : TransportState * (W * list Exchange) -> B) (k : B -> VM A) P :
  (forall b, sends (k b) P) -> sends (bind (gets f) k) P.
Proof. intros H t w l. apply (H (f (t, (w, l)))). Qed.

Lemma sends_now {A} (k : number -> VM A) P : (forall n, sends (k n) P) -> sends (bind (now rec) k) P.
Proof.
  intros H t w l. unfold bind, now, onWorld, total. simpl. destruct (vo_now ops w) as [n w']. simpl. apply (H n).
Qed.

Lemma sends_bind {A B} (m : VM A) (k : A -> VM B) P (Q : list Exchange -> VenueError + B -> Prop) :
  sends m P -> (forall err new, P new (inl err) -> Q new (inl err)) ->
  (forall a, sends (k a) (fun new' r => forall new, P new (inr a) -> Q (new ++ new') r)) -> sends (bind m k) Q.
Proof.
  intros Hm Hx Hk t w l. destruct (Hm t w l) as (new & t' & w' & r & E & HP). unfold bind. rewrite E.
  destruct r as [err|a]; [by exists new, t', w', (inl err); auto|].
  destruct (Hk a t' w' (l ++ new)) as (new' & t'' & w'' & r' & E' & HQ).
  exists (new ++ new'), t'', w'', r'. rewrite E', app_assoc. auto.
Qed.

Lemma sends_catch {A} (m : VM A) h P (Q : list Exchange -> VenueError + A -> Prop) :
  sends m P -> (forall a new, P new (inr a) -> Q new (inr a)) ->
  (forall err, sends (h err) (fun new' r => forall new, P new (inl err) -> Q (new ++ new') r)) -> sends (catch m h) Q.
Proof.
  intros Hm Hx Hk t w l. destruct (Hm t w l) as (new & t' & w' & r & E & HP). unfold catch. rewrite E.
  destruct r as [err|a]; [|by exists new, t', w', (inr a); auto].
  destruct (Hk err t' w' (l ++ new)) as (new' & t'' & w'' & r' & E' & HQ).
  exists (new ++ new'), t'', w'', r'. rewrite E', app_assoc. auto.
Qed.

Lemma sends_rpc method params tok :
  sends (rpc rec self method params tok)
    (fun new r => exists x, new = [x] /\ vq_method (fst x) = method /\ vq_params (fst x) = params /\ r = reading x).
Proof.
  intros t w l. unfold rpc, onState, bind, modify, gets, onWorld, total. simpl. set (q := {| vq_url := _ |}).
  destruct (vo_fetch ops q w) as [a w'] eqn:E. simpl.
  destruct (readEnvelope method a) as [err|v] eqn:ER; simpl.
  - eexists [(q, a)], _, _, _. split; [done|]. exists (q, a). unfold reading. simpl. by rewrite ER.
  - eexists [(q, a)], _, _, _. split; [done|]. exists (q, a). unfold reading. simpl. by rewrite ER.
Qed.

Definition isAuth (x : Exchange) : Prop := vq_method (fst x) = "public/auth".

(** Every request of the call satisfies p. *)
Definition sendsOnly {A} (p : Exchange -> Prop) (m : VM A) : Prop := sends m (fun new _ => Forall p new).

Lemma sendsOnly_bind {A B} p (m : VM A) (k : A -> VM B) :
  sendsOnly p m -> (forall a, sendsOnly p (k a)) -> sendsOnly p (bind m k).
Proof.
  intros Hm Hk. eapply sends_bind; [exact Hm|done|]. intros a. eapply sends_mono; [apply Hk|].
  intros new r HF new' HF'. by apply Forall_app.
Qed.

Lemma sendsOnly_catch {A} p (m : VM A) h : sendsOnly p m -> (forall err, sendsOnly p (h err)) -> sendsOnly p (catch m h).
Proof.
  intros Hm Hk. eapply sends_catch; [exact Hm|done|]. intros err. eapply sends_mono; [apply Hk|].
  intros new r HF new' HF'. by apply Forall_app.
Qed.

Lemma sendsOnly_silent {A} p (m : VM A) r : sends m (fun new r' => new = [] /\ r' = r) -> sendsOnly p m.
Proof. intros H. eapply sends_mono; [exact H|]. by intros new r' [-> _]. Qed.

Lemma sendsOnly_rpc (p : Exchange -> Prop) method params tok :
  (forall x, vq_method (fst x) = method -> vq_params (fst x) = params -> p x) -> sendsOnly p (rpc rec self method params tok).
Proof. intros H. eapply sends_mono; [apply sends_rpc|]. intros new r (x & -> & Hm & Hp & _). constructor; [by apply H|done]. Qed.

Lemma sendsOnly_ret {A} p (a : A) : sendsOnly p (ret a).
Proof. eapply sendsOnly_silent, sends_ret. Qed.

Lemma sendsOnly_throw {A} p err : sendsOnly p (throw err : VM A).
Proof. eapply sendsOnly_silent, sends_throw. Qed.

Lemma sendsOnly_lift {A} p (v : VenueError + A) : sendsOnly p (lift v).
Proof. eapply sendsOnly_silent, sends_lift. Qed.

Lemma sendsOnly_onState p f : sendsOnly p (onState f).
Proof. eapply sendsOnly_silent, sends_onState. Qed.

Lemma sendsOnly_gets {A B} p (f : TransportState * (W * list Exchange) -> B) (k : B -> VM A) :
  (forall b, sendsOnly p (k b)) -> sendsOnly p (bind (gets f) k).
Proof. apply sends_gets. Qed.

Lemma sendsOnly_now {A} p (k : number -> VM A) : (forall n, sendsOnly p (k n)) -> sendsOnly p (bind (now rec) k).
Proof. apply sends_now. Qed.

Create HintDb sends.
#[local] Hint Resolve sendsOnly_ret sendsOnly_throw sendsOnly_lift sendsOnly_onState sendsOnly_gets sendsOnly_now sendsOnly_bind
  sendsOnly_catch : sends.

Lemma sends_authenticate : sendsOnly isAuth (authenticate rec self).
Proof.
  apply sendsOnly_bind; [by apply sendsOnly_rpc|]. intros result.
  destruct (stringOf (prop "access_token" result)), (finitePositive (prop "expires_in" result)); auto 10 with sends.
Qed.

Lemma sends_token : sendsOnly isAuth (token rec self).
Proof.
  apply sendsOnly_gets. intros s. destruct (ts_accessToken s); [|apply sends_authenticate].
  apply sendsOnly_now. intros at_. destruct (nlt _ _); [apply sendsOnly_ret|apply sends_authenticate].
Qed.

(** A private call sends its request at most twice, and the second time only when the
    first was refused for its token; its result is the reading of its last answer, unless
    no token was to be had. *)
Definition privateCalls (method : string) (params : list (string * Json)) (new : list Exchange) (r : VenueError + Json) : Prop :=
  Forall (fun x => isAuth x \/ vq_method (fst x) = method /\ vq_params (fst x) = params) new
  /\ match List.map reading (callsTo method new) with
     | [] => exists err, r = inl err
     | [x] => x = r \/ refusedToken x /\ exists err, r = inl err
     | [x; y] => refusedToken x /\ y = r
     | _ => False
     end.

Lemma callsTo_auth method l : method <> "public/auth" -> Forall isAuth l -> callsTo method l = [].
Proof.
  intros Hm. induction 1 as [|x l Hx _ IH]; [done|]. unfold callsTo in *. simpl. by rewrite Hx, bool_decide_false by auto.
Qed.

Lemma callsTo_app method l l' : callsTo method (l ++ l') = callsTo method l ++ callsTo method l'.
Proof. apply List.filter_app. Qed.

Lemma callsTo_own method x : vq_method (fst x) = method -> callsTo method [x] = [x].
Proof. intros Hx. unfold callsTo. simpl. by rewrite bool_decide_true. Qed.

(** A token and a request with it. *)
Lemma sends_tokened method params :
  method <> "public/auth" ->
  sends (let! t := token rec self in rpc rec self method params (Some t))
    (fun new r => Forall (fun x => isAuth x \/ vq_method (fst x) = method /\ vq_params (fst x) = params) new
       /\ match List.map reading (callsTo method new) with [] => exists err, r = inl err | [x] => x = r | _ => False end).
Proof.
  intros Hm. eapply sends_bind; [apply sends_token| |].
  - intros err new HF. rewrite (callsTo_auth _ _ Hm HF). split; [|by exists err]. eapply Forall_impl; [exact HF|]. by left.
  - intros t. eapply sends_mono; [apply sends_rpc|]. intros new r (x & -> & Hx & Hp & Hr) new' HF. split.
    + apply Forall_app. split; [eapply Forall_impl; [exact HF|]; by left|]. constructor; [by right|done].
    + by rewrite callsTo_app, (callsTo_auth _ _ Hm HF), callsTo_own.
Qed.

Lemma sends_privateRpc method params :
  method <> "public/auth" -> sends (privateRpc rec self method params) (privateCalls method params).
Proof.
  intros Hm. pose proof (sends_tokened method params Hm) as HT.
  eapply sends_catch; [exact HT| |].
  - intros a new [HF HC]. split; [exact HF|]. destruct (List.map _ _) as [|x [|? ?]]; [by destruct HC|by left|by destruct HC].
  - intros err. destruct (unauthorized err) eqn:EU.
    + eapply sends_bind; [apply sends_onState|by intros ? ? [_ ?]|]. intros []. eapply sends_mono; [exact HT|].
      intros new r [HF HC] new' [-> _] new'' [HF' HC']. simpl. split; [by apply Forall_app|].
      rewrite callsTo_app, List.map_app.
      assert (forall x, x = inl err -> refusedToken x) as HR by (intros x ->; by exists err).
      destruct (List.map reading (callsTo method new'')) as [|x [|? ?]]; simpl in *; [| |by destruct HC'];
        destruct (List.map reading (callsTo method new)) as [|y [|? ?]]; simpl in *; try done; auto.
    + eapply sends_mono; [apply sends_throw|]. intros new r [-> ->] new' [HF HC]. rewrite app_nil_r. split; [done|].
      destruct (List.map _ _) as [|x [|? ?]]; [by exists err|by left|by destruct HC].
Qed.

(** A private call that returned was answered with its result. *)
Lemma privateCalls_answered method params new v :
  privateCalls method params new (inr v) -> method <> "public/auth" ->
  exists x, x ∈ new /\ vq_method (fst x) = method /\ vq_params (fst x) = params /\ reading x = inr v.
Proof.
  intros [HF HC] Hm.
  assert (exists x, x ∈ callsTo method new /\ reading x = inr v) as (x & Hx & Hr).
  { destruct (callsTo method new) as [|x [|y [|? ?]]]; simpl in HC; [by destruct HC| | |by destruct HC].
    - destruct HC as [HC|(_ & err & HC)]; [|done]. exists x. split; [left|done].
    - destruct HC as [_ HC]. exists y. split; [right; left|done]. }
  apply list_elem_of_In, List.filter_In in Hx as [Hx Hmx%bool_decide_eq_true]. apply list_elem_of_In in Hx.
  rewrite Forall_forall in HF. exists x. destruct (HF x Hx) as [Ha|[_ Hp]]; [|done]. unfold isAuth in Ha. congruence.
Qed.

(** ** Placing an order *)

Context (order : Order).

Definition isOrderCall (x : Exchange) : Prop := vq_method (fst x) = "private/buy" \/ vq_method (fst x) = "private/sell".

Definition otherCall (x : Exchange) : Prop := ~ isOrderCall x.

Lemma otherCall_method x method :
  vq_method (fst x) = method -> method <> "private/buy" -> method <> "private/sell" -> otherCall x.
Proof. intros <- H1 H2 [H|H]; congruence. Qed.

Lemma privateCalls_other method params new r :
  privateCalls method params new r -> method <> "private/buy" -> method <> "private/sell" -> Forall otherCall new.
Proof.
  intros [HF _] H1 H2. eapply Forall_impl; [exact HF|]. intros x [Ha|[Hm _]]; [by eapply otherCall_method|].
  by eapply otherCall_method.
Qed.

(** The outcome is the one the venue has under the label of the order. *)
Definition reportedByLabel (o : VenueOrderOutcome) (new : list Exchange) : Prop :=
  exists x first rest y trades,
    x ∈ new /\ vq_method (fst x) = "private/get_order_state_by_label"
    /\ field "label" (vq_params (fst x)) = J_string (venueLabel (or_orderId order)) /\ reading x = inr (J_array (first :: rest))
    /\ orderFields first = (vo_orderState o, vo_venueOrderId o)
    /\ y ∈ new /\ vq_method (fst y) = "private/get_user_trades_by_order"
    /\ field "order_id" (vq_params (fst y)) = J_string (vo_venueOrderId o) /\ reading y = inr trades
    /\ parseTrades trades "private/get_user_trades_by_order" = inr (vo_trades o).

Lemma sends_recover inst :
  sends (recoverByLabel rec self order inst)
    (fun new r => Forall otherCall new /\ forall o, r = inr (Some o) -> reportedByLabel o new).
Proof.
  eapply sends_bind; [by apply sends_privateRpc| |].
  { intros err new HP. split; [by eapply privateCalls_other|done]. }
  intros v. set (P := privateCalls _ _).
  assert (forall new, P new (inr v) -> Forall otherCall new) as HO by (intros new HP; by eapply privateCalls_other).
  assert (sends (A := option VenueOrderOutcome) (ret None)
    (fun new' r => forall new, P new (inr v) -> Forall otherCall (new ++ new') /\ forall o, r = inr (Some o) -> reportedByLabel o (new ++ new'))) as HN.
  { eapply sends_mono; [apply sends_ret|]. intros new r [-> ->] new' HP. rewrite app_nil_r. split; [by apply HO|done]. }
  destruct v as [| | | | |[|first rest]|]; try exact HN. destruct (orderFields first) as [state id] eqn:EF.
  destruct (bool_decide (state = "") || bool_decide (id = "")).
  { eapply sends_mono; [apply sends_throw|]. intros new r [-> ->] new' HP. rewrite app_nil_r. split; [by apply HO|done]. }
  eapply sends_bind; [by apply sends_privateRpc| |].
  { intros err new HP new' HP'. split; [|done]. apply Forall_app. split; [by apply HO|]. by eapply privateCalls_other. }
  intros raw. eapply sends_bind; [apply sends_lift| |].
  { intros err new [-> Hr] new' HP new'' HP'. rewrite app_nil_r. split; [|done].
    apply Forall_app. split; [by apply HO|]. by eapply privateCalls_other. }
  intros trades. eapply sends_mono; [apply sends_ret|]. intros new r [-> ->] new1 [-> Ht] new2 HP2 new3 HP3. rewrite !app_nil_r.
  split; [apply Forall_app; split; [by apply HO|by eapply privateCalls_other]|]. intros o [= <-].
  destruct (privateCalls_answered _ _ _ _ HP3 ltac:(done)) as (x & Hx & Hm & Hp & Hr).
  destruct (privateCalls_answered _ _ _ _ HP2 ltac:(done)) as (y & Hy & Hm' & Hp' & Hr').
  exists x, first, rest, y, raw. rewrite Hp, Hp'. split_and!; try done; apply elem_of_app; auto.
Qed.

(** At most one call, or a second one after a first that was refused for its token. *)
Definition onceOrRefused (l : list (VenueError + Json)) : Prop :=
  match l with [] | [_] => True | [x; _] => refusedToken x | _ => False end.

Lemma orderMethod_call : orderMethod order = "private/buy" \/ orderMethod order = "private/sell".
Proof. unfold orderMethod. destruct (or_side order); auto. Qed.

Lemma orderMethod_auth : orderMethod order <> "public/auth".
Proof. by destruct orderMethod_call as [->| ->]. Qed.

Lemma callsTo_other l : Forall otherCall l -> callsTo (orderMethod order) l = [].
Proof.
  induction 1 as [|x l Hx _ IH]; [done|]. unfold callsTo in *. simpl. rewrite bool_decide_false; [done|].
  intros E. apply Hx. unfold isOrderCall. rewrite E. apply orderMethod_call.
Qed.

(** The outcome is the venue's answer to the order, or what it has under the label. *)
Definition venueReported (o : VenueOrderOutcome) (new : list Exchange) : Prop :=
  (exists x v, x ∈ new /\ vq_method (fst x) = orderMethod order /\ reading x = inr v
     /\ parseOrderOutcome v (orderMethod order) = inr o)
  \/ reportedByLabel o new.

Lemma reported_app o new new' : venueReported o new -> venueReported o (new ++ new').
Proof.
  intros [(x & v & Hx & H)|(x & f & rest & y & t & Hx & H1 & H2 & H3 & H4 & Hy & H5)]; [left|right].
  - exists x, v. split; [|done]. apply elem_of_app. by left.
  - exists x, f, rest, y, t. split_and!; try done; try (apply elem_of_app; by left); apply H5.
Qed.

Lemma reportedByLabel_later o new new' : reportedByLabel o new' -> reportedByLabel o (new ++ new').
Proof.
  intros (x & f & rest & y & t & Hx & H1 & H2 & H3 & H4 & Hy & H5).
  exists x, f, rest, y, t. split_and!; try done; try (apply elem_of_app; by right); apply H5.
Qed.

Lemma reported_later o new new' : venueReported o new' -> venueReported o (new ++ new').
Proof.
  intros [(x & v & Hx & H)|H]; [left|right; by apply reportedByLabel_later]. exists x, v. split; [|done]. apply elem_of_app. by right.
Qed.

(** What placing sends: the order requests are the order's, with these parameters, and a
    second one only follows a refused token; an outcome is one the venue reported. *)
Definition placed (params : list (string * Json)) (new : list Exchange) : Prop :=
  Forall (fun x => isOrderCall x -> vq_method (fst x) = orderMethod order /\ vq_params (fst x) = params) new
  /\ onceOrRefused (List.map reading (callsTo (orderMethod order) new)).

Lemma placed_other params new new' : placed params new -> Forall otherCall new' -> placed params (new ++ new').
Proof.
  intros [HF HC] HO. split.
  - apply Forall_app. split; [done|]. eapply Forall_impl; [exact HO|]. intros x Hx Hc. by destruct Hx.
  - by rewrite callsTo_app, (callsTo_other _ HO), app_nil_r.
Qed.

Lemma placed_prefix params new new' : Forall otherCall new -> placed params new' -> placed params (new ++ new').
Proof.
  intros HO [HF HC]. split.
  - apply Forall_app. split; [|done]. eapply Forall_impl; [exact HO|]. intros x Hx Hc. by destruct Hx.
  - by rewrite callsTo_app, (callsTo_other _ HO).
Qed.

Lemma placed_private params new r : privateCalls (orderMethod order) params new r -> placed params new.
Proof.
  intros [HF HC]. split.
  - eapply Forall_impl; [exact HF|]. intros x [Ha|[Hm Hp]] Hc; [|done]. unfold isAuth in Ha. by destruct Hc as [Hc|Hc]; rewrite Hc in Ha.
  - destruct (List.map _ _) as [|x [|y [|? ?]]]; simpl; [done|done|by destruct HC|by destruct HC].
Qed.

Lemma sends_submit inst amount name :
  sends (submitOrder rec self order inst amount name)
    (fun new r => placed (orderParams order name amount) new /\ forall o, r = inr o -> venueReported o new).
Proof.
  set (params := orderParams order name amount).
  assert (sends (let! result := privateRpc rec self (orderMethod order) params in
                 lift (parseOrderOutcome result (orderMethod order)))
    (fun new r => placed params new /\ forall o, r = inr o -> venueReported o new)) as HS.
  { eapply sends_bind; [by apply sends_privateRpc, orderMethod_auth| |].
    - intros err new HP. split; [by eapply placed_private|done].
    - intros v. eapply sends_mono; [apply sends_lift|]. intros new r [-> ->] new' HP. rewrite app_nil_r.
      split; [by eapply placed_private|]. intros o Ho. left.
      destruct (privateCalls_answered _ _ _ _ HP orderMethod_auth) as (x & Hx & Hm & _ & Hr). by exists x, v. }
  eapply sends_catch; [exact HS|intros o new [HP HO]; by split; [|intros ? [= <-]; by apply HO]|].
  intros err. destruct (definitive err).
  { eapply sends_mono; [apply sends_throw|]. intros new r [-> ->] new' [HP _]. rewrite app_nil_r. by split. }
  eapply sends_bind; [eapply (sends_catch _ _ _ (fun new r => Forall otherCall new /\ forall o, r = inr (Some o) -> reportedByLabel o new));
    [apply sends_recover|done|]| |].
  - intros err'. eapply sends_mono; [apply sends_throw|]. intros new r [-> ->] new' [HF _]. rewrite app_nil_r. by split.
  - intros err' new [HF _] new' [HP _]. split; [by apply placed_other|done].
  - intros [o|]; (eapply sends_mono; [apply sends_ret || apply sends_throw|]); intros new r [-> ->] new1 [HF HR] new2 [HP _];
      rewrite app_nil_r; (split; [by apply placed_other|]); [|done].
    intros o' [= <-]. right. by apply reportedByLabel_later, HR.
Qed.

(** The outcome after an open order was cancelled. *)
Definition settled (o : VenueOrderOutcome) : VenueOrderOutcome :=
  if bool_decide (vo_orderState o = "open") then
    {| vo_orderState := "cancelled"; vo_venueOrderId := vo_venueOrderId o; vo_trades := vo_trades o |}
  else o.

Lemma sends_instrument name : sendsOnly otherCall (instrument rec self name).
Proof.
  apply sendsOnly_gets. intros s. destruct (ts_instrumentCache s !! name); [apply sendsOnly_ret|].
  apply sendsOnly_bind; [apply sendsOnly_rpc; intros x Hx _; by eapply otherCall_method|].
  intros raw. apply sendsOnly_bind; [apply sendsOnly_lift|]. intros inst.
  apply sendsOnly_bind; [apply sendsOnly_onState|]. intros []. apply sendsOnly_ret.
Qed.

Definition nothingAsked {A} (new : list Exchange) (r : VenueError + A) : Prop := Forall otherCall new /\ exists err, r = inl err.

(** Placing either asks nothing of the venue and throws, or sends the order with a routable
    amount and returns the stream of an outcome the venue reported. *)
Definition placement (new : list Exchange) (r : VenueError + list OrderEvent) : Prop :=
  nothingAsked new r
  \/ exists name inst, mapSymbol self (or_symbol order) = inr name /\ routable (venueAmount order inst) inst = true
       /\ placed (orderParams order name (venueAmount order inst)) new
       /\ forall events, r = inr events -> exists o, venueReported o new /\ buildEvents order (settled o) = inr events.

(** The end of placing, once the venue has venueReported an outcome. *)
Lemma sends_settle o :
  sends (let! outcome :=
           if bool_decide (vo_orderState o = "open") then
             let! _ := privateRpc rec self "private/cancel" [("order_id", J_string (vo_venueOrderId o))] in
             ret {| vo_orderState := "cancelled"; vo_venueOrderId := vo_venueOrderId o; vo_trades := vo_trades o |}
           else ret o in
         lift (buildEvents order outcome))
    (fun new r => Forall otherCall new /\ forall events, r = inr events -> buildEvents order (settled o) = inr events).
Proof.
  eapply (sends_bind _ _ (fun new r => Forall otherCall new /\ forall o', r = inr o' -> o' = settled o)).
  - unfold settled. case_bool_decide.
    + eapply sends_bind; [by apply sends_privateRpc|intros err new HP; split; [by eapply privateCalls_other|done]|].
      intros v. eapply sends_mono; [apply sends_ret|]. intros new r [-> ->] new' HP. rewrite app_nil_r.
      split; [by eapply privateCalls_other|]. by intros o' [= <-].
    + eapply sends_mono; [apply sends_ret|]. intros new r [-> ->]. split; [constructor|]. by intros o' [= <-].
  - by intros err new [HF _].
  - intros o'. eapply sends_mono; [apply sends_lift|]. intros new r [-> ->] new' [HF HS]. rewrite app_nil_r.
    split; [done|]. by rewrite (HS o' eq_refl).
Qed.

Lemma sends_place : sends (place rec self order) placement.
Proof.
  eapply sends_bind; [apply sends_lift|intros err new [-> _]; left; split; [constructor|by exists err]|].
  intros name. eapply sends_bind; [apply sends_instrument| |].
  { intros err new HF new' [-> _]. left. split; [done|by exists err]. }
  intros inst. cbv zeta. destruct (routable (venueAmount order inst) inst) eqn:ER; simpl negb; cbv iota.
  2: { eapply sends_mono; [apply sends_throw|]. intros new r [-> ->] new1 HF new2 [-> _]. rewrite app_nil_r.
       left. split; [done|by eexists]. }
  set (params := orderParams order name (venueAmount order inst)).
  eapply (sends_bind _ _ (fun new r => placed params new /\ forall o, r = inr o -> venueReported o new)); [apply sends_submit| |].
  - intros err new [HP _] new1 HF new2 [-> Hn]. right. exists name, inst. split_and!; [done|done| |done].
    by apply (placed_prefix _ new1).
  - intros o. eapply sends_mono; [apply sends_settle|]. intros new r [HF HE] new1 [HP HO] new2 HF2 new3 [-> Hn].
    right. exists name, inst. split_and!; [done|done| |].
    + simpl. apply placed_prefix; [done|]. by apply placed_other.
    + intros events Hr. exists o. split; [|by apply HE]. simpl. by apply reported_later, reported_app, HO.
Qed.
End sends.

(** ** The marks of the feed *)

(** Prisma's [findFirst] returns a row that satisfies its [where]. *)
Class FeedLaws {X W : Type} (ops : FeedOps X W) := {
  orderbook_found q w :
    wp (fo_orderbookSnapshot ops q)
      (fun r _ => forall row, r = inr (Some row) -> ob_symbol row = mq_symbol q /\ ob_exchange row <> mq_exchangeNot q) w;
  tick_found q w :
    wp (fo_marketTick ops q)
      (fun r _ => forall row, r = inr (Some row) -> pw_symbol row = mq_symbol q /\ pw_exchange row <> mq_exchangeNot q) w;
  candle_found q w :
    wp (fo_marketCandle ops q)
      (fun r _ => forall row, r = inr (Some row) -> pw_symbol row = mq_symbol q /\ pw_exchange row <> mq_exchangeNot q) w
}.

Section feed.
Context {X W : Type} (ops : FeedOps X W) `{!FeedLaws ops} (maxAgeMs : number).

(** A row of the database that a mark can rest on: symbol, venue, time and price. *)
Inductive SourceRow := BookRow (row : OrderbookRow) | TickRow (row : PriceRow) | CandleRow (row : PriceRow).

Definition sourceOf (r : SourceRow) : string * string * Z * number :=
  match r with
  | BookRow r => (ob_symbol r, ob_exchange r, ob_ts r, bookMark r)
  | TickRow r | CandleRow r => (pw_symbol r, pw_exchange r, pw_ts r, pw_price r)
  end.

(** A quote rests on a row of the symbol and a real venue, which at the clock's reading was
    fresh, and whose finite positive price it carries. *)
Definition restsOn (symbol : string) (quote : Quote) : Prop :=
  exists w r exchange ts price,
    sourceOf r = (symbol, exchange, ts, price) /\ exchange <> "DEMO"
    /\ freshAt maxAgeMs (fst (fo_now ops w)) ts = true /\ usable price = true /\ quote = markQuote symbol ts price.

Lemma quoteOf_rests w r symbol exchange ts price :
  sourceOf r = (symbol, exchange, ts, price) -> exchange <> "DEMO" ->
  forall q, quoteOf maxAgeMs (fst (fo_now ops w)) symbol (Some (ts, price)) = Some q -> restsOn symbol q.
Proof.
  intros Hs Hd q. simpl. destruct (freshAt _ _ _) eqn:EF; [|done]. destruct (usable price) eqn:EU; [|done]. simpl.
  intros [= <-]. by exists w, r, exchange, ts, price.
Qed.

Lemma wp_orElseM {A} (first : option A) (next : M X W (option A)) (P : A -> Prop) w :
  (forall a, first = Some a -> P a) -> wp next (fun r _ => forall a, r = inr (Some a) -> P a) w ->
  wp (orElseM first next) (fun r _ => forall a, r = inr (Some a) -> P a) w.
Proof. destruct first as [a|]; [|done]. intros H _. apply wp_ret. intros a' [= <-]. by apply H. Qed.

Lemma markFor_rests symbol w :
  wp (markFor ops maxAgeMs symbol) (fun r _ => forall q, r = inr (Some q) -> restsOn symbol q) w.
Proof using FeedLaws0.
  unfold markFor. apply wp_bind, wp_total. intros at_ w1 En.
  assert (at_ = fst (fo_now ops w)) as -> by by rewrite En.
  apply wp_bind. eapply wp_mono; [apply orderbook_found|]. intros [err|ob] w2 HB; [by intros q [=]|].
  apply wp_orElseM.
  { destruct ob as [row|]; [|done]. destruct (HB row eq_refl) as [Hs Hd].
    apply (quoteOf_rests w (BookRow row) symbol (ob_exchange row)); [by simpl; rewrite Hs|done]. }
  apply wp_bind. eapply wp_mono; [apply tick_found|]. intros [err|tick] w3 HT; [by intros q [=]|].
  apply wp_orElseM.
  { destruct tick as [row|]; [|done]. destruct (HT row eq_refl) as [Hs Hd].
    apply (quoteOf_rests w (TickRow row) symbol (pw_exchange row)); [by simpl; rewrite Hs|done]. }
  apply wp_bind. eapply wp_mono; [apply candle_found|]. intros [err|candle] w4 HC; [by intros q [=]|].
  apply wp_ret. intros q [= Hq]. destruct candle as [row|]; [|done]. destruct (HC row eq_refl) as [Hs Hd].
  by apply (quoteOf_rests w (CandleRow row) symbol (pw_exchange row)) in Hq; [|simpl; rewrite Hs|].
Qed.

(** Every mark of a list of symbols rests on a row. *)
Definition marksRest (symbols : list string) (t : DbQuoteTransport) : Prop :=
  forall symbol q, symbol ∈ symbols -> latest t symbol = Some q -> restsOn symbol q.

Lemma latest_cacheMark s quote t symbol :
  latest (cacheMark s quote t) symbol = if bool_decide (symbol = s) then quote else latest t symbol.
Proof.
  unfold latest, cacheMark. simpl. case_bool_decide; [subst; by rewrite lookup_partial_alter_eq|by rewrite lookup_partial_alter_ne].
Qed.

(** After a refresh that returns, every tracked mark rests on a row; untracked ones stay. *)
Lemma refresh_rests symbols t w :
  wp (refresh ops maxAgeMs symbols)
    (fun r s => match r with
       | inr _ => marksRest symbols (fst s) /\ (forall symbol, symbol ∉ symbols -> latest (fst s) symbol = latest t symbol)
       | inl _ => True
       end) (t, w).
Proof using FeedLaws0.
  apply (wp_forEach _ (fun done s => marksRest done (fst s) /\ forall symbol, symbol ∉ done -> latest (fst s) symbol = latest t symbol)
    (fun _ _ => True)); [split; [by intros ? ? ?%not_elem_of_nil|done]|].
  intros dn s rest [t1 w1] _ [HM HU]. unfold refreshSymbol. apply wp_bind, wp_onWorld. simpl.
  eapply wp_mono; [apply markFor_rests|]. intros [err|quote] w2 HQ; [done|]. apply wp_modify. simpl. split.
  - intros symbol q Hin. rewrite latest_cacheMark. case_bool_decide as E; [intros ->; subst; by apply HQ|].
    intros Hl. apply (HM symbol); [|done]. apply elem_of_app in Hin as [Hin|Hin]; [done|]. by apply list_elem_of_singleton in Hin.
  - intros symbol Hout. rewrite not_elem_of_app, list_elem_of_singleton in Hout. destruct Hout as [H1 H2].
    rewrite latest_cacheMark, bool_decide_false by done. by apply HU.
Qed.
End feed.

(** ** The ledger *)

Definition equityOf (row : EquityRow) : number := parseDecimal (sn_equity row).

(** The answer of the aggregate: nothing without snapshots, else the Number of the greatest
    equity. *)
Definition greatest (id : string) (rows : gmap (string * Z) EquityRow) (answer : option number) : Prop :=
  match answer with
  | None => forall t, rows !! (id, t) = None
  | Some p =>
      isFinite p = true
      /\ (exists t row, rows !! (id, t) = Some row /\ sv (equityOf row) = sv p)
      /\ (forall t row, rows !! (id, t) = Some row -> (sv (equityOf row) <= sv p)%Z)
  end.

(** The documented behaviour of the client's calls, over what the database holds: the id of
    every portfolio by name, and the snapshots. *)
Class LedgerLaws {X W : Type} (ops : LedgerOps X W) := {
  portfolioId : W -> string -> option string;
  snapshots : W -> gmap (string * Z) EquityRow;
  find_ok name w :
    wp (lo_findPortfolio ops name)
      (fun r w' => (portfolioId w' = portfolioId w /\ snapshots w' = snapshots w)
         /\ match r with inr found => found = portfolioId w name | inl _ => True end) w;
  create_ok name base value w :
    wp (lo_createPortfolio ops name base value)
      (fun r w' => snapshots w' = snapshots w
         /\ match r with inr id => portfolioId w' name = Some id | inl _ => True end) w;
  max_ok id w :
    wp (lo_maxEquity ops id)
      (fun r w' => (portfolioId w' = portfolioId w /\ snapshots w' = snapshots w)
         /\ match r with inr answer => greatest id (snapshots w) answer | inl _ => True end) w;
  upsert_ok id at_ row w :
    wp (lo_upsertSnapshot ops id at_ row)
      (fun r w' => portfolioId w' = portfolioId w
         /\ match r with
            | inr _ => snapshots w' = <[(id, at_) := row]> (snapshots w)
            | inl _ => snapshots w' = snapshots w \/ snapshots w' = <[(id, at_) := row]> (snapshots w)
            end) w
}.

(** The peak is the greatest of the opening capital and the equities of the snapshots. *)
Definition peakOf (id : string) (rows : gmap (string * Z) EquityRow) (initial peak : number) : Prop :=
  isFinite peak = true /\ (sv initial <= sv peak)%Z
  /\ (forall t row, rows !! (id, t) = Some row -> (sv (equityOf row) <= sv peak)%Z)
  /\ (sv peak = sv initial \/ exists t row, rows !! (id, t) = Some row /\ sv (equityOf row) = sv peak).

Lemma peakOf_value id rows initial p p' : peakOf id rows initial p -> peakOf id rows initial p' -> sv p = sv p'.
Proof.
  intros (_ & Hi & Hr & Hx) (_ & Hi' & Hr' & Hx').
  apply Z.le_antisymm.
  - destruct Hx as [->|(t & row & Hl & <-)]; [done|by eapply Hr'].
  - destruct Hx' as [->|(t & row & Hl & <-)]; [done|by eapply Hr].
Qed.

Lemma recoverPeak_peak id rows answer initial :
  isFinite initial = true -> (0 <= sv initial)%Z -> greatest id rows answer -> peakOf id rows initial (recoverPeak answer initial).
Proof.
  intros Fi Hi HG. unfold recoverPeak. destruct answer as [p|]; simpl in HG |- *.
  - destruct HG as (Fp & (t & row & Hl & He) & HA). rewrite Fp. unfold peakOf. rewrite nmax_sv by done.
    split_and!; [by apply nmax_finite|lia| |].
    + intros t' row' Hl'. specialize (HA t' row' Hl'). lia.
    + destruct (Z.max_spec (sv p) (sv initial)) as [[_ ->]|[_ ->]]; [by left|]. right. by exists t, row.
  - unfold peakOf. rewrite nmax_sv by done. change (sv (nint 0)) with 0%Z.
    split_and!; [by apply nmax_finite|lia| |left; lia]. intros t row Hl. by rewrite HG in Hl.
Qed.

(** A snapshot at a new time keeps the peak. *)
Lemma peakOf_insert id rows initial peak at_ row :
  peakOf id rows initial peak -> rows !! (id, at_) = None ->
  peakOf id (<[(id, at_) := row]> rows) initial (nmax peak (equityOf row)).
Proof.
  intros (Fp & Hi & Hr & Hx) Hn. assert (isFinite (equityOf row) = true) as Fe by apply parseDecimal_finite.
  unfold peakOf. rewrite nmax_sv by done. split_and!; [by apply nmax_finite|lia| |].
  - intros t row' [[[= ->] ->]|[_ Hl]]%lookup_insert_Some; [lia|]. specialize (Hr t row' Hl). lia.
  - destruct (Z.max_spec (sv peak) (sv (equityOf row))) as [[_ ->]|[_ ->]].
    + right. exists at_, row. by rewrite lookup_insert_eq.
    + destruct Hx as [Hx|(t & row' & Hl & He)]; [by left|]. right. exists t, row'. split; [|done].
      rewrite lookup_insert_ne; [done|]. intros [= ->]. by rewrite Hn in Hl.
Qed.

(** ** Drawdown *)

Lemma toFixedNumber_mono x y dp :
  isFinite x = true -> isFinite y = true -> (0 <= dp)%Z -> (0 <= sv x <= sv y)%Z ->
  (0 <= sv (toFixedNumber x dp) <= sv (toFixedNumber y dp))%Z.
Proof.
  destruct x as [| |s m k], y as [| |s' m' k']; try done. intros _ _ Hd. rewrite !toFixedNumber_sv by done. simpl.
  pose proof (mag_nonneg m k). pose proof (mag_nonneg m' k'). pose proof (RF_nonneg (mag m k) dp Hd ltac:(lia)).
  pose proof (RF_nonneg (mag m' k') dp Hd ltac:(lia)). pose proof (RF_0 dp Hd).
  intros HB. destruct s, s'; simpl in *.
  - assert (mag m k = 0)%Z as -> by lia. assert (mag m' k' = 0)%Z as -> by lia. lia.
  - assert (mag m k = 0)%Z as -> by lia. lia.
  - assert (mag m k = 0)%Z as -> by lia. assert (mag m' k' = 0)%Z as -> by lia. lia.
  - pose proof (RF_mono (mag m k) (mag m' k') dp Hd ltac:(lia)). lia.
Qed.

(** A drawdown is printed as a number between 0 and 1. *)
Lemma drawdown_bounds n :
  let d := stringToNumber (quantizeDrawdown n) in isFinite d = true /\ nle (nint 0) d = true /\ nle d (nint 1) = true.
Proof.
  cbv zeta. unfold quantizeDrawdown. set (v := if isFinite n && ngt n (nint 0) then n else nint 0).
  assert (isFinite v = true /\ (0 <= sv v)%Z) as [Fv Hv].
  { unfold v. destruct (isFinite n) eqn:F; simpl; [|done]. destruct (ngt n (nint 0)) eqn:E; [|done].
    unfold ngt in E. rewrite nlt_sv in E by done. apply Z.ltb_lt in E. split; [done|]. change (sv (nint 0)) with 0%Z in E. lia. }
  assert (isFinite (nint 1) = true) as F1 by done.
  assert (0 < sv (nint 1))%Z as H1 by (by apply Z.ltb_lt; evaluate).
  set (x := nmin v (nint 1)). assert (isFinite x = true) as Fx by (by apply nmin_finite).
  assert (0 <= sv x <= sv (nint 1))%Z as Hx by (unfold x; rewrite nmin_sv by done; lia).
  assert (stringToNumber (toFixed x 4) = toFixedNumber x 4) as ->.
  { destruct x as [| |s m k]; [done|done|]. apply stringToNumber_toFixed.
    assert (sv (nint 1) < fixed_limit)%Z by (by apply Z.ltb_lt; evaluate). pose proof (mag_nonneg m k).
    set (one := sv (nint 1)) in *. clearbody one. destruct s; simpl in Hx; lia. }
  assert (isFinite (toFixedNumber x 4) = true) as Ft by (apply toFixedNumber_finite; [lia|done]).
  split; [done|]. rewrite !nle_sv by done. change (sv (nint 0)) with 0%Z.
  assert (sv (toFixedNumber (nint 1) 4) = sv (nint 1)) as E1 by evaluate.
  pose proof (toFixedNumber_mono x (nint 1) 4 Fx F1 ltac:(lia) Hx). rewrite E1 in *. split; apply Z.leb_le; lia.
Qed.

Section ledger.
Context {X W : Type} (error : string -> X) (ops : LedgerOps X W) `{!LedgerLaws ops} (config : PortfolioLedgerConfig).

Definition soundCapital : Prop := isFinite (lc_initialValue config) = true /\ (0 <= sv (lc_initialValue config))%Z.

(** An initialised ledger whose peak is that of its snapshots. *)
Definition tracks (L : PortfolioLedger) (w : W) : Prop :=
  exists id, pl_portfolioId L = Some id /\ portfolioId w (lc_name config) = Some id
    /\ peakOf id (snapshots w) (lc_initialValue config) (pl_peakEquity L).

Lemma init_tracks L w :
  soundCapital ->
  wp (init ops config)
    (fun r s => match r with
       | inr _ => tracks (fst s) (snd s) /\ snapshots (snd s) = snapshots w
           /\ forall id, portfolioId w (lc_name config) = Some id -> pl_portfolioId (fst s) = Some id
       | inl _ => True
       end) (L, w).
Proof.
  intros [Fi Hi]. unfold init. apply wp_bind, wp_onWorld. eapply wp_mono; [apply find_ok|].
  intros [err|existing] w1 [[HP1 HS1] HF]; [done|]. apply wp_bind.
  eapply (wp_mono _ (fun r s => match r with
     | inr id => portfolioId (snd s) (lc_name config) = Some id /\ snapshots (snd s) = snapshots w
         /\ forall id', portfolioId w (lc_name config) = Some id' -> id = id'
     | inl _ => True end)).
  { simpl in HF. destruct existing as [id|].
    - apply wp_ret. simpl. split_and!; [by rewrite HP1|done|]. intros id' Hid. rewrite Hid in HF. by injection HF.
    - apply wp_onWorld. eapply wp_mono; [apply create_ok|]. intros [err|id] w2 [HS2 HP]; [done|]. simpl. split_and!; [exact HP|by rewrite HS2|].
      intros id' Hid. by rewrite Hid in HF. }
  intros [err|id] [L2 w2]; [done|]. simpl. intros (HP & HS2 & HI). apply wp_bind, wp_modify. apply wp_bind, wp_onWorld.
  eapply wp_mono; [apply max_ok|]. intros [err|answer] w3 [[HP3 HS3] HG]; [done|]. simpl in HP3, HS3, HG.
  apply wp_modify. simpl. split_and!; [|by rewrite HS3|intros id' Hid; by rewrite (HI id' Hid)].
  exists id. split_and!; [done|by rewrite HP3|]. simpl. rewrite HS3. by apply recoverPeak_peak.
Qed.

(** One call of the database, with the peak raised first; its row is measured against the
    peak, and the ledger keeps tracking when the time is new. *)
Lemma record_wp L id w valuation positions at_ :
  pl_portfolioId L = Some id ->
  let peak := nmax (pl_peakEquity L) (parseDecimal (av_equity valuation)) in
  let row := snapshotRow peak valuation positions in
  wp (record error ops valuation positions at_)
    (fun r s => fst s = {| pl_portfolioId := Some id; pl_peakEquity := peak |} /\ portfolioId (snd s) = portfolioId w
       /\ match r with
          | inr _ => snapshots (snd s) = <[(id, at_) := row]> (snapshots w)
          | inl _ => snapshots (snd s) = snapshots w \/ snapshots (snd s) = <[(id, at_) := row]> (snapshots w)
          end) (L, w).
Proof.
  intros Hid peak row. unfold record, wp, bind, gets. simpl. rewrite Hid.
  change (wp (do! modify (fun s => ({| pl_portfolioId := pl_portfolioId (fst s); pl_peakEquity := peak |}, snd s)) in
    onWorld (lo_upsertSnapshot ops id at_ row))
    (fun r s => fst s = {| pl_portfolioId := Some id; pl_peakEquity := peak |} /\ portfolioId (snd s) = portfolioId w
       /\ match r with
          | inr _ => snapshots (snd s) = <[(id, at_) := row]> (snapshots w)
          | inl _ => snapshots (snd s) = snapshots w \/ snapshots (snd s) = <[(id, at_) := row]> (snapshots w)
          end) (L, w)).
  apply wp_bind, wp_modify, wp_onWorld. simpl. rewrite Hid. eapply wp_mono; [apply upsert_ok|]. intros r w' [HP HR]. by split_and!.
Qed.

Lemma record_tracks L w valuation positions at_ :
  tracks L w -> (forall id, snapshots w !! (id, at_) = None) ->
  wp (record error ops valuation positions at_)
    (fun r s => match r with
       | inr _ => tracks (fst s) (snd s)
           /\ forall id t, t <> at_ -> snapshots w !! (id, t) = None -> snapshots (snd s) !! (id, t) = None
       | inl _ => True
       end) (L, w).
Proof.
  intros (id & Hid & HP & HK) Hn. eapply wp_mono; [by apply (record_wp L id)|].
  intros [err|[]] [L' w'] (HL & HP' & HS); [done|]. simpl in *. subst L'. split.
  - exists id. simpl. split_and!; [done|by rewrite HP'|]. rewrite HS.
    exact (peakOf_insert id (snapshots w) _ _ at_ (snapshotRow _ valuation positions) HK (Hn id)).
  - intros id' t Ht Hl. rewrite HS, lookup_insert_ne; [done|]. intros [=]. by apply Ht.
Qed.

(** A snapshot to record, and the time it is for. *)
Definition Entry : Type := AccountValuation * gmap string Position * Z.

Definition recordAll (l : list Entry) : M X (PortfolioLedger * W) unit :=
  forEach (fun '(valuation, positions, at_) => record error ops valuation positions at_) l.

Lemma recordAll_tracks l L w :
  tracks L w -> NoDup (List.map snd l) -> (forall id t, t ∈ List.map snd l -> snapshots w !! (id, t) = None) ->
  wp (recordAll l) (fun r s => match r with inr _ => tracks (fst s) (snd s) | inl _ => True end) (L, w).
Proof.
  revert L w. induction l as [|[[valuation positions] at_] l IH]; intros L w HT HN HF; [by apply wp_ret|].
  simpl in HN. apply NoDup_cons in HN as [Hn HN]. apply wp_bind.
  eapply wp_mono; [apply record_tracks; [exact HT|intros id; apply HF; left]|].
  intros [err|[]] [L' w']; [done|]. intros [HT' HF']. apply IH; [done|done|]. intros id t Ht.
  apply HF'; [intros ->; by apply Hn|]. apply HF. by right.
Qed.
End ledger.

Lemma nsub_diag p : isFinite p = true -> nsub p p = nint 0.
Proof. destruct p as [| |s m k]; [done|done|]. intros _. unfold nsub. simpl. rewrite N.min_id. by destruct s; simpl; rewrite ?Z.add_opp_diag_l, ?Z.add_opp_diag_r. Qed.

(** At the peak there is no drawdown. *)
Lemma drawdown_at_peak p : isFinite p = true -> quantizeDrawdown (drawdownOf p p) = "0.0000".
Proof.
  intros Fp. unfold drawdownOf. destruct (ngt p (nint 0)) eqn:E; [|done]. rewrite nsub_diag by done.
  assert (ngt (ndiv (nint 0) p) (nint 0) = false) as HN.
  { destruct p as [| |s m k]; [done|done|]. change (nint 0) with (Num false 0 0). simpl.
    destruct (N.eqb_spec m 0) as [->|]; [done|]. unfold rnd. simpl. by destruct s. }
  unfold quantizeDrawdown. rewrite HN, andb_false_r. reflexivity.
Qed.

(** Taking the same number into account twice. *)
Lemma nmax_absorb p e : isFinite p = true -> isFinite e = true -> nmax (nmax p e) e = nmax p e.
Proof.
  intros Fp Fe. assert (nlt e e = false) as HE by (rewrite nlt_sv by done; apply Z.ltb_irrefl).
  unfold nmax at 2 3. rewrite (isFinite_notNaN p Fp), (isFinite_notNaN e Fe). simpl.
  destruct (nlt p e) eqn:E1; [|destruct (nlt e p) eqn:E2; [|destruct (isNegZero p) eqn:E3]];
    unfold nmax; rewrite ?(isFinite_notNaN p Fp), ?(isFinite_notNaN e Fe), ?HE, ?E1, ?E2, ?E3; simpl; try done; by destruct (isNegZero e).
Qed.

(** ** The symbol of the venue's streams

    A computation's answer has a property whenever its last step gives it: what the adapter
    needs of its broker ([ownSymbol]) holds of the venue transport. *)

Lemma numberedFrom_own order seq events :
  numberedFrom order seq events -> Forall (fun e => oe_symbol e = or_symbol order) events.
Proof.
  revert seq. induction events as [|e events IH]; intros seq; [constructor|].
  intros [E H]. constructor; [by rewrite E|by eapply IH].
Qed.

Lemma buildEvents_own order outcome events :
  buildEvents order outcome = inr events -> Forall (fun e => oe_symbol e = or_symbol order) events.
Proof.
  unfold buildEvents. destruct (bool_decide _); [intros [= <-]; by repeat constructor|].
  pose proof (fillEvents_spec order (vo_trades outcome) (nint 0) 3) as H.
  destruct (fillEvents _ _ _ _) as [err|[fills total]]; [done|]. destruct H as (_ & _ & H & _).
  intros [= <-]. repeat (apply Forall_cons; split; [done|]).
  apply Forall_app. split; [by eapply numberedFrom_own|]. destruct (within _ _); by repeat constructor.
Qed.

Definition answers {X S A} (P : A -> Prop) (m : M X S A) : Prop := forall s a s', m s = (inr a, s') -> P a.

Lemma answers_bind {X S A B} P (m : M X S A) (k : A -> M X S B) : (forall a, answers P (k a)) -> answers P (bind m k).
Proof.
  intros H s b s'. unfold bind. destruct (m s) as [[x|a] s1]; [done|]. apply H.
Qed.

Lemma place_own {W} (ops : VenueOps W) self order :
  answers (fun events => Forall (fun f => fl_symbol f = or_symbol order) (fillsFrom events)) (place ops self order).
Proof.
  unfold place. apply answers_bind; intros name. apply answers_bind; intros inst. cbv zeta.
  destruct (negb _); [by intros s a s'|]. apply answers_bind; intros outcome. apply answers_bind; intros outcome'.
  intros s events s'. unfold lift. destruct (buildEvents order outcome') as [err|events'] eqn:E; [done|].
  intros [= <- _]. by eapply fillsFrom_own, buildEvents_own.
Qed.
