(* ===== verification/VenueProps.v ===== *)
(** * VenueProps: what the venue transports and the ledger promise

    The event stream of the live transport, how often an order reaches the venue, what the
    marks of the database feed rest on, and the snapshots and the peak of the portfolio
    ledger; with concrete runs that show what a failing call does. *)

From stdpp Require Import gmap.
From S2P Require Import Prelude JsNumber JsNumberFacts JsText JsDecimal JsDecimalFacts Json Effects StageTypes MarketState Portfolio.
From S2P Require Import MarketOrder MarketFacts Venue MarketEdge VenueFacts.

Local Open Scope string_scope.
Local Open Scope list_scope.
Local Open Scope eff_scope.

(** ** The stream of the live transport *)

(** The state a stream of an outcome ends in, by the total of its trades. *)
Definition finalState (order : Order) (outcome : VenueOrderOutcome) : OrderState :=
  if bool_decide (vo_orderState outcome = "rejected") then OR_REJECTED
  else if within (totalOf (nint 0) (vo_trades outcome)) (parseDecimal (or_qty order))
  then match vo_trades outcome with [] => OR_ACCEPTED | _ => OR_FILLED end
  else OR_CANCELLED.

(** C22. The transport's stream of a venue outcome is a legal path of the order's state machine,
    numbered from 0 and all of the order; a rejected order has no fills, and otherwise the
    fills are the venue's trades verbatim, in their order, with the running total; it ends
    FILLED exactly when the trades add up to the ordered quantity (within 1e-9), and
    CANCELLED when they fall short.  There is no stream exactly when the order was not
    rejected and a running total exceeds the ordered quantity. *)
Theorem venue_stream_legal order outcome :
  let totals := runningTotals (nint 0) (vo_trades outcome) in
  match buildEvents order outcome with
  | inl _ => vo_orderState outcome <> "rejected" /\ Exists (fun x => overfills order x = true) totals
  | inr events =>
      legalPath None (pathOf events) /\ numberedFrom order 0 events
      /\ lastState None (pathOf events) = Some (finalState order outcome)
      /\ (vo_orderState outcome = "rejected" /\ omap fillData events = []
          \/ vo_orderState outcome <> "rejected" /\ Forall (fun x => overfills order x = false) totals
             /\ omap fillData events = zip_with tradeData (vo_trades outcome) totals)
  end.
Proof.
  intros totals. unfold buildEvents, finalState. destruct (bool_decide (vo_orderState outcome = "rejected")) eqn:EJ.
  { apply bool_decide_eq_true in EJ. split_and!; [|done|done|by left]. simpl. split_and!; try done; set_solver. }
  apply bool_decide_eq_false in EJ. pose proof (fillEvents_spec order (vo_trades outcome) (nint 0) 3) as HS.
  destruct (fillEvents order (nint 0) 3 (vo_trades outcome)) as [err|[fills total]]; [by split|].
  destruct HS as (HF & -> & HN & HD & HL & HP). set (qty := parseDecimal (or_qty order)) in *.
  set (total := totalOf (nint 0) (vo_trades outcome)) in *. set (tail := if within total qty then [] else _).
  assert (omap fillData tail = []) as ET by (unfold tail; by destruct (within total qty)).
  assert (numberedFrom order (3 + length fills) tail) as NT by (rewrite HL; unfold tail; by destruct (within total qty)).
  assert (pathOf tail = if within total qty then [] else [OR_CANCELLED]) as PT by (unfold tail; by destruct (within total qty)).
  clearbody tail. split_and!.
  - unfold pathOf in *. simpl. rewrite List.map_app, HP, PT.
    split_and!; try done; try set_solver. destruct (vo_trades outcome) as [|t trades]; simpl.
    + destruct (within total qty); simpl; [done|]. split_and!; try done; set_solver.
    + rewrite <- app_assoc. apply legalPath_fills; [left|destruct (within total qty); set_solver|].
      destruct (within total qty); simpl; [done|]. split_and!; try done; set_solver.
  - simpl. split_and!; try done. apply numberedFrom_app. by split.
  - unfold lastState, pathOf in *. simpl List.app. rewrite !List.map_cons, List.map_app, HP, PT, !last_cons.
    destruct (vo_trades outcome) as [|t trades]; [by destruct (within total qty)|].
    rewrite <- app_assoc, last_app. by destruct (within total qty).
  - right. split_and!; [done|done|]. transitivity (omap fillData (fills ++ tail)); [done|].
    rewrite omap_app, ET, app_nil_r. exact HD.
Qed.

(** ** How often an order reaches the venue *)

(** C21. Whatever the venue answers, placing an order either asks nothing of it and throws, or
    sends requests of which the buying and selling ones are all the same: the order's side,
    its deterministic label, an immediate-or-cancel market order for a routable amount of
    whole lots; there is one of them, and a second only after the first was refused for its
    token; and a stream that is returned is that of an outcome the venue reported, in its
    answer or under the order's label, with an open order cancelled first. *)
Theorem order_sent_once {W} (ops : VenueOps W) self order t w l :
  exists new t' w' r,
    place (recording ops) self order (t, (w, l)) = (r, (t', (w', l ++ new)))
    /\ (nothingAsked new r
        \/ exists name inst,
             mapSymbol self (or_symbol order) = inr name /\ routable (venueAmount order inst) inst = true
             /\ Forall (fun x => isOrderCall x ->
                  vq_method (fst x) = orderMethod order /\ vq_params (fst x) = orderParams order name (venueAmount order inst)) new
             /\ onceOrRefused (List.map reading (callsTo (orderMethod order) new))
             /\ forall events, r = inr events -> exists o, venueReported order o new /\ buildEvents order (settled o) = inr events).
Proof.
  destruct (sends_place ops self order t w l) as (new & t' & w' & r & E & [HN|(name & inst & Hm & Hr & [HF HC] & HE)]);
    exists new, t', w', r; (split; [exact E|]); [by left|]. right. by exists name, inst.
Qed.

(** ** The marks of the database feed *)

(** After a refresh that returns, every mark of a tracked symbol rests on a row of that
    symbol, from a venue that is not DEMO, which at the clock's reading was not older than
    the maximal age, and carries its finite positive price; other symbols keep their marks. *)
Theorem marks_fresh {X W} (ops : FeedOps X W) `{!FeedLaws ops} maxAgeMs symbols t w t' w' :
  refresh ops maxAgeMs symbols (t, w) = (inr tt, (t', w')) ->
  marksRest ops maxAgeMs symbols t' /\ forall symbol, symbol ∉ symbols -> latest t' symbol = latest t symbol.
Proof.
  intros E. pose proof (refresh_rests ops maxAgeMs symbols t w) as H. unfold wp in H. by rewrite E in H.
Qed.

(** ** The portfolio ledger *)

Section ledger.
Context {X W : Type} (error : string -> X) (ops : LedgerOps X W) `{!LedgerLaws ops} (config : PortfolioLedgerConfig).

(** C23. A record that returns has stored, for its portfolio and time, the valuation's equity and
    exposure and the positions verbatim, with a drawdown between 0 and 1 that is 0 at the
    peak; the peak is no lower than before nor than the equity; and recording the same
    snapshot again leaves the ledger and every snapshot as they are. *)
Theorem record_sound L id w valuation positions at_ L' w' :
  pl_portfolioId L = Some id -> isFinite (pl_peakEquity L) = true ->
  record error ops valuation positions at_ (L, w) = (inr tt, (L', w')) ->
  let equity := parseDecimal (av_equity valuation) in
  (exists row, snapshots w' = <[(id, at_) := row]> (snapshots w)
     /\ sn_equity row = av_equity valuation /\ sn_exposure row = av_grossExposure valuation /\ sn_positions row = positions
     /\ (let d := stringToNumber (sn_drawdown row) in isFinite d = true /\ nle (nint 0) d = true /\ nle d (nint 1) = true)
     /\ (pl_peakEquity L' = equity -> sn_drawdown row = "0.0000"))
  /\ (sv (pl_peakEquity L) <= sv (pl_peakEquity L') /\ sv equity <= sv (pl_peakEquity L'))%Z
  /\ forall L'' w'', record error ops valuation positions at_ (L', w') = (inr tt, (L'', w'')) ->
     L'' = L' /\ snapshots w'' = snapshots w'.
Proof.
  intros Hid Fp E equity. assert (isFinite equity = true) as Fe by apply parseDecimal_finite.
  pose proof (record_wp error ops L id w valuation positions at_ Hid) as H. unfold wp in H. rewrite E in H. simpl in H.
  destruct H as (-> & _ & HS). fold equity in HS |- *. simpl. set (peak := nmax (pl_peakEquity L) equity) in *. split_and!.
  - eexists. split_and!; [exact HS|done|done|done|apply drawdown_bounds..|]. intros EP. simpl. fold equity. rewrite EP.
    by apply drawdown_at_peak.
  - unfold peak. rewrite nmax_sv by done. lia.
  - unfold peak. rewrite nmax_sv by done. lia.
  - intros L'' w'' E'.
    pose proof (record_wp error ops {| pl_portfolioId := Some id; pl_peakEquity := peak |} id w' valuation positions at_ eq_refl) as H.
    unfold wp in H. rewrite E' in H. simpl in H. destruct H as (-> & _ & HS'). fold equity in HS' |- *.
    assert (nmax peak equity = peak) as EP by (by apply nmax_absorb). rewrite EP in *. split; [done|].
    rewrite HS', HS. apply insert_insert_eq.
Qed.

(** The running peak survives a restart: when a ledger is initialised on a portfolio and
    records snapshots at new and distinct times, all of them stored, a ledger initialised
    afterwards has the same portfolio and a peak of the same value. *)
Theorem restart_recovers_peak l w L w' L' w'' :
  soundCapital config -> NoDup (List.map snd l) -> (forall id t, t ∈ List.map snd l -> snapshots w !! (id, t) = None) ->
  (do! init ops config in recordAll error ops l) (newLedger, w) = (inr tt, (L, w')) ->
  init ops config (newLedger, w') = (inr tt, (L', w'')) ->
  pl_portfolioId L' = pl_portfolioId L /\ sv (pl_peakEquity L') = sv (pl_peakEquity L).
Proof.
  intros HC HN HF ER EI.
  assert (wp (do! init ops config in recordAll error ops l)
    (fun r s => match r with inr _ => tracks ops config (fst s) (snd s) | inl _ => True end) (newLedger, w)) as HT.
  { apply wp_bind. eapply wp_mono; [by apply (init_tracks ops)|]. intros [err|[]] [L1 w1]; [done|]. simpl. intros (HT & HS & _).
    apply recordAll_tracks; [done|done|]. simpl in HS. rewrite HS. exact HF. }
  unfold wp in HT. rewrite ER in HT. simpl in HT. destruct HT as (id & Hid & HP & HK).
  pose proof (init_tracks ops config newLedger w' HC) as HT. unfold wp in HT. rewrite EI in HT. simpl in HT.
  destruct HT as ((id' & Hid' & HP' & HK') & HS & HI). specialize (HI id HP). rewrite Hid, HI. split; [done|].
  rewrite Hid' in HI. injection HI as ->. rewrite HS in HK'. by eapply peakOf_value.
Qed.
End ledger.

(** ** Concrete runs *)

(** A database with one portfolio table and its snapshots. *)
Module FakeLedger.
Record Db := { db_portfolios : gmap string string; db_snapshots : gmap (string * Z) EquityRow }.

Definition equities (id : string) (rows : gmap (string * Z) EquityRow) : list number :=
  omap (fun '(i, _, row) => if bool_decide (i = id) then Some (equityOf row) else None) (map_to_list rows).

#[local] Arguments equities : simpl never.

Definition ops : LedgerOps string Db := {|
  lo_findPortfolio name w := (inr (db_portfolios w !! name), w);
  lo_createPortfolio name _ _ w :=
    (inr ("id-" +:+ name), {| db_portfolios := <[name := "id-" +:+ name]> (db_portfolios w); db_snapshots := db_snapshots w |});
  lo_maxEquity id w := (inr (match equities id (db_snapshots w) with [] => None | e :: es => Some (foldl nmax e es) end), w);
  lo_upsertSnapshot id at_ row w :=
    (inr tt, {| db_portfolios := db_portfolios w; db_snapshots := <[(id, at_) := row]> (db_snapshots w) |}) |}.

Lemma equities_elem id rows e : e ∈ equities id rows <-> exists t row, rows !! (id, t) = Some row /\ e = equityOf row.
Proof.
  unfold equities. rewrite list_elem_of_omap. split.
  - intros ([[i t] row] & Hin%elem_of_map_to_list & He). case_bool_decide; [|done]. subst. injection He as <-. by exists t, row.
  - intros (t & row & Hl & ->). exists (id, t, row). split; [by apply elem_of_map_to_list|]. by rewrite bool_decide_true.
Qed.

Lemma max_spec e es :
  Forall (fun x => isFinite x = true) (e :: es) ->
  isFinite (foldl nmax e es) = true /\ (exists x, x ∈ e :: es /\ sv x = sv (foldl nmax e es))
  /\ Forall (fun x => sv x <= sv (foldl nmax e es))%Z (e :: es).
Proof.
  revert e. induction es as [|y es IH]; intros e HF.
  - split; [by apply Forall_inv in HF|]. split; [exists e; split; [left|done]|by constructor].
  - apply Forall_cons in HF as [He HF]. apply Forall_cons in HF as [Hy HF]. simpl.
    destruct (IH (nmax e y)) as (H1 & (x & Hx & E) & H3); [constructor; [by apply nmax_finite|done]|].
    split; [done|]. apply Forall_cons in H3 as [H3 H4]. rewrite nmax_sv in H3 by done. split.
    + apply elem_of_cons in Hx as [->|Hx]; [|exists x; split; [by do 2 right|done]]. rewrite nmax_sv in E by done.
      destruct (Z.max_spec (sv e) (sv y)) as [[_ E']|[_ E']]; rewrite E' in E; [exists y|exists e]; (split; [|done]); [right; left|left].
    + constructor; [lia|]. constructor; [lia|done].
Qed.

#[global] Instance laws : LedgerLaws ops.
Proof.
  refine {| portfolioId w name := db_portfolios w !! name; snapshots := db_snapshots |}; unfold wp; simpl; try (intros; by split_and!).
  - intros name _ _ w. split; [done|]. apply lookup_insert_eq.
  - intros id w. split; [done|]. unfold greatest.
    assert (Forall (fun x => isFinite x = true) (equities id (db_snapshots w))) as HF.
    { apply Forall_forall. intros x (t & row & _ & ->)%equities_elem. apply parseDecimal_finite. }
    pose proof (equities_elem id (db_snapshots w)) as HE. destruct (equities id (db_snapshots w)) as [|e es].
    + intros t. destruct (db_snapshots w !! (id, t)) as [row|] eqn:E; [|done].
      assert (equityOf row ∈ []) as Hin by (apply HE; by exists t, row). by inversion Hin.
    + destruct (max_spec e es HF) as (H1 & (x & Hx & Ex) & H3). split_and!; [done| |].
      * apply HE in Hx as (t & row & Hl & ->). by exists t, row.
      * intros t row Hl. rewrite Forall_forall in H3. apply H3, HE. by exists t, row.
Defined.

Definition config : PortfolioLedgerConfig := {| lc_name := "production"; lc_baseCurrency := "USDT"; lc_initialValue := nint 1000 |}.

Definition valuation (equity : string) : AccountValuation := {|
  av_cashBalance := equity; av_realizedPnl := "0.00"; av_unrealizedPnl := "0.00"; av_equity := equity; av_marginUsed := "0.00";
  av_buyingPower := equity; av_grossExposure := "0.00" |}.

Definition entries : list Entry := [(valuation "1200.00", ∅, 1%Z); (valuation "900.00", ∅, 2%Z)].

Definition empty : Db := {| db_portfolios := ∅; db_snapshots := ∅ |}.

Definition life := (do! init ops config in recordAll id ops entries) (newLedger, empty).
Definition restarted := init ops config (newLedger, snd (snd life)).
Definition open := {| pl_portfolioId := Some "id-production"; pl_peakEquity := nint 1000 |}.
Definition recorded := record id ops (valuation "1200.00") ∅ 1%Z (open, empty).
End FakeLedger.

Lemma restart_recovers_peak_witness :
  pl_portfolioId (fst (snd FakeLedger.restarted)) = pl_portfolioId (fst (snd FakeLedger.life))
  /\ sv (pl_peakEquity (fst (snd FakeLedger.restarted))) = sv (pl_peakEquity (fst (snd FakeLedger.life))).
Proof.
  apply (restart_recovers_peak id FakeLedger.ops FakeLedger.config FakeLedger.entries FakeLedger.empty _ (snd (snd FakeLedger.life)) _
    (snd (snd FakeLedger.restarted))).
  - split; [vm_compute; reflexivity|apply Z.leb_le; vm_compute; reflexivity].
  - change (NoDup [1%Z; 2%Z]). apply NoDup_cons. split; [intros H; apply list_elem_of_singleton in H; discriminate H|apply NoDup_singleton].
  - intros i t _. exact (lookup_empty (i, t)).
  - vm_compute. reflexivity.
  - vm_compute. reflexivity.
Defined.

Lemma record_sound_witness :
  (sv (nint 1000) <= sv (pl_peakEquity (fst (snd FakeLedger.recorded))))%Z
  /\ (sv (parseDecimal "1200.00") <= sv (pl_peakEquity (fst (snd FakeLedger.recorded))))%Z.
Proof.
  exact (proj1 (proj2 (record_sound id FakeLedger.ops FakeLedger.open "id-production" FakeLedger.empty (FakeLedger.valuation "1200.00") ∅ 1%Z
    (fst (snd FakeLedger.recorded)) (snd (snd FakeLedger.recorded)) eq_refl ltac:(vm_compute; reflexivity) ltac:(vm_compute; reflexivity)))).
Defined.

(** A clock, a database that may be down, and the one order book it holds. *)
Module FakeFeed.
Record Db := { fd_now : Z; fd_up : bool; fd_book : OrderbookRow }.

Definition matches (q : MarkQuery) (row : OrderbookRow) : bool :=
  bool_decide (ob_symbol row = mq_symbol q) && negb (bool_decide (ob_exchange row = mq_exchangeNot q)).

Definition ops : FeedOps unit Db := {|
  fo_now w := (fd_now w, w);
  fo_orderbookSnapshot q w := (if fd_up w then inr (if matches q (fd_book w) then Some (fd_book w) else None) else inl tt, w);
  fo_marketTick _ w := (if fd_up w then inr None else inl tt, w);
  fo_marketCandle _ w := (if fd_up w then inr None else inl tt, w) |}.

#[global] Instance laws : FeedLaws ops.
Proof.
  split; unfold wp; simpl; intros q w row; destruct (fd_up w); try done.
  destruct (matches q (fd_book w)) eqn:E; [|done]. intros [= <-]. unfold matches in E.
  apply andb_true_iff in E as [E1%bool_decide_eq_true E2%negb_true_iff]. by apply bool_decide_eq_false in E2.
Defined.

Definition book : OrderbookRow := {|
  ob_exchange := "BINANCE"; ob_symbol := "BTC-PERP"; ob_ts := 1700000000000; ob_bestBid := nint 99; ob_bestAsk := nint 101;
  ob_markPrice := None |}.

Definition at_ (now : Z) (up : bool) : Db := {| fd_now := now; fd_up := up; fd_book := book |}.
Definition empty : DbQuoteTransport := {| dq_cache := ∅; dq_polling := true |}.
Definition polled := refresh ops DEFAULT_MAX_AGE_MS ["BTC-PERP"] (empty, at_ 1700000001000 true).
End FakeFeed.

Lemma marks_fresh_witness : marksRest FakeFeed.ops DEFAULT_MAX_AGE_MS ["BTC-PERP"] (fst (snd FakeFeed.polled)).
Proof.
  apply (proj1 (marks_fresh FakeFeed.ops DEFAULT_MAX_AGE_MS ["BTC-PERP"] FakeFeed.empty (FakeFeed.at_ 1700000001000 true)
    (fst (snd FakeFeed.polled)) (snd (snd FakeFeed.polled)) ltac:(vm_compute; reflexivity))).
Defined.

(** A database that stays up clears a mark that has aged out; one that is down does not: the
    poll swallows the error and the mark is served however old it is. *)
Example stale_mark_survives_outage :
  let warm := fst (snd FakeFeed.polled) in
  let later up := fst (snd (poll FakeFeed.ops DEFAULT_MAX_AGE_MS ["BTC-PERP"] (warm, FakeFeed.at_ 1800000000000 up))) in
  latest warm "BTC-PERP" = Some (markQuote "BTC-PERP" 1700000000000 (nint 100))
  /\ latest (later true) "BTC-PERP" = None
  /\ latest (later false) "BTC-PERP" = latest warm "BTC-PERP".
Proof. split_and!; evaluate. Qed.

(** A venue that answers from a script, and is unreachable past its end. *)
Module FakeVenue.
Definition answer (result : Json) : VenueAnswer := V_answered 200 (stringify (J_object [("result", result)])).

Definition ops : VenueOps (list VenueAnswer) := {|
  vo_fetch _ w := match w with a :: w => (a, w) | [] => (V_unreachable "down", []) end;
  vo_now w := (nint 0, w) |}.

Definition self : DeribitOrderTransport := {|
  dt_env := VE_test; dt_clientId := "id"; dt_clientSecret := "secret"; dt_baseUrl := BASE_URL VE_test;
  dt_instrumentMap := list_to_map DEFAULT_DERIBIT_INSTRUMENT_MAP |}.

Definition order : Order := {|
  or_orderId := "o"; or_intentId := "i"; or_symbol := "BTC-PERP"; or_side := BUY; or_qty := "2.00000000"; or_price := "100.00000000";
  or_brokerId := "real"; or_lineage := {|
    xl_tickId := None; xl_strategyVersionId := "sv"; xl_featureSnapshotId := "fs"; xl_dqReportId := "dq"; xl_datasetHash := "dh";
    xl_featureHash := "fh"; xl_executionStrategyId := "es"; xl_executionStrategyVersion := nint 1; xl_intentId := "i";
    xl_netScore := "1"; xl_contributions := [] |} |}.

Definition instrument : VenueAnswer := answer (J_object [
  ("contract_size", J_number (nint 1)); ("min_trade_amount", J_number (nint 1)); ("quote_currency", J_string "USDC");
  ("settlement_currency", J_string "USDC"); ("is_active", J_boolean true)]).

Definition auth : VenueAnswer := answer (J_object [("access_token", J_string "token"); ("expires_in", J_number (nint 900))]).

(** The order with these fills of one lot each. *)
Definition acknowledged (state : string) (fills : nat) : VenueAnswer := answer (J_object [
  ("order", J_object [("order_state", J_string state); ("order_id", J_string "v-1")]);
  ("trades", J_array (replicate fills (J_object [("amount", J_number (nint 1)); ("price", J_number (nint 100))])))]).

Definition run (script : list VenueAnswer) := fst (place ops self order (freshTransport, script)).

Definition finalOf (r : VenueError + list OrderEvent) : option OrderState :=
  match r with
  | inl _ => None
  | inr events => match reduceOrder order events with inr s => Some (os_state s) | inl _ => None end
  end.
End FakeVenue.

(** The state machine of the stage accepts the transport's streams. *)
Example live_order_accepted :
  FakeVenue.finalOf (FakeVenue.run [FakeVenue.instrument; FakeVenue.auth; FakeVenue.acknowledged "filled" 2]) = Some OR_FILLED
  /\ FakeVenue.finalOf (FakeVenue.run [FakeVenue.instrument; FakeVenue.auth; FakeVenue.acknowledged "cancelled" 1]) = Some OR_CANCELLED.
Proof. split; evaluate. Qed.

(** When the venue reports an open order with a fill and the cancellation fails, placing
    throws: the stage rejects the order and the fill is never accounted for. *)
Example cancel_failure_loses_fill :
  FakeVenue.run [FakeVenue.instrument; FakeVenue.auth; FakeVenue.acknowledged "open" 1]
  = inl (DeribitOrderError "transport failure calling private/cancel: down" "private/cancel" J_undefined).
Proof. evaluate. Qed.
