(* ===== verification/Control.v ===== *)
(** * Control: the pure control-plane evaluators

    packages/control/src: types.ts, state-machine.ts, permission.ts, protection.ts,
    recovery.ts, startup.ts and thresholds.ts.  Every evaluator is a function of the
    gathered [ControlInputs].  (runbooks.ts is operator text and is not modelled.) *)

From S2P Require Import Prelude JsNumber JsNumberFacts JsText.

Local Open Scope string_scope.
Local Open Scope list_scope.

(** ** types.ts *)

Inductive ControlState :=
| BOOTING | STARTING | HEALTHY | DEGRADED | PROTECTED | STOPPED | RECOVERING | FAILED.

Inductive ComponentHealth := H_healthy | H_degraded | H_failing | H_unknown.

Inductive ControlComponent :=
| C_database | C_redis | C_quant | C_features | C_signals | C_execution | C_risk.

Inductive TradingPermissionVerdict := ALLOWED | TP_BLOCKED.

Inductive PermissionCheckId :=
| CK_database | CK_redis | CK_quant | CK_feature_freshness | CK_signal_freshness
| CK_execution_freshness | CK_risk_engine | CK_kill_switch | CK_runtime_state.

Inductive ProtectionRuleId :=
| database_unavailable | redis_unavailable | quant_unavailable | feature_stale | signal_stale
| execution_stale | risk_disabled.

Inductive ControlSeverity := SV_INFO | SV_WARNING | SV_CRITICAL | SV_EMERGENCY.

#[export] Instance ControlState_eq_dec : EqDecision ControlState.
Proof. solve_decision. Defined.
#[export] Instance ComponentHealth_eq_dec : EqDecision ComponentHealth.
Proof. solve_decision. Defined.
#[export] Instance ControlComponent_eq_dec : EqDecision ControlComponent.
Proof. solve_decision. Defined.
#[export] Instance TradingPermissionVerdict_eq_dec : EqDecision TradingPermissionVerdict.
Proof. solve_decision. Defined.
#[export] Instance PermissionCheckId_eq_dec : EqDecision PermissionCheckId.
Proof. solve_decision. Defined.
#[export] Instance ProtectionRuleId_eq_dec : EqDecision ProtectionRuleId.
Proof. solve_decision. Defined.
#[export] Instance ControlSeverity_eq_dec : EqDecision ControlSeverity.
Proof. solve_decision. Defined.

Definition RUNTIME_STATES : list ControlState :=
  [BOOTING; STARTING; HEALTHY; DEGRADED; PROTECTED; STOPPED; RECOVERING; FAILED].

Definition CONTROL_COMPONENTS : list ControlComponent :=
  [C_database; C_redis; C_quant; C_features; C_signals; C_execution; C_risk].

Definition PROTECTION_RULE_IDS : list ProtectionRuleId :=
  [database_unavailable; redis_unavailable; quant_unavailable; feature_stale; signal_stale;
   execution_stale; risk_disabled].

Definition showState (s : ControlState) : string :=
  match s with
  | BOOTING => "BOOTING" | STARTING => "STARTING" | HEALTHY => "HEALTHY"
  | DEGRADED => "DEGRADED" | PROTECTED => "PROTECTED" | STOPPED => "STOPPED"
  | RECOVERING => "RECOVERING" | FAILED => "FAILED"
  end.

Definition showHealth (h : ComponentHealth) : string :=
  match h with
  | H_healthy => "healthy" | H_degraded => "degraded" | H_failing => "failing"
  | H_unknown => "unknown"
  end.

Definition showComponent (c : ControlComponent) : string :=
  match c with
  | C_database => "database" | C_redis => "redis" | C_quant => "quant"
  | C_features => "features" | C_signals => "signals" | C_execution => "execution"
  | C_risk => "risk"
  end.

Definition showRule (r : ProtectionRuleId) : string :=
  match r with
  | database_unavailable => "database.unavailable" | redis_unavailable => "redis.unavailable"
  | quant_unavailable => "quant.unavailable" | feature_stale => "feature.stale"
  | signal_stale => "signal.stale" | execution_stale => "execution.stale"
  | risk_disabled => "risk.disabled"
  end.

Record FreshnessObservation := {
  fo_lagSeconds : option number;
  fo_staleSeconds : number;
  fo_warningSeconds : number
}.

Record KillSwitchState := {
  ks_engaged : bool;
  ks_actor : option string;
  ks_reason : option string;
  ks_engagedAt : option string
}.

Record ControlInputs := {
  ci_now : number;
  ci_database : ComponentHealth;
  ci_redis : ComponentHealth;
  ci_quant : ComponentHealth;
  ci_features : FreshnessObservation;
  ci_signals : FreshnessObservation;
  ci_execution : FreshnessObservation;
  ci_riskEngineActive : bool;
  ci_killSwitch : KillSwitchState;
  ci_startupValidated : bool
}.

Record RuntimeStateResult := {
  rr_state : ControlState;
  rr_reason : string;
  rr_affectedComponents : list ControlComponent
}.

Record PermissionReason := {
  pr_check : PermissionCheckId;
  pr_label : string;
  pr_ok : bool;
  pr_detail : string
}.

Record TradingPermission := {
  tp_permission : TradingPermissionVerdict;
  tp_generatedAt : number;
  tp_reasons : list PermissionReason;
  tp_blockedBy : list PermissionReason
}.

Record ProtectionVerdict := {
  pv_ruleId : ProtectionRuleId;
  pv_component : ControlComponent;
  pv_active : bool;
  pv_severity : ControlSeverity;
  pv_detail : string
}.

(** [boolean | null] *)
Definition RecoveryOutcome : Type := option bool.

Record RecoveryStep := {
  rs_name : string;
  rs_passed : bool;
  rs_detail : string
}.

Record RecoveryReport := {
  rp_component : ControlComponent;
  rp_verified : bool;
  rp_steps : list RecoveryStep
}.

Record StartupCheck := {
  sc_name : string;
  sc_passed : bool;
  sc_detail : string
}.

Record StartupValidation := {
  sw_passed : bool;
  sw_checks : list StartupCheck
}.

Record SteadyStateInput := {
  ss_killEngaged : bool;
  ss_activeProtections : list ProtectionVerdict;
  ss_degraded : bool;
  ss_recoveryOutcome : RecoveryOutcome
}.

(** ** thresholds.ts *)

Record FreshnessBand := {
  fb_warningSeconds : number;
  fb_staleSeconds : number
}.

Definition FRESHNESS_features : FreshnessBand :=
  {| fb_warningSeconds := nint 60; fb_staleSeconds := nint 180 |}.
Definition FRESHNESS_signals : FreshnessBand :=
  {| fb_warningSeconds := nint 60; fb_staleSeconds := nint 120 |}.
Definition FRESHNESS_execution : FreshnessBand :=
  {| fb_warningSeconds := nint 120; fb_staleSeconds := nint 300 |}.

(** ** state-machine.ts *)

Definition protectionReason (active : list ProtectionVerdict) : string :=
  match active with
  | [v] => pv_detail v
  | _ => pretty (length active) +:+ " protection conditions active: "
         +:+ join ", " (showRule ∘ pv_ruleId <$> active)
  end.

Definition deriveRuntimeState (prev : ControlState) (input : SteadyStateInput) :
    RuntimeStateResult :=
  let result state reason :=
    {| rr_state := state; rr_reason := reason; rr_affectedComponents := [] |} in
  if ss_killEngaged input then result STOPPED "manual kill switch engaged"
  else if bool_decide (0 < length (ss_activeProtections input)) then
    {| rr_state := PROTECTED;
       rr_reason := protectionReason (ss_activeProtections input);
       rr_affectedComponents := pv_component <$> ss_activeProtections input |}
  else if bool_decide (prev = PROTECTED) || bool_decide (prev = RECOVERING) then
    match ss_recoveryOutcome input with
    | Some true => result HEALTHY "recovery verified"
    | Some false => result PROTECTED "recovery verification failed — holding protected"
    | None => result RECOVERING "verifying recovery"
    end
  else if bool_decide (prev = STOPPED) then
    if ss_degraded input then result DEGRADED "resumed — soft degradation present"
    else result HEALTHY "resumed by operator"
  else if ss_degraded input then result DEGRADED "non-critical degradation"
  else result HEALTHY "all systems nominal".

(** ** permission.ts *)

Definition healthy_ (h : ComponentHealth) : bool := bool_decide (h = H_healthy).

Definition streamFresh (lagSeconds : option number) (staleSeconds : number) : bool :=
  match lagSeconds with Some l => nle l staleSeconds | None => false end.

Definition stateBlocks (state : ControlState) : bool := bool_decide (state <> HEALTHY).

(** The reason for one infrastructure component. *)
Definition infra_reason (check : PermissionCheckId) (label name : string) (h : ComponentHealth) :
    PermissionReason :=
  {| pr_check := check; pr_label := label; pr_ok := healthy_ h;
     pr_detail := if healthy_ h then "healthy" else name +:+ " is " +:+ showHealth h |}.

(** [`${lagSeconds}`] *)
Definition showLag (l : option number) : string :=
  match l with Some l => numToString l | None => "null" end.

(** The reason for a stream that must have been observed. *)
Definition stream_reason (check : PermissionCheckId) (label table : string)
    (o : FreshnessObservation) : PermissionReason :=
  let ok := streamFresh (fo_lagSeconds o) (fo_staleSeconds o) in
  {| pr_check := check; pr_label := label; pr_ok := ok;
     pr_detail :=
       if ok then "fresh (" +:+ showLag (fo_lagSeconds o) +:+ "s)"
       else match fo_lagSeconds o with
            | None => "no " +:+ table +:+ " observed"
            | Some l => table +:+ " stale " +:+ numToString l +:+ "s > "
                        +:+ numToString (fo_staleSeconds o) +:+ "s"
            end |}.

Definition execution_reason (o : FreshnessObservation) : PermissionReason :=
  let stalled :=
    match fo_lagSeconds o with Some l => ngt l (fo_staleSeconds o) | None => false end in
  {| pr_check := CK_execution_freshness; pr_label := "Execution freshness valid";
     pr_ok := negb stalled;
     pr_detail :=
       if stalled then "Execution stalled " +:+ showLag (fo_lagSeconds o) +:+ "s > "
                       +:+ numToString (fo_staleSeconds o) +:+ "s"
       else match fo_lagSeconds o with
            | None => "no prior execution (first order allowed)"
            | Some l => "fresh (" +:+ numToString l +:+ "s)"
            end |}.

Definition evaluateTradingPermission (inputs : ControlInputs) (runtimeState : option ControlState) :
    TradingPermission :=
  let ks := ci_killSwitch inputs in
  let reasons :=
    [infra_reason CK_database "Database healthy" "database" (ci_database inputs);
     infra_reason CK_redis "Redis healthy" "redis" (ci_redis inputs);
     infra_reason CK_quant "Quant healthy" "quant" (ci_quant inputs);
     stream_reason CK_feature_freshness "Feature freshness valid" "FeatureSnapshot"
       (ci_features inputs);
     stream_reason CK_signal_freshness "Signal freshness valid" "EngineSignal"
       (ci_signals inputs);
     execution_reason (ci_execution inputs);
     {| pr_check := CK_risk_engine; pr_label := "Risk engine active";
        pr_ok := ci_riskEngineActive inputs;
        pr_detail := if ci_riskEngineActive inputs then "armed" else "disabled/halted" |};
     {| pr_check := CK_kill_switch; pr_label := "Kill switch disengaged";
        pr_ok := negb (ks_engaged ks);
        pr_detail :=
          if ks_engaged ks then "ENGAGED by " +:+ default "unknown" (ks_actor ks) +:+ ": "
                                +:+ default "no reason" (ks_reason ks)
          else "disengaged" |}]
    ++ match runtimeState with
       | Some s =>
           [{| pr_check := CK_runtime_state; pr_label := "Runtime state HEALTHY";
               pr_ok := negb (stateBlocks s);
               pr_detail := if negb (stateBlocks s) then "HEALTHY" else "state is " +:+ showState s |}]
       | None => []
       end in
  let blockedBy := filter (fun r => pr_ok r = false) reasons in
  {| tp_permission := if bool_decide (length blockedBy = 0) then ALLOWED else TP_BLOCKED;
     tp_generatedAt := ci_now inputs;
     tp_reasons := reasons;
     tp_blockedBy := blockedBy |}.

(** ** protection.ts *)

Definition infraDown (h : ComponentHealth) : bool :=
  bool_decide (h = H_failing) || bool_decide (h = H_unknown).

Definition freshnessBreached (lagSeconds : option number) (staleSeconds : number) : bool :=
  match lagSeconds with Some l => ngt l staleSeconds | None => false end.

Definition infra_verdict (rule : ProtectionRuleId) (c : ControlComponent) (h : ComponentHealth)
    (down_prefix up_text : string) : ProtectionVerdict :=
  {| pv_ruleId := rule; pv_component := c; pv_active := infraDown h; pv_severity := SV_CRITICAL;
     pv_detail := if infraDown h then down_prefix +:+ showHealth h else up_text |}.

Definition stream_verdict (rule : ProtectionRuleId) (c : ControlComponent)
    (o : FreshnessObservation) (table ok_text : string) : ProtectionVerdict :=
  let breached := freshnessBreached (fo_lagSeconds o) (fo_staleSeconds o) in
  {| pv_ruleId := rule; pv_component := c; pv_active := breached; pv_severity := SV_CRITICAL;
     pv_detail :=
       if breached then table +:+ " stale " +:+ showLag (fo_lagSeconds o) +:+ "s > "
                        +:+ numToString (fo_staleSeconds o) +:+ "s"
       else ok_text |}.

Definition evaluateProtectionRules (inputs : ControlInputs) : list ProtectionVerdict :=
  [infra_verdict database_unavailable C_database (ci_database inputs)
     "database health is " "database reachable";
   infra_verdict redis_unavailable C_redis (ci_redis inputs) "redis health is " "redis reachable";
   infra_verdict quant_unavailable C_quant (ci_quant inputs) "quant health is " "quant reachable";
   stream_verdict feature_stale C_features (ci_features inputs) "FeatureSnapshot"
     "feature generation within bound";
   stream_verdict signal_stale C_signals (ci_signals inputs) "EngineSignal"
     "signal engine within bound";
   stream_verdict execution_stale C_execution (ci_execution inputs) "Execution"
     "execution within bound (or idle)";
   {| pv_ruleId := risk_disabled; pv_component := C_risk;
      pv_active := negb (ci_riskEngineActive inputs); pv_severity := SV_CRITICAL;
      pv_detail := if ci_riskEngineActive inputs then "risk engine armed"
                   else "risk engine disabled/halted" |}].

Definition activeProtections (inputs : ControlInputs) : list ProtectionVerdict :=
  filter (fun v => pv_active v = true) (evaluateProtectionRules inputs).

Definition softStale (o : FreshnessObservation) : bool :=
  match fo_lagSeconds o with
  | Some l => ngt l (fo_warningSeconds o) && nle l (fo_staleSeconds o)
  | None => false
  end.

Definition isDegraded (inputs : ControlInputs) : bool :=
  bool_decide (ci_database inputs = H_degraded) || bool_decide (ci_redis inputs = H_degraded)
  || bool_decide (ci_quant inputs = H_degraded) || softStale (ci_features inputs)
  || softStale (ci_signals inputs) || softStale (ci_execution inputs).

(** ** recovery.ts *)

Definition recoveryOutcome (reports : list RecoveryReport) : RecoveryOutcome :=
  if bool_decide (length reports = 0) then None else Some (forallb rp_verified reports).

(** The loop: the components seen so far and the output, oldest first. *)
Fixpoint needing (current seen : list ControlComponent) (prev : list ControlComponent) :
    list ControlComponent :=
  match prev with
  | [] => []
  | c :: rest =>
      if negb (bool_decide (c ∈ current)) && negb (bool_decide (c ∈ seen))
      then c :: needing current (c :: seen) rest
      else needing current seen rest
  end.

Definition componentsNeedingRecovery (previouslyActive currentlyActive : list ControlComponent) :
    list ControlComponent := needing currentlyActive [] previouslyActive.

(** ** startup.ts *)

Definition REQUIRED_STARTUP_CHECKS : list string :=
  ["database"; "redis"; "quant"; "schema"; "freshness_probes"].

Definition summarizeStartup (checks : list StartupCheck) : StartupValidation :=
  {| sw_passed := bool_decide (0 < length checks) && forallb sc_passed checks;
     sw_checks := checks |}.

(** ** Lemmas *)

Lemma permission_allowed_iff inputs st :
  tp_permission (evaluateTradingPermission inputs st) = ALLOWED <->
  Forall (fun r => pr_ok r = true) (tp_reasons (evaluateTradingPermission inputs st)).
Proof.
  unfold evaluateTradingPermission. cbn [tp_permission tp_reasons].
  match goal with |- context [filter _ ?l] => set (rs := l) end.
  split.
  - case_bool_decide as E; [|done]. intros _. apply nil_length_inv in E.
    apply Forall_forall. intros r Hr. destruct (pr_ok r) eqn:Er; [done|]. exfalso.
    assert (r ∈ filter (fun r => pr_ok r = false) rs) as Hf by (by apply list_elem_of_filter).
    rewrite E in Hf. by apply elem_of_nil in Hf.
  - intros H. rewrite bool_decide_true; [done|].
    assert (filter (fun r => pr_ok r = false) rs = []) as ->; [|done].
    induction H as [|r l Hr _ IH]; [done|].
    rewrite filter_cons_False; [done|congruence].
Qed.

Lemma activeProtections_nil inputs :
  activeProtections inputs = [] <->
  Forall (fun v => pv_active v = false) (evaluateProtectionRules inputs).
Proof.
  unfold activeProtections. induction (evaluateProtectionRules inputs) as [|v l IH]; [done|].
  rewrite filter_cons, Forall_cons. destruct (pv_active v) eqn:E; case_decide; try done.
  - split; [done|by intros []].
  - rewrite IH. by split; [intros; split|intros []].
Qed.

Lemma streamFresh_not_breached l s :
  streamFresh l s = true -> freshnessBreached l s = false.
Proof.
  destruct l as [l|]; [|done]. simpl. unfold ngt, nlt, nle.
  rewrite (ncmp_antisym l s). by destruct (ncmp l s) as [[]|].
Qed.
