(* ===== verification/ControlWorld.v ===== *)
(** * ControlWorld: what the control plane reads and writes

    The rows of the control tables (packages/db/prisma/schema.prisma), the Prisma client
    that serves them and the probes' network calls.  The client and the network are not
    code of this repository: they are the operations of the class [World], and what the
    control plane relies on is the class [WorldLaws], which restates their documented
    behaviour: a call either throws or has its effect, a write that throws may still have
    had it, and only writes change the tables.  Dates are epoch milliseconds. *)

From stdpp Require Import sorting.
From S2P Require Import Prelude JsNumber JsText Control Effects.
From S2P Require Export Json.

#[local] Set Warnings "-register-all".

Local Open Scope string_scope.
Local Open Scope list_scope.

(** ** Errors *)

(** ControlDataCode (validate.ts) *)
Inductive ControlDataCode :=
| MALFORMED_RUNTIME_STATE | MALFORMED_STATE_TRANSITION | MALFORMED_INCIDENT.

(** What the control plane's code can throw: its own admission error, or an error of the
    client (with its message). *)
Inductive Exn :=
| ControlDataError (message : string) (code : ControlDataCode)
| ClientError (message : string).

Definition is_ControlDataError (e : Exn) : bool :=
  match e with ControlDataError _ _ => true | ClientError _ => false end.

(** [err instanceof Error ? err.message : String(err)] *)
Definition message (e : Exn) : string :=
  match e with ControlDataError m _ | ClientError m => m end.

(** ** Rows (schema.prisma; the columns the control plane reads or writes) *)

Record KillRow := {
  kr_id : string;
  kr_engaged : bool;
  kr_actor : option string;
  kr_reason : option string;
  kr_engagedAt : option Z;
  kr_resumedBy : option string;
  kr_resumedAt : option Z
}.

Record TransitionRow := {
  tr_id : string;
  tr_state : string;
  tr_previousState : option string;
  tr_reason : string;
  tr_affectedComponents : Json;
  tr_enteredAt : Z
}.

Record ProtectionRow := {
  pe_id : string;
  pe_ruleId : string;
  pe_component : string;
  pe_severity : ControlSeverity;
  pe_detail : option string;
  pe_status : string;
  pe_firstSeen : Z;
  pe_lastSeen : Z;
  pe_resolvedAt : option Z;
  pe_incidentId : option string
}.

Record IncidentRow := {
  in_id : string;
  in_type : string;
  in_severity : ControlSeverity;
  in_affectedComponents : Json;
  in_startedAt : Z;
  in_endedAt : option Z;
  in_durationSec : option number;
  in_status : string;
  in_recoveryOutcome : option string;
  in_detail : option string
}.

Record AuditRow := {
  au_id : string;
  au_ts : Z;
  au_actor : string;
  au_action : string;
  au_reason : option string;
  au_result : string;
  au_metadata : option Json
}.

(** A FeatureSnapshot or EngineSignal row, of which only the age is read. *)
Record SnapshotRow := {
  sn_id : string;
  sn_createdAt : Z
}.

(** The tables, each in the order of insertion. *)
Record Tables := {
  t_kill : list KillRow;
  t_transitions : list TransitionRow;
  t_protections : list ProtectionRow;
  t_incidents : list IncidentRow;
  t_audits : list AuditRow;
  t_features : list SnapshotRow;
  t_signals : list SnapshotRow
}.

Definition set_kill l t := {| t_kill := l; t_transitions := t_transitions t;
  t_protections := t_protections t; t_incidents := t_incidents t; t_audits := t_audits t;
  t_features := t_features t; t_signals := t_signals t |}.
Definition set_transitions l t := {| t_kill := t_kill t; t_transitions := l;
  t_protections := t_protections t; t_incidents := t_incidents t; t_audits := t_audits t;
  t_features := t_features t; t_signals := t_signals t |}.
Definition set_protections l t := {| t_kill := t_kill t; t_transitions := t_transitions t;
  t_protections := l; t_incidents := t_incidents t; t_audits := t_audits t;
  t_features := t_features t; t_signals := t_signals t |}.
Definition set_incidents l t := {| t_kill := t_kill t; t_transitions := t_transitions t;
  t_protections := t_protections t; t_incidents := l; t_audits := t_audits t;
  t_features := t_features t; t_signals := t_signals t |}.
Definition set_audits l t := {| t_kill := t_kill t; t_transitions := t_transitions t;
  t_protections := t_protections t; t_incidents := t_incidents t; t_audits := l;
  t_features := t_features t; t_signals := t_signals t |}.
Definition set_features l t := {| t_kill := t_kill t; t_transitions := t_transitions t;
  t_protections := t_protections t; t_incidents := t_incidents t; t_audits := t_audits t;
  t_features := l; t_signals := t_signals t |}.
Definition set_signals l t := {| t_kill := t_kill t; t_transitions := t_transitions t;
  t_protections := t_protections t; t_incidents := t_incidents t; t_audits := t_audits t;
  t_features := t_features t; t_signals := l |}.

(** ** The client *)

(** The calls of one model's delegate.  [create] takes the row as a function of the id
    and the time the database fills in by default. *)
Record Delegate (D Row : Type) := {
  findUnique : string -> M Exn D (option Row);
  findFirst : (Row -> bool) -> option (Row -> Z) -> M Exn D (option Row);
  findMany : (Row -> bool) -> (Row -> Z) -> M Exn D (list Row);
  count : M Exn D nat;
  create : (string -> Z -> Row) -> M Exn D Row;
  update : string -> (Row -> Row) -> M Exn D unit;
  updateMany : (Row -> bool) -> (Row -> Row) -> M Exn D unit;
  upsert : string -> Row -> (Row -> Row) -> M Exn D unit
}.
Arguments findUnique {D Row} _ _.
Arguments findFirst {D Row} _ _ _.
Arguments findMany {D Row} _ _ _.
Arguments count {D Row} _.
Arguments create {D Row} _ _.
Arguments update {D Row} _ _ _.
Arguments updateMany {D Row} _ _ _.
Arguments upsert {D Row} _ _ _ _.

(** The outside world: the database behind the Prisma client, the network behind the
    probes, the clock, and the callback that reads the risk engine. *)
Class World (D : Type) := {
  tables : D -> Tables;
  controlKillSwitch : Delegate D KillRow;
  runtimeStateTransition : Delegate D TransitionRow;
  protectionEvent : Delegate D ProtectionRow;
  incident : Delegate D IncidentRow;
  controlAuditLog : Delegate D AuditRow;
  featureSnapshot : Delegate D SnapshotRow;
  engineSignal : Delegate D SnapshotRow;
  (** [Date.now()] *)
  dateNow : D -> Z * D;
  (** [SELECT 1] raced against the probe's timeout *)
  selectOne : M Exn D unit;
  (** a PING session with the server at the url: ok and detail *)
  pingRedis : string -> D -> (bool * string) * D;
  (** [fetch(url)] under the probe's timeout: [res.ok] and [res.status] *)
  fetchOk : string -> M Exn D (bool * Z);
  (** [deps.getRiskActive()] *)
  getRiskActive : D -> bool * D
}.

(** ** What is relied on *)

Section laws.
Context {D : Type} `{!World D}.

(** A read leaves the tables alone and answers Q, or throws an error of the client. *)
Definition reads {A} (d : D) (Q : A -> Prop) (r : Exn + A) (d' : D) : Prop :=
  tables d' = tables d
  /\ match r with inr a => Q a | inl e => is_ControlDataError e = false end.

(** A write has the effect E; a write that throws may have had it or not. *)
Definition writes {A} (d : D) (E : Tables -> A -> Tables -> Prop) (r : Exn + A) (d' : D) : Prop :=
  match r with
  | inr a => E (tables d) a (tables d')
  | inl e => is_ControlDataError e = false
             /\ (tables d' = tables d \/ exists a, E (tables d) a (tables d'))
  end.

Definition on_id {Row} (id : Row -> string) (i : string) (f : Row -> Row) (r : Row) : Row :=
  if bool_decide (id r = i) then f r else r.

Class DelegateOk {Row} (dg : Delegate D Row) (id : Row -> string)
    (get : Tables -> list Row) (set : list Row -> Tables -> Tables) : Prop := {
  findUnique_ok i d :
    wp (findUnique dg i)
       (reads d (fun o => o = List.find (fun r => bool_decide (id r = i)) (get (tables d)))) d;
  findFirst_ok w key d :
    wp (findFirst dg w key)
       (reads d (fun o =>
          match o with
          | None => forall r, r ∈ get (tables d) -> w r = false
          | Some r => r ∈ get (tables d) /\ w r = true
              /\ forall k r', key = Some k -> r' ∈ get (tables d) -> w r' = true -> (k r' <= k r)%Z
          end)) d;
  findMany_ok w key d :
    wp (findMany dg w key)
       (reads d (fun l => l ≡ₚ filter (fun r => w r = true) (get (tables d))
          /\ Sorted (fun a b => (key b <= key a)%Z) l)) d;
  count_ok d : wp (count dg) (reads d (fun n => n = length (get (tables d)))) d;
  create_ok row d :
    wp (create dg row)
       (writes d (fun t a t' => exists i now, ~ i ∈ (id <$> get t) /\ a = row i now
                                  /\ t' = set (get t ++ [a]) t)) d;
  update_ok i f d :
    wp (update dg i f)
       (writes d (fun t _ t' => i ∈ (id <$> get t) /\ t' = set (on_id id i f <$> get t) t)) d;
  updateMany_ok w f d :
    wp (updateMany dg w f)
       (writes d (fun t _ t' => t' = set ((fun r => if w r then f r else r) <$> get t) t)) d;
  upsert_ok i row f d :
    wp (upsert dg i row f)
       (writes d (fun t _ t' =>
          t' = if bool_decide (i ∈ (id <$> get t)) then set (on_id id i f <$> get t) t
               else set (get t ++ [row]) t)) d
}.

Class WorldLaws : Prop := {
  controlKillSwitch_ok :: DelegateOk controlKillSwitch kr_id t_kill set_kill;
  runtimeStateTransition_ok ::
    DelegateOk runtimeStateTransition tr_id t_transitions set_transitions;
  protectionEvent_ok :: DelegateOk protectionEvent pe_id t_protections set_protections;
  incident_ok :: DelegateOk incident in_id t_incidents set_incidents;
  controlAuditLog_ok :: DelegateOk controlAuditLog au_id t_audits set_audits;
  featureSnapshot_ok :: DelegateOk featureSnapshot sn_id t_features set_features;
  engineSignal_ok :: DelegateOk engineSignal sn_id t_signals set_signals;
  dateNow_ok d : tables (snd (dateNow d)) = tables d;
  selectOne_ok d : wp selectOne (reads d (fun _ => True)) d;
  pingRedis_ok url d : tables (snd (pingRedis url d)) = tables d;
  fetchOk_ok url d : wp (fetchOk url) (reads d (fun _ => True)) d;
  getRiskActive_ok d : tables (snd (getRiskActive d)) = tables d
}.
End laws.
Arguments WorldLaws D {_}.
