(* ===== verification/ControlStore.v ===== *)
(** * ControlStore: control-plane persistence

    services/workers/src/control/store.ts over the client of [ControlWorld], and the
    admission of persisted values of services/workers/src/control/validate.ts. *)

From S2P Require Import Prelude JsNumber JsText Control Effects ControlWorld.

Local Open Scope string_scope.
Local Open Scope list_scope.
Local Open Scope eff_scope.

(** ** validate.ts *)

(** [isNonEmptyString(v) && RUNTIME_STATE_SET.has(v)], with the member found. *)
Definition stateOf (v : Json) : option ControlState :=
  match v with
  | J_string s => if bool_decide (s <> "") then
                    List.find (fun st => bool_decide (showState st = s)) RUNTIME_STATES
                  else None
  | _ => None
  end.

(** [isNonEmptyString(el) && CONTROL_COMPONENT_SET.has(el)], with the member found. *)
Definition componentOf (v : Json) : option ControlComponent :=
  match v with
  | J_string s => if bool_decide (s <> "") then
                    List.find (fun c => bool_decide (showComponent c = s)) CONTROL_COMPONENTS
                  else None
  | _ => None
  end.

Definition quote : string := String (Ascii.ascii_of_nat 34) EmptyString.

(** The assertion narrows v to the state it returns. *)
Definition assertValidRuntimeState (v : Json) (ctx : string) (code : ControlDataCode) :
    Exn + ControlState :=
  match stateOf v with
  | Some s => inr s
  | None =>
      inl (ControlDataError
             (ctx +:+ ": " +:+ quote +:+ jsString v +:+ quote +:+ " is not a RuntimeState ("
              +:+ join "|" (showState <$> RUNTIME_STATES)
              +:+ ") — fail-closed, nothing repaired") code)
  end.

(** The loop over the elements: the first bad one throws. *)
Fixpoint admitElements (l : list Json) (ctx : string) (code : ControlDataCode) :
    Exn + list ControlComponent :=
  match l with
  | [] => inr []
  | el :: l =>
      match componentOf el with
      | None =>
          inl (ControlDataError
                 (ctx +:+ ": element " +:+ quote +:+ jsString el +:+ quote
                  +:+ " is not a ControlComponent ("
                  +:+ join "|" (showComponent <$> CONTROL_COMPONENTS)
                  +:+ ") — fail-closed, nothing filtered") code)
      | Some c =>
          match admitElements l ctx code with
          | inl e => inl e
          | inr cs => inr (c :: cs)
          end
      end
  end.

Definition admitControlComponents (v : Json) (ctx : string) (code : ControlDataCode) :
    Exn + list ControlComponent :=
  match v with
  | J_null | J_undefined => inr []
  | J_array l => admitElements l ctx code
  | _ => inl (ControlDataError
                (ctx +:+ ": not an array (got " +:+ typeof v +:+ ") — fail-closed, nothing repaired")
                code)
  end.

(** ** store.ts *)

Definition KILL_SWITCH_ID : string := "singleton".

(** A component list as the Json column holds it. *)
Definition componentsJson (cs : list ControlComponent) : Json :=
  J_array ((fun c => J_string (showComponent c)) <$> cs).

(** [getLatestTransition]'s answer *)
Record LatestTransition := {
  lt_state : ControlState;
  lt_previousState : option ControlState;
  lt_reason : string;
  lt_affectedComponents : list ControlComponent;
  lt_enteredAt : string
}.

Record ActiveProtectionEvent := {
  ap_id : string;
  ap_ruleId : string;
  ap_component : string;
  ap_severity : ControlSeverity;
  ap_detail : option string;
  ap_firstSeen : string;
  ap_lastSeen : string
}.

(** [{ id, affectedComponents }] *)
Record OpenIncident := {
  oi_id : string;
  oi_affectedComponents : list ControlComponent
}.

Inductive ResolveOutcome := O_VERIFIED | O_FAILED | O_MANUAL_RESUME.

Definition showOutcome (o : ResolveOutcome) : string :=
  match o with
  | O_VERIFIED => "VERIFIED" | O_FAILED => "FAILED" | O_MANUAL_RESUME => "MANUAL_RESUME"
  end.

(** [args.incidentId ? { incidentId } : {}] and [args.reason ? { reason } : {}]: a truthy
    string overwrites the field. *)
Definition truthy (s : option string) : option string :=
  match s with Some "" | None => None | Some s => Some s end.

Definition is_ACTIVE (r : ProtectionRow) : bool := bool_decide (pe_status r = "ACTIVE").
Definition is_OPEN (r : IncidentRow) : bool := bool_decide (in_status r = "OPEN").

(** [activeRuleIds.length ? activeRuleIds : ["__none__"]] *)
Definition notIn (activeRuleIds : list ProtectionRuleId) : list string :=
  match activeRuleIds with [] => ["__none__"] | _ => showRule <$> activeRuleIds end.

(** A thrown or returned admission result as a computation. *)
Definition ofResult {S A} (r : Exn + A) : M Exn S A :=
  match r with inl e => throw e | inr a => ret a end.

Section store.
Context {D : Type} `{!World D}.

Definition newDate : M Exn D Z := total dateNow.

Definition appendAudit (actor action : string) (reason : option string) (result : string)
    (metadata : option Json) : M Exn D unit :=
  do! create controlAuditLog (fun i now =>
        {| au_id := i; au_ts := now; au_actor := actor; au_action := action;
           au_reason := truthy reason; au_result := result; au_metadata := metadata |}) in
  ret tt.

Definition getKillSwitch : M Exn D KillSwitchState :=
  let! row := findUnique controlKillSwitch KILL_SWITCH_ID in
  match row with
  | None => ret {| ks_engaged := false; ks_actor := None; ks_reason := None; ks_engagedAt := None |}
  | Some row =>
      ret {| ks_engaged := kr_engaged row; ks_actor := kr_actor row; ks_reason := kr_reason row;
             ks_engagedAt := toISOString <$> kr_engagedAt row |}
  end.

Definition engageKillSwitch (actor reason : string) : M Exn D unit :=
  let! now := newDate in
  do! upsert controlKillSwitch KILL_SWITCH_ID
        {| kr_id := KILL_SWITCH_ID; kr_engaged := true; kr_actor := Some actor;
           kr_reason := Some reason; kr_engagedAt := Some now; kr_resumedBy := None;
           kr_resumedAt := None |}
        (fun row => {| kr_id := kr_id row; kr_engaged := true; kr_actor := Some actor;
                       kr_reason := Some reason; kr_engagedAt := Some now;
                       kr_resumedBy := None; kr_resumedAt := None |}) in
  appendAudit actor "KILL" (Some reason) "ACCEPTED" (Some (J_object [("source", J_string "worker")])).

Definition resumeKillSwitch (actor reason : string) : M Exn D unit :=
  let! now := newDate in
  do! upsert controlKillSwitch KILL_SWITCH_ID
        {| kr_id := KILL_SWITCH_ID; kr_engaged := false; kr_actor := None;
           kr_reason := Some reason; kr_engagedAt := None; kr_resumedBy := Some actor;
           kr_resumedAt := Some now |}
        (fun row => {| kr_id := kr_id row; kr_engaged := false; kr_actor := kr_actor row;
                       kr_reason := Some reason; kr_engagedAt := kr_engagedAt row;
                       kr_resumedBy := Some actor; kr_resumedAt := Some now |}) in
  appendAudit actor "RESUME" (Some reason) "ACCEPTED"
    (Some (J_object [("source", J_string "worker")])).

Definition getCurrentState : M Exn D ControlState :=
  let! row := findFirst runtimeStateTransition (fun _ => true) (Some tr_enteredAt) in
  match row with
  | None => ret BOOTING
  | Some row =>
      ofResult (assertValidRuntimeState (J_string (tr_state row)) "RuntimeStateTransition.state"
                  MALFORMED_RUNTIME_STATE)
  end.

Definition getLatestTransition : M Exn D (option LatestTransition) :=
  let! row := findFirst runtimeStateTransition (fun _ => true) (Some tr_enteredAt) in
  match row with
  | None => ret None
  | Some row =>
      let! state := ofResult (assertValidRuntimeState (J_string (tr_state row))
                                "RuntimeStateTransition.state" MALFORMED_STATE_TRANSITION) in
      let! previousState :=
        match tr_previousState row with
        | None => ret None
        | Some p =>
            let! s := ofResult (assertValidRuntimeState (J_string p)
                                  "RuntimeStateTransition.previousState"
                                  MALFORMED_STATE_TRANSITION) in
            ret (Some s)
        end in
      let! affected :=
        ofResult (admitControlComponents (tr_affectedComponents row)
                    "RuntimeStateTransition.affectedComponents" MALFORMED_STATE_TRANSITION) in
      ret (Some {| lt_state := state; lt_previousState := previousState;
                   lt_reason := tr_reason row; lt_affectedComponents := affected;
                   lt_enteredAt := toISOString (tr_enteredAt row) |})
  end.

Definition recordTransition (state : ControlState) (previousState : option ControlState)
    (reason : string) (affected : list ControlComponent) : M Exn D unit :=
  do! create runtimeStateTransition (fun i now =>
        {| tr_id := i; tr_state := showState state; tr_previousState := showState <$> previousState;
           tr_reason := reason; tr_affectedComponents := componentsJson affected;
           tr_enteredAt := now |}) in
  ret tt.

Definition upsertProtectionEvent (ruleId : ProtectionRuleId) (component : ControlComponent)
    (severity : ControlSeverity) (detail : string) (incidentId : option string) :
    M Exn D string :=
  let! existing :=
    findFirst protectionEvent
      (fun r => bool_decide (pe_ruleId r = showRule ruleId) && is_ACTIVE r) None in
  match existing with
  | Some row =>
      let! now := newDate in
      do! update protectionEvent (pe_id row) (fun r =>
            {| pe_id := pe_id r; pe_ruleId := pe_ruleId r; pe_component := pe_component r;
               pe_severity := pe_severity r; pe_detail := Some detail; pe_status := pe_status r;
               pe_firstSeen := pe_firstSeen r; pe_lastSeen := now;
               pe_resolvedAt := pe_resolvedAt r;
               pe_incidentId := match truthy incidentId with
                                | Some i => Some i | None => pe_incidentId r end |}) in
      ret (pe_id row)
  | None =>
      let! created := create protectionEvent (fun i now =>
            {| pe_id := i; pe_ruleId := showRule ruleId; pe_component := showComponent component;
               pe_severity := severity; pe_detail := Some detail; pe_status := "ACTIVE";
               pe_firstSeen := now; pe_lastSeen := now; pe_resolvedAt := None;
               pe_incidentId := truthy incidentId |}) in
      ret (pe_id created)
  end.

(** [["__none__"]] stands in for an empty list of active rules. *)
Definition resolveProtectionEventsExcept (activeRuleIds : list ProtectionRuleId) : M Exn D unit :=
  let! now := newDate in
  updateMany protectionEvent
    (fun r => is_ACTIVE r && negb (bool_decide (pe_ruleId r ∈ notIn activeRuleIds)))
    (fun r => {| pe_id := pe_id r; pe_ruleId := pe_ruleId r; pe_component := pe_component r;
                 pe_severity := pe_severity r; pe_detail := pe_detail r; pe_status := "RESOLVED";
                 pe_firstSeen := pe_firstSeen r; pe_lastSeen := pe_lastSeen r;
                 pe_resolvedAt := Some now; pe_incidentId := pe_incidentId r |}).

Definition getActiveProtectionEvents : M Exn D (list ActiveProtectionEvent) :=
  let! rows := findMany protectionEvent is_ACTIVE pe_lastSeen in
  ret ((fun r => {| ap_id := pe_id r; ap_ruleId := pe_ruleId r; ap_component := pe_component r;
                    ap_severity := pe_severity r; ap_detail := pe_detail r;
                    ap_firstSeen := toISOString (pe_firstSeen r);
                    ap_lastSeen := toISOString (pe_lastSeen r) |}) <$> rows).

Definition getOpenIncident : M Exn D (option OpenIncident) :=
  let! row := findFirst incident is_OPEN (Some in_startedAt) in
  match row with
  | None => ret None
  | Some row =>
      let! affected :=
        ofResult (admitControlComponents (in_affectedComponents row)
                    ("Incident.affectedComponents (incident " +:+ in_id row +:+ ")")
                    MALFORMED_INCIDENT) in
      ret (Some {| oi_id := in_id row; oi_affectedComponents := affected |})
  end.

Definition openIncident (type : string) (severity : ControlSeverity)
    (affected : list ControlComponent) (detail : string) : M Exn D string :=
  let! created := create incident (fun i now =>
    {| in_id := i; in_type := type; in_severity := severity;
       in_affectedComponents := componentsJson affected; in_startedAt := now;
       in_endedAt := None; in_durationSec := None; in_status := "OPEN";
       in_recoveryOutcome := None; in_detail := Some detail |}) in
  ret (in_id created).

Definition durationSec (now : Z) (startedAt : Z) : number :=
  nmax (nint 0) (nround (ndiv (nsub (nint now) (nint startedAt)) (nint 1000))).

Definition resolveIncident (id : string) (outcome : ResolveOutcome) : M Exn D unit :=
  let! row := findUnique incident id in
  let! now := newDate in
  update incident id (fun r =>
    {| in_id := in_id r; in_type := in_type r; in_severity := in_severity r;
       in_affectedComponents := in_affectedComponents r; in_startedAt := in_startedAt r;
       in_endedAt := Some now; in_durationSec := durationSec now ∘ in_startedAt <$> row;
       in_status := "RESOLVED"; in_recoveryOutcome := Some (showOutcome outcome);
       in_detail := in_detail r |}).
End store.
