(* ===== verification/ControlPlane.v ===== *)
(** * ControlPlane: the control-plane orchestrator

    services/workers/src/control: probes.ts, inputs.ts, recovery.ts, startup.ts,
    evaluator.ts (class ControlPlane, whose fields are the record [ControlPlane]) and
    gate.ts.  A method is a computation on the fields and the outside world.  The calls a
    [Promise.all] starts together run here one after the other, in the order of the array.
    Log calls are left out. *)

From S2P Require Import Prelude JsNumber JsText Control ControlWorld ControlStore.
From S2P Require Export Effects.

Local Open Scope string_scope.
Local Open Scope list_scope.
Local Open Scope eff_scope.

(** ** Data *)

Record Probe := {
  ph_health : ComponentHealth;
  ph_detail : string
}.

(** GatherDeps and VerifyDeps, less the risk callback. *)
Record Deps := {
  dp_redisUrl : option string;
  dp_quantUrl : option string;
  dp_lastExecutionAt : option Z;
  dp_startupValidated : bool
}.

Record ControlPlane := {
  cp_lastState : ControlState;
  cp_lastActiveComponents : list ControlComponent;
  cp_lastPermission : option TradingPermission;
  cp_startupValidated : bool;
  cp_startedFlag : bool;
  cp_lastExecutionAt : option Z;
  cp_redisUrl : option string;
  cp_quantUrl : option string
}.

(** The fields a new ControlPlane starts with. *)
Definition newControlPlane (redisUrl quantUrl : option string) : ControlPlane :=
  {| cp_lastState := BOOTING; cp_lastActiveComponents := []; cp_lastPermission := None;
     cp_startupValidated := false; cp_startedFlag := false; cp_lastExecutionAt := None;
     cp_redisUrl := redisUrl; cp_quantUrl := quantUrl |}.

(** Assignments to [this]. *)
Definition set_lastState (s : ControlState) (p : ControlPlane) : ControlPlane :=
  {| cp_lastState := s; cp_lastActiveComponents := cp_lastActiveComponents p;
     cp_lastPermission := cp_lastPermission p; cp_startupValidated := cp_startupValidated p;
     cp_startedFlag := cp_startedFlag p; cp_lastExecutionAt := cp_lastExecutionAt p;
     cp_redisUrl := cp_redisUrl p; cp_quantUrl := cp_quantUrl p |}.

Definition set_started (validated started : bool) (p : ControlPlane) : ControlPlane :=
  {| cp_lastState := cp_lastState p; cp_lastActiveComponents := cp_lastActiveComponents p;
     cp_lastPermission := cp_lastPermission p; cp_startupValidated := validated;
     cp_startedFlag := started; cp_lastExecutionAt := cp_lastExecutionAt p;
     cp_redisUrl := cp_redisUrl p; cp_quantUrl := cp_quantUrl p |}.

Definition set_verdict (s : ControlState) (active : list ControlComponent)
    (perm : TradingPermission) (p : ControlPlane) : ControlPlane :=
  {| cp_lastState := s; cp_lastActiveComponents := active; cp_lastPermission := Some perm;
     cp_startupValidated := cp_startupValidated p; cp_startedFlag := cp_startedFlag p;
     cp_lastExecutionAt := cp_lastExecutionAt p; cp_redisUrl := cp_redisUrl p;
     cp_quantUrl := cp_quantUrl p |}.

Definition noteExecution (ts : Z) (p : ControlPlane) : ControlPlane :=
  {| cp_lastState := cp_lastState p; cp_lastActiveComponents := cp_lastActiveComponents p;
     cp_lastPermission := cp_lastPermission p; cp_startupValidated := cp_startupValidated p;
     cp_startedFlag := cp_startedFlag p; cp_lastExecutionAt := Some ts;
     cp_redisUrl := cp_redisUrl p; cp_quantUrl := cp_quantUrl p |}.

Definition currentPermission (p : ControlPlane) : option TradingPermission := cp_lastPermission p.

Definition started (p : ControlPlane) : bool := cp_startedFlag p.

Definition depsOf (p : ControlPlane) : Deps :=
  {| dp_redisUrl := cp_redisUrl p; dp_quantUrl := cp_quantUrl p;
     dp_lastExecutionAt := cp_lastExecutionAt p; dp_startupValidated := cp_startupValidated p |}.

(** [[...new Set(xs)]]: the first occurrences, in order. *)
Fixpoint uniqFrom (seen xs : list ControlComponent) : list ControlComponent :=
  match xs with
  | [] => []
  | x :: xs => if bool_decide (x ∈ seen) then uniqFrom seen xs else x :: uniqFrom (x :: seen) xs
  end.

Definition uniq (xs : list ControlComponent) : list ControlComponent := uniqFrom [] xs.

(** [url.replace(/\/$/, "")] *)
Fixpoint dropTrailingSlash (url : string) : string :=
  match url with
  | EmptyString => ""
  | String c EmptyString => if bool_decide (c = Ascii.ascii_of_nat 47) then "" else url
  | String c rest => String c (dropTrailingSlash rest)
  end.

(** ** Metadata of the audit rows *)

Definition stateJson (s : option ControlState) : Json :=
  match s with Some s => J_string (showState s) | None => J_null end.

Definition checkJson (c : StartupCheck) : Json :=
  J_object [("name", J_string (sc_name c)); ("passed", J_boolean (sc_passed c));
            ("detail", J_string (sc_detail c))].

Definition reportJson (r : RecoveryReport) : Json :=
  J_object [("component", J_string (showComponent (rp_component r)));
            ("verified", J_boolean (rp_verified r));
            ("steps", J_array ((fun s => J_object
               [("name", J_string (rs_name s)); ("passed", J_boolean (rs_passed s));
                ("detail", J_string (rs_detail s))]) <$> rp_steps r))].

(** ** probes.ts, inputs.ts, recovery.ts, startup.ts *)

Section world.
Context {D : Type} `{!World D}.

Definition probeDatabase : M Exn D Probe :=
  let! start := newDate in
  catch
    (do! selectOne in
     let! now := newDate in
     let ms := (now - start)%Z in
     ret {| ph_health := if (ms <? 500)%Z then H_healthy else H_degraded;
            ph_detail := "SELECT 1 in " +:+ showZ ms +:+ "ms" |})
    (fun err => ret {| ph_health := H_failing;
                       ph_detail := "unreachable — " +:+ message err |}).

Definition probeRedis (url : option string) : M Exn D Probe :=
  match truthy url with
  | None => ret {| ph_health := H_unknown; ph_detail := "REDIS_URL not configured" |}
  | Some url =>
      let! r := total (pingRedis url) in
      ret {| ph_health := if fst r then H_healthy else H_failing; ph_detail := snd r |}
  end.

Definition probeQuant (url : option string) : M Exn D Probe :=
  match truthy url with
  | None => ret {| ph_health := H_unknown; ph_detail := "QUANT_SERVICE_URL not configured" |}
  | Some url =>
      let! start := newDate in
      catch
        (let! res := fetchOk (dropTrailingSlash url +:+ "/health") in
         let! now := newDate in
         let ms := (now - start)%Z in
         ret {| ph_health := if fst res then H_healthy else H_degraded;
                ph_detail := if fst res
                             then "/health " +:+ showZ (snd res) +:+ " in " +:+ showZ ms +:+ "ms"
                             else "/health " +:+ showZ (snd res) |})
        (fun _ => ret {| ph_health := H_failing; ph_detail := "unreachable at " +:+ url |})
  end.

(** The time of the newest row, [.catch(() => null)]. *)
Definition latestCreatedAt (dg : Delegate D SnapshotRow) : M Exn D (option Z) :=
  let! row := catch (findFirst dg (fun _ => true) (Some sn_createdAt)) (fun _ => ret None) in
  ret (sn_createdAt <$> row).

Definition lag (now : Z) (ts : option Z) (band : FreshnessBand) : FreshnessObservation :=
  {| fo_lagSeconds :=
       (fun t => nmax (nint 0) (nround (ndiv (nsub (nint now) (nint t)) (nint 1000)))) <$> ts;
     fo_staleSeconds := fb_staleSeconds band;
     fo_warningSeconds := fb_warningSeconds band |}.

Definition killReadFallback : KillSwitchState :=
  {| ks_engaged := false; ks_actor := None; ks_reason := None; ks_engagedAt := None |}.

Definition gatherControlInputs (deps : Deps) : M Exn D ControlInputs :=
  let! now := newDate in
  let! db := probeDatabase in
  let! redis := probeRedis (dp_redisUrl deps) in
  let! quant := probeQuant (dp_quantUrl deps) in
  let! featLast := latestCreatedAt featureSnapshot in
  let! sigLast := latestCreatedAt engineSignal in
  let! killSwitch := catch getKillSwitch (fun _ => ret killReadFallback) in
  let! risk := total getRiskActive in
  ret {| ci_now := nint now;
         ci_database := ph_health db;
         ci_redis := ph_health redis;
         ci_quant := ph_health quant;
         ci_features := lag now featLast FRESHNESS_features;
         ci_signals := lag now sigLast FRESHNESS_signals;
         ci_execution := lag now (dp_lastExecutionAt deps) FRESHNESS_execution;
         ci_riskEngineActive := risk;
         ci_killSwitch := killSwitch;
         ci_startupValidated := dp_startupValidated deps |}.

Definition freshEnough (ts : option Z) (staleSeconds : number) : M Exn D bool :=
  match ts with
  | None => ret false
  | Some t => let! now := newDate in
              ret (nle (ndiv (nsub (nint now) (nint t)) (nint 1000)) staleSeconds)
  end.

Definition step (name : string) (passed : bool) (detail : string) : RecoveryStep :=
  {| rs_name := name; rs_passed := passed; rs_detail := detail |}.

(** The probe row written and read back. *)
Definition writeReadBack : M Exn D (list RecoveryStep) :=
  catch
    (let! row := create controlAuditLog (fun i now =>
       {| au_id := i; au_ts := now; au_actor := "system:control"; au_action := "RECOVERY_PROBE";
          au_reason := None; au_result := "OK";
          au_metadata := Some (J_object [("component", J_string "database")]) |}) in
     let! back := findUnique controlAuditLog (au_id row) in
     ret [step "write" true ("wrote probe " +:+ au_id row);
          step "read-back" (match back with Some b => bool_decide (au_id b = au_id row)
                                          | None => false end)
            (match back with Some _ => "read back ok" | None => "read-back failed" end)])
    (fun err => ret [step "write/read" false (message err)]).

Definition recoverySteps (component : ControlComponent) (deps : Deps) :
    M Exn D (list RecoveryStep) :=
  match component with
  | C_database =>
      let! db := probeDatabase in
      let! rest := writeReadBack in
      ret (step "SELECT 1" (negb (bool_decide (ph_health db = H_failing))
                            && negb (bool_decide (ph_health db = H_unknown))) (ph_detail db)
           :: rest)
  | C_redis =>
      let! r := probeRedis (dp_redisUrl deps) in
      ret [step "PING" (bool_decide (ph_health r = H_healthy)) (ph_detail r)]
  | C_quant =>
      let! a := probeQuant (dp_quantUrl deps) in
      let! b := probeQuant (dp_quantUrl deps) in
      ret [step "GET /health (1)" (bool_decide (ph_health a = H_healthy)) (ph_detail a);
           step "GET /health (2)" (bool_decide (ph_health b = H_healthy)) (ph_detail b)]
  | C_features =>
      let! last := latestCreatedAt featureSnapshot in
      let! ok := freshEnough last (fb_staleSeconds FRESHNESS_features) in
      ret [step "fresh FeatureSnapshot" ok (if ok then "within bound" else "still stale/empty")]
  | C_signals =>
      let! last := latestCreatedAt engineSignal in
      let! ok := freshEnough last (fb_staleSeconds FRESHNESS_signals) in
      ret [step "fresh EngineSignal" ok (if ok then "within bound" else "still stale/empty")]
  | C_execution =>
      let! ok := freshEnough (dp_lastExecutionAt deps) (fb_staleSeconds FRESHNESS_execution) in
      ret [step "recent execution" ok (if ok then "within bound" else "no recent execution")]
  | C_risk =>
      let! ok := total getRiskActive in
      ret [step "risk armed" ok (if ok then "armed" else "disabled/halted")]
  end.

Definition verifyRecovery (component : ControlComponent) (deps : Deps) :
    M Exn D RecoveryReport :=
  let! steps := recoverySteps component deps in
  ret {| rp_component := component;
         rp_verified := bool_decide (0 < length steps) && forallb rs_passed steps;
         rp_steps := steps |}.

Definition startupCheck (name : string) (passed : bool) (detail : string) : StartupCheck :=
  {| sc_name := name; sc_passed := passed; sc_detail := detail |}.

Definition validateStartup (redisUrl quantUrl : option string) : M Exn D StartupValidation :=
  let! db := probeDatabase in
  let! redis := probeRedis redisUrl in
  let! quant := probeQuant quantUrl in
  let! schema :=
    catch (do! count controlKillSwitch in
           do! count runtimeStateTransition in
           do! count protectionEvent in
           do! count incident in
           do! count controlAuditLog in
           ret (startupCheck "schema" true "control tables present"))
          (fun err => ret (startupCheck "schema" false
             ("control tables missing — run migrations: " +:+ message err))) in
  let! probes :=
    catch (do! count featureSnapshot in
           do! count engineSignal in
           ret (startupCheck "freshness_probes" true "feature/signal tables readable"))
          (fun err => ret (startupCheck "freshness_probes" false
             ("freshness source unreadable: " +:+ message err))) in
  ret (summarizeStartup
         [startupCheck "database" (bool_decide (ph_health db = H_healthy)
                                   || bool_decide (ph_health db = H_degraded)) (ph_detail db);
          startupCheck "redis" (bool_decide (ph_health redis = H_healthy)) (ph_detail redis);
          startupCheck "quant" (bool_decide (ph_health quant = H_healthy)) (ph_detail quant);
          schema; probes]).

(** ** evaluator.ts *)

(** A method: a computation on [this] and the world. *)
Definition Method (A : Type) : Type := M Exn (ControlPlane * D) A.

Definition this : Method ControlPlane := gets fst.
Definition assign (f : ControlPlane -> ControlPlane) : Method unit :=
  modify (fun s => (f (fst s), snd s)).

Definition systemAudit (action result reason : string) (metadata : option Json) : Method unit :=
  onWorld (appendAudit "system:control" action (Some reason) result metadata).

Definition commitTransition (state : ControlState) (previousState : option ControlState)
    (reason : string) (affected : list ControlComponent) : Method unit :=
  do! onWorld (recordTransition state previousState reason affected) in
  do! systemAudit "STATE_CHANGE" "OK" reason
        (Some (J_object [("from", stateJson previousState); ("to", stateJson (Some state));
                         ("affected", componentsJson affected)])) in
  assign (set_lastState state).

(** The boot's validation has failed. *)
Definition failBoot (validation : StartupValidation) : Method (bool * StartupValidation) :=
  let failed :=
    join ", " (sc_name <$> filter (fun c => sc_passed c = false) (sw_checks validation)) in
  do! commitTransition FAILED (Some STARTING) ("startup validation failed: " +:+ failed) [] in
  do! systemAudit "STARTUP_FAILED" "FAILED" ("failed checks: " +:+ failed)
        (Some (J_object [("checks", J_array (checkJson <$> sw_checks validation))])) in
  do! assign (set_lastState FAILED) in
  do! assign (fun p => set_started (cp_startupValidated p) false p) in
  ret (false, validation).

Definition boot : Method (bool * StartupValidation) :=
  let! persisted := catch (onWorld getCurrentState) (fun _ => ret BOOTING) in
  do! commitTransition BOOTING (if bool_decide (persisted = BOOTING) then None else Some persisted)
        "worker boot" [] in
  do! commitTransition STARTING (Some BOOTING) "running startup validation" [] in
  let! p := this in
  let! validation := onWorld (validateStartup (cp_redisUrl p) (cp_quantUrl p)) in
  if sw_passed validation then
    do! assign (set_started true true) in
    ret (true, validation)
  else failBoot validation.

(** [getOpenIncident] where a corrupt row is survived by the handler's value. *)
Definition readOpenIncident {A} (corrupt : A) (read : option OpenIncident -> A) : Method A :=
  catch (let! open := onWorld getOpenIncident in ret (read open))
        (fun err => if is_ControlDataError err then ret corrupt else throw err).

Definition readOpenIncidentForResolution : Method (option OpenIncident) :=
  readOpenIncident None id.

(** The verification of the recovery targets. *)
Definition verifyTargets (targets : list ControlComponent) : Method RecoveryOutcome :=
  match targets with
  | [] => ret (Some true)
  | _ =>
      let! p := this in
      let! reports := onWorld (mapAll (fun c => verifyRecovery c (depsOf p)) targets) in
      let recovery := recoveryOutcome reports in
      let ok := bool_decide (recovery = Some true) in
      do! systemAudit (if ok then "RECOVERY_VERIFIED" else "RECOVERY_FAILED")
            (if ok then "OK" else "FAILED")
            ("verified " +:+ join ", " (showComponent <$> targets))
            (Some (J_object [("reports", J_array (reportJson <$> reports))])) in
      ret recovery
  end.

(** Leaving PROTECTED or RECOVERING with everything clear: the state to derive from and
    the outcome of the verification. *)
Definition recover (prev : ControlState) : Method (ControlState * RecoveryOutcome) :=
  do! when (bool_decide (prev = PROTECTED))
        (do! commitTransition RECOVERING (Some prev) "components healthy — verifying recovery" [] in
         assign (set_lastState RECOVERING)) in
  let! open := readOpenIncident None Some in
  let! recovery :=
    match open with
    | None =>
        do! systemAudit "RECOVERY_FAILED" "FAILED"
              "open incident row corrupt — recovery unverifiable (fail-closed)" None in
        ret (Some false)
    | Some open =>
        let! p := this in
        verifyTargets (uniq (cp_lastActiveComponents p
                             ++ from_option oi_affectedComponents [] open))
    end in
  ret (RECOVERING, recovery).

Definition incidentJson (id : string) (more : list (string * Json)) : option Json :=
  Some (J_object (("incidentId", J_string id) :: more)).

(** Opening an incident and its events on entry to PROTECTED. *)
Definition protect (active : list ProtectionVerdict) : Method unit :=
  let! open := readOpenIncident None id in
  let components := uniq (pv_component <$> active) in
  let! incidentId :=
    match open with
    | Some open => ret (oi_id open)
    | None =>
        let type := match active with
                    | [a] => showRule (pv_ruleId a) | _ => "multi" end in
        let! id := onWorld (openIncident type SV_CRITICAL components
                              (join "; " (pv_detail <$> active))) in
        do! systemAudit "PROTECTION_ENGAGED" "OK" (join ", " (showRule ∘ pv_ruleId <$> active))
              (incidentJson id
                 [("rules", J_array (J_string ∘ showRule ∘ pv_ruleId <$> active))]) in
        ret id
    end in
  forEach (fun v =>
    do! onWorld (upsertProtectionEvent (pv_ruleId v) (pv_component v) (pv_severity v)
                   (pv_detail v) (Some incidentId)) in
    ret tt) active.

(** Resolving the open incident, if one can be read. *)
Definition resolveOpen (outcome : ResolveOutcome) (reason : string)
    (more : list (string * Json)) : Method unit :=
  let! open := readOpenIncidentForResolution in
  match open with
  | None => ret tt
  | Some open =>
      do! onWorld (resolveIncident (oi_id open) outcome) in
      systemAudit "INCIDENT_RESOLVED" "OK" reason (incidentJson (oi_id open) more)
  end.

Definition syncIncidentAndProtections (prev next : ControlState)
    (active : list ProtectionVerdict) : Method unit :=
  do! when (bool_decide (next = PROTECTED) && bool_decide (0 < length active)) (protect active) in
  do! when (bool_decide (next = HEALTHY)
            && (bool_decide (prev = RECOVERING) || bool_decide (prev = PROTECTED)))
        (resolveOpen O_VERIFIED "recovery verified" []) in
  when (bool_decide (prev = STOPPED)
        && (bool_decide (next = HEALTHY) || bool_decide (next = DEGRADED)))
    (resolveOpen O_MANUAL_RESUME "operator resume — manual (unverified) recovery"
       [("outcome", J_string "MANUAL_RESUME")]).

(** Recovery is due: a protected state with everything clear. *)
Definition leaving (lastState : ControlState) (inputs : ControlInputs) : bool :=
  (bool_decide (lastState = PROTECTED) || bool_decide (lastState = RECOVERING))
  && bool_decide (length (activeProtections inputs) = 0)
  && negb (ks_engaged (ci_killSwitch inputs)).

(** The evaluation of gathered inputs. *)
Definition evaluateInputs (inputs : ControlInputs) : Method (ControlState * TradingPermission) :=
  let active := activeProtections inputs in
  let! p := this in
  let! recovered :=
    if leaving (cp_lastState p) inputs then recover (cp_lastState p)
    else ret (cp_lastState p, None) in
  let prev := fst recovered in
  let result :=
    deriveRuntimeState prev
      {| ss_killEngaged := ks_engaged (ci_killSwitch inputs); ss_activeProtections := active;
         ss_degraded := isDegraded inputs; ss_recoveryOutcome := snd recovered |} in
  do! onWorld (resolveProtectionEventsExcept (pv_ruleId <$> active)) in
  do! syncIncidentAndProtections prev (rr_state result) active in
  do! when (bool_decide (rr_state result <> prev))
        (commitTransition (rr_state result) (Some prev) (rr_reason result)
           (rr_affectedComponents result)) in
  let permission := evaluateTradingPermission inputs (Some (rr_state result)) in
  do! assign (set_verdict (rr_state result) (pv_component <$> active) permission) in
  ret (rr_state result, permission).

Definition evaluate_ : Method (ControlState * TradingPermission) :=
  let! p := this in
  let! inputs := onWorld (gatherControlInputs (depsOf p)) in
  evaluateInputs inputs.

(** The worker's tick (services/workers/src/index.ts): evaluate when started; an error is
    logged and never aborts the tick. *)
Definition controlTick : Method unit :=
  let! p := this in
  when (started p) (catch (do! evaluate_ in ret tt) (fun _ => ret tt)).
End world.

(** ** gate.ts *)

Record ControlGateDeps (D : Type) := {
  gd_readKillSwitch : M Exn D KillSwitchState;
  gd_currentPermission : option TradingPermission;
  gd_maxPermissionAgeMs : option number;
  gd_now : D -> number * D
}.
Arguments gd_readKillSwitch {D} _.
Arguments gd_currentPermission {D} _.
Arguments gd_maxPermissionAgeMs {D} _.
Arguments gd_now {D} _.

Definition seconds (ms : number) : string := numToString (nround (ndiv ms (nint 1000))).

(** [x || y] on strings *)
Definition orElse (x y : string) : string := if bool_decide (x = "") then y else x.

Section gate.
Context {D : Type}.

(** The age check: the denial of a stale snapshot. *)
Definition staleSnapshot (deps : ControlGateDeps D) (perm : TradingPermission) :
    M Exn D (option RiskGateDecision) :=
  match gd_maxPermissionAgeMs deps with
  | Some maxAge =>
      if isFinite (tp_generatedAt perm) then
        let! now := total (gd_now deps) in
        let ageMs := nsub now (tp_generatedAt perm) in
        if ngt ageMs maxAge then
          ret (Some (Denied "FAIL_CLOSED"
                 ("permission snapshot stale (" +:+ seconds ageMs +:+ "s old > " +:+ seconds maxAge
                  +:+ "s) — control evaluator may be wedged")))
        else ret None
      else ret None
  | None => ret None
  end.

Definition createControlExecutionGate (deps : ControlGateDeps D) : M Exn D RiskGateDecision :=
  catch
    (let! ks := gd_readKillSwitch deps in
     if ks_engaged ks then
       ret (Denied "TRADING_STOPPED"
              ("kill switch engaged by " +:+ default "operator" (ks_actor ks) +:+ ": "
               +:+ default "no reason" (ks_reason ks)))
     else
       match gd_currentPermission deps with
       | None => ret (Denied "CONTROL_NOT_READY" "control plane has not evaluated yet")
       | Some perm =>
           let! stale := staleSnapshot deps perm in
           match stale with
           | Some denial => ret denial
           | None =>
               if bool_decide (tp_permission perm = TP_BLOCKED) then
                 ret (Denied "TRADING_BLOCKED"
                        (orElse (join "; " ((fun b => pr_label b +:+ ": " +:+ pr_detail b)
                                              <$> tp_blockedBy perm)) "trading blocked"))
               else ret Approved
           end
       end)
    (fun err => ret (Denied "FAIL_CLOSED" ("control gate error: " +:+ message err))).

(** The loop of composeGates: the first denial wins. *)
Fixpoint runGates (gates : list (M Exn D RiskGateDecision)) : M Exn D RiskGateDecision :=
  match gates with
  | [] => ret Approved
  | g :: gates =>
      let! decision := g in
      match decision with
      | Approved => runGates gates
      | Denied _ _ => ret decision
      end
  end.

(** services/workers/src/index.ts: no gate, the only gate, or the loop. *)
Definition composeGates (gates : list (option (M Exn D RiskGateDecision))) :
    option (M Exn D RiskGateDecision) :=
  match omap id gates with
  | [] => None
  | [g] => Some g
  | list => Some (runGates list)
  end.
End gate.
