(* ===== verification/ControlFacts.v ===== *)
(** * ControlFacts: lemmas of the control plane

    What each call of the store does to the tables, as [Respects] instances for any
    preorder on tables that allows the call's writes, and as inversion lemmas for calls
    that return. *)

From S2P Require Import Prelude JsNumber JsText Control Effects ControlWorld ControlStore.
From S2P Require Import ControlPlane.

Local Open Scope string_scope.
Local Open Scope list_scope.

(** ** Relations on tables *)

(** The relation R allows any change of one table. *)
Class Keeps {Row} (R : Tables -> Tables -> Prop) (set : list Row -> Tables -> Tables) : Prop :=
  keeps : forall l t, R t (set l t).

(** The relation R allows a new row in one table. *)
Class Appends {Row} (R : Tables -> Tables -> Prop) (get : Tables -> list Row)
    (set : list Row -> Tables -> Tables) : Prop :=
  appends : forall a t, R t (set (get t ++ [a]) t).

(** The part f of the tables is the same. *)
Definition same {A} (f : Tables -> A) (t t' : Tables) : Prop := f t' = f t.

(** The rows of f are those there were and more. *)
Definition extended {Row} (f : Tables -> list Row) (t t' : Tables) : Prop :=
  exists rows, f t' = f t ++ rows.

(** The two append-only logs. *)
Definition logs_extended (t t' : Tables) : Prop :=
  extended t_audits t t' /\ extended t_transitions t t'.

#[export] Instance keeps_appends {Row} R (get : Tables -> list Row) set :
  Keeps R set -> Appends R get set.
Proof. intros H a t. apply H. Qed.

#[export] Instance same_refl {A} (f : Tables -> A) : Reflexive (same f).
Proof. by intros t. Qed.
#[export] Instance same_trans {A} (f : Tables -> A) : Transitive (same f).
Proof. unfold same. by intros t1 t2 t3 -> ->. Qed.

#[export] Instance extended_refl {Row} (f : Tables -> list Row) : Reflexive (extended f).
Proof. intros t. exists []. by rewrite app_nil_r. Qed.
#[export] Instance extended_trans {Row} (f : Tables -> list Row) : Transitive (extended f).
Proof.
  intros t1 t2 t3 [l1 E1] [l2 E2]. exists (l1 ++ l2). by rewrite E2, E1, app_assoc.
Qed.

#[export] Instance logs_extended_refl : Reflexive logs_extended.
Proof. by intros t. Qed.
#[export] Instance logs_extended_trans : Transitive logs_extended.
Proof. intros t1 t2 t3 [A1 B1] [A2 B2]. split; etransitivity; eassumption. Qed.

#[export] Hint Extern 1 (Keeps (same _) _) => intros ? ?; reflexivity : typeclass_instances.
#[export] Hint Extern 1 (Keeps logs_extended _) =>
  intros ? ?; split; exists []; symmetry; apply app_nil_r : typeclass_instances.
#[export] Instance appends_audits : Appends logs_extended t_audits set_audits.
Proof. intros a t. split; [by exists [a]|exact (extended_refl _ t)]. Qed.
#[export] Instance appends_transitions : Appends logs_extended t_transitions set_transitions.
Proof. intros a t. split; [exact (extended_refl _ t)|by exists [a]]. Qed.

(** The relation R on worlds and on the states of methods. *)
Definition onTables {D} `{!World D} (R : Tables -> Tables -> Prop) (d d' : D) : Prop :=
  R (tables d) (tables d').
Definition onState {D} `{!World D} (R : Tables -> Tables -> Prop) (s s' : ControlPlane * D) : Prop :=
  R (tables (snd s)) (tables (snd s')).

#[export] Instance onTables_refl {D} `{!World D} R : Reflexive R -> Reflexive (onTables (D := D) R).
Proof. intros H d. apply H. Qed.
#[export] Instance onTables_trans {D} `{!World D} R : Transitive R -> Transitive (onTables (D := D) R).
Proof. intros H d1 d2 d3. apply H. Qed.
#[export] Instance onState_refl {D} `{!World D} R : Reflexive R -> Reflexive (onState (D := D) R).
Proof. intros H d. apply H. Qed.
#[export] Instance onState_trans {D} `{!World D} R : Transitive R -> Transitive (onState (D := D) R).
Proof. intros H d1 d2 d3. apply H. Qed.

(** ** Running to a result *)

Section runs.
Context {X S : Type}.

Lemma bind_inr {A B} (m : M X S A) (k : A -> M X S B) s b s' :
  bind m k s = (inr b, s') -> exists a s1, m s = (inr a, s1) /\ k a s1 = (inr b, s').
Proof. unfold bind. destruct (m s) as [[x|a] s1]; [done|]. eauto. Qed.

Lemma bind_inl {A B} (m : M X S A) (k : A -> M X S B) s x s' :
  bind m k s = (inl x, s') ->
  m s = (inl x, s') \/ exists a s1, m s = (inr a, s1) /\ k a s1 = (inl x, s').
Proof.
  unfold bind. destruct (m s) as [[y|a] s1]; intros E; [left|right; eauto].
  by injection E as -> ->.
Qed.

Lemma catch_inr {A} (m : M X S A) h s b s' :
  catch m h s = (inr b, s') ->
  m s = (inr b, s') \/ exists x s1, m s = (inl x, s1) /\ h x s1 = (inr b, s').
Proof.
  unfold catch. destruct (m s) as [[x|a] s1]; intros E; [right; eauto|]. left.
  by injection E as -> ->.
Qed.

Lemma onWorld_inr {P W A} (m : M X W A) (s : P * W) a s' :
  onWorld m s = (inr a, s') -> m (snd s) = (inr a, snd s') /\ fst s' = fst s.
Proof. unfold onWorld. destruct (m (snd s)) as [r w]. intros E. by simplify_eq. Qed.

Lemma respects_run {A} (R : S -> S -> Prop) (m : M X S A) s r s' :
  Respects R m -> m s = (r, s') -> R s s'.
Proof. intros H E. pose proof (H s) as K. by rewrite E in K. Qed.

Lemma wp_run {A} (m : M X S A) Q s r s' : wp m Q s -> m s = (r, s') -> Q r s'.
Proof. unfold wp. intros H E. by rewrite E in H. Qed.
End runs.

(** Take apart a computation that returned. *)
Ltac runs H :=
  lazymatch type of H with
  | bind _ _ _ = (inr _, _) =>
      let a := fresh "a" in let s := fresh "s" in let H1 := fresh "H" in
      apply bind_inr in H as (a & s & H1 & H); runs H1; runs H
  | onWorld _ _ = (inr _, _) => let E := fresh "E" in apply onWorld_inr in H as [H E]
  | ret _ _ = (inr _, _) => unfold ret in H; simplify_eq
  | gets _ _ = (inr _, _) => unfold gets in H; simplify_eq
  | modify _ _ = (inr _, _) => unfold modify in H; simplify_eq
  | _ => idtac
  end.

(** ** The calls of a delegate *)

Section delegate.
Context {D : Type} `{!World D} {Row : Type} (dg : Delegate D Row) (id : Row -> string)
  (get : Tables -> list Row) (set : list Row -> Tables -> Tables)
  `{Hok : !DelegateOk dg id get set} (R : Tables -> Tables -> Prop) `{!Reflexive R}.

Lemma reads_respects {A} (m : M Exn D A) (Q : D -> A -> Prop) :
  (forall d, wp m (reads d (Q d)) d) -> Respects (onTables R) m.
Proof using Reflexive0. intros H d. destruct (H d) as [E _]. unfold onTables. by rewrite E. Qed.

Lemma writes_respects {A} (m : M Exn D A) (E : Tables -> A -> Tables -> Prop) :
  (forall d, wp m (writes d E) d) -> (forall t a t', E t a t' -> R t t') ->
  Respects (onTables R) m.
Proof using Reflexive0.
  intros H HE d. specialize (H d). unfold wp, writes, onTables in *.
  destruct (m d) as [[e|a] d']; simpl in *; [|by eapply HE].
  destruct H as [_ [->|[a Ha]]]; [done|by eapply HE].
Qed.

#[export] Instance findUnique_respects i : Respects (onTables R) (findUnique dg i).
Proof using Hok Reflexive0. eapply reads_respects. intros d. apply findUnique_ok. Qed.
#[export] Instance findFirst_respects w k : Respects (onTables R) (findFirst dg w k).
Proof using Hok Reflexive0. eapply reads_respects. intros d. apply findFirst_ok. Qed.
#[export] Instance findMany_respects w k : Respects (onTables R) (findMany dg w k).
Proof using Hok Reflexive0. eapply reads_respects. intros d. apply findMany_ok. Qed.
#[export] Instance count_respects : Respects (onTables R) (count dg).
Proof using Hok Reflexive0. eapply reads_respects. intros d. apply count_ok. Qed.

#[export] Instance create_respects `{!Appends R get set} row : Respects (onTables R) (create dg row).
Proof using Hok Reflexive0.
  eapply writes_respects; [intros d; apply create_ok|].
  intros t a t' (i & now & _ & _ & ->). apply appends.
Qed.
#[export] Instance update_respects `{!Keeps R set} i f : Respects (onTables R) (update dg i f).
Proof using Hok Reflexive0.
  eapply writes_respects; [intros d; apply update_ok|].
  intros t a t' (_ & ->). apply keeps.
Qed.
#[export] Instance updateMany_respects `{!Keeps R set} w f : Respects (onTables R) (updateMany dg w f).
Proof using Hok Reflexive0.
  eapply writes_respects; [intros d; apply updateMany_ok|].
  intros t a t' ->. apply keeps.
Qed.
#[export] Instance upsert_respects `{!Keeps R set} i row f : Respects (onTables R) (upsert dg i row f).
Proof using Hok Reflexive0.
  eapply writes_respects; [intros d; apply upsert_ok|].
  intros t a t' ->. case_bool_decide; apply keeps.
Qed.
End delegate.


(** ** The store and the probes *)

Section respecting.
Set Default Proof Using "Type*".
Context {D : Type} `{!World D} `{!WorldLaws D} (R : Tables -> Tables -> Prop)
  `{!Reflexive R} `{!Transitive R}.

#[export] Instance total_respects {A} (f : D -> A * D) :
  (forall d, tables (snd (f d)) = tables d) -> Respects (onTables R) (total (X := Exn) f).
Proof. intros H d. unfold onTables, total. simpl. by rewrite H. Qed.

#[export] Instance newDate_respects : Respects (onTables R) newDate.
Proof. apply total_respects, dateNow_ok. Qed.

#[export] Instance selectOne_respects : Respects (onTables R) selectOne.
Proof. eapply reads_respects; [done|]. intros d. apply selectOne_ok. Qed.

#[export] Instance fetchOk_respects url : Respects (onTables R) (fetchOk url).
Proof. eapply reads_respects; [done|]. intros d. apply fetchOk_ok. Qed.

#[export] Instance ofResult_respects {S A} (RS : S -> S -> Prop) `{!Reflexive RS} (r : Exn + A) :
  Respects RS (ofResult r).
Proof. by destruct r. Qed.

#[export] Instance getKillSwitch_respects : Respects (onTables R) getKillSwitch.
Proof. unfold getKillSwitch. apply _. Qed.

#[export] Instance getCurrentState_respects : Respects (onTables R) getCurrentState.
Proof. unfold getCurrentState. apply _. Qed.

#[export] Instance getLatestTransition_respects : Respects (onTables R) getLatestTransition.
Proof. unfold getLatestTransition. apply _. Qed.

#[export] Instance getActiveProtectionEvents_respects :
  Respects (onTables R) getActiveProtectionEvents.
Proof. unfold getActiveProtectionEvents. apply _. Qed.

#[export] Instance getOpenIncident_respects : Respects (onTables R) getOpenIncident.
Proof. unfold getOpenIncident. apply _. Qed.

#[export] Instance appendAudit_respects `{!Appends R t_audits set_audits} a b r e m :
  Respects (onTables R) (appendAudit a b r e m).
Proof. unfold appendAudit. apply _. Qed.

#[export] Instance engageKillSwitch_respects `{!Appends R t_audits set_audits}
  `{!Keeps R set_kill} a r : Respects (onTables R) (engageKillSwitch a r).
Proof. unfold engageKillSwitch. apply _. Qed.

#[export] Instance resumeKillSwitch_respects `{!Appends R t_audits set_audits}
  `{!Keeps R set_kill} a r : Respects (onTables R) (resumeKillSwitch a r).
Proof. unfold resumeKillSwitch. apply _. Qed.

#[export] Instance recordTransition_respects `{!Appends R t_transitions set_transitions} s p r a :
  Respects (onTables R) (recordTransition s p r a).
Proof. unfold recordTransition. apply _. Qed.

#[export] Instance upsertProtectionEvent_respects `{!Keeps R set_protections} r c s d i :
  Respects (onTables R) (upsertProtectionEvent r c s d i).
Proof. unfold upsertProtectionEvent. apply _. Qed.

#[export] Instance resolveProtectionEventsExcept_respects `{!Keeps R set_protections} l :
  Respects (onTables R) (resolveProtectionEventsExcept l).
Proof. unfold resolveProtectionEventsExcept. apply _. Qed.

#[export] Instance openIncident_respects `{!Appends R t_incidents set_incidents} t s a d :
  Respects (onTables R) (openIncident t s a d).
Proof. unfold openIncident. apply _. Qed.

#[export] Instance resolveIncident_respects `{!Keeps R set_incidents} i o :
  Respects (onTables R) (resolveIncident i o).
Proof. unfold resolveIncident. apply _. Qed.

#[export] Instance probeDatabase_respects : Respects (onTables R) probeDatabase.
Proof. unfold probeDatabase. apply _. Qed.

#[export] Instance probeRedis_respects u : Respects (onTables R) (probeRedis u).
Proof.
  unfold probeRedis. destruct (truthy u) as [url|]; [|apply _].
  assert (Respects (onTables R) (total (X := Exn) (pingRedis url))); [|apply _].
  apply total_respects. intros d. apply pingRedis_ok.
Qed.

#[export] Instance probeQuant_respects u : Respects (onTables R) (probeQuant u).
Proof. unfold probeQuant. apply _. Qed.

#[export] Instance latestCreatedAt_respects dg id get set :
  DelegateOk dg id get set -> Respects (onTables R) (latestCreatedAt dg).
Proof. intros H. unfold latestCreatedAt. apply _. Qed.

#[export] Instance riskActive_respects : Respects (onTables R) (total (X := Exn) getRiskActive).
Proof. apply total_respects. intros d. apply getRiskActive_ok. Qed.

#[export] Instance gatherControlInputs_respects deps :
  Respects (onTables R) (gatherControlInputs deps).
Proof. unfold gatherControlInputs. apply _. Qed.

#[export] Instance validateStartup_respects r q : Respects (onTables R) (validateStartup r q).
Proof. unfold validateStartup. apply _. Qed.

#[export] Instance verifyRecovery_respects `{!Appends R t_audits set_audits} c deps :
  Respects (onTables R) (verifyRecovery c deps).
Proof. unfold verifyRecovery, recoverySteps, writeReadBack, freshEnough. destruct c; apply _. Qed.
End respecting.

(** ** The methods *)

(** Methods that leave the fields alone. *)
Definition onPlane {D} (s s' : ControlPlane * D) : Prop := fst s' = fst s.

#[export] Instance onPlane_refl {D} : Reflexive (onPlane (D := D)).
Proof. by intros s. Qed.
#[export] Instance onPlane_trans {D} : Transitive (onPlane (D := D)).
Proof. unfold onPlane. intros s1 s2 s3 E1 E2. by rewrite E2. Qed.

#[export] Instance onWorld_plane {D A} (m : M Exn D A) : Respects onPlane (onWorld m).
Proof. intros s. unfold onWorld. by destruct (m (snd s)). Qed.

Section planes.
Context {D : Type} `{!World D}.

#[export] Instance systemAudit_plane a r e m : Respects onPlane (systemAudit a r e m).
Proof. unfold systemAudit. apply _. Qed.
#[export] Instance readOpenIncident_plane {A} (a : A) f : Respects onPlane (readOpenIncident a f).
Proof. unfold readOpenIncident. apply _. Qed.
#[export] Instance verifyTargets_plane l : Respects onPlane (verifyTargets l).
Proof. unfold verifyTargets, this. destruct l; apply _. Qed.
#[export] Instance sync_plane p n l : Respects onPlane (syncIncidentAndProtections p n l).
Proof.
  unfold syncIncidentAndProtections, protect, resolveOpen, readOpenIncidentForResolution. apply _.
Qed.
End planes.

Section methods.
Set Default Proof Using "Type*".
Context {D : Type} `{!World D} `{!WorldLaws D} (R : Tables -> Tables -> Prop)
  `{!Reflexive R} `{!Transitive R}.

#[export] Instance onWorld_respects {A} (m : M Exn D A) :
  Respects (onTables R) m -> Respects (onState R) (onWorld m).
Proof. exact (respects_onWorld (onTables R) m). Qed.

#[export] Instance assign_respects f : Respects (onState R) (assign f).
Proof. intros s. exact (reflexivity (R := R) _). Qed.

#[export] Instance readOpenIncident_respects {A} (a : A) f :
  Respects (onState R) (readOpenIncident a f).
Proof. unfold readOpenIncident. apply _. Qed.

Context `{!Appends R t_audits set_audits}.

#[export] Instance systemAudit_respects a r e m : Respects (onState R) (systemAudit a r e m).
Proof. unfold systemAudit. apply _. Qed.

#[export] Instance verifyTargets_respects l : Respects (onState R) (verifyTargets l).
Proof. unfold verifyTargets, this. destruct l; apply _. Qed.

#[export] Instance protect_respects `{!Appends R t_incidents set_incidents}
  `{!Keeps R set_protections} l : Respects (onState R) (protect l).
Proof. unfold protect. apply _. Qed.

#[export] Instance resolveOpen_respects `{!Keeps R set_incidents} o r m :
  Respects (onState R) (resolveOpen o r m).
Proof. unfold resolveOpen, readOpenIncidentForResolution. apply _. Qed.

#[export] Instance sync_respects `{!Keeps R set_incidents} `{!Keeps R set_protections} p n l :
  Respects (onState R) (syncIncidentAndProtections p n l).
Proof. unfold syncIncidentAndProtections. apply _. Qed.

Context `{!Appends R t_transitions set_transitions}.

#[export] Instance commitTransition_respects s p r a :
  Respects (onState R) (commitTransition s p r a).
Proof. unfold commitTransition. apply _. Qed.

#[export] Instance boot_respects : Respects (onState R) boot.
Proof. unfold boot, failBoot, this. apply _. Qed.

#[export] Instance recover_respects p : Respects (onState R) (recover p).
Proof. unfold recover, this. apply _. Qed.

#[export] Instance evaluate_respects `{!Keeps R set_incidents} `{!Keeps R set_protections} :
  Respects (onState R) evaluate_.
Proof. unfold evaluate_, evaluateInputs, this. apply _. Qed.

#[export] Instance controlTick_respects `{!Keeps R set_incidents} `{!Keeps R set_protections} :
  Respects (onState R) controlTick.
Proof. unfold controlTick, this. apply _. Qed.
End methods.
