(* ===== verification/ControlRuns.v ===== *)
(** * ControlRuns: what the calls that return have done

    Inversion lemmas for the store's calls and the methods of the control plane: the rows
    they wrote and the fields they set. *)

From S2P Require Import Prelude JsNumber JsText Control Effects ControlWorld ControlStore.
From S2P Require Import ControlPlane ControlFacts.

Local Open Scope string_scope.
Local Open Scope list_scope.

(** The rules of the ACTIVE protection events. *)
Definition active_of (l : list ProtectionRow) : list string :=
  pe_ruleId <$> filter (fun r => is_ACTIVE r = true) l.

Definition active_rules (t : Tables) : list string := active_of (t_protections t).

(** Rows that lead from one runtime state to another, each from where the last ended. *)
Fixpoint linked (from : ControlState) (rows : list TransitionRow) (to : ControlState) : Prop :=
  match rows with
  | [] => from = to
  | row :: rows =>
      tr_previousState row = Some (showState from)
      /\ exists next, tr_state row = showState next /\ linked next rows to
  end.

Lemma showState_inj s1 s2 : showState s1 = showState s2 -> s1 = s2.
Proof. by destruct s1, s2. Qed.

Lemma showComponent_inj c1 c2 : showComponent c1 = showComponent c2 -> c1 = c2.
Proof. by destruct c1, c2. Qed.

Lemma showRule_inj r1 r2 : showRule r1 = showRule r2 -> r1 = r2.
Proof. by destruct r1, r2. Qed.

(** ** Active events *)

Lemma active_of_cons r l :
  active_of (r :: l) = if is_ACTIVE r then pe_ruleId r :: active_of l else active_of l.
Proof. unfold active_of. rewrite filter_cons. by destruct (is_ACTIVE r). Qed.

Lemma active_of_app l1 l2 : active_of (l1 ++ l2) = active_of l1 ++ active_of l2.
Proof. unfold active_of. by rewrite filter_app, fmap_app. Qed.

Lemma elem_active_of x l :
  x ∈ active_of l <-> exists r, r ∈ l /\ is_ACTIVE r = true /\ pe_ruleId r = x.
Proof.
  unfold active_of. split.
  - intros (r & -> & [Ha Hr]%list_elem_of_filter)%list_elem_of_fmap. by exists r.
  - intros (r & Hr & Ha & <-). apply list_elem_of_fmap_2. by apply list_elem_of_filter.
Qed.

(** Rewriting rows without touching rules and statuses. *)
Lemma active_of_map f l :
  (forall r, is_ACTIVE (f r) = is_ACTIVE r /\ pe_ruleId (f r) = pe_ruleId r) ->
  active_of (f <$> l) = active_of l.
Proof.
  intros Hf. induction l as [|r l IH]; [done|].
  rewrite fmap_cons, !active_of_cons, IH. by destruct (Hf r) as [-> ->].
Qed.

(** The rules active after a rule is upserted, and after several are. *)
Definition add_rule (l : list string) (x : string) : list string :=
  if bool_decide (x ∈ l) then l else l ++ [x].

Lemma elem_add_rules l rules x : x ∈ foldl add_rule l rules <-> x ∈ l \/ x ∈ rules.
Proof.
  revert l. induction rules as [|r rules IH]; intros l; simpl.
  - split; [by left|]. intros [?|H]; [done|]. by apply elem_of_nil in H.
  - rewrite IH, elem_of_cons. unfold add_rule. case_bool_decide.
    + split; [tauto|]. intros [?|[->|?]]; tauto.
    + rewrite elem_of_app, list_elem_of_singleton. tauto.
Qed.

Lemma NoDup_add_rules l rules : NoDup l -> NoDup (foldl add_rule l rules).
Proof.
  revert l. induction rules as [|r rules IH]; intros l H; simpl; [done|].
  apply IH. unfold add_rule. case_bool_decide as E; [done|].
  apply NoDup_app. split_and!; [done| |apply NoDup_singleton].
  intros x Hx ->%list_elem_of_singleton. done.
Qed.

(** Deactivating the rows that a condition on rules selects. *)
Lemma active_of_resolve (P : string -> bool) f l :
  (forall r, is_ACTIVE (f r) = false) ->
  active_of ((fun r => if is_ACTIVE r && negb (P (pe_ruleId r)) then f r else r) <$> l)
  = filter (fun x => P x = true) (active_of l).
Proof.
  intros Hf. induction l as [|r l IH]; [done|].
  rewrite fmap_cons, !active_of_cons, IH. destruct (is_ACTIVE r) eqn:Ea; simpl.
  - rewrite filter_cons. destruct (P (pe_ruleId r)) eqn:Ep; simpl.
    + by rewrite Ea.
    + by rewrite Hf.
  - by rewrite Ea.
Qed.

(** [uniq] keeps the elements and drops the repetitions. *)
Lemma uniqFrom_spec seen xs :
  NoDup (uniqFrom seen xs) /\ forall c, c ∈ uniqFrom seen xs <-> c ∈ xs /\ c ∉ seen.
Proof.
  revert seen. induction xs as [|x xs IH]; intros seen; simpl.
  - split; [constructor|]. intros c. rewrite elem_of_nil. tauto.
  - case_bool_decide as Hx; [destruct (IH seen) as [Hn He]|destruct (IH (x :: seen)) as [Hn He]].
    + split; [done|]. intros c. rewrite He, elem_of_cons. split; [tauto|].
      intros [[->|?] ?]; tauto.
    + split.
      * constructor; [|done]. rewrite He, elem_of_cons. tauto.
      * intros c. rewrite !elem_of_cons, He, elem_of_cons.
        destruct (decide (c = x)) as [->|]; tauto.
Qed.

Lemma uniq_spec xs : NoDup (uniq xs) /\ forall c, c ∈ uniq xs <-> c ∈ xs.
Proof.
  destruct (uniqFrom_spec [] xs) as [Hn He]. split; [done|].
  intros c. unfold uniq. rewrite He, elem_of_nil. tauto.
Qed.

(** ** Admission *)

Lemma stateOf_spec s st : stateOf (J_string s) = Some st <-> s = showState st.
Proof.
  split.
  - unfold stateOf. case_bool_decide; [|done]. intros [_ E]%find_Some_elem.
    by apply bool_decide_eq_true in E.
  - intros ->. by destruct st.
Qed.

Lemma componentOf_spec v c : componentOf v = Some c <-> v = J_string (showComponent c).
Proof.
  split.
  - unfold componentOf. destruct v; try done. case_bool_decide; [|done].
    intros [_ E]%find_Some_elem. apply bool_decide_eq_true in E. by subst.
  - intros ->. by destruct c.
Qed.

Lemma admitElements_spec l ctx code cs :
  admitElements l ctx code = inr cs <-> l = (fun c => J_string (showComponent c)) <$> cs.
Proof.
  revert cs. induction l as [|v l IH]; intros cs; simpl.
  - split; [by intros [= <-]|]. by destruct cs.
  - split.
    + destruct (componentOf v) as [c|] eqn:E; [|done]. apply componentOf_spec in E as ->.
      destruct (admitElements l ctx code) as [e|cs']; [done|]. intros [= <-].
      simpl. f_equal. by apply IH.
    + destruct cs as [|c cs]; [done|]. intros [= -> El].
      rewrite (proj2 (componentOf_spec _ c) eq_refl), (proj2 (IH cs) El). done.
Qed.

(** ** Store *)

Section store.
Set Default Proof Using "Type*".
Context {D : Type} `{!World D} `{!WorldLaws D}.
Implicit Types (d : D) (s : ControlPlane * D).

Lemma same_call {A B} (f : Tables -> B) (m : M Exn D A) d r d' :
  Respects (onTables (same f)) m -> m d = (r, d') -> f (tables d') = f (tables d).
Proof. exact (respects_run (onTables (same f)) m d r d'). Qed.

Lemma recordTransition_run st p r a d u d' :
  recordTransition st p r a d = (inr u, d') ->
  exists row, tr_state row = showState st /\ tr_previousState row = showState <$> p
    /\ t_transitions (tables d') = t_transitions (tables d) ++ [row].
Proof.
  unfold recordTransition. intros H. runs H.
  destruct (wp_run _ _ _ _ _ (create_ok _ _) H0) as (i & now & _ & -> & ->).
  eexists. split_and!; [| |reflexivity]; done.
Qed.

Lemma appendAudit_run a b r e m d u d' :
  appendAudit a b r e m d = (inr u, d') ->
  exists row, au_actor row = a /\ au_action row = b /\ au_reason row = truthy r
    /\ au_result row = e /\ au_metadata row = m
    /\ t_audits (tables d') = t_audits (tables d) ++ [row].
Proof.
  unfold appendAudit. intros H. runs H.
  destruct (wp_run _ _ _ _ _ (create_ok _ _) H0) as (i & now & _ & -> & ->).
  eexists. split_and!; [..|reflexivity]; done.
Qed.

Lemma resolveProtectionEventsExcept_run rules d u d' :
  resolveProtectionEventsExcept rules d = (inr u, d') ->
  active_rules (tables d')
  = filter (fun x => bool_decide (x ∈ notIn rules) = true) (active_rules (tables d)).
Proof.
  unfold resolveProtectionEventsExcept. intros H. runs H.
  apply (respects_run (onTables (same t_protections))) in H0; [|apply _].
  unfold onTables, same in H0. pose proof (wp_run _ _ _ _ _ (updateMany_ok _ _ _) H) as E.
  simpl in E. unfold active_rules. rewrite E. simpl. rewrite H0.
  pose proof (active_of_resolve (fun x => bool_decide (x ∈ notIn rules))) as K.
  by apply K.
Qed.

Lemma upsertProtectionEvent_run rule c sv det i d x d' :
  upsertProtectionEvent rule c sv det i d = (inr x, d') ->
  active_rules (tables d')
  = add_rule (active_rules (tables d)) (showRule rule).
Proof.
  unfold upsertProtectionEvent, add_rule. intros H. runs H.
  pose proof (wp_run _ _ _ _ _ (findFirst_ok _ _ _) H0) as [Et Hf]. destruct a as [row|].
  - destruct Hf as (Hin & Hw & _). apply andb_true_iff in Hw as [Hr Ha].
    apply bool_decide_eq_true in Hr.
    rewrite bool_decide_true by (apply elem_active_of; by exists row).
    runs H. apply (respects_run (onTables (same t_protections))) in H1; [|apply _].
    unfold onTables, same in H1.
    pose proof (wp_run _ _ _ _ _ (update_ok _ _ _) H2) as [_ E]. unfold active_rules.
    rewrite E. simpl. rewrite H1, Et. apply active_of_map. intros r. unfold on_id.
    by case_bool_decide.
  - runs H. destruct (wp_run _ _ _ _ _ (create_ok _ _) H1) as (j & now & _ & -> & E).
    unfold active_rules. rewrite E, Et. simpl. rewrite active_of_app.
    rewrite bool_decide_false; [done|].
    intros (r & Hr & Ha & Er)%elem_active_of. specialize (Hf r Hr).
    rewrite bool_decide_true in Hf by done. simpl in Hf. congruence.
Qed.

Lemma getOpenIncident_run d o d' :
  getOpenIncident d = (inr o, d') ->
  match o with
  | Some oi => exists row, row ∈ t_incidents (tables d) /\ in_status row = "OPEN"
                 /\ (forall row', row' ∈ t_incidents (tables d) -> in_status row' = "OPEN" ->
                       (in_startedAt row' <= in_startedAt row)%Z)
                 /\ oi_id oi = in_id row
                 /\ exists ctx, admitControlComponents (in_affectedComponents row) ctx
                                  MALFORMED_INCIDENT = inr (oi_affectedComponents oi)
  | None => forall row, row ∈ t_incidents (tables d) -> in_status row <> "OPEN"
  end.
Proof.
  unfold getOpenIncident. intros H. runs H.
  pose proof (wp_run _ _ _ _ _ (findFirst_ok _ _ _) H0) as [_ Hf]. destruct a as [row|].
  - destruct Hf as (Hin & Ho & Hmax). runs H.
    destruct (admitControlComponents _ _ _) as [e|cs] eqn:E; [done|].
    unfold ofResult in H1. runs H1. simplify_eq.
    exists row. apply bool_decide_eq_true in Ho. split_and!; [done..| |done|by eauto].
    intros row' Hr' Ho'. apply (Hmax in_startedAt); [done..|]. by apply bool_decide_eq_true.
  - runs H. intros row Hr. specialize (Hf row Hr). by apply bool_decide_eq_false in Hf.
Qed.

Lemma openIncident_run ty sv cs det d x d' :
  openIncident ty sv cs det d = (inr x, d') ->
  exists row, t_incidents (tables d') = t_incidents (tables d) ++ [row]
    /\ in_status row = "OPEN" /\ in_id row = x /\ in_type row = ty
    /\ in_affectedComponents row = componentsJson cs.
Proof.
  unfold openIncident. intros H. runs H.
  destruct (wp_run _ _ _ _ _ (create_ok _ _) H0) as (i & now & _ & -> & ->).
  eexists. split_and!; [reflexivity|done..].
Qed.

(** The kill-switch row. *)
Definition kill_of (t : Tables) : option KillRow :=
  List.find (fun r => bool_decide (kr_id r = KILL_SWITCH_ID)) (t_kill t).

Lemma find_on_id {Row} (id : Row -> string) i f l :
  (forall r, id (f r) = id r) ->
  List.find (fun r => bool_decide (id r = i)) (on_id id i f <$> l)
  = f <$> List.find (fun r => bool_decide (id r = i)) l.
Proof.
  intros Hf. induction l as [|r l IH]; [done|]. cbn [fmap list_fmap List.find].
  assert (on_id id i f r = if bool_decide (id r = i) then f r else r) as -> by done.
  destruct (bool_decide (id r = i)) eqn:E; [by rewrite Hf, E|by rewrite E].
Qed.

Lemma find_app_new {Row} (id : Row -> string) i (row : Row) l :
  ~ i ∈ (id <$> l) -> id row = i ->
  List.find (fun r => bool_decide (id r = i)) (l ++ [row]) = Some row.
Proof.
  intros Hn <-. induction l as [|r l IH]; simpl; [by rewrite bool_decide_true|].
  rewrite fmap_cons, not_elem_of_cons in Hn. destruct Hn as [Hr Hn].
  rewrite bool_decide_false by congruence. auto.
Qed.

Lemma getKillSwitch_run d ks d' :
  getKillSwitch d = (inr ks, d') ->
  tables d' = tables d /\
  match kill_of (tables d) with
  | Some r => ks_engaged ks = kr_engaged r /\ ks_actor ks = kr_actor r /\ ks_reason ks = kr_reason r
  | None => ks_engaged ks = false
  end.
Proof.
  unfold getKillSwitch. intros H. runs H.
  destruct (wp_run _ _ _ _ _ (findUnique_ok _ _) H0) as [Et Ha]. fold (kill_of (tables d)) in Ha.
  rewrite <- Ha. destruct a; unfold ret in H; by simplify_eq.
Qed.

(** An upsert of the kill-switch row. *)
Lemma kill_upsert_run row f d u d' :
  upsert controlKillSwitch KILL_SWITCH_ID row f d = (inr u, d') ->
  kr_id row = KILL_SWITCH_ID -> (forall r, kr_id (f r) = kr_id r) ->
  kill_of (tables d') = Some (from_option f row (kill_of (tables d))).
Proof.
  intros H Hrow Hf. pose proof (wp_run _ _ _ _ _ (upsert_ok _ _ _ _) H) as E. simpl in E.
  unfold kill_of. rewrite E. case_bool_decide as Hin; simpl.
  - rewrite find_on_id by done. apply list_elem_of_fmap in Hin as (r & Hr & Hin).
    destruct (List.find _ _) eqn:Ef; [done|].
    apply list_elem_of_In in Hin. apply (List.find_none _ _ Ef) in Hin.
    by rewrite bool_decide_true in Hin.
  - rewrite (find_app_new kr_id) by done. destruct (List.find _ _) eqn:Ef; [|done].
    apply find_Some_elem in Ef as [Hr Hi]. apply bool_decide_eq_true in Hi.
    destruct Hin. rewrite <- Hi. by apply list_elem_of_fmap_2.
Qed.

Lemma engageKillSwitch_run a r d u d' :
  engageKillSwitch a r d = (inr u, d') ->
  (exists k, kill_of (tables d') = Some k /\ kr_engaged k = true /\ kr_actor k = Some a
             /\ kr_reason k = Some r)
  /\ exists row, au_action row = "KILL" /\ au_actor row = a
       /\ t_audits (tables d') = t_audits (tables d) ++ [row].
Proof.
  unfold engageKillSwitch. intros H. apply bind_inr in H as (now & d1 & H1 & H).
  apply bind_inr in H as (u1 & d2 & H2 & H).
  destruct (appendAudit_run _ _ _ _ _ _ _ _ H) as (row & Hact & Ha & _ & _ & _ & Et). split.
  - unfold kill_of at 1. rewrite (same_call t_kill _ _ _ _ _ H). fold (kill_of (tables d2)).
    rewrite (kill_upsert_run _ _ _ _ _ H2) by done. eexists. split; [done|].
    by destruct (kill_of (tables d1)).
  - exists row. split_and!; [done..|]. rewrite Et. f_equal.
    rewrite (same_call t_audits _ _ _ _ _ H2). exact (same_call t_audits _ _ _ _ _ H1).
Qed.

Lemma resumeKillSwitch_run a r d u d' :
  resumeKillSwitch a r d = (inr u, d') ->
  (exists k, kill_of (tables d') = Some k /\ kr_engaged k = false /\ kr_reason k = Some r
             /\ kr_actor k = (k' ← kill_of (tables d); kr_actor k'))
  /\ exists row, au_action row = "RESUME" /\ au_actor row = a
       /\ t_audits (tables d') = t_audits (tables d) ++ [row].
Proof.
  unfold resumeKillSwitch. intros H. apply bind_inr in H as (now & d1 & H1 & H).
  apply bind_inr in H as (u1 & d2 & H2 & H).
  destruct (appendAudit_run _ _ _ _ _ _ _ _ H) as (row & Hact & Ha & _ & _ & _ & Et). split.
  - unfold kill_of at 1. rewrite (same_call t_kill _ _ _ _ _ H). fold (kill_of (tables d2)).
    rewrite (kill_upsert_run _ _ _ _ _ H2) by done.
    unfold kill_of at 2. rewrite <- (same_call t_kill _ _ _ _ _ H1). fold (kill_of (tables d1)).
    eexists. split; [done|]. by destruct (kill_of (tables d1)).
  - exists row. split_and!; [done..|]. rewrite Et. f_equal.
    rewrite (same_call t_audits _ _ _ _ _ H2). exact (same_call t_audits _ _ _ _ _ H1).
Qed.

(** The kill switch among gathered inputs: read from the row, or the fallback. *)
Lemma gather_kill deps d inputs d' :
  gatherControlInputs deps d = (inr inputs, d') ->
  exists d1, tables d1 = tables d
    /\ ((exists d2, getKillSwitch d1 = (inr (ci_killSwitch inputs), d2))
        \/ exists e d2, getKillSwitch d1 = (inl e, d2)).
Proof.
  unfold gatherControlInputs. intros H. apply bind_inr in H as (now & d1 & H1 & H).
  apply bind_inr in H as (db & d2 & H2 & H). apply bind_inr in H as (re & d3 & H3 & H).
  apply bind_inr in H as (qu & d4 & H4 & H). apply bind_inr in H as (fe & d5 & H5 & H).
  apply bind_inr in H as (si & d6 & H6 & H). apply bind_inr in H as (ks & d7 & H7 & H).
  apply bind_inr in H as (ri & d8 & H8 & H). unfold ret in H. simplify_eq. simpl.
  exists d6. split.
  - rewrite (same_call id _ _ _ _ _ H6 : tables d6 = _), (same_call id _ _ _ _ _ H5 : tables d5 = _),
      (same_call id _ _ _ _ _ H4 : tables d4 = _), (same_call id _ _ _ _ _ H3 : tables d3 = _),
      (same_call id _ _ _ _ _ H2 : tables d2 = _).
    exact (same_call id _ _ _ _ _ H1).
  - apply catch_inr in H7 as [H7|(e & d9 & H7 & _)]; eauto.
Qed.
End store.

(** ** Methods *)

Section methods.
Set Default Proof Using "Type*".
Context {D : Type} `{!World D} `{!WorldLaws D}.
Implicit Types (s : ControlPlane * D).

(** Some part of the tables is the same after a method that respects it. *)
Lemma same_run {A B} (f : Tables -> B) (m : Method A) s r s' :
  Respects (onState (same f)) m -> m s = (r, s') -> f (tables (snd s')) = f (tables (snd s)).
Proof. exact (respects_run (onState (same f)) m s r s'). Qed.

Lemma systemAudit_run action result reason metadata s u s' :
  systemAudit action result reason metadata s = (inr u, s') ->
  fst s' = fst s /\
  exists row, au_action row = action /\ au_result row = result /\ au_metadata row = metadata
    /\ t_audits (tables (snd s')) = t_audits (tables (snd s)) ++ [row].
Proof.
  unfold systemAudit. intros H. runs H. split; [done|].
  destruct (appendAudit_run _ _ _ _ _ _ _ _ H) as (row & _ & Ha & _ & Hr & Hm & Et). by exists row.
Qed.

Lemma commitTransition_run st p r a s u s' :
  commitTransition st p r a s = (inr u, s') ->
  fst s' = set_lastState st (fst s) /\
  exists row, tr_state row = showState st /\ tr_previousState row = showState <$> p
    /\ t_transitions (tables (snd s')) = t_transitions (tables (snd s)) ++ [row].
Proof.
  unfold commitTransition. intros H. runs H. unfold assign, modify in H. simplify_eq. simpl.
  destruct (recordTransition_run _ _ _ _ _ _ _ H0) as (row & Hs & Hp & Et).
  assert (t_transitions (tables (snd s1)) = t_transitions (tables (snd s0))) as E1.
  { exact (same_run _ _ _ _ _ _ H1). }
  destruct (systemAudit_run _ _ _ _ _ _ _ H1) as [-> _]. rewrite E. split; [done|].
  exists row. by rewrite E1.
Qed.

(** A report of a component whose own probes were all answered and all passed. *)
Definition verified_report (deps : Deps) (r : RecoveryReport) : Prop :=
  rp_verified r = true /\ rp_steps r <> [] /\ Forall (fun st => rs_passed st = true) (rp_steps r)
  /\ exists d d', recoverySteps (rp_component r) deps d = (inr (rp_steps r), d').

(** The audit row of a verified recovery, among the rows from [t] to [t']. *)
Definition recovery_row (reports : list RecoveryReport) (row : AuditRow) : Prop :=
  au_action row = "RECOVERY_VERIFIED" /\ au_result row = "OK"
  /\ au_metadata row = Some (J_object [("reports", J_array (reportJson <$> reports))]).

Lemma verifyRecovery_run c deps d rep d' :
  verifyRecovery c deps d = (inr rep, d') ->
  rp_component rep = c /\ (rp_verified rep = true -> verified_report deps rep).
Proof.
  unfold verifyRecovery. intros H. apply bind_inr in H as (steps & d1 & H1 & H).
  unfold ret in H. simplify_eq. split; [done|]. simpl.
  intros [Hl Hp]%andb_true_iff. apply bool_decide_eq_true in Hl.
  split_and!; simpl; [|by destruct steps; [simpl in Hl; lia|]| |by exists d, d'].
  - by rewrite Hp, bool_decide_true.
  - apply Forall_forall. intros st Hst. rewrite forallb_forall in Hp.
    apply Hp. by apply list_elem_of_In.
Qed.

Lemma verifyAll_run l deps d reports d' :
  mapAll (fun c => verifyRecovery c deps) l d = (inr reports, d') ->
  forallb rp_verified reports = true ->
  rp_component <$> reports = l /\ Forall (verified_report deps) reports.
Proof.
  revert d reports. induction l as [|c l IH]; intros d reports H Hv; simpl in H.
  { unfold ret in H. by simplify_eq. }
  apply bind_inr in H as (rep & d1 & H1 & H). apply bind_inr in H as (reps & d2 & H2 & H).
  unfold ret in H. simplify_eq. apply andb_true_iff in Hv as [Hr Hv].
  destruct (verifyRecovery_run _ _ _ _ _ H1) as [Hc Hrep]. destruct (IH _ _ H2 Hv) as [El Hf].
  split; [simpl; by f_equal|]. constructor; auto.
Qed.

(** A verification that succeeds has a verified report of each of its targets, and the
    audit row of those reports, unless there was nothing to verify. *)
Lemma verifyTargets_run l s s' :
  verifyTargets l s = (inr (Some true), s') ->
  exists reports, rp_component <$> reports = l
    /\ Forall (verified_report (depsOf (fst s))) reports
    /\ (reports = [] \/ exists row rows, recovery_row reports row
         /\ t_audits (tables (snd s')) = t_audits (tables (snd s)) ++ rows ++ [row]).
Proof.
  unfold verifyTargets. destruct l as [|c l]; intros H.
  { exists []. split_and!; [done|constructor|by left]. }
  runs H. unfold this, gets in H0. simplify_eq.
  destruct (respects_run (onTables logs_extended) _ _ _ _ _ H1) as [[rows Er] _].
  assert (forallb rp_verified a0 = true) as Hall.
  { unfold recoveryOutcome in H. by case_bool_decide; simplify_eq. }
  destruct (verifyAll_run _ _ _ _ _ H1 Hall) as [El Hf].
  exists a0. split_and!; [done..|]. right.
  destruct (systemAudit_run _ _ _ _ _ _ _ H2) as [_ (row & Ha & Hr & Hm & Et)].
  rewrite H in Ha, Hr. exists row, rows. split; [done|]. by rewrite Et, Er, app_assoc.
Qed.

Lemma commitTransition_throws st p r a s e s' :
  commitTransition st p r a s = (inl e, s') -> fst s' = fst s.
Proof.
  unfold commitTransition. intros [H|(u & s1 & H1 & H)]%bind_inl.
  { exact (respects_run onPlane _ _ _ _ _ H). }
  rewrite <- (respects_run onPlane _ _ _ _ _ H1 : fst s1 = fst s).
  apply bind_inl in H as [H|(u' & s2 & H2 & H)]; [|done].
  exact (respects_run onPlane _ _ _ _ _ H).
Qed.

(** Whatever a recovery does, the fields end as they were or with RECOVERING. *)
Lemma recover_plane prev s r s' :
  recover prev s = (r, s') -> fst s' = fst s \/ fst s' = set_lastState RECOVERING (fst s).
Proof.
  unfold recover. unfold bind at 1.
  destruct (when _ _ s) as [[e|u] s1] eqn:Hw; intros H.
  - injection H as <- <-. unfold when in Hw. case_bool_decide; [|done].
    apply bind_inl in Hw as [Hw|(u & s2 & _ & Hw)]; [|done].
    left. exact (commitTransition_throws _ _ _ _ _ _ _ Hw).
  - assert (fst s' = fst s1) as ->.
    { eapply (respects_run onPlane); [|exact H]. unfold this. apply _. }
    unfold when in Hw. case_bool_decide; [|left; by injection Hw as _ <-].
    right. runs Hw. unfold assign, modify in Hw. simplify_eq. simpl.
    match goal with K : commitTransition _ _ _ _ _ = (inr _, _) |- _ =>
      by destruct (commitTransition_run _ _ _ _ _ _ _ K) as [-> _] end.
Qed.

(** The entry into RECOVERING. *)
Lemma enter_recovering prev s u s1 :
  prev = PROTECTED \/ prev = RECOVERING ->
  when (bool_decide (prev = PROTECTED))
    (let! x := commitTransition RECOVERING (Some prev)
                 "components healthy — verifying recovery" [] in
     assign (set_lastState RECOVERING))%eff s = (inr u, s1) ->
  cp_lastActiveComponents (fst s1) = cp_lastActiveComponents (fst s)
  /\ depsOf (fst s1) = depsOf (fst s)
  /\ t_incidents (tables (snd s1)) = t_incidents (tables (snd s))
  /\ (exists audits, t_audits (tables (snd s1)) = t_audits (tables (snd s)) ++ audits)
  /\ exists rows, t_transitions (tables (snd s1)) = t_transitions (tables (snd s)) ++ rows
        /\ linked prev rows RECOVERING /\ length rows <= 1.
Proof.
  intros [->| ->]; intros H; cbn in H.
  - apply bind_inr in H as (x & s2 & H1 & H). unfold assign, modify in H. simplify_eq. simpl.
    destruct (commitTransition_run _ _ _ _ _ _ _ H1) as [-> (row & Hs & Hp & Et)].
    pose proof (same_run t_incidents _ _ _ _ _ H1) as Ei.
    destruct (respects_run (onState logs_extended) _ _ _ _ _ H1) as [[audits Ea] _].
    split_and!; [done..|by exists audits|]. exists [row]. split; [done|].
    split; [|simpl; lia]. split; [done|]. by exists RECOVERING.
  - unfold when, ret in H. rewrite bool_decide_false in H by done. simplify_eq.
    split_and!; [done..| |].
    + exists []. by rewrite app_nil_r.
    + exists []. split; [by rewrite app_nil_r|]. split; [done|simpl; lia].
Qed.

(** The open incident a recovery reads: the newest OPEN row, whose components are
    admitted, or no row is open and no component is affected. *)
Definition open_incident (t : Tables) (affected : list ControlComponent) : Prop :=
  (affected = [] /\ forall row, row ∈ t_incidents t -> in_status row <> "OPEN")
  \/ exists row ctx, row ∈ t_incidents t /\ in_status row = "OPEN"
       /\ (forall row', row' ∈ t_incidents t -> in_status row' = "OPEN" ->
             (in_startedAt row' <= in_startedAt row)%Z)
       /\ admitControlComponents (in_affectedComponents row) ctx MALFORMED_INCIDENT = inr affected.

(** A recovery that succeeds has verified every component that was active or that the
    open incident names. *)
Definition recovery_verified (p : ControlPlane) (t t' : Tables) : Prop :=
  exists affected reports,
    open_incident t affected
    /\ rp_component <$> reports = uniq (cp_lastActiveComponents p ++ affected)
    /\ Forall (verified_report (depsOf p)) reports
    /\ (reports = [] \/ exists row rows, recovery_row reports row
         /\ t_audits t' = t_audits t ++ rows ++ [row]).

Lemma recover_run prev s p' rec s' :
  recover prev s = (inr (p', rec), s') -> prev = PROTECTED \/ prev = RECOVERING ->
  p' = RECOVERING
  /\ (exists rows, t_transitions (tables (snd s')) = t_transitions (tables (snd s)) ++ rows
        /\ linked prev rows RECOVERING /\ length rows <= 1)
  /\ (rec = Some true -> recovery_verified (fst s) (tables (snd s)) (tables (snd s'))).
Proof.
  unfold recover. intros H Hprev.
  apply bind_inr in H as (u & s1 & H1 & H).
  destruct (enter_recovering _ _ _ _ Hprev H1) as (El & Ed & Ei & [audits Ea] & rows & Et & Hl & Hn).
  apply bind_inr in H as (open & s2 & H2 & H).
  apply bind_inr in H as (rec' & s3 & H3 & H). injection H as <- <- <-.
  assert (t_transitions (tables (snd s3)) = t_transitions (tables (snd s1))) as Et3.
  { rewrite <- (same_run t_transitions _ _ _ _ _ H2).
    eapply (same_run t_transitions); [|exact H3]. unfold this. apply _. }
  assert (t_audits (tables (snd s2)) = t_audits (tables (snd s1))) as Ea2.
  { exact (same_run t_audits _ _ _ _ _ H2). }
  assert (fst s2 = fst s1) as Ep2.
  { exact (respects_run onPlane _ _ _ _ _ H2). }
  split; [done|]. split; [by exists rows; rewrite Et3|]. intros ->.
  destruct open as [open|]; [|by apply bind_inr in H3 as (? & ? & _ & [=])].
  unfold readOpenIncident in H2.
  apply catch_inr in H2 as [H2|(x & s4 & _ & H2)]; [|by destruct (is_ControlDataError x)].
  apply bind_inr in H2 as (o & s4 & H2 & Ho'). injection Ho' as <- <-.
  apply bind_inr in H3 as (p & s5 & Hp & H3). injection Hp as <- <-.
  unfold onWorld in H2. destruct (getOpenIncident (snd s1)) as [r d] eqn:Hget.
  injection H2 as -> <-. pose proof (getOpenIncident_run _ _ _ Hget) as Ho. rewrite Ei in Ho.
  destruct (verifyTargets_run _ _ _ H3) as (reports & Er & Hf & Hrow).
  rewrite Ep2, El in Er. rewrite Ep2, Ed in Hf.
  exists (from_option oi_affectedComponents [] o), reports. split_and!; [|done..|].
  - destruct o as [oi|]; [|by left]. right.
    destruct Ho as (row & Hin & Hs & Hmax & _ & ctx & E'). by exists row, ctx.
  - destruct Hrow as [?|(row & more & Ha & E')]; [by left|right].
    exists row, (audits ++ more). split; [done|]. by rewrite E', Ea2, Ea, <- !app_assoc.
Qed.

Definition has_open (t : Tables) : Prop :=
  exists row, row ∈ t_incidents t /\ in_status row = "OPEN".

Lemma upsert_events_run i l s u s' :
  forEach (fun v =>
    (let! x := onWorld (upsertProtectionEvent (pv_ruleId v) (pv_component v) (pv_severity v)
                   (pv_detail v) i) in
    ret tt)%eff) l s = (inr u, s') ->
  active_rules (tables (snd s'))
  = foldl add_rule (active_rules (tables (snd s))) (showRule ∘ pv_ruleId <$> l)
  /\ t_incidents (tables (snd s')) = t_incidents (tables (snd s)).
Proof.
  revert s. induction l as [|v l IH]; intros s H; simpl in H; [by runs H|].
  apply bind_inr in H as (u1 & s1 & H1 & H). runs H1. destruct (IH _ H) as [E1 E2]. rewrite E1, E2.
  rewrite (upsertProtectionEvent_run _ _ _ _ _ _ _ _ H0). split; [done|].
  exact (same_call t_incidents _ _ _ _ _ H0).
Qed.

Lemma protect_run active s u s' :
  protect active s = (inr u, s') ->
  has_open (tables (snd s'))
  /\ active_rules (tables (snd s'))
     = foldl add_rule (active_rules (tables (snd s))) (showRule ∘ pv_ruleId <$> active).
Proof.
  unfold protect. intros H.
  apply bind_inr in H as (open & s1 & H1 & H). apply bind_inr in H as (i & s2 & H2 & H).
  destruct (upsert_events_run _ _ _ _ _ H) as [-> Ei].
  pose proof (same_run t_protections _ _ _ _ _ H1) as Ep1.
  pose proof (same_run t_incidents _ _ _ _ _ H1) as Ei1.
  destruct open as [open|].
  - runs H2. split; [|unfold active_rules; by rewrite Ep1].
    unfold readOpenIncident in H1.
    apply catch_inr in H1 as [H1|(x & s4 & _ & H1)]; [|by destruct (is_ControlDataError x)].
    apply bind_inr in H1 as (o & s4 & H1 & Ho). unfold id, ret in Ho. simplify_eq. runs H1.
    destruct (getOpenIncident_run _ _ _ H1) as (row & Hin & Hs & _).
    exists row. by rewrite Ei, Ei1.
  - runs H2.
    destruct (openIncident_run _ _ _ _ _ _ _ H0) as (row & Er & Hs & _).
    pose proof (same_call t_protections _ _ _ _ _ H0) as Ep2.
    pose proof (same_run t_incidents _ _ _ _ _ H3) as Ei3.
    pose proof (same_run t_protections _ _ _ _ _ H3) as Ep3.
    split.
    + exists row. rewrite Ei, Ei3, Er. split; [|done]. apply elem_of_app. right. by left.
    + unfold active_rules. by rewrite Ep3, Ep2, Ep1.
Qed.
End methods.
