(* ===== verification/ControlEval.v ===== *)
(** * ControlEval: an evaluation of the control plane, stage by stage

    The stages of an evaluation that returns, what boot leaves behind, and the operations
    of the running control plane with the invariant of its snapshot. *)

From S2P Require Import Prelude JsNumber JsText Control Effects ControlWorld ControlStore.
From S2P Require Import ControlPlane ControlFacts ControlRuns.

Local Open Scope string_scope.
Local Open Scope list_scope.

(** The rule that protects a component. *)
Definition ruleOf (c : ControlComponent) : ProtectionRuleId :=
  match c with
  | C_database => database_unavailable | C_redis => redis_unavailable
  | C_quant => quant_unavailable | C_features => feature_stale | C_signals => signal_stale
  | C_execution => execution_stale | C_risk => risk_disabled
  end.

(** The protection events name rules of the engine. *)
Definition rules_known (t : Tables) : Prop :=
  Forall (fun x => exists r, x = showRule r) (active_rules t).

(** No rule has two active events. *)
Definition rules_unique (t : Tables) : Prop := NoDup (active_rules t).

(** What the state machine is told. *)
Definition steadyInput (inputs : ControlInputs) (rec : RecoveryOutcome) : SteadyStateInput :=
  {| ss_killEngaged := ks_engaged (ci_killSwitch inputs);
     ss_activeProtections := activeProtections inputs;
     ss_degraded := isDegraded inputs; ss_recoveryOutcome := rec |}.

Lemma linked_app a r1 b r2 c : linked a r1 b -> linked b r2 c -> linked a (r1 ++ r2) c.
Proof.
  revert a. induction r1 as [|r r1 IH]; intros a; simpl; [by intros ->|].
  intros (Hp & next & Hs & H1) H2. split; [done|]. exists next. auto.
Qed.

(** The active rules an evaluation leaves: those still active, and in PROTECTED all. *)
Definition rules_after (st : ControlState) (rules : list ProtectionRuleId) (l : list string) :
    list string :=
  let kept := filter (fun x => bool_decide (x ∈ notIn rules) = true) l in
  if bool_decide (st = PROTECTED) && bool_decide (0 < length rules)
  then foldl add_rule kept (showRule <$> rules) else kept.

Lemma rules_after_unique st rules l : NoDup l -> NoDup (rules_after st rules l).
Proof.
  intros H. unfold rules_after. case_match; [apply NoDup_add_rules|]; by apply NoDup_filter.
Qed.

Lemma rules_after_known st rules l x :
  Forall (fun x => exists r, x = showRule r) l -> x ∈ rules_after st rules l ->
  exists r, r ∈ rules /\ x = showRule r.
Proof.
  intros Hk. assert (x ∈ filter (fun x => bool_decide (x ∈ notIn rules) = true) l ->
    exists r, r ∈ rules /\ x = showRule r) as Hf.
  { intros [Hx Hl]%list_elem_of_filter. apply bool_decide_eq_true in Hx.
    rewrite Forall_forall in Hk. destruct (Hk x Hl) as [r ->]. unfold notIn in Hx.
    destruct rules as [|r0 rules].
    - apply list_elem_of_singleton in Hx. by destruct r.
    - apply list_elem_of_fmap in Hx as (r' & E & Hr'). apply showRule_inj in E as ->.
      by exists r'. }
  unfold rules_after. case_match; [|exact Hf].
  intros [Hx|Hx]%elem_add_rules; [auto|]. apply list_elem_of_fmap in Hx as (r & -> & Hr). eauto.
Qed.

Lemma rules_after_protected rules l r :
  r ∈ rules -> showRule r ∈ rules_after PROTECTED rules l.
Proof.
  intros Hr. unfold rules_after. rewrite (bool_decide_true (0 < length rules)).
  - simpl. apply elem_add_rules. right. by apply list_elem_of_fmap_2.
  - destruct rules; [by apply elem_of_nil in Hr|simpl; lia].
Qed.

(** HEALTHY is derived only with the kill switch off and no rule active. *)
Lemma derive_healthy prev inputs rec :
  rr_state (deriveRuntimeState prev (steadyInput inputs rec)) = HEALTHY ->
  ks_engaged (ci_killSwitch inputs) = false /\ activeProtections inputs = []
  /\ (prev = PROTECTED \/ prev = RECOVERING -> rec = Some true).
Proof.
  unfold deriveRuntimeState, steadyInput. simpl.
  destruct (ks_engaged _); [done|]. case_bool_decide as Ha; [done|].
  assert (activeProtections inputs = []) as ->.
  { apply nil_length_inv. lia. }
  intros H. split_and!; [done..|]. intros [->| ->]; simpl in H; by destruct rec as [[]|].
Qed.

(** PROTECTED is derived from active rules, or from a recovery that failed. *)
Lemma derive_protected prev inputs rec :
  rr_state (deriveRuntimeState prev (steadyInput inputs rec)) = PROTECTED ->
  ks_engaged (ci_killSwitch inputs) = false
  /\ (activeProtections inputs <> [] \/ rec = Some false).
Proof.
  unfold deriveRuntimeState, steadyInput. simpl.
  destruct (ks_engaged _); [done|]. case_bool_decide as Ha.
  { intros _. split; [done|]. left. intros E. rewrite E in Ha. simpl in Ha. lia. }
  repeat case_match; try done. intros _. auto.
Qed.

(** A permission that allows trading is given in HEALTHY only. *)
Lemma allowed_state inputs st :
  tp_permission (evaluateTradingPermission inputs (Some st)) = ALLOWED -> st = HEALTHY.
Proof.
  intros H%permission_allowed_iff. unfold evaluateTradingPermission in H. simpl in H.
  do 8 apply Forall_cons_1 in H as [_ H]. apply Forall_cons_1 in H as [H _]. simpl in H.
  unfold stateBlocks in H. bool_hyps. by destruct (decide (st = HEALTHY)).
Qed.

Section eval.
Set Default Proof Using "Type*".
Context {D : Type} `{!World D} `{!WorldLaws D}.
Implicit Types (s : ControlPlane * D).

(** The stages of an evaluation from s that ends in state st at s'. *)
Record Evaluated s (st : ControlState) (perm : TradingPermission) s' (inputs : ControlInputs)
    (prev : ControlState) (rec : RecoveryOutcome) (d : D) (s1 : ControlPlane * D) (d2 : D)
    (s3 s4 : ControlPlane * D) : Prop := {
  ev_gather : gatherControlInputs (depsOf (fst s)) (snd s) = (inr inputs, d);
  ev_recover :
    (if leaving (cp_lastState (fst s)) inputs then recover (cp_lastState (fst s))
     else ret (cp_lastState (fst s), None)) (fst s, d) = (inr (prev, rec), s1);
  ev_state : st = rr_state (deriveRuntimeState prev (steadyInput inputs rec));
  ev_resolve :
    resolveProtectionEventsExcept (pv_ruleId <$> activeProtections inputs) (snd s1)
    = (inr tt, d2);
  ev_sync :
    syncIncidentAndProtections prev st (activeProtections inputs) (fst s1, d2) = (inr tt, s3);
  ev_commit :
    when (bool_decide (st <> prev))
      (commitTransition st (Some prev)
         (rr_reason (deriveRuntimeState prev (steadyInput inputs rec)))
         (rr_affectedComponents (deriveRuntimeState prev (steadyInput inputs rec)))) s3
    = (inr tt, s4);
  ev_permission : perm = evaluateTradingPermission inputs (Some st);
  ev_end : s' = (set_verdict st (pv_component <$> activeProtections inputs) perm (fst s4), snd s4)
}.

Arguments ev_gather {_ _ _ _ _ _ _ _ _ _ _ _} _.
Arguments ev_recover {_ _ _ _ _ _ _ _ _ _ _ _} _.
Arguments ev_state {_ _ _ _ _ _ _ _ _ _ _ _} _.
Arguments ev_resolve {_ _ _ _ _ _ _ _ _ _ _ _} _.
Arguments ev_sync {_ _ _ _ _ _ _ _ _ _ _ _} _.
Arguments ev_commit {_ _ _ _ _ _ _ _ _ _ _ _} _.
Arguments ev_permission {_ _ _ _ _ _ _ _ _ _ _ _} _.
Arguments ev_end {_ _ _ _ _ _ _ _ _ _ _ _} _.

Lemma evaluate_run s st perm s' :
  evaluate_ s = (inr (st, perm), s') ->
  exists inputs prev rec d s1 d2 s3 s4,
    Evaluated s st perm s' inputs prev rec d s1 d2 s3 s4.
Proof.
  unfold evaluate_, evaluateInputs. intros H.
  apply bind_inr in H as (p & s0 & Hp & H). unfold this, gets in Hp. simplify_eq.
  apply bind_inr in H as (inputs & sg & Hg & H). runs Hg.
  apply bind_inr in H as (p & s0' & Hp & H). unfold this, gets in Hp. simplify_eq.
  apply bind_inr in H as ([prev rec] & s1 & Hr & H).
  apply bind_inr in H as ([] & s2 & H2 & H). runs H2.
  apply bind_inr in H as ([] & s3 & H3 & H).
  apply bind_inr in H as ([] & s4 & H4 & H).
  apply bind_inr in H as ([] & s5 & H5 & H). unfold assign, modify in H5. unfold ret in H.
  simplify_eq. destruct s0' as [pl d], s2 as [pl2 d2]. simpl in *. subst.
  by exists inputs, prev, rec, d, s1, d2, s3, s4.
Qed.

(** The fields an evaluation leaves. *)
Lemma evaluated_fields s st perm s' inputs prev rec d s1 d2 s3 s4 :
  Evaluated s st perm s' inputs prev rec d s1 d2 s3 s4 ->
  cp_lastState (fst s') = st
  /\ cp_lastActiveComponents (fst s') = pv_component <$> activeProtections inputs
  /\ cp_lastPermission (fst s') = Some perm.
Proof. intros H. by rewrite (ev_end H). Qed.

(** The rules of active verdicts are those of their components. *)
Lemma active_ruleOf inputs :
  ruleOf ∘ pv_component <$> activeProtections inputs = pv_ruleId <$> activeProtections inputs.
Proof.
  unfold activeProtections. apply list_fmap_ext. intros i v Hv.
  apply list_elem_of_lookup_2, list_elem_of_filter in Hv as [_ Hv].
  unfold evaluateProtectionRules in Hv.
  repeat (apply elem_of_cons in Hv as [->|Hv]; [done|]). by apply elem_of_nil in Hv.
Qed.

(** Where the evaluation starts from after a recovery. *)
Lemma evaluated_prev s st perm s' inputs prev rec d s1 d2 s3 s4 :
  Evaluated s st perm s' inputs prev rec d s1 d2 s3 s4 ->
  (prev = cp_lastState (fst s) /\ rec = None /\ s1 = (fst s, d)
   /\ leaving (cp_lastState (fst s)) inputs = false)
  \/ (prev = RECOVERING /\ activeProtections inputs = []
      /\ ks_engaged (ci_killSwitch inputs) = false
      /\ (cp_lastState (fst s) = PROTECTED \/ cp_lastState (fst s) = RECOVERING)
      /\ recover (cp_lastState (fst s)) (fst s, d) = (inr (RECOVERING, rec), s1)).
Proof.
  intros H. pose proof (ev_recover H) as Hr.
  destruct (leaving _ _) eqn:El.
  - right. unfold leaving in El. bool_hyps.
    assert (cp_lastState (fst s) = PROTECTED \/ cp_lastState (fst s) = RECOVERING) as Hl.
    { apply orb_true_iff in H0 as [H0|H0]; apply bool_decide_eq_true in H0; auto. }
    destruct (recover_run _ _ _ _ _ Hr Hl) as [-> _]. split_and!; try done.
    by apply nil_length_inv.
  - left. unfold ret in Hr. by simplify_eq.
Qed.

(** What an evaluation appends to the logs after its recovery. *)
Lemma evaluated_logs s st perm s' inputs prev rec d s1 d2 s3 s4 :
  Evaluated s st perm s' inputs prev rec d s1 d2 s3 s4 ->
  logs_extended (tables (snd s1)) (tables (snd s')).
Proof.
  intros H. rewrite (ev_end H). cbn [snd].
  etransitivity; [exact (respects_run (onTables logs_extended) _ _ _ _ _ (ev_resolve H))|].
  etransitivity; [exact (respects_run (onState logs_extended) _ _ _ _ _ (ev_sync H))|].
  exact (respects_run (onState logs_extended) _ _ _ _ _ (ev_commit H)).
Qed.

(** The transition into the state an evaluation derives from. *)
Lemma evaluated_entry s st perm s' inputs prev rec d s1 d2 s3 s4 :
  Evaluated s st perm s' inputs prev rec d s1 d2 s3 s4 ->
  exists rows, t_transitions (tables (snd s1)) = t_transitions (tables (snd s)) ++ rows
    /\ linked (cp_lastState (fst s)) rows prev /\ length rows <= 1.
Proof.
  intros H. rewrite <- (same_call t_transitions _ _ _ _ _ (ev_gather H)).
  destruct (evaluated_prev _ _ _ _ _ _ _ _ _ _ _ _ H)
    as [(-> & _ & -> & _)|(-> & _ & _ & Hl & Hr)].
  - exists []. rewrite app_nil_r. simpl. split_and!; [done..|lia].
  - by destruct (recover_run _ _ _ _ _ Hr Hl) as (_ & Ht & _).
Qed.

(** The transition out of it. *)
Lemma evaluated_exit s st perm s' inputs prev rec d s1 d2 s3 s4 :
  Evaluated s st perm s' inputs prev rec d s1 d2 s3 s4 ->
  exists rows, t_transitions (tables (snd s')) = t_transitions (tables (snd s1)) ++ rows
    /\ linked prev rows st /\ length rows <= 1.
Proof.
  intros H. rewrite (ev_end H). cbn [snd].
  rewrite <- (same_call t_transitions _ _ _ _ _ (ev_resolve H)).
  pose proof (same_run t_transitions _ _ _ _ _ (ev_sync H)) as Es. cbn [snd] in Es.
  rewrite <- Es. pose proof (ev_commit H) as Hc. unfold when, ret in Hc.
  case_bool_decide as Hst.
  - destruct (commitTransition_run _ _ _ _ _ _ _ Hc) as [_ (row & Hs & Hp & Et)].
    exists [row]. split; [done|]. split; [|simpl; lia]. split; [done|]. by exists st.
  - assert (s4 = s3) as -> by (by injection Hc). exists []. rewrite app_nil_r.
    split_and!; [done| |simpl; lia]. simpl. destruct (decide (prev = st)); [done|].
    by destruct Hst.
Qed.

(** The synchronisation's effect on the protection events and incidents. *)
Lemma sync_run prev next active s u s' :
  syncIncidentAndProtections prev next active s = (inr u, s') ->
  let protects := bool_decide (next = PROTECTED) && bool_decide (0 < length active) in
  active_rules (tables (snd s'))
  = (if protects then foldl add_rule (active_rules (tables (snd s))) (showRule ∘ pv_ruleId <$> active)
     else active_rules (tables (snd s)))
  /\ (protects = true -> has_open (tables (snd s'))).
Proof.
  unfold syncIncidentAndProtections. intros H. simpl.
  apply bind_inr in H as (u1 & s1 & H1 & H). apply bind_inr in H as (u2 & s2 & H2 & H).
  assert (t_protections (tables (snd s')) = t_protections (tables (snd s1))) as Ep.
  { rewrite (same_run t_protections _ _ _ _ _ H). exact (same_run t_protections _ _ _ _ _ H2). }
  unfold active_rules. rewrite Ep. fold (active_rules (tables (snd s1))).
  fold (active_rules (tables (snd s))).
  destruct (bool_decide (next = PROTECTED)) eqn:En; simpl in *; cycle 1.
  { unfold when, ret in H1. by simplify_eq. }
  apply bool_decide_eq_true in En as ->.
  assert (s' = s1) as ->.
  { unfold when, ret in H2, H. simpl in *. rewrite andb_false_r in H. by simplify_eq. }
  destruct (bool_decide _); [|unfold when, ret in H1; by simplify_eq].
  destruct (protect_run _ _ _ _ H1) as [Ho ->]. done.
Qed.

Lemma evaluated_rules s st perm s' inputs prev rec d s1 d2 s3 s4 :
  Evaluated s st perm s' inputs prev rec d s1 d2 s3 s4 ->
  active_rules (tables (snd s'))
  = rules_after st (pv_ruleId <$> activeProtections inputs) (active_rules (tables (snd s))).
Proof.
  intros H. rewrite (ev_end H). cbn [snd].
  unfold active_rules at 1. rewrite (same_run t_protections _ _ _ _ _ (ev_commit H)).
  fold (active_rules (tables (snd s3))).
  destruct (sync_run _ _ _ _ _ _ (ev_sync H)) as [-> _]. cbn [snd].
  rewrite (resolveProtectionEventsExcept_run _ _ _ _ (ev_resolve H)).
  assert (active_rules (tables (snd s1)) = active_rules (tables (snd s))) as ->.
  { unfold active_rules. rewrite <- (same_call t_protections _ _ _ _ _ (ev_gather H)). f_equal.
    exact (same_run t_protections _ _ _ _ _ (ev_recover H)). }
  unfold rules_after. by rewrite length_fmap, <- list_fmap_compose.
Qed.

Lemma evaluated_incident s perm s' inputs prev rec d s1 d2 s3 s4 :
  Evaluated s PROTECTED perm s' inputs prev rec d s1 d2 s3 s4 ->
  activeProtections inputs <> [] -> has_open (tables (snd s')).
Proof.
  intros H Hne. rewrite (ev_end H). cbn [snd]. unfold has_open.
  rewrite (same_run t_incidents _ _ _ _ _ (ev_commit H)).
  destruct (sync_run _ _ _ _ _ _ (ev_sync H)) as [_ Ho]. apply Ho.
  rewrite !bool_decide_true; [done| |done]. destruct (activeProtections inputs); [done|simpl; lia].
Qed.

(** A protected state that an interrupted evaluation may turn into RECOVERING. *)
Definition interrupted (p p' : ControlPlane) : Prop :=
  p' = p
  \/ (cp_lastState p = PROTECTED \/ cp_lastState p = RECOVERING) /\ p' = set_lastState RECOVERING p.

(** An evaluation that throws leaves the fields, at most noting RECOVERING. *)
Lemma evaluate_throws s e s' :
  evaluate_ s = (inl e, s') -> interrupted (fst s) (fst s').
Proof.
  unfold evaluate_, evaluateInputs. intros H.
  apply bind_inl in H as [H|(p & s0 & Hp & H)]; [done|]. unfold this, gets in Hp. simplify_eq.
  apply bind_inl in H as [H|(inputs & sg & Hg & H)].
  { left. exact (respects_run onPlane _ _ _ _ _ H). }
  apply bind_inl in H as [H|(p & s1 & Hp & H)]; [done|]. unfold this, gets in Hp. simplify_eq.
  rewrite <- (respects_run onPlane _ _ _ _ _ Hg : fst s1 = fst s0).
  assert (forall r s2, (if leaving (cp_lastState (fst s1)) inputs
            then recover (cp_lastState (fst s1)) else ret (cp_lastState (fst s1), None)) s1 = (r, s2)
          -> interrupted (fst s1) (fst s2)) as Hrec.
  { intros r s2 E. destruct (leaving _ _) eqn:El; [|left; by injection E as _ <-].
    destruct (recover_plane _ _ _ _ E) as [->| ->]; [by left|right].
    unfold leaving in El. bool_hyps. split; [|done].
    match goal with K : _ || _ = true |- _ =>
      apply orb_true_iff in K as [K|K]; apply bool_decide_eq_true in K; auto end. }
  apply bind_inl in H as [H|(recd & s2 & H2 & H)]; [exact (Hrec _ _ H)|].
  replace (fst s') with (fst s2); [exact (Hrec _ _ H2)|]. symmetry.
  apply bind_inl in H as [H|(u3 & s3 & H3 & H)].
  { exact (respects_run onPlane _ _ _ _ _ H). }
  rewrite <- (respects_run onPlane _ _ _ _ _ H3 : fst s3 = fst s2).
  apply bind_inl in H as [H|(u4 & s4 & H4 & H)].
  { exact (respects_run onPlane _ _ _ _ _ H). }
  rewrite <- (respects_run onPlane _ _ _ _ _ H4 : fst s4 = fst s3).
  apply bind_inl in H as [H|(u5 & s5 & H5 & H)].
  { unfold when in H. case_bool_decide; [|done]. exact (commitTransition_throws _ _ _ _ _ _ _ H). }
  apply bind_inl in H as [H|(u6 & s6 & H6 & H)]; done.
Qed.
End eval.
Arguments ev_gather {_ _ _ _ _ _ _ _ _ _ _ _ _ _} _.
Arguments ev_recover {_ _ _ _ _ _ _ _ _ _ _ _ _ _} _.
Arguments ev_state {_ _ _ _ _ _ _ _ _ _ _ _ _ _} _.
Arguments ev_resolve {_ _ _ _ _ _ _ _ _ _ _ _ _ _} _.
Arguments ev_sync {_ _ _ _ _ _ _ _ _ _ _ _ _ _} _.
Arguments ev_commit {_ _ _ _ _ _ _ _ _ _ _ _ _ _} _.
Arguments ev_permission {_ _ _ _ _ _ _ _ _ _ _ _ _ _} _.
Arguments ev_end {_ _ _ _ _ _ _ _ _ _ _ _ _ _} _.

(** ** The running control plane *)

(** What happens to a control plane: its boot, the worker's ticks, a noted fill and the
    operator's kill switch.  Whatever throws leaves what it changed. *)
Inductive ControlOp :=
| OpBoot
| OpTick
| OpNote (ts : Z)
| OpEngage (actor reason : string)
| OpResume (actor reason : string).

Definition is_boot (op : ControlOp) : bool := match op with OpBoot => true | _ => false end.

Section operate.
Set Default Proof Using "Type*".
Context {D : Type} `{!World D}.
Implicit Types (s : ControlPlane * D).

Definition operate s (op : ControlOp) : ControlPlane * D :=
  match op with
  | OpBoot => snd (boot s)
  | OpTick => snd (controlTick s)
  | OpNote ts => (noteExecution ts (fst s), snd s)
  | OpEngage a r => snd (onWorld (engageKillSwitch a r) s)
  | OpResume a r => snd (onWorld (resumeKillSwitch a r) s)
  end.

Context `{!WorldLaws D}.

Lemma operate_logs s op : onState logs_extended s (operate s op).
Proof.
  destruct op; simpl.
  - exact (respects (R := onState logs_extended) (m := boot) s).
  - exact (respects (R := onState logs_extended) (m := controlTick) s).
  - exact (reflexivity (R := logs_extended) _).
  - exact (respects (R := onState logs_extended) (m := onWorld (engageKillSwitch _ _)) s).
  - exact (respects (R := onState logs_extended) (m := onWorld (resumeKillSwitch _ _)) s).
Qed.

(** ** Boot *)

Lemma validateStartup_run r q d v d' :
  validateStartup r q d = (inr v, d') ->
  exists checks, v = summarizeStartup checks
    /\ sc_name <$> checks = REQUIRED_STARTUP_CHECKS.
Proof.
  unfold validateStartup. intros H. apply bind_inr in H as (db & d1 & _ & H).
  apply bind_inr in H as (re & d2 & _ & H). apply bind_inr in H as (qu & d3 & _ & H).
  apply bind_inr in H as (sch & d4 & H4 & H). apply bind_inr in H as (pr & d5 & H5 & H).
  unfold ret in H. simplify_eq. eexists. split; [reflexivity|]. cbn [fmap list_fmap].
  assert (sc_name sch = "schema") as ->.
  { apply catch_inr in H4 as [H4|(x & d6 & _ & H4)]; [by runs H4|]. by runs H4. }
  assert (sc_name pr = "freshness_probes") as ->; [|done].
  apply catch_inr in H5 as [H5|(x & d6 & _ & H5)]; [by runs H5|]. by runs H5.
Qed.

(** What boot cannot change, whatever it does: only the state and the flags. *)
Definition verdict_kept s s' : Prop :=
  cp_lastPermission (fst s') = cp_lastPermission (fst s)
  /\ cp_lastActiveComponents (fst s') = cp_lastActiveComponents (fst s).

#[export] Instance verdict_kept_refl : Reflexive verdict_kept.
Proof. by intros s. Qed.
#[export] Instance verdict_kept_trans : Transitive verdict_kept.
Proof. intros s1 s2 s3 [A1 B1] [A2 B2]. split; etransitivity; eassumption. Qed.
#[export] Instance onWorld_kept {A} (m : M Exn D A) : Respects verdict_kept (onWorld m).
Proof. intros s. unfold verdict_kept. by rewrite (onWorld_plane m s). Qed.
#[export] Instance set_lastState_kept st : Respects verdict_kept (assign (set_lastState st)).
Proof. by intros s. Qed.
#[export] Instance set_started_kept f g :
  Respects verdict_kept (assign (fun p => set_started (f p) g p)).
Proof. by intros s. Qed.
#[export] Instance boot_kept : Respects verdict_kept boot.
Proof.
  unfold boot, failBoot, this, commitTransition, systemAudit.
  assert (Respects verdict_kept (assign (set_started true true))) by (by intros s). apply _.
Qed.

(** The methods that never arm. *)
Definition not_armed s s' : Prop := cp_startedFlag (fst s') = true -> cp_startedFlag (fst s) = true.

#[export] Instance not_armed_refl : Reflexive not_armed.
Proof. intros s H. exact H. Qed.
#[export] Instance not_armed_trans : Transitive not_armed.
Proof. intros s1 s2 s3 A B H. auto. Qed.
#[export] Instance onWorld_not_armed {A} (m : M Exn D A) : Respects not_armed (onWorld m).
Proof. intros s. unfold not_armed. by rewrite (onWorld_plane m s). Qed.
#[export] Instance set_lastState_not_armed st : Respects not_armed (assign (set_lastState st)).
Proof. intros s H. exact H. Qed.
#[export] Instance commitTransition_not_armed st p r a :
  Respects not_armed (commitTransition st p r a).
Proof. unfold commitTransition, systemAudit. apply _. Qed.
#[export] Instance failBoot_not_armed v : Respects not_armed (failBoot v).
Proof.
  unfold failBoot, systemAudit.
  assert (Respects not_armed (assign (fun p => set_started (cp_startupValidated p) false p)))
    by (by intros s H). apply _.
Qed.

Lemma failBoot_run v s b v' s' :
  failBoot v s = (inr (b, v'), s') ->
  b = false /\ v' = v /\ cp_startedFlag (fst s') = false /\ cp_lastState (fst s') = FAILED
  /\ exists row, tr_state row = "FAILED"
       /\ t_transitions (tables (snd s')) = t_transitions (tables (snd s)) ++ [row].
Proof.
  unfold failBoot. intros H. runs H.
  unfold assign, modify in *. simplify_eq. simpl.
  destruct (commitTransition_run _ _ _ _ _ _ _ H0) as [_ (row & Hs & _ & Et)].
  split_and!; [done..|]. exists row. split; [done|]. rewrite <- Et.
  exact (same_run t_transitions _ _ _ _ _ H1).
Qed.

Lemma boot_run s r s' :
  boot s = (r, s') ->
  match r with
  | inr (b, v) =>
      b = sw_passed v /\ sc_name <$> sw_checks v = REQUIRED_STARTUP_CHECKS
      /\ sw_passed v = forallb sc_passed (sw_checks v)
      /\ cp_startedFlag (fst s') = b
      /\ (if b then cp_startupValidated (fst s') = true
          else cp_lastState (fst s') = FAILED
               /\ exists row rows, tr_state row = "FAILED"
                    /\ t_transitions (tables (snd s')) = rows ++ [row])
  | inl _ => not_armed s s'
  end.
Proof.
  intros H. destruct r as [e|[b v]].
  - unfold boot in H.
    apply bind_inl in H as [H|(p & s1 & H1 & H)]; [exact (respects_run not_armed _ _ _ _ _ H)|].
    apply bind_inl in H as [H|(u & s2 & H2 & H)].
    { etransitivity; eapply (respects_run not_armed); eauto; apply _. }
    apply bind_inl in H as [H|(u3 & s3 & H3 & H)].
    { etransitivity; [eapply (respects_run not_armed); [|exact H1]; apply _|].
      etransitivity; eapply (respects_run not_armed); eauto; apply _. }
    pose proof (respects_run not_armed _ _ _ _ _ H1) as K1.
    pose proof (respects_run not_armed _ _ _ _ _ H2) as K2.
    pose proof (respects_run not_armed _ _ _ _ _ H3) as K3.
    apply bind_inl in H as [H|(p4 & s4 & H4 & H)]; [done|]. unfold this, gets in H4. simplify_eq.
    apply bind_inl in H as [H|(v & s5 & H5 & H)].
    { pose proof (respects_run not_armed _ _ _ _ _ H). unfold not_armed in *. tauto. }
    pose proof (respects_run not_armed _ _ _ _ _ H5) as K5.
    destruct (sw_passed v).
    + apply bind_inl in H as [H|(u6 & s6 & H6 & H)]; done.
    + pose proof (respects_run not_armed _ _ _ _ _ H). unfold not_armed in *. tauto.
  - unfold boot in H. runs H.
    match goal with K : validateStartup _ _ _ = _ |- _ =>
      destruct (validateStartup_run _ _ _ _ _ K) as (checks & -> & Hn) end.
    assert (sw_passed (summarizeStartup checks) = forallb sc_passed checks) as Hp.
    { unfold summarizeStartup. simpl. rewrite bool_decide_true; [done|].
      rewrite <- (length_fmap sc_name), Hn. simpl. lia. }
    destruct (sw_passed (summarizeStartup checks)) eqn:Ep.
    + runs H. unfold assign, modify in *. simplify_eq.
      split_and!; try done; by rewrite Ep.
    + destruct (failBoot_run _ _ _ _ _ H) as (-> & -> & Hf & Hs & row & Hr & Et).
      split_and!; try done; [by rewrite Ep..|].
      by exists row, (t_transitions (tables (snd s4))).
Qed.

(** ** The invariant of the snapshot *)

(** A snapshot that allows trading belongs to a started plane in HEALTHY with nothing
    active. *)
Definition snapshot_sound (p : ControlPlane) : Prop :=
  forall perm, cp_lastPermission p = Some perm -> tp_permission perm = ALLOWED ->
    cp_lastState p = HEALTHY /\ cp_lastActiveComponents p = [] /\ cp_startedFlag p = true.

Lemma evaluated_flags s st perm s' :
  evaluate_ s = (inr (st, perm), s') -> cp_startedFlag (fst s') = cp_startedFlag (fst s).
Proof.
  intros (inputs & prev & rec & d & s1 & d2 & s3 & s4 & H)%evaluate_run.
  rewrite (ev_end H). simpl.
  assert (cp_startedFlag (fst s4) = cp_startedFlag (fst s3)) as ->.
  { pose proof (ev_commit H) as Hc. unfold when, ret in Hc.
    case_bool_decide; [|by simplify_eq].
    by destruct (commitTransition_run _ _ _ _ _ _ _ Hc) as [-> _]. }
  rewrite (respects_run onPlane _ _ _ _ _ (ev_sync H) : fst s3 = fst s1).
  pose proof (ev_recover H) as Hr. destruct (leaving _ _).
  - by destruct (recover_plane _ _ _ _ Hr) as [->| ->].
  - unfold ret in Hr. by simplify_eq.
Qed.

Lemma evaluate_snapshot s r s' :
  evaluate_ s = (r, s') -> snapshot_sound (fst s) -> cp_startedFlag (fst s) = true ->
  snapshot_sound (fst s').
Proof.
  intros E Hs Hst. destruct r as [e|[st perm]].
  - destruct (evaluate_throws _ _ _ E) as [->|[Hl ->]]; [done|].
    intros perm Hp Ha. destruct (Hs perm Hp Ha) as (Hh & _). rewrite Hh in Hl.
    by destruct Hl.
  - pose proof (evaluated_flags _ _ _ _ E) as Hf.
    apply evaluate_run in E as (inputs & prev & rec & d & s1 & d2 & s3 & s4 & H).
    destruct (evaluated_fields _ _ _ _ _ _ _ _ _ _ _ _ H) as (H1 & H2 & H3).
    intros perm' Hp Ha. rewrite H3 in Hp. simplify_eq. rewrite (ev_permission H) in Ha.
    apply allowed_state in Ha. rewrite H2, Hf. split_and!; [congruence| |done].
    rewrite (ev_state H) in Ha. destruct (derive_healthy _ _ _ Ha) as (_ & -> & _). done.
Qed.

Lemma operate_snapshot s op :
  snapshot_sound (fst s) -> is_boot op = false -> snapshot_sound (fst (operate s op)).
Proof.
  intros Hs Hop. destruct op; simpl in *; try done.
  - unfold controlTick, this, bind, gets. simpl. unfold when.
    destruct (started (fst s)) eqn:Hst; [|done]. unfold catch.
    destruct (evaluate_ s) as [[e|[st perm]] s1] eqn:E; simpl;
      exact (evaluate_snapshot _ _ _ E Hs Hst).
  - by rewrite (onWorld_plane (engageKillSwitch _ _) s).
  - by rewrite (onWorld_plane (resumeKillSwitch _ _) s).
Qed.

(** The state a worker's boot leaves, from a new control plane. *)
Definition booted (redisUrl quantUrl : option string) (d : D) : ControlPlane * D :=
  operate (newControlPlane redisUrl quantUrl, d) OpBoot.

Lemma booted_snapshot r q d : snapshot_sound (fst (booted r q d)).
Proof.
  intros perm Hp. destruct (boot_kept (newControlPlane r q, d)) as [E _].
  unfold booted in Hp. simpl in Hp. rewrite E in Hp. done.
Qed.
End operate.

(** ** The gate *)

(** The age check always returns, a denial or nothing; nothing means the snapshot is not
    older than the limit. *)
Lemma staleSnapshot_run {D} (deps : ControlGateDeps D) perm d :
  exists d', staleSnapshot deps perm d = (inr None, d')
    /\ (forall maxAge, gd_maxPermissionAgeMs deps = Some maxAge ->
          isFinite (tp_generatedAt perm) = true ->
          ngt (nsub (fst (gd_now deps d)) (tp_generatedAt perm)) maxAge = false)
  \/ exists reason detail, staleSnapshot deps perm d = (inr (Some (Denied reason detail)), d').
Proof.
  unfold staleSnapshot. destruct (gd_maxPermissionAgeMs deps) as [maxAge|].
  - destruct (isFinite (tp_generatedAt perm)).
    + unfold bind, total. cbn [fst snd]. destruct (ngt _ maxAge) eqn:E.
      * eexists. right. by eexists _, _.
      * eexists. left. split; [done|]. by intros m [= <-] _.
    + eexists. left. by split.
  - eexists. left. by split.
Qed.
