(* ===== verification/ControlProps.v ===== *)
(** * ControlProps: what the control plane promises

    First an in-memory outside world, then the properties of the control plane.  The world
    is an instance of [World] that satisfies [WorldLaws]: tables in memory, a clock that
    advances by a millisecond per reading, a network and a risk engine that are up or
    down.  The examples and witnesses of the control plane run on it.  [killReadable]
    says whether the kill-switch row can be read. *)

From stdpp Require Import sorting.
From S2P Require Import Prelude JsNumber JsText Effects Control ControlWorld ControlStore ControlPlane ControlFacts.
From S2P Require Import ControlRuns ControlEval.

Local Open Scope string_scope.
Local Open Scope list_scope.

Record FakeDb := {
  fk_tables : Tables;
  fk_clock : Z;
  fk_redis : bool;
  fk_quant : bool;
  fk_risk : bool
}.

Definition set_tables (t : Tables) (d : FakeDb) : FakeDb :=
  {| fk_tables := t; fk_clock := fk_clock d; fk_redis := fk_redis d; fk_quant := fk_quant d;
     fk_risk := fk_risk d |}.

Definition tick (d : FakeDb) : FakeDb :=
  {| fk_tables := fk_tables d; fk_clock := fk_clock d + 1; fk_redis := fk_redis d;
     fk_quant := fk_quant d; fk_risk := fk_risk d |}.

(** An id longer than every id in use. *)
Fixpoint marks (n : nat) : string :=
  match n with O => "" | S n => String (Ascii.ascii_of_nat 120) (marks n) end.

Definition freshId (ids : list string) : string :=
  marks (S (foldr Nat.max 0 (String.length <$> ids))).

Definition newest {Row} (key : Row -> Z) (r : Row) (l : list Row) : Row :=
  foldl (fun best r => if bool_decide (key best < key r)%Z then r else best) r l.

Definition newer {Row} (key : Row -> Z) (a b : Row) : Prop := (key b <= key a)%Z.

#[export] Instance newer_dec {Row} (key : Row -> Z) : RelDecision (newer key).
Proof. intros a b. unfold newer. apply _. Defined.

Section delegate.
Context {Row : Type} (id : Row -> string) (get : Tables -> list Row)
  (set : list Row -> Tables -> Tables).

Definition matching (w : Row -> bool) (d : FakeDb) : list Row :=
  filter (fun r => w r = true) (get (fk_tables d)).

Definition fakeDelegate (readable : bool) : Delegate FakeDb Row :=
  {| findUnique i d :=
       (if readable then inr (List.find (fun r => bool_decide (id r = i)) (get (fk_tables d)))
        else inl (ClientError "unreadable"), d);
     findFirst w key d :=
       (inr (match matching w d with
             | [] => None
             | r :: l => Some (match key with Some k => newest k r l | None => r end)
             end), d);
     findMany w key d := (inr (merge_sort (newer key) (matching w d)), d);
     count d := (inr (length (get (fk_tables d))), d);
     create row d :=
       let r := row (freshId (id <$> get (fk_tables d))) (fk_clock d) in
       (inr r, set_tables (set (get (fk_tables d) ++ [r]) (fk_tables d)) (tick d));
     update i f d :=
       if bool_decide (i ∈ (id <$> get (fk_tables d))) then
         (inr tt, set_tables (set (on_id id i f <$> get (fk_tables d)) (fk_tables d)) d)
       else (inl (ClientError "record not found"), d);
     updateMany w f d :=
       (inr tt, set_tables (set ((fun r => if w r then f r else r) <$> get (fk_tables d))
                              (fk_tables d)) d);
     upsert i row f d :=
       (inr tt, set_tables (if bool_decide (i ∈ (id <$> get (fk_tables d)))
                            then set (on_id id i f <$> get (fk_tables d)) (fk_tables d)
                            else set (get (fk_tables d) ++ [row]) (fk_tables d)) d) |}.
End delegate.

Definition fakeWorld (killReadable : bool) : World FakeDb :=
  {| tables := fk_tables;
     controlKillSwitch := fakeDelegate kr_id t_kill set_kill killReadable;
     runtimeStateTransition := fakeDelegate tr_id t_transitions set_transitions true;
     protectionEvent := fakeDelegate pe_id t_protections set_protections true;
     incident := fakeDelegate in_id t_incidents set_incidents true;
     controlAuditLog := fakeDelegate au_id t_audits set_audits true;
     featureSnapshot := fakeDelegate sn_id t_features set_features true;
     engineSignal := fakeDelegate sn_id t_signals set_signals true;
     dateNow d := (fk_clock d, tick d);
     selectOne d := (inr tt, d);
     pingRedis url d := ((fk_redis d, if fk_redis d then "PONG" else "refused"), d);
     fetchOk url d := (inr (fk_quant d, if fk_quant d then 200%Z else 503%Z), d);
     getRiskActive d := (fk_risk d, d) |}.

(** ** The laws *)

Lemma marks_length n : String.length (marks n) = n.
Proof. induction n; simpl; congruence. Qed.

Lemma freshId_fresh ids : ~ freshId ids ∈ ids.
Proof.
  intros H. assert (forall i, i ∈ ids -> String.length i <= foldr Nat.max 0 (String.length <$> ids)).
  { clear. induction ids as [|j ids IH]; intros i Hi; [by apply elem_of_nil in Hi|].
    rewrite fmap_cons. cbn [foldr].
    apply elem_of_cons in Hi as [->|Hi]; [lia|]. specialize (IH i Hi). lia. }
  apply H0 in H. unfold freshId in H. rewrite marks_length in H. lia.
Qed.

Lemma newest_spec {Row} (key : Row -> Z) r l :
  newest key r l ∈ r :: l /\ forall x, x ∈ r :: l -> (key x <= key (newest key r l))%Z.
Proof.
  revert r. induction l as [|y l IH]; intros r; unfold newest; simpl.
  - split; [by left|]. by intros x ->%list_elem_of_singleton.
  - case_bool_decide as Hk; [destruct (IH y) as [H1 H2]|destruct (IH r) as [H1 H2]].
    + split; [by right|]. intros x [->|Hx]%elem_of_cons; [|by apply H2].
      transitivity (key y); [lia|]. apply H2. by left.
    + unfold newest in H1. split.
      { apply elem_of_cons in H1 as [->|H1]; [by left|]. by right; right. }
      intros x [->|[->|Hx]%elem_of_cons]%elem_of_cons; [apply H2; by left| |].
      * transitivity (key r); [lia|]. apply H2. by left.
      * apply H2. by right.
Qed.

#[export] Instance newer_total {Row} (key : Row -> Z) : Total (newer key).
Proof. intros a b. unfold newer. lia. Qed.

Section laws.
Context (b : bool).

Lemma fakeDelegate_ok {Row} (id : Row -> string) get set readable :
  DelegateOk (World0 := fakeWorld b) (fakeDelegate id get set readable) id get set.
Proof.
  split.
  - intros i d. split; [done|]. by destruct readable.
  - intros w key d. split; [done|]. simpl.
    destruct (matching get w d) as [|r l] eqn:E.
    + intros r Hr. destruct (w r) eqn:Hw; [|done].
      assert (r ∈ matching get w d) as Hm by (by apply list_elem_of_filter).
      rewrite E in Hm. by apply elem_of_nil in Hm.
    + assert (match key with Some k => newest k r l | None => r end ∈ matching get w d) as Hin.
      { rewrite E. destruct key; [apply newest_spec|by left]. }
      apply list_elem_of_filter in Hin as [Hw Hin]. split_and!; [done..|].
      intros k r' -> Hr' Hw'. apply newest_spec. rewrite <- E. by apply list_elem_of_filter.
  - intros w key d. split; [done|]. simpl. split; [apply merge_sort_Permutation|].
    apply (Sorted_merge_sort (newer key)).
  - by intros d.
  - intros row d. simpl. eexists _, _. split; [apply freshId_fresh|]. done.
  - intros i f d. unfold wp. simpl. case_bool_decide as Hi; simpl; [done|]. split; [done|by left].
  - by intros w f d.
  - by intros i row f d.
Qed.

#[export] Instance fake_laws : @WorldLaws FakeDb (fakeWorld b).
Proof. split; intros; solve [apply fakeDelegate_ok | done]. Qed.
End laws.

(** ** The properties of the control plane

    Permission and state derivation, the evaluation's effects on the tables, the running
    plane's snapshot, boot, the execution gate, the kill switch and the admission of
    persisted values. *)

(** ** Fixtures *)

Definition snapshot_at (t : Z) : list SnapshotRow := [{| sn_id := "s1"; sn_createdAt := t |}].

Definition kill_row (engaged : bool) : KillRow :=
  {| kr_id := "singleton"; kr_engaged := engaged; kr_actor := Some "ops"; kr_reason := Some "drill";
     kr_engagedAt := Some 1000%Z; kr_resumedBy := None; kr_resumedAt := None |}.

Definition sample_incident (affected : Json) : IncidentRow :=
  {| in_id := "i1"; in_type := "redis.unavailable"; in_severity := SV_CRITICAL;
     in_affectedComponents := affected; in_startedAt := 500%Z; in_endedAt := None;
     in_durationSec := None; in_status := "OPEN"; in_recoveryOutcome := None;
     in_detail := None |}.

Definition sample_db (redis : bool) (kill : list KillRow) (incidents : list IncidentRow) : FakeDb :=
  {| fk_tables :=
       {| t_kill := kill; t_transitions := []; t_protections := []; t_incidents := incidents;
          t_audits := []; t_features := snapshot_at 100000; t_signals := snapshot_at 100000 |};
     fk_clock := 110000; fk_redis := redis; fk_quant := true; fk_risk := true |}.

Definition sample_plane (state : ControlState) (active : list ControlComponent) : ControlPlane :=
  {| cp_lastState := state; cp_lastActiveComponents := active; cp_lastPermission := None;
     cp_startupValidated := true; cp_startedFlag := true; cp_lastExecutionAt := None;
     cp_redisUrl := Some "redis://r"; cp_quantUrl := Some "http://q" |}.

(** What a computation returned, and the state it left. *)
Definition returned {S A} (a : A) (r : (Exn + A) * S) : A :=
  match r with (inr x, _) => x | _ => a end.

(** ** Theorems *)

(** Trading is allowed exactly when the database, redis and the quant service are
    healthy, the newest features and signals have been observed within their stale bounds,
    execution is not stale, the risk engine is active, the kill switch is off and the
    runtime state is HEALTHY. *)
Theorem trading_allowed_iff inputs st :
  tp_permission (evaluateTradingPermission inputs (Some st)) = ALLOWED <->
  (ci_database inputs = H_healthy /\ ci_redis inputs = H_healthy /\ ci_quant inputs = H_healthy)
  /\ (exists l, fo_lagSeconds (ci_features inputs) = Some l
                /\ nle l (fo_staleSeconds (ci_features inputs)) = true)
  /\ (exists l, fo_lagSeconds (ci_signals inputs) = Some l
                /\ nle l (fo_staleSeconds (ci_signals inputs)) = true)
  /\ (forall l, fo_lagSeconds (ci_execution inputs) = Some l ->
                ngt l (fo_staleSeconds (ci_execution inputs)) = false)
  /\ ci_riskEngineActive inputs = true /\ ks_engaged (ci_killSwitch inputs) = false
  /\ st = HEALTHY.
Proof.
  rewrite permission_allowed_iff. unfold evaluateTradingPermission. cbn [tp_reasons app].
  rewrite !Forall_cons, Forall_nil. cbn [pr_ok infra_reason stream_reason execution_reason].
  unfold healthy_, stateBlocks, streamFresh. rewrite !bool_decide_eq_true, !negb_true_iff.
  rewrite bool_decide_eq_false. split.
  - intros (Hd & Hr & Hq & Hf & Hs & He & Hk & Hks & Hst & _).
    split_and!; try done; try (repeat case_match; eauto; done).
    + intros l El. by rewrite El in He.
    + by destruct (decide (st = HEALTHY)).
  - intros ((Hd & Hr & Hq) & (lf & Ef & Hf) & (ls & Es & Hs) & He & Hk & Hks & ->).
    rewrite Ef, Es. split_and!; try done; [|by intros K; apply K].
    destruct (fo_lagSeconds (ci_execution inputs)); [by apply He|done].
Qed.

Section props.
Set Default Proof Using "Type*".
Context {D : Type} `{!World D} `{!WorldLaws D}.
Implicit Types (s : ControlPlane * D).

(** C8. Whatever the worker's ticks, noted fills and kill-switch operations do after the
    boot, returning or throwing, a snapshot that allows trading belongs to a started
    control plane in HEALTHY with no component protected. *)
Theorem allowed_snapshot_sound redisUrl quantUrl d s perm :
  run operate (fun op => is_boot op = false) (booted redisUrl quantUrl d) s ->
  currentPermission (fst s) = Some perm -> tp_permission perm = ALLOWED ->
  cp_lastState (fst s) = HEALTHY /\ cp_lastActiveComponents (fst s) = []
  /\ started (fst s) = true.
Proof.
  intros Hr. revert perm. change (snapshot_sound (fst s)).
  refine (run_inv operate _ (fun s => snapshot_sound (fst s)) _ (booted_snapshot _ _ _) _ s Hr).
  exact operate_snapshot.
Qed.

(** C9. An evaluation that leaves PROTECTED or RECOVERING for HEALTHY has verified a
    recovery.  The incident it read is the newest open row, and that row's components
    were admissible, or no row is open; a corrupt row never leads to HEALTHY.  There
    is one report for each component that was last active and each component the
    incident names, no more and none twice; every report is verified: its steps are
    the answer of that component's own probes, there is at least one and all passed.
    The audit log gained a RECOVERY_VERIFIED row with exactly these reports as its
    metadata, unless there was no such component at all; and no component is
    protected afterwards. *)
Theorem healthy_only_verified s perm s' :
  cp_lastState (fst s) = PROTECTED \/ cp_lastState (fst s) = RECOVERING ->
  evaluate_ s = (inr (HEALTHY, perm), s') ->
  exists affected reports,
    open_incident (tables (snd s)) affected
    /\ NoDup (rp_component <$> reports)
    /\ (forall c, c ∈ rp_component <$> reports <->
          c ∈ cp_lastActiveComponents (fst s) \/ c ∈ affected)
    /\ Forall (verified_report (depsOf (fst s))) reports
    /\ (reports = [] \/ exists row before after, recovery_row reports row
          /\ t_audits (tables (snd s')) = t_audits (tables (snd s)) ++ before ++ row :: after)
    /\ cp_lastActiveComponents (fst s') = [].
Proof.
  intros Hl E. apply evaluate_run in E as (inputs & prev & rec & d & s1 & d2 & s3 & s4 & H).
  destruct (derive_healthy _ _ _ (eq_sym (ev_state H))) as (Hk & Ha & Hrec).
  destruct (evaluated_prev _ _ _ _ _ _ _ _ _ _ _ _ H) as [(-> & _ & _ & Hlv)|(-> & _ & _ & _ & Hr)].
  { exfalso. unfold leaving in Hlv. rewrite Ha, Hk in Hlv.
    destruct Hl as [Hl|Hl]; by rewrite Hl in Hlv. }
  specialize (Hrec (or_intror eq_refl)). subst rec.
  destruct (recover_run _ _ _ _ _ Hr Hl) as (_ & _ & Hv).
  destruct (Hv eq_refl) as (affected & reports & Ho & Er & Hf & Hrow).
  pose proof (same_call t_incidents _ _ _ _ _ (ev_gather H)) as Ei.
  pose proof (same_call t_audits _ _ _ _ _ (ev_gather H)) as Ea. simpl in *.
  destruct (uniq_spec (cp_lastActiveComponents (fst s) ++ affected)) as [Hnd Hin].
  exists affected, reports. rewrite Er. split_and!; [| done | | done | |].
  - unfold open_incident in *. by rewrite <- Ei.
  - intros c. by rewrite Hin, elem_of_app.
  - destruct Hrow as [?|(row & before & Hrow & Et)]; [by left|right].
    destruct (evaluated_logs _ _ _ _ _ _ _ _ _ _ _ _ H) as [[after Ea'] _].
    exists row, before, after. split; [done|]. by rewrite Ea', Et, Ea, <- !app_assoc.
  - by destruct (evaluated_fields _ _ _ _ _ _ _ _ _ _ _ _ H) as (_ & -> & _); rewrite Ha.
Qed.

(** An evaluation that returns ends in the state it returns, and the transition rows
    it appended, at most two, lead from the state it started in to that state. *)
Theorem evaluation_transitions_linked s st perm s' :
  evaluate_ s = (inr (st, perm), s') ->
  cp_lastState (fst s') = st /\ cp_lastPermission (fst s') = Some perm
  /\ exists rows, t_transitions (tables (snd s')) = t_transitions (tables (snd s)) ++ rows
       /\ linked (cp_lastState (fst s)) rows st /\ length rows <= 2.
Proof.
  intros (inputs & prev & rec & d & s1 & d2 & s3 & s4 & H)%evaluate_run.
  destruct (evaluated_fields _ _ _ _ _ _ _ _ _ _ _ _ H) as (? & _ & ?).
  split_and!; [done..|].
  destruct (evaluated_entry _ _ _ _ _ _ _ _ _ _ _ _ H) as (r1 & E1 & L1 & N1).
  destruct (evaluated_exit _ _ _ _ _ _ _ _ _ _ _ _ H) as (r2 & E2 & L2 & N2).
  exists (r1 ++ r2). split; [by rewrite E2, E1, app_assoc|].
  split; [by eapply linked_app|]. rewrite length_app. lia.
Qed.

(** When an evaluation returns, every active protection event is of the rule of an
    active component, no rule has two active events, and in PROTECTED every active
    component's rule has one. *)
Theorem evaluation_protection_events s st perm s' :
  rules_known (tables (snd s)) -> rules_unique (tables (snd s)) ->
  evaluate_ s = (inr (st, perm), s') ->
  rules_unique (tables (snd s'))
  /\ (forall x, x ∈ active_rules (tables (snd s')) ->
       exists c, c ∈ cp_lastActiveComponents (fst s') /\ x = showRule (ruleOf c))
  /\ (st = PROTECTED -> forall c, c ∈ cp_lastActiveComponents (fst s') ->
       showRule (ruleOf c) ∈ active_rules (tables (snd s'))).
Proof.
  intros Hk Hu (inputs & prev & rec & d & s1 & d2 & s3 & s4 & H)%evaluate_run.
  destruct (evaluated_fields _ _ _ _ _ _ _ _ _ _ _ _ H) as (_ & -> & _).
  pose proof (active_ruleOf inputs) as Er. unfold rules_unique.
  rewrite (evaluated_rules _ _ _ _ _ _ _ _ _ _ _ _ H). split_and!.
  - apply rules_after_unique, Hu.
  - intros x (r & Hr & ->)%(rules_after_known _ _ _ _ Hk). rewrite <- Er in Hr.
    apply list_elem_of_fmap in Hr as (v & -> & Hv). exists (pv_component v).
    split; [by apply list_elem_of_fmap_2|done].
  - intros -> c (v & -> & Hv)%list_elem_of_fmap. apply rules_after_protected.
    rewrite <- Er. by apply (list_elem_of_fmap_2 (ruleOf ∘ pv_component)).
Qed.

(** An evaluation that returns PROTECTED with components active leaves an OPEN
    incident. *)
Theorem protected_has_incident s perm s' :
  evaluate_ s = (inr (PROTECTED, perm), s') -> cp_lastActiveComponents (fst s') <> [] ->
  has_open (tables (snd s')).
Proof.
  intros (inputs & prev & rec & d & s1 & d2 & s3 & s4 & H)%evaluate_run Hne.
  destruct (evaluated_fields _ _ _ _ _ _ _ _ _ _ _ _ H) as (_ & Ha & _).
  rewrite Ha in Hne. eapply evaluated_incident; [exact H|].
  intros E. rewrite E in Hne. done.
Qed.

(** The boot of a new control plane arms it exactly when it returns that it has
    started; it returns so exactly when each of the five required checks passed; otherwise
    the state is FAILED, recorded as the last transition; it never leaves a permission. *)
Theorem boot_fail_closed redisUrl quantUrl d r s' :
  boot (newControlPlane redisUrl quantUrl, d) = (r, s') ->
  (started (fst s') = true <-> exists v, r = inr (true, v))
  /\ currentPermission (fst s') = None
  /\ (forall b v, r = inr (b, v) ->
       sc_name <$> sw_checks v = REQUIRED_STARTUP_CHECKS
       /\ b = forallb sc_passed (sw_checks v)
       /\ (b = false -> cp_lastState (fst s') = FAILED
            /\ exists row rows, tr_state row = "FAILED"
                 /\ t_transitions (tables (snd s')) = rows ++ [row])).
Proof.
  intros E. pose proof (boot_run _ _ _ E) as Hb.
  destruct (respects_run verdict_kept _ _ _ _ _ E) as [Hp _]. unfold started, currentPermission.
  rewrite Hp. destruct r as [e|[b v]].
  - split_and!; [|done|done]. split; [intros Hs; by apply Hb in Hs|by intros [v ?]].
  - destruct Hb as (-> & Hn & Hf & -> & Hs). split_and!; [|done|].
    + split; [intros ->; eauto|intros [v' ?]; by simplify_eq].
    + intros b v' [= <- <-]. split_and!; [done..|]. intros Hfalse. by rewrite Hfalse in Hs.
Qed.

(** After an operator engages the kill switch it reads as engaged by them with their
    reason, and after one resumes it reads as released with that reason; both leave an
    audit row. *)
Theorem kill_switch_round_trip actor reason actor' reason' d d1 d2 d3 d4 ks1 ks2 :
  engageKillSwitch actor reason d = (inr tt, d1) -> getKillSwitch d1 = (inr ks1, d2) ->
  resumeKillSwitch actor' reason' d2 = (inr tt, d3) -> getKillSwitch d3 = (inr ks2, d4) ->
  (ks_engaged ks1 = true /\ ks_actor ks1 = Some actor /\ ks_reason ks1 = Some reason)
  /\ (ks_engaged ks2 = false /\ ks_actor ks2 = Some actor /\ ks_reason ks2 = Some reason')
  /\ exists row row', t_audits (tables d4) = t_audits (tables d) ++ [row; row']
       /\ au_action row = "KILL" /\ au_actor row = actor
       /\ au_action row' = "RESUME" /\ au_actor row' = actor'.
Proof.
  intros [(k & E1 & He & Ha & Hr) (row & Hk & Hka & Ea)]%engageKillSwitch_run
    [Et2 H2]%getKillSwitch_run
    [(k' & E3 & He' & Hr' & Ha') (row' & Hk' & Hka' & Ea')]%resumeKillSwitch_run
    [Et4 H4]%getKillSwitch_run.
  rewrite E1 in H2. rewrite E3 in H4. rewrite Et2, E1 in Ha'. simpl in Ha'.
  destruct H2 as (-> & -> & ->), H4 as (-> & -> & ->).
  rewrite Ha', Hr'. split_and!; [done..|]. exists row, row'.
  split_and!; [|done..]. by rewrite Et4, Ea', Et2, Ea, <- app_assoc.
Qed.

(** Nothing the control plane does, returning or throwing, changes or removes a row of
    the audit log or of the transition log: both are only extended. *)
Theorem logs_append_only s s' :
  run operate (fun _ => True) s s' ->
  extended t_audits (tables (snd s)) (tables (snd s'))
  /\ extended t_transitions (tables (snd s)) (tables (snd s')).
Proof.
  intros H. change (onState logs_extended s s').
  refine (run_inv operate _ (onState logs_extended s) s (reflexivity s) _ s' H).
  intros s1 op H1 _. etransitivity; [exact H1|apply operate_logs].
Qed.

(** With the kill switch engaged and its row readable, an evaluation that returns is
    STOPPED and blocks trading, whatever the state and the components' health. *)
Theorem kill_switch_stops s st perm s' k :
  (forall d, exists o d', findUnique controlKillSwitch KILL_SWITCH_ID d = (inr o, d')) ->
  kill_of (tables (snd s)) = Some k -> kr_engaged k = true ->
  evaluate_ s = (inr (st, perm), s') -> st = STOPPED /\ tp_permission perm = TP_BLOCKED.
Proof.
  intros Hread Hk He (inputs & prev & rec & d & s1 & d2 & s3 & s4 & H)%evaluate_run.
  assert (ks_engaged (ci_killSwitch inputs) = true) as Hi.
  { destruct (gather_kill _ _ _ _ (ev_gather H)) as (d5 & Et & [[d6 E]|(e & d6 & E)]).
    - apply getKillSwitch_run in E as [_ E]. rewrite Et, Hk in E. by destruct E as [-> _].
    - unfold getKillSwitch, bind in E. destruct (Hread d5) as (o & d7 & E'). rewrite E' in E.
      by destruct o. }
  assert (st = STOPPED) as ->.
  { rewrite (ev_state H). unfold deriveRuntimeState, steadyInput. simpl. by rewrite Hi. }
  split; [done|]. rewrite (ev_permission H).
  destruct (tp_permission _) eqn:E; [|done]. by apply allowed_state in E.
Qed.
End props.

(** C10. The execution gate always returns; it approves only when the live kill switch was
    read and is off and there is a snapshot that allows trading and, where an age limit is
    set and the snapshot is dated, is not older than the limit. *)
Theorem control_gate_fail_closed {D} (deps : ControlGateDeps D) d :
  exists r d', createControlExecutionGate deps d = (inr r, d')
  /\ (r = Approved ->
      exists ks d1 perm, gd_readKillSwitch deps d = (inr ks, d1) /\ ks_engaged ks = false
        /\ gd_currentPermission deps = Some perm /\ tp_permission perm = ALLOWED
        /\ forall maxAge, gd_maxPermissionAgeMs deps = Some maxAge ->
             isFinite (tp_generatedAt perm) = true ->
             ngt (nsub (fst (gd_now deps d1)) (tp_generatedAt perm)) maxAge = false).
Proof.
  unfold createControlExecutionGate, catch, bind.
  destruct (gd_readKillSwitch deps d) as [[e|ks] d1] eqn:Ek; [by eexists _, _|].
  destruct (ks_engaged ks) eqn:He; [by eexists _, _|].
  destruct (gd_currentPermission deps) as [perm|]; [|by eexists _, _].
  destruct (staleSnapshot_run deps perm d1) as (d2 & [[-> Hage]|(re & de & ->)]);
    [|by eexists _, _].
  case_bool_decide; [by eexists _, _|]. eexists _, _. split; [reflexivity|]. intros _.
  exists ks, d1, perm. split_and!; try done. by destruct (tp_permission perm).
Qed.

(** Admission accepts exactly what the control plane writes: a persisted state only in
    the spelling of a state, components only as null, undefined or the array of the
    spellings of the components returned. *)
Theorem admission_exact v ctx code s st cs :
  (assertValidRuntimeState (J_string s) ctx code = inr st <-> s = showState st)
  /\ (admitControlComponents v ctx code = inr cs <->
      v = componentsJson cs \/ cs = [] /\ (v = J_null \/ v = J_undefined)).
Proof.
  split.
  - unfold assertValidRuntimeState. rewrite <- stateOf_spec.
    destruct (stateOf (J_string s)); [|done]. by split; intros [= ->].
  - unfold componentsJson. split.
    + destruct v; try done; simpl.
      * intros [= <-]. auto.
      * intros [= <-]. auto.
      * intros E%admitElements_spec. left. by rewrite E.
    + intros [->|[-> [->| ->]]]; [|done..]. simpl. by apply admitElements_spec.
Qed.

(** Gates composed with the control gate in front deny what it denies, with its
    reason, and no later gate is asked. *)
Theorem composed_denial {D} (g : M Exn D RiskGateDecision) gates d d' reason detail :
  g d = (inr (Denied reason detail), d') ->
  exists f, composeGates (Some g :: gates) = Some f /\ f d = (inr (Denied reason detail), d').
Proof.
  intros E. unfold composeGates.
  change (omap id (Some g :: gates)) with (g :: omap id gates).
  destruct (omap id gates) as [|g' gs]; [by exists g|].
  eexists. split; [reflexivity|]. cbn [runGates]. unfold bind at 1. by rewrite E.
Qed.

(** ** Witnesses *)

#[local] Instance sample_world : World FakeDb := fakeWorld true.

Definition no_permission : TradingPermission :=
  {| tp_permission := TP_BLOCKED; tp_generatedAt := NaN; tp_reasons := []; tp_blockedBy := [] |}.

(** A worker that has booted and ticked once with everything up. *)
Definition sample_live : ControlPlane * FakeDb :=
  operate (booted (Some "redis://r") (Some "http://q") (sample_db true [] [])) OpTick.

Definition sample_permission : TradingPermission :=
  default no_permission (currentPermission (fst sample_live)).

Lemma allowed_snapshot_sound_witness :
  tp_permission sample_permission = ALLOWED
  /\ (cp_lastState (fst sample_live) = HEALTHY /\ cp_lastActiveComponents (fst sample_live) = []
      /\ started (fst sample_live) = true).
Proof.
  split; [evaluate|].
  refine (allowed_snapshot_sound (Some "redis://r") (Some "http://q") (sample_db true [] [])
            sample_live sample_permission _ _ _); [|evaluate|evaluate].
  exact (run_step operate _ _ _ OpTick (run_refl operate _ _) eq_refl).
Defined.

(** Redis is back while an incident is open. *)
Definition recovering : ControlPlane * FakeDb :=
  (sample_plane PROTECTED [C_redis],
   sample_db true [] [sample_incident (componentsJson [C_redis])]).

Definition recovered : (Exn + ControlState * TradingPermission) * (ControlPlane * FakeDb) :=
  evaluate_ recovering.

Lemma healthy_only_verified_witness :
  evaluate_ recovering
  = (inr (HEALTHY, snd (returned (BOOTING, no_permission) recovered)), snd recovered)
  /\ exists affected (reports : list RecoveryReport), open_incident (tables (snd recovering)) affected
       /\ forall c, c ∈ rp_component <$> reports <-> c ∈ [C_redis] \/ c ∈ affected.
Proof.
  assert (evaluate_ recovering
    = (inr (HEALTHY, snd (returned (BOOTING, no_permission) recovered)), snd recovered)) as E
    by evaluate.
  split; [exact E|].
  destruct (healthy_only_verified recovering _ _ (or_introl eq_refl) E)
    as (affected & reports & Ho & _ & Hr & _).
  exact (ex_intro _ affected (ex_intro _ reports (conj Ho Hr))).
Defined.

(** After a failed recovery nothing is active any more, and the incident's component is
    still verified before HEALTHY. *)
Example recovering_incident_verified :
  let s := (sample_plane RECOVERING [],
            sample_db true [] [sample_incident (componentsJson [C_redis])]) in
  fst (returned (BOOTING, no_permission) (evaluate_ s)) = HEALTHY
  /\ (au_action <$> t_audits (tables (snd (snd (evaluate_ s)))))
     = ["RECOVERY_VERIFIED"; "INCIDENT_RESOLVED"; "STATE_CHANGE"].
Proof. by vm_compute. Qed.

Lemma evaluation_transitions_linked_witness :
  exists rows, t_transitions (tables (snd (snd recovered))) = rows
    /\ linked PROTECTED rows HEALTHY /\ length rows <= 2.
Proof.
  refine (proj2 (proj2 (evaluation_transitions_linked recovering HEALTHY
    (snd (returned (BOOTING, no_permission) recovered)) (snd recovered) _))).
  evaluate.
Defined.

(** Redis goes down under a healthy worker. *)
Definition healthy_worker : ControlPlane * FakeDb :=
  (sample_plane HEALTHY [], sample_db false [] []).

Definition outage : (Exn + ControlState * TradingPermission) * (ControlPlane * FakeDb) :=
  evaluate_ healthy_worker.

Lemma evaluation_protection_events_witness :
  rules_unique (tables (snd (snd outage)))
  /\ (forall c, c ∈ cp_lastActiveComponents (fst (snd outage)) ->
       showRule (ruleOf c) ∈ active_rules (tables (snd (snd outage)))).
Proof.
  assert (evaluate_ healthy_worker
    = (inr (PROTECTED, snd (returned (BOOTING, no_permission) outage)), snd outage)) as E
    by evaluate.
  pose proof (evaluation_protection_events healthy_worker _ _ _ (Forall_nil_2 _)
                (NoDup_nil_2) E) as (H1 & _ & H3).
  exact (conj H1 (H3 eq_refl)).
Defined.

Lemma protected_has_incident_witness : has_open (tables (snd (snd outage))).
Proof.
  refine (protected_has_incident healthy_worker
            (snd (returned (BOOTING, no_permission) outage)) (snd outage) _ _).
  - evaluate.
  - assert (cp_lastActiveComponents (fst (snd outage)) = [C_redis]) as -> by evaluate.
    discriminate.
Defined.

Lemma boot_fail_closed_witness :
  started (fst (booted (Some "redis://r") (Some "http://q") (sample_db true [] []))) = true.
Proof.
  refine (proj2 (proj1 (boot_fail_closed (Some "redis://r") (Some "http://q")
    (sample_db true [] []) _ _ (surjective_pairing _))) _).
  eexists. evaluate.
Defined.

(** An operator's stop and resume. *)
Definition stopped_db : FakeDb := snd (engageKillSwitch "ops" "drill" (sample_db true [] [])).
Definition resumed_db : FakeDb := snd (resumeKillSwitch "lead" "done" stopped_db).

Lemma kill_switch_round_trip_witness :
  exists row row', t_audits (tables resumed_db) = [row; row']
    /\ au_action row = "KILL" /\ au_actor row = "ops"
    /\ au_action row' = "RESUME" /\ au_actor row' = "lead".
Proof.
  refine (proj2 (proj2 (kill_switch_round_trip "ops" "drill" "lead" "done" (sample_db true [] [])
    stopped_db stopped_db resumed_db resumed_db
    {| ks_engaged := true; ks_actor := Some "ops"; ks_reason := Some "drill";
       ks_engagedAt := Some (toISOString 110000) |}
    {| ks_engaged := false; ks_actor := Some "ops"; ks_reason := Some "done";
       ks_engagedAt := Some (toISOString 110000) |} _ _ _ _))); evaluate.
Defined.

Lemma logs_append_only_witness :
  extended t_audits (tables (snd healthy_worker)) (tables (snd (operate healthy_worker OpTick)))
  /\ extended t_transitions (tables (snd healthy_worker))
       (tables (snd (operate healthy_worker OpTick))).
Proof.
  apply (logs_append_only healthy_worker (operate healthy_worker OpTick)).
  exact (run_step operate _ _ _ OpTick (run_refl operate _ _) I).
Defined.

Definition killed_worker : ControlPlane * FakeDb :=
  (sample_plane HEALTHY [], sample_db true [kill_row true] []).

Lemma kill_switch_stops_witness :
  STOPPED = STOPPED
  /\ tp_permission (snd (returned (BOOTING, no_permission) (evaluate_ killed_worker))) = TP_BLOCKED.
Proof.
  refine (kill_switch_stops killed_worker STOPPED _ (snd (evaluate_ killed_worker))
            (kill_row true) _ _ _ _); [|evaluate..].
  intros d. eexists _, _. reflexivity.
Defined.

Lemma composed_denial_witness :
  exists f, composeGates [Some (ret (Denied "TRADING_STOPPED" "kill")); Some (ret Approved)] = Some f
    /\ f (sample_db true [] [])
       = (inr (Denied "TRADING_STOPPED" "kill"), sample_db true [] []).
Proof.
  exact (composed_denial (ret (Denied "TRADING_STOPPED" "kill")) [Some (ret Approved)]
           (sample_db true [] []) (sample_db true [] []) "TRADING_STOPPED" "kill" eq_refl).
Defined.

(** With the kill switch engaged but its row unreadable for one tick, a STOPPED worker is
    evaluated as resumed: HEALTHY, with a permission that allows trading. *)
Example unreadable_kill_switch_resumes :
  let r := @evaluate_ _ (fakeWorld false)
             (sample_plane STOPPED [], sample_db true [kill_row true] []) in
  fst (returned (BOOTING, no_permission) r) = HEALTHY
  /\ tp_permission (snd (returned (BOOTING, no_permission) r)) = ALLOWED.
Proof. split; evaluate. Qed.
